(* ===== verification/_CoqProject ===== *)
-Q . S2P
Prelude.v
VectorClock.v
FedTypes.v
Endpoints.v
FedServer.v
FedReplica.v
FedInvariants.v
FedThreads.v
PeerClient.v
FedFullSync.v
Sha256.v
GoStrings.v
GoPath.v
GoNet.v
Float64.v
GoLib.v
GoScan.v
Convert.v
AppErrors.v
ConfigValidation.v
BuilderTypes.v
BuilderConvert.v
SnapshotBuilder.v
BuilderSecrets.v
BuilderVersion.v
IngressTranslate.v
KubeApi.v
IngressReconcile.v
GatewayApi.v
GatewayReconcile.v
Dataplane.v
DataplaneSpec.v
IngressDataplane.v
GatewaySpec.v
GatewayListeners.v
ProxyReconcile.v
ProxySpec.v
StandaloneConfig.v
StandaloneConvert.v
StandaloneSpec.v
RemoteAgents.v
SnapshotServer.v
AgentWatcher.v
MeshAuthz.v
Gossip.v
SdwanProbe.v
SdwanPath.v
Merkle.v
AntiEntropy.v
SplitBrain.v
SnapshotFed.v
AgentPersistence.v
FedManager.v
FedWebhook.v
FedController.v
FedApplier.v
RemoteCluster.v
MeshIntercept.v
MeshManager.v
MeshTunnel.v
ClusterTemplates.v
CommandLine.v
ClusterOperator.v
