(* ===== verification/Prelude.v ===== *)
(** * NovaEdge: verification development

    NovaEdge is a load balancer for Kubernetes. A controller watches resources
    (gateways, routes, backends, policies, WAN links), builds configuration
    snapshots from them and streams a snapshot to the agent of every node. The
    agents apply it, gossip about its version, authorize mesh traffic and
    choose WAN paths. Controllers of several clusters form a federation that
    replicates resources with vector clocks. This development models these
    parts as executable functions and step relations, and proves what each
    part and their compositions promise.

    ** The parts and their files

    Foundations
    - [Prelude]: 64- and 32-bit integers with wrap-around, maps, range loops
      over maps in any order, the outcome of code that can panic, tactics and
      the hint database.
    - [GoStrings], [GoPath], [GoNet], [GoLib], [GoScan], [Float64], [Sha256]:
      what the program uses of the Go standard library, executable, with round
      trips and published test vectors.
    - [KubeApi]: programs that call the Kubernetes API, in which any call may
      fail, with rules for reasoning about them.

    Federation ([src/internal/controller/federation])
    - [VectorClock] (vectorclock.go): clocks, their causal order and join.
    - [FedTypes] (types.go): peers, resources, tombstones, changes, messages.
    - [Endpoints] (endpoints.go): the cache of remote endpoints.
    - [FedServer] (server.go): the state of a member and its handlers, as calls
      that nothing disturbs; [FedReplica]: what one call decides;
      [FedInvariants]: the parts of the state that stay well formed;
      [FedThreads]: the goroutines of the server, one access to shared state at a
      time, with every interleaving and with updates of the configuration.
    - [PeerClient] (client.go) and [FedFullSync]: the client, and full sync
      between a server and a client.
    - [Merkle], [AntiEntropy] (antientropy.go): drift detection and repair.
    - [SplitBrain] (splitbrain.go): partitions, quorum, fencing and healing.
    - [SnapshotFed] (snapshot_integration.go): federation data of snapshots.
    - [FedManager] (manager.go): the component that owns the others.

    Operator ([src/internal/operator])
    - [FedWebhook] (webhook/federation_webhook.go): admission of federations.
    - [FedController] (controller/novaedgefederation_controller.go): the managers
      of federations over histories of users, Secrets and failing calls.
    - [FedApplier] (controller/federation_applier.go): writing what other
      clusters send.
    - [RemoteCluster] (novaedgeremotecluster_controller.go, tunnel_manager.go).
    - [ClusterTemplates], [ClusterOperator] (novaedgecluster_controller.go): the
      objects of a NovaEdge cluster and their reconciliation; [CommandLine]: the
      flags of the programs ([src/cmd]) that the objects start.

    Resources of the controller ([src/internal/controller])
    - [IngressTranslate], [IngressReconcile] (ingress_translator.go,
      ingress_controller.go), with the path to the dataplane in
      [IngressDataplane].
    - [GatewayApi], [GatewayReconcile] (gatewayapi_translator.go, l4route_*.go
      and the controllers of Gateway API resources), with their meaning in
      [GatewaySpec] and [GatewayListeners].
    - [ProxyReconcile] (proxy*_controller.go, config.go) and [ProxySpec].

    Configuration ([src/internal/controller/snapshot], [src/internal/agent],
    [src/internal/dataplane], [src/internal/standalone])
    - [BuilderTypes], [BuilderConvert], [SnapshotBuilder] (builder.go,
      builder_convert.go, builder_auth.go, builder_l4.go): from resources to a
      snapshot. [BuilderSecrets] and [BuilderVersion]: which secrets are
      fetched, and what the version of a snapshot depends on.
    - [SnapshotServer] (server.go): streams, notification channels, debounce
      and agent status, as events of concurrent goroutines.
    - [RemoteAgents] (remote_cluster.go and the operator's registry): agents of
      other clusters and the status of a remote cluster.
    - [AgentWatcher], [AgentPersistence] (agent/config/watcher.go,
      persistence.go), [ConfigValidation] (validation.go), [AppErrors]
      (pkg/errors), [Convert] (pkg/convert).
    - [Dataplane], [DataplaneSpec] (dataplane/translator.go): from a snapshot to
      the request of the dataplane, and what its routes select.
    - [StandaloneConfig], [StandaloneConvert], [StandaloneSpec] (config.go,
      converter.go, watcher.go): configuration files.

    Agent ([src/internal/agent])
    - [MeshAuthz] (mesh/authz.go), [MeshIntercept] (tproxy*.go), [MeshManager]
      (manager.go, detect.go, novanet/client.go), [MeshTunnel] (tunnel.go,
      tls.go, cert.go).
    - [Gossip] (gossip/gossip.go), [SdwanProbe] and [SdwanPath] (sdwan).

    ** How the code is translated

    A struct is a record, an enumeration an inductive type or, where the
    program passes it on unchecked, its number or string. A pointer is an
    option and a nil dereference is the outcome [Panics]. Integers are [Z] kept
    at their width; byte slices are strings or lists of bytes. A Go map is a
    [gmap]; a range loop over it takes its order from an argument, and the
    theorems hold for every order. A method that holds a mutex for its whole
    body is one function; where goroutines interleave ([FedThreads],
    [SnapshotServer], the last part of [Gossip]) every access to shared state is
    an event of its own, and [FedThreads] relates both readings of the federation
    server.
    Clock readings, fresh identifiers and answers of the network are arguments.
    Interfaces of the program are type classes ([VectorClock.CausalClock],
    [RemoteAgents.RemoteClusterHandler], [MeshIntercept.RuleBackend] with its
    laws, [MeshManager.NovaNet]), as are the library functions that are not
    translated ([GoLib.SortSlice], [GoLib.TextTables], the codecs). A program that
    calls the API server is a function of an oracle that says which calls fail.

    ** What the theorems show

    - Replication: in every interleaving the store of the server stays well
      formed, every goroutine ends, a local change supersedes what was seen (with
      no Merge strategy), and last-writer-wins converges when deliveries of one
      resource do not overlap; what an undisturbed handler decides; delivery by
      full sync and repair by anti-entropy; the answers of the split-brain
      detector follow its state.
    - Operator: admission accepts exactly the well-formed federations; a
      federation whose Secrets can be read and whose health-check interval is
      positive gets the manager it asks for; objects of users are safe from what
      other clusters send; a cluster is deployed as specified, confined to the
      names of its objects whatever calls fail, and leaves nothing under them
      when it is deleted.
    - Resources: an Ingress, an HTTPRoute and a configuration file lead to
      dataplane routes that select their requests and reach the endpoints they
      name, under the conditions stated with each theorem; reconciliations
      converge whatever calls fail; a new generation of a resource is marked as
      ready exactly when it is valid if no call fails, and is then served.
    - Configuration: the version of a snapshot does not depend on the order in
      which resources are listed; the fetched secrets are enough; an announced
      change reaches every stream that has not missed one, in the ways the
      theorem lists; the server does not panic under any interleaving; the cache
      of the agent returns only what was saved, wherever it crashes.
    - Agents: authorization decides as documented; interception follows the
      configured targets with both packet filters, from a clean kernel; tunnels
      admit exactly the trusted and authorized; path selection is optimal up to
      its hysteresis; a resync needs a majority of the peers visited.
    - Lemmas named in the findings of the manifest show where the code departs
      from what it means to do.

    ** Fuel

    [FedServer.send_loop] takes one unit per batch and starts with one more than
    the number of changes; [Merkle.buildNode] and [Merkle.findNode] take the
    depth of the tree; [GoPath.match_pattern] takes more than the length of the
    pattern, and [GoPath.match_pattern_fuel] shows that more changes nothing;
    [GoNet.ipv6_groups] takes nine units for at most eight groups;
    [GoLib.ParseDuration] takes the length of the text, of which every component
    consumes a character; decimal printing takes the logarithm of the number.
    [GoScan.skip_space] takes the length of the text; [MeshTunnel.ca_pool] takes
    the length of the bundle ([MeshTunnel.ca_pool_enough]); one write to the
    buffered writer takes at most three rounds
    ([MeshTunnel.bufio_Write_passes]).

    ** Not modelled

    Sockets, gRPC, HTTP and TLS as transports, and the HTTP servers of the agent
    (health, metrics, administration), because what they do is in the libraries
    they call; Prometheus metrics and log output, which do not influence the
    rest; the wrapper of the WASM runtime; X.509 signing, Vault, ACME and
    cert-manager, which are external services; generated code; the command line
    tool and the web console, which present what the other parts hold. *)

From Stdlib Require Export Ascii.
From stdpp Require Export base gmap strings list sorting option fin_maps.
From Stdlib Require Export ZArith Lia.

(** ** Machine integers *)

Declare Scope go_scope.
Delimit Scope go_scope with go.
Open Scope Z_scope.

Definition min_int64 : Z := - 2 ^ 63.
Definition max_int64 : Z := 2 ^ 63 - 1.
Definition min_int32 : Z := - 2 ^ 31.
Definition max_int32 : Z := 2 ^ 31 - 1.

(** Two's complement wrap-around of a 64-bit signed result. *)
Definition wrap64 (z : Z) : Z := (z + 2 ^ 63) mod 2 ^ 64 - 2 ^ 63.
Definition wrap32 (z : Z) : Z := (z + 2 ^ 31) mod 2 ^ 32 - 2 ^ 31.

Definition int64_range (z : Z) : Prop := min_int64 ≤ z ≤ max_int64.
Definition int32_range (z : Z) : Prop := min_int32 ≤ z ≤ max_int32.

(** [convert.SafeIntToInt32]: clamp to the int32 range. *)
Definition SafeIntToInt32 (v : Z) : Z :=
  if decide (v > max_int32) then max_int32
  else if decide (v < min_int32) then min_int32
  else wrap32 v.

(** ** Time

    A [time.Time] is an instant in nanoseconds since the Unix epoch; the zero
    [Time] is January 1, year 1. A [time.Duration] is an int64 of nanoseconds;
    [Time.Sub] saturates. *)

Definition time_zero : Z := - 62135596800 * 1000000000.
Definition Second : Z := 1000000000.
Definition Minute : Z := 60 * Second.
Definition Hour : Z := 60 * Minute.

Definition time_Sub (t u : Z) : Z := Z.max min_int64 (Z.min max_int64 (t - u)).
Definition time_After (t u : Z) : bool := bool_decide (u < t).
Definition time_Before (t u : Z) : bool := bool_decide (t < u).
Definition UnixNano (t : Z) : Z := wrap64 t.

(** ** Strings: Go strings are byte sequences *)

Definition str_empty (s : string) : bool := bool_decide (s = ""%string).
Definition str_eqb (s t : string) : bool := bool_decide (s = t).

Fixpoint HasPrefix (s prefix : string) : bool :=
  match prefix, s with
  | EmptyString, _ => true
  | String _ _, EmptyString => false
  | String c p', String d s' => if decide (c = d) then HasPrefix s' p' else false
  end.

(** Byte-wise lexicographic order, the order of [sort.Strings]. *)
Definition str_le (s t : string) : Prop := String.compare s t ≠ Gt.

#[global] Instance str_le_dec s t : Decision (str_le s t).
Proof. unfold str_le. apply _. Defined.

(** [sort.Strings]. *)
Definition sort_strings (l : list string) : list string := merge_sort str_le l.

(** ** Go maps

    A Go map is a [gmap]; reading an absent key gives the zero value of the
    element type. A [range] loop visits the entries in an unspecified order:
    where the order can be observed, the model takes it as an argument, a
    permutation of [map_to_list]. *)

Definition map_get {V} (d : V) (m : gmap string V) (k : string) : V :=
  default d (m !! k).

(** Copying a map entry by entry. *)
Definition copy_map {V} (m : gmap string V) : gmap string V :=
  map_fold (λ k v acc, <[k := v]> acc) ∅ m.

Definition range_order {V} (m : gmap string V) (l : list (string * V)) : Prop :=
  l ≡ₚ map_to_list m.

(** The orders of the range loops of a run, one per map. *)
Definition visiting : Type := ∀ V : Type, gmap string V → list (string * V).

Definition contains (l : list string) (x : string) : bool := bool_decide (x ∈ l).

(** The result of a Go call that can panic (nil dereference, slice bounds,
    double close). *)
Inductive outcome (A : Type) :=
  | Returns (a : A)
  | Panics.
Arguments Returns {A} a.
Arguments Panics {A}.

Definition outcome_bind {A B} (x : outcome A) (f : A → outcome B) : outcome B :=
  match x with Returns a => f a | Panics => Panics end.

Notation "'let!' x ':=' e 'in' k" := (outcome_bind e (λ x, k))
  (at level 10, x pattern, k at level 200) : go_scope.

(** Reading a field through a pointer panics when the pointer is nil. *)
Definition deref {A} (p : option A) : outcome A :=
  match p with Some a => Returns a | None => Panics end.

(** ** Record update *)

(** [field_setter eta proj] builds the update function of field [proj] of a
    record whose eta-expansion is [eta := fun r => Build (f1 r) ... (fn r)]. *)
Ltac field_setter eta proj :=
  let body := eval cbv delta [eta] in eta in
  match type of proj with
  | ?R -> ?T =>
    exact (fun (v : T) (r : R) =>
      ltac:(let t := eval cbv beta in (body r) in
            let t' := eval pattern (proj r) in t in
            match t' with ?g _ => let u := eval cbv beta in (g v) in exact u end))
  end.

(** ** Tactics and hints *)

Create HintDb go.
Create Rewrite HintDb go_lookup.

(** Case analysis on every boolean or decidable test of the goal. *)
Ltac split_ifs :=
  repeat match goal with
  | |- context [ if decide ?P then _ else _ ] => destruct (decide P)
  | |- context [ if bool_decide ?P then _ else _ ] =>
      let H := fresh "Hb" in destruct (bool_decide P) eqn:H;
      [apply bool_decide_eq_true_1 in H | apply bool_decide_eq_false_1 in H]
  | |- context [ if ?b then _ else _ ] => destruct b eqn:?
  end.

(** Turn boolean equations of the context into propositions. *)
Ltac bool_prop :=
  repeat match goal with
  | H : _ && _ = true |- _ => apply andb_prop in H as [? ?]
  | H : _ || _ = false |- _ => apply orb_false_elim in H as [? ?]
  | H : negb _ = true |- _ => apply negb_true_iff in H
  | H : negb _ = false |- _ => apply negb_false_iff in H
  | H : bool_decide _ = true |- _ => apply bool_decide_eq_true_1 in H
  | H : bool_decide _ = false |- _ => apply bool_decide_eq_false_1 in H
  | H : (_ <? _) = true |- _ => apply Z.ltb_lt in H
  | H : (_ <? _) = false |- _ => apply Z.ltb_ge in H
  | H : (_ =? _) = true |- _ => apply Z.eqb_eq in H
  | H : (_ =? _) = false |- _ => apply Z.eqb_neq in H
  end.

(** ** Generic lemmas *)

Lemma wrap64_small z : int64_range z → wrap64 z = z.
Proof. unfold int64_range, wrap64, min_int64, max_int64. intros. rewrite Z.mod_small; lia. Qed.

Lemma wrap64_range z : int64_range (wrap64 z).
Proof.
  unfold int64_range, wrap64, min_int64, max_int64.
  pose proof (Z.mod_pos_bound (z + 2 ^ 63) (2 ^ 64)). lia.
Qed.

Lemma wrap32_small z : int32_range z → wrap32 z = z.
Proof. unfold int32_range, wrap32, min_int32, max_int32. intros. rewrite Z.mod_small; lia. Qed.

Lemma SafeIntToInt32_range v : int32_range (SafeIntToInt32 v).
Proof.
  unfold SafeIntToInt32. split_ifs; [by unfold int32_range, min_int32, max_int32; lia..|].
  rewrite wrap32_small; unfold int32_range, min_int32, max_int32 in *; lia.
Qed.

Lemma SafeIntToInt32_id v : int32_range v → SafeIntToInt32 v = v.
Proof.
  intros Hv. unfold SafeIntToInt32, int32_range in *. split_ifs; [lia..|].
  by apply wrap32_small.
Qed.

Lemma str_app_nil s : "" +:+ s = s.
Proof. done. Qed.

Lemma str_app_cons c s t : String c s +:+ t = String c (s +:+ t).
Proof. done. Qed.

Lemma str_app_nil_r s : s +:+ "" = s.
Proof. induction s as [|c s IH]; [done|]. by rewrite str_app_cons, IH. Qed.

Lemma str_app_assoc s t u : (s +:+ t) +:+ u = s +:+ (t +:+ u).
Proof. induction s as [|c s IH]; [done|]. by rewrite !str_app_cons, IH. Qed.

Lemma str_app_inj s t u : s +:+ t = s +:+ u → t = u.
Proof.
  induction s as [|c s IH]; [done|]. rewrite !str_app_cons. intros E. injection E as E. by apply IH.
Qed.

Lemma str_eqb_true s t : str_eqb s t = true ↔ s = t.
Proof. apply bool_decide_eq_true. Qed.

(** A loop over a map whose body only touches the entry of its own key is
    determined entry by entry. *)
Lemma lookup_map_fold_local {V W} (f : string → V → gmap string W → gmap string W)
    (g : string → V → option W → option W) (m : gmap string V) (acc : gmap string W) k :
  (∀ i v a, f i v a !! i = g i v (a !! i)) →
  (∀ i v a j, i ≠ j → f i v a !! j = a !! j) →
  map_fold f acc m !! k = match m !! k with Some v => g k v (acc !! k) | None => acc !! k end.
Proof.
  intros Hown Hother.
  apply (map_fold_weak_ind (λ r m, r !! k =
    match m !! k with Some v => g k v (acc !! k) | None => acc !! k end)).
  - by rewrite lookup_empty.
  - intros i v m' r Hi IH. destruct (decide (i = k)) as [->|Hne].
    + rewrite Hown, lookup_insert_eq, IH, Hi. done.
    + rewrite (Hother i v r k Hne), lookup_insert_ne by done. done.
Qed.

Lemma copy_map_id {V} (m : gmap string V) : copy_map m = m.
Proof.
  apply map_eq. intros k. unfold copy_map.
  rewrite (lookup_map_fold_local _ (λ _ v _, Some v)).
  - rewrite lookup_empty. by destruct (m !! k).
  - intros. by rewrite lookup_insert_eq.
  - intros. by rewrite lookup_insert_ne.
Qed.

Lemma elements_dom {V} (m : gmap string V) : elements (dom m) ≡ₚ (map_to_list m).*1.
Proof.
  assert (dom m = list_to_set (map_to_list m).*1) as -> by (apply leibniz_equiv, dom_alt).
  by rewrite elements_list_to_set by apply NoDup_fst_map_to_list.
Qed.

Lemma contains_true l x : contains l x = true ↔ x ∈ l.
Proof. apply bool_decide_eq_true. Qed.

Lemma NoDup_fst_filter {V} (P : string * V → Prop) `{∀ x, Decision (P x)} (m : gmap string V) l :
  range_order m l → NoDup (filter P l).*1.
Proof.
  intros Hl. assert (NoDup l.*1) as Hnd by (rewrite Hl; apply NoDup_fst_map_to_list). clear Hl.
  induction l as [|x l IH]; [constructor|]. apply NoDup_cons in Hnd as [Hnin Hnd].
  rewrite filter_cons. case_decide; [|by apply IH]. apply NoDup_cons. split; [|by apply IH].
  intros (y & E & [_ Hy]%list_elem_of_filter)%list_elem_of_fmap. apply Hnin.
  rewrite E. by apply list_elem_of_fmap_2.
Qed.

(** Loops whose bodies agree on the elements. *)
Lemma foldl_ext_in {A B} (f g : B → A → B) l m : (∀ m x, x ∈ l → f m x = g m x) → foldl f m l = foldl g m l.
Proof.
  revert m. induction l as [|x l IH]; intros m Hfg; simpl; [done|]. rewrite Hfg by (by left). apply IH.
  intros m' y Hy. apply Hfg. by right.
Qed.

(** A loop that appends the image of some of the elements. *)
Lemma foldl_append {A B} (step : list B → A → list B) (g : A → bool) (f : A → B) (acc : list B) (l : list A) :
  (∀ d x, step d x = if g x then d ++ [f x] else d) →
  foldl step acc l = acc ++ (f <$> filter (λ x, g x = true) l).
Proof.
  intros Hstep. revert acc. induction l as [|x l IH]; intros acc; simpl; [by rewrite app_nil_r|].
  rewrite IH, Hstep, filter_cons. destruct (g x); [|done].
  rewrite decide_True by done. rewrite fmap_cons, <- app_assoc. done.
Qed.

(** The order of byte strings is total and antisymmetric, so sorting gives a
    canonical list. *)
Lemma str_compare_trans s t u :
  String.compare s t ≠ Gt → String.compare t u ≠ Gt → String.compare s u ≠ Gt.
Proof.
  revert t u. induction s as [|c s IH]; intros [|d t] [|e u]; simpl; try done.
  unfold Ascii.compare. intros H1 H2.
  destruct (N.compare_spec (Ascii.N_of_ascii c) (Ascii.N_of_ascii d)) as [E1|E1|E1];
  destruct (N.compare_spec (Ascii.N_of_ascii d) (Ascii.N_of_ascii e)) as [E2|E2|E2];
  destruct (N.compare_spec (Ascii.N_of_ascii c) (Ascii.N_of_ascii e)) as [E3|E3|E3];
  try done; try lia. by apply (IH t).
Qed.

#[global] Instance str_le_total : Total str_le.
Proof.
  intros s t. unfold str_le. rewrite (String.compare_antisym t s).
  destruct (String.compare s t); simpl; [by left|by left|by right].
Qed.

#[global] Instance str_le_trans : Transitive str_le.
Proof. intros s t u. apply str_compare_trans. Qed.

#[global] Instance str_le_antisymm : AntiSymm (=) str_le.
Proof.
  intros s t Hst Hts. unfold str_le in *. rewrite (String.compare_antisym t s) in Hts.
  apply String.compare_eq_iff. by destruct (String.compare s t).
Qed.

Lemma sort_strings_perm l : sort_strings l ≡ₚ l.
Proof. apply merge_sort_Permutation. Qed.

Lemma sort_strings_canonical l1 l2 : l1 ≡ₚ l2 → sort_strings l1 = sort_strings l2.
Proof.
  intros H. apply (Sorted_unique str_le); [apply Sorted_merge_sort, _..|].
  by rewrite !sort_strings_perm.
Qed.

(** ** Indexed lists and tables *)

Lemma elem_of_imap {A B} (f : nat → A → B) l y : y ∈ imap f l ↔ ∃ i x, l !! i = Some x ∧ y = f i x.
Proof.
  rewrite list_elem_of_lookup. split.
  - intros [i Hi]. rewrite list_lookup_imap in Hi. destruct (l !! i) as [x|] eqn:E; [|done]. injection Hi as <-. by exists i, x.
  - intros (i & x & Hx & ->). exists i. by rewrite list_lookup_imap, Hx.
Qed.

(** The table of a list under the keys of its elements; later elements win. *)
Definition insert_all {A} (key : A → string) (m : gmap string A) (l : list A) : gmap string A := foldl (λ m x, <[key x := x]> m) m l.

Lemma insert_all_lookup {A} (key : A → string) m l i :
  insert_all key m l !! i = match last (filter (λ x, key x = i) l) with Some x => Some x | None => m !! i end.
Proof.
  induction l as [|x l IH] using rev_ind; [done|]. unfold insert_all in *. rewrite foldl_app. simpl. rewrite filter_app, filter_cons, filter_nil.
  destruct (decide (key x = i)) as [<-|Hne]; [by rewrite lookup_insert_eq, last_snoc|]. by rewrite lookup_insert_ne, IH, app_nil_r.
Qed.

(** An element whose key is its own is found. *)
Lemma insert_all_elem {A} (key : A → string) m l x :
  x ∈ l → (∀ y, y ∈ l → key y = key x → y = x) → insert_all key m l !! key x = Some x.
Proof.
  intros Hx Hu. rewrite insert_all_lookup. destruct (last (filter (λ y, key y = key x) l)) as [y|] eqn:E.
  - apply last_Some in E as [l' El]. assert (y ∈ filter (λ y, key y = key x) l) as [Ey Hy]%list_elem_of_filter.
    { rewrite El. apply elem_of_app. right. by apply list_elem_of_singleton. }
    by rewrite (Hu y Hy Ey).
  - apply last_None in E. exfalso. assert (x ∈ filter (λ y, key y = key x) l) as Hin by (by apply list_elem_of_filter).
    rewrite E in Hin. by apply not_elem_of_nil in Hin.
Qed.

Lemma NoDup_key_inj {A} (key : A → string) l x y : NoDup (key <$> l) → x ∈ l → y ∈ l → key x = key y → x = y.
Proof.
  intros Hnd [i Hi]%list_elem_of_lookup [j Hj]%list_elem_of_lookup E.
  assert (i = j) as ->; [|congruence]. eapply (NoDup_lookup _ _ _ (key x) Hnd); rewrite list_lookup_fmap; [by rewrite Hi|by rewrite Hj, E].
Qed.

(** Writing over elements whose keys are all written again. *)
Definition covers {A} (key : A → string) (l l' : list A) : Prop := ∀ x, x ∈ l' → ∃ y, y ∈ l ∧ key y = key x.

Lemma insert_all_covered {A} (key : A → string) m l l' : covers key l l' → insert_all key (insert_all key m l') l = insert_all key m l.
Proof.
  intros Hc. apply map_eq. intros i. rewrite (insert_all_lookup key (insert_all key m l')), (insert_all_lookup key m l).
  destruct (last (filter (λ x, key x = i) l)) as [x|] eqn:E; [done|]. apply last_None in E.
  rewrite insert_all_lookup. destruct (last (filter (λ x, key x = i) l')) as [x|] eqn:E'; [|done].
  apply last_Some in E' as [l0 E']. assert (x ∈ filter (λ x, key x = i) l') as [Hk Hx]%list_elem_of_filter.
  { rewrite E'. apply elem_of_app. right. by apply list_elem_of_singleton. }
  destruct (Hc x Hx) as (y & Hy & Ek). exfalso. apply (not_elem_of_nil y). rewrite <- E. apply list_elem_of_filter.
  split; [by rewrite Ek|done].
Qed.

Lemma covers_app_l {A} (key : A → string) l l1 l2 : covers key l (l1 ++ l2) → covers key l l1.
Proof. intros Hc x Hx. apply Hc. apply elem_of_app. by left. Qed.

#[export] Hint Resolve wrap64_range SafeIntToInt32_range : go.
#[export] Hint Rewrite @lookup_insert_eq @lookup_delete_eq @lookup_empty @copy_map_id : go_lookup.
