(* ===== verification/VectorClock.v ===== *)
(** * The vector clock of the federation
    (src/internal/controller/federation/vectorclock.go)

    A [VectorClock] is a map from member names to int64 counters, an absent
    member standing for 0. The file translates every method except the
    printer [String], states the causal order the clock implements, the join
    [Merge] computes, and the interface [CausalClock] the other components are
    verified against. A nil [*VectorClock] argument is [None]; a lock is held
    for the whole of each method, so each method is one atomic function. *)

From S2P Require Import Prelude.

Record VectorClock := mkVectorClock { clocks : gmap string Z }.

Definition NewVectorClock : VectorClock := mkVectorClock ∅.

Definition NewVectorClockFromMap (m : gmap string Z) : VectorClock :=
  mkVectorClock (map_fold (λ k v acc, <[k := v]> acc) ∅ m).

Definition Get (vc : VectorClock) (member : string) : Z := map_get 0 (clocks vc) member.

Definition Increment (vc : VectorClock) (member : string) : VectorClock * Z :=
  let vc' := mkVectorClock (<[member := wrap64 (Get vc member + 1)]> (clocks vc)) in
  (vc', Get vc' member).

Definition Set_ (vc : VectorClock) (member : string) (value : Z) : VectorClock :=
  mkVectorClock (<[member := value]> (clocks vc)).

(** The body of the merge loops: keep the larger counter. *)
Definition merge_entry (k : string) (v : Z) (acc : gmap string Z) : gmap string Z :=
  if decide (v > map_get 0 acc k) then <[k := v]> acc else acc.

Definition MergeMap (vc : VectorClock) (m : gmap string Z) : VectorClock :=
  mkVectorClock (map_fold merge_entry (clocks vc) m).

Definition Merge (vc : VectorClock) (other : option VectorClock) : VectorClock :=
  match other with
  | None => vc
  | Some o =>
      let snapshot := copy_map (clocks o) in
      mkVectorClock (map_fold merge_entry (clocks vc) snapshot)
  end.

(** One round of the comparison loop: the flags [hasGreater] and [hasLess]. *)
Definition compare_member (a b : gmap string Z) (flags : bool * bool) (member : string) : bool * bool :=
  let '(hasGreater, hasLess) := flags in
  let thisVal := map_get 0 a member in
  let otherVal := map_get 0 b member in
  if decide (thisVal > otherVal) then (true, hasLess)
  else if decide (thisVal < otherVal) then (hasGreater, true)
  else (hasGreater, hasLess).

Definition compare_verdict (flags : bool * bool) : Z :=
  let '(hasGreater, hasLess) := flags in
  if hasGreater && negb hasLess then 1
  else if hasLess && negb hasGreater then -1
  else 0.

Definition Compare (vc : VectorClock) (other : option VectorClock) : Z :=
  match other with
  | None => 1
  | Some o =>
      let otherSnapshot := copy_map (clocks o) in
      let members : gset string := dom (clocks vc) ∪ dom otherSnapshot in
      compare_verdict
        (foldl (compare_member (clocks vc) otherSnapshot) (false, false) (elements members))
  end.

Definition CompareMap (vc : VectorClock) (other : gmap string Z) : Z :=
  Compare vc (Some (NewVectorClockFromMap other)).

Definition HappenedBefore (vc : VectorClock) (other : option VectorClock) : bool :=
  bool_decide (Compare vc other = -1).

Definition HappenedAfter (vc : VectorClock) (other : option VectorClock) : bool :=
  bool_decide (Compare vc other = 1).

Definition Concurrent (vc : VectorClock) (other : option VectorClock) : bool :=
  bool_decide (Compare vc other = 0).

Definition Copy (vc : VectorClock) : VectorClock := NewVectorClockFromMap (clocks vc).

Definition ToMap (vc : VectorClock) : gmap string Z := copy_map (clocks vc).

Definition Equal (vc : VectorClock) (other : option VectorClock) : bool :=
  match other with
  | None => false
  | Some o =>
      let otherSnapshot := copy_map (clocks o) in
      if decide (size (clocks vc) ≠ size otherSnapshot) then false
      else forallb (λ kv, bool_decide (map_get 0 otherSnapshot kv.1 = kv.2))
             (map_to_list (clocks vc))
  end.

Definition IsZero (vc : VectorClock) : bool :=
  forallb (λ kv, bool_decide (kv.2 = 0)) (map_to_list (clocks vc)).

(** ** The causal order *)

(** Counters are non-negative: the invariant every clock of the system keeps. *)
Definition vc_wf (vc : VectorClock) : Prop := map_Forall (λ _ v, 0 ≤ v) (clocks vc).

Definition vc_le (a b : VectorClock) : Prop := ∀ k, Get a k ≤ Get b k.

(** Strictly before: nowhere larger, somewhere smaller. *)
Definition vc_lt (a b : VectorClock) : Prop := vc_le a b ∧ ∃ k, Get a k < Get b k.

(** Two clocks with the same counters; an explicit 0 and an absent member count
    the same. *)
#[global] Instance vc_equiv : Equiv VectorClock := λ a b, ∀ k, Get a k = Get b k.

(** The interface: what a causal clock promises the components that carry it. *)
Class CausalClock (C : Type) := {
  cc_wf : C → Prop;
  cc_le : relation C;
  cc_join : C → C → C;
  cc_preorder :: PreOrder cc_le;
  cc_join_wf a b : cc_wf a → cc_wf b → cc_wf (cc_join a b);
  cc_join_l a b : cc_le a (cc_join a b);
  cc_join_r a b : cc_wf a → cc_le b (cc_join a b);
  cc_join_least a b c : cc_le a c → cc_le b c → cc_le (cc_join a b) c;
}.

(** ** Lemmas *)

Lemma NewVectorClockFromMap_id m : NewVectorClockFromMap m = mkVectorClock m.
Proof. unfold NewVectorClockFromMap. f_equal. apply copy_map_id. Qed.

Lemma ToMap_id vc : ToMap vc = clocks vc.
Proof. apply copy_map_id. Qed.

Lemma Merge_MergeMap vc o : Merge vc (Some o) = MergeMap vc (clocks o).
Proof. unfold Merge, MergeMap. by rewrite copy_map_id. Qed.

Lemma Get_nonneg vc k : vc_wf vc → 0 ≤ Get vc k.
Proof.
  intros Hwf. unfold Get, map_get. destruct (clocks vc !! k) eqn:E; simpl; [|lia].
  by apply (Hwf k).
Qed.

Lemma Get_Set vc m v k : Get (Set_ vc m v) k = if decide (m = k) then v else Get vc k.
Proof. unfold Get, Set_, map_get; simpl. rewrite lookup_insert. by destruct (decide (m = k)). Qed.

Lemma Get_Increment vc m k :
  Get (Increment vc m).1 k = if decide (m = k) then wrap64 (Get vc m + 1) else Get vc k.
Proof. unfold Increment. simpl. apply (Get_Set vc m (wrap64 (Get vc m + 1)) k). Qed.

(** The merge loop, entry by entry. *)
Lemma lookup_MergeMap vc m k :
  clocks (MergeMap vc m) !! k =
    match m !! k with
    | Some v => if decide (v > Get vc k) then Some v else clocks vc !! k
    | None => clocks vc !! k
    end.
Proof.
  unfold MergeMap; simpl.
  rewrite (lookup_map_fold_local _ (λ _ v o, if decide (v > default 0 o) then Some v else o));
    [done|..].
  - intros i v a. unfold merge_entry, map_get. by split_ifs; rewrite ?lookup_insert_eq.
  - intros i v a j Hij. unfold merge_entry. by split_ifs; rewrite ?lookup_insert_ne.
Qed.

Lemma Get_MergeMap vc m k :
  Get (MergeMap vc m) k =
    match m !! k with Some v => Z.max (Get vc k) v | None => Get vc k end.
Proof.
  unfold Get at 1, map_get. rewrite lookup_MergeMap. fold (map_get 0 (clocks vc) k).
  destruct (m !! k) as [v|]; [|done]. unfold Get, map_get in *.
  split_ifs; simpl; lia.
Qed.

Lemma Get_MergeMap_max vc m k :
  vc_wf vc → Get (MergeMap vc m) k = Z.max (Get vc k) (map_get 0 m k).
Proof.
  intros Hwf. rewrite Get_MergeMap. unfold map_get.
  pose proof (Get_nonneg vc k Hwf). destruct (m !! k); simpl; lia.
Qed.

Lemma MergeMap_wf vc m : vc_wf vc → map_Forall (λ _ v, 0 ≤ v) m → vc_wf (MergeMap vc m).
Proof.
  intros Hvc Hm k v. rewrite lookup_MergeMap.
  destruct (m !! k) as [w|] eqn:E; [|by apply Hvc].
  pose proof (Hm k w E). split_ifs; intros; simplify_eq; [lia|by apply (Hvc k)].
Qed.

Lemma Increment_wf vc m : vc_wf vc → Get vc m < max_int64 → vc_wf (Increment vc m).1.
Proof.
  intros Hwf Hlt. apply map_Forall_insert_2; [|done].
  pose proof (Get_nonneg vc m Hwf). rewrite wrap64_small; [lia|].
  unfold int64_range, min_int64, max_int64 in *. lia.
Qed.

Lemma Set_wf vc m v : vc_wf vc → 0 ≤ v → vc_wf (Set_ vc m v).
Proof. intros. by apply map_Forall_insert_2. Qed.

Lemma NewVectorClock_wf : vc_wf NewVectorClock.
Proof. apply map_Forall_empty. Qed.

#[global] Instance vc_le_preorder : PreOrder vc_le.
Proof.
  split; [intros ? ?; lia|]. intros a b c Hab Hbc k. specialize (Hab k). specialize (Hbc k). lia.
Qed.

#[global] Instance vc_equiv_equivalence : Equivalence (≡@{VectorClock}).
Proof.
  split.
  - by intros a k.
  - by intros a b H k; rewrite H.
  - by intros a b c H1 H2 k; rewrite H1, H2.
Qed.

Lemma vc_le_antisymm a b : vc_le a b → vc_le b a → a ≡ b.
Proof. intros H1 H2 k. specialize (H1 k). specialize (H2 k). lia. Qed.

#[global] Instance Get_proper : Proper ((≡) ==> (=) ==> (=)) Get.
Proof. intros a b Hab k ? <-. apply Hab. Qed.

#[global] Instance vc_le_proper : Proper ((≡) ==> (≡) ==> iff) vc_le.
Proof.
  intros a a' Ha b b' Hb. unfold vc_le.
  split; intros H k; specialize (H k); specialize (Ha k); specialize (Hb k); lia.
Qed.

#[global] Instance vc_lt_proper : Proper ((≡) ==> (≡) ==> iff) vc_lt.
Proof.
  intros a a' Ha b b' Hb. unfold vc_lt. rewrite Ha, Hb.
  split; intros [Hle [k Hk]]; (split; [done|exists k]); specialize (Ha k); specialize (Hb k); lia.
Qed.

#[global] Instance vc_lt_strict : StrictOrder vc_lt.
Proof.
  split.
  - intros a [_ [k Hk]]. lia.
  - intros a b c [H1 [k Hk]] [H2 _]. split; [by etrans|].
    exists k. specialize (H2 k). lia.
Qed.

Lemma MergeMap_ub_l vc m : vc_le vc (MergeMap vc m).
Proof. intros k. rewrite Get_MergeMap. destruct (m !! k); lia. Qed.

Lemma MergeMap_ub_r vc m : vc_wf vc → vc_le (mkVectorClock m) (MergeMap vc m).
Proof. intros Hwf k. rewrite Get_MergeMap_max by done. unfold Get; simpl. lia. Qed.

Lemma MergeMap_least vc m c : vc_le vc c → vc_le (mkVectorClock m) c → vc_le (MergeMap vc m) c.
Proof.
  intros H1 H2 k. specialize (H1 k). specialize (H2 k). unfold Get at 1, map_get in H2; simpl in H2.
  rewrite Get_MergeMap. destruct (m !! k); simpl in *; lia.
Qed.

#[global] Instance vector_clock_causal : CausalClock VectorClock.
Proof.
  refine {| cc_wf := vc_wf; cc_le := vc_le; cc_join a b := Merge a (Some b) |}.
  - intros. rewrite Merge_MergeMap. by apply MergeMap_wf.
  - intros. rewrite Merge_MergeMap. apply MergeMap_ub_l.
  - intros ? [] ?. rewrite Merge_MergeMap. by apply MergeMap_ub_r.
  - intros ? [] ? ? ?. rewrite Merge_MergeMap. by apply MergeMap_least.
Defined.

(** Joining in a whole sequence of clocks dominates each of them. *)
Lemma cc_foldl_join_ub `{CausalClock C} (l : list C) (c : C) :
  cc_wf c → Forall cc_wf l →
  cc_wf (foldl cc_join c l) ∧ cc_le c (foldl cc_join c l) ∧
  Forall (λ x, cc_le x (foldl cc_join c l)) l.
Proof.
  revert c. induction l as [|x l IH]; intros c Hc Hl; simpl; [by repeat split; eauto|].
  inversion Hl as [|? ? Hx Hl']; subst.
  destruct (IH (cc_join c x)) as (Hwf & Hle & Hall); [by apply cc_join_wf|done|].
  split_and!; [done|etrans; [apply (cc_join_l c x)|done]|].
  constructor; [|done]. etrans; [by apply (cc_join_r c x)|done].
Qed.

(** The flags of the comparison loop, for any visiting order. *)
Lemma compare_flags_spec a b ms g l :
  foldl (compare_member a b) (g, l) ms =
    (g || existsb (λ k, bool_decide (map_get 0 a k > map_get 0 b k)) ms,
     l || existsb (λ k, bool_decide (map_get 0 a k < map_get 0 b k)) ms).
Proof.
  revert g l. induction ms as [|k ms IH]; intros g l; simpl; [by rewrite !orb_false_r|].
  split_ifs; rewrite IH; repeat case_bool_decide; try lia;
    by rewrite ?orb_true_r, ?orb_false_l.
Qed.

Lemma existsb_members (P : string → Prop) `{∀ k, Decision (P k)} (a b : gmap string Z) :
  (∀ k, P k → k ∈ dom a ∪ dom b) →
  existsb (λ k, bool_decide (P k)) (elements (dom a ∪ dom b)) = true ↔ ∃ k, P k.
Proof.
  intros HP. rewrite existsb_exists. split.
  - intros (k & _ & Hk%bool_decide_eq_true_1). by exists k.
  - intros [k Hk]. exists k. split; [|by apply bool_decide_eq_true_2].
    apply list_elem_of_In, elem_of_elements. by apply HP.
Qed.

Lemma get_ne_member (a b : gmap string Z) k :
  map_get 0 a k ≠ map_get 0 b k → k ∈ dom a ∪ dom b.
Proof.
  unfold map_get. intros Hne. rewrite elem_of_union, !elem_of_dom.
  destruct (a !! k), (b !! k); simpl in *; eauto. done.
Qed.

Lemma Compare_flags vc o :
  ∃ g l, Compare vc (Some o) = compare_verdict (g, l) ∧
    (g = true ↔ ∃ k, Get vc k > Get o k) ∧ (l = true ↔ ∃ k, Get vc k < Get o k).
Proof.
  unfold Compare. rewrite copy_map_id, compare_flags_spec. simpl.
  do 2 eexists. split; [reflexivity|]. unfold Get.
  split; apply existsb_members; intros k Hk; apply get_ne_member; lia.
Qed.

Lemma Compare_range vc o : Compare vc o = 1 ∨ Compare vc o = 0 ∨ Compare vc o = -1.
Proof.
  destruct o as [o|]; [|by left]. destruct (Compare_flags vc o) as (g & l & -> & _).
  destruct g, l; auto.
Qed.

Lemma Compare_after vc o : Compare vc (Some o) = 1 ↔ vc_lt o vc.
Proof.
  destruct (Compare_flags vc o) as (g & l & -> & Hg & Hl). unfold vc_lt, vc_le. split.
  - intros Hv. assert (g = true ∧ l = false) as [-> ->] by (destruct g, l; done).
    destruct Hg as [[k Hk] _]; [done|]. split; [|exists k; lia].
    intros j. destruct (decide (Get vc j < Get o j)) as [Hj|]; [|lia].
    destruct Hl as [_ Hl]. discriminate Hl. by exists j.
  - intros [Hle [k Hk]]. rewrite (proj2 Hg) by (exists k; lia).
    destruct l; [|done]. destruct Hl as [[j Hj] _]; [done|]. specialize (Hle j). lia.
Qed.

Lemma Compare_antisym vc o : Compare vc (Some o) = - Compare o (Some vc).
Proof.
  destruct (Compare_flags vc o) as (g & l & -> & Hg & Hl).
  destruct (Compare_flags o vc) as (g' & l' & -> & Hg' & Hl').
  assert (g = l') as ->.
  { apply eq_true_iff_eq. rewrite Hg, Hl'. split; intros [k Hk]; exists k; lia. }
  assert (g' = l) as ->.
  { apply eq_true_iff_eq. rewrite Hg', Hl. split; intros [k Hk]; exists k; lia. }
  by destruct l', l.
Qed.

Lemma Compare_before vc o : Compare vc (Some o) = -1 ↔ vc_lt vc o.
Proof. rewrite Compare_antisym, <- (Compare_after o vc). lia. Qed.

Lemma Compare_zero vc o : Compare vc (Some o) = 0 ↔ ¬ vc_lt vc o ∧ ¬ vc_lt o vc.
Proof.
  rewrite <- Compare_before, <- (Compare_after vc o).
  destruct (Compare_range vc (Some o)) as [H|[H|H]]; rewrite H; lia.
Qed.

#[global] Instance Compare_proper : Proper ((≡) ==> (≡) ==> (=)) (λ a b, Compare a (Some b)).
Proof.
  intros a a' Ha b b' Hb.
  destruct (Compare_range a (Some b)) as [H|[H|H]]; rewrite H; symmetry.
  - apply Compare_after. rewrite <- Ha, <- Hb. by apply Compare_after.
  - apply Compare_zero. rewrite <- Ha, <- Hb. by apply Compare_zero.
  - apply Compare_before. rewrite <- Ha, <- Hb. by apply Compare_before.
Qed.

Lemma HappenedAfter_true vc o : HappenedAfter vc (Some o) = true ↔ vc_lt o vc.
Proof. unfold HappenedAfter. by rewrite bool_decide_eq_true, Compare_after. Qed.

Lemma HappenedBefore_true vc o : HappenedBefore vc (Some o) = true ↔ vc_lt vc o.
Proof. unfold HappenedBefore. by rewrite bool_decide_eq_true, Compare_before. Qed.

Lemma Concurrent_true vc o : Concurrent vc (Some o) = true ↔ ¬ vc_lt vc o ∧ ¬ vc_lt o vc.
Proof. unfold Concurrent. by rewrite bool_decide_eq_true, Compare_zero. Qed.

#[export] Hint Resolve NewVectorClock_wf MergeMap_wf Set_wf Get_nonneg MergeMap_ub_l : go.

(** ** Properties *)

Lemma Compare_zero_iff (a b : VectorClock) :
  Compare a (Some b) = 0 ↔ a ≡ b ∨ ((∃ k, Get a k < Get b k) ∧ ∃ k, Get b k < Get a k).
Proof.
  destruct (Compare_flags a b) as (g & l & -> & Hg & Hl). split.
  - intros Hv. assert (g = l) as -> by (destruct g, l; done). destruct l.
    + right. split; [by apply Hl|]. destruct Hg as [[k Hk] _]; [done|]. exists k. lia.
    + left. intros k. destruct (Ztrichotomy (Get a k) (Get b k)) as [H|[H|H]]; [|done|];
        [destruct Hl as [_ Hl]; discriminate Hl|destruct Hg as [_ Hg]; discriminate Hg]; by exists k.
  - intros [Heq|[Hlt [k Hk]]].
    + destruct g; [destruct Hg as [[k Hk] _]; [done|]; specialize (Heq k); lia|].
      destruct l; [destruct Hl as [[k Hk] _]; [done|]; specialize (Heq k); lia|done].
    + rewrite (proj2 Hl Hlt), (proj2 Hg); [done|exists k; lia].
Qed.

(** C7: [Compare] decides the causal order: 1 exactly when the other clock is
    strictly before, -1 exactly when it is strictly after, 0 exactly when the
    clocks have the same counters or each has a counter larger than the
    other's; swapping the arguments negates the answer. So [HappenedBefore] and
    [HappenedAfter] hold exactly of strictly ordered clocks, and [Concurrent]
    exactly of clocks neither of which is strictly before the other, equal
    clocks included. A nil clock counts as strictly before. *)
Theorem Compare_decides_causal_order (a b : VectorClock) :
  (Compare a (Some b) = 1 ↔ vc_lt b a) ∧
  (Compare a (Some b) = -1 ↔ vc_lt a b) ∧
  (Compare a (Some b) = 0 ↔
     a ≡ b ∨ ((∃ k, Get a k < Get b k) ∧ ∃ k, Get b k < Get a k)) ∧
  Compare a (Some b) = - Compare b (Some a) ∧
  (HappenedBefore a (Some b) = true ↔ vc_lt a b) ∧
  (HappenedAfter a (Some b) = true ↔ vc_lt b a) ∧
  (Concurrent a (Some b) = true ↔ ¬ vc_lt a b ∧ ¬ vc_lt b a) ∧
  HappenedBefore a None = false ∧ HappenedAfter a None = true ∧ Concurrent a None = false.
Proof.
  split_and!; try done; [apply Compare_after|apply Compare_before|apply Compare_zero_iff|apply Compare_antisym|..].
  - apply HappenedBefore_true.
  - unfold HappenedAfter. rewrite bool_decide_eq_true. apply Compare_after.
  - rewrite Concurrent_true. tauto.
Qed.

(** [Merge] computes the join of the causal order on non-negative clocks:
    the result is non-negative, dominates both arguments, is below every other
    clock that does, and is commutative, associative and idempotent up to the
    counters. *)
Theorem Merge_is_join (a b c : VectorClock) (Ha : vc_wf a) (Hb : vc_wf b) :
  let m := Merge a (Some b) in
  vc_wf m ∧ vc_le a m ∧ vc_le b m ∧ (vc_le a c → vc_le b c → vc_le m c) ∧
  m ≡ Merge b (Some a) ∧ Merge a (Some a) ≡ a ∧
  Merge m (Some c) ≡ Merge a (Some (Merge b (Some c))).
Proof.
  intros m. subst m. rewrite !Merge_MergeMap. destruct b as [bm].
  split_and!; eauto using MergeMap_wf, MergeMap_ub_l, MergeMap_ub_r, MergeMap_least.
  - intros k. rewrite !Get_MergeMap_max by done. unfold Get; simpl. lia.
  - intros k. rewrite !Get_MergeMap_max by done. unfold Get. lia.
  - intros k. rewrite !Get_MergeMap_max by eauto using MergeMap_wf.
    change (map_get 0 (clocks ?x) k) with (Get x k).
    rewrite Get_MergeMap_max by done. unfold Get; simpl. lia.
Qed.

Lemma Merge_is_join_witness :
  let a := mkVectorClock {["m1" := 2]} in
  let b := mkVectorClock {["m2" := 3]} in
  vc_wf a ∧ vc_wf b ∧ vc_le a (Merge a (Some b)) ∧ vc_le b (Merge a (Some b)) ∧
  Get (Merge a (Some b)) "m1" = 2 ∧ Get (Merge a (Some b)) "m2" = 3.
Proof.
  intros a b.
  assert (vc_wf a) as Ha by (by apply map_Forall_singleton).
  assert (vc_wf b) as Hb by (by apply map_Forall_singleton).
  destruct (Merge_is_join a b a Ha Hb) as (_ & H1 & H2 & _).
  split_and!; try done; vm_compute; reflexivity.
Defined.

(** Below the int64 limit, [Increment] returns the member's counter plus
    one, leaves every other member alone and produces a clock that happened
    strictly after the old one; at the limit the counter wraps to the most
    negative int64 and the new clock happened before the old one. *)
Theorem Increment_advances (vc : VectorClock) (m : string) (Hwf : vc_wf vc)
    (Hrange : Get vc m ≤ max_int64) :
  let '(vc', r) := Increment vc m in
  (Get vc m < max_int64 →
     r = Get vc m + 1 ∧ Get vc' m = r ∧ (∀ k, k ≠ m → Get vc' k = Get vc k) ∧
     vc_wf vc' ∧ HappenedAfter vc' (Some vc) = true) ∧
  (Get vc m = max_int64 → r = min_int64 ∧ HappenedBefore vc' (Some vc) = true).
Proof.
  destruct (Increment vc m) as [vc' r] eqn:E.
  assert (vc' = (Increment vc m).1) as -> by (by rewrite E).
  assert (r = Get (Increment vc m).1 m) as -> by (by unfold Increment in *; simplify_eq).
  pose proof (Get_nonneg vc m Hwf) as Hpos. unfold max_int64, min_int64 in *.
  split; intros Hlt; rewrite !Get_Increment, !decide_True by done.
  - rewrite wrap64_small by (unfold int64_range, min_int64, max_int64; lia).
    split_and!; [done|done|..].
    + intros k Hk. by rewrite Get_Increment, decide_False.
    + apply Increment_wf; unfold max_int64; [done|lia].
    + apply HappenedAfter_true. split.
      * intros k. rewrite Get_Increment. split_ifs; [subst|lia].
        rewrite wrap64_small; unfold int64_range, min_int64, max_int64; lia.
      * exists m. rewrite Get_Increment, decide_True by done.
        rewrite wrap64_small; unfold int64_range, min_int64, max_int64; lia.
  - rewrite Hlt. split; [done|]. apply HappenedBefore_true. split.
    + intros k. rewrite Get_Increment. split_ifs; [subst; rewrite Hlt; by vm_compute|lia].
    + exists m. rewrite Get_Increment, decide_True, Hlt by done. by vm_compute.
Qed.

Lemma Increment_advances_witness :
  let vc := mkVectorClock {["m1" := 4]} in
  (Increment vc "m1").2 = 5 ∧ HappenedAfter (Increment vc "m1").1 (Some vc) = true.
Proof.
  intros vc. assert (vc_wf vc) as Hwf by (by apply map_Forall_singleton).
  assert (Get vc "m1" ≤ max_int64) as Hr by (vm_compute; discriminate).
  pose proof (Increment_advances vc "m1" Hwf Hr) as H.
  destruct (Increment vc "m1") as [vc' r].
  destruct H as [(-> & _ & _ & _ & Ha) _]; [by vm_compute|]. split; [by vm_compute|done].
Defined.

Lemma Equal_true vc o :
  Equal vc (Some o) = true ↔
    size (clocks vc) = size (clocks o) ∧ map_Forall (λ k v, Get o k = v) (clocks vc).
Proof.
  unfold Equal. rewrite copy_map_id. destruct (decide (size (clocks vc) ≠ size (clocks o))) as [|Hs];
    [split; [done|by intros []]|].
  apply dec_stable in Hs. rewrite forallb_forall. split.
  - intros Hall. split; [done|]. intros k v Hk.
    apply elem_of_map_to_list, list_elem_of_In in Hk. by apply Hall, bool_decide_eq_true_1 in Hk.
  - intros [_ Hall] [k v] Hk. apply list_elem_of_In, elem_of_map_to_list in Hk.
    apply bool_decide_eq_true_2. by apply (Hall k v).
Qed.

(** No counter is an explicit zero. *)
Definition vc_no_zero (vc : VectorClock) : Prop := map_Forall (λ _ v, v ≠ 0) (clocks vc).

(** [Equal] is equality of the clocks when the left clock holds no explicit
    zero; with an explicit zero the test can answer true for clocks with
    different counters, and then it is not symmetric. *)
Theorem Equal_exact_without_zeros :
  (∀ a b, vc_no_zero a → (Equal a (Some b) = true ↔ a = b)) ∧
  (∃ a b, vc_wf a ∧ vc_wf b ∧ Equal a (Some b) = true ∧ Equal b (Some a) = false ∧
          HappenedBefore a (Some b) = true).
Proof.
  split.
  - intros [a] [b] Hz. rewrite Equal_true. unfold Get; simpl. split.
    + intros [Hs Hall].
      assert (a ⊆ b) as Hsub.
      { apply map_subseteq_spec. intros k v Hk. specialize (Hall k v Hk). specialize (Hz k v Hk).
        simpl in *. unfold map_get in Hall. destruct (b !! k) eqn:E; simpl in *; congruence. }
      f_equal. apply map_subseteq_size_eq in Hsub; [done|lia].
    + intros [= ->]. split; [done|]. intros k v Hk. unfold map_get. by rewrite Hk.
  - exists (mkVectorClock {["a" := 0; "b" := 1]}), (mkVectorClock {["b" := 1; "c" := 5]}).
    split_and!; [| |by vm_compute..];
      (apply map_Forall_insert_2; [lia|by apply map_Forall_singleton]).
Qed.
