(* ===== verification/FedTypes.v ===== *)
(** * Data types of the federation
    (src/internal/controller/federation/types.go, the SplitBrainConfig of
    splitbrain.go, and the messages of src/internal/proto/gen/federation.pb.go
    that the server exchanges)

    The record types keep the fields of the Go structs; a pointer that may be
    nil is an [option], a byte slice is a [string] (nil and empty slices are
    not distinguished by the code), a map that the code tests for nil is an
    option of a [gmap]. The file also translates [ResourceKey.String] and the
    functional comparison of configurations. *)

From S2P Require Import Prelude VectorClock.

Definition ModeHubSpoke : string := "hub-spoke".
Definition ModeMesh : string := "mesh".
Definition ModeUnified : string := "unified".
Definition RepairModePull : string := "pull".
Definition RepairModePush : string := "push".
Definition RepairModeBidirectional : string := "bidirectional".
Definition StrategyLastWriterWins : string := "LastWriterWins".

Record PeerInfo := mkPeerInfo {
  pi_Name : string;
  pi_Endpoint : string;
  pi_Region : string;
  pi_Zone : string;
  pi_Priority : Z;
  pi_Labels : gmap string string;
  pi_TLSEnabled : bool;
  pi_TLSServerName : string;
  pi_InsecureSkipVerify : bool;
  pi_CACert : string;
  pi_ClientCert : string;
  pi_ClientKey : string;
}.

#[global] Instance PeerInfo_eq_dec : EqDecision PeerInfo.
Proof. solve_decision. Defined.

Record PeerState := mkPeerState {
  ps_Info : option PeerInfo;
  ps_VectorClock : option VectorClock;
  ps_LastSeen : Z;
  ps_LastSyncTime : Z;
  ps_Healthy : bool;
  ps_Connected : bool;
  ps_AgentCount : Z;
  ps_SyncLag : Z;
  ps_LastError : string;
  ps_ConsecutiveFailures : Z;
}.

(** The zero value [&PeerState{}]. *)
Definition PeerState_zero : PeerState :=
  mkPeerState None None time_zero time_zero false false 0 0 "" 0.

Record ResourceKey := mkResourceKey {
  rk_Kind : string;
  rk_Namespace : string;
  rk_Name : string;
}.

#[global] Instance ResourceKey_eq_dec : EqDecision ResourceKey.
Proof. solve_decision. Defined.

(** [ResourceKey.String]. *)
Definition ResourceKey_String (k : ResourceKey) : string :=
  if str_empty (rk_Namespace k) then rk_Kind k +:+ "/" +:+ rk_Name k
  else rk_Kind k +:+ "/" +:+ rk_Namespace k +:+ "/" +:+ rk_Name k.

Record TrackedResource := mkTrackedResource {
  tr_Key : ResourceKey;
  tr_ResourceVersion : string;
  tr_Hash : string;
  tr_Data : string;
  tr_VectorClock : gmap string Z;
  tr_OriginMember : string;
  tr_LastModified : Z;
  tr_Labels : option (gmap string string);
}.

Record Tombstone := mkTombstone {
  tb_Key : ResourceKey;
  tb_DeletionTime : Z;
  tb_VectorClock : gmap string Z;
  tb_OriginMember : string;
}.

Inductive ConflictResolutionType :=
  | ConflictResolutionNone
  | ConflictResolutionLastWriterWins
  | ConflictResolutionMerged
  | ConflictResolutionPendingManual
  | ConflictResolutionLocalWins
  | ConflictResolutionRemoteWins.

Record ConflictInfo := mkConflictInfo {
  ci_Key : ResourceKey;
  ci_LocalVersion : TrackedResource;
  ci_RemoteVersion : TrackedResource;
  ci_DetectedAt : Z;
  ci_Resolution : ConflictResolutionType;
  ci_RequiresManual : bool;
}.

Record SyncStats := mkSyncStats {
  st_TotalChangesReceived : Z;
  st_TotalChangesSent : Z;
  st_LastSyncDuration : Z;
  st_ConflictsDetected : Z;
  st_ConflictsResolved : Z;
  st_PendingChanges : Z;
  st_FullSyncs : Z;
  st_IncrementalSyncs : Z;
}.

Definition SyncStats_zero : SyncStats := mkSyncStats 0 0 0 0 0 0 0 0.

Inductive Phase :=
  | PhaseInitializing
  | PhaseSyncing
  | PhaseHealthy
  | PhaseDegraded
  | PhasePartitioned.

#[global] Instance Phase_eq_dec : EqDecision Phase.
Proof. solve_decision. Defined.

Inductive ChangeType :=
  | ChangeTypeCreated
  | ChangeTypeUpdated
  | ChangeTypeDeleted.

#[global] Instance ChangeType_eq_dec : EqDecision ChangeType.
Proof. solve_decision. Defined.

Record ChangeEntry := mkChangeEntry {
  ce_ID : string;
  ce_Key : ResourceKey;
  ce_Type : ChangeType;
  ce_Resource : option TrackedResource;
  ce_Tombstone : option Tombstone;
  ce_VectorClock : gmap string Z;
  ce_Timestamp : Z;
  ce_Acknowledged : gmap string bool;
}.

Inductive QuorumMode :=
  | QuorumModeControllers
  | QuorumModeAgentAssisted
  | QuorumModeOther (s : string).

#[global] Instance QuorumMode_eq_dec : EqDecision QuorumMode.
Proof. solve_decision. Defined.

Record SplitBrainConfig := mkSplitBrainConfig {
  sb_PartitionTimeout : Z;
  sb_QuorumRequired : bool;
  sb_QuorumSize : Z;
  sb_HealingGracePeriod : Z;
  sb_AutoResolveOnHeal : bool;
  sb_FencingEnabled : bool;
  sb_QuorumMode : QuorumMode;
  sb_AgentQuorumWeight : Z;
  sb_ControllerQuorumWeight : Z;
  sb_MinAgentsForQuorum : Z;
}.

#[global] Instance SplitBrainConfig_eq_dec : EqDecision SplitBrainConfig.
Proof. solve_decision. Defined.

Record Config := mkConfig {
  cf_Mode : string;
  cf_FederationID : string;
  cf_LocalMember : option PeerInfo;
  cf_Peers : list PeerInfo;
  cf_SyncInterval : Z;
  cf_SyncTimeout : Z;
  cf_BatchSize : Z;
  cf_CompressionEnabled : bool;
  cf_ResourceTypes : list string;
  cf_ExcludeNamespaces : list string;
  cf_ConflictResolutionStrategy : string;
  cf_VectorClocksEnabled : bool;
  cf_TombstoneTTL : Z;
  cf_HealthCheckInterval : Z;
  cf_HealthCheckTimeout : Z;
  cf_FailureThreshold : Z;
  cf_SuccessThreshold : Z;
  cf_SplitBrain : option SplitBrainConfig;
}.

Definition DefaultConfig : Config :=
  {| cf_Mode := ModeMesh;
     cf_FederationID := "";
     cf_LocalMember := None;
     cf_Peers := [];
     cf_SyncInterval := 5 * Second;
     cf_SyncTimeout := 30 * Second;
     cf_BatchSize := 100;
     cf_CompressionEnabled := true;
     cf_ResourceTypes := [];
     cf_ExcludeNamespaces := [];
     cf_ConflictResolutionStrategy := StrategyLastWriterWins;
     cf_VectorClocksEnabled := true;
     cf_TombstoneTTL := 24 * Hour;
     cf_HealthCheckInterval := 10 * Second;
     cf_HealthCheckTimeout := 5 * Second;
     cf_FailureThreshold := 3;
     cf_SuccessThreshold := 1;
     cf_SplitBrain := None |}.

(** ** Comparison of configurations *)

Definition stringSliceEqual (a b : list string) : bool :=
  if decide (length a ≠ length b) then false
  else forallb (λ p, str_eqb p.1 p.2) (zip a b).

Definition stringMapEqual (a b : gmap string string) : bool :=
  if decide (size a ≠ size b) then false
  else forallb (λ kv, match b !! kv.1 with
                      | None => false
                      | Some bv => str_eqb kv.2 bv
                      end) (map_to_list a).

Definition peerInfoEqual (a b : option PeerInfo) : bool :=
  match a, b with
  | None, None => true
  | None, Some _ | Some _, None => false
  | Some a, Some b =>
      if negb (str_eqb (pi_Name a) (pi_Name b)) ||
         negb (str_eqb (pi_Endpoint a) (pi_Endpoint b)) ||
         negb (str_eqb (pi_Region a) (pi_Region b)) ||
         negb (str_eqb (pi_Zone a) (pi_Zone b)) ||
         negb (bool_decide (pi_Priority a = pi_Priority b)) ||
         negb (bool_decide (pi_TLSEnabled a = pi_TLSEnabled b)) ||
         negb (str_eqb (pi_TLSServerName a) (pi_TLSServerName b)) ||
         negb (bool_decide (pi_InsecureSkipVerify a = pi_InsecureSkipVerify b))
      then false
      else if negb (stringMapEqual (pi_Labels a) (pi_Labels b)) then false
      else if negb (str_eqb (pi_CACert a) (pi_CACert b)) ||
              negb (str_eqb (pi_ClientCert a) (pi_ClientCert b)) ||
              negb (str_eqb (pi_ClientKey a) (pi_ClientKey b))
      then false
      else true
  end.

Definition splitBrainConfigEqual (a b : option SplitBrainConfig) : bool :=
  match a, b with
  | None, None => true
  | None, Some _ | Some _, None => false
  | Some a, Some b =>
      bool_decide (sb_PartitionTimeout a = sb_PartitionTimeout b) &&
      bool_decide (sb_QuorumRequired a = sb_QuorumRequired b) &&
      bool_decide (sb_QuorumSize a = sb_QuorumSize b) &&
      bool_decide (sb_HealingGracePeriod a = sb_HealingGracePeriod b) &&
      bool_decide (sb_AutoResolveOnHeal a = sb_AutoResolveOnHeal b) &&
      bool_decide (sb_FencingEnabled a = sb_FencingEnabled b) &&
      bool_decide (sb_QuorumMode a = sb_QuorumMode b) &&
      bool_decide (sb_AgentQuorumWeight a = sb_AgentQuorumWeight b) &&
      bool_decide (sb_ControllerQuorumWeight a = sb_ControllerQuorumWeight b) &&
      bool_decide (sb_MinAgentsForQuorum a = sb_MinAgentsForQuorum b)
  end.

Definition scalarFieldsEqual (c other : Config) : bool :=
  str_eqb (cf_Mode c) (cf_Mode other) &&
  str_eqb (cf_FederationID c) (cf_FederationID other) &&
  bool_decide (cf_SyncInterval c = cf_SyncInterval other) &&
  bool_decide (cf_SyncTimeout c = cf_SyncTimeout other) &&
  bool_decide (cf_BatchSize c = cf_BatchSize other) &&
  bool_decide (cf_CompressionEnabled c = cf_CompressionEnabled other) &&
  str_eqb (cf_ConflictResolutionStrategy c) (cf_ConflictResolutionStrategy other) &&
  bool_decide (cf_VectorClocksEnabled c = cf_VectorClocksEnabled other) &&
  bool_decide (cf_TombstoneTTL c = cf_TombstoneTTL other) &&
  bool_decide (cf_HealthCheckInterval c = cf_HealthCheckInterval other) &&
  bool_decide (cf_HealthCheckTimeout c = cf_HealthCheckTimeout other) &&
  bool_decide (cf_FailureThreshold c = cf_FailureThreshold other) &&
  bool_decide (cf_SuccessThreshold c = cf_SuccessThreshold other).

(** The map name -> peer the loop builds: a later peer replaces an earlier one
    of the same name. *)
Definition peersByName (l : list PeerInfo) : gmap string PeerInfo :=
  foldl (λ m p, <[pi_Name p := p]> m) ∅ l.

Definition peersEqual (a b : list PeerInfo) : bool :=
  if decide (length a ≠ length b) then false
  else
    let peerMap := peersByName a in
    forallb (λ p, match peerMap !! pi_Name p with
                  | None => false
                  | Some existing => peerInfoEqual (Some existing) (Some p)
                  end) b.

(** [Config.Equal]: [same] says that the two pointers are one and the same. *)
Definition Config_Equal (same : bool) (c other : option Config) : bool :=
  if same then true
  else match c, other with
       | None, None => true
       | None, Some _ | Some _, None => false
       | Some c, Some other =>
           scalarFieldsEqual c other &&
           peerInfoEqual (cf_LocalMember c) (cf_LocalMember other) &&
           peersEqual (cf_Peers c) (cf_Peers other) &&
           stringSliceEqual (cf_ResourceTypes c) (cf_ResourceTypes other) &&
           stringSliceEqual (cf_ExcludeNamespaces c) (cf_ExcludeNamespaces other) &&
           splitBrainConfigEqual (cf_SplitBrain c) (cf_SplitBrain other)
       end.

(** ** Messages *)

(** An open proto3 enum: values outside the declared ones can arrive. *)
Inductive pbChangeType :=
  | CHANGE_TYPE_UNSPECIFIED
  | CREATED
  | UPDATED
  | DELETED
  | CHANGE_TYPE_UNKNOWN (n : Z).

Record ResourceChange := mkResourceChange {
  rc_ChangeId : string;
  rc_VectorClock : gmap string Z;
  rc_ChangeType : pbChangeType;
  rc_ResourceType : string;
  rc_Namespace : string;
  rc_Name : string;
  rc_ResourceVersion : string;
  rc_ResourceData : string;
  rc_ResourceHash : string;
  rc_Timestamp : Z;
  rc_OriginMember : string;
  rc_Labels : option (gmap string string);
}.

Record SyncHandshake := mkSyncHandshake {
  hs_FederationId : string;
  hs_MemberName : string;
  hs_Region : string;
  hs_Zone : string;
  hs_VectorClock : gmap string Z;
  hs_ProtocolVersion : Z;
  hs_Compression : bool;
}.

Record SyncAck := mkSyncAck {
  ack_ChangeIds : list string;
  ack_VectorClock : gmap string Z;
  ack_Errors : list string;
}.

Record Heartbeat := mkHeartbeat {
  hb_VectorClock : gmap string Z;
  hb_Timestamp : Z;
  hb_PendingChanges : Z;
  hb_AgentCount : Z;
}.

Record ConflictNotification := mkConflictNotification {
  cn_ResourceType : string;
  cn_Namespace : string;
  cn_Name : string;
}.

(** The oneof of [SyncMessage]; [None] is a message with no variant set. *)
Inductive SyncMessage :=
  | MsgHandshake (h : SyncHandshake)
  | MsgChange (c : ResourceChange)
  | MsgAck (a : SyncAck)
  | MsgHeartbeat (h : Heartbeat)
  | MsgConflict (c : ConflictNotification)
  | MsgNone.

Record FullSyncRequest := mkFullSyncRequest {
  fr_FederationId : string;
  fr_RequesterMember : string;
  fr_ResourceTypes : list string;
  fr_Namespaces : list string;
  fr_VectorClock : gmap string Z;
}.

Record ResourceBatch := mkResourceBatch {
  rb_BatchNumber : Z;
  rb_IsLast : bool;
  rb_Resources : list ResourceChange;
  rb_TotalResources : Z;
  rb_VectorClock : gmap string Z;
}.

Record GetStateResponse := mkGetStateResponse {
  gs_MemberName : string;
  gs_Region : string;
  gs_Zone : string;
  gs_VectorClock : gmap string Z;
  gs_LastSyncTimes : gmap string Z;
  gs_ResourceCounts : gmap string Z;
  gs_Healthy : bool;
  gs_Phase : Phase;
  gs_AgentCount : Z;
  gs_ConflictsPending : Z;
}.

Record PingResponse := mkPingResponse {
  pr_MemberName : string;
  pr_Timestamp : Z;
  pr_Healthy : bool;
}.

Record ServiceEndpoints := mkServiceEndpoints {
  se_ServiceName : string;
  se_Namespace : string;
  se_ClusterName : string;
  se_Region : string;
  se_Zone : string;
  se_Endpoints : list string;
}.

(** ** Lemmas *)

(** No byte of the string is a slash. *)
Fixpoint no_slash (s : string) : bool :=
  match s with
  | EmptyString => true
  | String c s' => negb (bool_decide (c = "/"%char)) && no_slash s'
  end.

Lemma no_slash_split a b c d :
  no_slash a = true → no_slash b = true →
  a +:+ "/" +:+ c = b +:+ "/" +:+ d → a = b ∧ c = d.
Proof.
  revert b. induction a as [|x a IH]; intros [|y b] Ha Hb Heq; simpl in *; simplify_eq.
  - done.
  - bool_prop. edestruct IH as [-> ->]; eauto.
Qed.

Lemma no_slash_not_split a c d : no_slash a = true → a ≠ c +:+ "/" +:+ d.
Proof.
  revert a. induction c as [|x c IH]; intros [|y a] Ha Heq; simpl in *; bool_prop;
    rewrite ?str_app_nil, ?str_app_cons in Heq; simplify_eq; by eapply IH.
Qed.

Lemma forallb_zip_eq (a b : list string) :
  length a = length b → forallb (λ p, str_eqb p.1 p.2) (zip a b) = true ↔ a = b.
Proof.
  revert b. induction a as [|x a IH]; intros [|y b] Hlen; simpl in *; try done.
  rewrite andb_true_iff, str_eqb_true, IH by lia. split; [by intros [-> ->]|by intros [= -> ->]].
Qed.

Lemma stringSliceEqual_true a b : stringSliceEqual a b = true ↔ a = b.
Proof.
  unfold stringSliceEqual. destruct (decide (length a ≠ length b)) as [Hne|Heq].
  - split; [done|]. by intros ->.
  - apply dec_stable in Heq. by apply forallb_zip_eq.
Qed.

Lemma stringMapEqual_true a b : stringMapEqual a b = true ↔ a = b.
Proof.
  unfold stringMapEqual. destruct (decide (size a ≠ size b)) as [Hne|Heq].
  - split; [done|]. by intros ->.
  - apply dec_stable in Heq. rewrite forallb_forall. split.
    + intros Hall. apply (map_subseteq_size_eq a b); [|lia].
      apply map_subseteq_spec. intros k v Hk.
      specialize (Hall (k, v) (proj1 (list_elem_of_In _ _) (proj2 (elem_of_map_to_list _ _ _) Hk))).
      simpl in Hall. destruct (b !! k); [|done]. apply str_eqb_true in Hall. by subst.
    + intros -> [k v] Hk. apply list_elem_of_In, elem_of_map_to_list in Hk. simpl. rewrite Hk.
      by apply str_eqb_true.
Qed.

Lemma peerInfoEqual_true a b : peerInfoEqual a b = true ↔ a = b.
Proof.
  destruct a as [a|], b as [b|]; simpl; try done.
  split.
  - destruct a, b; simpl. split_ifs; try done. intros _. bool_prop.
    repeat match goal with
    | E : str_eqb _ _ = true |- _ => apply str_eqb_true in E
    | E : stringMapEqual _ _ = true |- _ => apply stringMapEqual_true in E
    end. by subst.
  - intros [= ->]. unfold str_eqb. rewrite !bool_decide_eq_true_2 by done. simpl.
    by rewrite (proj2 (stringMapEqual_true _ _) eq_refl).
Qed.

Lemma splitBrainConfigEqual_true a b : splitBrainConfigEqual a b = true ↔ a = b.
Proof.
  destruct a as [a|], b as [b|]; simpl; try done. split.
  - intros H. bool_prop. destruct a, b; simpl in *. by subst.
  - intros [= ->]. by rewrite !bool_decide_eq_true_2.
Qed.

Lemma lookup_peersByName_not_in l n (acc : gmap string PeerInfo) :
  n ∉ (pi_Name <$> l) → foldl (λ m p, <[pi_Name p := p]> m) acc l !! n = acc !! n.
Proof.
  revert acc. induction l as [|p l IH]; intros acc Hn; simpl in *; [done|].
  apply not_elem_of_cons in Hn as [Hn1 Hn2]. rewrite IH by done. rewrite lookup_insert_ne; congruence.
Qed.

Lemma lookup_peersByName l p (acc : gmap string PeerInfo) :
  NoDup (pi_Name <$> l) → p ∈ l →
  foldl (λ m p, <[pi_Name p := p]> m) acc l !! pi_Name p = Some p.
Proof.
  revert acc. induction l as [|q l IH]; intros acc Hnd Hp; simpl in *; [by apply elem_of_nil in Hp|].
  inversion Hnd as [|? ? Hq Hnd']; subst. apply elem_of_cons in Hp as [->|Hp]; [|by apply IH].
  rewrite lookup_peersByName_not_in by done. apply lookup_insert_eq.
Qed.

Lemma lookup_peersByName_Some l n p (acc : gmap string PeerInfo) :
  foldl (λ m p, <[pi_Name p := p]> m) acc l !! n = Some p → p ∈ l ∨ acc !! n = Some p.
Proof.
  revert acc. induction l as [|q l IH]; intros acc H; simpl in *; [by right|].
  apply IH in H as [H|H]; [left; by right|].
  destruct (decide (pi_Name q = n)) as [<-|Hne].
  - rewrite lookup_insert_eq in H. simplify_eq. left. by left.
  - rewrite lookup_insert_ne in H by done. by right.
Qed.

Lemma peersEqual_perm a b :
  NoDup (pi_Name <$> a) → NoDup (pi_Name <$> b) → peersEqual a b = true ↔ a ≡ₚ b.
Proof.
  intros Ha Hb. unfold peersEqual, peersByName. destruct (decide (length a ≠ length b)) as [Hne|Heq].
  { split; [done|]. intros Hp. destruct Hne. by rewrite Hp. }
  apply dec_stable in Heq. rewrite forallb_forall. split.
  - intros Hall. symmetry. apply submseteq_length_Permutation; [|lia].
    apply NoDup_submseteq; [by apply NoDup_fmap_1 in Hb|]. intros p Hp.
    specialize (Hall p (proj1 (list_elem_of_In _ _) Hp)). simpl in Hall.
    destruct (foldl _ _ _ !! _) as [q|] eqn:Hq; [|done].
    apply (peerInfoEqual_true (Some q) (Some p)) in Hall. simplify_eq.
    by apply lookup_peersByName_Some in Hq as [|Hq].
  - intros Hp p Hin%list_elem_of_In. rewrite <- Hp in Hin.
    rewrite lookup_peersByName by done. by apply peerInfoEqual_true.
Qed.

#[export] Hint Rewrite stringSliceEqual_true stringMapEqual_true peerInfoEqual_true
  splitBrainConfigEqual_true str_eqb_true : go_lookup.

(** ** Properties *)

Definition key_slash_free (k : ResourceKey) : Prop :=
  no_slash (rk_Kind k) = true ∧ no_slash (rk_Namespace k) = true ∧ no_slash (rk_Name k) = true.

(** Two configurations that differ at most in the order of their peers. *)
Definition config_same_up_to_peer_order (c d : Config) : Prop :=
  cf_Peers c ≡ₚ cf_Peers d ∧
  c = mkConfig (cf_Mode d) (cf_FederationID d) (cf_LocalMember d) (cf_Peers c) (cf_SyncInterval d)
        (cf_SyncTimeout d) (cf_BatchSize d) (cf_CompressionEnabled d) (cf_ResourceTypes d)
        (cf_ExcludeNamespaces d) (cf_ConflictResolutionStrategy d) (cf_VectorClocksEnabled d)
        (cf_TombstoneTTL d) (cf_HealthCheckInterval d) (cf_HealthCheckTimeout d)
        (cf_FailureThreshold d) (cf_SuccessThreshold d) (cf_SplitBrain d).

Lemma ResourceKey_String_inj k1 k2 :
  key_slash_free k1 → key_slash_free k2 →
  ResourceKey_String k1 = ResourceKey_String k2 → k1 = k2.
Proof.
  destruct k1 as [K1 N1 M1], k2 as [K2 N2 M2]. unfold key_slash_free, ResourceKey_String; simpl.
  intros (HK1 & HN1 & HM1) (HK2 & HN2 & HM2). unfold str_empty.
  repeat case_bool_decide; intros Heq; apply no_slash_split in Heq as [-> Heq]; try done.
  - by subst.
  - by apply no_slash_not_split in Heq.
  - symmetry in Heq. by apply no_slash_not_split in Heq.
  - apply no_slash_split in Heq as [-> ->]; done.
Qed.

(** The string under which the server files a resource identifies the
    resource: [ResourceKey.String] is injective on keys whose kind, namespace
    and name hold no slash, cluster-scoped keys included; a name with a slash
    can collide with a namespaced key. *)
Theorem ResourceKey_String_identifies :
  (∀ k1 k2, key_slash_free k1 → key_slash_free k2 →
     (ResourceKey_String k1 = ResourceKey_String k2 ↔ k1 = k2)) ∧
  ResourceKey_String (mkResourceKey "Svc" "" "ns/a") = ResourceKey_String (mkResourceKey "Svc" "ns" "a").
Proof.
  split; [|done]. intros k1 k2 H1 H2. split; [by apply ResourceKey_String_inj|by intros ->].
Qed.

(** [Config.Equal] on two distinct configuration objects answers true
    exactly when they agree on every field, the peers up to their order,
    provided no two peers of one configuration have the same name. *)
Theorem Config_Equal_exact (c d : Config)
    (Hc : NoDup (pi_Name <$> cf_Peers c)) (Hd : NoDup (pi_Name <$> cf_Peers d)) :
  Config_Equal false (Some c) (Some d) = true ↔ config_same_up_to_peer_order c d.
Proof.
  unfold Config_Equal, scalarFieldsEqual, config_same_up_to_peer_order, str_eqb.
  rewrite !andb_true_iff, !bool_decide_eq_true, !peerInfoEqual_true, !stringSliceEqual_true,
    !splitBrainConfigEqual_true, peersEqual_perm by done.
  destruct c, d; simpl in *. split.
  - intros H. destruct_and!. by subst.
  - intros [Hp Heq]. injection Heq; intros; subst. by split_and!.
Qed.

Lemma Config_Equal_exact_witness :
  let p n := mkPeerInfo n (n +:+ ":9443") "eu" "a" 0 ∅ false "" false "" "" "" in
  let c l := mkConfig ModeMesh "fed" None l 1 2 3 true [] [] "Manual" true 4 5 6 7 8 None in
  config_same_up_to_peer_order (c [p "x"; p "y"]) (c [p "y"; p "x"]) ∧
  ¬ config_same_up_to_peer_order (c [p "x"]) (c [p "y"]).
Proof.
  intros p c. split.
  - apply Config_Equal_exact; [by vm_compute; repeat constructor; set_solver..|by vm_compute].
  - rewrite <- Config_Equal_exact; [by vm_compute|by vm_compute; repeat constructor; set_solver..].
Defined.
