(* ===== verification/Endpoints.v ===== *)
(** * The remote endpoint cache
    (src/internal/controller/federation/endpoints.go)

    A two-level map cluster -> "namespace/service" -> endpoints. The file
    translates every operation, states the flat relation the cache represents
    and the invariant that no cluster map is empty. *)

From S2P Require Import Prelude FedTypes.

Record RemoteEndpointCache := mkRemoteEndpointCache {
  endpoints : gmap string (gmap string ServiceEndpoints);
}.

Definition NewRemoteEndpointCache : RemoteEndpointCache := mkRemoteEndpointCache ∅.

Definition serviceKey (namespace serviceName : string) : string :=
  namespace +:+ "/" +:+ serviceName.

Definition Update (c : RemoteEndpointCache) (cluster : string)
    (eps : option ServiceEndpoints) : RemoteEndpointCache :=
  match eps with
  | None => c
  | Some e =>
      let clusterMap := default ∅ (endpoints c !! cluster) in
      let key := serviceKey (se_Namespace e) (se_ServiceName e) in
      mkRemoteEndpointCache (<[cluster := <[key := e]> clusterMap]> (endpoints c))
  end.

Definition Delete (c : RemoteEndpointCache) (cluster namespace serviceName : string)
    : RemoteEndpointCache :=
  match endpoints c !! cluster with
  | None => c
  | Some clusterMap =>
      let clusterMap' := delete (serviceKey namespace serviceName) clusterMap in
      if decide (size clusterMap' = 0%nat) then
        mkRemoteEndpointCache (delete cluster (endpoints c))
      else mkRemoteEndpointCache (<[cluster := clusterMap']> (endpoints c))
  end.

Definition DeleteCluster (c : RemoteEndpointCache) (cluster : string) : RemoteEndpointCache :=
  mkRemoteEndpointCache (delete cluster (endpoints c)).

(** [order] is the order in which the range loop visits the clusters. *)
Definition GetForService (order : list (string * gmap string ServiceEndpoints))
    (namespace serviceName : string) : list ServiceEndpoints :=
  let key := serviceKey namespace serviceName in
  foldl (λ result kv, match kv.2 !! key with
                      | Some ep => result ++ [ep]
                      | None => result
                      end) [] order.

(** [order] lists the clusters with, for each, the visiting order of its map. *)
Definition GetAll (order : list (string * list (string * ServiceEndpoints)))
    : gmap string (list ServiceEndpoints) :=
  foldl (λ result kv,
    foldl (λ result ke, <[ke.1 := map_get [] result ke.1 ++ [ke.2]]> result) result kv.2) ∅ order.

(** ** The relation the cache represents *)

Definition entry (c : RemoteEndpointCache) (cluster key : string) : option ServiceEndpoints :=
  endpoints c !! cluster ≫= λ m, m !! key.

(** No cluster map is empty, and every entry is filed under its own service key. *)
Definition cache_wf (c : RemoteEndpointCache) : Prop :=
  map_Forall (λ _ m, m ≠ ∅ ∧
    map_Forall (λ k e, k = serviceKey (se_Namespace e) (se_ServiceName e)) m) (endpoints c).

(** ** Lemmas *)

Lemma entry_Update c cl e cl' k :
  entry (Update c cl (Some e)) cl' k =
    if decide (cl' = cl ∧ k = serviceKey (se_Namespace e) (se_ServiceName e)) then Some e
    else entry c cl' k.
Proof.
  unfold entry, Update; simpl. destruct (decide (cl' = cl)) as [->|Hne].
  - rewrite lookup_insert_eq; simpl. rewrite lookup_insert. case_decide as Hk.
    + by rewrite decide_True by (by subst).
    + rewrite decide_False by naive_solver. by destruct (endpoints c !! cl).
  - rewrite lookup_insert_ne by done. by rewrite decide_False by naive_solver.
Qed.

Lemma entry_Delete c cl ns n cl' k :
  entry (Delete c cl ns n) cl' k =
    if decide (cl' = cl ∧ k = serviceKey ns n) then None else entry c cl' k.
Proof.
  unfold entry, Delete. destruct (endpoints c !! cl) as [m|] eqn:Hm; simpl.
  2:{ case_decide as Hd; [|done]. destruct Hd as [-> ->]. by rewrite Hm. }
  case_decide as Hs; simpl.
  - apply map_size_empty_inv in Hs. destruct (decide (cl' = cl)) as [->|Hne].
    + rewrite lookup_delete_eq, Hm; simpl. case_decide as Hk; [done|].
      assert (k ≠ serviceKey ns n) as Hk' by naive_solver.
      by rewrite <- (lookup_delete_ne m (serviceKey ns n) k), Hs, lookup_empty by done.
    + by rewrite lookup_delete_ne, decide_False by naive_solver.
  - destruct (decide (cl' = cl)) as [->|Hne].
    + rewrite lookup_insert_eq, Hm; simpl. rewrite lookup_delete.
      by case_decide; [rewrite decide_True by naive_solver|rewrite decide_False by naive_solver].
    + by rewrite lookup_insert_ne, decide_False by naive_solver.
Qed.

Lemma entry_DeleteCluster c cl cl' k :
  entry (DeleteCluster c cl) cl' k = if decide (cl' = cl) then None else entry c cl' k.
Proof.
  unfold entry, DeleteCluster; simpl. rewrite lookup_delete.
  by case_decide; [rewrite decide_True by done|rewrite decide_False by done].
Qed.

Lemma Update_wf c cl e : cache_wf c → cache_wf (Update c cl e).
Proof.
  destruct e as [e|]; [|done]. intros Hwf. apply map_Forall_insert_2; [|done].
  split; [apply insert_non_empty|]. apply map_Forall_insert_2; [done|].
  destruct (endpoints c !! cl) as [m|] eqn:Hm; simpl; [by apply (Hwf cl m Hm)|apply map_Forall_empty].
Qed.

Lemma Delete_wf c cl ns n : cache_wf c → cache_wf (Delete c cl ns n).
Proof.
  intros Hwf. unfold Delete. destruct (endpoints c !! cl) as [m|] eqn:Hm; [|done].
  case_decide as Hs; [by apply map_Forall_delete|]. apply map_Forall_insert_2; [|done]. split.
  - intros He. apply Hs. by rewrite He.
  - apply map_Forall_delete. by apply (Hwf cl m Hm).
Qed.

Lemma DeleteCluster_wf c cl : cache_wf c → cache_wf (DeleteCluster c cl).
Proof. intros Hwf. by apply map_Forall_delete. Qed.

Lemma GetForService_collect order ns n :
  GetForService order ns n = omap (λ kv, kv.2 !! serviceKey ns n) order.
Proof.
  unfold GetForService.
  enough (∀ acc, foldl (λ result (kv : string * gmap string ServiceEndpoints),
      match kv.2 !! serviceKey ns n with Some ep => result ++ [ep] | None => result end) acc order
      = acc ++ omap (λ kv, kv.2 !! serviceKey ns n) order) as H by apply H.
  induction order as [|[cl m] order IH]; intros acc; csimpl; [by rewrite app_nil_r|].
  rewrite IH. destruct (m !! serviceKey ns n); simpl; [by rewrite <- app_assoc|done].
Qed.

#[export] Hint Resolve Update_wf Delete_wf DeleteCluster_wf : go.

(** ** Properties *)

(** The cache is a faithful implementation of a relation
    cluster x service -> endpoints: [Update], [Delete] and [DeleteCluster]
    change exactly the entries they name, they keep the invariant that no empty
    cluster map is left behind, and [GetForService] returns, whatever the
    iteration order, exactly one entry for every cluster that has the service. *)
Theorem cache_refines_relation (c : RemoteEndpointCache) (Hwf : cache_wf c) :
  (∀ cl e, cache_wf (Update c cl (Some e)) ∧ ∀ cl' k,
     entry (Update c cl (Some e)) cl' k =
       if decide (cl' = cl ∧ k = serviceKey (se_Namespace e) (se_ServiceName e)) then Some e
       else entry c cl' k) ∧
  (∀ cl ns n, cache_wf (Delete c cl ns n) ∧ ∀ cl' k,
     entry (Delete c cl ns n) cl' k =
       if decide (cl' = cl ∧ k = serviceKey ns n) then None else entry c cl' k) ∧
  (∀ cl, cache_wf (DeleteCluster c cl) ∧ ∀ cl' k,
     entry (DeleteCluster c cl) cl' k = if decide (cl' = cl) then None else entry c cl' k) ∧
  (∀ order ns n, range_order (endpoints c) order →
     GetForService order ns n ≡ₚ
       omap (λ cl, entry c cl (serviceKey ns n)) (elements (dom (endpoints c)))).
Proof.
  split_and!.
  - intros. split; [by apply Update_wf|apply entry_Update].
  - intros. split; [by apply Delete_wf|apply entry_Delete].
  - intros. split; [by apply DeleteCluster_wf|apply entry_DeleteCluster].
  - intros order ns n Ho. rewrite GetForService_collect, Ho.
    rewrite (elements_dom (endpoints c)).
    apply reflexive_eq, list_omap_ext, Forall2_fmap_r, Forall_Forall2_diag, Forall_forall.
    intros [cl m] Hin. apply elem_of_map_to_list in Hin. unfold entry; simpl. by rewrite Hin.
Qed.

Lemma cache_refines_relation_witness :
  let e cl := mkServiceEndpoints "web" "shop" cl "eu" "a" ["10.0.0.1:80"] in
  let c := Update (Update NewRemoteEndpointCache "c1" (Some (e "c1"))) "c2" (Some (e "c2")) in
  cache_wf c ∧ entry (Delete c "c1" "shop" "web") "c1" "shop/web" = None ∧
  entry (Delete c "c1" "shop" "web") "c2" "shop/web" = Some (e "c2").
Proof.
  intros e c. assert (cache_wf c) as Hwf by (apply Update_wf, Update_wf, map_Forall_empty).
  destruct (cache_refines_relation c Hwf) as (_ & Hdel & _).
  destruct (Hdel "c1" "shop" "web") as [_ Hent]. split; [done|].
  rewrite !Hent. split; by vm_compute.
Defined.
