(* ===== verification/FedServer.v ===== *)
(** * The federation server
    (src/internal/controller/federation/server.go)

    The state of one controller and its handlers: incoming resource changes
    with their conflict resolution, acknowledgements, heartbeats, the sync
    stream's opening and closing, the outgoing queue, full sync, local changes,
    manual conflict resolution, tombstone cleanup and the federation phase.

    Each handler is one function on the server state: the effect of a call with
    no access of another goroutine in between. The interleaved goroutines are
    modelled in [FedThreads], which relates the two. Readings of the clock and
    fresh identifiers are arguments; logging, metrics and the rate limiter do
    not change the state and are left out; the JSON and protobuf codecs are the
    parameter [Codecs]. A registered callback is a number, and [sv_calls] is the
    log of the callback invocations. *)

From S2P Require Import Prelude VectorClock FedTypes Endpoints.
Open Scope go_scope.

(** ** JSON documents *)

#[warnings="-register-all"]
Inductive Json :=
  | JNull
  | JBool (b : bool)
  | JNum (n : Z)
  | JStr (s : string)
  | JArr (l : list Json)
  | JObj (m : gmap string Json).

Record Codecs := mkCodecs {
  jsonUnmarshal : string → option (gmap string Json);
  jsonMarshal : gmap string Json → option string;
  protoUnmarshalServiceEndpoints : string → option ServiceEndpoints;
}.

(** The value of key [k] after the overlay's [v] has been written: two objects
    are merged recursively, anything else is replaced. *)
Fixpoint merge_value (base overlay : Json) : Json :=
  match overlay, base with
  | JObj om, JObj bm =>
      JObj (map_fold (λ k v result,
        <[k := match result !! k with
               | Some baseVal => merge_value baseVal v
               | None => v
               end]> result) (copy_map bm) om)
  | _, _ => overlay
  end.

Definition mergeMaps (base overlay : gmap string Json) : gmap string Json :=
  map_fold (λ k v result,
    <[k := match result !! k with
           | Some baseVal => merge_value baseVal v
           | None => v
           end]> result) (copy_map base) overlay.

Definition mergeLabelMaps (base overlay : option (gmap string string)) : option (gmap string string) :=
  match base, overlay with
  | None, None => None
  | _, _ => Some (map_fold (λ k v acc, <[k := v]> acc) (copy_map (default ∅ base)) (default ∅ overlay))
  end.

(** ** State

    The outbox of a peer is a Go channel: a number in [sv_peerOutboxes], whose
    queue is in [sv_channels] while the channel is open. A stream keeps the
    channel it was opened with. *)

Inductive FedErr :=
  | ErrInvalidArgument
  | ErrPermissionDenied
  | ErrFailedPrecondition
  | ErrResourceExhausted
  | ErrUnmarshalLocal
  | ErrUnmarshalRemote
  | ErrMarshalMerged
  | ErrConflictNotFound (key : string)
  | ErrNoPeerOutbox (peer : string)
  | ErrStream.

Record Server := mkServer {
  sv_config : Config;
  sv_vectorClock : VectorClock;
  sv_peerStates : gmap string PeerState;
  sv_resources : gmap string TrackedResource;
  sv_tombstones : gmap string Tombstone;
  sv_peerOutboxes : gmap string nat;
  sv_channels : gmap nat (list ChangeEntry);
  sv_nextChannel : nat;
  sv_conflicts : gmap string ConflictInfo;
  sv_stats : SyncStats;
  sv_shutdown : bool;
  sv_activeStreams : gset string;
  sv_fullSyncCooldowns : gmap string Z;
  sv_endpointCache : RemoteEndpointCache;
  sv_changeCallbacks : list nat;
  sv_agentCount : Z;
  sv_calls : list (nat * ResourceKey * ChangeType * string);
}.

Definition Server_eta (s : Server) : Server :=
  mkServer (sv_config s) (sv_vectorClock s) (sv_peerStates s) (sv_resources s) (sv_tombstones s)
    (sv_peerOutboxes s) (sv_channels s) (sv_nextChannel s) (sv_conflicts s) (sv_stats s) (sv_shutdown s) (sv_activeStreams s)
    (sv_fullSyncCooldowns s) (sv_endpointCache s) (sv_changeCallbacks s) (sv_agentCount s) (sv_calls s).

Definition set_vectorClock : VectorClock → Server → Server := ltac:(field_setter Server_eta sv_vectorClock).
Definition set_peerStates : gmap string PeerState → Server → Server := ltac:(field_setter Server_eta sv_peerStates).
Definition set_resources : gmap string TrackedResource → Server → Server := ltac:(field_setter Server_eta sv_resources).
Definition set_tombstones : gmap string Tombstone → Server → Server := ltac:(field_setter Server_eta sv_tombstones).
Definition set_peerOutboxes : gmap string nat → Server → Server := ltac:(field_setter Server_eta sv_peerOutboxes).
Definition set_channels : gmap nat (list ChangeEntry) → Server → Server := ltac:(field_setter Server_eta sv_channels).
Definition set_nextChannel : nat → Server → Server := ltac:(field_setter Server_eta sv_nextChannel).
Definition set_conflicts : gmap string ConflictInfo → Server → Server := ltac:(field_setter Server_eta sv_conflicts).
Definition set_stats : SyncStats → Server → Server := ltac:(field_setter Server_eta sv_stats).
Definition set_shutdown : bool → Server → Server := ltac:(field_setter Server_eta sv_shutdown).
Definition set_activeStreams : gset string → Server → Server := ltac:(field_setter Server_eta sv_activeStreams).
Definition set_cooldowns : gmap string Z → Server → Server := ltac:(field_setter Server_eta sv_fullSyncCooldowns).
Definition set_endpointCache : RemoteEndpointCache → Server → Server := ltac:(field_setter Server_eta sv_endpointCache).
Definition set_callbacks : list nat → Server → Server := ltac:(field_setter Server_eta sv_changeCallbacks).
Definition set_agentCount : Z → Server → Server := ltac:(field_setter Server_eta sv_agentCount).
Definition set_calls : list (nat * ResourceKey * ChangeType * string) → Server → Server := ltac:(field_setter Server_eta sv_calls).
Definition set_config : Config → Server → Server := ltac:(field_setter Server_eta sv_config).

Definition SyncStats_eta (s : SyncStats) : SyncStats :=
  mkSyncStats (st_TotalChangesReceived s) (st_TotalChangesSent s) (st_LastSyncDuration s)
    (st_ConflictsDetected s) (st_ConflictsResolved s) (st_PendingChanges s) (st_FullSyncs s)
    (st_IncrementalSyncs s).

Definition set_st_received : Z → SyncStats → SyncStats := ltac:(field_setter SyncStats_eta st_TotalChangesReceived).
Definition set_st_sent : Z → SyncStats → SyncStats := ltac:(field_setter SyncStats_eta st_TotalChangesSent).
Definition set_st_detected : Z → SyncStats → SyncStats := ltac:(field_setter SyncStats_eta st_ConflictsDetected).
Definition set_st_resolved : Z → SyncStats → SyncStats := ltac:(field_setter SyncStats_eta st_ConflictsResolved).
Definition set_st_fullsyncs : Z → SyncStats → SyncStats := ltac:(field_setter SyncStats_eta st_FullSyncs).

(** The counters are int64 and wrap. *)
Definition count_received (s : Server) : Server :=
  set_stats (set_st_received (wrap64 (st_TotalChangesReceived (sv_stats s) + 1)) (sv_stats s)) s.
Definition count_sent (s : Server) : Server :=
  set_stats (set_st_sent (wrap64 (st_TotalChangesSent (sv_stats s) + 1)) (sv_stats s)) s.
Definition count_detected (s : Server) : Server :=
  set_stats (set_st_detected (wrap64 (st_ConflictsDetected (sv_stats s) + 1)) (sv_stats s)) s.
Definition count_resolved (s : Server) : Server :=
  set_stats (set_st_resolved (wrap64 (st_ConflictsResolved (sv_stats s) + 1)) (sv_stats s)) s.
Definition count_fullsync (s : Server) : Server :=
  set_stats (set_st_fullsyncs (wrap64 (st_FullSyncs (sv_stats s) + 1)) (sv_stats s)) s.

Definition ProtocolVersion : Z := 1.
Definition fullSyncCooldown : Z := 30 * Second.
Definition outboxCapacity : nat := 1000.

(** [NewServer]; a nil configuration is replaced by the default one. *)
Definition NewServer (config : option Config) : Server :=
  let config := default DefaultConfig config in
  let vc := match cf_LocalMember config with
            | Some m => (Increment NewVectorClock (pi_Name m)).1
            | None => NewVectorClock
            end in
  mkServer config vc ∅ ∅ ∅ ∅ ∅ 0 ∅ SyncStats_zero false ∅ ∅ NewRemoteEndpointCache [] 0 [].

(** [Stop] closes the shutdown channel, which panics when done twice, and
    cancels the active streams. *)
Definition Stop (s : Server) : outcome Server :=
  if sv_shutdown s then Panics else Returns (set_shutdown true s).

(** ** Peer states *)

Definition PeerState_eta (p : PeerState) : PeerState :=
  mkPeerState (ps_Info p) (ps_VectorClock p) (ps_LastSeen p) (ps_LastSyncTime p) (ps_Healthy p)
    (ps_Connected p) (ps_AgentCount p) (ps_SyncLag p) (ps_LastError p) (ps_ConsecutiveFailures p).

Definition set_ps_VectorClock : option VectorClock → PeerState → PeerState := ltac:(field_setter PeerState_eta ps_VectorClock).
Definition set_ps_LastSeen : Z → PeerState → PeerState := ltac:(field_setter PeerState_eta ps_LastSeen).
Definition set_ps_LastSyncTime : Z → PeerState → PeerState := ltac:(field_setter PeerState_eta ps_LastSyncTime).
Definition set_ps_Healthy : bool → PeerState → PeerState := ltac:(field_setter PeerState_eta ps_Healthy).
Definition set_ps_Connected : bool → PeerState → PeerState := ltac:(field_setter PeerState_eta ps_Connected).
Definition set_ps_AgentCount : Z → PeerState → PeerState := ltac:(field_setter PeerState_eta ps_AgentCount).

Definition updatePeerState (peerName : string) (updateFn : PeerState → PeerState) (s : Server) : Server :=
  let state := default PeerState_zero (sv_peerStates s !! peerName) in
  set_peerStates (<[peerName := updateFn state]> (sv_peerStates s)) s.

Definition handleSyncAck (peerName : string) (ack : SyncAck) (now : Z) (s : Server) : Server :=
  updatePeerState peerName (λ st,
    set_ps_LastSyncTime now
      (set_ps_VectorClock (Some (NewVectorClockFromMap (ack_VectorClock ack))) st)) s.

Definition handleHeartbeat (peerName : string) (hb : Heartbeat) (now : Z) (s : Server) : Server :=
  updatePeerState peerName (λ st,
    set_ps_AgentCount (hb_AgentCount hb)
      (set_ps_Healthy true
        (set_ps_LastSeen now
          (set_ps_VectorClock (Some (NewVectorClockFromMap (hb_VectorClock hb))) st)))) s.

(** A conflict notification is only logged. *)
Definition handleConflictNotification (peerName : string) (n : ConflictNotification) (s : Server) : Server := s.

(** ** Change callbacks *)

Definition OnChange (callback : nat) (s : Server) : Server :=
  set_callbacks (sv_changeCallbacks s ++ [callback]) s.

Definition notifyChange (key : ResourceKey) (change : ChangeType) (data : string) (s : Server) : Server :=
  set_calls (sv_calls s ++ ((λ cb, (cb, key, change, data)) <$> sv_changeCallbacks s)) s.

Definition SetAgentCount (count : Z) (s : Server) : Server := set_agentCount count s.
Definition GetStats (s : Server) : SyncStats := sv_stats s.

(** ** Remote endpoints *)

Definition applyServiceEndpoints (cd : Codecs) (data peerName : string) (s : Server) : Server :=
  match protoUnmarshalServiceEndpoints cd data with
  | None => s
  | Some eps =>
      let cluster := if str_empty (se_ClusterName eps) then peerName else se_ClusterName eps in
      set_endpointCache (Endpoints.Update (sv_endpointCache s) cluster (Some eps)) s
  end.

Definition deleteServiceEndpoints (namespace name peerName : string) (s : Server) : Server :=
  set_endpointCache (Endpoints.Delete (sv_endpointCache s) peerName namespace name) s.

(** ** Incoming changes *)

Definition change_key (change : ResourceChange) : ResourceKey :=
  mkResourceKey (rc_ResourceType change) (rc_Namespace change) (rc_Name change).

(** The tracked version a change carries. *)
Definition change_resource (key : ResourceKey) (change : ResourceChange) : TrackedResource :=
  {| tr_Key := key;
     tr_ResourceVersion := rc_ResourceVersion change;
     tr_Hash := rc_ResourceHash change;
     tr_Data := rc_ResourceData change;
     tr_VectorClock := rc_VectorClock change;
     tr_OriginMember := rc_OriginMember change;
     tr_LastModified := rc_Timestamp change;
     tr_Labels := rc_Labels change |}.

Definition mergeResources (cd : Codecs) (cfg : Config) (local remote : TrackedResource) (now : Z)
    : outcome (TrackedResource + FedErr) :=
  match jsonUnmarshal cd (tr_Data local) with
  | None => Returns (inr ErrUnmarshalLocal)
  | Some localData =>
      match jsonUnmarshal cd (tr_Data remote) with
      | None => Returns (inr ErrUnmarshalRemote)
      | Some remoteData =>
          let merged := mergeMaps localData remoteData in
          match jsonMarshal cd merged with
          | None => Returns (inr ErrMarshalMerged)
          | Some mergedData =>
              let mergedVC := NewVectorClockFromMap (tr_VectorClock local) in
              let mergedVC := MergeMap mergedVC (tr_VectorClock remote) in
              let! localMember := deref (cf_LocalMember cfg) in
              let mergedVC := (Increment mergedVC (pi_Name localMember)).1 in
              Returns (inl
                {| tr_Key := tr_Key local;
                   tr_ResourceVersion := "";
                   tr_Hash := "";
                   tr_Data := mergedData;
                   tr_VectorClock := ToMap mergedVC;
                   tr_OriginMember := pi_Name localMember;
                   tr_LastModified := now;
                   tr_Labels := mergeLabelMaps (tr_Labels local) (tr_Labels remote) |})
          end
      end
  end.

(** [handleConflict]; [now] is the detection time, [now'] the time of the merge. *)
Definition handleConflict (cd : Codecs) (key : ResourceKey) (local : TrackedResource)
    (remote : ResourceChange) (now now' : Z) (s : Server) : outcome (Server * option FedErr) :=
  let keyStr := ResourceKey_String key in
  let s := count_detected s in
  let remoteResource := change_resource key remote in
  let conflict res manual := mkConflictInfo key local remoteResource now res manual in
  let strategy := cf_ConflictResolutionStrategy (sv_config s) in
  if str_eqb strategy StrategyLastWriterWins then
    let s :=
      if time_After (tr_LastModified remoteResource) (tr_LastModified local) then
        notifyChange key ChangeTypeUpdated (tr_Data remoteResource)
          (set_resources (<[keyStr := remoteResource]> (sv_resources s)) s)
      else s in
    Returns (count_resolved s, None)
  else if str_eqb strategy "Merge" then
    let! merged := mergeResources cd (sv_config s) local remoteResource now' in
    match merged with
    | inr err =>
        Returns (set_conflicts
          (<[keyStr := conflict ConflictResolutionPendingManual true]> (sv_conflicts s)) s, Some err)
    | inl merged =>
        let s := set_resources (<[keyStr := merged]> (sv_resources s)) s in
        let s := count_resolved s in
        Returns (notifyChange key ChangeTypeUpdated (tr_Data merged) s, None)
    end
  else if str_eqb strategy "Manual" then
    Returns (set_conflicts
      (<[keyStr := conflict ConflictResolutionPendingManual true]> (sv_conflicts s)) s, None)
  else Returns (s, None).

(** The change is applied: the [switch] of [handleResourceChange] and what
    follows it. *)
Definition applyChange (cd : Codecs) (peerName : string) (change : ResourceChange) (s : Server) : Server :=
  let key := change_key change in
  let keyStr := ResourceKey_String key in
  match rc_ChangeType change with
  | CHANGE_TYPE_UNSPECIFIED => s
  | CREATED | UPDATED =>
      let s := set_resources (<[keyStr := change_resource key change]> (sv_resources s)) s in
      let s := set_tombstones (delete keyStr (sv_tombstones s)) s in
      let s := if str_eqb (rc_ResourceType change) "ServiceEndpoints"
               then applyServiceEndpoints cd (rc_ResourceData change) peerName s else s in
      let localChangeType := match rc_ChangeType change with
                             | CREATED => ChangeTypeCreated | _ => ChangeTypeUpdated end in
      count_received (notifyChange key localChangeType (rc_ResourceData change) s)
  | DELETED =>
      let s := set_resources (delete keyStr (sv_resources s)) s in
      let tombstone := mkTombstone key (rc_Timestamp change) (rc_VectorClock change) (rc_OriginMember change) in
      let s := set_tombstones (<[keyStr := tombstone]> (sv_tombstones s)) s in
      let s := if str_eqb (rc_ResourceType change) "ServiceEndpoints"
               then deleteServiceEndpoints (rc_Namespace change) (rc_Name change) peerName s else s in
      count_received (notifyChange key ChangeTypeDeleted "" s)
  | CHANGE_TYPE_UNKNOWN _ => count_received s
  end.

Definition handleResourceChange (cd : Codecs) (peerName : string) (change : ResourceChange)
    (now now' : Z) (s : Server) : outcome (Server * option FedErr) :=
  let key := change_key change in
  let keyStr := ResourceKey_String key in
  let s := set_vectorClock (MergeMap (sv_vectorClock s) (rc_VectorClock change)) s in
  match sv_resources s !! keyStr with
  | Some existingRes =>
      let existingVC := NewVectorClockFromMap (tr_VectorClock existingRes) in
      let incomingVC := NewVectorClockFromMap (rc_VectorClock change) in
      if Concurrent existingVC (Some incomingVC) then
        handleConflict cd key existingRes change now now' s
      else if HappenedBefore incomingVC (Some existingVC) then Returns (s, None)
      else Returns (applyChange cd peerName change s, None)
  | None => Returns (applyChange cd peerName change s, None)
  end.

(** One round of [handleIncomingMessages] after a message has been received:
    a failed change is logged and the loop goes on. *)
Definition handleIncomingMessage (cd : Codecs) (peerName : string) (msg : SyncMessage)
    (now now' now'' : Z) (s : Server) : outcome Server :=
  let s := updatePeerState peerName (set_ps_LastSeen now) s in
  match msg with
  | MsgChange c => let! r := handleResourceChange cd peerName c now' now'' s in Returns (fst r)
  | MsgAck a => Returns (handleSyncAck peerName a now' s)
  | MsgHeartbeat h => Returns (handleHeartbeat peerName h now' s)
  | MsgConflict n => Returns (handleConflictNotification peerName n s)
  | MsgHandshake _ | MsgNone => Returns s
  end.

(** ** Sync stream *)

Definition local_handshake (cfg : Config) (member : PeerInfo) (vc : VectorClock) : SyncHandshake :=
  mkSyncHandshake (cf_FederationID cfg) (pi_Name member) (pi_Region member) (pi_Zone member)
    (ToMap vc) ProtocolVersion (cf_CompressionEnabled cfg).

(** The opening of [SyncStream]: [first] is the first message ([None] when the
    receive fails) and [send_ok] whether the handshake response can be sent.
    The result names the peer, the channel of its outbox and the response. *)
Definition SyncStream_open (first : option SyncMessage) (send_ok : bool) (now : Z) (s : Server)
    : outcome (Server * (FedErr + string * nat * SyncHandshake)) :=
  match first with
  | Some (MsgHandshake h) =>
      let cfg := sv_config s in
      if negb (str_eqb (hs_FederationId h) (cf_FederationID cfg)) then
        Returns (s, inl ErrPermissionDenied)
      else if decide (hs_ProtocolVersion h ≠ ProtocolVersion) then
        Returns (s, inl ErrFailedPrecondition)
      else
        let peerName := hs_MemberName h in
        let s := updatePeerState peerName (λ st,
          set_ps_VectorClock (Some (NewVectorClockFromMap (hs_VectorClock h)))
            (set_ps_LastSeen now (set_ps_Healthy true (set_ps_Connected true st)))) s in
        let! member := deref (cf_LocalMember cfg) in
        let response := local_handshake cfg member (sv_vectorClock s) in
        if send_ok then
          let peerCh := sv_nextChannel s in
          let s := set_nextChannel (S peerCh) (set_channels (<[peerCh := []]> (sv_channels s)) s) in
          let s := set_peerOutboxes (<[peerName := peerCh]> (sv_peerOutboxes s)) s in
          let s := set_activeStreams ({[peerName]} ∪ sv_activeStreams s) s in
          Returns (s, inr (peerName, peerCh, response))
        else Returns (updatePeerState peerName (set_ps_Connected false) s, inl ErrStream)
  | Some _ | None => Returns (s, inl ErrInvalidArgument)
  end.

(** The deferred actions of [SyncStream], run when the stream ends; [peerCh] is
    the channel the stream was opened with. *)
Definition SyncStream_close (peerName : string) (peerCh : nat) (s : Server) : Server :=
  let s := set_activeStreams (sv_activeStreams s ∖ {[peerName]}) s in
  let s := set_peerOutboxes (delete peerName (sv_peerOutboxes s)) s in
  let s := set_channels (delete peerCh (sv_channels s)) s in
  updatePeerState peerName (set_ps_Connected false) s.

(** ** Outgoing changes *)

Definition changeEntryToProto (entry : ChangeEntry) : ResourceChange :=
  let res := ce_Resource entry in
  {| rc_ChangeId := ce_ID entry;
     rc_VectorClock := ce_VectorClock entry;
     rc_ChangeType := match ce_Type entry with
                      | ChangeTypeCreated => CREATED
                      | ChangeTypeUpdated => UPDATED
                      | ChangeTypeDeleted => DELETED
                      end;
     rc_ResourceType := rk_Kind (ce_Key entry);
     rc_Namespace := rk_Namespace (ce_Key entry);
     rc_Name := rk_Name (ce_Key entry);
     rc_ResourceVersion := from_option tr_ResourceVersion "" res;
     rc_ResourceData := from_option tr_Data "" res;
     rc_ResourceHash := from_option tr_Hash "" res;
     rc_Timestamp := UnixNano (ce_Timestamp entry);
     rc_OriginMember := match ce_Tombstone entry with
                        | Some t => tb_OriginMember t
                        | None => from_option tr_OriginMember "" res
                        end;
     rc_Labels := res ≫= tr_Labels |}.

(** A change is not sent back to the member it came from. *)
Definition originated_at (peerName : string) (change : ChangeEntry) : bool :=
  match ce_Resource change with
  | Some r => str_eqb (tr_OriginMember r) peerName
  | None => false
  end ||
  match ce_Tombstone change with
  | Some t => str_eqb (tb_OriginMember t) peerName
  | None => false
  end.

(** The start of [handleOutgoingMessages]: the channel the loop reads from. *)
Definition handleOutgoing_start (peerName : string) (s : Server) : FedErr + nat :=
  match sv_peerOutboxes s !! peerName with
  | None => inl (ErrNoPeerOutbox peerName)
  | Some peerCh => inr peerCh
  end.

(** What an iteration of the loop of [handleOutgoingMessages] does. *)
Inductive outgoing :=
  | OutIdle
  | OutSent (change : ResourceChange)
  | OutSkipped
  | OutClosed
  | OutFailed (e : FedErr).

(** The change case: take the next entry of the channel and send it, unless it
    came from the peer; a closed channel ends the loop. *)
Definition handleOutgoingChange (peerName : string) (peerCh : nat) (send_ok : bool) (s : Server)
    : Server * outgoing :=
  match sv_channels s !! peerCh with
  | None => (s, OutClosed)
  | Some [] => (s, OutIdle)
  | Some (change :: rest) =>
      let s := set_channels (<[peerCh := rest]> (sv_channels s)) s in
      if originated_at peerName change then (s, OutSkipped)
      else if send_ok then (count_sent s, OutSent (changeEntryToProto change))
      else (s, OutFailed ErrStream)
  end.

(** The heartbeat case of the loop. *)
Definition outgoingHeartbeat (peerCh : nat) (now : Z) (s : Server) : Heartbeat :=
  mkHeartbeat (ToMap (sv_vectorClock s)) (UnixNano now)
    (SafeIntToInt32 (Z.of_nat (length (default [] (sv_channels s !! peerCh))))) (sv_agentCount s).

(** Fan-out of one entry: a full outbox drops the new entry. *)
Definition enqueue (entry : ChangeEntry) (q : list ChangeEntry) : list ChangeEntry :=
  if decide (length q < outboxCapacity)%nat then q ++ [entry] else q.

(** The fan-out loop over the registered outboxes. *)
Definition fan_out (entry : ChangeEntry) (s : Server) : Server :=
  set_channels (map_fold (λ _ peerCh chans, alter (enqueue entry) peerCh chans)
    (sv_channels s) (sv_peerOutboxes s)) s.

(** [RecordLocalChange]; [uuid] is the fresh change id, [now] the timestamp of
    the entry and [now'] the later reading stored in the resource or tombstone. *)
Definition RecordLocalChange (key : ResourceKey) (changeType : ChangeType) (data : string)
    (labels : option (gmap string string)) (uuid : string) (now now' : Z) (s : Server)
    : outcome Server :=
  let! member := deref (cf_LocalMember (sv_config s)) in
  let s := set_vectorClock (Increment (sv_vectorClock s) (pi_Name member)).1 s in
  let clock := ToMap (sv_vectorClock s) in
  let keyStr := ResourceKey_String key in
  let '(s, res, tomb) :=
    if decide (changeType = ChangeTypeDeleted) then
      let t := mkTombstone key now' clock (pi_Name member) in
      let s := set_tombstones (<[keyStr := t]> (sv_tombstones s)) s in
      (set_resources (delete keyStr (sv_resources s)) s, None, Some t)
    else
      let r := mkTrackedResource key "" "" data clock (pi_Name member) now' labels in
      let s := set_resources (<[keyStr := r]> (sv_resources s)) s in
      (set_tombstones (delete keyStr (sv_tombstones s)) s, Some r, None) in
  let entry := mkChangeEntry uuid key changeType res tomb clock now ∅ in
  Returns (fan_out entry s).

(** ** Queries and maintenance *)

Definition GetPeerStates (s : Server) : gmap string PeerState := copy_map (sv_peerStates s).

Definition GetConflicts (order : list (string * ConflictInfo)) : list ConflictInfo := snd <$> order.

Definition ResolveConflict (keyStr : string) (useLocal : bool) (s : Server) : Server * option FedErr :=
  match sv_conflicts s !! keyStr with
  | None => (s, Some (ErrConflictNotFound keyStr))
  | Some conflict =>
      let s :=
        if useLocal then s
        else
          notifyChange (ci_Key conflict) ChangeTypeUpdated (tr_Data (ci_RemoteVersion conflict))
            (set_resources (<[keyStr := ci_RemoteVersion conflict]> (sv_resources s)) s) in
      let s := set_conflicts (delete keyStr (sv_conflicts s)) s in
      (count_resolved s, None)
  end.

Definition count_states (f : PeerState → bool) (s : Server) : nat :=
  length (filter (λ kv, f kv.2 = true) (map_to_list (sv_peerStates s))).

Definition getPhase (s : Server) : Phase :=
  let healthyCount := count_states ps_Healthy s in
  let connectedCount := count_states ps_Connected s in
  let totalPeers := length (cf_Peers (sv_config s)) in
  if decide (totalPeers = 0%nat) then PhaseHealthy
  else if decide (connectedCount = 0%nat) then PhasePartitioned
  else if decide (healthyCount = totalPeers) then PhaseHealthy
  else PhaseDegraded.

(** One tick of [cleanupTombstones]. *)
Definition cleanupTombstones (now : Z) (s : Server) : Server :=
  set_tombstones
    (filter (λ kv, ¬ time_Sub now (tb_DeletionTime kv.2) > cf_TombstoneTTL (sv_config s))
       (sv_tombstones s)) s.

Definition GetState (federationId : string) (s : Server) : outcome (FedErr + GetStateResponse) :=
  if negb (str_eqb federationId (cf_FederationID (sv_config s))) then Returns (inl ErrPermissionDenied)
  else
    let resourceCounts : gmap string Z :=
      map_fold (λ _ r acc, <[rk_Kind (tr_Key r) := wrap32 (map_get 0 acc (rk_Kind (tr_Key r)) + 1)]> acc)
        ∅ (sv_resources s) in
    let lastSyncTimes : gmap string Z :=
      map_fold (λ k st acc,
        if decide (ps_LastSyncTime st = time_zero) then acc
        else <[k := UnixNano (ps_LastSyncTime st)]> acc) ∅ (sv_peerStates s) in
    let! member := deref (cf_LocalMember (sv_config s)) in
    Returns (inr (mkGetStateResponse (pi_Name member) (pi_Region member) (pi_Zone member)
      (ToMap (sv_vectorClock s)) lastSyncTimes resourceCounts true (getPhase s) (sv_agentCount s)
      (wrap32 (Z.of_nat (size (sv_conflicts s)))))).

Definition Ping (federationId : string) (now : Z) (s : Server) : outcome (FedErr + PingResponse) :=
  if negb (str_eqb federationId (cf_FederationID (sv_config s))) then Returns (inl ErrPermissionDenied)
  else
    let! member := deref (cf_LocalMember (sv_config s)) in
    Returns (inr (mkPingResponse (pi_Name member) (UnixNano now) true)).

(** ** Full sync *)

Definition resourceMatchesFilter (res : TrackedResource) (resourceTypes namespaces : list string) : bool :=
  if bool_decide (0 < length resourceTypes)%nat && negb (contains resourceTypes (rk_Kind (tr_Key res))) then false
  else if bool_decide (0 < length namespaces)%nat && negb (contains namespaces (rk_Namespace (tr_Key res))) then false
  else true.

(** The change that carries a tracked resource in a full sync. *)
Definition resource_change (uuid : string) (res : TrackedResource) : ResourceChange :=
  {| rc_ChangeId := uuid;
     rc_VectorClock := tr_VectorClock res;
     rc_ChangeType := UPDATED;
     rc_ResourceType := rk_Kind (tr_Key res);
     rc_Namespace := rk_Namespace (tr_Key res);
     rc_Name := rk_Name (tr_Key res);
     rc_ResourceVersion := tr_ResourceVersion res;
     rc_ResourceData := tr_Data res;
     rc_ResourceHash := tr_Hash res;
     rc_Timestamp := UnixNano (tr_LastModified res);
     rc_OriginMember := tr_OriginMember res;
     rc_Labels := tr_Labels res |}.

Definition fullsync_selects (req : FullSyncRequest) (res : TrackedResource) : bool :=
  let requesterVC := NewVectorClockFromMap (fr_VectorClock req) in
  if negb (resourceMatchesFilter res (fr_ResourceTypes req) (fr_Namespaces req)) then false
  else
    let resVC := NewVectorClockFromMap (tr_VectorClock res) in
    if negb (HappenedAfter resVC (Some requesterVC)) && negb (Concurrent resVC (Some requesterVC))
    then false else true.

(** [order] is the visiting order of the resources, [uuid] the fresh change ids. *)
Definition collectFullSyncResources (uuid : nat → string) (order : list (string * TrackedResource))
    (req : FullSyncRequest) : list ResourceChange :=
  foldl (λ resources kv,
    if fullsync_selects req kv.2
    then resources ++ [resource_change (uuid (length resources)) kv.2]
    else resources) [] order.

(** How a batch loop ends. *)
Inductive sendResult :=
  | SendDone
  | SendFailed (err : FedErr)
  | SendSlicePanic
  | SendOutOfFuel.

(** The loop of [sendFullSyncBatches]: [i] is the offset, [batchNum] the number
    of the batch, [send] answers whether sending batch [n] succeeds. The result
    lists the batches handed to the stream. *)
Fixpoint send_loop (fuel : nat) (send : nat → bool) (vc : gmap string Z) (batchSize : Z)
    (resources : list ResourceChange) (i : Z) (batchNum : nat) : list ResourceBatch * sendResult :=
  match fuel with
  | O => ([], SendOutOfFuel)
  | S fuel =>
      let total := Z.of_nat (length resources) in
      if decide (i < total) then
        let end_ := if decide (i + batchSize > total) then total else i + batchSize in
        if decide (end_ < i) then ([], SendSlicePanic)
        else
          let batch :=
            {| rb_BatchNumber := SafeIntToInt32 (Z.of_nat batchNum);
               rb_IsLast := bool_decide (end_ = total);
               rb_Resources := take (Z.to_nat (end_ - i)) (drop (Z.to_nat i) resources);
               rb_TotalResources := SafeIntToInt32 total;
               rb_VectorClock := vc |} in
          if send batchNum then
            let '(rest, r) := send_loop fuel send vc batchSize resources (i + batchSize) (S batchNum) in
            (batch :: rest, r)
          else ([batch], SendFailed ErrStream)
      else ([], SendDone)
  end.

Definition sendFullSyncBatches (send : nat → bool) (resources : list ResourceChange) (s : Server)
    : list ResourceBatch * sendResult :=
  let vc := ToMap (sv_vectorClock s) in
  if decide (length resources = 0%nat) then
    ([mkResourceBatch 0 true [] 0 vc], if send 0%nat then SendDone else SendFailed ErrStream)
  else
    let batchSize := cf_BatchSize (sv_config s) in
    let batchSize := if decide (batchSize = 0) then Z.of_nat (length resources) else batchSize in
    send_loop (S (length resources)) send vc batchSize resources 0 0.

Definition checkFullSyncCooldown (peerName : string) (now : Z) (s : Server) : Server * option FedErr :=
  let ok := (set_cooldowns (<[peerName := now]> (sv_fullSyncCooldowns s)) s, None) in
  match sv_fullSyncCooldowns s !! peerName with
  | Some lastTime =>
      if decide (time_Sub now lastTime < fullSyncCooldown) then (s, Some ErrResourceExhausted) else ok
  | None => ok
  end.

Definition RequestFullSync (uuid : nat → string) (order : list (string * TrackedResource))
    (send : nat → bool) (req : FullSyncRequest) (now : Z) (s : Server)
    : Server * list ResourceBatch * sendResult :=
  if negb (str_eqb (fr_FederationId req) (cf_FederationID (sv_config s))) then
    (s, [], SendFailed ErrPermissionDenied)
  else
    match checkFullSyncCooldown (fr_RequesterMember req) now s with
    | (s, Some err) => (s, [], SendFailed err)
    | (s, None) =>
        let resources := collectFullSyncResources uuid order req in
        match sendFullSyncBatches send resources s with
        | (batches, SendDone) => (count_fullsync s, batches, SendDone)
        | (batches, r) => (s, batches, r)
        end
    end.
