(* ===== verification/FedReplica.v ===== *)
(** * The federation server as a replica: properties of FedServer

    - what last-writer-wins keeps when a write meets the tracked version;
    - what a change does when it is causally older, newer or concurrent;
    - where deliveries in different orders leave replicas different.

    These are properties of undisturbed calls; convergence and the invariants
    under interleaving goroutines are in [FedThreads], the full sync in
    [FedFullSync]. *)

From stdpp Require Import relations.
From S2P Require Import Prelude VectorClock FedTypes Endpoints FedServer.
Open Scope Z_scope.
Open Scope go_scope.

(** ** Deliveries *)

(** A delivery: the peer, the change, the two clock readings of the handler. *)
Definition delivery : Type := string * ResourceChange * Z * Z.

Definition delivered (d : delivery) : ResourceChange := d.1.1.2.

Definition deliver (cd : Codecs) (s : Server) (d : delivery) : outcome Server :=
  let '(peer, c, now, now') := d in
  let! r := handleResourceChange cd peer c now now' s in Returns (fst r).

Definition deliver_all (cd : Codecs) (ds : list delivery) (s : Server) : outcome Server :=
  foldl (λ acc d, let! s := acc in deliver cd s d) (Returns s) ds.

Definition change_version (c : ResourceChange) : TrackedResource := change_resource (change_key c) c.
Definition change_keyStr (c : ResourceChange) : string := ResourceKey_String (change_key c).
Definition change_clock (c : ResourceChange) : VectorClock := mkVectorClock (rc_VectorClock c).
Definition version_clock (r : TrackedResource) : VectorClock := mkVectorClock (tr_VectorClock r).

Definition is_write (c : ResourceChange) : Prop :=
  rc_ChangeType c = CREATED ∨ rc_ChangeType c = UPDATED.

Definition lww (s : Server) : Prop :=
  cf_ConflictResolutionStrategy (sv_config s) = StrategyLastWriterWins.

(** What last-writer-wins keeps when [c] meets the version [old]. *)
Definition lww_pick (old : option TrackedResource) (c : ResourceChange) : TrackedResource :=
  match old with
  | None => change_version c
  | Some e =>
      if Concurrent (version_clock e) (Some (change_clock c)) then
        if time_After (rc_Timestamp c) (tr_LastModified e) then change_version c else e
      else if HappenedBefore (change_clock c) (Some (version_clock e)) then e
      else change_version c
  end.

(** Writes of one resource whose timestamps respect causality and tell the
    writes apart. *)
Definition consistent_writes (ks : string) (cs : list ResourceChange) : Prop :=
  (∀ c, c ∈ cs → is_write c ∧ change_keyStr c = ks) ∧
  (∀ c d, c ∈ cs → d ∈ cs → vc_lt (change_clock c) (change_clock d) → rc_Timestamp c < rc_Timestamp d) ∧
  (∀ c d, c ∈ cs → d ∈ cs → rc_Timestamp c = rc_Timestamp d → change_version c = change_version d).

(** ** Effect of one change *)

Lemma applyChange_config cd peer c s : sv_config (applyChange cd peer c s) = sv_config s.
Proof.
  unfold applyChange, applyServiceEndpoints. destruct (rc_ChangeType c); try done;
    destruct (str_eqb _ _); try done; by destruct (protoUnmarshalServiceEndpoints _ _).
Qed.

Lemma applyChange_vectorClock cd peer c s :
  sv_vectorClock (applyChange cd peer c s) = sv_vectorClock s.
Proof.
  unfold applyChange, applyServiceEndpoints. destruct (rc_ChangeType c); try done;
    destruct (str_eqb _ _); try done; by destruct (protoUnmarshalServiceEndpoints _ _).
Qed.

Lemma applyChange_resources cd peer c s :
  sv_resources (applyChange cd peer c s) =
    match rc_ChangeType c with
    | CREATED | UPDATED => <[change_keyStr c := change_version c]> (sv_resources s)
    | DELETED => delete (change_keyStr c) (sv_resources s)
    | _ => sv_resources s
    end.
Proof.
  unfold applyChange, applyServiceEndpoints. destruct (rc_ChangeType c); try done;
    destruct (str_eqb _ _); try done; by destruct (protoUnmarshalServiceEndpoints _ _).
Qed.

Lemma applyChange_tombstones cd peer c s :
  sv_tombstones (applyChange cd peer c s) =
    match rc_ChangeType c with
    | CREATED | UPDATED => delete (change_keyStr c) (sv_tombstones s)
    | DELETED => <[change_keyStr c :=
        mkTombstone (change_key c) (rc_Timestamp c) (rc_VectorClock c) (rc_OriginMember c)]> (sv_tombstones s)
    | _ => sv_tombstones s
    end.
Proof.
  unfold applyChange, applyServiceEndpoints. destruct (rc_ChangeType c); try done;
    destruct (str_eqb _ _); try done; by destruct (protoUnmarshalServiceEndpoints _ _).
Qed.

Lemma applyChange_rest cd peer c s :
  let s' := applyChange cd peer c s in
  sv_conflicts s' = sv_conflicts s ∧ sv_channels s' = sv_channels s ∧
  st_ConflictsDetected (sv_stats s') = st_ConflictsDetected (sv_stats s) ∧
  st_ConflictsResolved (sv_stats s') = st_ConflictsResolved (sv_stats s).
Proof.
  unfold applyChange, applyServiceEndpoints. destruct (rc_ChangeType c); try done;
    destruct (str_eqb _ _); try done; by destruct (protoUnmarshalServiceEndpoints _ _).
Qed.

(** The handler with the copies of the clock maps resolved. *)
Lemma handleResourceChange_unfold cd peer c now now' s :
  handleResourceChange cd peer c now now' s =
    let s1 := set_vectorClock (MergeMap (sv_vectorClock s) (rc_VectorClock c)) s in
    match sv_resources s !! change_keyStr c with
    | Some e =>
        if Concurrent (version_clock e) (Some (change_clock c)) then
          handleConflict cd (change_key c) e c now now' s1
        else if HappenedBefore (change_clock c) (Some (version_clock e)) then Returns (s1, None)
        else Returns (applyChange cd peer c s1, None)
    | None => Returns (applyChange cd peer c s1, None)
    end.
Proof.
  unfold handleResourceChange. simpl. unfold change_keyStr.
  destruct (sv_resources s !! _) as [e|]; [|done]. by rewrite !NewVectorClockFromMap_id.
Qed.

Lemma handleResourceChange_lww cd peer c now now' s :
  lww s → is_write c →
  ∃ s', handleResourceChange cd peer c now now' s = Returns (s', None) ∧
    sv_config s' = sv_config s ∧
    sv_resources s' =
      <[change_keyStr c := lww_pick (sv_resources s !! change_keyStr c) c]> (sv_resources s).
Proof.
  intros Hlww Hw. rewrite handleResourceChange_unfold. simpl.
  assert (∀ s1, sv_resources s1 = sv_resources s → sv_resources (applyChange cd peer c s1) =
    <[change_keyStr c := change_version c]> (sv_resources s)) as Happly.
  { intros s1 Hs1. rewrite applyChange_resources, Hs1. by destruct Hw as [-> | ->]. }
  destruct (sv_resources s !! change_keyStr c) as [e|] eqn:He; simpl.
  - destruct (Concurrent _ _) eqn:Hconc; [|destruct (HappenedBefore _ _) eqn:Hbef].
    + unfold handleConflict. simpl. unfold lww in Hlww. rewrite Hlww. unfold str_eqb at 1.
      rewrite bool_decide_eq_true_2 by done. eexists. split; [reflexivity|].
      destruct (time_After _ _); simpl; [done|]. by rewrite insert_id.
    + eexists. split; [reflexivity|]. simpl. by rewrite insert_id.
    + eexists. split; [reflexivity|]. rewrite applyChange_config, Happly; done.
  - eexists. split; [reflexivity|]. rewrite applyChange_config, Happly; done.
Qed.

(** ** Convergence of last-writer-wins *)

(** [r] is the version of a newest write among [cs]. *)
Definition newest_version (cs : list ResourceChange) (r : TrackedResource) : Prop :=
  ∃ c, c ∈ cs ∧ r = change_version c ∧ ∀ d, d ∈ cs → rc_Timestamp d ≤ rc_Timestamp c.

Lemma newest_version_unique ks cs cs' r r' :
  consistent_writes ks cs → (∀ c, c ∈ cs ↔ c ∈ cs') →
  newest_version cs r → newest_version cs' r' → r = r'.
Proof.
  intros (_ & _ & Hts) Hsame (c & Hc & -> & Hmax) (c' & Hc' & -> & Hmax').
  apply Hsame in Hc' as Hc'1. apply Hts; [done..|].
  pose proof (Hmax c' Hc'1). pose proof (Hmax' c (proj1 (Hsame c) Hc)). lia.
Qed.

(** Meeting one more consistent write keeps the newest version. *)
Lemma lww_pick_newest ks all cs c r :
  consistent_writes ks all → (∀ d, d ∈ cs → d ∈ all) → c ∈ all →
  newest_version cs r → newest_version (cs ++ [c]) (lww_pick (Some r) c).
Proof.
  intros (_ & Hcausal & Hts) Hsub Hc (e & He & -> & Hmax).
  assert (He' := Hsub e He).
  assert (∀ b : bool, (b = true → rc_Timestamp e ≤ rc_Timestamp c) → (b = false → rc_Timestamp c ≤ rc_Timestamp e) →
    newest_version (cs ++ [c]) (if b then change_version c else change_version e)) as Hpick.
  { intros [] H1 H2.
    - exists c. split_and!; [apply elem_of_app; right; by apply list_elem_of_singleton|done|].
      intros d [Hd| ->%list_elem_of_singleton]%elem_of_app; [|done]. specialize (Hmax d Hd). specialize (H1 eq_refl). lia.
    - exists e. split_and!; [apply elem_of_app; by left|done|].
      intros d [Hd| ->%list_elem_of_singleton]%elem_of_app; [by apply Hmax|by apply H2]. }
  unfold lww_pick. change (version_clock (change_version e)) with (change_clock e).
  change (tr_LastModified (change_version e)) with (rc_Timestamp e).
  destruct (Concurrent _ _) eqn:Hconc.
  - apply Hpick; unfold time_After; intros; bool_prop; lia.
  - destruct (HappenedBefore _ _) eqn:Hbef.
    + apply (Hpick false); [done|]. intros _. apply HappenedBefore_true in Hbef.
      specialize (Hcausal c e Hc He' Hbef). lia.
    + apply (Hpick true); [|done]. intros _.
      assert (vc_lt (change_clock e) (change_clock c)) as Hlt.
      { apply Compare_before. unfold Concurrent, HappenedBefore in *. bool_prop.
        rewrite (Compare_antisym (change_clock c)) in Hbef.
        destruct (Compare_range (change_clock e) (Some (change_clock c))) as [H|[H|H]]; lia. }
      specialize (Hcausal e c He' Hc Hlt). lia.
Qed.

Lemma deliver_all_app cd ds ds' s :
  deliver_all cd (ds ++ ds') s = let! s' := deliver_all cd ds s in deliver_all cd ds' s'.
Proof.
  unfold deliver_all. rewrite foldl_app. destruct (foldl _ (Returns s) ds); simpl; [done|].
  induction ds' as [|d ds' IH]; simpl; done.
Qed.

(** ** Sample data for the witnesses *)

Definition no_codecs : Codecs := mkCodecs (λ _, None) (λ _, None) (λ _, None).

Definition sample_member (name : string) : PeerInfo :=
  mkPeerInfo name (name +:+ ":9443") "eu" "a" 0 ∅ false "" false "" "" "".

Definition sample_config (name strategy : string) : Config :=
  mkConfig ModeMesh "fed" (Some (sample_member name)) [] (5 * Second) (30 * Second) 2 true [] []
    strategy true (24 * Hour) (10 * Second) (5 * Second) 3 1 None.

Definition sample_server (name strategy : string) : Server :=
  NewServer (Some (sample_config name strategy)).

Definition sample_change (vc : gmap string Z) (ct : pbChangeType) (data : string) (ts : Z) : ResourceChange :=
  mkResourceChange "id" vc ct "ProxyRoute" "default" "web" "" data "h" ts "peer" None.

(** The state an outcome returns. *)
Definition run (o : outcome Server) : Server :=
  match o with Returns s => s | Panics => NewServer None end.

Definition sample_key : string := "ProxyRoute/default/web".

(** ** What a change does, by causality *)

Lemma handleConflict_vectorClock cd key e c now now' s s' err :
  handleConflict cd key e c now now' s = Returns (s', err) → sv_vectorClock s' = sv_vectorClock s.
Proof.
  unfold handleConflict. intros H. destruct (str_eqb _ StrategyLastWriterWins).
  { injection H as <- <-. by destruct (time_After _ _). }
  destruct (str_eqb _ "Merge"); [|by destruct (str_eqb _ "Manual"); injection H as <- <-].
  destruct (mergeResources _ _ _ _ _) as [[m|er]|]; simpl in H; [| |discriminate]; by injection H as <- <-.
Qed.

Lemma handleResourceChange_vectorClock cd peer c now now' s s' err :
  handleResourceChange cd peer c now now' s = Returns (s', err) →
  sv_vectorClock s' = MergeMap (sv_vectorClock s) (rc_VectorClock c).
Proof.
  rewrite handleResourceChange_unfold. cbn zeta. intros H.
  destruct (sv_resources s !! change_keyStr c) as [e|];
    [destruct (Concurrent _ _); [by apply handleConflict_vectorClock in H as ->|destruct (HappenedBefore _ _)]|];
    injection H as <- <-; by rewrite ?applyChange_vectorClock.
Qed.



(** A tombstone does not protect a deletion. When the resource has been
    deleted, a write that happened before the deletion is applied all the same:
    the resource is back and the tombstone is gone. *)
Theorem stale_write_undoes_delete (cd : Codecs) (peer : string) (c : ResourceChange)
    (now now' : Z) (s : Server) (t : Tombstone)
    (Hgone : sv_resources s !! change_keyStr c = None)
    (Htomb : sv_tombstones s !! change_keyStr c = Some t)
    (Hstale : vc_lt (change_clock c) (mkVectorClock (tb_VectorClock t))) (Hw : is_write c) :
  ∃ s', handleResourceChange cd peer c now now' s = Returns (s', None) ∧
    sv_resources s' !! change_keyStr c = Some (change_version c) ∧
    sv_tombstones s' !! change_keyStr c = None.
Proof.
  rewrite handleResourceChange_unfold, Hgone. eexists. split; [reflexivity|].
  rewrite applyChange_resources, applyChange_tombstones.
  by destruct Hw as [-> | ->]; rewrite lookup_insert_eq, lookup_delete_eq.
Qed.

Lemma stale_write_undoes_delete_witness :
  let del := sample_change {["a" := 2]} DELETED "" 200 in
  let old := sample_change {["a" := 1]} CREATED "v1" 100 in
  let s := run (deliver_all no_codecs [("a", old, 0, 0); ("a", del, 0, 0)]
             (sample_server "m" StrategyLastWriterWins)) in
  sv_resources s !! sample_key = None ∧
  ∃ s', handleResourceChange no_codecs "a" old 0 0 s = Returns (s', None) ∧
    sv_resources s' !! sample_key = Some (change_version old).
Proof.
  intros del old s. split; [by vm_compute|].
  destruct (stale_write_undoes_delete no_codecs "a" old 0 0 s
    (mkTombstone (change_key del) 200 {["a" := 2]} "peer")) as (s' & H1 & H2 & _).
  - by vm_compute.
  - by vm_compute.
  - apply Compare_before. by vm_compute.
  - by left.
  - exists s'. split; [exact H1|exact H2].
Defined.

(** ** Conflicts *)

Lemma handleConflict_lww cd key e c now now' s :
  lww s →
  handleConflict cd key e c now now' s =
    Returns (count_resolved
      (if time_After (rc_Timestamp c) (tr_LastModified e) then
         notifyChange key ChangeTypeUpdated (rc_ResourceData c)
           (set_resources (<[ResourceKey_String key := change_resource key c]> (sv_resources s)) (count_detected s))
       else count_detected s), None).
Proof.
  intros Hlww. unfold handleConflict. simpl. unfold lww in Hlww. rewrite Hlww.
  unfold str_eqb at 1. by rewrite bool_decide_eq_true_2.
Qed.

Lemma handleConflict_manual cd key e c now now' s :
  cf_ConflictResolutionStrategy (sv_config s) = "Manual"%string →
  handleConflict cd key e c now now' s =
    Returns (set_conflicts
      (<[ResourceKey_String key :=
          mkConflictInfo key e (change_resource key c) now ConflictResolutionPendingManual true]>
        (sv_conflicts s)) (count_detected s), None).
Proof. intros Hm. unfold handleConflict. simpl. by rewrite Hm. Qed.

(** The handler on a change that is neither before nor after the tracked one. *)
Lemma handleResourceChange_concurrent cd peer c now now' s e :
  sv_resources s !! change_keyStr c = Some e →
  ¬ vc_lt (version_clock e) (change_clock c) → ¬ vc_lt (change_clock c) (version_clock e) →
  handleResourceChange cd peer c now now' s =
    handleConflict cd (change_key c) e c now now'
      (set_vectorClock (MergeMap (sv_vectorClock s) (rc_VectorClock c)) s).
Proof.
  intros He H1 H2. rewrite handleResourceChange_unfold, He. simpl.
  by rewrite (proj2 (Concurrent_true _ _)).
Qed.

(** Under last-writer-wins a deletion that is concurrent with the tracked
    version and newer does not delete: the resource stays, with the empty data
    of the deletion, it is announced to the callbacks as an update, and no
    tombstone is left. *)
Theorem lww_concurrent_delete_is_an_update (cd : Codecs) (peer : string) (c : ResourceChange)
    (now now' : Z) (s : Server) (e : TrackedResource) (Hlww : lww s)
    (He : sv_resources s !! change_keyStr c = Some e)
    (H1 : ¬ vc_lt (version_clock e) (change_clock c)) (H2 : ¬ vc_lt (change_clock c) (version_clock e))
    (Hdel : rc_ChangeType c = DELETED) (Hnewer : tr_LastModified e < rc_Timestamp c) :
  ∃ s', handleResourceChange cd peer c now now' s = Returns (s', None) ∧
    sv_resources s' = <[change_keyStr c := change_version c]> (sv_resources s) ∧
    sv_tombstones s' = sv_tombstones s ∧
    sv_calls s' = sv_calls s ++
      ((λ cb, (cb, change_key c, ChangeTypeUpdated, rc_ResourceData c)) <$> sv_changeCallbacks s).
Proof.
  rewrite (handleResourceChange_concurrent _ _ _ _ _ _ e) by done.
  rewrite handleConflict_lww by done. unfold time_After. rewrite bool_decide_eq_true_2 by done.
  eexists. split; [reflexivity|]. done.
Qed.

Lemma lww_concurrent_delete_is_an_update_witness :
  let w := sample_change {["a" := 1]} CREATED "v1" 100 in
  let d := sample_change {["b" := 1]} DELETED "" 200 in
  let s := run (deliver_all no_codecs [("a", w, 0, 0)] (sample_server "m" StrategyLastWriterWins)) in
  ∃ s', handleResourceChange no_codecs "b" d 0 0 s = Returns (s', None) ∧
    sv_resources s' = <[sample_key := change_version d]> (sv_resources s) ∧
    sv_tombstones s' = sv_tombstones s.
Proof.
  intros w d s.
  destruct (lww_concurrent_delete_is_an_update no_codecs "b" d 0 0 s (change_version w))
    as (s' & Hs & Hr & Ht & _); try (by vm_compute).
  - rewrite <- Compare_before. by vm_compute.
  - rewrite <- Compare_before. by vm_compute.
  - exists s'. split; [exact Hs|]. split; [exact Hr|exact Ht].
Defined.

(** Receiving the tracked version a second time counts as a conflict. A
    write whose clock equals that of the tracked version is never recognised as
    already known: the conflict counter grows, and under manual resolution the
    resource is left with a pending conflict between the version and itself. *)
Theorem redelivery_is_a_conflict (cd : Codecs) (peer : string) (c : ResourceChange)
    (now now' : Z) (s : Server)
    (Hknown : sv_resources s !! change_keyStr c = Some (change_version c))
    (Hcount : int64_range (st_ConflictsDetected (sv_stats s) + 1)) :
  (lww s → ∃ s', handleResourceChange cd peer c now now' s = Returns (s', None) ∧
     st_ConflictsDetected (sv_stats s') = st_ConflictsDetected (sv_stats s) + 1 ∧
     sv_resources s' = sv_resources s) ∧
  (cf_ConflictResolutionStrategy (sv_config s) = "Manual"%string →
   ∃ s' ci, handleResourceChange cd peer c now now' s = Returns (s', None) ∧
     st_ConflictsDetected (sv_stats s') = st_ConflictsDetected (sv_stats s) + 1 ∧
     sv_conflicts s' !! change_keyStr c = Some ci ∧
     ci_LocalVersion ci = ci_RemoteVersion ci ∧ ci_RequiresManual ci = true).
Proof.
  assert (¬ vc_lt (version_clock (change_version c)) (change_clock c)) as Hirr by apply irreflexivity, _.
  rewrite (handleResourceChange_concurrent _ _ _ _ _ _ _ Hknown Hirr Hirr).
  assert (∀ t, sv_stats t = sv_stats s →
    st_ConflictsDetected (sv_stats (count_detected t)) = st_ConflictsDetected (sv_stats s) + 1) as Hd.
  { intros t Ht. simpl. by rewrite Ht, wrap64_small. }
  split; intros Hstrat.
  - rewrite handleConflict_lww by done. unfold time_After. simpl. rewrite bool_decide_eq_false_2 by lia.
    eexists. split; [reflexivity|]. by split; [apply Hd|].
  - rewrite handleConflict_manual by done. eexists _, _. split; [reflexivity|].
    split; [by apply Hd|]. simpl. split; [by rewrite lookup_insert_eq|done].
Qed.

Lemma redelivery_is_a_conflict_witness :
  let c := sample_change {["a" := 1]} CREATED "v1" 100 in
  let s := run (deliver_all no_codecs [("a", c, 0, 0)] (sample_server "m" "Manual")) in
  ∃ s' ci, handleResourceChange no_codecs "a" c 0 0 s = Returns (s', None) ∧
    sv_conflicts s' !! sample_key = Some ci ∧ ci_LocalVersion ci = ci_RemoteVersion ci.
Proof.
  intros c s.
  destruct (redelivery_is_a_conflict no_codecs "a" c 0 0 s) as [_ H]; [by vm_compute|by vm_compute|].
  destruct H as (s' & ci & H1 & _ & H2 & H3 & _); [by vm_compute|].
  exists s', ci. split; [exact H1|]. split; [exact H2|exact H3].
Defined.

(** Last-writer-wins has no tie-break. Two concurrent writes with the same
    timestamp leave two servers that receive them in opposite orders with
    different versions, and receiving everything again does not repair it. *)
Theorem lww_tie_diverges (cd : Codecs) (c1 c2 : ResourceChange) (s1 s2 : Server)
    (Hl1 : lww s1) (Hl2 : lww s2) (Hw1 : is_write c1) (Hw2 : is_write c2)
    (Hkey : change_keyStr c1 = change_keyStr c2) (Hts : rc_Timestamp c1 = rc_Timestamp c2)
    (Hn1 : sv_resources s1 !! change_keyStr c1 = None) (Hn2 : sv_resources s2 !! change_keyStr c1 = None)
    (H12 : ¬ vc_lt (change_clock c1) (change_clock c2)) (H21 : ¬ vc_lt (change_clock c2) (change_clock c1)) :
  ∃ s1' s2', deliver_all cd [("a", c1, 0, 0); ("b", c2, 0, 0); ("a", c1, 0, 0)] s1 = Returns s1' ∧
    deliver_all cd [("b", c2, 0, 0); ("a", c1, 0, 0); ("b", c2, 0, 0)] s2 = Returns s2' ∧
    sv_resources s1' !! change_keyStr c1 = Some (change_version c1) ∧
    sv_resources s2' !! change_keyStr c1 = Some (change_version c2).
Proof.
  assert (∀ a b s, lww s → is_write a → is_write b → change_keyStr a = change_keyStr b →
    rc_Timestamp a = rc_Timestamp b → sv_resources s !! change_keyStr a = None →
    ¬ vc_lt (change_clock a) (change_clock b) → ¬ vc_lt (change_clock b) (change_clock a) →
    ∀ pa pb, ∃ s', deliver_all cd [(pa, a, 0, 0); (pb, b, 0, 0); (pa, a, 0, 0)] s = Returns s' ∧
      sv_resources s' !! change_keyStr a = Some (change_version a)) as Hrun.
  { clear. intros a b s Hl Ha Hb Hk Ht Hn Hab Hba pa pb.
    destruct (handleResourceChange_lww cd pa a 0 0 s Hl Ha) as (t1 & E1 & C1 & R1).
    assert (lww t1) as L1 by (unfold lww; by rewrite C1).
    destruct (handleResourceChange_lww cd pb b 0 0 t1 L1 Hb) as (t2 & E2 & C2 & R2).
    assert (lww t2) as L2 by (unfold lww; by rewrite C2).
    destruct (handleResourceChange_lww cd pa a 0 0 t2 L2 Ha) as (t3 & E3 & C3 & R3).
    exists t3. split; [unfold deliver_all; simpl; by rewrite E1; simpl; rewrite E2; simpl; rewrite E3|].
    assert (∀ x, rc_Timestamp x = rc_Timestamp a → ¬ vc_lt (change_clock a) (change_clock x) →
      ¬ vc_lt (change_clock x) (change_clock a) → lww_pick (Some (change_version a)) x = change_version a) as Hkeep.
    { intros x Hx H1 H2. unfold lww_pick.
      rewrite (proj2 (Concurrent_true _ _)) by done. unfold time_After.
      rewrite bool_decide_eq_false_2 by (simpl; lia). done. }
    rewrite R3, R2, R1, <- Hk, !lookup_insert_eq, Hn.
    change (lww_pick None a) with (change_version a).
    by rewrite (Hkeep b), (Hkeep a) by (done || apply irreflexivity, _). }
  destruct (Hrun c1 c2 s1) with (pa := "a"%string) (pb := "b"%string) as (s1' & ? & ?); [done..|].
  destruct (Hrun c2 c1 s2) with (pa := "b"%string) (pb := "a"%string) as (s2' & ? & ?); [by rewrite <- ?Hkey..|].
  exists s1', s2'. rewrite <- Hkey in *. done.
Qed.

Lemma lww_tie_diverges_witness :
  let c1 := sample_change {["a" := 1]} CREATED "v1" 100 in
  let c2 := sample_change {["b" := 1]} CREATED "v2" 100 in
  let s := sample_server "m" StrategyLastWriterWins in
  ∃ s1 s2, sv_resources s1 !! sample_key = Some (change_version c1) ∧
    sv_resources s2 !! sample_key = Some (change_version c2) ∧
    deliver_all no_codecs [("a", c1, 0, 0); ("b", c2, 0, 0); ("a", c1, 0, 0)] s = Returns s1 ∧
    deliver_all no_codecs [("b", c2, 0, 0); ("a", c1, 0, 0); ("b", c2, 0, 0)] s = Returns s2.
Proof.
  intros c1 c2 s.
  destruct (lww_tie_diverges no_codecs c1 c2 s s) as (s1 & s2 & H1 & H2 & H3 & H4);
    try (by vm_compute); try (by left); try (rewrite <- Compare_before; by vm_compute).
  exists s1, s2. split; [exact H3|]. split; [exact H4|]. split; [exact H1|exact H2].
Defined.
