(* ===== verification/FedInvariants.v ===== *)
(** * Invariants of the federation server's state

    What it means that the store is well formed, that every tracked version is
    causally known, and that a resource is not live and deleted at once; what an
    undisturbed call of each handler does to those parts of the state; and where
    the invariants stop: merging, manual resolution, reconnecting peers and
    restarts. That the invariants hold in every interleaving of the server's
    goroutines is proved in [FedThreads]. *)

From S2P Require Import Prelude VectorClock FedTypes Endpoints FedServer FedReplica.
Open Scope Z_scope.
Open Scope go_scope.

(** ** The invariants *)

Definition filed (s : Server) : Prop :=
  map_Forall (λ ks r, ResourceKey_String (tr_Key r) = ks) (sv_resources s) ∧
  map_Forall (λ ks t, ResourceKey_String (tb_Key t) = ks) (sv_tombstones s) ∧
  map_Forall (λ ks ci, ResourceKey_String (ci_Key ci) = ks ∧
                       ResourceKey_String (tr_Key (ci_RemoteVersion ci)) = ks) (sv_conflicts s).

Definition outboxes_bounded (s : Server) : Prop :=
  map_Forall (λ _ q, (length q ≤ outboxCapacity)%nat) (sv_channels s).

Definition server_inv (s : Server) : Prop :=
  vc_wf (sv_vectorClock s) ∧ filed s ∧ outboxes_bounded s ∧ cache_wf (sv_endpointCache s).

(** Every tracked version, tombstone and pending conflict is causally known to
    the server. *)
Definition clock_dominates (s : Server) : Prop :=
  map_Forall (λ _ r, vc_le (version_clock r) (sv_vectorClock s)) (sv_resources s) ∧
  map_Forall (λ _ t, vc_le (mkVectorClock (tb_VectorClock t)) (sv_vectorClock s)) (sv_tombstones s) ∧
  map_Forall (λ _ ci, vc_le (version_clock (ci_RemoteVersion ci)) (sv_vectorClock s)) (sv_conflicts s).

Definition live_or_dead (s : Server) : Prop :=
  ∀ ks, is_Some (sv_resources s !! ks) → sv_tombstones s !! ks = None.

(** ** Effect of the operations on the parts the invariants read *)

(** What one incoming change can do to the store. *)
Inductive change_effect (c : ResourceChange) (s s' : Server) : Prop :=
  | effect_none :
      sv_resources s' = sv_resources s → sv_tombstones s' = sv_tombstones s →
      sv_conflicts s' = sv_conflicts s → change_effect c s s'
  | effect_write :
      sv_resources s' = <[change_keyStr c := change_version c]> (sv_resources s) →
      sv_tombstones s' = delete (change_keyStr c) (sv_tombstones s) →
      sv_conflicts s' = sv_conflicts s → change_effect c s s'
  | effect_overwrite :
      is_Some (sv_resources s !! change_keyStr c) →
      sv_resources s' = <[change_keyStr c := change_version c]> (sv_resources s) →
      sv_tombstones s' = sv_tombstones s →
      sv_conflicts s' = sv_conflicts s → change_effect c s s'
  | effect_delete :
      sv_resources s' = delete (change_keyStr c) (sv_resources s) →
      sv_tombstones s' = <[change_keyStr c :=
        mkTombstone (change_key c) (rc_Timestamp c) (rc_VectorClock c) (rc_OriginMember c)]> (sv_tombstones s) →
      sv_conflicts s' = sv_conflicts s → change_effect c s s'
  | effect_merge e m :
      cf_ConflictResolutionStrategy (sv_config s) = "Merge"%string →
      sv_resources s !! change_keyStr c = Some e → tr_Key m = tr_Key e →
      sv_resources s' = <[change_keyStr c := m]> (sv_resources s) →
      sv_tombstones s' = sv_tombstones s →
      sv_conflicts s' = sv_conflicts s → change_effect c s s'
  | effect_pending ci :
      ci_Key ci = change_key c → ci_RemoteVersion ci = change_version c →
      sv_resources s' = sv_resources s → sv_tombstones s' = sv_tombstones s →
      sv_conflicts s' = <[change_keyStr c := ci]> (sv_conflicts s) → change_effect c s s'.

(** The counters after an incoming change: nothing, a conflict that is resolved
    at once, or a conflict that stays pending or is dropped. *)
Inductive count_effect (s s' : Server) : Prop :=
  | counted_none :
      st_ConflictsDetected (sv_stats s') = st_ConflictsDetected (sv_stats s) →
      st_ConflictsResolved (sv_stats s') = st_ConflictsResolved (sv_stats s) →
      sv_conflicts s' = sv_conflicts s → count_effect s s'
  | counted_resolved :
      st_ConflictsDetected (sv_stats s') = wrap64 (st_ConflictsDetected (sv_stats s) + 1) →
      st_ConflictsResolved (sv_stats s') = wrap64 (st_ConflictsResolved (sv_stats s) + 1) →
      sv_conflicts s' = sv_conflicts s → count_effect s s'
  | counted_pending :
      st_ConflictsDetected (sv_stats s') = wrap64 (st_ConflictsDetected (sv_stats s) + 1) →
      st_ConflictsResolved (sv_stats s') = st_ConflictsResolved (sv_stats s) →
      (size (sv_conflicts s') ≤ S (size (sv_conflicts s)))%nat → count_effect s s'.

Lemma applyChange_cache cd peer c s :
  cache_wf (sv_endpointCache s) → cache_wf (sv_endpointCache (applyChange cd peer c s)).
Proof.
  intros Hwf. unfold applyChange, applyServiceEndpoints, deleteServiceEndpoints.
  destruct (rc_ChangeType c); try done; destruct (str_eqb _ "ServiceEndpoints"); try done;
    try (by apply Delete_wf); destruct (protoUnmarshalServiceEndpoints _ _); try done; by apply Update_wf.
Qed.

Lemma mergeResources_key cd cfg l r now m :
  mergeResources cd cfg l r now = Returns (inl m) → tr_Key m = tr_Key l.
Proof.
  unfold mergeResources. intros H.
  repeat (case_match; try discriminate).
  destruct (cf_LocalMember cfg); simpl in H; [|discriminate]. by injection H as <-.
Qed.

(** What a conflict between the tracked version [e] and the change does. *)
Lemma handleConflict_effect cd c e now now' s s' err :
  sv_resources s !! change_keyStr c = Some e →
  handleConflict cd (change_key c) e c now now' s = Returns (s', err) →
  sv_config s' = sv_config s ∧ sv_vectorClock s' = sv_vectorClock s ∧
  sv_channels s' = sv_channels s ∧ sv_endpointCache s' = sv_endpointCache s ∧
  change_effect c s s' ∧ count_effect s s'.
Proof.
  intros He. unfold handleConflict. simpl. intros H.
  assert (∀ ci, (size (<[change_keyStr c := ci]> (sv_conflicts s)) ≤ S (size (sv_conflicts s)))%nat) as Hsz.
  { intros ci. rewrite map_size_insert. destruct (sv_conflicts s !! change_keyStr c); simpl; [unfold id; apply Nat.le_succ_diag_r|done]. }
  destruct (str_eqb _ StrategyLastWriterWins) eqn:E1; [|destruct (str_eqb _ "Merge") eqn:E2;
    [|destruct (str_eqb _ "Manual") eqn:E3]].
  - injection H as <- <-. destruct (time_After _ _); simpl; split_and!; try done;
      [by apply effect_overwrite|by apply counted_resolved|by apply effect_none|by apply counted_resolved].
  - apply str_eqb_true in E2.
    destruct (mergeResources _ _ _ _ _) as [[m|er]|] eqn:Hm; simpl in H; [| |discriminate];
      injection H as <- <-; simpl; split_and!; try done.
    + apply (effect_merge _ _ _ e m); try done. by eapply mergeResources_key.
    + by apply counted_resolved.
    + by (eapply effect_pending; [..|reflexivity]).
    + by apply counted_pending; simpl.
  - injection H as <- <-. simpl. split_and!; try done; [by (eapply effect_pending; [..|reflexivity])|by apply counted_pending; simpl].
  - injection H as <- <-. simpl. split_and!; try done; [by apply effect_none|apply counted_pending; simpl; done || lia].
Qed.

Lemma handleResourceChange_effect cd peer c now now' s s' err :
  handleResourceChange cd peer c now now' s = Returns (s', err) →
  sv_config s' = sv_config s ∧
  sv_vectorClock s' = MergeMap (sv_vectorClock s) (rc_VectorClock c) ∧
  sv_channels s' = sv_channels s ∧
  (cache_wf (sv_endpointCache s) → cache_wf (sv_endpointCache s')) ∧
  change_effect c s s' ∧ count_effect s s'.
Proof.
  rewrite handleResourceChange_unfold. simpl.
  set (s1 := set_vectorClock _ s).
  assert (∀ t, change_effect c s1 t → change_effect c s t) as Heff.
  { intros t []; [eapply effect_none|eapply effect_write|eapply effect_overwrite|eapply effect_delete
      |eapply effect_merge|eapply effect_pending]; eauto. }
  assert (∀ t, count_effect s1 t → count_effect s t) as Hcnt.
  { intros t []; [apply counted_none|apply counted_resolved|apply counted_pending]; eauto. }
  assert (∀ s', applyChange cd peer c s1 = s' → sv_config s' = sv_config s ∧
    sv_vectorClock s' = MergeMap (sv_vectorClock s) (rc_VectorClock c) ∧
    sv_channels s' = sv_channels s ∧
    (cache_wf (sv_endpointCache s) → cache_wf (sv_endpointCache s')) ∧
    change_effect c s s' ∧ count_effect s s') as Happ.
  { intros t <-. destruct (applyChange_rest cd peer c s1) as (Hc & Ho & Hd & Hr).
    rewrite applyChange_config, applyChange_vectorClock, Ho. split_and!; [done..| | |].
    - intros Hwf. by apply applyChange_cache.
    - apply Heff. pose proof (applyChange_resources cd peer c s1) as Hres.
      pose proof (applyChange_tombstones cd peer c s1) as Htb.
      destruct (rc_ChangeType c); [by apply effect_none|by apply effect_write..|by apply effect_delete|by apply effect_none].
    - apply Hcnt. by apply counted_none. }
  intros H. destruct (sv_resources s !! change_keyStr c) as [e|] eqn:He.
  - destruct (Concurrent _ _).
    + destruct (handleConflict_effect cd c e now now' s1 s' err He H) as (? & ? & ? & Hca & ? & ?).
      split_and!; eauto. by rewrite Hca.
    + destruct (HappenedBefore _ _); injection H as <- <-; [|by apply Happ].
      split_and!; try done; [by apply effect_none|by apply counted_none].
  - injection H as <- <-. by apply Happ.
Qed.

(** The outboxes keep their bound. *)
Lemma enqueue_bounded e q : (length q ≤ outboxCapacity)%nat → (length (enqueue e q) ≤ outboxCapacity)%nat.
Proof. intros H. unfold enqueue. case_decide; [rewrite length_app; simpl; lia|done]. Qed.

(** A local change, with its version or tombstone. *)
Lemma RecordLocalChange_effect key ct data labels uuid now now' s s' :
  RecordLocalChange key ct data labels uuid now now' s = Returns s' →
  ∃ m, cf_LocalMember (sv_config s) = Some m ∧ sv_config s' = sv_config s ∧
  let vc := (Increment (sv_vectorClock s) (pi_Name m)).1 in
  sv_vectorClock s' = vc ∧ sv_conflicts s' = sv_conflicts s ∧
  sv_endpointCache s' = sv_endpointCache s ∧ sv_stats s' = sv_stats s ∧
  (∃ entry, sv_channels s' = map_fold (λ _ ch chans, alter (enqueue entry) ch chans) (sv_channels s) (sv_peerOutboxes s)) ∧
  (ct ≠ ChangeTypeDeleted ∧
     sv_resources s' = <[ResourceKey_String key :=
       mkTrackedResource key "" "" data (clocks vc) (pi_Name m) now' labels]> (sv_resources s) ∧
     sv_tombstones s' = delete (ResourceKey_String key) (sv_tombstones s) ∨
   ct = ChangeTypeDeleted ∧
     sv_resources s' = delete (ResourceKey_String key) (sv_resources s) ∧
     sv_tombstones s' = <[ResourceKey_String key :=
       mkTombstone key now' (clocks vc) (pi_Name m)]> (sv_tombstones s)).
Proof.
  unfold RecordLocalChange. destruct (cf_LocalMember (sv_config s)) as [m|]; simpl; [|done].
  intros H. exists m. split; [done|]. rewrite ToMap_id in H.
  destruct (decide (ct = ChangeTypeDeleted)); injection H as <-; simpl; split_and!; try done; eauto 10.
Qed.

Lemma ResolveConflict_effect ks useLocal s :
  let s' := (ResolveConflict ks useLocal s).1 in
  sv_config s' = sv_config s ∧ sv_vectorClock s' = sv_vectorClock s ∧
  sv_tombstones s' = sv_tombstones s ∧ sv_channels s' = sv_channels s ∧
  sv_endpointCache s' = sv_endpointCache s ∧
  st_ConflictsDetected (sv_stats s') = st_ConflictsDetected (sv_stats s) ∧
  (sv_conflicts s !! ks = None ∧ s' = s ∨
   ∃ ci, sv_conflicts s !! ks = Some ci ∧ sv_conflicts s' = delete ks (sv_conflicts s) ∧
     st_ConflictsResolved (sv_stats s') = wrap64 (st_ConflictsResolved (sv_stats s) + 1) ∧
     sv_resources s' = if useLocal then sv_resources s
                       else <[ks := ci_RemoteVersion ci]> (sv_resources s)).
Proof.
  unfold ResolveConflict. destruct (sv_conflicts s !! ks) as [ci|] eqn:E; simpl.
  - destruct useLocal; simpl; eauto 20.
  - split_and!; auto.
Qed.

Lemma NewServer_vectorClock_wf cfg : vc_wf (sv_vectorClock (NewServer cfg)).
Proof.
  unfold NewServer. simpl. destruct (cf_LocalMember _); [|apply NewVectorClock_wf].
  by apply Increment_wf; [apply NewVectorClock_wf|].
Qed.

Lemma clock_dominates_weaken s vc :
  vc_le (sv_vectorClock s) vc → clock_dominates s →
  map_Forall (λ _ r, vc_le (version_clock r) vc) (sv_resources s) ∧
  map_Forall (λ _ t, vc_le (mkVectorClock (tb_VectorClock t)) vc) (sv_tombstones s) ∧
  map_Forall (λ _ ci, vc_le (version_clock (ci_RemoteVersion ci)) vc) (sv_conflicts s).
Proof.
  intros Hle (Hr & Ht & Hc). split_and!; eapply map_Forall_impl; try eassumption;
    simpl; intros; by etrans.
Qed.

Definition merges (s : Server) : Prop := cf_ConflictResolutionStrategy (sv_config s) = "Merge"%string.

Lemma Increment_le vc m : Get vc m < max_int64 → vc_wf vc → vc_le vc (Increment vc m).1.
Proof.
  intros Hm Hwf k. rewrite Get_Increment. pose proof (Get_nonneg vc m Hwf). case_decide; subst; [|lia].
  rewrite wrap64_small; [lia|]. unfold int64_range, min_int64, max_int64 in *. lia.
Qed.

Definition sample_local_key : ResourceKey := mkResourceKey "ProxyRoute" "default" "web".

(** ** Where the invariants stop *)

(** The clock of a successful merge. *)
Lemma mergeResources_clock cd cfg l r now m :
  mergeResources cd cfg l r now = Returns (inl m) →
  ∃ me, cf_LocalMember cfg = Some me ∧
    version_clock m = (Increment (MergeMap (version_clock l) (tr_VectorClock r)) (pi_Name me)).1.
Proof.
  unfold mergeResources. intros H. repeat (case_match; try discriminate).
  destruct (cf_LocalMember cfg) as [me|]; [|discriminate].
  rewrite NewVectorClockFromMap_id in H. cbn [deref outcome_bind] in H. rewrite ToMap_id in H.
  injection H as <-. by exists me.
Qed.

(** The Merge strategy advances the clock of the merged version but not
    the server's clock. When the tracked version carries the server's latest
    local counter, the merged version is not below the server's clock, and the
    next local change of any resource is given the very local counter the
    merged version already carries: a later local change of the same resource
    is not strictly after the merged version. *)
Theorem merge_escapes_server_clock (cd : Codecs) (key : ResourceKey) (e m : TrackedResource)
    (c : ResourceChange) (now now' : Z) (s : Server) (me : PeerInfo)
    (Hstrat : cf_ConflictResolutionStrategy (sv_config s) = "Merge"%string)
    (Hme : cf_LocalMember (sv_config s) = Some me)
    (Hmerge : mergeResources cd (sv_config s) e (change_resource key c) now' = Returns (inl m))
    (Hcur : Get (version_clock e) (pi_Name me) = Get (sv_vectorClock s) (pi_Name me))
    (Hold : Get (change_clock c) (pi_Name me) ≤ Get (sv_vectorClock s) (pi_Name me))
    (H0 : 0 ≤ Get (sv_vectorClock s) (pi_Name me) < max_int64) :
  ∃ s', handleConflict cd key e c now now' s = Returns (s', None) ∧
    sv_resources s' !! ResourceKey_String key = Some m ∧
    ¬ vc_le (version_clock m) (sv_vectorClock s') ∧
    (∀ ct data labels uuid t t' s'', RecordLocalChange key ct data labels uuid t t' s' = Returns s'' →
       Get (sv_vectorClock s'') (pi_Name me) = Get (version_clock m) (pi_Name me)).
Proof.
  assert (wrap64 (Get (sv_vectorClock s) (pi_Name me) + 1) = Get (sv_vectorClock s) (pi_Name me) + 1) as Hw.
  { apply wrap64_small. unfold int64_range, min_int64, max_int64 in *. lia. }
  assert (Get (version_clock m) (pi_Name me) = Get (sv_vectorClock s) (pi_Name me) + 1) as Hm.
  { apply mergeResources_clock in Hmerge as (me' & Hme' & ->). rewrite Hme in Hme'. injection Hme' as <-.
    rewrite Get_Increment, decide_True, Get_MergeMap by done. unfold change_resource; simpl.
    destruct (rc_VectorClock c !! pi_Name me) as [v|] eqn:E; [|by rewrite Hcur].
    assert (Get (change_clock c) (pi_Name me) = v) as Hv by (unfold Get, map_get; simpl; by rewrite E).
    rewrite Z.max_l by lia. by rewrite Hcur. }
  unfold handleConflict. simpl. rewrite Hstrat. cbn [str_eqb]. rewrite Hmerge. simpl.
  eexists. split; [reflexivity|]. split_and!.
  - simpl. by rewrite lookup_insert_eq.
  - intros Hle. specialize (Hle (pi_Name me)). simpl in Hle. lia.
  - intros ct data labels uuid t t' s'' Hrec.
    apply RecordLocalChange_effect in Hrec as (me' & Hme' & _ & -> & _).
    cbn in Hme'. rewrite Hme in Hme'. injection Hme' as <-.
    rewrite Get_Increment, decide_True, Hm by done. exact Hw.
Qed.

(** Codecs for one document shape: every text is read as the same object. *)
Definition flat_codecs : Codecs := mkCodecs (λ s, Some {["data" := JStr s]}) (λ _, Some "merged"%string) (λ _, None).

Lemma merge_escapes_server_clock_witness :
  let s := run (RecordLocalChange sample_local_key ChangeTypeCreated "v1" None "id" 10 10 (sample_server "m" "Merge")) in
  let e := mkTrackedResource sample_local_key "" "" "v1" {["m" := 2]} "m" 10 None in
  let c := sample_change {["p" := 1]} UPDATED "v2" 20 in
  sv_resources s !! sample_key = Some e ∧
  ∃ s' m, handleConflict flat_codecs sample_local_key e c 30 40 s = Returns (s', None) ∧
    sv_resources s' !! sample_key = Some m ∧ ¬ vc_le (version_clock m) (sv_vectorClock s').
Proof.
  intros s e c. split; [by vm_compute|].
  destruct (mergeResources flat_codecs (sv_config s) e (change_resource sample_local_key c) 40)
    as [[m|er]|] eqn:E; [|exfalso; vm_compute in E; discriminate..].
  destruct (merge_escapes_server_clock flat_codecs sample_local_key e m c 30 40 s (sample_member "m"))
    as (s' & H1 & H2 & H3 & _).
  - by vm_compute.
  - by vm_compute.
  - exact E.
  - by vm_compute.
  - by vm_compute.
  - by vm_compute.
  - exists s', m. split; [exact H1|]. split; [exact H2|exact H3].
Defined.

(** Resolving a pending conflict by hand in favour of the remote version
    does not look at tombstones. When the resource has been deleted since the
    conflict was recorded, the resolution brings it back beside its tombstone,
    so the resource is live and deleted at once; the resolved conflict is gone
    and the callbacks are told about an update. *)
Theorem manual_resolution_revives_deleted (ks : string) (s : Server) (ci : ConflictInfo) (t : Tombstone)
    (Hc : sv_conflicts s !! ks = Some ci) (Ht : sv_tombstones s !! ks = Some t) :
  let '(s', err) := ResolveConflict ks false s in
  err = None ∧ sv_resources s' !! ks = Some (ci_RemoteVersion ci) ∧ sv_tombstones s' !! ks = Some t ∧
  ¬ live_or_dead s' ∧ sv_conflicts s' !! ks = None ∧
  sv_calls s' = sv_calls s ++ ((λ cb, (cb, ci_Key ci, ChangeTypeUpdated, tr_Data (ci_RemoteVersion ci)))
                                <$> sv_changeCallbacks s).
Proof.
  unfold ResolveConflict. rewrite Hc. simpl. rewrite lookup_insert_eq, lookup_delete_eq.
  split_and!; try done. intros Hl. specialize (Hl ks). simpl in Hl.
  rewrite lookup_insert_eq, Ht in Hl. discriminate Hl. eauto.
Qed.

Lemma manual_resolution_revives_deleted_witness :
  let s := run (RecordLocalChange sample_local_key ChangeTypeDeleted "" None "id" 30 30
    (run (deliver_all no_codecs
      [("a", sample_change {["a" := 1]} CREATED "v1" 10, 0, 0);
       ("b", sample_change {["b" := 1]} CREATED "v2" 20, 0, 0)] (sample_server "m" "Manual")))) in
  ∃ ci t, sv_conflicts s !! sample_key = Some ci ∧ sv_tombstones s !! sample_key = Some t ∧
    ¬ live_or_dead (ResolveConflict sample_key false s).1.
Proof.
  intros s.
  destruct (sv_conflicts s !! sample_key) as [ci|] eqn:Hc; [|exfalso; vm_compute in Hc; discriminate].
  destruct (sv_tombstones s !! sample_key) as [t|] eqn:Ht; [|exfalso; vm_compute in Ht; discriminate].
  exists ci, t. split; [done|]. split; [done|].
  pose proof (manual_resolution_revives_deleted sample_key s ci t Hc Ht) as H.
  destruct (ResolveConflict sample_key false s) as [s' err]. destruct H as (_ & _ & _ & H & _). exact H.
Defined.

(** When a peer reconnects before its old stream has ended, the end of the old
    stream removes the outbox of the new one: later local changes are queued
    for nobody, and the channel the new stream reads from stays empty. *)
Lemma reconnect_loses_outbox h1 h2 now1 now2 peer ch1 ch2 r1 r2 s s1 s2 :
  SyncStream_open (Some h1) true now1 s = Returns (s1, inr (peer, ch1, r1)) →
  SyncStream_open (Some h2) true now2 s1 = Returns (s2, inr (peer, ch2, r2)) →
  sv_peerOutboxes s2 !! peer = Some ch2 ∧ sv_channels s2 !! ch2 = Some [] ∧
  let s3 := SyncStream_close peer ch1 s2 in
  sv_peerOutboxes s3 !! peer = None ∧ handleOutgoingChange peer ch2 true s3 = (s3, OutIdle).
Proof.
  assert (∀ h now s s' p ch r, SyncStream_open (Some h) true now s = Returns (s', inr (p, ch, r)) →
    ch = sv_nextChannel s ∧ sv_nextChannel s' = S ch ∧
    sv_channels s' = <[ch := []]> (sv_channels s) ∧ sv_peerOutboxes s' = <[p := ch]> (sv_peerOutboxes s)) as Hopen.
  { intros h now t t' p ch r H. unfold SyncStream_open in H. destruct h; try discriminate.
    destruct (negb _); [discriminate|]. case_decide; [discriminate|].
    destruct (cf_LocalMember (sv_config t)); simpl in H; [|discriminate]. by injection H as <- <- <- _. }
  intros (Hc1 & Hn1 & _)%Hopen (Hc2 & _ & Hch2 & Ho2)%Hopen. rewrite Hch2, Ho2, !lookup_insert_eq.
  split_and!; try done. simpl. rewrite ?Ho2, lookup_delete_eq. split; [done|].
  unfold handleOutgoingChange. simpl. rewrite Hch2, lookup_delete_ne by lia. by rewrite lookup_insert_eq.
Qed.

(** An update of service endpoints is cached under the cluster it names, a
    deletion looks under the name of the sending peer: when the two names
    differ the deleted endpoints stay in the cache. *)
Lemma endpoints_survive_delete cd data peer ns name eps s :
  protoUnmarshalServiceEndpoints cd data = Some eps →
  se_ClusterName eps ≠ ""%string → se_ClusterName eps ≠ peer →
  let s' := deleteServiceEndpoints ns name peer (applyServiceEndpoints cd data peer s) in
  entry (sv_endpointCache s') (se_ClusterName eps) (serviceKey (se_Namespace eps) (se_ServiceName eps)) = Some eps.
Proof.
  intros Hu Hne Hpeer. unfold deleteServiceEndpoints, applyServiceEndpoints. rewrite Hu. unfold str_empty.
  rewrite bool_decide_eq_false_2 by done. cbn [sv_endpointCache set_endpointCache].
  rewrite entry_Delete, entry_Update. rewrite !decide_False by naive_solver. by rewrite decide_True.
Qed.

(** A restarted controller is not heard. The local counter starts again at
    one, and neither a handshake nor a heartbeat restores it: the first local
    change after a restart carries a clock that is strictly before every
    version the controller wrote later than its second change in its previous
    life, so a peer that tracks such a version ignores the new change. *)
Theorem restart_changes_are_ignored (cd : Codecs) (cfg : Config) (me : PeerInfo) (key : ResourceKey)
    (data uuid peer : string) (labels : option (gmap string string)) (t t' now now' : Z)
    (s p : Server) (c : ResourceChange) (e : TrackedResource)
    (Hme : cf_LocalMember cfg = Some me)
    (Hrec : RecordLocalChange key ChangeTypeUpdated data labels uuid t t' (NewServer (Some cfg)) = Returns s)
    (Hclock : rc_VectorClock c = ToMap (sv_vectorClock s))
    (He : sv_resources p !! change_keyStr c = Some e)
    (Hwf : vc_wf (version_clock e)) (Hold : 2 < Get (version_clock e) (pi_Name me)) :
  ∃ p', handleResourceChange cd peer c now now' p = Returns (p', None) ∧ sv_resources p' = sv_resources p.
Proof.
  apply RecordLocalChange_effect in Hrec as (me' & Hme' & _ & Hvc & _).
  cbn in Hme'. rewrite Hme in Hme'. injection Hme' as <-.
  assert (∀ k, Get (sv_vectorClock s) k = if decide (pi_Name me = k) then 2 else 0) as Hget.
  { assert (sv_vectorClock (NewServer (Some cfg)) = (Increment NewVectorClock (pi_Name me)).1) as Hnew.
    { unfold NewServer. simpl. by rewrite Hme. }
    intros k. rewrite Hvc, Hnew, !Get_Increment. repeat case_decide; done. }
  assert (vc_lt (change_clock c) (version_clock e)) as Hlt.
  { unfold change_clock. rewrite Hclock, ToMap_id. replace (mkVectorClock _) with (sv_vectorClock s) by (by destruct (sv_vectorClock s)).
    split.
    - intros k. rewrite Hget. pose proof (Get_nonneg _ k Hwf). case_decide; [subst; lia|lia].
    - exists (pi_Name me). rewrite Hget, decide_True by done. done. }
  rewrite handleResourceChange_unfold. simpl. rewrite He.
  destruct (Concurrent _ _) eqn:Hc; [by apply Concurrent_true in Hc as [_ Hc]|].
  apply HappenedBefore_true in Hlt as ->. by eexists.
Qed.

Lemma restart_changes_are_ignored_witness :
  let p := run (deliver_all no_codecs [("m"%string, sample_change {["m" := 7]} CREATED "old" 100, 0, 0)]
                  (sample_server "p" StrategyLastWriterWins)) in
  let s := run (RecordLocalChange sample_local_key ChangeTypeUpdated "new" None "id" 900 900
                  (sample_server "m" StrategyLastWriterWins)) in
  let c := sample_change (ToMap (sv_vectorClock s)) UPDATED "new" 900 in
  ∃ p', handleResourceChange no_codecs "m" c 0 0 p = Returns (p', None) ∧ sv_resources p' = sv_resources p.
Proof.
  intros p s c.
  refine (restart_changes_are_ignored no_codecs (sample_config "m" StrategyLastWriterWins) (sample_member "m")
    sample_local_key "new" "id" "m" None 900 900 0 0 s p c
    (change_version (sample_change {["m" := 7]} CREATED "old" 100)) _ _ _ _ _ _).
  - reflexivity.
  - vm_compute. reflexivity.
  - reflexivity.
  - vm_compute. reflexivity.
  - apply (bool_decide_unpack _). by vm_compute.
  - by vm_compute.
Defined.
