(* ===== verification/FedThreads.v ===== *)
(** * The federation server's goroutines
    (src/internal/controller/federation/server.go, manager.go)

    The handlers of [FedServer] describe a call that nothing disturbs. In the
    program the streams of the peers, the reconcilers, the anti-entropy loop,
    the conflict API and the cleanup run in goroutines of their own, and no lock
    spans a handler: each access to a [sync.Map], to the vector clock, to the
    statistics, to the outboxes, to the endpoint cache and to the configuration
    pointer is atomic, and anything can happen between two of them. Here a
    [Thread] is a goroutine stopped at one of those accesses, with the values
    its locals have there; [exec] performs the access and moves to the next one.
    A [System] is the server with its running threads, an [event] starts a
    thread or lets one make its next access, and [sys_exec] replays a list of
    events, so every interleaving is such a list. The configuration can be
    replaced at any point, as [Manager.UpdateConfig] does.

    Mutual exclusion between accesses under one mutex is not used: the
    interleavings here include those the mutexes exclude. What a thread sends
    (handshake responses, full-sync batches, heartbeats) is not part of the
    server's state and is left to [FedServer] and [FedFullSync]. *)

From S2P Require Import Prelude VectorClock FedTypes Endpoints FedServer FedReplica FedInvariants.
Open Scope Z_scope.
Open Scope go_scope.

(** ** Threads *)

(** The arguments of [RecordLocalChange], with its fresh id and its two
    readings of the clock. *)
Record LocalChange := mkLocalChange {
  lc_Key : ResourceKey;
  lc_Type : ChangeType;
  lc_Data : string;
  lc_Labels : option (gmap string string);
  lc_Uuid : string;
  lc_Now : Z;
  lc_Now' : Z;
}.

(** One constructor per access to shared state. *)
Inductive Thread :=
  (* handleIncomingMessages, after a message has been received *)
  | MsSeen (peer : string) (msg : SyncMessage) (now now' now'' : Z)
  | PsAck (peer : string) (a : SyncAck) (now : Z)
  | PsHeartbeat (peer : string) (h : Heartbeat) (now : Z)
  (* handleResourceChange *)
  | RcMergeClock (peer : string) (c : ResourceChange) (now now' : Z)
  | RcLoad (peer : string) (c : ResourceChange) (now now' : Z)
  | RcStore (peer : string) (c : ResourceChange)
  | RcDropTombstone (peer : string) (c : ResourceChange)
  | RcEndpoints (peer : string) (c : ResourceChange)
  | RcDelete (peer : string) (c : ResourceChange)
  | RcTombstone (peer : string) (c : ResourceChange)
  | RcForgetEndpoints (peer : string) (c : ResourceChange)
  | RcNotify (key : ResourceKey) (ct : ChangeType) (data : string)
  | RcCount
  (* handleConflict and mergeResources *)
  | CfCount (e : TrackedResource) (c : ResourceChange) (now now' : Z)
  | CfStrategy (e : TrackedResource) (c : ResourceChange) (now now' : Z)
  | CfStoreRemote (c : ResourceChange)
  | CfNotifyRemote (c : ResourceChange)
  | CfResolved
  | CfMergeClock (e : TrackedResource) (c : ResourceChange) (data : string) (now' : Z)
  | CfMergeOrigin (e : TrackedResource) (c : ResourceChange) (data : string) (clock : gmap string Z) (now' : Z)
  | CfStoreMerged (c : ResourceChange) (merged : TrackedResource)
  | CfResolvedMerged (c : ResourceChange) (merged : TrackedResource)
  | CfNotifyMerged (c : ResourceChange) (merged : TrackedResource)
  | CfPending (e : TrackedResource) (c : ResourceChange) (now : Z) (err : option FedErr)
  (* RecordLocalChange *)
  | LcConfig (l : LocalChange)
  | LcIncrement (l : LocalChange) (member : PeerInfo)
  | LcToMap (l : LocalChange) (member : PeerInfo)
  | LcStore (l : LocalChange) (member : PeerInfo) (clock : gmap string Z)
  | LcDropTombstone (l : LocalChange) (member : PeerInfo) (clock : gmap string Z)
  | LcTombstone (l : LocalChange) (member : PeerInfo) (clock : gmap string Z)
  | LcDelete (l : LocalChange) (member : PeerInfo) (clock : gmap string Z)
  | LcFanOut (entry : ChangeEntry)
  | LcSend (entry : ChangeEntry) (chs : list nat)
  (* ResolveConflict *)
  | RvLoad (ks : string) (useLocal : bool)
  | RvStore (ks : string) (conflict : ConflictInfo)
  | RvNotify (ks : string) (conflict : ConflictInfo)
  | RvDelete (ks : string)
  | RvCount
  (* one tick of cleanupTombstones; the list is what is left to visit *)
  | TcVisit (now : Z) (order : list string)
  | TcCheck (now : Z) (ks : string) (t : Tombstone) (order : list string)
  | TcDelete (now : Z) (ks : string) (order : list string)
  (* SyncStream: its opening and its deferred actions *)
  | StHandshake (first : option SyncMessage) (send_ok : bool) (now : Z)
  | StPeer (h : SyncHandshake) (cfg : Config) (send_ok : bool) (now : Z)
  | StRegister (peer : string)
  | StActive (peer : string)
  | StGone (peer : string) (err : option FedErr)
  | ClActive (peer : string) (ch : nat)
  | ClOutbox (peer : string) (ch : nat)
  (* handleOutgoingMessages, the change case *)
  | OgReceive (peer : string) (ch : nat) (send_ok : bool)
  | OgCount
  (* RequestFullSync; [send_ok] is whether all batches can be sent *)
  | FsCheck (req : FullSyncRequest) (send_ok : bool) (now : Z)
  | FsCooldown (req : FullSyncRequest) (send_ok : bool) (now : Z)
  | FsCount
  (* OnChange, SetAgentCount, Manager.UpdateConfig *)
  | AddCallback (cb : nat)
  | SetAgents (n : Z)
  | StoreConfig (cfg : Config)
  (* Stop *)
  | CloseShutdown
  | Finished (err : option FedErr)
  | Crashed.

(** The [switch] of [handleResourceChange]. *)
Definition apply_thread (peer : string) (c : ResourceChange) : Thread :=
  match rc_ChangeType c with
  | CHANGE_TYPE_UNSPECIFIED => Finished None
  | CREATED | UPDATED => RcStore peer c
  | DELETED => RcDelete peer c
  | CHANGE_TYPE_UNKNOWN _ => RcCount
  end.

Definition notify_thread (c : ResourceChange) : Thread :=
  match rc_ChangeType c with
  | CREATED => RcNotify (change_key c) ChangeTypeCreated (rc_ResourceData c)
  | DELETED => RcNotify (change_key c) ChangeTypeDeleted ""
  | _ => RcNotify (change_key c) ChangeTypeUpdated (rc_ResourceData c)
  end.

(** What [handleResourceChange] does with the version it has loaded. *)
Definition decide_thread (peer : string) (c : ResourceChange) (now now' : Z)
    (existing : option TrackedResource) : Thread :=
  match existing with
  | Some e =>
      let existingVC := NewVectorClockFromMap (tr_VectorClock e) in
      let incomingVC := NewVectorClockFromMap (rc_VectorClock c) in
      if Concurrent existingVC (Some incomingVC) then CfCount e c now now'
      else if HappenedBefore incomingVC (Some existingVC) then Finished None
      else apply_thread peer c
  | None => apply_thread peer c
  end.

(** The part of [mergeResources] that only reads its arguments. *)
Definition merge_data (cd : Codecs) (local remote : string) : string + FedErr :=
  match jsonUnmarshal cd local with
  | None => inr ErrUnmarshalLocal
  | Some localData =>
      match jsonUnmarshal cd remote with
      | None => inr ErrUnmarshalRemote
      | Some remoteData =>
          match jsonMarshal cd (mergeMaps localData remoteData) with
          | None => inr ErrMarshalMerged
          | Some mergedData => inl mergedData
          end
      end
  end.

Definition strategy_thread (cd : Codecs) (strategy : string) (e : TrackedResource) (c : ResourceChange)
    (now now' : Z) : Thread :=
  if str_eqb strategy StrategyLastWriterWins then
    if time_After (rc_Timestamp c) (tr_LastModified e) then CfStoreRemote c else CfResolved
  else if str_eqb strategy "Merge" then
    match merge_data cd (tr_Data e) (rc_ResourceData c) with
    | inr err => CfPending e c now (Some err)
    | inl data => CfMergeClock e c data now'
    end
  else if str_eqb strategy "Manual" then CfPending e c now None
  else Finished None.

(** The version and the tombstone of a local change. *)
Definition local_resource (l : LocalChange) (member : PeerInfo) (clock : gmap string Z) : TrackedResource :=
  mkTrackedResource (lc_Key l) "" "" (lc_Data l) clock (pi_Name member) (lc_Now' l) (lc_Labels l).

Definition local_tombstone (l : LocalChange) (member : PeerInfo) (clock : gmap string Z) : Tombstone :=
  mkTombstone (lc_Key l) (lc_Now' l) clock (pi_Name member).

Definition local_entry (l : LocalChange) (res : option TrackedResource) (tomb : option Tombstone)
    (clock : gmap string Z) : ChangeEntry :=
  mkChangeEntry (lc_Uuid l) (lc_Key l) (lc_Type l) res tomb clock (lc_Now l) ∅.

Definition local_keyStr (l : LocalChange) : string := ResourceKey_String (lc_Key l).

(** The member of the configuration a thread has just loaded; without one the
    access panics. *)
Definition with_member (cfg : Config) (k : PeerInfo → Thread) : Thread :=
  match cf_LocalMember cfg with Some m => k m | None => Crashed end.

(** One access of a thread. *)
Definition exec (cd : Codecs) (s : Server) (p : Thread) : Server * Thread :=
  match p with
  | MsSeen peer msg now now' now'' =>
      (updatePeerState peer (set_ps_LastSeen now) s,
       match msg with
       | MsgChange c => RcMergeClock peer c now' now''
       | MsgAck a => PsAck peer a now'
       | MsgHeartbeat h => PsHeartbeat peer h now'
       | MsgConflict _ | MsgHandshake _ | MsgNone => Finished None
       end)
  | PsAck peer a now => (handleSyncAck peer a now s, Finished None)
  | PsHeartbeat peer h now => (handleHeartbeat peer h now s, Finished None)
  | RcMergeClock peer c now now' =>
      (set_vectorClock (MergeMap (sv_vectorClock s) (rc_VectorClock c)) s, RcLoad peer c now now')
  | RcLoad peer c now now' =>
      (s, decide_thread peer c now now' (sv_resources s !! change_keyStr c))
  | RcStore peer c =>
      (set_resources (<[change_keyStr c := change_version c]> (sv_resources s)) s, RcDropTombstone peer c)
  | RcDropTombstone peer c =>
      (set_tombstones (delete (change_keyStr c) (sv_tombstones s)) s,
       if str_eqb (rc_ResourceType c) "ServiceEndpoints" then RcEndpoints peer c else notify_thread c)
  | RcEndpoints peer c => (applyServiceEndpoints cd (rc_ResourceData c) peer s, notify_thread c)
  | RcDelete peer c =>
      (set_resources (delete (change_keyStr c) (sv_resources s)) s, RcTombstone peer c)
  | RcTombstone peer c =>
      (set_tombstones (<[change_keyStr c :=
         mkTombstone (change_key c) (rc_Timestamp c) (rc_VectorClock c) (rc_OriginMember c)]> (sv_tombstones s)) s,
       if str_eqb (rc_ResourceType c) "ServiceEndpoints" then RcForgetEndpoints peer c else notify_thread c)
  | RcForgetEndpoints peer c =>
      (deleteServiceEndpoints (rc_Namespace c) (rc_Name c) peer s, notify_thread c)
  | RcNotify key ct data => (notifyChange key ct data s, RcCount)
  | RcCount => (count_received s, Finished None)
  | CfCount e c now now' => (count_detected s, CfStrategy e c now now')
  | CfStrategy e c now now' =>
      (s, strategy_thread cd (cf_ConflictResolutionStrategy (sv_config s)) e c now now')
  | CfStoreRemote c =>
      (set_resources (<[change_keyStr c := change_version c]> (sv_resources s)) s, CfNotifyRemote c)
  | CfNotifyRemote c => (notifyChange (change_key c) ChangeTypeUpdated (rc_ResourceData c) s, CfResolved)
  | CfResolved => (count_resolved s, Finished None)
  | CfMergeClock e c data now' =>
      (s, with_member (sv_config s) (λ m,
        CfMergeOrigin e c data
          (ToMap (Increment (MergeMap (NewVectorClockFromMap (tr_VectorClock e)) (rc_VectorClock c)) (pi_Name m)).1)
          now'))
  | CfMergeOrigin e c data clock now' =>
      (s, with_member (sv_config s) (λ m,
        CfStoreMerged c (mkTrackedResource (tr_Key e) "" "" data clock (pi_Name m) now'
                           (mergeLabelMaps (tr_Labels e) (rc_Labels c)))))
  | CfStoreMerged c merged =>
      (set_resources (<[change_keyStr c := merged]> (sv_resources s)) s, CfResolvedMerged c merged)
  | CfResolvedMerged c merged => (count_resolved s, CfNotifyMerged c merged)
  | CfNotifyMerged c merged => (notifyChange (change_key c) ChangeTypeUpdated (tr_Data merged) s, Finished None)
  | CfPending e c now err =>
      (set_conflicts (<[change_keyStr c :=
         mkConflictInfo (change_key c) e (change_version c) now ConflictResolutionPendingManual true]> (sv_conflicts s)) s,
       Finished err)
  | LcConfig l => (s, with_member (sv_config s) (LcIncrement l))
  | LcIncrement l m => (set_vectorClock (Increment (sv_vectorClock s) (pi_Name m)).1 s, LcToMap l m)
  | LcToMap l m =>
      (s, (if decide (lc_Type l = ChangeTypeDeleted) then LcTombstone else LcStore) l m (ToMap (sv_vectorClock s)))
  | LcStore l m clock =>
      (set_resources (<[local_keyStr l := local_resource l m clock]> (sv_resources s)) s, LcDropTombstone l m clock)
  | LcDropTombstone l m clock =>
      (set_tombstones (delete (local_keyStr l) (sv_tombstones s)) s,
       LcFanOut (local_entry l (Some (local_resource l m clock)) None clock))
  | LcTombstone l m clock =>
      (set_tombstones (<[local_keyStr l := local_tombstone l m clock]> (sv_tombstones s)) s, LcDelete l m clock)
  | LcDelete l m clock =>
      (set_resources (delete (local_keyStr l) (sv_resources s)) s,
       LcFanOut (local_entry l None (Some (local_tombstone l m clock)) clock))
  | LcFanOut entry => (s, LcSend entry (reverse (map_to_list (sv_peerOutboxes s)).*2))
  | LcSend entry [] => (s, Finished None)
  | LcSend entry (ch :: chs) => (set_channels (alter (enqueue entry) ch (sv_channels s)) s, LcSend entry chs)
  | RvLoad ks useLocal =>
      (s, match sv_conflicts s !! ks with
          | None => Finished (Some (ErrConflictNotFound ks))
          | Some conflict => if useLocal then RvDelete ks else RvStore ks conflict
          end)
  | RvStore ks conflict =>
      (set_resources (<[ks := ci_RemoteVersion conflict]> (sv_resources s)) s, RvNotify ks conflict)
  | RvNotify ks conflict =>
      (notifyChange (ci_Key conflict) ChangeTypeUpdated (tr_Data (ci_RemoteVersion conflict)) s, RvDelete ks)
  | RvDelete ks => (set_conflicts (delete ks (sv_conflicts s)) s, RvCount)
  | RvCount => (count_resolved s, Finished None)
  | TcVisit now [] => (s, Finished None)
  | TcVisit now (ks :: order) =>
      (s, match sv_tombstones s !! ks with Some t => TcCheck now ks t order | None => TcVisit now order end)
  | TcCheck now ks t order =>
      (s, if decide (time_Sub now (tb_DeletionTime t) > cf_TombstoneTTL (sv_config s))
          then TcDelete now ks order else TcVisit now order)
  | TcDelete now ks order => (set_tombstones (delete ks (sv_tombstones s)) s, TcVisit now order)
  | StHandshake first send_ok now =>
      (s, match first with
          | Some (MsgHandshake h) =>
              let cfg := sv_config s in
              if negb (str_eqb (hs_FederationId h) (cf_FederationID cfg)) then Finished (Some ErrPermissionDenied)
              else if decide (hs_ProtocolVersion h ≠ ProtocolVersion) then Finished (Some ErrFailedPrecondition)
              else StPeer h cfg send_ok now
          | Some _ | None => Finished (Some ErrInvalidArgument)
          end)
  | StPeer h cfg send_ok now =>
      (updatePeerState (hs_MemberName h) (λ st,
         set_ps_VectorClock (Some (NewVectorClockFromMap (hs_VectorClock h)))
           (set_ps_LastSeen now (set_ps_Healthy true (set_ps_Connected true st)))) s,
       with_member cfg (λ _,
         if send_ok then StRegister (hs_MemberName h) else StGone (hs_MemberName h) (Some ErrStream)))
  | StRegister peer =>
      let ch := sv_nextChannel s in
      let s := set_nextChannel (S ch) (set_channels (<[ch := []]> (sv_channels s)) s) in
      (set_peerOutboxes (<[peer := ch]> (sv_peerOutboxes s)) s, StActive peer)
  | StActive peer => (set_activeStreams ({[peer]} ∪ sv_activeStreams s) s, Finished None)
  | StGone peer err => (updatePeerState peer (set_ps_Connected false) s, Finished err)
  | ClActive peer ch => (set_activeStreams (sv_activeStreams s ∖ {[peer]}) s, ClOutbox peer ch)
  | ClOutbox peer ch =>
      (set_channels (delete ch (sv_channels s)) (set_peerOutboxes (delete peer (sv_peerOutboxes s)) s),
       StGone peer None)
  | OgReceive peer ch send_ok =>
      match sv_channels s !! ch with
      | None | Some [] => (s, Finished None)
      | Some (change :: rest) =>
          (set_channels (<[ch := rest]> (sv_channels s)) s,
           if originated_at peer change then Finished None
           else if send_ok then OgCount else Finished (Some ErrStream))
      end
  | OgCount => (count_sent s, Finished None)
  | FsCheck req send_ok now =>
      (s, if negb (str_eqb (fr_FederationId req) (cf_FederationID (sv_config s)))
          then Finished (Some ErrPermissionDenied) else FsCooldown req send_ok now)
  | FsCooldown req send_ok now =>
      let '(s', err) := checkFullSyncCooldown (fr_RequesterMember req) now s in
      (s', match err with
           | Some e => Finished (Some e)
           | None => if send_ok then FsCount else Finished (Some ErrStream)
           end)
  | FsCount => (count_fullsync s, Finished None)
  | AddCallback cb => (OnChange cb s, Finished None)
  | SetAgents n => (SetAgentCount n s, Finished None)
  | StoreConfig cfg => (set_config cfg s, Finished None)
  | CloseShutdown => if sv_shutdown s then (s, Crashed) else (set_shutdown true s, Finished None)
  | Finished err => (s, Finished err)
  | Crashed => (s, Crashed)
  end.

(** ** The system *)

(** Where a goroutine of the program can start. *)
Definition entry_point (p : Thread) : bool :=
  match p with
  | MsSeen _ _ _ _ _ | RcMergeClock _ _ _ _ | LcConfig _ | RvLoad _ _ | TcVisit _ _ | StHandshake _ _ _
  | ClActive _ _ | OgReceive _ _ _ | FsCheck _ _ _ | AddCallback _ | SetAgents _ | StoreConfig _
  | CloseShutdown => true
  | _ => false
  end.

Definition stopped (p : Thread) : bool :=
  match p with Finished _ | Crashed => true | _ => false end.

Record System := mkSystem {
  sys_server : Server;
  sys_threads : gmap nat Thread;
}.

Inductive event :=
  | Spawn (i : nat) (p : Thread)
  | Run (i : nat).

Definition sys_step (cd : Codecs) (x : System) (ev : event) : option System :=
  match ev with
  | Spawn i p =>
      match sys_threads x !! i with
      | Some _ => None
      | None => if entry_point p then Some (mkSystem (sys_server x) (<[i := p]> (sys_threads x))) else None
      end
  | Run i =>
      match sys_threads x !! i with
      | Some p =>
          if stopped p then None
          else Some (mkSystem (exec cd (sys_server x) p).1 (<[i := (exec cd (sys_server x) p).2]> (sys_threads x)))
      | None => None
      end
  end.

(** The events are replayed in order; [allow] says which events the
    environment produces, and is asked before each of them. *)
Definition sys_exec (cd : Codecs) (allow : System → event → bool) (evs : list event) (x : System) : option System :=
  foldl (λ o ev, y ← o; if allow y ev then sys_step cd y ev else None) (Some x) evs.

Definition idle (s : Server) : System := mkSystem s ∅.

Definition any_event (x : System) (ev : event) : bool := true.

(** ** Undisturbed threads *)

(** [n] accesses of one thread with no other thread in between. *)
Fixpoint run_alone (cd : Codecs) (n : nat) (s : Server) (p : Thread) : Server * Thread :=
  match n with
  | O => (s, p)
  | S n => run_alone cd n (exec cd s p).1 (exec cd s p).2
  end.

(** Left alone in state [s], thread [p] gets to [p'] and state [s']. *)
Definition alone (cd : Codecs) (p : Thread) (s s' : Server) (p' : Thread) : Prop :=
  ∃ n, run_alone cd n s p = (s', p').

Lemma alone_refl cd p s : alone cd p s s p.
Proof. by exists O. Qed.

Lemma alone_exec cd p s s' p' :
  alone cd (exec cd s p).2 (exec cd s p).1 s' p' → alone cd p s s' p'.
Proof. intros [n Hn]. by exists (S n). Qed.

Lemma alone_stop cd p s s' p' : exec cd s p = (s', p') → alone cd p s s' p'.
Proof. intros E. apply alone_exec. rewrite E. apply alone_refl. Qed.

(** The thread that a handler's outcome corresponds to. *)
Definition ends (cd : Codecs) (p : Thread) (s : Server) (o : outcome (Server * option FedErr)) : Prop :=
  match o with
  | Returns (s', err) => alone cd p s s' (Finished err)
  | Panics => ∃ s', alone cd p s s' Crashed
  end.

#[local] Arguments ends : simpl never.

Lemma ends_exec cd p s o : ends cd (exec cd s p).2 (exec cd s p).1 o → ends cd p s o.
Proof. unfold ends. destruct o as [[s' err]|]; [apply alone_exec|intros [s' H]; exists s'; by apply alone_exec]. Qed.

Ltac access := apply ends_exec; cbn [exec fst snd].

Lemma ends_finished cd s err : ends cd (Finished err) s (Returns (s, err)).
Proof. apply alone_refl. Qed.

Lemma ends_crashed cd s : ends cd Crashed s Panics.
Proof. exists s. apply alone_refl. Qed.

Lemma apply_ends cd peer c s : ends cd (apply_thread peer c) s (Returns (applyChange cd peer c s, None)).
Proof.
  unfold apply_thread, applyChange. destruct (rc_ChangeType c) eqn:E; [apply ends_finished| | | |].
  - access. access. destruct (str_eqb _ "ServiceEndpoints"); [access|]; unfold notify_thread; rewrite E; access; access; apply ends_finished.
  - access. access. destruct (str_eqb _ "ServiceEndpoints"); [access|]; unfold notify_thread; rewrite E; access; access; apply ends_finished.
  - access. access. destruct (str_eqb _ "ServiceEndpoints"); [access|]; unfold notify_thread; rewrite E; access; access; apply ends_finished.
  - access. apply ends_finished.
Qed.

Lemma mergeResources_split cd cfg l r now :
  mergeResources cd cfg l r now =
    match merge_data cd (tr_Data l) (tr_Data r) with
    | inr err => Returns (inr err)
    | inl data =>
        let! m := deref (cf_LocalMember cfg) in
        Returns (inl (mkTrackedResource (tr_Key l) "" "" data
          (ToMap (Increment (MergeMap (NewVectorClockFromMap (tr_VectorClock l)) (tr_VectorClock r)) (pi_Name m)).1)
          (pi_Name m) now (mergeLabelMaps (tr_Labels l) (tr_Labels r))))
    end.
Proof. unfold mergeResources, merge_data. repeat case_match; simplify_eq; done. Qed.

Lemma conflict_ends cd c e now now' s :
  ends cd (CfCount e c now now') s (handleConflict cd (change_key c) e c now now' s).
Proof.
  access. access. unfold handleConflict, strategy_thread. cbn [sv_config count_detected set_stats].
  destruct (str_eqb _ StrategyLastWriterWins).
  - destruct (time_After _ _); [access; access|]; access; apply ends_finished.
  - destruct (str_eqb _ "Merge"); [|destruct (str_eqb _ "Manual"); [access|]; apply ends_finished].
    rewrite mergeResources_split. cbn [tr_Data change_resource]. destruct (merge_data _ _ _) as [data|err]; [|access; apply ends_finished].
    access. unfold with_member. cbn [sv_config count_detected set_stats].
    destruct (cf_LocalMember (sv_config s)) as [m|] eqn:Hm; cbn [deref outcome_bind]; [|apply ends_crashed].
    access. unfold with_member. cbn [sv_config count_detected set_stats]. rewrite Hm. access. access. access. apply ends_finished.
Qed.

Lemma change_ends cd peer c now now' s :
  ends cd (RcMergeClock peer c now now') s (handleResourceChange cd peer c now now' s).
Proof.
  access. access. unfold handleResourceChange, decide_thread. simpl.
  unfold change_keyStr. destruct (sv_resources s !! _) as [e|]; [|apply apply_ends].
  destruct (Concurrent _ _); [apply conflict_ends|]. destruct (HappenedBefore _ _); [apply ends_finished|apply apply_ends].
Qed.

Lemma send_ends cd entry chs s :
  ends cd (LcSend entry (reverse chs)) s
    (Returns (set_channels (foldr (λ ch chans, alter (enqueue entry) ch chans) (sv_channels s) chs) s, None)).
Proof.
  assert (∀ l s, ends cd (LcSend entry l) s
    (Returns (set_channels (foldl (λ chans ch, alter (enqueue entry) ch chans) (sv_channels s) l) s, None))) as H.
  { clear. intros l. induction l as [|ch l IH]; intros s; access.
    - replace (set_channels _ s) with s by (by destruct s). apply ends_finished.
    - exact (IH (set_channels (alter (enqueue entry) ch (sv_channels s)) s)). }
  assert (∀ chans, foldr (λ ch chans, alter (enqueue entry) ch chans) chans chs =
    foldl (λ chans ch, alter (enqueue entry) ch chans) chans (reverse chs)) as ->; [|apply H].
  intros chans. induction chs as [|ch chs IH]; simpl; [done|]. by rewrite reverse_cons, foldl_app, <- IH.
Qed.

Lemma map_fold_outboxes entry (outboxes : gmap string nat) (chans : gmap nat (list ChangeEntry)) :
  map_fold (λ _ ch chans, alter (enqueue entry) ch chans) chans outboxes =
    foldr (λ ch chans, alter (enqueue entry) ch chans) chans (map_to_list outboxes).*2.
Proof. rewrite map_fold_foldr. induction (map_to_list outboxes) as [|[p ch] l IH]; simpl; [done|]. by rewrite IH. Qed.

Lemma local_ends cd l s :
  ends cd (LcConfig l) s
    (let! s' := RecordLocalChange (lc_Key l) (lc_Type l) (lc_Data l) (lc_Labels l) (lc_Uuid l) (lc_Now l) (lc_Now' l) s in
     Returns (s', None)).
Proof.
  access. unfold RecordLocalChange, with_member. destruct (cf_LocalMember (sv_config s)) as [m|]; [|apply ends_crashed].
  access. access. unfold deref; simpl. destruct (decide (lc_Type l = ChangeTypeDeleted)) as [Hd|Hd]; simpl.
  - access. access. access. unfold fan_out. rewrite map_fold_outboxes. apply send_ends.
  - access. access. access. unfold fan_out. rewrite map_fold_outboxes. apply send_ends.
Qed.

Lemma resolve_ends cd ks useLocal s : ends cd (RvLoad ks useLocal) s (Returns (ResolveConflict ks useLocal s)).
Proof.
  access. unfold ResolveConflict. destruct (sv_conflicts s !! ks) as [ci|]; [|apply ends_finished].
  destruct useLocal; [|access; access]; access; access; apply ends_finished.
Qed.

Definition expired (cfg : Config) (now : Z) (t : Tombstone) : Prop :=
  time_Sub now (tb_DeletionTime t) > cf_TombstoneTTL cfg.

#[export] Instance expired_dec cfg now t : Decision (expired cfg now t).
Proof. unfold expired. apply _. Defined.

Lemma cleanup_visits cd now order s :
  ends cd (TcVisit now order) s (Returns (set_tombstones
    (filter (λ kv, ¬ (kv.1 ∈ order ∧ expired (sv_config s) now kv.2)) (sv_tombstones s)) s, None)).
Proof.
  revert s. induction order as [|ks order IH]; intros s; access.
  - rewrite map_filter_id by (intros k t _ [Hk _]; by apply not_elem_of_nil in Hk).
    replace (set_tombstones _ s) with s by (by destruct s). apply ends_finished.
  - assert (∀ s', set_tombstones (filter (λ kv, ¬ (kv.1 ∈ order ∧ expired (sv_config s') now kv.2)) (sv_tombstones s')) s' =
        set_tombstones (filter (λ kv, ¬ (kv.1 ∈ ks :: order ∧ expired (sv_config s) now kv.2)) (sv_tombstones s)) s →
      ends cd (TcVisit now order) s' (Returns (set_tombstones
        (filter (λ kv, ¬ (kv.1 ∈ ks :: order ∧ expired (sv_config s) now kv.2)) (sv_tombstones s)) s, None))) as Hgo.
    { intros s' <-. apply IH. }
    assert ((∀ t, sv_tombstones s !! ks = Some t → ¬ expired (sv_config s) now t) →
      ends cd (TcVisit now order) s (Returns (set_tombstones
        (filter (λ kv, ¬ (kv.1 ∈ ks :: order ∧ expired (sv_config s) now kv.2)) (sv_tombstones s)) s, None))) as Hskip.
    { intros Hn. apply Hgo. f_equal. apply map_filter_ext. intros k t Hk; simpl.
      rewrite elem_of_cons. split; [|tauto]. intros H [[->|Ho] Hx]; [by destruct (Hn t)|tauto]. }
    destruct (sv_tombstones s !! ks) as [t|] eqn:Ht; [|by apply Hskip].
    access. case_decide as Hx.
    + access. apply Hgo. simpl. unfold set_tombstones; simpl. f_equal.
      apply map_eq. intros k. apply option_eq. intros u.
      rewrite !map_lookup_filter_Some, lookup_delete_Some. simpl. rewrite elem_of_cons. split.
      * intros [[Hne Hu] H]. split; [done|]. intros [[->|Ho] He]; [done|tauto].
      * intros [Hu H]. split_and!; [|done|tauto]. intros <-. rewrite Ht in Hu. injection Hu as <-. apply H. auto.
    + apply Hskip. intros t' Ht'. congruence.
Qed.

Lemma cleanup_ends cd now order s :
  (∀ ks, is_Some (sv_tombstones s !! ks) → ks ∈ order) →
  ends cd (TcVisit now order) s (Returns (cleanupTombstones now s, None)).
Proof.
  intros Hall. replace (cleanupTombstones now s) with (set_tombstones
    (filter (λ kv, ¬ (kv.1 ∈ order ∧ expired (sv_config s) now kv.2)) (sv_tombstones s)) s); [apply cleanup_visits|].
  unfold cleanupTombstones. f_equal. apply map_filter_ext. intros k t Hk. simpl.
  assert (k ∈ order) by eauto. unfold expired. tauto.
Qed.

(** ** Runs *)

Lemma sys_exec_snoc cd allow evs ev x :
  sys_exec cd allow (evs ++ [ev]) x =
    (y ← sys_exec cd allow evs x; if allow y ev then sys_step cd y ev else None).
Proof. unfold sys_exec. by rewrite foldl_app. Qed.

Lemma sys_exec_app cd allow evs evs' x :
  sys_exec cd allow (evs ++ evs') x = (y ← sys_exec cd allow evs x; sys_exec cd allow evs' y).
Proof.
  induction evs' as [|ev evs' IH] using rev_ind; [rewrite app_nil_r; by destruct (sys_exec cd allow evs x)|].
  rewrite app_assoc, sys_exec_snoc, IH. destruct (sys_exec cd allow evs x) as [y|]; [|done]. simpl.
  by rewrite sys_exec_snoc.
Qed.

Lemma sys_exec_snoc_Some cd allow evs ev x z :
  sys_exec cd allow (evs ++ [ev]) x = Some z →
  ∃ y, sys_exec cd allow evs x = Some y ∧ allow y ev = true ∧ sys_step cd y ev = Some z.
Proof.
  rewrite sys_exec_snoc. destruct (sys_exec cd allow evs x) as [y|]; [|done]. simpl.
  destruct (allow y ev) eqn:E; [|done]. eauto.
Qed.

(** Rule induction on the events of a run. *)
Lemma sys_exec_ind cd allow (P : list event → System → Prop) x :
  P [] x →
  (∀ evs y ev z, sys_exec cd allow evs x = Some y → P evs y → allow y ev = true →
     sys_step cd y ev = Some z → P (evs ++ [ev]) z) →
  ∀ evs y, sys_exec cd allow evs x = Some y → P evs y.
Proof.
  intros H0 Hs evs. induction evs as [|ev evs IH] using rev_ind; intros z Hz; [by injection Hz as <-|].
  apply sys_exec_snoc_Some in Hz as (y & Hy & Ha & Hz). eauto.
Qed.

(** What one event does: a thread is added, or one makes an access. *)
Inductive stepped (cd : Codecs) (x : System) : event → System → Prop :=
  | stepped_spawn i p :
      sys_threads x !! i = None → entry_point p = true →
      stepped cd x (Spawn i p) (mkSystem (sys_server x) (<[i := p]> (sys_threads x)))
  | stepped_run i p s' p' :
      sys_threads x !! i = Some p → stopped p = false → exec cd (sys_server x) p = (s', p') →
      stepped cd x (Run i) (mkSystem s' (<[i := p']> (sys_threads x))).

Lemma sys_step_stepped cd x ev y : sys_step cd x ev = Some y → stepped cd x ev y.
Proof.
  unfold sys_step. destruct ev as [i p|i].
  - destruct (sys_threads x !! i) eqn:E; [done|]. destruct (entry_point p) eqn:Ep; [|done].
    intros [= <-]. by constructor.
  - destruct (sys_threads x !! i) as [p|] eqn:E; [|done]. destruct (stopped p) eqn:Ep; [done|].
    intros [= <-]. econstructor; eauto. by destruct (exec _ _ _).
Qed.

(** ** Well-formedness in every interleaving *)

(** The versions a thread carries for storing later are filed under the key it
    stores them at. *)
Definition thread_filed (p : Thread) : Prop :=
  match p with
  | CfCount e c _ _ | CfStrategy e c _ _ | CfMergeClock e c _ _ | CfMergeOrigin e c _ _ _ | CfStoreMerged c e =>
      ResourceKey_String (tr_Key e) = change_keyStr c
  | RvStore ks ci => ResourceKey_String (tr_Key (ci_RemoteVersion ci)) = ks
  | _ => True
  end.

Definition store_inv (s : Server) : Prop :=
  filed s ∧ outboxes_bounded s ∧ cache_wf (sv_endpointCache s).

Lemma apply_thread_filed peer c : thread_filed (apply_thread peer c).
Proof. unfold apply_thread. by destruct (rc_ChangeType c). Qed.

Lemma notify_thread_filed c : thread_filed (notify_thread c).
Proof. unfold notify_thread. by destruct (rc_ChangeType c). Qed.

Lemma exec_thread_filed cd s p : filed s → thread_filed p → thread_filed (exec cd s p).2.
Proof.
  intros (Hr & _ & Hc) Hp. destruct p; simpl in *; try done;
    try (by destruct (str_eqb _ _); [|apply notify_thread_filed]);
    try apply notify_thread_filed.
  - by destruct msg.
  - unfold decide_thread. destruct (sv_resources s !! _) as [e|] eqn:He; [|apply apply_thread_filed].
    destruct (Concurrent _ _); [by apply (Hr _ _ He)|]. destruct (HappenedBefore _ _); [done|apply apply_thread_filed].
  - unfold strategy_thread. by repeat (case_match; simpl; try done).
  - unfold with_member. by destruct (cf_LocalMember _).
  - unfold with_member. by destruct (cf_LocalMember _).
  - unfold with_member. by destruct (cf_LocalMember _).
  - by destruct (decide _).
  - by destruct chs.
  - destruct (sv_conflicts s !! ks) as [ci|] eqn:Hci; [|done]. destruct useLocal; [done|]. by apply (Hc _ _ Hci).
  - destruct order as [|ks order]; [done|]. simpl. by destruct (sv_tombstones s !! ks).
  - by case_decide.
  - destruct first as [[]|]; try done. destruct (negb _); [done|]. by case_decide.
  - unfold with_member. destruct (cf_LocalMember _); [|done]. by destruct send_ok.
  - destruct (sv_channels s !! ch) as [[|? ?]|]; try done. simpl. destruct (originated_at _ _); [done|]. by destruct send_ok.
  - by destruct (negb _).
  - destruct (checkFullSyncCooldown _ _ _) as [? []]; [done|]. by destruct send_ok.
  - by destruct (sv_shutdown s).
Qed.

(** Parts of the state an access leaves alone. *)
Lemma store_inv_ext s s' :
  sv_resources s' = sv_resources s → sv_tombstones s' = sv_tombstones s → sv_conflicts s' = sv_conflicts s →
  sv_channels s' = sv_channels s → sv_endpointCache s' = sv_endpointCache s → store_inv s → store_inv s'.
Proof. unfold store_inv, filed, outboxes_bounded. by intros -> -> -> -> ->. Qed.

Lemma store_inv_resources m s : 
  map_Forall (λ ks r, ResourceKey_String (tr_Key r) = ks) m → store_inv s → store_inv (set_resources m s).
Proof. by intros Hm ((_ & Ht & Hc) & Hb & Hw). Qed.

Lemma store_inv_tombstones m s :
  map_Forall (λ ks t, ResourceKey_String (tb_Key t) = ks) m → store_inv s → store_inv (set_tombstones m s).
Proof. by intros Hm ((Hr & _ & Hc) & Hb & Hw). Qed.

Lemma store_inv_conflicts m s :
  map_Forall (λ ks ci, ResourceKey_String (ci_Key ci) = ks ∧ ResourceKey_String (tr_Key (ci_RemoteVersion ci)) = ks) m →
  store_inv s → store_inv (set_conflicts m s).
Proof. by intros Hm ((Hr & Ht & _) & Hb & Hw). Qed.

Lemma store_inv_channels m s :
  map_Forall (λ _ q, (length q ≤ outboxCapacity)%nat) m → store_inv s → store_inv (set_channels m s).
Proof. by intros Hm ((Hr & Ht & Hc) & Hb & Hw). Qed.

Lemma exec_store_inv cd s p : store_inv s → thread_filed p → store_inv (exec cd s p).1.
Proof.
  intros Hs Hp. pose proof Hs as ((Hr & Ht & Hc) & Hb & Hw).
  destruct p; simpl in *; try done; try (by apply (store_inv_ext s));
    try (by apply store_inv_resources; [first [by apply map_Forall_insert_2|by apply map_Forall_delete]|]);
    try (by apply store_inv_tombstones; [first [by apply map_Forall_insert_2|by apply map_Forall_delete]|]).
  - unfold applyServiceEndpoints. destruct (protoUnmarshalServiceEndpoints _ _); [|done].
    destruct Hs as (Hf & ? & ?). split; [done|]. split; [done|]. by apply Update_wf.
  - destruct Hs as (Hf & ? & ?). split; [done|]. split; [done|]. by apply Delete_wf.
  - apply store_inv_conflicts; [|done]. by apply map_Forall_insert_2.
  - destruct chs as [|ch chs]; [done|]. apply store_inv_channels; [|done].
    intros i q Hq. apply lookup_alter_Some in Hq as [(-> & q' & Hq & ->)|[_ Hq]];
      [by apply enqueue_bounded, (Hb i)|by apply (Hb i)].
  - apply store_inv_conflicts; [|done]. by apply map_Forall_delete.
  - by destruct order.
  - apply (store_inv_ext (set_channels (<[sv_nextChannel s := []]> (sv_channels s)) s)); try done.
    apply store_inv_channels; [|done]. apply map_Forall_insert_2; [simpl; lia|done].
  - apply (store_inv_ext (set_channels (delete ch (sv_channels s)) s)); try done.
    apply store_inv_channels; [|done]. by apply map_Forall_delete.
  - destruct (sv_channels s !! ch) as [[|e q]|] eqn:Hq; try done. apply store_inv_channels; [|done].
    apply map_Forall_insert_2; [|done]. apply Hb in Hq. simpl in Hq. lia.
  - unfold checkFullSyncCooldown. destruct (sv_fullSyncCooldowns s !! _); [case_decide|]; by apply (store_inv_ext s).
  - by destruct (sv_shutdown s).
Qed.

Definition sys_filed (x : System) : Prop :=
  store_inv (sys_server x) ∧ map_Forall (λ _ p, thread_filed p) (sys_threads x).

Lemma sys_filed_step cd x ev y : sys_filed x → sys_step cd x ev = Some y → sys_filed y.
Proof.
  intros [Hs Ht] [i p Hi Hp|i p s' p' Hi Hp E]%sys_step_stepped.
  - split; [done|]. apply map_Forall_insert_2; [by destruct p|done].
  - pose proof (Ht _ _ Hi) as Hf. simpl in Hf.
    pose proof (exec_store_inv cd _ _ Hs Hf) as H1. pose proof (exec_thread_filed cd _ _ (proj1 Hs) Hf) as H2.
    rewrite E in H1, H2. split; [done|]. by apply map_Forall_insert_2.
Qed.

(** ** Causality in every interleaving *)

(** No counter of the server's clock has reached the int64 limit, so that the
    next local change does not wrap. *)
Definition room (s : Server) : Prop :=
  map_Forall (λ _ v, v < max_int64) (clocks (sv_vectorClock s)).

#[export] Instance room_dec s : Decision (room s).
Proof. unfold room. apply _. Defined.

Lemma room_Get s k : room s → Get (sv_vectorClock s) k < max_int64.
Proof. intros H. unfold Get, map_get. destruct (clocks _ !! k) eqn:E; [by apply (H k)|done]. Qed.

(** A merge never stores a negative counter, whatever the peer sends. *)
Lemma MergeMap_keeps_wf vc m : vc_wf vc → vc_wf (MergeMap vc m).
Proof.
  intros Hvc k v. rewrite lookup_MergeMap. destruct (m !! k) as [w|]; [|by apply Hvc].
  pose proof (Get_nonneg vc k Hvc). split_ifs; intros; simplify_eq; [lia|by apply (Hvc k)].
Qed.

Lemma exec_clock cd s p :
  room s → vc_wf (sv_vectorClock s) →
  vc_wf (sv_vectorClock (exec cd s p).1) ∧ vc_le (sv_vectorClock s) (sv_vectorClock (exec cd s p).1).
Proof.
  intros Hroom Hwf. assert (∀ s', sv_vectorClock s' = sv_vectorClock s →
    vc_wf (sv_vectorClock s') ∧ vc_le (sv_vectorClock s) (sv_vectorClock s')) as Hid by (by intros s' ->).
  destruct p; simpl; try (by apply Hid).
  - split; [by apply MergeMap_keeps_wf|apply MergeMap_ub_l].
  - apply Hid. unfold applyServiceEndpoints. by destruct (protoUnmarshalServiceEndpoints _ _).
  - split; [apply Increment_wf|apply Increment_le]; auto using room_Get.
  - by destruct chs; apply Hid.
  - by destruct order; apply Hid.
  - destruct (sv_channels s !! ch) as [[]|]; by apply Hid.
  - apply Hid. unfold checkFullSyncCooldown. destruct (sv_fullSyncCooldowns s !! _); [case_decide|]; done.
  - by destruct (sv_shutdown s); apply Hid.
Qed.

(** The clocks a thread is going to store are known to the server, and no
    thread merges versions. *)
Definition thread_known (vc : VectorClock) (p : Thread) : Prop :=
  match p with
  | RcLoad _ c _ _ | RcStore _ c | RcDelete _ c | RcTombstone _ c | CfCount _ c _ _ | CfStrategy _ c _ _
  | CfStoreRemote c | CfPending _ c _ _ => vc_le (change_clock c) vc
  | LcStore _ _ clock | LcTombstone _ _ clock => vc_le (mkVectorClock clock) vc
  | RvStore _ ci => vc_le (version_clock (ci_RemoteVersion ci)) vc
  | CfMergeClock _ _ _ _ | CfMergeOrigin _ _ _ _ _ | CfStoreMerged _ _ => False
  | StoreConfig cfg => cf_ConflictResolutionStrategy cfg ≠ "Merge"%string
  | _ => True
  end.

Lemma thread_known_mono vc vc' p : vc_le vc vc' → thread_known vc p → thread_known vc' p.
Proof. intros Hle. destruct p; simpl; try done; intros; by etrans. Qed.

Lemma notify_thread_known vc c : thread_known vc (notify_thread c).
Proof. unfold notify_thread. by destruct (rc_ChangeType c). Qed.

Lemma apply_thread_known vc peer c : vc_le (change_clock c) vc → thread_known vc (apply_thread peer c).
Proof. unfold apply_thread. by destruct (rc_ChangeType c). Qed.

Lemma exec_thread_known cd s p :
  vc_wf (sv_vectorClock s) → ¬ merges s → clock_dominates s → thread_known (sv_vectorClock s) p →
  thread_known (sv_vectorClock (exec cd s p).1) (exec cd s p).2.
Proof.
  intros Hwf Hnm (Hr & _ & Hc) Hp. destruct p; simpl in *; try done;
    try (by destruct (str_eqb _ _); [|apply notify_thread_known]); try apply notify_thread_known.
  - by destruct msg.
  - by apply MergeMap_ub_r.
  - unfold decide_thread. destruct (sv_resources s !! _) as [e|]; [|by apply apply_thread_known].
    destruct (Concurrent _ _); [done|]. destruct (HappenedBefore _ _); [done|by apply apply_thread_known].
  - unfold strategy_thread. destruct (str_eqb _ StrategyLastWriterWins); [by destruct (time_After _ _)|].
    destruct (str_eqb _ "Merge") eqn:E; [by apply str_eqb_true in E|]. by destruct (str_eqb _ "Manual").
  - unfold with_member. by destruct (cf_LocalMember _).
  - rewrite ToMap_id. destruct (decide _); simpl; intros k; done.
  - by destruct chs.
  - destruct (sv_conflicts s !! ks) as [ci|] eqn:Hci; [|done]. destruct useLocal; [done|]. by apply (Hc _ _ Hci).
  - destruct order as [|ks order]; [done|]. simpl. by destruct (sv_tombstones s !! ks).
  - by case_decide.
  - destruct first as [[]|]; try done. destruct (negb _); [done|]. by case_decide.
  - unfold with_member. destruct (cf_LocalMember _); [|done]. by destruct send_ok.
  - destruct (sv_channels s !! ch) as [[|? ?]|]; try done. simpl. destruct (originated_at _ _); [done|]. by destruct send_ok.
  - by destruct (negb _).
  - destruct (checkFullSyncCooldown _ _ _) as [? []]; [done|]. by destruct send_ok.
  - by destruct (sv_shutdown s).
Qed.

Lemma exec_dominates cd s p :
  room s → vc_wf (sv_vectorClock s) → ¬ merges s → clock_dominates s → thread_known (sv_vectorClock s) p →
  ¬ merges (exec cd s p).1 ∧ clock_dominates (exec cd s p).1.
Proof.
  intros Hroom Hwf Hnm Hd Hp. pose proof (exec_clock cd s p Hroom Hwf) as [_ Hle].
  apply (clock_dominates_weaken s _ Hle) in Hd as (Hr & Ht & Hc). clear Hle.
  assert (∀ s', sv_config s' = sv_config s → sv_vectorClock s' = sv_vectorClock (exec cd s p).1 →
    sv_resources s' = sv_resources s → sv_tombstones s' = sv_tombstones s → sv_conflicts s' = sv_conflicts s →
    ¬ merges s' ∧ clock_dominates s') as Hid.
  { intros s' E1 E2 E3 E4 E5. unfold merges, clock_dominates. rewrite E1, E2, E3, E4, E5. done. }
  destruct p; simpl in *; try done; try (by apply Hid);
    try (split; [done|]; split_and!; try done; first [by apply map_Forall_insert_2|by apply map_Forall_delete]).
  - apply Hid; unfold applyServiceEndpoints; by destruct (protoUnmarshalServiceEndpoints _ _).
  - destruct chs; by apply Hid.
  - destruct order; by apply Hid.
  - destruct (sv_channels s !! ch) as [[]|]; by apply Hid.
  - apply Hid; unfold checkFullSyncCooldown; destruct (sv_fullSyncCooldowns s !! _); try case_decide; done.
  - destruct (sv_shutdown s); by apply Hid.
Qed.

(** ** Properties of every run *)

Definition with_room (x : System) (ev : event) : bool := bool_decide (room (sys_server x)).

(** No configuration of the run resolves conflicts by merging. *)
Definition no_merge (x : System) (ev : event) : bool :=
  with_room x ev &&
  match ev with
  | Spawn _ (StoreConfig cfg) => negb (str_eqb (cf_ConflictResolutionStrategy cfg) "Merge")
  | _ => true
  end.

Lemma with_room_step cd x ev y :
  with_room x ev = true → vc_wf (sv_vectorClock (sys_server x)) → sys_step cd x ev = Some y →
  vc_wf (sv_vectorClock (sys_server y)) ∧ vc_le (sv_vectorClock (sys_server x)) (sv_vectorClock (sys_server y)).
Proof.
  intros Hroom%bool_decide_eq_true Hwf [i p Hi Hp|i p s' p' Hi Hp E]%sys_step_stepped; [done|].
  pose proof (exec_clock cd _ p Hroom Hwf) as H. by rewrite E in H.
Qed.

Definition sys_known (x : System) : Prop :=
  let s := sys_server x in
  vc_wf (sv_vectorClock s) ∧ ¬ merges s ∧ clock_dominates s ∧
  map_Forall (λ _ p, thread_known (sv_vectorClock s) p) (sys_threads x).

Lemma no_merge_room x ev : no_merge x ev = true → with_room x ev = true.
Proof. unfold no_merge. intros H. by bool_prop. Qed.

Lemma sys_known_step cd x ev y :
  no_merge x ev = true → sys_known x → sys_step cd x ev = Some y → sys_known y.
Proof.
  intros Ha (Hwf & Hnm & Hd & Ht) Hstep.
  pose proof (with_room_step cd x ev y (no_merge_room _ _ Ha) Hwf Hstep) as [Hwf' Hle].
  unfold no_merge, with_room in Ha. apply andb_true_iff in Ha as [Hroom%bool_decide_eq_true Hcfg].
  destruct (sys_step_stepped _ _ _ _ Hstep) as [i p Hi Hp|i p s' p' Hi Hp E].
  - split_and!; try done. apply map_Forall_insert_2; [|done]. destruct p; try done. simpl in *.
    intros E. by rewrite E in Hcfg.
  - pose proof (Ht _ _ Hi) as Hk. simpl in Hk.
    pose proof (exec_dominates cd _ _ Hroom Hwf Hnm Hd Hk) as [Hnm' Hd'].
    pose proof (exec_thread_known cd _ _ Hwf Hnm Hd Hk) as Hk'. rewrite E in Hnm', Hd', Hk'.
    split_and!; try done. apply map_Forall_insert_2; [done|].
    intros j q Hj. eapply thread_known_mono; [exact Hle|]. by apply (Ht j).
Qed.

Lemma sys_known_exec cd evs x y :
  sys_known x → sys_exec cd no_merge evs x = Some y →
  sys_known y ∧ vc_le (sv_vectorClock (sys_server x)) (sv_vectorClock (sys_server y)).
Proof.
  intros Hx. apply (sys_exec_ind cd no_merge
    (λ _ y, sys_known y ∧ vc_le (sv_vectorClock (sys_server x)) (sv_vectorClock (sys_server y)))); [done|].
  intros evs' z ev w _ [Hz Hle] Ha Hstep. split; [by eapply sys_known_step|].
  etrans; [exact Hle|]. eapply with_room_step; eauto using no_merge_room. apply Hz.
Qed.

Lemma sys_known_start cfg :
  cf_ConflictResolutionStrategy (default DefaultConfig cfg) ≠ "Merge"%string → sys_known (idle (NewServer cfg)).
Proof.
  intros Hnm. split_and!; [apply NewServer_vectorClock_wf|done| |apply map_Forall_empty].
  split_and!; apply map_Forall_empty.
Qed.

(** C1: the server's store is well formed at every instant. Whatever goroutines
    run, however their accesses interleave, whatever peers send and however
    often the configuration is replaced, every resource, tombstone and pending
    conflict is filed under the string of its own key, no outbox exceeds its
    capacity and the endpoint cache holds no empty cluster. When in addition no
    counter of the server's clock has reached the int64 limit before any
    event of the run, the clock has no negative counter. *)
Theorem server_inv_interleaved (cd : Codecs) (cfg : option Config) (evs : list event) (y : System)
    (Hrun : sys_exec cd any_event evs (idle (NewServer cfg)) = Some y) :
  store_inv (sys_server y) ∧
  (sys_exec cd with_room evs (idle (NewServer cfg)) = Some y → vc_wf (sv_vectorClock (sys_server y))).
Proof.
  split.
  - cut (sys_filed y); [by intros []|]. revert Hrun.
    apply (sys_exec_ind cd any_event (λ _ y, sys_filed y)); [|eauto using sys_filed_step].
    split; [|apply map_Forall_empty]. unfold store_inv, filed, outboxes_bounded.
    simpl; split_and!; apply map_Forall_empty.
  - apply (sys_exec_ind cd with_room (λ _ y, vc_wf (sv_vectorClock (sys_server y)))); [apply NewServer_vectorClock_wf|].
    intros evs' x ev z _ Hwf Ha Hstep. by eapply with_room_step.
Qed.

(** How far the goroutine of the local change [l] has got since the server's
    clock was [V]. *)
Definition local_progress (V : VectorClock) (l : LocalChange) (m : PeerInfo) (vc : VectorClock) (p : Thread) : Prop :=
  match p with
  | LcIncrement l' m' => l' = l ∧ m' = m ∧ vc_le V vc
  | LcToMap l' m' => l' = l ∧ m' = m ∧ vc_lt V vc
  | LcStore l' m' clock => l' = l ∧ m' = m ∧ vc_lt V (mkVectorClock clock)
  | LcTombstone l' m' clock => l' = l ∧ m' = m ∧ vc_lt V (mkVectorClock clock)
  | LcDropTombstone _ _ _ | LcDelete _ _ _ | LcFanOut _ | LcSend _ _ | Finished _ => True
  | _ => False
  end.

Lemma vc_lt_le_trans a b c : vc_lt a b → vc_le b c → vc_lt a c.
Proof.
  intros [Hab [k Hk]] Hbc. split; [by etrans|]. exists k. specialize (Hbc k). lia.
Qed.

Lemma local_progress_mono V l m vc vc' p :
  vc_le vc vc' → local_progress V l m vc p → local_progress V l m vc' p.
Proof. intros Hle. destruct p; simpl; try done; intros (? & ? & H); split_and!; try done; [by etrans|by eapply vc_lt_le_trans]. Qed.

Lemma exec_local_progress cd V l m s p :
  room s → vc_wf (sv_vectorClock s) → local_progress V l m (sv_vectorClock s) p →
  local_progress V l m (sv_vectorClock (exec cd s p).1) (exec cd s p).2.
Proof.
  intros Hroom Hwf Hp. destruct p; simpl in *; try done.
  - destruct Hp as (-> & -> & Hle). split_and!; try done. split.
    + etrans; [exact Hle|]. apply Increment_le; auto using room_Get.
    + exists (pi_Name m). specialize (Hle (pi_Name m)).
      change (mkVectorClock _) with (Increment (sv_vectorClock s) (pi_Name m)).1.
      rewrite Get_Increment, decide_True by done.
      pose proof (Get_nonneg _ (pi_Name m) Hwf). pose proof (room_Get s (pi_Name m) Hroom).
      rewrite wrap64_small; [lia|]. unfold int64_range, min_int64, max_int64 in *. lia.
  - destruct Hp as (-> & -> & Hlt). rewrite ToMap_id. destruct (decide _); simpl; split_and!; try done.
  - by destruct chs.
Qed.

Lemma local_progress_exec cd evs V l m i x y :
  sys_known x → local_progress V l m (sv_vectorClock (sys_server x)) (default Crashed (sys_threads x !! i)) →
  sys_exec cd no_merge evs x = Some y →
  sys_known y ∧ local_progress V l m (sv_vectorClock (sys_server y)) (default Crashed (sys_threads y !! i)).
Proof.
  intros Hx Hp. apply (sys_exec_ind cd no_merge (λ _ y, sys_known y ∧
    local_progress V l m (sv_vectorClock (sys_server y)) (default Crashed (sys_threads y !! i)))); [done|].
  intros evs' z ev w _ [Hz Hpz] Ha Hstep. split; [by eapply sys_known_step|].
  pose proof Hz as (Hwf & _).
  pose proof (with_room_step cd z ev w (no_merge_room _ _ Ha) Hwf Hstep) as [_ Hle].
  apply andb_true_iff in Ha as [Hroom%bool_decide_eq_true _].
  destruct (sys_step_stepped _ _ _ _ Hstep) as [j p Hj Hpj|j p s' p' Hj Hpj E]; simpl in *;
    (destruct (decide (j = i)) as [->|Hne]; [rewrite lookup_insert_eq|rewrite lookup_insert_ne by done]).
  - by rewrite Hj in Hpz.
  - done.
  - rewrite Hj in Hpz. simpl in *. pose proof (exec_local_progress cd V l m _ p Hroom Hwf Hpz) as H. by rewrite E in H.
  - by eapply local_progress_mono.
Qed.

(** C2: the writes of a controller supersede everything it has seen, in every
    interleaving. Take a run in which no counter of the server's clock reaches
    the int64 limit and in which no configuration, the first one included, uses
    the Merge strategy. Then at every instant the clock of every tracked
    resource, tombstone and pending conflict is below the server's clock, and
    the clock with which [RecordLocalChange] is about to publish its change is
    strictly after the clock of everything that was tracked when it incremented
    the server's clock; its next access stores the change with that clock. *)
Theorem local_change_supersedes (cd : Codecs) (cfg : option Config) (evs evs' : list event) (y z : System)
    (i : nat) (l : LocalChange) (m : PeerInfo) (clock : gmap string Z)
    (Hnm : cf_ConflictResolutionStrategy (default DefaultConfig cfg) ≠ "Merge"%string)
    (Hrun : sys_exec cd no_merge evs (idle (NewServer cfg)) = Some y)
    (Hi : sys_threads y !! i = Some (LcIncrement l m))
    (Hrun' : sys_exec cd no_merge evs' y = Some z)
    (Hz : sys_threads z !! i = Some ((if decide (lc_Type l = ChangeTypeDeleted) then LcTombstone else LcStore) l m clock)) :
  let s := sys_server y in
  clock_dominates s ∧ clock_dominates (sys_server z) ∧
  (∀ ks r, sv_resources s !! ks = Some r → vc_lt (version_clock r) (mkVectorClock clock)) ∧
  (∀ ks t, sv_tombstones s !! ks = Some t → vc_lt (mkVectorClock (tb_VectorClock t)) (mkVectorClock clock)) ∧
  (∀ ks ci, sv_conflicts s !! ks = Some ci → vc_lt (version_clock (ci_RemoteVersion ci)) (mkVectorClock clock)) ∧
  ∃ w, sys_step cd z (Run i) = Some w ∧
    if decide (lc_Type l = ChangeTypeDeleted)
    then sv_tombstones (sys_server w) !! local_keyStr l = Some (local_tombstone l m clock)
    else sv_resources (sys_server w) !! local_keyStr l = Some (local_resource l m clock).
Proof.
  pose proof (sys_known_exec cd evs _ y (sys_known_start cfg Hnm) Hrun) as [Hy _].
  pose proof (local_progress_exec cd evs' (sv_vectorClock (sys_server y)) l m i y z Hy) as Hpz.
  rewrite Hi in Hpz. destruct Hpz as [Hkz Hpz]; [by split_and!|done|].
  rewrite Hz in Hpz. pose proof Hy as (_ & _ & (Hr & Ht & Hc) & _). pose proof Hkz as (_ & _ & Hdz & _).
  assert (vc_lt (sv_vectorClock (sys_server y)) (mkVectorClock clock)) as Hlt.
  { destruct (decide _); apply Hpz. }
  assert (∀ vc, vc_le vc (sv_vectorClock (sys_server y)) → vc_lt vc (mkVectorClock clock)) as Hbelow.
  { intros vc [Hle [k Hk]]%(λ H, conj H (proj2 Hlt)). split; [etrans; [exact Hle|apply Hlt]|].
    exists k. specialize (Hle k). lia. }
  intros s. split_and!; [done|done|intros; eapply Hbelow, Hr; eauto|intros; eapply Hbelow, Ht; eauto
    |intros; eapply Hbelow, Hc; eauto|].
  unfold sys_step. rewrite Hz. destruct (decide _); simpl; eexists; (split; [done|]); simpl; by rewrite lookup_insert_eq.
Qed.

(** ** Convergence of last-writer-wins in interleaved runs *)

(** The resource a thread may still store or delete. *)
Definition thread_key (p : Thread) : option string :=
  match p with
  | MsSeen _ (MsgChange c) _ _ _ | RcMergeClock _ c _ _ | RcLoad _ c _ _ | RcStore _ c | RcDelete _ c
  | CfCount _ c _ _ | CfStrategy _ c _ _ | CfStoreRemote c | CfMergeClock _ c _ _ | CfMergeOrigin _ c _ _ _
  | CfStoreMerged c _ => Some (change_keyStr c)
  | LcConfig l | LcIncrement l _ | LcToMap l _ | LcStore l _ _ | LcTombstone l _ _ | LcDelete l _ _ =>
      Some (local_keyStr l)
  | RvLoad ks _ | RvStore ks _ => Some ks
  | _ => None
  end.

Definition quiet (ks : string) (x : System) : Prop :=
  map_Forall (λ _ p, thread_key p ≠ Some ks) (sys_threads x).

#[export] Instance quiet_dec ks x : Decision (quiet ks x).
Proof. unfold quiet. apply _. Defined.

(** The change a goroutine starts to deliver. *)
Definition thread_delivery (p : Thread) : option ResourceChange :=
  match p with
  | MsSeen _ (MsgChange c) _ _ _ | RcMergeClock _ c _ _ => Some c
  | _ => None
  end.

Definition event_delivery (ks : string) (ev : event) : option ResourceChange :=
  match ev with
  | Spawn _ p => c ← thread_delivery p; if decide (change_keyStr c = ks) then Some c else None
  | Run _ => None
  end.

(** The changes of the resource [ks] delivered in a run, in the order in which
    their handlers start. *)
Definition deliveries (ks : string) (evs : list event) : list ResourceChange := omap (event_delivery ks) evs.

Definition keeps_lww (p : Thread) : bool :=
  match p with
  | StoreConfig cfg => str_eqb (cf_ConflictResolutionStrategy cfg) StrategyLastWriterWins
  | _ => true
  end.

(** Only deliveries concern the resource, a delivery starts when no other
    goroutine is about to store it, and every new configuration uses
    last-writer-wins. *)
Definition one_at_a_time (ks : string) (x : System) (ev : event) : bool :=
  match ev with
  | Run _ => true
  | Spawn _ p =>
      keeps_lww p &&
      if decide (thread_key p = Some ks)
      then bool_decide (is_Some (thread_delivery p)) && bool_decide (quiet ks x)
      else true
  end.

Lemma notify_thread_key c : thread_key (notify_thread c) = None.
Proof. unfold notify_thread. by destruct (rc_ChangeType c). Qed.

Lemma apply_thread_key ks peer c : change_keyStr c ≠ ks → thread_key (apply_thread peer c) ≠ Some ks.
Proof. unfold apply_thread. destruct (rc_ChangeType c); simpl; congruence. Qed.

(** An access of a thread that does not concern the resource. *)
Lemma exec_frame cd ks s p :
  thread_key p ≠ Some ks →
  sv_resources (exec cd s p).1 !! ks = sv_resources s !! ks ∧ thread_key (exec cd s p).2 ≠ Some ks.
Proof.
  intros Hk. assert (∀ k, Some k ≠ Some ks → k ≠ ks) as Hne by congruence.
  destruct p; simpl in *; try done;
    try (by split; [|destruct (str_eqb _ _)]; rewrite ?notify_thread_key);
    try (by split; [rewrite ?lookup_insert_ne, ?lookup_delete_ne by auto|]);
    try (by split; [|rewrite notify_thread_key]).
  - by destruct msg.
  - split; [done|]. unfold decide_thread. apply Hne in Hk. destruct (sv_resources s !! _); [|by apply apply_thread_key].
    destruct (Concurrent _ _); [simpl; congruence|]. destruct (HappenedBefore _ _); [done|by apply apply_thread_key].
  - unfold applyServiceEndpoints. rewrite notify_thread_key. by destruct (protoUnmarshalServiceEndpoints _ _).
  - split; [done|]. unfold strategy_thread. by repeat (case_match; simpl; try done).
  - split; [done|]. unfold with_member. by destruct (cf_LocalMember _).
  - split; [done|]. unfold with_member. by destruct (cf_LocalMember _).
  - split; [done|]. unfold with_member. by destruct (cf_LocalMember _).
  - split; [done|]. by destruct (decide _).
  - by destruct chs.
  - split; [done|]. destruct (sv_conflicts s !! _); [|done]. by destruct useLocal.
  - destruct order as [|k order]; [done|]. split; [done|]. simpl. by destruct (sv_tombstones s !! k).
  - split; [done|]. by case_decide.
  - split; [done|]. destruct first as [[]|]; try done. destruct (negb _); [done|]. by case_decide.
  - split; [done|]. unfold with_member. destruct (cf_LocalMember _); [|done]. by destruct send_ok.
  - destruct (sv_channels s !! ch) as [[|? ?]|]; try done. simpl. split; [done|].
    destruct (originated_at _ _); [done|]. by destruct send_ok.
  - unfold checkFullSyncCooldown. destruct (sv_fullSyncCooldowns s !! _); [case_decide|]; by destruct send_ok.
  - by destruct (sv_shutdown s).
Qed.

Lemma exec_keeps_lww cd s p : lww s → keeps_lww p = true → lww (exec cd s p).1 ∧ keeps_lww (exec cd s p).2 = true.
Proof.
  intros Hl Hp. assert (∀ s', sv_config s' = sv_config s → lww s') as Hid by (unfold lww; by intros s' ->).
  assert (keeps_lww (exec cd s p).2 = true) as Hk.
  { destruct p; simpl; try done; unfold decide_thread, apply_thread, notify_thread, strategy_thread, with_member;
      repeat (case_match; simpl; try done). }
  split; [|done]. destruct p; simpl; try (by apply Hid); try done; try (by apply str_eqb_true in Hp).
  - apply Hid. unfold applyServiceEndpoints. by destruct (protoUnmarshalServiceEndpoints _ _).
  - by destruct chs.
  - by destruct order.
  - by destruct (sv_channels s !! ch) as [[]|].
  - unfold checkFullSyncCooldown. destruct (sv_fullSyncCooldowns s !! _); [case_decide|]; by apply Hid.
  - by destruct (sv_shutdown s).
Qed.

(** What the server tracks after the changes [cs]. *)
Definition tracks (cs : list ResourceChange) (o : option TrackedResource) : Prop :=
  match cs with
  | [] => o = None
  | _ => ∃ r, o = Some r ∧ newest_version cs r
  end.

Lemma tracks_pick ks all cs c o :
  consistent_writes ks all → (∀ d, d ∈ cs ++ [c] → d ∈ all) → tracks cs o →
  tracks (cs ++ [c]) (Some (lww_pick o c)).
Proof.
  intros Hcons Hsub Ht. destruct cs as [|c0 cs]; simpl in *.
  - subst o. eexists. split; [done|]. exists c. split_and!; [by apply list_elem_of_singleton|done|].
    intros d ->%list_elem_of_singleton. done.
  - destruct Ht as (r & -> & Hnew). eexists. split; [done|]. rewrite app_comm_cons.
    eapply lww_pick_newest; eauto.
    + intros d Hd. apply Hsub. rewrite app_comm_cons. apply elem_of_app. by left.
    + apply Hsub. rewrite app_comm_cons. apply elem_of_app. right. by apply list_elem_of_singleton.
Qed.

(** Where the handler of the change [c] is before it stores, when the server
    tracks [o]. *)
Definition at_work (c : ResourceChange) (o : option TrackedResource) (p : Thread) : Prop :=
  match p with
  | MsSeen _ (MsgChange c') _ _ _ | RcMergeClock _ c' _ _ | RcLoad _ c' _ _ => c' = c
  | RcStore _ c' | CfStoreRemote c' => c' = c ∧ lww_pick o c = change_version c
  | CfCount e c' _ _ | CfStrategy e c' _ _ =>
      c' = c ∧ o = Some e ∧ Concurrent (version_clock e) (Some (change_clock c)) = true
  | _ => False
  end.

(** One access of the handler: it is still at work, or the resource has been
    settled by last-writer-wins. *)
Lemma exec_at_work cd c s p :
  lww s → is_write c → at_work c (sv_resources s !! change_keyStr c) p →
  let '(s', p') := exec cd s p in
  sv_resources s' !! change_keyStr c = sv_resources s !! change_keyStr c ∧
    at_work c (sv_resources s !! change_keyStr c) p' ∨
  sv_resources s' !! change_keyStr c = Some (lww_pick (sv_resources s !! change_keyStr c) c) ∧
    thread_key p' = None.
Proof.
  intros Hl Hw Hp. assert (∀ peer, apply_thread peer c = RcStore peer c) as Happ.
  { intros peer. unfold apply_thread. by destruct Hw as [-> | ->]. }
  destruct p; simpl in *; try done.
  - destruct msg; try done. by left.
  - subst c0. by left.
  - subst c0. unfold decide_thread. destruct (sv_resources s !! change_keyStr c) as [e|] eqn:He; simpl in *.
    + rewrite !NewVectorClockFromMap_id, Happ.
      change (mkVectorClock (tr_VectorClock e)) with (version_clock e).
      change (mkVectorClock (rc_VectorClock c)) with (change_clock c).
      destruct (Concurrent _ _) eqn:Hc; [left; by split_and!|].
      destruct (HappenedBefore _ _) eqn:Hb.
      * by right.
      * left. simpl. by rewrite Hc, Hb.
    + rewrite Happ. by left.
  - destruct Hp as [-> Hpick]. right. by rewrite lookup_insert_eq, Hpick.
  - destruct Hp as (-> & He & Hc). by left.
  - destruct Hp as (-> & He & Hc). unfold strategy_thread. unfold lww in Hl. rewrite Hl.
    rewrite (proj2 (str_eqb_true _ _)) by done. rewrite He in *. simpl. rewrite Hc.
    destruct (time_After _ _) eqn:Ht; [|by right]. left. simpl. by rewrite Hc, Ht.
  - destruct Hp as [-> Hpick]. right. by rewrite lookup_insert_eq, Hpick.
Qed.

(** The state of a run that delivers one change at a time: the resource is
    settled, or exactly one handler is at work on the last delivery. *)
Definition lww_run (ks : string) (evs : list event) (x : System) : Prop :=
  let o := sv_resources (sys_server x) !! ks in
  lww (sys_server x) ∧ map_Forall (λ _ p, keeps_lww p = true) (sys_threads x) ∧
  (quiet ks x ∧ tracks (deliveries ks evs) o ∨
   ∃ i p c cs, deliveries ks evs = cs ++ [c] ∧ sys_threads x !! i = Some p ∧
     (∀ j q, sys_threads x !! j = Some q → j ≠ i → thread_key q ≠ Some ks) ∧ tracks cs o ∧ at_work c o p).

Lemma deliveries_snoc ks evs ev :
  deliveries ks (evs ++ [ev]) = deliveries ks evs ++ option_list (event_delivery ks ev).
Proof. unfold deliveries. rewrite omap_app. simpl. by destruct (event_delivery ks ev). Qed.

Lemma thread_delivery_key p c : thread_delivery p = Some c → thread_key p = Some (change_keyStr c).
Proof. destruct p; simpl; try done; [destruct msg; try done|]; by intros [= <-]. Qed.

Lemma at_work_key c o p : at_work c o p → thread_key p = Some (change_keyStr c).
Proof. destruct p; simpl; try done; [destruct msg; try done; by intros ->|..]; first [by intros ->|by intros (-> & _)]. Qed.

Lemma delivery_at_work o p c : thread_delivery p = Some c → at_work c o p.
Proof. destruct p; simpl; try done; [destruct msg; try done|]; by intros [= <-]. Qed.

Lemma deliveries_key ks evs c : c ∈ deliveries ks evs → change_keyStr c = ks.
Proof.
  unfold deliveries. intros (ev & _ & Hev)%list_elem_of_omap. destruct ev as [i p|i]; simpl in Hev; [|done].
  destruct (thread_delivery p) as [d|]; simpl in Hev; [|done]. case_decide; [|done]. by injection Hev as <-.
Qed.

Lemma deliveries_last_key ks evs cs c : deliveries ks evs = cs ++ [c] → change_keyStr c = ks.
Proof. intros E. apply (deliveries_key _ evs). rewrite E. apply elem_of_app. right. by apply list_elem_of_singleton. Qed.

Lemma lww_run_spawn ks evs x i p :
  lww_run ks evs x → sys_threads x !! i = None → one_at_a_time ks x (Spawn i p) = true →
  lww_run ks (evs ++ [Spawn i p]) (mkSystem (sys_server x) (<[i := p]> (sys_threads x))).
Proof.
  intros (Hl & Hk & Hst) Hi [Hkp Ha]%andb_true_iff. unfold lww_run. simpl.
  split; [done|]. split; [by apply map_Forall_insert_2|].
  rewrite deliveries_snoc. destruct (decide (thread_key p = Some ks)) as [Hkey|Hkey].
  - apply andb_true_iff in Ha as [[c Hc]%bool_decide_eq_true Hq%bool_decide_eq_true].
    pose proof (thread_delivery_key p c Hc) as Hck. rewrite Hkey in Hck. injection Hck as Hck.
    destruct Hst as [[_ Ht]|(j & q & c' & cs & E & Hj & _ & _ & Hw)].
    + right. exists i, p, c, (deliveries ks evs). simpl. rewrite Hc. simpl. rewrite decide_True by done.
      split_and!; [done|by rewrite lookup_insert_eq| |done|by apply delivery_at_work].
      intros j q [[-> ->]|[_ Hj]]%lookup_insert_Some Hji; [done|]. by apply (Hq j).
    + destruct (Hq j q Hj). by rewrite (at_work_key _ _ _ Hw), (deliveries_last_key _ _ _ _ E).
  - assert (event_delivery ks (Spawn i p) = None) as ->.
    { simpl. destruct (thread_delivery p) as [c|] eqn:Hc; [|done]. simpl.
      rewrite decide_False; [done|]. intros <-. by apply thread_delivery_key in Hc. }
    simpl. rewrite app_nil_r. destruct Hst as [[Hq Ht]|(j & q & c' & cs & E & Hj & Ho & Ht & Hw)].
    + left. split; [|done]. by apply map_Forall_insert_2.
    + right. exists j, q, c', cs. split_and!; try done.
      * rewrite lookup_insert_ne; [done|]. intros ->. by rewrite Hi in Hj.
      * intros j' q' [[-> ->]|[_ Hj']]%lookup_insert_Some Hne; [done|]. by eapply Ho.
Qed.

Lemma lww_run_access cd ks all evs x i p :
  consistent_writes ks all → (∀ c, c ∈ deliveries ks evs → c ∈ all) →
  lww_run ks evs x → sys_threads x !! i = Some p →
  lww_run ks evs (mkSystem (exec cd (sys_server x) p).1 (<[i := (exec cd (sys_server x) p).2]> (sys_threads x))).
Proof.
  intros Hcons Hsub (Hl & Hk & Hst) Hi. pose proof (Hk _ _ Hi) as Hkp. simpl in Hkp.
  destruct (exec_keeps_lww cd _ _ Hl Hkp) as [Hl' Hk']. unfold lww_run. simpl.
  split; [done|]. split; [by apply map_Forall_insert_2|].
  destruct Hst as [[Hq Ht]|(j & q & c & cs & E & Hj & Ho & Ht & Hw)].
  - left. destruct (exec_frame cd ks (sys_server x) p (Hq _ _ Hi)) as [-> Hk2].
    split; [|done]. by apply map_Forall_insert_2.
  - destruct (decide (i = j)) as [->|Hne].
    + rewrite Hi in Hj. injection Hj as <-.
      assert (c ∈ all) as Hc by (apply Hsub; rewrite E; apply elem_of_app; right; by apply list_elem_of_singleton).
      destruct (proj1 Hcons c Hc) as [Hwr <-].
      pose proof (exec_at_work cd c _ p Hl Hwr Hw) as Hx. destruct (exec cd (sys_server x) p) as [s' p']. simpl.
      destruct Hx as [[-> Hw']|[-> Hk2]].
      * right. exists j, p', c, cs. split_and!; [done|by rewrite lookup_insert_eq| |done..].
        intros j' q' [[-> ->]|[_ Hj']]%lookup_insert_Some Hne; [done|]. by eapply Ho.
      * left. split.
        -- unfold quiet; simpl. intros j' q' [[-> ->]|[? Hj']]%lookup_insert_Some; [by rewrite Hk2|]. eapply Ho; eauto.
        -- rewrite E. eapply tracks_pick; eauto. by rewrite <- E.
    + right. destruct (exec_frame cd ks (sys_server x) p (Ho _ _ Hi Hne)) as [-> Hk2].
      exists j, q, c, cs. split_and!; try done; [by rewrite lookup_insert_ne|].
      intros j' q' [[_ <-]|[? Hj']]%lookup_insert_Some Hne'; [done|]. by eapply Ho.
Qed.

Lemma lww_run_exec cd ks all evs s y :
  lww s → sv_resources s !! ks = None → consistent_writes ks all →
  (∀ c, c ∈ deliveries ks evs → c ∈ all) →
  sys_exec cd (one_at_a_time ks) evs (idle s) = Some y → lww_run ks evs y.
Proof.
  intros Hl Hn Hcons Hsub Hrun. revert Hsub.
  apply (sys_exec_ind cd (one_at_a_time ks) (λ evs y, (∀ c, c ∈ deliveries ks evs → c ∈ all) → lww_run ks evs y)
    (idle s)); [| |done].
  - intros _. split; [done|]. split; [apply map_Forall_empty|]. left. split; [apply map_Forall_empty|done].
  - intros evs' z ev w _ IH Ha Hstep Hsub. rewrite deliveries_snoc in Hsub.
    assert (lww_run ks evs' z) as Hz by (apply IH; intros c Hc; apply Hsub, elem_of_app; by left).
    destruct (sys_step_stepped _ _ _ _ Hstep) as [i p Hi Hp|i p s' p' Hi Hp E].
    + by apply lww_run_spawn.
    + pose proof (lww_run_access cd ks all evs' z i p Hcons) as H. rewrite E in H. simpl in Hsub. rewrite app_nil_r in Hsub.
      unfold lww_run in *. rewrite deliveries_snoc. simpl. rewrite app_nil_r. by apply H.
Qed.

(** C3: last-writer-wins converges. Two servers that use last-writer-wins
    throughout, start without the resource and receive the same writes of it,
    in any order, with any repetitions, from any peers and amid any other
    activity of their goroutines, track the same version once no handler of
    the resource is at work: the write with the largest timestamp. The
    conditions: on each server a delivery of the resource starts only when no
    other goroutine is about to store that resource, nothing else changes it,
    the timestamps of the writes respect causality, and two writes with the same
    timestamp are the same version. *)
Theorem lww_converges (cd : Codecs) (ks : string) (evs1 evs2 : list event) (s1 s2 : Server) (y1 y2 : System)
    (H1 : lww s1) (H2 : lww s2)
    (Hn1 : sv_resources s1 !! ks = None) (Hn2 : sv_resources s2 !! ks = None)
    (Hrun1 : sys_exec cd (one_at_a_time ks) evs1 (idle s1) = Some y1)
    (Hrun2 : sys_exec cd (one_at_a_time ks) evs2 (idle s2) = Some y2)
    (Hq1 : quiet ks y1) (Hq2 : quiet ks y2)
    (Hcons : consistent_writes ks (deliveries ks evs1))
    (Hsame : ∀ c, c ∈ deliveries ks evs1 ↔ c ∈ deliveries ks evs2)
    (Hne : deliveries ks evs1 ≠ []) :
  ∃ r, sv_resources (sys_server y1) !! ks = Some r ∧ sv_resources (sys_server y2) !! ks = Some r ∧
    newest_version (deliveries ks evs1) r.
Proof.
  assert (∀ evs s y, lww s → sv_resources s !! ks = None → sys_exec cd (one_at_a_time ks) evs (idle s) = Some y →
    quiet ks y → (∀ c, c ∈ deliveries ks evs → c ∈ deliveries ks evs1) → deliveries ks evs ≠ [] →
    ∃ r, sv_resources (sys_server y) !! ks = Some r ∧ newest_version (deliveries ks evs) r) as Hend.
  { intros evs s y Hl Hn Hrun Hq Hsub Hne'.
    destruct (lww_run_exec cd ks _ evs s y Hl Hn Hcons Hsub Hrun) as (_ & _ & [[_ Ht]|(i & p & c & cs & E & Hi & _ & _ & Hw)]).
    - by destruct (deliveries ks evs).
    - destruct (Hq i p Hi). by rewrite (at_work_key _ _ _ Hw), (deliveries_last_key _ _ _ _ E). }
  destruct (Hend evs1 s1 y1) as (r1 & Hr1 & Hnew1); [done..|].
  destruct (Hend evs2 s2 y2) as (r2 & Hr2 & Hnew2); [done..|by intros; apply Hsame| |].
  { destruct (deliveries ks evs1) as [|c cs] eqn:E; [done|]. intros E2.
    apply (not_elem_of_nil c). rewrite <- E2. apply Hsame. by left. }
  assert (r1 = r2) as <- by (by eapply newest_version_unique). by exists r1.
Qed.

(** ** Termination *)

(** [q] is where an access of [p] can lead, in some state of the server. *)
Definition next_access (cd : Codecs) (q p : Thread) : Prop :=
  stopped p = false ∧ ∃ s, q = (exec cd s p).2.

Lemma acc_stopped cd p : stopped p = true → Acc (next_access cd) p.
Proof. intros H. constructor. intros q [H' _]. congruence. Qed.

Lemma acc_by cd p : (∀ s, Acc (next_access cd) (exec cd s p).2) → Acc (next_access cd) p.
Proof. intros H. constructor. intros q (_ & s & ->). apply H. Qed.

Ltac accessed := apply acc_by; intros ?; cbn [exec snd].
Ltac ends_soon := solve [do 6 (first [apply acc_stopped; reflexivity|accessed])].

Lemma acc_notify cd c : Acc (next_access cd) (notify_thread c).
Proof. unfold notify_thread. destruct (rc_ChangeType c); ends_soon. Qed.

Lemma acc_apply cd peer c : Acc (next_access cd) (apply_thread peer c).
Proof.
  unfold apply_thread. destruct (rc_ChangeType c); try ends_soon;
    (accessed; accessed; destruct (str_eqb _ _); [accessed|]; apply acc_notify).
Qed.

Lemma acc_merging cd e c data now' : Acc (next_access cd) (CfMergeClock e c data now').
Proof.
  apply acc_by. intros s. cbn [exec snd]. unfold with_member. destruct (cf_LocalMember _); [|ends_soon].
  apply acc_by. intros s'. cbn [exec snd]. unfold with_member. destruct (cf_LocalMember _); ends_soon.
Qed.

Lemma acc_strategy cd e c now now' : Acc (next_access cd) (CfStrategy e c now now').
Proof.
  apply acc_by. intros s. cbn [exec snd]. unfold strategy_thread.
  destruct (str_eqb _ _); [destruct (time_After _ _); ends_soon|].
  destruct (str_eqb _ _); [destruct (merge_data _ _ _); [apply acc_merging|ends_soon]|].
  destruct (str_eqb _ _); ends_soon.
Qed.

Lemma acc_send cd entry chs : Acc (next_access cd) (LcSend entry chs).
Proof. induction chs as [|ch chs IH]; apply acc_by; intros s; cbn [exec snd]; [ends_soon|done]. Qed.

Lemma acc_visit cd now order : Acc (next_access cd) (TcVisit now order).
Proof.
  induction order as [|ks order IH]; apply acc_by; intros s; cbn [exec snd]; [ends_soon|].
  destruct (sv_tombstones s !! ks); [|done]. apply acc_by. intros s'. cbn [exec snd]. case_decide; [|done].
  apply acc_by. intros ?. done.
Qed.

Lemma acc_change cd peer c now now' : Acc (next_access cd) (RcLoad peer c now now').
Proof.
  apply acc_by. intros s. cbn [exec snd]. unfold decide_thread. destruct (sv_resources s !! _); [|apply acc_apply].
  destruct (Concurrent _ _); [apply acc_by; intros ?; apply acc_strategy|].
  destruct (HappenedBefore _ _); [ends_soon|apply acc_apply].
Qed.

Lemma acc_publish cd l m : Acc (next_access cd) (LcToMap l m).
Proof.
  apply acc_by. intros s. cbn [exec snd]. destruct (decide _);
    do 3 (apply acc_by; intros ?; cbn [exec snd]); apply acc_send.
Qed.

Ltac acc_known :=
  first [ends_soon|apply acc_notify|apply acc_send|apply acc_visit|apply acc_change|apply acc_publish
        |apply acc_strategy|apply acc_merging].

Ltac acc_rec d :=
  unfold with_member;
  first [acc_known
        |case_match; cbn [snd]; acc_rec d
        |lazymatch d with S ?d' => accessed; acc_rec d' end].


(** ** The handlers as undisturbed threads *)


(** ** Concrete runs *)

Definition runs (i n : nat) : list event := replicate n (Run i).

Definition old_write : ResourceChange := sample_change {["a" := 1]} CREATED "v1" 100.
Definition new_write : ResourceChange := sample_change {["b" := 1]} UPDATED "v2" 200.

Definition sample_lww : Server := sample_server "m" StrategyLastWriterWins.

(** The old write, then the new one; the other run delivers the new write, the
    old one and the new one again, while a local change of another resource and
    a configuration update are under way. *)
Definition run_old_new : list event :=
  Spawn 0 (RcMergeClock "a" old_write 0 0) :: runs 0 6 ++ Spawn 1 (RcMergeClock "b" new_write 0 0) :: runs 1 7.

Definition other_local : LocalChange :=
  mkLocalChange (mkResourceKey "ProxyRoute" "default" "api") ChangeTypeCreated "w" None "u" 50 50.

Definition run_new_old : list event :=
  Spawn 0 (MsSeen "b" (MsgChange new_write) 0 0 0) :: Spawn 1 (LcConfig other_local) :: runs 1 2 ++ runs 0 4 ++
  Spawn 2 (RcMergeClock "a" old_write 0 0) :: Spawn 3 (StoreConfig (sample_config "m" StrategyLastWriterWins)) ::
  runs 2 3 ++ runs 3 1 ++ runs 1 2 ++ runs 0 2 ++ runs 2 2 ++ Spawn 4 (RcMergeClock "b" new_write 0 0) :: runs 4 5.

Definition sys_resource (ks : string) (o : option System) : option TrackedResource :=
  y ← o; sv_resources (sys_server y) !! ks.

Lemma server_inv_interleaved_witness :
  ∃ y, sys_exec no_codecs any_event run_new_old (idle sample_lww) = Some y ∧
    store_inv (sys_server y) ∧ vc_wf (sv_vectorClock (sys_server y)).
Proof.
  destruct (sys_exec no_codecs any_event run_new_old (idle sample_lww)) as [y|] eqn:E;
    [|exfalso; apply (f_equal (λ o, bool_decide (is_Some o))) in E; vm_compute in E; discriminate].
  exists y. split; [done|].
  destruct (server_inv_interleaved no_codecs (Some (sample_config "m" StrategyLastWriterWins)) run_new_old y E) as [H1 H2].
  split; [exact H1|]. apply H2. rewrite <- E. vm_compute. reflexivity.
Defined.


Lemma consistent_sample : consistent_writes sample_key [old_write; new_write].
Proof.
  assert (∀ c d, vc_lt (change_clock c) (change_clock d) →
    Compare (change_clock c) (Some (change_clock d)) = -1) as Hcmp by (by intros; apply Compare_before).
  split_and!.
  - intros c. rewrite !elem_of_cons, elem_of_nil.
    intros [->|[->|[]]]; (split; [first [by left|by right]|by vm_compute]).
  - intros c d. rewrite !elem_of_cons, !elem_of_nil.
    intros [->|[->|[]]] [->|[->|[]]] Hlt%Hcmp; vm_compute in Hlt; discriminate.
  - intros c d. rewrite !elem_of_cons, !elem_of_nil.
    intros [->|[->|[]]] [->|[->|[]]]; vm_compute; congruence.
Qed.

Lemma lww_converges_witness :
  ∃ y1 y2 r,
    sys_exec no_codecs (one_at_a_time sample_key) run_old_new (idle sample_lww) = Some y1 ∧
    sys_exec no_codecs (one_at_a_time sample_key) run_new_old (idle sample_lww) = Some y2 ∧
    sv_resources (sys_server y1) !! sample_key = Some r ∧ sv_resources (sys_server y2) !! sample_key = Some r ∧
    newest_version [old_write; new_write] r.
Proof.
  destruct (sys_exec no_codecs (one_at_a_time sample_key) run_old_new (idle sample_lww)) as [y1|] eqn:E1;
    [|exfalso; apply (f_equal (λ o, bool_decide (is_Some o))) in E1; vm_compute in E1; discriminate].
  destruct (sys_exec no_codecs (one_at_a_time sample_key) run_new_old (idle sample_lww)) as [y2|] eqn:E2;
    [|exfalso; apply (f_equal (λ o, bool_decide (is_Some o))) in E2; vm_compute in E2; discriminate].
  assert (∀ evs y, sys_exec no_codecs (one_at_a_time sample_key) evs (idle sample_lww) = Some y →
    from_option (λ y, bool_decide (quiet sample_key y)) false
      (sys_exec no_codecs (one_at_a_time sample_key) evs (idle sample_lww)) = true →
    quiet sample_key y) as Hq.
  { intros evs y -> H. exact (bool_decide_eq_true_1 _ H). }
  destruct (lww_converges no_codecs sample_key run_old_new run_new_old sample_lww sample_lww y1 y2)
    as (r & H1 & H2 & H3); [by vm_compute..|exact E1|exact E2| | | | |by vm_compute|].
  - apply (Hq _ _ E1). by vm_compute.
  - apply (Hq _ _ E2). by vm_compute.
  - exact consistent_sample.
  - intros c. change (deliveries sample_key run_old_new) with [old_write; new_write].
    change (deliveries sample_key run_new_old) with [new_write; old_write; new_write].
    rewrite !elem_of_cons. tauto.
  - exists y1, y2, r. split; [done|]. split; [done|]. split; [exact H1|]. split; [exact H2|exact H3].
Defined.

Definition sample_local : LocalChange :=
  mkLocalChange sample_local_key ChangeTypeUpdated "v3" None "id" 300 300.

(** A write arrives; a local change loads the configuration; another write
    arrives between its increment and the reading of the clock. *)
Definition run_before : list event :=
  Spawn 0 (RcMergeClock "a" old_write 0 0) :: runs 0 6 ++ [Spawn 1 (LcConfig sample_local); Run 1].
Definition run_after : list event :=
  Run 1 :: Spawn 2 (RcMergeClock "b" new_write 0 0) :: runs 2 7 ++ [Run 1].

Lemma local_change_supersedes_witness :
  ∃ y z clock, sys_exec no_codecs no_merge run_before (idle sample_lww) = Some y ∧
    sys_exec no_codecs no_merge run_after y = Some z ∧
    sys_threads z !! 1%nat = Some (LcStore sample_local (sample_member "m") clock) ∧
    sv_resources (sys_server y) !! sample_key = Some (change_version old_write) ∧
    vc_lt (version_clock (change_version old_write)) (mkVectorClock clock).
Proof.
  destruct (sys_exec no_codecs no_merge run_before (idle sample_lww)) as [y|] eqn:Ey;
    [|exfalso; apply (f_equal (λ o, bool_decide (is_Some o))) in Ey; vm_compute in Ey; discriminate].
  assert (sys_exec no_codecs no_merge (run_before ++ run_after) (idle sample_lww) =
    sys_exec no_codecs no_merge run_after y) as Happ by (rewrite sys_exec_app, Ey; done).
  destruct (sys_exec no_codecs no_merge run_after y) as [z|] eqn:Ez;
    [|exfalso; apply (f_equal (λ o, bool_decide (is_Some o))) in Happ; vm_compute in Happ; discriminate].
  assert (sys_threads y !! 1%nat = Some (LcIncrement sample_local (sample_member "m"))) as Hi.
  { transitivity (sys_exec no_codecs no_merge run_before (idle sample_lww) ≫= λ y, sys_threads y !! 1%nat);
      [by rewrite Ey|by vm_compute]. }
  assert (sv_resources (sys_server y) !! sample_key = Some (change_version old_write)) as Hr.
  { transitivity (sys_resource sample_key (sys_exec no_codecs no_merge run_before (idle sample_lww)));
      [by rewrite Ey|by vm_compute]. }
  assert (sys_threads z !! 1%nat = Some (LcStore sample_local (sample_member "m") {["m" := 2; "a" := 1; "b" := 1]})) as Hz.
  { transitivity (sys_exec no_codecs no_merge (run_before ++ run_after) (idle sample_lww) ≫= λ y, sys_threads y !! 1%nat);
      [by rewrite Happ|by vm_compute]. }
  exists y, z, {["m" := 2; "a" := 1; "b" := 1]}.
  split; [done|]. split; [done|]. split; [done|]. split; [done|].
  refine (proj1 (proj2 (proj2 (local_change_supersedes no_codecs (Some (sample_config "m" StrategyLastWriterWins))
    run_before run_after y z 1 sample_local (sample_member "m") {["m" := 2; "a" := 1; "b" := 1]} _ Ey Hi Ez Hz))) _ _ Hr).
  discriminate.
Defined.

(** ** What the missing locks cost *)

(** Two handlers of one resource that overlap lose the newest write: both find
    the resource absent, the newer write is stored first and the older one over
    it, although last-writer-wins is configured. Both calls have finished and
    nothing reports a conflict. *)
Example overlapping_writes_lose_the_newest :
  let evs := [Spawn 0 (RcMergeClock "a" old_write 0 0); Spawn 1 (RcMergeClock "b" new_write 0 0)] ++
             runs 0 2 ++ runs 1 6 ++ runs 0 4 in
  let o := sys_exec no_codecs any_event evs (idle sample_lww) in
  sys_resource sample_key o = Some (change_version old_write) ∧
  rc_Timestamp old_write < rc_Timestamp new_write ∧
  (y ← o; sys_threads y !! 0%nat) = Some (Finished None) ∧ (y ← o; sys_threads y !! 1%nat) = Some (Finished None) ∧
  (st_ConflictsDetected ∘ sv_stats ∘ sys_server <$> o) = Some 0.
Proof. by vm_compute. Qed.

(** A write and a deletion of one resource that overlap leave it live and
    deleted at once: the resource is tracked and its tombstone is there. *)
Example overlapping_write_and_delete :
  let del := sample_change {["a" := 2]} DELETED "" 300 in
  let evs := [Spawn 0 (RcMergeClock "a" old_write 0 0); Spawn 1 (RcMergeClock "b" del 0 0)] ++
             runs 0 2 ++ runs 1 3 ++ runs 0 2 ++ runs 1 3 ++ runs 0 2 in
  let o := sys_exec no_codecs any_event evs (idle sample_lww) in
  sys_resource sample_key o = Some (change_version old_write) ∧
  (tb_DeletionTime <$> (y ← o; sv_tombstones (sys_server y) !! sample_key)) = Some 300 ∧
  (y ← o; sys_threads y !! 0%nat) = Some (Finished None) ∧ (y ← o; sys_threads y !! 1%nat) = Some (Finished None).
Proof. by vm_compute. Qed.

(** A peer that sends the largest counter for the server's own name makes the
    next local change wrap: the server's clock gets a negative counter, and the
    change is not after the version it replaces. *)
Example sent_counter_wraps_the_clock :
  let c := sample_change {["m" := max_int64]} CREATED "v1" 100 in
  let evs := Spawn 0 (RcMergeClock "a" c 0 0) :: runs 0 6 ++ Spawn 1 (LcConfig sample_local) :: runs 1 7 in
  let o := sys_exec no_codecs any_event evs (idle sample_lww) in
  (y ← o; clocks (sv_vectorClock (sys_server y)) !! "m") = Some min_int64 ∧
  (r ← sys_resource sample_key o; Some (Compare (version_clock r) (Some (change_clock c)))) = Some (-1).
Proof. by vm_compute. Qed.
