(* ===== verification/PeerClient.v ===== *)
(** * The client side of a federation peer
    (src/internal/controller/federation/client.go)

    The connection state of one peer client and its operations. gRPC is outside
    the sources: whether dialling, opening, sending and receiving succeed is an
    argument of each operation, and a stream is a number. The certificate
    parsers of [crypto/x509] and [crypto/tls] are the argument [X509]. *)

From S2P Require Import Prelude VectorClock FedTypes FedServer.
Open Scope go_scope.

Definition maxFullSyncBatches : Z := 10000.

Inductive ClientErr :=
  | ErrNotConnectedToPeer
  | ErrExpectedHandshake
  | ErrSyncStreamNotEstablished
  | ErrParseCACertificate
  | ErrLoadClientCertificate
  | ErrBatchLimitExceeded
  | ErrTLSConfig (e : string)
  | ErrDial
  | ErrCreateStream
  | ErrSend
  | ErrRecv
  | ErrRPC.

Record X509 := mkX509 {
  appendCertsFromPEM : string → bool;
  x509KeyPair : string → string → bool;
}.

(** The part of [tls.Config] the code sets. *)
Record TLSConfig := mkTLSConfig {
  tls_MinVersion : Z;
  tls_InsecureSkipVerify : bool;
  tls_ServerName : string;
  tls_RootCAs : option string;
  tls_Certificates : list (string * string);
}.

Definition VersionTLS13 : Z := 772.

Record PeerClient := mkPeerClient {
  pc_peer : PeerInfo;
  pc_config : Config;
  pc_conn : bool;
  pc_stream : option nat;
  pc_streamCancel : option nat;
  pc_onMessage : option nat;
  pc_onDisconnect : option nat;
  pc_connected : bool;
  pc_healthy : bool;
  pc_lastPing : Z;
  pc_pingLatency : Z;
}.

Definition PeerClient_eta (c : PeerClient) : PeerClient :=
  mkPeerClient (pc_peer c) (pc_config c) (pc_conn c) (pc_stream c) (pc_streamCancel c) (pc_onMessage c)
    (pc_onDisconnect c) (pc_connected c) (pc_healthy c) (pc_lastPing c) (pc_pingLatency c).

Definition set_pc_conn : bool → PeerClient → PeerClient := ltac:(field_setter PeerClient_eta pc_conn).
Definition set_pc_stream : option nat → PeerClient → PeerClient := ltac:(field_setter PeerClient_eta pc_stream).
Definition set_pc_streamCancel : option nat → PeerClient → PeerClient := ltac:(field_setter PeerClient_eta pc_streamCancel).
Definition set_pc_onMessage : option nat → PeerClient → PeerClient := ltac:(field_setter PeerClient_eta pc_onMessage).
Definition set_pc_onDisconnect : option nat → PeerClient → PeerClient := ltac:(field_setter PeerClient_eta pc_onDisconnect).
Definition setConnected : bool → PeerClient → PeerClient := ltac:(field_setter PeerClient_eta pc_connected).
Definition setHealthy : bool → PeerClient → PeerClient := ltac:(field_setter PeerClient_eta pc_healthy).
Definition set_pc_lastPing : Z → PeerClient → PeerClient := ltac:(field_setter PeerClient_eta pc_lastPing).
Definition set_pc_pingLatency : Z → PeerClient → PeerClient := ltac:(field_setter PeerClient_eta pc_pingLatency).

Definition NewPeerClient (peer : PeerInfo) (config : Config) : PeerClient :=
  mkPeerClient peer config false None None None None false false time_zero 0.

Definition buildTLSConfig (x : X509) (c : PeerClient) : TLSConfig + ClientErr :=
  let p := pc_peer c in
  let serverName := if str_empty (pi_TLSServerName p) then ""%string else pi_TLSServerName p in
  if negb (str_empty (pi_CACert p)) && negb (appendCertsFromPEM x (pi_CACert p)) then inr ErrParseCACertificate
  else
    let roots := if str_empty (pi_CACert p) then None else Some (pi_CACert p) in
    if negb (str_empty (pi_ClientCert p)) && negb (str_empty (pi_ClientKey p)) then
      if x509KeyPair x (pi_ClientCert p) (pi_ClientKey p) then
        inl (mkTLSConfig VersionTLS13 (pi_InsecureSkipVerify p) serverName roots
               [(pi_ClientCert p, pi_ClientKey p)])
      else inr ErrLoadClientCertificate
    else inl (mkTLSConfig VersionTLS13 (pi_InsecureSkipVerify p) serverName roots []).

(** The transport a connection is made with: plain text, or TLS. *)
Inductive Transport :=
  | Insecure
  | TLS (cfg : TLSConfig).

(** [Connect]; the result names the transport dialled, [None] when the client
    already has a connection. *)
Definition Connect (x : X509) (dial_ok : bool) (c : PeerClient) : PeerClient * (ClientErr + option Transport) :=
  if pc_conn c then (c, inr None)
  else
    let dial (t : Transport) :=
      if dial_ok then (setConnected true (set_pc_conn true c), inr (Some t)) else (c, inl ErrDial) in
    if pi_TLSEnabled (pc_peer c) then
      match buildTLSConfig x c with
      | inr _ => (c, inl (ErrTLSConfig (pi_Name (pc_peer c))))
      | inl cfg => dial (TLS cfg)
      end
    else dial Insecure.

Definition Disconnect (c : PeerClient) : PeerClient :=
  let c := set_pc_streamCancel None c in
  let c := set_pc_conn false c in
  setHealthy false (setConnected false c).

Definition client_handshake (c : PeerClient) (localVectorClock : gmap string Z) : outcome SyncHandshake :=
  let! m := deref (cf_LocalMember (pc_config c)) in
  Returns (mkSyncHandshake (cf_FederationID (pc_config c)) (pi_Name m) (pi_Region m) (pi_Zone m)
    localVectorClock ProtocolVersion (cf_CompressionEnabled (pc_config c))).

(** [StartSyncStream]: [id] is the new stream, [recv] the answer to the
    handshake ([None] when receiving fails). *)
Definition StartSyncStream (id : nat) (open_ok send_ok : bool) (recv : option SyncMessage)
    (localVectorClock : gmap string Z) (c : PeerClient) : outcome (PeerClient * option ClientErr) :=
  if negb (pc_conn c) then Returns (c, Some ErrNotConnectedToPeer)
  else
    let c := set_pc_streamCancel (Some id) c in
    if negb open_ok then Returns (c, Some ErrCreateStream)
    else
      let c := set_pc_stream (Some id) c in
      let! _ := client_handshake c localVectorClock in
      if negb send_ok then Returns (c, Some ErrSend)
      else
        match recv with
        | None => Returns (c, Some ErrRecv)
        | Some (MsgHandshake _) => Returns (setHealthy true c, None)
        | Some _ => Returns (c, Some ErrExpectedHandshake)
        end.

(** One message of [receiveLoop]: the callback it is handed to. *)
Definition receiveLoop_message (c : PeerClient) (msg : SyncMessage) : option (nat * SyncMessage) :=
  match pc_onMessage c with Some fn => Some (fn, msg) | None => None end.

(** The end of [receiveLoop]: the deferred function, with the callback it runs. *)
Definition receiveLoop_end (c : PeerClient) : PeerClient * option nat :=
  (setConnected false c, pc_onDisconnect c).

Definition SendMessage (send_ok : bool) (msg : SyncMessage) (c : PeerClient) : option ClientErr :=
  match pc_stream c with
  | None => Some ErrSyncStreamNotEstablished
  | Some _ => if send_ok then None else Some ErrSend
  end.

Definition SendChange (send_ok : bool) (change : ResourceChange) (c : PeerClient) : option ClientErr :=
  SendMessage send_ok (MsgChange change) c.

Definition SendHeartbeat (send_ok : bool) (vectorClock : gmap string Z) (now pendingChanges agentCount : Z)
    (c : PeerClient) : option ClientErr :=
  SendMessage send_ok (MsgHeartbeat (mkHeartbeat vectorClock (UnixNano now) pendingChanges agentCount)) c.

Definition SendAck (send_ok : bool) (changeIDs : list string) (vectorClock : gmap string Z)
    (errors : list string) (c : PeerClient) : option ClientErr :=
  SendMessage send_ok (MsgAck (mkSyncAck changeIDs vectorClock errors)) c.

(** [Ping]: [start] and [end_] bracket the call, [now] is the later reading. *)
Definition PeerPing (ping_ok : bool) (start end_ now : Z) (c : PeerClient)
    : outcome (PeerClient * Z * option ClientErr) :=
  if negb (pc_conn c) then Returns (c, 0, Some ErrNotConnectedToPeer)
  else
    let! _ := deref (cf_LocalMember (pc_config c)) in
    let latency := time_Sub end_ start in
    if ping_ok then
      Returns (setHealthy true (set_pc_pingLatency latency (set_pc_lastPing now c)), latency, None)
    else Returns (setHealthy false c, latency, Some ErrRPC).

Definition OnMessage (fn : nat) (c : PeerClient) : PeerClient := set_pc_onMessage (Some fn) c.
Definition OnDisconnect (fn : nat) (c : PeerClient) : PeerClient := set_pc_onDisconnect (Some fn) c.
Definition IsConnected (c : PeerClient) : bool := pc_connected c.
Definition Client_IsHealthy (c : PeerClient) : bool := pc_healthy c.
Definition GetLatency (c : PeerClient) : Z := pc_pingLatency c.

Definition fullSyncRequest (c : PeerClient) (resourceTypes namespaces : list string)
    (vectorClock : gmap string Z) : outcome FullSyncRequest :=
  let! m := deref (cf_LocalMember (pc_config c)) in
  Returns {| fr_FederationId := cf_FederationID (pc_config c); fr_RequesterMember := pi_Name m;
             fr_ResourceTypes := resourceTypes; fr_Namespaces := namespaces; fr_VectorClock := vectorClock |}.

(** The receive loop of [RequestFullSync]: [incoming] are the batches the peer
    sends, [eof] whether the stream then ends cleanly. *)
Fixpoint recv_batches (incoming : list ResourceBatch) (eof : bool) (batches : list ResourceBatch)
    : list ResourceBatch * option ClientErr :=
  match incoming with
  | [] => if eof then (batches, None) else (batches, Some ErrRecv)
  | batch :: rest =>
      let batches := batches ++ [batch] in
      if decide (Z.of_nat (length batches) > maxFullSyncBatches) then ([], Some ErrBatchLimitExceeded)
      else if rb_IsLast batch then (batches, None)
      else recv_batches rest eof batches
  end.

(** [RequestFullSync]: [stream] answers the request with what the peer sends,
    [None] when the call fails. *)
Definition Client_RequestFullSync (stream : FullSyncRequest → option (list ResourceBatch * bool))
    (resourceTypes namespaces : list string) (vectorClock : gmap string Z) (c : PeerClient)
    : outcome (list ResourceBatch * option ClientErr) :=
  if negb (pc_conn c) then Returns ([], Some ErrNotConnectedToPeer)
  else
    let! req := fullSyncRequest c resourceTypes namespaces vectorClock in
    match stream req with
    | None => Returns ([], Some ErrRPC)
    | Some (incoming, eof) => Returns (recv_batches incoming eof [])
    end.
