(* ===== verification/FedFullSync.v ===== *)
(** * Full sync between a server and a client

    What a full sync carries, how the server cuts it into batches, what the
    client accepts, and what the manager's application of it achieves:
    [FedServer.RequestFullSync] against [PeerClient.Client_RequestFullSync]. *)

From stdpp Require Import relations.
From S2P Require Import Prelude VectorClock FedTypes Endpoints FedServer FedReplica FedInvariants PeerClient.
Open Scope Z_scope.
Open Scope go_scope.

(** ** Applying a full sync (Manager.RequestFullSync) *)

(** The loop of [Manager.RequestFullSync] over the received batches; [clock]
    gives the two time readings of the n-th change. A failing change is logged
    and skipped. *)
Definition apply_batches (cd : Codecs) (peerName : string) (clock : nat → Z * Z)
    (batches : list ResourceBatch) (s : Server) : outcome Server :=
  foldl (λ acc ic,
    let! s := acc in
    let! r := handleResourceChange cd peerName ic.2 (clock ic.1).1 (clock ic.1).2 s in
    Returns (fst r)) (Returns s) (imap (λ i c, (i, c)) (concat (rb_Resources <$> batches))).

(** ** Selection *)

(** The tracked version has been seen by the requester. *)
Definition requester_is_ahead (req : FullSyncRequest) (res : TrackedResource) : Prop :=
  vc_lt (version_clock res) (mkVectorClock (fr_VectorClock req)).

Definition filter_matches (req : FullSyncRequest) (res : TrackedResource) : Prop :=
  (fr_ResourceTypes req = [] ∨ rk_Kind (tr_Key res) ∈ fr_ResourceTypes req) ∧
  (fr_Namespaces req = [] ∨ rk_Namespace (tr_Key res) ∈ fr_Namespaces req).

Lemma nonempty_not_contains (l : list string) x :
  bool_decide (0 < length l)%nat && negb (contains l x) = false ↔ l = [] ∨ x ∈ l.
Proof.
  rewrite andb_false_iff, negb_false_iff, contains_true, bool_decide_eq_false.
  destruct l as [|y l]; simpl.
  - split; [by left|intros _; left; lia].
  - split; [intros [H|H]; [lia|by right]|intros [H|H]; [done|by right]].
Qed.

Lemma fullsync_selects_spec req res :
  fullsync_selects req res = true ↔ filter_matches req res ∧ ¬ requester_is_ahead req res.
Proof.
  unfold fullsync_selects, requester_is_ahead, filter_matches, resourceMatchesFilter.
  rewrite <- (nonempty_not_contains (fr_ResourceTypes req)), <- (nonempty_not_contains (fr_Namespaces req)).
  rewrite !NewVectorClockFromMap_id. fold (version_clock res).
  destruct (bool_decide _ && _); simpl; [by split; [|intros [[? _] _]]|].
  destruct (bool_decide _ && _); simpl; [by split; [|intros [[_ ?] _]]|].
  rewrite <- Compare_before. unfold HappenedAfter, Concurrent.
  destruct (Compare_range (version_clock res) (Some (mkVectorClock (fr_VectorClock req)))) as [E|[E|E]];
    rewrite E; simpl; split; try done; try (intros _; split; [done|lia]).
  intros [_ H]. by destruct H.
Qed.

Lemma collectFullSyncResources_filter uuid order req :
  collectFullSyncResources uuid order req =
    imap (λ i kv, resource_change (uuid i) kv.2) (filter (λ kv, fullsync_selects req kv.2 = true) order).
Proof.
  unfold collectFullSyncResources. induction order as [|kv order IH] using rev_ind; [done|].
  rewrite foldl_app, IH, filter_app. simpl. rewrite filter_cons, filter_nil.
  destruct (fullsync_selects req kv.2) eqn:E.
  - rewrite decide_True by done. rewrite imap_app. simpl. by rewrite length_imap, Nat.add_0_r.
  - rewrite decide_False by done. by rewrite app_nil_r.
Qed.

Lemma filter_all {A} (P : A → Prop) `{∀ x, Decision (P x)} (l : list A) : Forall P l → filter P l = l.
Proof. induction 1; [done|]. rewrite filter_cons_True by done. by f_equal. Qed.

(** ** Batches *)

(** [bs] cuts [rs] into consecutive batches of at most [size] changes, numbered
    from [n], the last one and only it marked. *)
Inductive batched (vc : gmap string Z) (total size : Z) : Z → list ResourceChange → list ResourceBatch → Prop :=
  | batched_last n rs :
      rs ≠ [] → Z.of_nat (length rs) ≤ size →
      batched vc total size n rs
        [mkResourceBatch (SafeIntToInt32 n) true rs (SafeIntToInt32 total) vc]
  | batched_more n rs rs' bs :
      Z.of_nat (length rs) = size → rs' ≠ [] → batched vc total size (n + 1) rs' bs →
      batched vc total size n (rs ++ rs')
        (mkResourceBatch (SafeIntToInt32 n) false rs (SafeIntToInt32 total) vc :: bs).

Lemma batched_concat vc total size n rs bs :
  batched vc total size n rs bs → concat (rb_Resources <$> bs) = rs.
Proof.
  induction 1 as [|n rs rs' bs _ _ _ IH]; [by simpl; rewrite app_nil_r|].
  rewrite fmap_cons. simpl. by rewrite IH.
Qed.

(** The number of batches is the quotient rounded up. *)
Lemma batched_length vc total size n rs bs :
  batched vc total size n rs bs →
  Z.of_nat (length rs) ≤ Z.of_nat (length bs) * size < Z.of_nat (length rs) + size.
Proof.
  induction 1 as [n rs Hne Hle|n rs rs' bs Hl Hne Hb IH]; simpl length.
  - destruct rs; [done|]. simpl in *. lia.
  - rewrite length_app. lia.
Qed.

Lemma send_loop_batched fuel vc size rs i n :
  0 < size → 0 ≤ i < Z.of_nat (length rs) → (Z.to_nat (Z.of_nat (length rs) - i) < fuel)%nat →
  ∃ bs, send_loop fuel (λ _, true) vc size rs i n = (bs, SendDone) ∧
    batched vc (Z.of_nat (length rs)) size (Z.of_nat n) (drop (Z.to_nat i) rs) bs.
Proof.
  intros Hsize. revert i n. induction fuel as [|fuel IH]; intros i n Hi Hfuel; [lia|].
  simpl. rewrite decide_True by lia. set (total := Z.of_nat (length rs)) in *.
  destruct (decide (i + size > total)) as [Hlast|Hlast].
  - rewrite decide_False by lia. rewrite bool_decide_eq_true_2 by done.
    destruct fuel as [|fuel]; [lia|]. simpl. fold total. rewrite decide_False by lia.
    eexists. split; [reflexivity|]. rewrite take_ge by (rewrite length_drop; lia).
    apply batched_last; [|rewrite length_drop; lia].
    intros E%(f_equal length). rewrite length_drop in E. simpl in E. lia.
  - rewrite decide_False by lia.
    set (batch := take (Z.to_nat (i + size - i)) (drop (Z.to_nat i) rs)).
    assert (Z.of_nat (length batch) = size) as Hb.
    { unfold batch. rewrite length_take, length_drop. lia. }
    assert (drop (Z.to_nat i) rs = batch ++ drop (Z.to_nat (i + size)) rs) as Hsplit.
    { unfold batch. rewrite <- (take_drop (Z.to_nat (i + size - i)) (drop (Z.to_nat i) rs)) at 1.
      rewrite drop_drop. do 2 f_equal. lia. }
    destruct (decide (i + size = total)) as [Hend|Hend].
    + rewrite bool_decide_eq_true_2 by done.
      destruct fuel as [|fuel]; [lia|]. simpl. fold total. rewrite decide_False by lia.
      eexists. split; [reflexivity|]. rewrite Hsplit, (drop_ge rs (Z.to_nat (i + size))) by lia. rewrite app_nil_r.
      apply batched_last; [|lia]. intros E. rewrite E in Hb. simpl in Hb. lia.
    + rewrite bool_decide_eq_false_2 by done.
      destruct (IH (i + size) (S n)) as (bs & Hbs & Hok); [lia|lia|]. rewrite Hbs.
      eexists. split; [reflexivity|]. rewrite Hsplit. apply batched_more; [done| |].
      * intros E%(f_equal length). rewrite length_drop in E. simpl in E. lia.
      * by replace (Z.of_nat n + 1) with (Z.of_nat (S n)) by lia.
Qed.

(** The batch size the server uses. *)
Definition effective_batch_size (cfg : Config) (rs : list ResourceChange) : Z :=
  if decide (cf_BatchSize cfg = 0) then Z.of_nat (length rs) else cf_BatchSize cfg.

Lemma sendFullSyncBatches_ok rs s :
  rs ≠ [] → 0 ≤ cf_BatchSize (sv_config s) →
  ∃ bs, sendFullSyncBatches (λ _, true) rs s = (bs, SendDone) ∧
    batched (clocks (sv_vectorClock s)) (Z.of_nat (length rs)) (effective_batch_size (sv_config s) rs) 0 rs bs.
Proof.
  intros Hne Hsize. assert (0 < length rs)%nat by (destruct rs; [done|simpl; lia]).
  unfold sendFullSyncBatches, effective_batch_size. rewrite decide_False by lia. rewrite ToMap_id.
  destruct (send_loop_batched (S (length rs)) (clocks (sv_vectorClock s))
    (effective_batch_size (sv_config s) rs) rs 0 0) as (bs & Hbs & Hok);
    unfold effective_batch_size in *; try lia; [case_decide; lia|].
  exists bs. split; [exact Hbs|exact Hok].
Qed.

(** ** The client accepts what the server sends *)

Lemma recv_batches_ok vc total size n rs bs eof acc :
  batched vc total size n rs bs → Z.of_nat (length acc + length bs) ≤ maxFullSyncBatches →
  recv_batches bs eof acc = (acc ++ bs, None).
Proof.
  intros Hb. revert acc. induction Hb as [n rs Hne Hle|n rs rs' bs Hl Hne Hb IH]; intros acc Hlen;
    simpl; rewrite length_app; simpl in *.
  - rewrite decide_False by lia. done.
  - rewrite decide_False by lia. rewrite IH by (rewrite length_app; simpl; lia).
    by rewrite <- app_assoc.
Qed.

Lemma recv_batches_too_many vc total size n rs bs eof acc :
  batched vc total size n rs bs → Z.of_nat (length acc) ≤ maxFullSyncBatches →
  Z.of_nat (length acc + length bs) > maxFullSyncBatches →
  recv_batches bs eof acc = ([], Some ErrBatchLimitExceeded).
Proof.
  intros Hb. revert acc. induction Hb as [n rs Hne Hle|n rs rs' bs Hl Hne Hb IH]; intros acc Hacc Hlen;
    simpl; rewrite length_app; simpl in *.
  - by rewrite decide_True by lia.
  - case_decide as Hd; [done|]. apply IH; rewrite length_app; simpl; lia.
Qed.

(** The client never makes up a batch. *)
Lemma recv_batches_prefix inc eof acc got :
  recv_batches inc eof acc = (got, None) → ∃ rest, acc ++ inc = got ++ rest.
Proof.
  revert acc. induction inc as [|b inc IH]; intros acc; simpl.
  - destruct eof; [|done]. intros [= <-]. by exists [].
  - case_decide; [done|]. destruct (rb_IsLast b).
    + intros [= <-]. exists inc. by rewrite <- app_assoc.
    + intros Hr%IH. by rewrite <- app_assoc in Hr.
Qed.

(** An accepted request: the right federation, no cooldown running. *)
Definition request_accepted (req : FullSyncRequest) (now : Z) (s : Server) : Prop :=
  fr_FederationId req = cf_FederationID (sv_config s) ∧
  match sv_fullSyncCooldowns s !! fr_RequesterMember req with
  | Some last => fullSyncCooldown ≤ time_Sub now last
  | None => True
  end.

Lemma RequestFullSync_accepted uuid order send req now s :
  request_accepted req now s →
  let s1 := set_cooldowns (<[fr_RequesterMember req := now]> (sv_fullSyncCooldowns s)) s in
  RequestFullSync uuid order send req now s =
    match sendFullSyncBatches send (collectFullSyncResources uuid order req) s1 with
    | (batches, SendDone) => (count_fullsync s1, batches, SendDone)
    | (batches, r) => (s1, batches, r)
    end.
Proof.
  intros [Hfed Hcool]. unfold RequestFullSync, checkFullSyncCooldown, str_eqb.
  rewrite bool_decide_eq_true_2 by done. simpl.
  destruct (sv_fullSyncCooldowns s !! _); [by rewrite decide_False by lia|done].
Qed.

(** What the client is handed when the server answers it over a working
    stream. *)
Definition answer (uuid : nat → string) (order : list (string * TrackedResource)) (now : Z) (s : Server)
    (req : FullSyncRequest) : option (list ResourceBatch * bool) :=
  match RequestFullSync uuid order (λ _, true) req now s with
  | (_, batches, SendDone) => Some (batches, true)
  | (_, _, _) => None
  end.

Lemma answer_accepted uuid order now s req :
  request_accepted req now s → 0 ≤ cf_BatchSize (sv_config s) →
  let rs := collectFullSyncResources uuid order req in
  let vc := clocks (sv_vectorClock s) in
  (rs = [] ∧ answer uuid order now s req = Some ([mkResourceBatch 0 true [] 0 vc], true)) ∨
  ∃ bs, answer uuid order now s req = Some (bs, true) ∧
    batched vc (Z.of_nat (length rs)) (effective_batch_size (sv_config s) rs) 0 rs bs.
Proof.
  intros Hacc Hsize rs vc. unfold answer. rewrite RequestFullSync_accepted by done. fold rs. simpl.
  set (s1 := set_cooldowns _ s). destruct (decide (rs = [])) as [E|Hne].
  - left. split; [done|]. rewrite E. unfold sendFullSyncBatches. simpl. by rewrite ToMap_id.
  - right. destruct (sendFullSyncBatches_ok rs s1 Hne Hsize) as (bs & -> & Hb). by exists bs.
Qed.

(** C8: a full sync delivers exactly the resources the requester lacks. Over a
    working stream, a client whose request is accepted gets a list of batches
    without error; put together they are the tracked resources that match the
    request's type and namespace filters and are not causally before the
    requester's clock, in the server's order, each once; every batch respects
    the batch size; nothing is lost unless more than 10000 batches are needed,
    in which case the client refuses the sync. *)
Theorem full_sync_delivers_selection (uuid : nat → string) (order : list (string * TrackedResource))
    (now : Z) (s : Server) (c : PeerClient) (m : PeerInfo)
    (resourceTypes namespaces : list string) (vc : gmap string Z)
    (Hconn : pc_conn c = true) (Hm : cf_LocalMember (pc_config c) = Some m)
    (Hsize : 0 ≤ cf_BatchSize (sv_config s)) :
  let req := mkFullSyncRequest (cf_FederationID (pc_config c)) (pi_Name m) resourceTypes namespaces vc in
  let rs := collectFullSyncResources uuid order req in
  let size := effective_batch_size (sv_config s) rs in
  request_accepted req now s →
  rs = imap (λ i kv, resource_change (uuid i) kv.2) (filter (λ kv, fullsync_selects req kv.2 = true) order) ∧
  (∀ res, fullsync_selects req res = true ↔ filter_matches req res ∧ ¬ requester_is_ahead req res) ∧
  (Z.of_nat (length rs) ≤ maxFullSyncBatches * size →
   ∃ bs, Client_RequestFullSync (answer uuid order now s) resourceTypes namespaces vc c = Returns (bs, None) ∧
     concat (rb_Resources <$> bs) = rs ∧
     Forall (λ b, Z.of_nat (length (rb_Resources b)) ≤ size) bs) ∧
  (Z.of_nat (length rs) > maxFullSyncBatches * size →
   Client_RequestFullSync (answer uuid order now s) resourceTypes namespaces vc c =
     Returns ([], Some ErrBatchLimitExceeded)).
Proof.
  intros req rs size Hacc.
  split; [apply collectFullSyncResources_filter|]. split; [intros; apply fullsync_selects_spec|].
  unfold Client_RequestFullSync, fullSyncRequest. rewrite Hconn, Hm. cbn [negb deref outcome_bind]. fold req.
  destruct (answer_accepted uuid order now s req Hacc Hsize) as [[Hrs ->]|(bs & -> & Hb)]; fold rs in Hb || fold rs in Hrs.
  - split.
    + intros _. exists [mkResourceBatch 0 true [] 0 (clocks (sv_vectorClock s))]. rewrite Hrs.
      split; [done|]. split; [done|]. apply Forall_singleton. simpl. unfold size, effective_batch_size.
      case_decide; lia.
    + rewrite Hrs. simpl. unfold size, effective_batch_size, maxFullSyncBatches. case_decide; lia.
  - fold size in Hb. pose proof (batched_length _ _ _ _ _ _ Hb) as Hlen. split.
    + intros Hle. exists bs. split_and!.
      * rewrite (recv_batches_ok _ _ _ _ _ _ _ _ Hb); [done|]. simpl. unfold maxFullSyncBatches in *. nia.
      * by apply batched_concat in Hb.
      * clear -Hb. induction Hb; constructor; simpl; auto. lia.
    + intros Hgt. rewrite (recv_batches_too_many _ _ _ _ _ _ _ _ Hb); [done|simpl; unfold maxFullSyncBatches; lia|].
      simpl. unfold maxFullSyncBatches in *. nia.
Qed.

(** A server with two local resources, and a client of it. *)
Definition sample_key2 : ResourceKey := mkResourceKey "ProxyRoute" "default" "api".

Definition sample_source : Server :=
  run (RecordLocalChange sample_key2 ChangeTypeCreated "w1" None "id2" 20 20
    (run (RecordLocalChange sample_local_key ChangeTypeCreated "v1" None "id1" 10 10
      (sample_server "a" StrategyLastWriterWins)))).

Definition sample_client : PeerClient :=
  set_pc_conn true (NewPeerClient (sample_member "a") (sample_config "b" StrategyLastWriterWins)).

Definition sample_request : FullSyncRequest := mkFullSyncRequest "fed" "b" [] [] {["b" := 1]}.

Lemma full_sync_delivers_selection_witness :
  ∃ bs, Client_RequestFullSync (answer (λ _, "u"%string) (map_to_list (sv_resources sample_source)) 100 sample_source)
          [] [] {["b" := 1]} sample_client = Returns (bs, None) ∧
    length (concat (rb_Resources <$> bs)) = 2%nat.
Proof.
  destruct (full_sync_delivers_selection (λ _, "u"%string) (map_to_list (sv_resources sample_source)) 100
    sample_source sample_client (sample_member "b") [] [] {["b" := 1]}) as (_ & _ & H & _).
  - by vm_compute.
  - by vm_compute.
  - by vm_compute.
  - by vm_compute.
  - destruct H as (bs & H1 & H2 & _); [by vm_compute|]. exists bs. split; [exact H1|].
    rewrite H2. by vm_compute.
Defined.

(** ** A joining member *)

Lemma resource_change_version uuid r :
  int64_range (tr_LastModified r) → change_version (resource_change uuid r) = r.
Proof.
  intros H. unfold change_version, change_resource, change_key, resource_change, UnixNano; simpl.
  rewrite wrap64_small by done. destruct r as [[] ? ? ? ? ? ? ?]. done.
Qed.

Lemma resource_change_keyStr uuid r : change_keyStr (resource_change uuid r) = ResourceKey_String (tr_Key r).
Proof. unfold change_keyStr, change_key; simpl. by destruct (tr_Key r). Qed.

Lemma imap_imap {A B C} (f : nat → B → C) (g : nat → A → B) (l : list A) :
  imap f (imap g l) = imap (λ i, f i ∘ g i) l.
Proof. apply list_eq. intros i. rewrite !list_lookup_imap. by destruct (l !! i). Qed.

Lemma imap_snd {A} (l : list A) : (imap (λ i x, (i, x)) l).*2 = l.
Proof. apply list_eq. intros i. rewrite list_lookup_fmap, list_lookup_imap. by destruct (l !! i). Qed.

(** Applying changes of fresh, distinct keys one after the other stores them
    all. *)
Lemma apply_fresh_changes cd peer (clock : nat → Z * Z) (l : list (nat * (string * TrackedResource)))
    (u : nat → string) (s : Server) :
  Forall (λ x, ResourceKey_String (tr_Key x.2.2) = x.2.1 ∧ int64_range (tr_LastModified x.2.2)) l →
  NoDup (l.*2.*1) → (∀ x, x ∈ l → sv_resources s !! x.2.1 = None) →
  ∃ s', foldl (λ acc ic, let! s := acc in
          let! r := handleResourceChange cd peer ic.2 (clock ic.1).1 (clock ic.1).2 s in Returns (fst r))
          (Returns s) ((λ x, (x.1, resource_change (u x.1) x.2.2)) <$> l) = Returns s' ∧
    sv_resources s' = list_to_map (l.*2) ∪ sv_resources s.
Proof.
  revert s. induction l as [|[i [ks r]] l IH]; intros s Hf Hnd Hfresh.
  { exists s. split; [done|]. simpl. by rewrite map_empty_union. }
  apply Forall_cons in Hf as [[Hks Hts] Hf]. simpl in *. apply NoDup_cons in Hnd as [Hnin Hnd].
  rewrite handleResourceChange_unfold, resource_change_keyStr, Hks.
  pose proof (Hfresh (i, (ks, r)) ltac:(left)) as Hk. simpl in Hk. rewrite Hk. cbn beta iota zeta delta [outcome_bind].
  match goal with |- context [applyChange cd peer ?c ?t] => set (s1 := applyChange cd peer c t) end.
  assert (sv_resources s1 = <[ks := r]> (sv_resources s)) as Hs1.
  { unfold s1. rewrite applyChange_resources. simpl.
    by rewrite resource_change_keyStr, resource_change_version, Hks. }
  destruct (IH s1) as (s' & Hrun & Hres); [done|done| |].
  { intros x Hx. rewrite Hs1, lookup_insert_ne; [apply Hfresh; by right|].
    intros ->. apply Hnin. apply list_elem_of_fmap. exists x.2. split; [done|].
    apply list_elem_of_fmap. by exists x. }
  exists s'. split; [exact Hrun|]. rewrite Hres, Hs1. simpl.
  rewrite <- insert_union_l, insert_union_r; [done|].
  apply not_elem_of_list_to_map_1. done.
Qed.

(** A member joins by full sync. A server without resources that applies
    an unfiltered full sync of a reachable server tracks afterwards exactly the
    resources of that server, whatever the order in which they are visited, the
    batch size and the conflict strategy; no application fails. It is enough
    that the joining member's clock is not already past one of the resources. *)
Theorem join_by_full_sync (cd : Codecs) (uuid : nat → string) (order : list (string * TrackedResource))
    (now : Z) (req : FullSyncRequest) (peer : string) (clock : nat → Z * Z) (s j : Server)
    (bs : list ResourceBatch) (eof : bool)
    (Hinv : server_inv s) (Horder : range_order (sv_resources s) order)
    (Htypes : fr_ResourceTypes req = []) (Hns : fr_Namespaces req = [])
    (Hnew : map_Forall (λ _ r, ¬ requester_is_ahead req r ∧ int64_range (tr_LastModified r)) (sv_resources s))
    (Hacc : request_accepted req now s) (Hsize : 0 ≤ cf_BatchSize (sv_config s))
    (Hsent : answer uuid order now s req = Some (bs, eof)) (Hempty : sv_resources j = ∅) :
  ∃ j', apply_batches cd peer clock bs j = Returns j' ∧ sv_resources j' = sv_resources s.
Proof.
  assert (concat (rb_Resources <$> bs) = imap (λ i kv, resource_change (uuid i) kv.2) order) as Hrs.
  { assert (collectFullSyncResources uuid order req = imap (λ i kv, resource_change (uuid i) kv.2) order) as <-.
    { rewrite collectFullSyncResources_filter, filter_all; [done|]. apply Forall_forall. intros [ks r] Hin. simpl.
      apply fullsync_selects_spec. unfold filter_matches. rewrite Htypes, Hns.
      rewrite Horder in Hin. apply elem_of_map_to_list in Hin. apply Hnew in Hin as [? _]. auto. }
    destruct (answer_accepted uuid order now s req Hacc Hsize) as [[E H]|(bs' & H & Hb)];
      rewrite Hsent in H; injection H as -> ->; [by rewrite E|]. by apply batched_concat in Hb. }
  assert (∀ x : string * TrackedResource, x ∈ order → sv_resources s !! x.1 = Some x.2) as Hin.
  { intros [ks r] Hx. rewrite Horder in Hx. by apply elem_of_map_to_list in Hx. }
  destruct (apply_fresh_changes cd peer clock (imap (λ i x, (i, x)) order) uuid j) as (j' & Hrun & Hres).
  - apply Forall_forall. intros x Hx. apply elem_of_lookup_imap in Hx as (i & y & -> & Hy). simpl.
    apply list_elem_of_lookup_2, Hin in Hy. destruct Hinv as (_ & (Hf & _) & _).
    split; [by apply Hf in Hy|by apply Hnew in Hy as [_ ?]].
  - rewrite imap_snd, Horder. apply NoDup_fst_map_to_list.
  - intros x _. by rewrite Hempty, lookup_empty.
  - exists j'. unfold apply_batches. rewrite Hrs, imap_imap. rewrite fmap_imap in Hrun.
    split; [exact Hrun|]. rewrite Hres, Hempty, imap_snd, map_union_empty.
    rewrite <- (list_to_map_to_list (sv_resources s)). apply list_to_map_proper; [|done].
    rewrite Horder. apply NoDup_fst_map_to_list.
Qed.

Lemma join_by_full_sync_witness :
  let j := sample_server "b" StrategyLastWriterWins in
  let order := map_to_list (sv_resources sample_source) in
  ∃ bs j', answer (λ _, "u"%string) order 100 sample_source sample_request = Some (bs, true) ∧
    apply_batches no_codecs "a" (λ _, (0, 0)) bs j = Returns j' ∧
    sv_resources j' = sv_resources sample_source.
Proof.
  intros j order.
  assert (server_inv sample_source) as Hinv.
  { unfold server_inv, vc_wf, filed, outboxes_bounded. split_and!; try apply map_Forall_empty;
      try (apply (bool_decide_unpack _); by vm_compute). }
  destruct (answer (λ _, "u"%string) order 100 sample_source sample_request) as [[bs eof]|] eqn:Ha;
    [|exfalso; vm_compute in Ha; discriminate].
  assert (eof = true) as -> by (vm_compute in Ha; congruence).
  destruct (join_by_full_sync no_codecs (λ _, "u"%string) order 100 sample_request "a" (λ _, (0, 0))
    sample_source j bs true) as (j' & H1 & H2).
  - exact Hinv.
  - unfold range_order; reflexivity.
  - reflexivity.
  - reflexivity.
  - assert (map_Forall (λ _ r, Compare (version_clock r) (Some (mkVectorClock {["b" := 1]})) ≠ -1 ∧
      min_int64 ≤ tr_LastModified r ∧ tr_LastModified r ≤ max_int64) (sv_resources sample_source)) as Hall
      by (apply (bool_decide_unpack _); by vm_compute).
    intros ks r Hr. apply Hall in Hr as (H1 & H2). split; [|exact H2]. intros Hlt. by apply H1, Compare_before.
  - split; [reflexivity|vm_compute; exact I].
  - vm_compute. discriminate.
  - exact Ha.
  - reflexivity.
  - exists bs, j'. split; [reflexivity|]. split; [exact H1|exact H2].
Defined.

(** ** The cooldown *)

(** Full syncs of one requester are at least thirty seconds apart, and a
    requester does not block another. After an accepted request at time [now],
    a request of the same member is refused, without a batch, exactly while
    less than the cooldown has passed, and accepted again later; another
    member's cooldown is untouched. A request for a different federation is
    refused and leaves the server as it was. *)
Theorem full_sync_cooldown (uuid : nat → string) (order : list (string * TrackedResource))
    (send : nat → bool) (req req' : FullSyncRequest) (now now' : Z) (s : Server)
    (Hacc : request_accepted req now s)
    (Hfed : fr_FederationId req' = cf_FederationID (sv_config s)) :
  let s' := (RequestFullSync uuid order send req now s).1.1 in
  let r' := RequestFullSync uuid order send req' now' s' in
  (fr_RequesterMember req' = fr_RequesterMember req →
     if decide (time_Sub now' now < fullSyncCooldown)
     then r' = (s', [], SendFailed ErrResourceExhausted)
     else request_accepted req' now' s') ∧
  (fr_RequesterMember req' ≠ fr_RequesterMember req →
     request_accepted req' now' s' ↔ request_accepted req' now' s) ∧
  (∀ foreign, fr_FederationId foreign ≠ cf_FederationID (sv_config s) →
     RequestFullSync uuid order send foreign now s = (s, [], SendFailed ErrPermissionDenied)).
Proof.
  intros s' r'.
  assert (sv_fullSyncCooldowns s' = <[fr_RequesterMember req := now]> (sv_fullSyncCooldowns s) ∧
    sv_config s' = sv_config s) as [Hc Hcfg].
  { unfold s'. rewrite RequestFullSync_accepted by done. simpl.
    by destruct (sendFullSyncBatches _ _ _) as [? []]. }
  split_and!.
  - intros Heq. case_decide as Hd.
    + unfold r', RequestFullSync, checkFullSyncCooldown. rewrite Hcfg, Hc, Heq, lookup_insert_eq.
      unfold str_eqb. rewrite bool_decide_eq_true_2 by done. simpl. by rewrite decide_True.
    + unfold request_accepted. rewrite Hcfg, Hc, Heq, lookup_insert_eq. split; [done|lia].
  - intros Hne. unfold request_accepted. by rewrite Hcfg, Hc, lookup_insert_ne.
  - intros foreign Hf. unfold RequestFullSync, str_eqb. by rewrite bool_decide_eq_false_2.
Qed.

Lemma full_sync_cooldown_witness :
  let s' := (RequestFullSync (λ _, "u"%string) [] (λ _, true) sample_request 0 sample_source).1.1 in
  RequestFullSync (λ _, "u"%string) [] (λ _, true) sample_request (5 * Second) s' =
    (s', [], SendFailed ErrResourceExhausted).
Proof.
  intros s'. destruct (full_sync_cooldown (λ _, "u"%string) [] (λ _, true) sample_request sample_request
    0 (5 * Second) sample_source) as (H & _).
  - by vm_compute.
  - by vm_compute.
  - exact (H eq_refl).
Defined.

(** ** Termination *)

(** The batches handed to the stream from number [n] on, against the answers of
    the stream: all were taken, or the last one was refused. *)
Definition sent_until (send : nat → bool) (n : nat) (bs : list ResourceBatch) (r : sendResult) : Prop :=
  (r = SendDone ∧ ∀ k, (k < length bs)%nat → send (n + k)%nat = true) ∨
  (r = SendFailed ErrStream ∧ ∃ k, length bs = S k ∧ send (n + k)%nat = false ∧ ∀ j, (j < k)%nat → send (n + j)%nat = true).

Lemma send_loop_ends fuel send vc size rs i n :
  0 < size → (Z.to_nat (Z.of_nat (length rs) - i) < fuel)%nat →
  let '(bs, r) := send_loop fuel send vc size rs i n in
  sent_until send n bs r ∧ (length bs ≤ Z.to_nat (Z.of_nat (length rs) - i))%nat.
Proof.
  intros Hsize. revert i n. induction fuel as [|fuel IH]; intros i n Hf; [lia|]. simpl.
  destruct (decide (i < Z.of_nat (length rs))) as [Hi|Hi]; [|split; [left; split; [done|]; simpl; lia|simpl; lia]].
  set (end_ := if decide (i + size > _) then _ else _).
  rewrite decide_False by (unfold end_; destruct (decide _); lia).
  destruct (send n) eqn:Es; [|split; [right; split; [done|]; exists 0%nat; rewrite Nat.add_0_r; split; [done|]; split; [done|lia]|simpl; lia]].
  specialize (IH (i + size) (S n)). destruct (send_loop fuel send vc size rs (i + size) (S n)) as [bs r].
  destruct IH as [[[-> Hall]|(-> & k & Hk & Hlast & Hall)] Hlen]; [lia| |]; split; [|simpl; lia| |simpl; lia].
  - left. split; [done|]. intros [|k] Hk; [by rewrite Nat.add_0_r|]. rewrite <- Nat.add_succ_comm. apply Hall. simpl in Hk. lia.
  - right. split; [done|]. exists (S k). rewrite <- Nat.add_succ_comm. split; [simpl; by rewrite Hk|]. split; [done|].
    intros [|j] Hj; [by rewrite Nat.add_0_r|]. rewrite <- Nat.add_succ_comm. apply Hall. lia.
Qed.

Lemma sendFullSyncBatches_ends send rs s :
  let '(bs, r) := sendFullSyncBatches send rs s in
  (length bs ≤ Nat.max 1 (length rs))%nat ∧
  (sent_until send 0 bs r ∨ r = SendSlicePanic ∧ bs = [] ∧ cf_BatchSize (sv_config s) < 0).
Proof.
  unfold sendFullSyncBatches. destruct (decide (length rs = 0%nat)) as [E|E].
  - split; [simpl; lia|]. left. destruct (send 0%nat) eqn:Es; [left|right]; (split; [done|]).
    + intros k Hk. simpl in Hk. by replace (0 + k)%nat with 0%nat by lia.
    + exists 0%nat. split; [done|]. split; [done|lia].
  - set (size := if decide (cf_BatchSize _ = 0) then _ else _). destruct (decide (0 < size)) as [Hs|Hs].
    + pose proof (send_loop_ends (S (length rs)) send (ToMap (sv_vectorClock s)) size rs 0 0 Hs) as Hl.
      destruct (send_loop _ _ _ _ _ _ _) as [bs r]. destruct Hl as [? ?]; [lia|]. split; [lia|by left].
    + assert (cf_BatchSize (sv_config s) < 0 ∧ size < 0) as [Hn Hs'].
      { unfold size in *. destruct (decide (cf_BatchSize (sv_config s) = 0)); lia. }
      simpl. rewrite decide_True by lia. rewrite (decide_False (P := 0 + size > _)) by lia. rewrite decide_True by lia.
      split; [simpl; lia|by right].
Qed.

(** C9: a full sync always ends. Whatever the request, the configuration and
    the answers of the stream, the server hands over at most one batch per
    resource (one when there is none) and stops at the first batch the stream
    refuses. A negative batch size panics before the first batch. The fuel of
    the loop is never used up. *)
Theorem full_sync_terminates (uuid : nat → string) (order : list (string * TrackedResource))
    (send : nat → bool) (req : FullSyncRequest) (now : Z) (s : Server) :
  let '(s', bs, r) := RequestFullSync uuid order send req now s in
  (length bs ≤ Nat.max 1 (length (collectFullSyncResources uuid order req)))%nat ∧
  (sent_until send 0 bs r ∨
   r = SendSlicePanic ∧ bs = [] ∧ cf_BatchSize (sv_config s) < 0 ∨
   s' = s ∧ bs = [] ∧ (r = SendFailed ErrPermissionDenied ∨ r = SendFailed ErrResourceExhausted)).
Proof.
  unfold RequestFullSync. destruct (negb _); [split; [simpl; lia|]; right; right; by auto|].
  assert (∀ s1 e, checkFullSyncCooldown (fr_RequesterMember req) now s = (s1, e) →
    sv_config s1 = sv_config s ∧ (e = None ∨ s1 = s ∧ e = Some ErrResourceExhausted)) as Hc.
  { intros s1 e. unfold checkFullSyncCooldown. destruct (_ !! _) as [t|]; [destruct (decide _)|]; intros [= <- <-]; (split; [done|]); auto. }
  destruct (checkFullSyncCooldown _ _ _) as [s1 [e|]]; destruct (Hc _ _ eq_refl) as [Hcfg He].
  - destruct He as [[=]|[-> [= ->]]]. split; [simpl; lia|]. right. right. by auto.
  - pose proof (sendFullSyncBatches_ends send (collectFullSyncResources uuid order req) s1) as Hs. rewrite Hcfg in Hs.
    destruct (sendFullSyncBatches _ _ _) as [bs r]. destruct Hs as [Hlen [Hs|Hs]].
    + destruct r; (split; [done|by left]).
    + destruct Hs as (-> & Hs). split; [done|]. right. by left.
Qed.
