(* ===== verification/Sha256.v ===== *)
(** * crypto/sha256 and encoding/hex

    The part of the Go standard library the Merkle tree of the anti-entropy
    component uses, executable and checked against the published test vectors. *)

From S2P Require Import Prelude.
Open Scope Z_scope.

(** ** 32-bit words *)

Definition w32 (z : Z) : Z := Z.land z 0xffffffff.
Definition add32 (a b : Z) : Z := w32 (a + b).
Definition rotr (n x : Z) : Z := Z.lor (Z.shiftr x n) (w32 (Z.shiftl x (32 - n))).
Definition not32 (x : Z) : Z := Z.lxor x 0xffffffff.

Definition Ch (x y z : Z) : Z := Z.lxor (Z.land x y) (Z.land (not32 x) z).
Definition Maj (x y z : Z) : Z := Z.lxor (Z.lxor (Z.land x y) (Z.land x z)) (Z.land y z).
Definition bsig0 (x : Z) : Z := Z.lxor (Z.lxor (rotr 2 x) (rotr 13 x)) (rotr 22 x).
Definition bsig1 (x : Z) : Z := Z.lxor (Z.lxor (rotr 6 x) (rotr 11 x)) (rotr 25 x).
Definition ssig0 (x : Z) : Z := Z.lxor (Z.lxor (rotr 7 x) (rotr 18 x)) (Z.shiftr x 3).
Definition ssig1 (x : Z) : Z := Z.lxor (Z.lxor (rotr 17 x) (rotr 19 x)) (Z.shiftr x 10).

(** The constants of FIPS 180-4 by their definition: the first 32 bits of the
    fractional parts of the cube roots of the first 64 primes, and of the
    square roots of the first eight. *)
Definition primes : list Z :=
  filter (λ p, Forall (λ d, p mod d ≠ 0) (Z.of_nat <$> seq 2 (Z.to_nat p - 2))) (Z.of_nat <$> seq 2 310).

(** The greatest [x] below [2 ^ n] with [x * x * x ≤ z], bit by bit. *)
Definition cbrt (n : nat) (z : Z) : Z :=
  foldr (λ i x, let x' := x + Z.shiftl 1 (Z.of_nat i) in if decide (x' * x' * x' ≤ z) then x' else x)
    0 (seq 0 n).

Definition K256 : list Z := Eval vm_compute in (λ p, w32 (cbrt 36 (Z.shiftl p 96))) <$> primes.

Definition H256 : list Z := Eval vm_compute in (λ p, w32 (Z.sqrt (Z.shiftl p 64))) <$> take 8 primes.

(** ** Message schedule and compression *)

(** [schedule n rev_w]: [n] more words; [rev_w] holds the words so far, last
    first. *)
Fixpoint schedule (n : nat) (rev_w : list Z) : list Z :=
  match n with
  | O => reverse rev_w
  | S n =>
      let w i := nth i rev_w 0 in
      let t := add32 (add32 (ssig1 (w 1%nat)) (w 6%nat)) (add32 (ssig0 (w 14%nat)) (w 15%nat)) in
      schedule n (t :: rev_w)
  end.

Definition round (st : list Z) (kw : Z * Z) : list Z :=
  match st with
  | [a; b; c; d; e; f; g; h] =>
      let t1 := add32 (add32 (add32 h (bsig1 e)) (Ch e f g)) (add32 kw.1 kw.2) in
      let t2 := add32 (bsig0 a) (Maj a b c) in
      [add32 t1 t2; a; b; c; add32 d t1; e; f; g]
  | _ => st
  end.

Definition compress (h : list Z) (block : list Z) : list Z :=
  let w := schedule 48 (reverse block) in
  zip_with add32 h (foldl round h (zip K256 w)).

(** ** Padding *)

Definition byte_of (c : ascii) : Z := Z.of_N (N_of_ascii c).

Fixpoint bytes_of (s : string) : list Z :=
  match s with
  | EmptyString => []
  | String c s => byte_of c :: bytes_of s
  end.

Definition be_bytes (n : nat) (z : Z) : list Z :=
  (λ i, Z.land (Z.shiftr z (8 * Z.of_nat i)) 0xff) <$> reverse (seq 0 n).

Definition pad (msg : list Z) : list Z :=
  let len := length msg in
  let zeros := ((119 - len mod 64) mod 64)%nat in
  msg ++ [0x80] ++ repeat 0 zeros ++ be_bytes 8 (8 * Z.of_nat len).

Definition be_word (l : list Z) : Z := foldl (λ acc b, Z.lor (Z.shiftl acc 8) b) 0 l.

(** The message as blocks of sixteen words; [n] bounds the number of words. *)
Fixpoint words (n : nat) (l : list Z) : list Z :=
  match n with
  | O => []
  | S n => match l with [] => [] | _ => be_word (take 4 l) :: words n (drop 4 l) end
  end.

Fixpoint blocks (n : nat) (ws : list Z) : list (list Z) :=
  match n with
  | O => []
  | S n => match ws with [] => [] | _ => take 16 ws :: blocks n (drop 16 ws) end
  end.

Definition sha256 (msg : list Z) : list Z :=
  let p := pad msg in
  let ws := words (length p) p in
  concat (be_bytes 4 <$> foldl compress H256 (blocks (length ws) ws)).

(** ** encoding/hex *)

Definition hex_digit (d : Z) : ascii :=
  ascii_of_nat (Z.to_nat (if decide (d < 10) then 48 + d else 87 + d)).

Fixpoint EncodeToString (l : list Z) : string :=
  match l with
  | [] => EmptyString
  | b :: l => String (hex_digit (Z.shiftr b 4)) (String (hex_digit (Z.land b 15)) (EncodeToString l))
  end.

(** A digest has 32 bytes. *)
Lemma length_round st kw : length (round st kw) = length st.
Proof. by destruct st as [|? [|? [|? [|? [|? [|? [|? [|? [|? ?]]]]]]]]]. Qed.

Lemma length_compress h block : length (compress h block) = length h.
Proof.
  unfold compress. rewrite length_zip_with.
  assert (∀ l st, length (foldl round st l) = length st) as Hr.
  { induction l as [|kw l IH]; intros st; simpl; [done|]. by rewrite IH, length_round. }
  rewrite Hr. lia.
Qed.

Lemma length_sha256 msg : length (sha256 msg) = 32%nat.
Proof.
  unfold sha256. set (bs := blocks _ _). clearbody bs.
  assert (length (foldl compress H256 bs) = 8%nat) as Hl.
  { assert (∀ st, length (foldl compress st bs) = length st) as Hc; [|by rewrite Hc].
    induction bs as [|b bs IH]; intros st; simpl; [done|]. by rewrite IH, length_compress. }
  revert Hl. generalize (foldl compress H256 bs). intros l Hl.
  assert (length (concat (be_bytes 4 <$> l)) = (4 * length l)%nat) as ->; [|lia].
  clear. induction l as [|w l IH]; [done|]. rewrite fmap_cons. simpl. rewrite IH. lia.
Qed.

(** The digest of a string cut to sixteen bytes, in hexadecimal. *)
Definition sha256_hex16 (s : string) : string := EncodeToString (take 16 (sha256 (bytes_of s))).

Example sha256_empty :
  EncodeToString (sha256 (bytes_of "")) = "e3b0c44298fc1c149afbf4c8996fb92427ae41e4649b934ca495991b7852b855"%string.
Proof. by vm_compute. Qed.

Example sha256_abc :
  EncodeToString (sha256 (bytes_of "abc")) = "ba7816bf8f01cfea414140de5dae2223b00361a396177a9cb410ff61f20015ad"%string.
Proof. by vm_compute. Qed.

(** A message of two blocks. *)
Example sha256_two_blocks :
  EncodeToString (sha256 (bytes_of "abcdbcdecdefdefgefghfghighijhijkijkljklmklmnlmnomnopnopq")) =
    "248d6a61d20638b8e5c026930c3e6039a33ce45964ff2167f6ecedd419db06c1"%string.
Proof. by vm_compute. Qed.
