(* ===== verification/GoStrings.v ===== *)
(** * Strings of the Go standard library

    What the agent's code uses of [strings], [strconv], [fmt], [encoding/hex]
    and [crypto/hmac]: cutting and splitting at one byte, decimal printing and
    parsing of 64-bit integers, decoding of hexadecimal text and HMAC-SHA256,
    with the round trips between them. *)

From S2P Require Import Prelude Sha256.
Open Scope Z_scope.

(** ** Cutting and splitting at a separator of one byte *)

(** [strings.Cut]. *)
Fixpoint Cut (sep : ascii) (s : string) : string * string * bool :=
  match s with
  | EmptyString => (EmptyString, EmptyString, false)
  | String c s' =>
      if decide (c = sep) then (EmptyString, s', true)
      else let '(b, a, found) := Cut sep s' in (String c b, a, found)
  end.

(** [strings.LastIndex] with the two slices around the index. *)
Fixpoint CutLast (sep : ascii) (s : string) : option (string * string) :=
  match s with
  | EmptyString => None
  | String c s' =>
      match CutLast sep s' with
      | Some (b, a) => Some (String c b, a)
      | None => if decide (c = sep) then Some (EmptyString, s') else None
      end
  end.

(** [strings.Split]: at least one piece. *)
Fixpoint Split (sep : ascii) (s : string) : list string :=
  match s with
  | EmptyString => [EmptyString]
  | String c s' =>
      if decide (c = sep) then EmptyString :: Split sep s'
      else match Split sep s' with
           | [] => [String c EmptyString]
           | p :: ps => String c p :: ps
           end
  end.

(** [strings.SplitN] for a non-negative limit: the last piece is not split. *)
Fixpoint SplitN (sep : ascii) (s : string) (n : nat) : list string :=
  match n with
  | O => []
  | S O => [s]
  | S n =>
      match Cut sep s with
      | (b, a, true) => b :: SplitN sep a n
      | _ => [s]
      end
  end.

Fixpoint no_char (sep : ascii) (s : string) : bool :=
  match s with
  | EmptyString => true
  | String c s' => negb (bool_decide (c = sep)) && no_char sep s'
  end.

(** [s] without a prefix [p]. *)
Fixpoint strip_prefix (p s : string) : option string :=
  match p, s with
  | EmptyString, _ => Some s
  | String c p', String d s' => if decide (c = d) then strip_prefix p' s' else None
  | String _ _, EmptyString => None
  end.

(** [strings.TrimPrefix]. *)
Definition TrimPrefix (s prefix : string) : string :=
  match strip_prefix prefix s with Some t => t | None => s end.

(** ** Decimal integers *)

Definition digit_char (d : Z) : ascii := ascii_of_nat (Z.to_nat (48 + d)).
Definition digit_value (c : ascii) : option Z :=
  let d := byte_of c - 48 in
  if decide (0 ≤ d < 10) then Some d else None.

(** The digits of [n] before [acc]; [fuel] bounds their number. *)
Fixpoint dec_digits (fuel : nat) (n : Z) (acc : string) : string :=
  match fuel with
  | O => acc
  | S fuel =>
      let acc := String (digit_char (n mod 10)) acc in
      if decide (n < 10) then acc else dec_digits fuel (n / 10) acc
  end.

(** The [%d] verb of [fmt.Sprintf]. *)
Definition format_d (z : Z) : string :=
  if decide (z < 0) then String "-" (dec_digits (S (Z.to_nat (Z.log2 (- z)))) (- z) "")
  else dec_digits (S (Z.to_nat (Z.log2 z))) z "".

Fixpoint parse_digits (s : string) (acc : Z) : option Z :=
  match s with
  | EmptyString => Some acc
  | String c s' =>
      match digit_value c with
      | Some d => parse_digits s' (acc * 10 + d)
      | None => None
      end
  end.

(** [strconv.ParseUint] in base ten, without its range check. *)
Definition parse_unsigned (s : string) : option Z :=
  if str_empty s then None else parse_digits s 0.

(** [strconv.ParseInt(s, 10, 64)]; [None] is a syntax or a range error. *)
Definition ParseInt (s : string) : option Z :=
  let '(neg, digits) :=
    match s with
    | String c s' => if decide (c = "-"%char) then (true, s')
                     else if decide (c = "+"%char) then (false, s') else (false, s)
    | EmptyString => (false, s)
    end in
  match parse_unsigned digits with
  | None => None
  | Some n =>
      if neg then if decide (2 ^ 63 < n) then None else Some (- n)
      else if decide (2 ^ 63 ≤ n) then None else Some n
  end.

(** ** Hexadecimal text *)

Definition fromHexChar (c : ascii) : option Z :=
  let b := byte_of c in
  if decide (48 ≤ b ≤ 57) then Some (b - 48)
  else if decide (97 ≤ b ≤ 102) then Some (b - 97 + 10)
  else if decide (65 ≤ b ≤ 70) then Some (b - 65 + 10)
  else None.

(** [hex.DecodeString]; [None] is an error. *)
Fixpoint DecodeString (s : string) : option (list Z) :=
  match s with
  | EmptyString => Some []
  | String c1 (String c2 s') =>
      match fromHexChar c1, fromHexChar c2, DecodeString s' with
      | Some a, Some b, Some l => Some (Z.lor (Z.shiftl a 4) b :: l)
      | _, _, _ => None
      end
  | String _ EmptyString => None
  end.

(** ** HMAC-SHA256 *)

Definition hmac_block (key : list Z) : list Z :=
  let key := if decide (64 < length key)%nat then sha256 key else key in
  key ++ repeat 0 (64 - length key).

Definition hmac_sha256 (key msg : list Z) : list Z :=
  let k := hmac_block key in
  sha256 ((Z.lxor 0x5c <$> k) ++ sha256 ((Z.lxor 0x36 <$> k) ++ msg)).

(** RFC 4231, test case 2. *)
Example hmac_rfc4231 :
  EncodeToString (hmac_sha256 (bytes_of "Jefe") (bytes_of "what do ya want for nothing?")) =
    "5bdcc146bf60754e6a042426089575c75a003f089d2739839dec58b964ec3843"%string.
Proof. by vm_compute. Qed.

(** ** Lemmas *)

Lemma strip_prefix_Some p s t : strip_prefix p s = Some t ↔ s = p +:+ t.
Proof.
  revert s. induction p as [|c p IH]; intros s; simpl; [split; [by intros [= ->]|by intros ->]|].
  destruct s as [|d s]; [done|]. rewrite str_app_cons. case_decide as Hc; [subst|].
  - rewrite IH. split; [by intros ->|by intros [= ->]].
  - split; [done|]. by intros [= ? ?].
Qed.

Lemma substring_all s n : (String.length s ≤ n)%nat → String.substring 0 n s = s.
Proof.
  revert n. induction s as [|c s IH]; intros [|n] H; simpl in *; try done; [lia|]. by rewrite IH by lia.
Qed.

Lemma Cut_app sep a b : no_char sep a = true → Cut sep (a +:+ String sep b) = (a, b, true).
Proof.
  induction a as [|c a IH]; simpl; [by rewrite decide_True|].
  intros [Hc Ha]%andb_prop. bool_prop. by rewrite decide_False, (IH Ha) by done.
Qed.

Lemma SplitN_app sep a b n :
  no_char sep a = true → SplitN sep (a +:+ String sep b) (S (S n)) = a :: SplitN sep b (S n).
Proof. intros Ha. cbn [SplitN]. by rewrite Cut_app. Qed.

Lemma Split_no_char sep a : no_char sep a = true → Split sep a = [a].
Proof.
  induction a as [|c a IH]; simpl; [done|]. intros [Hc Ha]%andb_prop. bool_prop.
  by rewrite decide_False, (IH Ha) by done.
Qed.

Lemma Split_app sep a b : no_char sep a = true → Split sep (a +:+ String sep b) = a :: Split sep b.
Proof.
  induction a as [|c a IH]; simpl; [by rewrite decide_True|].
  intros [Hc Ha]%andb_prop. bool_prop. by rewrite decide_False, (IH Ha) by done.
Qed.

Lemma CutLast_no_char sep a : no_char sep a = true → CutLast sep a = None.
Proof.
  induction a as [|c a IH]; simpl; [done|]. intros [Hc Ha]%andb_prop. bool_prop.
  by rewrite (IH Ha), decide_False by done.
Qed.

Lemma CutLast_app sep a b : no_char sep b = true → CutLast sep (a +:+ String sep b) = Some (a, b).
Proof.
  intros Hb. induction a as [|c a IH]; simpl; [by rewrite CutLast_no_char, decide_True|]. by rewrite IH.
Qed.

Lemma no_char_app sep a b : no_char sep (a +:+ b) = no_char sep a && no_char sep b.
Proof. induction a as [|c a IH]; simpl; [done|]. by rewrite IH, andb_assoc. Qed.

(** A decimal digit, by its character. *)
Lemma digit_cases (P : Z → Prop) d : 0 ≤ d < 10 → Forall P [0; 1; 2; 3; 4; 5; 6; 7; 8; 9] → P d.
Proof.
  intros Hd HP. rewrite Forall_forall in HP. apply HP.
  assert (d = 0 ∨ d = 1 ∨ d = 2 ∨ d = 3 ∨ d = 4 ∨ d = 5 ∨ d = 6 ∨ d = 7 ∨ d = 8 ∨ d = 9) as H by lia.
  set_solver.
Qed.

Lemma digit_value_char d : 0 ≤ d < 10 → digit_value (digit_char d) = Some d.
Proof. intros Hd. pattern d. apply digit_cases; [done|]. by repeat constructor. Qed.

Lemma parse_dec_digits fuel n acc :
  0 ≤ n → (Z.to_nat (Z.log2 n) < fuel)%nat → parse_digits (dec_digits fuel n acc) 0 = parse_digits acc n.
Proof.
  revert n acc. induction fuel as [|fuel IH]; intros n acc Hn Hf; [lia|]. cbn [dec_digits].
  case_decide as Hlt.
  - cbn [parse_digits]. rewrite digit_value_char by (by apply Z.mod_pos_bound).
    rewrite Z.mod_small by lia. done.
  - rewrite IH.
    + cbn [parse_digits]. rewrite digit_value_char by (by apply Z.mod_pos_bound).
      f_equal. pose proof (Z.div_mod n 10). lia.
    + apply Z.div_pos; lia.
    + enough (Z.log2 (n / 10) < Z.log2 n) by (pose proof (Z.log2_nonneg (n / 10)); lia).
      assert (1 ≤ n / 10) by (apply Z.div_le_lower_bound; lia).
      apply Z.log2_lt_pow2; [lia|].
      assert (n < 2 ^ Z.succ (Z.log2 n)) by (apply Z.log2_spec; lia).
      rewrite Z.pow_succ_r in * by apply Z.log2_nonneg.
      apply Z.div_lt_upper_bound; lia.
Qed.

Lemma dec_digits_no_char sep fuel n acc :
  digit_value sep = None → no_char sep acc = true → 0 ≤ n → no_char sep (dec_digits fuel n acc) = true.
Proof.
  intros Hsep. revert n acc. induction fuel as [|fuel IH]; intros n acc Hacc Hn; [done|]. cbn [dec_digits].
  assert (no_char sep (String (digit_char (n mod 10)) acc) = true) as H.
  { cbn [no_char]. rewrite Hacc, andb_true_r, negb_true_iff, bool_decide_eq_false. intros <-.
    by rewrite digit_value_char in Hsep by (by apply Z.mod_pos_bound). }
  case_decide; [done|]. apply IH; [done|]. apply Z.div_pos; lia.
Qed.

Lemma dec_digits_nonempty fuel n acc : ∃ d s, dec_digits (S fuel) n acc = String (digit_char d) s ∧ 0 ≤ d < 10.
Proof.
  revert n acc. induction fuel as [|fuel IH]; intros n acc.
  - cbn [dec_digits]. exists (n mod 10), acc. split; [by case_decide|by apply Z.mod_pos_bound].
  - remember (S fuel) as f. cbn [dec_digits]. case_decide.
    + exists (n mod 10), acc. split; [done|by apply Z.mod_pos_bound].
    + subst f. apply IH.
Qed.

Lemma digit_char_not_sign d : 0 ≤ d < 10 → digit_char d ≠ "-"%char ∧ digit_char d ≠ "+"%char.
Proof. intros Hd. pattern d. apply digit_cases; [done|]. by repeat constructor. Qed.

Lemma ParseInt_format_d z : int64_range z → ParseInt (format_d z) = Some z.
Proof.
  unfold int64_range, min_int64, max_int64, format_d. intros Hz. case_decide as Hneg.
  - unfold ParseInt. rewrite decide_True by done. unfold parse_unsigned.
    destruct (dec_digits_nonempty (Z.to_nat (Z.log2 (- z))) (- z) "") as (d & s & E & _).
    unfold str_empty. rewrite bool_decide_eq_false_2 by (by rewrite E).
    rewrite parse_dec_digits by lia. cbn [parse_digits]. rewrite decide_False by lia. f_equal. lia.
  - destruct (dec_digits_nonempty (Z.to_nat (Z.log2 z)) z "") as (d & s & E & Hd).
    destruct (digit_char_not_sign d Hd) as [H1 H2].
    unfold ParseInt. rewrite E, decide_False, decide_False by done. rewrite <- E.
    unfold parse_unsigned, str_empty. rewrite bool_decide_eq_false_2 by (by rewrite E).
    rewrite parse_dec_digits by lia. cbn [parse_digits]. by rewrite decide_False by lia.
Qed.

Lemma format_d_no_char sep z : digit_value sep = None → sep ≠ "-"%char → no_char sep (format_d z) = true.
Proof.
  intros Hsep Hm. unfold format_d. case_decide.
  - cbn [no_char]. rewrite bool_decide_eq_false_2 by done. apply dec_digits_no_char; [done|done|lia].
  - apply dec_digits_no_char; [done|done|lia].
Qed.

Lemma format_nat_inj n m : format_d (Z.of_nat n) = format_d (Z.of_nat m) → n = m.
Proof.
  unfold format_d. rewrite !decide_False by lia. intros E.
  assert (∀ k, parse_digits (dec_digits (S (Z.to_nat (Z.log2 (Z.of_nat k)))) (Z.of_nat k) "") 0 = Some (Z.of_nat k)) as Hp.
  { intros k. rewrite parse_dec_digits by lia. done. }
  pose proof (Hp n) as Hn. rewrite E, Hp in Hn. injection Hn. lia.
Qed.

(** *** Hexadecimal *)

Definition is_byte (b : Z) : Prop := 0 ≤ b < 256.

Definition hex_ok (b : Z) : bool :=
  bool_decide (fromHexChar (hex_digit (Z.shiftr b 4)) = Some (Z.shiftr b 4)) &&
  bool_decide (fromHexChar (hex_digit (Z.land b 15)) = Some (Z.land b 15)) &&
  bool_decide (Z.lor (Z.shiftl (Z.shiftr b 4) 4) (Z.land b 15) = b) &&
  negb (bool_decide (hex_digit (Z.shiftr b 4) = "|"%char)) && negb (bool_decide (hex_digit (Z.land b 15) = "|"%char)).

Lemma hex_ok_all b : is_byte b → hex_ok b = true.
Proof.
  intros Hb. assert (forallb hex_ok (Z.of_nat <$> seq 0 256) = true) as H by (by vm_compute).
  rewrite forallb_forall in H. apply H. apply list_elem_of_In, list_elem_of_fmap.
  exists (Z.to_nat b). unfold is_byte in Hb. split; [lia|]. apply elem_of_seq. lia.
Qed.

Lemma DecodeString_EncodeToString l : Forall is_byte l → DecodeString (EncodeToString l) = Some l.
Proof.
  induction 1 as [|b l Hb _ IH]; [done|]. cbn [EncodeToString DecodeString].
  pose proof (hex_ok_all b Hb) as Hok. unfold hex_ok in Hok. bool_prop. rewrite IH.
  repeat match goal with H : fromHexChar _ = _ |- _ => rewrite H end. by f_equal; f_equal.
Qed.

Lemma EncodeToString_no_pipe l : Forall is_byte l → no_char "|" (EncodeToString l) = true.
Proof.
  induction 1 as [|b l Hb _ IH]; [done|]. cbn [EncodeToString no_char].
  pose proof (hex_ok_all b Hb) as Hok. unfold hex_ok in Hok. bool_prop.
  by rewrite IH, !bool_decide_eq_false_2.
Qed.

Lemma sha256_bytes msg : Forall is_byte (sha256 msg).
Proof.
  unfold sha256. apply Forall_concat, Forall_fmap, Forall_true. intros w. apply Forall_fmap, Forall_true.
  intros i. simpl. unfold is_byte. rewrite (Z.land_ones _ 8) by lia. by apply Z.mod_pos_bound.
Qed.

#[export] Hint Resolve sha256_bytes : go.
