(* ===== verification/GoPath.v ===== *)
(** * path.Match and utf8.DecodeRuneInString

    The shell patterns of the Go standard library, which the mesh authorization
    uses for SPIFFE identities and request paths: an executable translation of
    [path.Match] with its pattern errors, and what it means for patterns that
    are literal or a literal followed by a star. *)

From S2P Require Import Prelude Sha256 GoStrings.
Open Scope Z_scope.

(** ** Runes *)

Definition RuneError : Z := 0xfffd.

Definition cont (b lo hi : Z) : bool := bool_decide (lo ≤ b ≤ hi).
Definition low6 (b : Z) : Z := Z.land b 0x3f.

(** [utf8.DecodeRuneInString]: the rune and its width in bytes. *)
Definition DecodeRuneInString (s : string) : Z * nat :=
  match bytes_of s with
  | [] => (RuneError, 0%nat)
  | b0 :: rest =>
      if decide (b0 < 0x80) then (b0, 1%nat)
      else if cont b0 0xc2 0xdf then
        match rest with
        | b1 :: _ => if cont b1 0x80 0xbf then (Z.lor (Z.shiftl (Z.land b0 0x1f) 6) (low6 b1), 2%nat) else (RuneError, 1%nat)
        | _ => (RuneError, 1%nat)
        end
      else if cont b0 0xe0 0xef then
        let lo := if decide (b0 = 0xe0) then 0xa0 else 0x80 in
        let hi := if decide (b0 = 0xed) then 0x9f else 0xbf in
        match rest with
        | b1 :: b2 :: _ =>
            if cont b1 lo hi && cont b2 0x80 0xbf then
              (Z.lor (Z.shiftl (Z.land b0 0xf) 12) (Z.lor (Z.shiftl (low6 b1) 6) (low6 b2)), 3%nat)
            else (RuneError, 1%nat)
        | _ => (RuneError, 1%nat)
        end
      else if cont b0 0xf0 0xf4 then
        let lo := if decide (b0 = 0xf0) then 0x90 else 0x80 in
        let hi := if decide (b0 = 0xf4) then 0x8f else 0xbf in
        match rest with
        | b1 :: b2 :: b3 :: _ =>
            if cont b1 lo hi && cont b2 0x80 0xbf && cont b3 0x80 0xbf then
              (Z.lor (Z.shiftl (Z.land b0 7) 18)
                 (Z.lor (Z.shiftl (low6 b1) 12) (Z.lor (Z.shiftl (low6 b2) 6) (low6 b3))), 4%nat)
            else (RuneError, 1%nat)
        | _ => (RuneError, 1%nat)
        end
      else (RuneError, 1%nat)
  end.

Fixpoint str_drop (n : nat) (s : string) : string :=
  match n, s with
  | S n, String _ s' => str_drop n s'
  | _, _ => s
  end.

(** ** Chunks of a pattern *)

Fixpoint skip_stars (p : string) : bool * string :=
  match p with
  | String c p' => if decide (c = "*"%char) then (true, (skip_stars p').2) else (false, p)
  | EmptyString => (false, p)
  end.

(** The scan for the end of a chunk: a star outside of a character class. *)
Fixpoint scan (inrange : bool) (p : string) : string * string :=
  match p with
  | EmptyString => (EmptyString, EmptyString)
  | String c p' =>
      if decide (c = "\"%char) then
        match p' with
        | String d p'' => let '(chunk, rest) := scan inrange p'' in (String c (String d chunk), rest)
        | EmptyString => (p, EmptyString)
        end
      else if bool_decide (c = "*"%char) && negb inrange then (EmptyString, p)
      else
        let inrange := if decide (c = "["%char) then true else if decide (c = "]"%char) then false else inrange in
        let '(chunk, rest) := scan inrange p' in (String c chunk, rest)
  end.

Definition scanChunk (pattern : string) : bool * string * string :=
  let '(star, p) := skip_stars pattern in
  let '(chunk, rest) := scan false p in (star, chunk, rest).

(** [getEsc]; [None] is [ErrBadPattern]. *)
Definition getEsc (chunk : string) : option (Z * string) :=
  let decode c :=
    let '(r, n) := DecodeRuneInString c in
    let nchunk := str_drop n c in
    if bool_decide (r = RuneError) && bool_decide (n = 1%nat) then None
    else if str_empty nchunk then None
    else Some (r, nchunk) in
  match chunk with
  | EmptyString => None
  | String c chunk' =>
      if decide (c = "-"%char) then None
      else if decide (c = "]"%char) then None
      else if decide (c = "\"%char) then (if str_empty chunk' then None else decode chunk')
      else decode chunk
  end.

(** The ranges of a character class; [fuel] bounds their number by the length
    of the chunk. *)
Fixpoint class_ranges (fuel : nat) (chunk : string) (r : Z) (first matched : bool) : option (bool * string) :=
  match fuel with
  | O => None
  | S fuel =>
      let ranges (_ : unit) :=
        match getEsc chunk with
        | None => None
        | Some (lo, chunk) =>
            let hi_chunk :=
              match chunk with
              | String c chunk' => if decide (c = "-"%char) then getEsc chunk' else Some (lo, chunk)
              | EmptyString => Some (lo, chunk)
              end in
            match hi_chunk with
            | None => None
            | Some (hi, chunk) =>
                class_ranges fuel chunk r false (matched || (bool_decide (lo ≤ r) && bool_decide (r ≤ hi)))
            end
        end in
      match chunk with
      | String c chunk' => if bool_decide (c = "]"%char) && negb first then Some (matched, chunk') else ranges tt
      | EmptyString => ranges tt
      end
  end.

Inductive chunk_result := BadPattern | NoMatch | Rest (s : string).

(** [matchChunk]: after a failure the chunk is still checked, but [s] is no
    longer read. *)
Fixpoint match_chunk (fuel : nat) (failed : bool) (chunk s : string) : chunk_result :=
  match fuel with
  | O => BadPattern
  | S fuel =>
      match chunk with
      | EmptyString => if failed then NoMatch else Rest s
      | String c chunk' =>
          let failed := failed || str_empty s in
          if decide (c = "["%char) then
            let '(r, s) := if failed then (0, s) else let '(r, n) := DecodeRuneInString s in (r, str_drop n s) in
            let '(negated, chunk') :=
              match chunk' with
              | String d chunk'' => if decide (d = "^"%char) then (true, chunk'') else (false, chunk')
              | EmptyString => (false, chunk')
              end in
            match class_ranges (S (String.length chunk')) chunk' r true false with
            | None => BadPattern
            | Some (matched, chunk') => match_chunk fuel (failed || Bool.eqb matched negated) chunk' s
            end
          else if decide (c = "?"%char) then
            match s with
            | String d _ =>
                if failed then match_chunk fuel failed chunk' s
                else match_chunk fuel (bool_decide (d = "/"%char)) chunk' (str_drop (DecodeRuneInString s).2 s)
            | EmptyString => match_chunk fuel failed chunk' s
            end
          else
            let literal l chunk' :=
              match s with
              | String d s' =>
                  if failed then match_chunk fuel failed chunk' s
                  else match_chunk fuel (negb (bool_decide (l = d))) chunk' s'
              | EmptyString => match_chunk fuel failed chunk' s
              end in
            if decide (c = "\"%char) then
              match chunk' with
              | EmptyString => BadPattern
              | String l chunk'' => literal l chunk''
              end
            else literal c chunk'
      end
  end.

(** Every iteration consumes a byte of the chunk. *)
Definition matchChunk (chunk s : string) : chunk_result := match_chunk (S (String.length chunk)) false chunk s.

(** ** Match *)

Inductive search_result := SearchBad | SearchNone | SearchFound (rest : string).

(** Skipping bytes under a star, never a slash; [last]: no pattern follows. *)
Fixpoint star_search (chunk : string) (last : bool) (name : string) : search_result :=
  match name with
  | EmptyString => SearchNone
  | String c name' =>
      if decide (c = "/"%char) then SearchNone
      else
        match matchChunk chunk name' with
        | Rest t => if last && negb (str_empty t) then star_search chunk last name' else SearchFound t
        | BadPattern => SearchBad
        | NoMatch => star_search chunk last name'
        end
  end.

(** The check that the rest of a pattern that does not match is well formed. *)
Fixpoint check_rest (fuel : nat) (pattern : string) : option bool :=
  match fuel with
  | O => None
  | S fuel =>
      if str_empty pattern then Some false
      else
        let '(_, chunk, pattern) := scanChunk pattern in
        match matchChunk chunk "" with BadPattern => None | _ => check_rest fuel pattern end
  end.

(** [None] is [ErrBadPattern]; every iteration consumes a byte of the pattern. *)
Fixpoint match_pattern (fuel : nat) (pattern name : string) : option bool :=
  match fuel with
  | O => None
  | S fuel =>
      if str_empty pattern then Some (str_empty name)
      else
        let '(star, chunk, pattern) := scanChunk pattern in
        if star && str_empty chunk then Some (no_char "/" name)
        else
          let searched (_ : unit) :=
            if star then
              match star_search chunk (str_empty pattern) name with
              | SearchBad => None
              | SearchFound t => match_pattern fuel pattern t
              | SearchNone => check_rest (S (String.length pattern)) pattern
              end
            else check_rest (S (String.length pattern)) pattern in
          match matchChunk chunk name with
          | Rest t => if str_empty t || negb (str_empty pattern) then match_pattern fuel pattern t else searched tt
          | BadPattern => None
          | NoMatch => searched tt
          end
  end.

Definition Match (pattern name : string) : option bool := match_pattern (S (String.length pattern)) pattern name.

Example match_star : Match "spiffe://td/ns/*/sa/web" "spiffe://td/ns/shop/sa/web" = Some true.
Proof. by vm_compute. Qed.
Example match_star_slash : Match "/api/*" "/api/v1/users" = Some false.
Proof. by vm_compute. Qed.
Example match_class : Match "/v[0-9]/?" "/v2/x" = Some true.
Proof. by vm_compute. Qed.
Example match_bad : Match "/v[0-9" "/v2" = None.
Proof. by vm_compute. Qed.

(** ** Literal patterns and a trailing star *)

Definition plain_char (c : ascii) : bool :=
  negb (bool_decide (c = "*"%char)) && negb (bool_decide (c = "?"%char)) &&
  negb (bool_decide (c = "["%char)) && negb (bool_decide (c = "\"%char)).

Fixpoint plain (p : string) : bool :=
  match p with EmptyString => true | String c p' => plain_char c && plain p' end.

Lemma plain_char_ne c : plain_char c = true →
  c ≠ "*"%char ∧ c ≠ "?"%char ∧ c ≠ "["%char ∧ c ≠ "\"%char.
Proof. unfold plain_char. intros H. bool_prop. done. Qed.

Lemma scan_plain p rest : plain p = true → rest = ""%string ∨ (∃ r, rest = String "*" r) →
  scan false (p +:+ rest) = (p, rest).
Proof.
  intros Hp Hrest. induction p as [|c p IH].
  - rewrite str_app_nil. destruct Hrest as [->|[r ->]]; done.
  - cbn [plain] in Hp. apply andb_prop in Hp as [Hc Hp]. apply plain_char_ne in Hc as (H1 & H2 & H3 & H4).
    rewrite str_app_cons. cbn [scan]. rewrite decide_False by done. rewrite bool_decide_eq_false_2 by done. cbn [andb].
    rewrite decide_False by done. replace (if decide (c = "]"%char) then false else false) with false by (by case_decide).
    by rewrite IH.
Qed.

Lemma scanChunk_plain p rest : plain p = true → p ≠ ""%string → rest = ""%string ∨ (∃ r, rest = String "*" r) →
  scanChunk (p +:+ rest) = (false, p, rest).
Proof.
  intros Hp Hne Hrest. unfold scanChunk. assert (skip_stars (p +:+ rest) = (false, p +:+ rest)) as ->.
  { destruct p as [|c p]; [done|]. cbn [plain] in Hp. apply andb_prop in Hp as [Hc _].
    apply plain_char_ne in Hc as (H1 & _). rewrite str_app_cons. cbn [skip_stars]. by rewrite decide_False. }
  by rewrite scan_plain.
Qed.

Lemma match_chunk_plain fuel failed p s : plain p = true → (String.length p < fuel)%nat →
  match_chunk fuel failed p s =
    if failed then NoMatch else match strip_prefix p s with Some t => Rest t | None => NoMatch end.
Proof.
  revert failed p s. induction fuel as [|fuel IH]; intros failed p s Hp Hf; [lia|].
  destruct p as [|c p]; [done|]. cbn [plain] in Hp. apply andb_prop in Hp as [Hc Hp].
  apply plain_char_ne in Hc as (_ & H2 & H3 & H4). simpl in Hf. cbn [match_chunk].
  rewrite !decide_False by done. destruct s as [|d s].
  - rewrite orb_true_r. rewrite IH by (done || lia). by destruct failed.
  - rewrite orb_false_r. destruct failed; rewrite IH by (done || lia); [done|]. simpl.
    case_bool_decide; simpl; [by rewrite decide_True|by rewrite decide_False].
Qed.

Lemma matchChunk_plain p s : plain p = true →
  matchChunk p s = match strip_prefix p s with Some t => Rest t | None => NoMatch end.
Proof. intros Hp. unfold matchChunk. rewrite match_chunk_plain by (done || lia). done. Qed.

Lemma Match_plain p s : plain p = true → Match p s = Some (bool_decide (s = p)).
Proof.
  intros Hp. unfold Match. destruct (decide (p = ""%string)) as [->|Hne].
  { simpl. f_equal. }
  cbn [match_pattern]. unfold str_empty at 1. rewrite bool_decide_eq_false_2 by done.
  pose proof (scanChunk_plain p "" Hp Hne (or_introl eq_refl)) as E. rewrite str_app_nil_r in E. rewrite E.
  cbn [andb]. rewrite matchChunk_plain by done. destruct (strip_prefix p s) as [t|] eqn:Et.
  - apply strip_prefix_Some in Et as ->. destruct (decide (t = ""%string)) as [->|Ht].
    + rewrite str_app_nil_r, bool_decide_eq_true_2 by done. destruct p; [done|]. simpl. done.
    + unfold str_empty at 1. rewrite (bool_decide_eq_false_2 (t = "")) by done. simpl. f_equal. symmetry.
      apply bool_decide_eq_false_2. intros E'. apply Ht. apply (str_app_inj p). by rewrite str_app_nil_r.
  - simpl. f_equal. symmetry. apply bool_decide_eq_false_2. intros ->.
    assert (strip_prefix p p = Some ""%string) as E' by (apply strip_prefix_Some; by rewrite str_app_nil_r). congruence.
Qed.

Lemma Match_prefix_star p s : plain p = true →
  Match (p +:+ "*") s = Some (match strip_prefix p s with Some t => no_char "/" t | None => false end).
Proof.
  intros Hp. unfold Match. destruct (decide (p = ""%string)) as [->|Hne]; [done|].
  cbn [match_pattern]. unfold str_empty at 1. rewrite bool_decide_eq_false_2 by (by destruct p).
  rewrite (scanChunk_plain p "*" Hp Hne) by (right; by eexists). cbn [andb].
  rewrite matchChunk_plain by done. destruct (strip_prefix p s) as [t|] eqn:Et.
  - unfold str_empty at 2. rewrite orb_true_r. destruct p as [|c p]; [done|]. reflexivity.
  - reflexivity.
Qed.

(** ** The fuel is enough

    Every iteration of the loops consumes part of the pattern, so more fuel
    than its length never changes a result. *)

Lemma str_drop_length n s : String.length (str_drop n s) = (String.length s - n)%nat.
Proof. revert s. induction n as [|n IH]; intros [|c s]; simpl; rewrite ?IH; lia. Qed.

Lemma DecodeRune_width s : s ≠ ""%string → (1 ≤ (DecodeRuneInString s).2)%nat.
Proof.
  intros Hs. unfold DecodeRuneInString. destruct s as [|c s]; [done|]. cbn [bytes_of].
  destruct (bytes_of s) as [|b1 [|b2 [|b3 l]]]; repeat case_match; simpl; lia.
Qed.

Lemma getEsc_shorter chunk r rest :
  getEsc chunk = Some (r, rest) → (String.length rest < String.length chunk)%nat ∧ rest ≠ ""%string.
Proof.
  assert (∀ c, c ≠ ""%string →
    (let '(r, n) := DecodeRuneInString c in
     let nchunk := str_drop n c in
     if bool_decide (r = RuneError) && bool_decide (n = 1%nat) then None
     else if str_empty nchunk then None else Some (r, nchunk)) = Some (r, rest) →
    (String.length rest < String.length c)%nat ∧ rest ≠ ""%string) as Hdec.
  { intros c Hc. pose proof (DecodeRune_width c Hc) as Hw. destruct (DecodeRuneInString c) as [r' n]. simpl in *.
    destruct (_ && _); [done|]. unfold str_empty. case_bool_decide as He; [done|]. intros [= _ <-].
    split; [|done]. rewrite str_drop_length. destruct c; [done|]. simpl. lia. }
  unfold getEsc. destruct chunk as [|c chunk]; [done|]. case_decide; [done|]. case_decide; [done|]. case_decide.
  - unfold str_empty at 1. case_bool_decide as He; [done|]. intros Hx. apply Hdec in Hx as [Hlt Hne]; [|done].
    split; [simpl; lia|done].
  - intros Hx. by apply Hdec in Hx.
Qed.

Lemma class_ranges_fuel f f' chunk r first matched :
  (String.length chunk < f)%nat → (String.length chunk < f')%nat →
  class_ranges f chunk r first matched = class_ranges f' chunk r first matched.
Proof.
  revert f' chunk first matched. induction f as [|f IH]; intros f' chunk first matched Hf Hf'; [lia|].
  destruct f' as [|f']; [lia|]. cbn [class_ranges].
  assert (match getEsc chunk with
    | None => None
    | Some (lo, chunk) =>
        match (match chunk with
               | String c chunk' => if decide (c = "-"%char) then getEsc chunk' else Some (lo, chunk)
               | EmptyString => Some (lo, chunk) end) with
        | None => None
        | Some (hi, chunk) => class_ranges f chunk r false (matched || (bool_decide (lo ≤ r) && bool_decide (r ≤ hi)))
        end
    end = match getEsc chunk with
    | None => None
    | Some (lo, chunk) =>
        match (match chunk with
               | String c chunk' => if decide (c = "-"%char) then getEsc chunk' else Some (lo, chunk)
               | EmptyString => Some (lo, chunk) end) with
        | None => None
        | Some (hi, chunk) => class_ranges f' chunk r false (matched || (bool_decide (lo ≤ r) && bool_decide (r ≤ hi)))
        end
    end) as ->; [|by destruct chunk].
  destruct (getEsc chunk) as [[lo c1]|] eqn:E1; [|done]. apply getEsc_shorter in E1 as [L1 _].
  destruct c1 as [|c c1]; [apply IH; simpl in *; lia|]. case_decide; [|apply IH; lia].
  destruct (getEsc c1) as [[hi c2]|] eqn:E2; [|done]. apply getEsc_shorter in E2 as [L2 _].
  simpl in L1. apply IH; lia.
Qed.

Lemma class_ranges_shorter f chunk r first matched b rest :
  class_ranges f chunk r first matched = Some (b, rest) → (String.length rest ≤ String.length chunk)%nat.
Proof.
  revert chunk first matched rest. induction f as [|f IH]; intros chunk first matched rest; [done|]. cbn [class_ranges].
  assert (∀ R, (match getEsc chunk with
    | None => None
    | Some (lo, chunk) =>
        match (match chunk with
               | String c chunk' => if decide (c = "-"%char) then getEsc chunk' else Some (lo, chunk)
               | EmptyString => Some (lo, chunk) end) with
        | None => None
        | Some (hi, chunk) => class_ranges f chunk r false (matched || (bool_decide (lo ≤ r) && bool_decide (r ≤ hi)))
        end
    end) = Some (b, R) → (String.length R ≤ String.length chunk)%nat) as Hgo.
  { intros R. destruct (getEsc chunk) as [[lo c1]|] eqn:E1; [|done]. apply getEsc_shorter in E1 as [L1 _].
    destruct c1 as [|c c1]; [intros HR; apply IH in HR; lia|].
    case_decide; [|intros HR; apply IH in HR; lia].
    destruct (getEsc c1) as [[hi c2]|] eqn:E2; [|done]. apply getEsc_shorter in E2 as [L2 _].
    simpl in L1. intros HR. apply IH in HR. lia. }
  destruct chunk as [|c chunk]; [apply Hgo|]. destruct (_ && _); [|apply Hgo]. intros [= _ <-]. simpl. lia.
Qed.

Lemma match_chunk_fuel f f' failed chunk s :
  (String.length chunk < f)%nat → (String.length chunk < f')%nat →
  match_chunk f failed chunk s = match_chunk f' failed chunk s.
Proof.
  revert f' failed chunk s. induction f as [|f IH]; intros f' failed chunk s Hf Hf'; [lia|].
  destruct f' as [|f']; [lia|]. cbn [match_chunk]. destruct chunk as [|c chunk]; [done|]. simpl in Hf, Hf'.
  case_decide.
  - destruct (if failed || str_empty s then _ else _) as [r s'].
    destruct (match chunk with EmptyString => _ | String d chunk'' => _ end) as [negated chunk'] eqn:En.
    assert (String.length chunk' ≤ String.length chunk)%nat as Hle.
    { destruct chunk as [|d chunk]; [by injection En as _ <-|]. case_decide; injection En as _ <-; simpl; lia. }
    destruct (class_ranges _ chunk' r true false) as [[b rest]|] eqn:Ec; [|done].
    apply class_ranges_shorter in Ec. apply IH; lia.
  - case_decide; [destruct s; [apply IH; lia|]; destruct (failed || _); apply IH; lia|]. case_decide.
    + destruct chunk as [|l chunk]; [done|]. simpl in Hf, Hf'.
      destruct s; [apply IH; lia|]. destruct (failed || _); apply IH; lia.
    + destruct s; [apply IH; lia|]. destruct (failed || _); apply IH; lia.
Qed.

Lemma skip_stars_length p : (String.length (skip_stars p).2 ≤ String.length p)%nat.
Proof. induction p as [|c p IH]; simpl; [done|]. case_decide; simpl; lia. Qed.

Lemma scan_length b p : (String.length (scan b p).2 ≤ String.length p)%nat.
Proof.
  enough (∀ n p b, (String.length p < n)%nat → (String.length (scan b p).2 ≤ String.length p)%nat) by eauto.
  clear. induction n as [|n IH]; intros p b Hn; [lia|]. destruct p as [|c p]; [done|]. cbn [scan]. simpl in Hn.
  case_decide.
  - destruct p as [|d p]; [simpl; lia|]. simpl in Hn. specialize (IH p b ltac:(lia)).
    destruct (scan b p) as [chunk rest]. simpl in *. lia.
  - destruct (_ && _); [done|].
    match goal with |- context [scan ?b' p] => specialize (IH p b' ltac:(lia)); destruct (scan b' p) end.
    simpl in *. lia.
Qed.

(** A pattern that is not empty gets shorter. *)
Lemma scanChunk_shorter p star chunk rest :
  p ≠ ""%string → scanChunk p = (star, chunk, rest) → (String.length rest < String.length p)%nat.
Proof.
  intros Hp. unfold scanChunk. destruct p as [|c p]; [done|]. cbn [skip_stars]. case_decide as Hc.
  - pose proof (skip_stars_length p) as H1. pose proof (scan_length false (skip_stars p).2) as H2.
    destruct (scan false (skip_stars p).2) as [ch re]. intros [= _ _ <-]. simpl in *. lia.
  - cbn [scan]. case_decide.
    + destruct p as [|d p]; [intros [= _ _ <-]; simpl; lia|].
      pose proof (scan_length false p) as H2. destruct (scan false p) as [ch re]. intros [= _ _ <-]. simpl in *. lia.
    + rewrite bool_decide_eq_false_2 by done. cbn [andb].
      match goal with |- context [scan ?b' p] => pose proof (scan_length b' p) as H2; destruct (scan b' p) end.
      intros [= _ _ <-]. simpl in *. lia.
Qed.

Lemma check_rest_fuel f f' p : (String.length p < f)%nat → (String.length p < f')%nat → check_rest f p = check_rest f' p.
Proof.
  revert f' p. induction f as [|f IH]; intros f' p Hf Hf'; [lia|]. destruct f' as [|f']; [lia|]. cbn [check_rest].
  unfold str_empty. case_bool_decide as Hp; [done|]. destruct (scanChunk p) as [[star chunk] rest] eqn:E.
  apply scanChunk_shorter in E; [|done]. destruct (matchChunk chunk ""); [done|apply IH; lia..].
Qed.

(** [Match] does not run out of fuel. *)
Lemma match_pattern_fuel f f' p s :
  (String.length p < f)%nat → (String.length p < f')%nat → match_pattern f p s = match_pattern f' p s.
Proof.
  revert f' p s. induction f as [|f IH]; intros f' p s Hf Hf'; [lia|]. destruct f' as [|f']; [lia|].
  cbn [match_pattern]. destruct (str_empty p) eqn:Hp; [done|]. apply bool_decide_eq_false_1 in Hp.
  destruct (scanChunk p) as [[star chunk] rest] eqn:E. apply scanChunk_shorter in E; [|done].
  destruct (star && str_empty chunk); [done|].
  assert (∀ t, match_pattern f rest t = match_pattern f' rest t) as Hrec by (intros; apply IH; lia).
  destruct (matchChunk chunk s) as [| |t]; [done|..]; [|destruct (str_empty t || negb (str_empty rest)); [apply Hrec|]];
    (destruct star; [|done]; destruct (star_search _ _ _); [done|done|apply Hrec]).
Qed.
