(* ===== verification/GoNet.v ===== *)
(** * Addresses of the Go standard library

    [net.SplitHostPort] and [net.ParseIP] (the textual forms that
    [netip.ParseAddr] accepts, without a zone), executable. The functions
    follow the loops of the library; the parser of IPv6 groups takes fuel, one
    unit per group, and an address has at most eight groups. *)

From S2P Require Import Prelude Sha256 GoStrings.
Open Scope Z_scope.

Definition has_char (c : ascii) (s : string) : bool := negb (no_char c s).

(** ** SplitHostPort *)

(** The host and the port of ["host:port"] or ["[host]:port"]; [None] is an
    error. *)
Definition SplitHostPort (hostport : string) : option (string * string) :=
  match CutLast ":" hostport with
  | None => None
  | Some (before, port) =>
      match hostport with
      | String "[" rest =>
          match Cut "]" rest with
          | (host, after, true) =>
              (* the first "]" must be just before the last ":" *)
              if str_eqb after (String ":" port) && negb (has_char "[" rest) && negb (has_char "]" port)
              then Some (host, port) else None
          | _ => None
          end
      | _ =>
          if has_char ":" before || has_char "[" hostport || has_char "]" hostport then None
          else Some (before, port)
      end
  end.

(** ** ParseIP *)

(** A decimal field of an IPv4 address: one to three digits, at most 255, no
    leading zero. *)
Definition ipv4_field (s : string) : bool :=
  match parse_unsigned s with
  | None => false
  | Some n =>
      bool_decide (n ≤ 255) && bool_decide (String.length s ≤ 3)%nat &&
      (bool_decide (String.length s = 1%nat) || match s with String "0" _ => false | _ => true end)
  end.

Definition parseIPv4 (s : string) : bool :=
  match Split "." s with
  | [a; b; c; d] => ipv4_field a && ipv4_field b && ipv4_field c && ipv4_field d
  | _ => false
  end.

(** The hexadecimal digits at the head of a text: their number and the rest. *)
Fixpoint hex_run (s : string) : nat * string :=
  match s with
  | String c s' =>
      match fromHexChar c with
      | Some _ => let '(n, rest) := hex_run s' in (S n, rest)
      | None => (0%nat, s)
      end
  | EmptyString => (0%nat, s)
  end.

(** The loop over the groups: [i] bytes are parsed, [ellipsis] tells whether
    "::" has been seen; the result is the number of bytes at the end of the
    text, or [None] for an error. *)
Fixpoint ipv6_groups (fuel : nat) (s : string) (i : Z) (ellipsis : bool) : option (Z * bool) :=
  match fuel with
  | O => None
  | S fuel =>
      if decide (16 ≤ i) then None (* trailing garbage *)
      else
        let '(off, rest) := hex_run s in
        if bool_decide (off = 0%nat) || bool_decide (4 < off)%nat then None
        else
          match rest with
          | EmptyString => Some (i + 2, ellipsis)
          | String "." _ =>
              if negb ellipsis && negb (bool_decide (i = 12)) then None
              else if decide (16 < i + 4) then None
              else if parseIPv4 s then Some (i + 4, ellipsis) else None
          | String ":" EmptyString => None
          | String ":" (String ":" s') =>
              if ellipsis then None
              else if str_empty s' then Some (i + 2, true)
              else ipv6_groups fuel s' (i + 2) true
          | String ":" s' => ipv6_groups fuel s' (i + 2) ellipsis
          | String _ _ => None
          end
  end.

Definition parseIPv6 (s : string) : bool :=
  let '(s, ellipsis) :=
    match s with String ":" (String ":" s') => (s', true) | _ => (s, false) end in
  if ellipsis && str_empty s then true
  else
    match ipv6_groups 9 s 0 ellipsis with
    | None => false
    | Some (i, ellipsis) => if decide (i < 16) then ellipsis else negb ellipsis
    end.

(** The first of [. : %] decides the form; a zone is not accepted. *)
Fixpoint address_form (s : string) : option ascii :=
  match s with
  | EmptyString => None
  | String c s' =>
      if bool_decide (c = "."%char) || bool_decide (c = ":"%char) || bool_decide (c = "%"%char) then Some c
      else address_form s'
  end.

(** Whether [net.ParseIP] returns an address. *)
Definition ParseIP (s : string) : bool :=
  match address_form s with
  | Some "."%char => parseIPv4 s
  | Some ":"%char => parseIPv6 s
  | _ => false
  end.

(** Whether [net.ParseCIDR] returns a network: an address and the length of its
    prefix, of at most the bits of the address. *)
Definition ParseCIDR (s : string) : bool :=
  match Cut "/" s with
  | (addr, mask, true) =>
      ParseIP addr &&
      match parse_unsigned mask with
      | Some n => bool_decide (n ≤ if decide (address_form addr = Some "."%char) then 32 else 128)
      | None => false
      end
  | _ => false
  end.

Example ParseCIDR_ok : (forallb ParseCIDR ["10.0.0.0/8"; "10.0.0.1/32"; "::/0"; "2001:db8::/128"; "10.0.0.0/08"]%string,
  existsb ParseCIDR ["10.0.0.0"; "10.0.0.0/33"; "10.0.0/8"; "::/129"; "10.0.0.0/"; "10.0.0.0/-1"; "/8"; "10.0.0.0/8/8"]%string) = (true, false).
Proof. by vm_compute. Qed.

Example ParseIP_ok : forallb ParseIP
  ["10.0.0.1"; "::"; "::1"; "fe80::1"; "2001:db8::1:0:0:1"; "::ffff:192.0.2.1"; "1:2:3:4:5:6:7:8"; "1:2:3:4:5:6:7::"]%string = true.
Proof. by vm_compute. Qed.

Example ParseIP_bad : existsb ParseIP
  [""; "10.0.0"; "10.0.0.256"; "10.0.0.01"; "web"; ":1"; "1:2:3:4:5:6:7:8:9"; "1:2:3:4:5:6:7:8::"; "::1::"; "fe80::1%eth0";
   "12345::"; "1:2:3:4:5:6:7"; "::1.2.3"; "1:"]%string = false.
Proof. by vm_compute. Qed.

Example SplitHostPort_ok :
  (SplitHostPort "web:80", SplitHostPort "[::1]:443", SplitHostPort ":80", SplitHostPort "::1:80",
   SplitHostPort "[::1]", SplitHostPort "web") =
  (Some ("web", "80"), Some ("::1", "443"), Some ("", "80"), None, None, None)%string.
Proof. by vm_compute. Qed.
