(* ===== verification/Float64.v ===== *)
(** * The type float64

    IEEE 754 binary64 numbers as the [spec_float] of the standard library, with
    the operations of the SD-WAN code and the fact that comparison orders the
    numbers that are not NaN. *)

From S2P Require Import Prelude.
From Stdlib Require Export SpecFloat.
Open Scope Z_scope.

Abbreviation float64 := spec_float.

Definition fadd : float64 → float64 → float64 := SFadd 53 1024.
Definition fsub : float64 → float64 → float64 := SFsub 53 1024.
Definition fmul : float64 → float64 → float64 := SFmul 53 1024.
Definition fdiv : float64 → float64 → float64 := SFdiv 53 1024.
Definition fsqrt : float64 → float64 := SFsqrt 53 1024.

(** [float64(n)] for an integer [n]. *)
Definition float_of_Z (n : Z) : float64 := binary_normalize 53 1024 n 0 false.

Definition fzero : float64 := S754_zero false.
Definition fone : float64 := S754_finite false 4503599627370496 (-52).

(** [x < y], [x <= y], [x > y] and [x >= y]. *)
Definition flt (x y : float64) : bool := SFltb x y.
Definition fle (x y : float64) : bool := SFleb x y.
Definition fgt (x y : float64) : bool := SFltb y x.
Definition fge (x y : float64) : bool := SFleb y x.

Definition is_nan (x : float64) : bool := match x with S754_nan => true | _ => false end.

#[global] Instance float64_eq_dec : EqDecision float64.
Proof. solve_decision. Defined.

(** ** The order of the numbers that are not NaN *)

(** Sign class, exponent and mantissa, to be compared in this order. *)
Definition float_key (x : float64) : Z * Z * Z :=
  match x with
  | S754_infinity true => (-2, 0, 0)
  | S754_finite true m e => (-1, - e, Zneg m)
  | S754_zero _ | S754_nan => (0, 0, 0)
  | S754_finite false m e => (1, e, Zpos m)
  | S754_infinity false => (2, 0, 0)
  end.

Definition key_lt (k l : Z * Z * Z) : Prop :=
  k.1.1 < l.1.1 ∨ k.1.1 = l.1.1 ∧ (k.1.2 < l.1.2 ∨ k.1.2 = l.1.2 ∧ k.2 < l.2).

Lemma flt_key x y : is_nan x = false → is_nan y = false → flt x y = true ↔ key_lt (float_key x) (float_key y).
Proof.
  unfold flt, SFltb, key_lt.
  destruct x as [[]|[]| |[] m e], y as [[]|[]| |[] m' e']; simpl; try done; intros _ _;
    try (split; [done|lia]); try (split; [intros _; lia|done]).
  - destruct (Z.compare_spec e e') as [->|H|H]; [|split; [done|lia]|split; [intros _; lia|done]].
    change (Pos.compare_cont Eq m m') with (Pos.compare m m').
    destruct (Pos.compare_spec m m'); simpl; split; intros; try done; lia.
  - destruct (Z.compare_spec e e') as [->|H|H]; [|split; [intros _; lia|done]|split; [done|lia]].
    change (Pos.compare_cont Eq m m') with (Pos.compare m m').
    destruct (Pos.compare_spec m m'); simpl; split; intros; try done; lia.
Qed.

Lemma flt_nan_l x y : is_nan x = true → flt x y = false.
Proof. by destruct x, y. Qed.

Lemma flt_nan_r x y : is_nan y = true → flt x y = false.
Proof. by destruct x, y as [[]|[]| |[]]. Qed.

(** [less] orders strictly and weakly the elements that satisfy [ok]: the
    contract of the comparison passed to [sort.Slice]. *)
Definition strict_weak {A} (ok : A → Prop) (less : A → A → bool) : Prop :=
  (∀ x y, ok x → ok y → less x y = true → less y x = false) ∧
  (∀ x y z, ok x → ok y → ok z → less x y = false → less y z = false → less x z = false).

Lemma flt_strict_weak : strict_weak (λ x, is_nan x = false) flt.
Proof.
  assert (∀ x y, is_nan x = false → is_nan y = false → flt x y = false ↔ ¬ key_lt (float_key x) (float_key y)) as Hf.
  { intros x y Hx Hy. rewrite <- flt_key by done. by rewrite not_true_iff_false. }
  split.
  - intros x y Hx Hy. rewrite flt_key, Hf by done. unfold key_lt. lia.
  - intros x y z Hx Hy Hz. rewrite !Hf by done. unfold key_lt. lia.
Qed.

(** Comparison of derived keys. *)
Lemma strict_weak_map {A B} (f : A → B) (ok : B → Prop) (less : B → B → bool) :
  strict_weak ok less → strict_weak (λ x, ok (f x)) (λ x y, less (f x) (f y)).
Proof. intros [H1 H2]. split; eauto. Qed.

Lemma strict_weak_flip {A} (ok : A → Prop) (less : A → A → bool) :
  strict_weak ok less → strict_weak ok (λ x y, less y x).
Proof. intros [H1 H2]. split; eauto. Qed.

Lemma Zltb_strict_weak : strict_weak (λ _ : Z, True) Z.ltb.
Proof. split; intros; bool_prop; lia. Qed.

Lemma fle_flt x y : is_nan x = false → is_nan y = false → fle x y = negb (flt y x).
Proof.
  unfold fle, flt, SFleb, SFltb.
  destruct x as [[]|[]| |[] m e], y as [[]|[]| |[] m' e']; simpl; try done; intros _ _;
    rewrite (Z.compare_antisym e e'); destruct (Z.compare e e'); simpl; try done;
    change (Pos.compare_cont Eq) with Pos.compare; rewrite (Pos.compare_antisym m m'); by destruct (Pos.compare m m').
Qed.
