(* ===== verification/GoLib.v ===== *)
(** * Parts of the Go standard library

    Sorting, text tables, durations and base64, as far as the program uses
    them. [sort.Slice], the Unicode tables and the decimal conversion of floats
    are interfaces; durations and base64 are executable. [time.ParseDuration]
    takes fuel, one unit per component of the text, and a component has at least
    one character, so the length of the text is enough. *)

From S2P Require Import Prelude Sha256 GoStrings Float64.
Open Scope Z_scope.

(** ** Interfaces *)

(** [sort.Slice] does not promise an order among equal elements, so the model
    takes it as an interface: it permutes, and it sorts when the comparison is
    a strict weak order on the elements. *)
Class SortSlice := {
  Slice : ∀ {A : Type}, (A → A → bool) → list A → list A;
  Slice_perm : ∀ {A} (less : A → A → bool) l, Slice less l ≡ₚ l;
  Slice_sorts : ∀ {A} (less : A → A → bool) l,
    strict_weak (λ x, x ∈ l) less → StronglySorted (λ x y, less y x = false) (Slice less l)
}.

(** The Unicode case and space tables and the decimal conversion of
    [strconv.ParseFloat] are parameters. *)
Class TextTables := { ToLower : string → string; TrimSpace : string → string; ParseFloat : string → option float64 }.

Fixpoint HasSuffix (s suffix : string) : bool :=
  str_eqb s suffix || match s with EmptyString => false | String _ s' => HasSuffix s' suffix end.

(** ** A sort that keeps the promise of [sort.Slice] *)

Fixpoint insert_by {A} (less : A → A → bool) (x : A) (l : list A) : list A :=
  match l with
  | [] => [x]
  | y :: l' => if less y x then y :: insert_by less x l' else x :: l
  end.

Definition insertion_sort {A} (less : A → A → bool) (l : list A) : list A := foldr (insert_by less) [] l.

Lemma insert_by_perm {A} (less : A → A → bool) x l : insert_by less x l ≡ₚ x :: l.
Proof.
  induction l as [|y l IH]; simpl; [done|]. destruct (less y x); [|done]. rewrite IH. apply perm_swap.
Qed.

Lemma insertion_sort_perm {A} (less : A → A → bool) l : insertion_sort less l ≡ₚ l.
Proof. induction l as [|x l IH]; simpl; [done|]. by rewrite insert_by_perm, IH. Qed.

Lemma insert_by_sorted {A} (less : A → A → bool) x l :
  strict_weak (λ y, y ∈ x :: l) less → StronglySorted (λ a b, less b a = false) l →
  StronglySorted (λ a b, less b a = false) (insert_by less x l).
Proof.
  intros Hsw Hs. induction Hs as [|y l Hs IH Hall]; simpl; [by repeat constructor|].
  destruct (less y x) eqn:E.
  - constructor.
    + apply IH. destruct Hsw as [H1 H2]. split; intros; [apply H1|eapply H2]; eauto; set_solver.
    + rewrite insert_by_perm. constructor; [|done]. apply Hsw; [set_solver..|done].
  - constructor; [by constructor|]. constructor; [done|].
    rewrite Forall_forall in Hall |- *. intros z Hz. destruct Hsw as [_ H2].
    apply (H2 z y x); [set_solver..|by apply Hall|done].
Qed.

Lemma insertion_sort_sorted {A} (less : A → A → bool) l :
  strict_weak (λ y, y ∈ l) less → StronglySorted (λ a b, less b a = false) (insertion_sort less l).
Proof.
  induction l as [|x l IH]; intros Hsw; simpl; [constructor|]. apply insert_by_sorted.
  - destruct Hsw as [H1 H2]. pose proof (insertion_sort_perm less l) as Hp.
    split; intros *; rewrite Hp; eauto.
  - apply IH. destruct Hsw as [H1 H2]. split; intros; [apply H1|eapply H2]; eauto; set_solver.
Qed.

Definition insertion_SortSlice : SortSlice := {|
  Slice := @insertion_sort;
  Slice_perm := @insertion_sort_perm;
  Slice_sorts := @insertion_sort_sorted
|}.

(** ** Durations *)

Definition Millisecond : Z := 1000000.

(** [Duration.Milliseconds] truncates. *)
Definition Milliseconds (d : Z) : Z := Z.quot d Millisecond.

(** The integer part of a float, as the conversion to an integer type gives for
    a value in the range of the type. *)
Definition float_trunc (x : float64) : Z :=
  match x with
  | S754_finite s m e =>
      let n := if decide (0 ≤ e) then Z.shiftl (Zpos m) e else Z.shiftr (Zpos m) (- e) in
      if s then - n else n
  | _ => 0
  end.

(** [int64(d.Seconds())] *)
Definition whole_seconds (d : Z) : Z :=
  float_trunc (fadd (float_of_Z (Z.quot d Second)) (fdiv (float_of_Z (Z.rem d Second)) (float_of_Z Second))).

(** [leadingInt]: digits are added until the number exceeds 2^63; [None] is an
    overflow. *)
Fixpoint leadingInt (s : string) (x : Z) : option (Z * string) :=
  match s with
  | String c s' =>
      match digit_value c with
      | Some v =>
          if decide (2 ^ 63 / 10 < x) then None
          else if decide (2 ^ 63 < x * 10 + v) then None else leadingInt s' (x * 10 + v)
      | None => Some (x, s)
      end
  | EmptyString => Some (x, s)
  end.

(** [leadingFraction]: digits that would overflow are skipped. *)
Fixpoint leadingFraction (s : string) (x : Z) (scale : float64) (overflow : bool) : Z * float64 * string :=
  match s with
  | String c s' =>
      match digit_value c with
      | Some v =>
          if overflow then leadingFraction s' x scale true
          else if decide ((2 ^ 63 - 1) / 10 < x) then leadingFraction s' x scale true
          else if decide (2 ^ 63 < x * 10 + v) then leadingFraction s' x scale true
          else leadingFraction s' (x * 10 + v) (fmul scale (float_of_Z 10)) false
      | None => (x, scale, s)
      end
  | EmptyString => (x, scale, s)
  end.

(** The unit of a component: the text up to the next digit or point. *)
Fixpoint take_unit (s : string) : string * string :=
  match s with
  | String c s' =>
      if bool_decide (c = "."%char) || bool_decide (digit_value c ≠ None) then (EmptyString, s)
      else let '(u, rest) := take_unit s' in (String c u, rest)
  | EmptyString => (EmptyString, s)
  end.

(** The micro sign U+00B5 and the Greek letter U+03BC in UTF-8. *)
Definition micro_sign : string := String (ascii_of_nat 194) (String (ascii_of_nat 181) "s").
Definition greek_mu : string := String (ascii_of_nat 206) (String (ascii_of_nat 188) "s").

Definition unitMap (u : string) : option Z :=
  if str_eqb u "ns" then Some 1
  else if str_eqb u "us" || str_eqb u micro_sign || str_eqb u greek_mu then Some 1000
  else if str_eqb u "ms" then Some Millisecond
  else if str_eqb u "s" then Some Second
  else if str_eqb u "m" then Some Minute
  else if str_eqb u "h" then Some Hour
  else None.

(** One component: its value in nanoseconds and the rest of the text. *)
Definition duration_component (s : string) : option (Z * string) :=
  match leadingInt s 0 with
  | None => None
  | Some (v, s1) =>
      let pre := negb (str_eqb s s1) in
      let '(f, scale, s2, post) :=
        match s1 with
        | String "." s' => let '(f, scale, s2) := leadingFraction s' 0 fone false in (f, scale, s2, negb (str_eqb s' s2))
        | _ => (0, fone, s1, false)
        end in
      if negb pre && negb post then None
      else
        let '(u, s3) := take_unit s2 in
        match unitMap u with
        | None => None
        | Some unit =>
            if decide (2 ^ 63 / unit < v) then None
            else
              let v := v * unit in
              if decide (0 < f) then
                let v := v + float_trunc (fmul (float_of_Z f) (fdiv (float_of_Z unit) scale)) in
                if decide (2 ^ 63 < v) then None else Some (v, s3)
              else Some (v, s3)
        end
  end.

Fixpoint duration_sum (fuel : nat) (s : string) (d : Z) : option Z :=
  match s with
  | EmptyString => Some d
  | _ =>
      match fuel with
      | O => None
      | S fuel =>
          match duration_component s with
          | None => None
          | Some (v, s') =>
              let d := (d + v) mod 2 ^ 64 in
              if decide (2 ^ 63 < d) then None else duration_sum fuel s' d
          end
      end
  end.

(** [time.ParseDuration]; [None] is an error. *)
Definition ParseDuration (s : string) : option Z :=
  let '(neg, s) :=
    match s with
    | String "-" s' => (true, s')
    | String "+" s' => (false, s')
    | _ => (false, s)
    end in
  if str_eqb s "0" then Some 0
  else if str_empty s then None
  else
    match duration_sum (String.length s) s 0 with
    | None => None
    | Some d => if neg then Some (wrap64 (- d)) else if decide (2 ^ 63 - 1 < d) then None else Some d
    end.

Example ParseDuration_ok :
  (ParseDuration "1h2m3s", ParseDuration "1.5s", ParseDuration "-300ms", ParseDuration "0", ParseDuration "+2us") =
  (Some (3723 * Second), Some (1500 * Millisecond), Some (-300 * Millisecond), Some 0, Some 2000).
Proof. by vm_compute. Qed.

Example ParseDuration_bad : omap ParseDuration [""; "5"; "s"; "1d"; "."; "-"; "3000000h"; "1.s.s"]%string = [].
Proof. by vm_compute. Qed.

(** ** Base64 *)

Definition base64_value (c : ascii) : option Z :=
  let b := byte_of c in
  if decide (65 ≤ b ≤ 90) then Some (b - 65)
  else if decide (97 ≤ b ≤ 122) then Some (b - 71)
  else if decide (48 ≤ b ≤ 57) then Some (b + 4)
  else if decide (c = "+"%char) then Some 62
  else if decide (c = "/"%char) then Some 63
  else None.

(** The decoder skips line breaks. *)
Fixpoint skip_newlines (s : string) : string :=
  match s with
  | EmptyString => EmptyString
  | String c s' =>
      if bool_decide (c = ascii_of_nat 10) || bool_decide (c = ascii_of_nat 13) then skip_newlines s'
      else String c (skip_newlines s')
  end.

Definition is_pad (c : ascii) : bool := bool_decide (c = "="%char).

(** Groups of four characters give three bytes; padding ends the text. *)
Fixpoint decode_groups (s : string) : option (list Z) :=
  match s with
  | EmptyString => Some []
  | String a (String b (String c (String d s'))) =>
      match base64_value a, base64_value b with
      | Some va, Some vb =>
          let b0 := Z.lor (Z.shiftl va 2) (Z.shiftr vb 4) in
          if is_pad c then if is_pad d && str_empty s' then Some [b0] else None
          else
            match base64_value c with
            | None => None
            | Some vc =>
                let b1 := Z.lor (Z.shiftl (Z.land vb 15) 4) (Z.shiftr vc 2) in
                if is_pad d then if str_empty s' then Some [b0; b1] else None
                else
                  match base64_value d, decode_groups s' with
                  | Some vd, Some l => Some (b0 :: b1 :: Z.lor (Z.shiftl (Z.land vc 3) 6) vd :: l)
                  | _, _ => None
                  end
            end
      | _, _ => None
      end
  | _ => None
  end.

(** [base64.StdEncoding.DecodeString]. *)
Definition base64_DecodeString (s : string) : option (list Z) := decode_groups (skip_newlines s).

Example base64_ok : base64_DecodeString "aGVsbG8=" = Some [104; 101; 108; 108; 111].
Proof. by vm_compute. Qed.
