(* ===== verification/GoScan.v ===== *)
(** * More of the Go standard library

    [fmt.Sscanf] with the verb [%d] and the bytes [base64] returns together
    with an error, as the standalone mode uses them. *)

From S2P Require Import Prelude Sha256 GoStrings Float64 GoLib.
Open Scope Z_scope.

(** ** Scanning a number *)

(** The white space of [fmt], in UTF-8; a line break is not skipped. *)
Definition space_prefixes : list (list Z) :=
  [[9]; [11]; [12]; [13]; [32]; [194; 133]; [194; 160]; [225; 154; 128]; [226; 128; 168]; [226; 128; 169]; [226; 128; 175]; [226; 129; 159];
   [227; 128; 128]] ++ ((λ n, [226; 128; 128 + Z.of_nat n]) <$> seq 0 11).

Fixpoint strip_bytes (p : list Z) (s : string) : option string :=
  match p, s with
  | [], _ => Some s
  | b :: p, String c s => if decide (byte_of c = b) then strip_bytes p s else None
  | _ :: _, EmptyString => None
  end.

(** One space is at most three bytes, so the length of the text is enough fuel. *)
Fixpoint skip_space (fuel : nat) (s : string) : string :=
  match fuel with
  | O => s
  | S fuel => match head (omap (λ p, strip_bytes p s) space_prefixes) with Some s' => skip_space fuel s' | None => s end
  end.

Fixpoint take_digits (s : string) : string :=
  match s with
  | String c s' => match digit_value c with Some _ => String c (take_digits s') | None => EmptyString end
  | EmptyString => EmptyString
  end.

(** [fmt.Sscanf(s, "%d", &n)]: white space, a sign, digits; the rest of the
    text is not read. [None] is an error. *)
Definition Sscanf_d (s : string) : option Z :=
  let s := skip_space (String.length s) s in
  let '(sign, s) := match s with
    | String c s' => if decide (c = "-"%char) then ("-"%string, s') else if decide (c = "+"%char) then ("+"%string, s') else (""%string, s)
    | EmptyString => (""%string, s)
    end in
  let digits := take_digits s in
  if str_empty digits then None else ParseInt (sign +:+ digits).

Example Sscanf_ok : (Sscanf_d "80", Sscanf_d " -7x", Sscanf_d "+12/tcp", Sscanf_d "x80", Sscanf_d "", Sscanf_d "99999999999999999999") =
  (Some 80, Some (-7), Some 12, None, None, None).
Proof. by vm_compute. Qed.

(** *** A number that was printed is scanned *)

Lemma take_dec_digits fuel n acc : take_digits (dec_digits fuel n acc) = dec_digits fuel n (take_digits acc).
Proof.
  revert n acc. induction fuel as [|fuel IH]; intros n acc; [done|]. cbn [dec_digits].
  assert (take_digits (String (digit_char (n mod 10)) acc) = String (digit_char (n mod 10)) (take_digits acc)) as E.
  { cbn [take_digits]. by rewrite digit_value_char by (by apply Z.mod_pos_bound). }
  case_decide; [done|]. by rewrite IH, E.
Qed.

Lemma digit_is_no_space d s : 0 ≤ d < 10 → head (omap (λ p, strip_bytes p (String (digit_char d) s)) space_prefixes) = None.
Proof. intros Hd. pattern d. apply digit_cases; [done|]. by repeat constructor. Qed.

Lemma Sscanf_format_d z : 0 ≤ z ≤ max_int64 → Sscanf_d (format_d z) = Some z.
Proof.
  intros Hz. destruct (dec_digits_nonempty (Z.to_nat (Z.log2 z)) z "") as (d & s & E & Hd).
  pose proof (take_dec_digits (S (Z.to_nat (Z.log2 z))) z "") as Et. cbn [take_digits] in Et.
  assert (ParseInt (format_d z) = Some z) as Hp by (apply ParseInt_format_d; unfold int64_range, min_int64; lia).
  unfold format_d in *. rewrite decide_False in * by lia. rewrite E in *. unfold Sscanf_d. cbn [String.length skip_space].
  rewrite digit_is_no_space by done. destruct (digit_char_not_sign d Hd) as [H1 H2]. rewrite decide_False, decide_False by done.
  rewrite Et. exact Hp.
Qed.

(** ** Base64 with errors *)

(** The bytes [DecodeString] returns, with or without an error. *)
Fixpoint decoded_groups (s : string) : list Z :=
  match s with
  | String a (String b (String c (String d s'))) =>
      match base64_value a, base64_value b with
      | Some va, Some vb =>
          let b0 := Z.lor (Z.shiftl va 2) (Z.shiftr vb 4) in
          if is_pad c then if is_pad d then [b0] else []
          else
            match base64_value c with
            | None => []
            | Some vc =>
                let b1 := Z.lor (Z.shiftl (Z.land vb 15) 4) (Z.shiftr vc 2) in
                if is_pad d then [b0; b1]
                else match base64_value d with
                     | Some vd => b0 :: b1 :: Z.lor (Z.shiftl (Z.land vc 3) 6) vd :: decoded_groups s'
                     | None => []
                     end
            end
      | _, _ => []
      end
  | _ => []
  end.
Definition base64_decoded (s : string) : list Z := decoded_groups (skip_newlines s).

(** Without an error it is the decoded text. *)
Lemma decoded_groups_ok n s l : (String.length s ≤ n)%nat → decode_groups s = Some l → decoded_groups s = l.
Proof.
  revert s l. induction n as [|n IH]; intros [|a [|b [|c [|d s]]]] l Hn E; simpl in Hn; try lia; try done; try (by injection E as <-).
  simpl in *. destruct (base64_value a) as [va|]; [|done]. destruct (base64_value b) as [vb|]; [|done].
  destruct (is_pad c); [destruct (is_pad d), (str_empty s); simplify_eq/=; done|].
  destruct (base64_value c) as [vc|]; [|done]. destruct (is_pad d); [destruct (str_empty s); simplify_eq/=; done|].
  destruct (base64_value d) as [vd|]; [|done]. destruct (decode_groups s) as [l'|] eqn:Es; [|done]. injection E as <-.
  by rewrite (IH s l' ltac:(lia) Es).
Qed.

Lemma base64_decoded_ok s l : base64_DecodeString s = Some l → base64_decoded s = l.
Proof. by apply (decoded_groups_ok (String.length (skip_newlines s))). Qed.
