(* ===== verification/Convert.v ===== *)
(** * Conversions of sizes

    [src/internal/pkg/convert/bytesize.go]: byte sizes with binary and decimal
    units. The loop over the table of units is a range loop over a map; its
    order is an argument, and the result does not depend on it. *)

From S2P Require Import Prelude Sha256 GoStrings Float64 GoLib.
Open Scope Z_scope.

Definition multipliers : list (string * Z) :=
  [("Ki", 2 ^ 10); ("Mi", 2 ^ 20); ("Gi", 2 ^ 30); ("Ti", 2 ^ 40); ("KB", 1000); ("MB", 1000000); ("GB", 1000000000)]%string.

(** [strings.TrimSuffix]: the text without the suffix, if it has it. *)
Fixpoint cut_suffix (s suffix : string) : option string :=
  if str_eqb s suffix then Some ""%string
  else match s with EmptyString => None | String c s' => String c <$> cut_suffix s' suffix end.

(** [int64] product. *)
Definition mul64 (x y : Z) : Z := wrap64 (x * y).

(** The loop: the first suffix of the text decides. [None] is the error. *)
Fixpoint size_with_unit (order : list (string * Z)) (s : string) : option Z :=
  match order with
  | [] => None
  | (suffix, mult) :: order' =>
      match cut_suffix s suffix with
      | Some numStr => (λ n, mul64 n mult) <$> ParseInt numStr
      | None => size_with_unit order' s
      end
  end.

Definition ParseByteSize (order : list (string * Z)) (s : string) : option Z :=
  if str_empty s || str_eqb s "0" then Some 0
  else
    match ParseInt s with
    | Some n => Some n
    | None => size_with_unit order s
    end.

(** ** Properties *)

Lemma cut_suffix_app s suffix t : cut_suffix s suffix = Some t → s = t +:+ suffix.
Proof.
  revert t. induction s as [|c s IH]; intros t; cbn [cut_suffix]; unfold str_eqb; case_bool_decide as E.
  - intros [= <-]. done.
  - done.
  - intros [= <-]. done.
  - destruct (cut_suffix s suffix) as [t'|]; [|done]. intros [= <-]. by rewrite (IH t' eq_refl).
Qed.

Lemma str_length_app s t : String.length (s +:+ t) = (String.length s + String.length t)%nat.
Proof. induction s as [|c s IH]; [done|]. rewrite str_app_cons. simpl. by rewrite IH. Qed.

Lemma cut_suffix_of_app t suffix : cut_suffix (t +:+ suffix) suffix = Some t.
Proof.
  induction t as [|c t IH].
  - change ("" +:+ suffix) with suffix. destruct suffix; cbn [cut_suffix]; unfold str_eqb; by rewrite bool_decide_eq_true_2.
  - rewrite str_app_cons. cbn [cut_suffix]. unfold str_eqb. rewrite bool_decide_eq_false_2; [by rewrite IH|].
    intros E. apply (f_equal String.length) in E. simpl in E. rewrite str_length_app in E. lia.
Qed.

Lemma str_app_same_length s t u v : s +:+ u = t +:+ v → String.length u = String.length v → s = t ∧ u = v.
Proof.
  intros E Hl. assert (String.length s = String.length t) as Hs.
  { apply (f_equal String.length) in E. rewrite !str_length_app in E. lia. }
  clear Hl. revert t E Hs. induction s as [|c s IH]; intros [|d t] E Hs; try done.
  rewrite !str_app_cons in E. injection E as -> E. destruct (IH t E) as [-> ->]; [simpl in Hs; lia|done].
Qed.

(** Units have two letters, so a text ends in at most one of them. *)
Lemma size_with_unit_at order s suffix mult t :
  (suffix, mult) ∈ order → NoDup order.*1 → (∀ u, u ∈ order.*1 → String.length u = 2%nat) → cut_suffix s suffix = Some t →
  size_with_unit order s = (λ n, mul64 n mult) <$> ParseInt t.
Proof.
  intros Hin Hnd Hlen Hs. induction order as [|[u m] order IH]; [by apply not_elem_of_nil in Hin|].
  cbn [size_with_unit fmap list_fmap fst] in *. apply NoDup_cons in Hnd as [Hu Hnd].
  destruct (cut_suffix s u) as [t'|] eqn:E.
  - pose proof (cut_suffix_app _ _ _ E) as E1. rewrite (cut_suffix_app _ _ _ Hs) in E1.
    apply str_app_same_length in E1 as [-> ->].
    + apply elem_of_cons in Hin as [[= ->]|Hin]; [done|]. destruct Hu. by apply (list_elem_of_fmap_2 fst) in Hin.
    + rewrite (Hlen u) by (by left). apply Hlen. by apply (list_elem_of_fmap_2 fst) in Hin.
  - apply elem_of_cons in Hin as [[= -> ->]|Hin]; [by rewrite E in Hs|].
    apply IH; [done|done|]. intros v Hv. apply Hlen. by right.
Qed.

Lemma size_with_unit_none order s : (∀ u m, (u, m) ∈ order → cut_suffix s u = None) → size_with_unit order s = None.
Proof.
  induction order as [|[u m] order IH]; intros Hn; simpl; [done|]. rewrite (Hn u m) by (by left).
  apply IH. intros u' m' Hin. apply (Hn u' m'). by right.
Qed.

Lemma multipliers_units : NoDup multipliers.*1 ∧ ∀ u, u ∈ multipliers.*1 → String.length u = 2%nat.
Proof. split; [by vm_compute; repeat constructor; set_solver|]. apply Forall_forall. by vm_compute; repeat constructor. Qed.

Lemma parse_digits_app s u acc : (∀ a, parse_digits u a = None) → parse_digits (s +:+ u) acc = None.
Proof.
  intros Hu. revert acc. induction s as [|c s IH]; intros acc; [apply Hu|]. rewrite str_app_cons. cbn [parse_digits].
  destruct (digit_value c); [apply IH|done].
Qed.

Lemma ParseInt_with_unit t u : u ∈ multipliers.*1 → ParseInt (t +:+ u) = None.
Proof.
  intros Hu.
  assert (∀ a, parse_digits u a = None) as Hd.
  { intros a. revert u Hu. apply (Forall_forall (λ u, parse_digits u a = None)). by repeat constructor. }
  assert (∀ t, parse_unsigned (t +:+ u) = None) as Hp.
  { intros t'. unfold parse_unsigned. destruct (str_empty (t' +:+ u)); [done|]. by apply parse_digits_app. }
  destruct t as [|c t].
  - change ("" +:+ u) with u. pose proof (Hp ""%string) as H0. change ("" +:+ u) with u in H0.
    revert Hu H0. unfold multipliers. simpl. rewrite !elem_of_cons. intros Hu _.
    destruct_or! Hu; subst; try done. by apply not_elem_of_nil in Hu.
  - rewrite str_app_cons. unfold ParseInt. case_decide; [by rewrite Hp|]. case_decide; [by rewrite Hp|].
    change (String c (t +:+ u)) with (String c t +:+ u). by rewrite Hp.
Qed.

(** A number with a unit is parsed to its product with the unit, modulo the
    wrap-around of int64, and whatever the order in which the range loop visits
    the table of units, the result is the same. *)
Theorem ParseByteSize_unit order n u mult :
  order ≡ₚ multipliers → (u, mult) ∈ multipliers → int64_range n →
  ParseByteSize order (format_d n +:+ u) = Some (wrap64 (n * mult)) ∧
  ∀ s, ParseByteSize order s = ParseByteSize multipliers s.
Proof.
  intros Ho Hu Hn. pose proof multipliers_units as [Hnd Hlen].
  assert (NoDup order.*1) as Hnd' by (by rewrite Ho).
  assert (∀ v, v ∈ order.*1 → String.length v = 2%nat) as Hlen' by (intros v; rewrite Ho; apply Hlen).
  pose proof (list_elem_of_fmap_2 fst _ _ Hu) as Hu1. split.
  - unfold ParseByteSize, str_empty, str_eqb. rewrite !bool_decide_eq_false_2.
    + rewrite ParseInt_with_unit by done. simpl.
      rewrite (size_with_unit_at order _ u mult (format_d n)); [|by rewrite Ho|done|done|apply cut_suffix_of_app].
      by rewrite ParseInt_format_d.
    + intros E. apply (f_equal String.length) in E. rewrite str_length_app, (Hlen u Hu1) in E. simpl in E. lia.
    + intros E. apply (f_equal String.length) in E. rewrite str_length_app, (Hlen u Hu1) in E. simpl in E. lia.
  - intros s. unfold ParseByteSize. destruct (str_empty s || str_eqb s "0"); [done|]. destruct (ParseInt s); [done|].
    destruct (decide (Exists (λ um, cut_suffix s um.1 ≠ None) multipliers)) as [He|He].
    + apply Exists_exists in He as ([v m] & Hv & Hs). simpl in Hs. destruct (cut_suffix s v) as [t|] eqn:E; [|done].
      rewrite (size_with_unit_at order s v m t), (size_with_unit_at multipliers s v m t); try done. by rewrite Ho.
    + rewrite !size_with_unit_none; [done|..]; intros v m Hv; rewrite ?Ho in Hv;
        destruct (cut_suffix s v) eqn:E; try done; destruct He; apply Exists_exists; exists (v, m); simpl; by rewrite E.
Qed.

Lemma ParseByteSize_unit_witness : ParseByteSize (reverse multipliers) "64Mi" = Some 67108864.
Proof.
  destruct (ParseByteSize_unit (reverse multipliers) 64 "Mi" (2 ^ 20)) as [E _]; [apply reverse_Permutation| |unfold int64_range, min_int64, max_int64; lia|].
  - apply list_elem_of_lookup. by exists 1%nat.
  - exact E.
Defined.

(** A size beyond int64 wraps around silently: sixteen exbibytes are zero. *)
Example ParseByteSize_wraps : ParseByteSize multipliers "16777216Ti" = Some 0.
Proof. by vm_compute. Qed.
