(* ===== verification/AppErrors.v ===== *)
(** * Application errors

    [src/internal/pkg/errors/errors.go]: the structured errors of the program
    with their rendering. [ValidationError] is a tree; the other kinds are flat
    records. An underlying error is represented by its text. *)

From S2P Require Import Prelude Sha256 GoStrings.
Open Scope Z_scope.

(** The values that are attached to errors. *)
Inductive any := AStr (s : string) | AInt (z : Z).

(** The [%v] verb. *)
Definition format_v (a : any) : string := match a with AStr s => s | AInt z => format_d z end.

Definition Fields := gmap string any.

(** [strings.Join]. *)
Fixpoint Join (l : list string) (sep : string) : string :=
  match l with
  | [] => ""
  | [s] => s
  | s :: l' => s +:+ sep +:+ Join l' sep
  end.

Definition quoted (label s : string) : string := label +:+ " '" +:+ s +:+ "'".

Definition part (s : string) (text : string) : list string := if str_empty s then [] else [text].
Definition value_part (v : option any) : list string :=
  match v with Some a => ["value: " +:+ format_v a] | None => [] end.
Definition with_cause (msg : string) (err : option string) : string :=
  match err with Some e => msg +:+ ": " +:+ e | None => msg end.

(** ** Flat errors *)

Record NetworkError := mkNetworkError {
  ne_Op : string; ne_Host : string; ne_Port : Z; ne_Message : string; ne_Err : option string; ne_Fields : Fields
}.

Definition NetworkError_Error (e : NetworkError) : string :=
  let host :=
    if str_empty (ne_Host e) then []
    else if decide (ne_Port e > 0) then [ne_Host e +:+ ":" +:+ format_d (ne_Port e)] else [ne_Host e] in
  with_cause (Join (part (ne_Op e) (ne_Op e) ++ host ++ part (ne_Message e) (ne_Message e)) ": ") (ne_Err e).

Definition NewNetworkError (message : string) : NetworkError := mkNetworkError "" "" 0 message None ∅.

Record ConfigError := mkConfigError {
  ce_Field : string; ce_Value : option any; ce_Message : string; ce_Err : option string; ce_Fields : Fields
}.

Definition ConfigError_Error (e : ConfigError) : string :=
  with_cause (Join (part (ce_Field e) (quoted "field" (ce_Field e)) ++ part (ce_Message e) (ce_Message e)
    ++ value_part (ce_Value e)) ": ") (ce_Err e).

Definition NewConfigError (message : string) : ConfigError := mkConfigError "" None message None ∅.

Record TLSError := mkTLSError {
  te_Op : string; te_Host : string; te_Message : string; te_Err : option string; te_Fields : Fields
}.

Definition TLSError_Error (e : TLSError) : string :=
  with_cause (Join (part (te_Op e) (te_Op e) ++ part (te_Host e) (te_Host e) ++ part (te_Message e) (te_Message e)) ": ")
    (te_Err e).

Definition NewTLSError (message : string) : TLSError := mkTLSError "" "" message None ∅.

(** ** Validation errors *)

Inductive ValidationError := mkValidationError
  (Field : string) (Value : option any) (Rule Message : string) (Err : option string) (fields : Fields)
  (children : list ValidationError).

Definition ve_Message (e : ValidationError) : string := let '(mkValidationError _ _ _ m _ _ _) := e in m.
Definition ve_Fields (e : ValidationError) : Fields := let '(mkValidationError _ _ _ _ _ f _) := e in f.
Definition ve_Children (e : ValidationError) : list ValidationError :=
  let '(mkValidationError _ _ _ _ _ _ c) := e in c.

Definition NewValidationError (message : string) : ValidationError := mkValidationError "" None "" message None ∅ [].

Definition WithField (key : string) (value : any) (e : ValidationError) : ValidationError :=
  let '(mkValidationError f v r m err fs c) := e in mkValidationError f v r m err (<[key := value]> fs) c.

Definition WithFields (fields : Fields) (e : ValidationError) : ValidationError :=
  map_fold WithField e fields.

Definition AddChild (child : ValidationError) (e : ValidationError) : ValidationError :=
  let '(mkValidationError f v r m err fs c) := e in mkValidationError f v r m err fs (c ++ [child]).

Fixpoint ValidationError_Error (e : ValidationError) : string :=
  let '(mkValidationError f v r m err _ children) := e in
  let msg := with_cause (Join (part f (quoted "field" f) ++ part r (quoted "rule" r) ++ part m m ++ value_part v) ": ") err in
  match children with
  | [] => msg
  | _ => msg +:+ " [" +:+ Join (map ValidationError_Error children) "; " +:+ "]"
  end.

Example error_text :
  ValidationError_Error (AddChild (NewValidationError "b") (AddChild (NewValidationError "a") (NewValidationError "bad"))) =
    "bad [a; b]"%string.
Proof. reflexivity. Qed.

(** Attaching a field or a child keeps the rest. *)
Lemma ve_Children_WithField k v e : ve_Children (WithField k v e) = ve_Children e.
Proof. by destruct e. Qed.

Lemma ve_Children_AddChild c e : ve_Children (AddChild c e) = ve_Children e ++ [c].
Proof. by destruct e. Qed.

Lemma ve_Fields_WithField k v e : ve_Fields (WithField k v e) = <[k := v]> (ve_Fields e).
Proof. by destruct e. Qed.

#[export] Hint Rewrite ve_Children_WithField ve_Children_AddChild ve_Fields_WithField : go_lookup.
