(* ===== verification/ConfigValidation.v ===== *)
(** * Validation of configuration snapshots

    [src/internal/agent/config/validation.go]: the agent's checks of a
    snapshot. Every validator returns the error it finds first, or
    collects the errors of its children; a nil error is [None], a nil pointer
    in a list or map is [None]. The range loops over maps take their order from
    [visit]. *)

From S2P Require Import Prelude Sha256 GoStrings GoNet AppErrors.
Open Scope Z_scope.

(** ** The messages that are validated *)

Definition Protocol := Z.
Definition PROTOCOL_UNSPECIFIED : Protocol := 0.
Definition Protocol_HTTPS : Protocol := 2.
Definition Protocol_TLS : Protocol := 5.

(** [Protocol.String]: the name, or the number of an unknown value. *)
Definition Protocol_String (p : Protocol) : string :=
  match p with
  | 0 => "PROTOCOL_UNSPECIFIED" | 1 => "HTTP" | 2 => "HTTPS" | 3 => "HTTP3" | 4 => "TCP" | 5 => "TLS" | 6 => "UDP"
  | _ => format_d p
  end%string.

Definition PATH_MATCH_TYPE_UNSPECIFIED : Z := 0.
Definition PathMatchType_EXACT : Z := 1.
Definition PathMatchType_PATH_PREFIX : Z := 2.

Record TLSConfig := mkTLSConfig { tls_Cert : string; tls_Key : string }.
Record Listener := mkListener {
  li_Name : string; li_Port : Z; li_Protocol : Protocol; li_Tls : option TLSConfig;
  li_TlsCertificates : gmap string (option TLSConfig)
}.
Record Gateway := mkGateway { gw_Name : string; gw_Namespace : string; gw_Listeners : list (option Listener) }.
Record PathMatch := mkPathMatch { pm_Type : Z; pm_Value : string }.
Record RouteMatch := mkRouteMatch { rm_Path : option PathMatch; rm_Method : string }.
Record BackendRef := mkBackendRef { br_Name : string; br_Namespace : string; br_Weight : Z }.
Record RouteRule := mkRouteRule { rr_Matches : list (option RouteMatch); rr_BackendRefs : list (option BackendRef) }.
Record Route := mkRoute { ro_Name : string; ro_Namespace : string; ro_Rules : list (option RouteRule) }.
Record Cluster := mkCluster {
  cl_Name : string; cl_Namespace : string; cl_ConnectTimeoutMs : Z; cl_IdleTimeoutMs : Z
}.
Record Endpoint := mkEndpoint { ep_Address : string; ep_Port : Z }.
Record Snapshot := mkSnapshot {
  sn_Version : string;
  sn_Gateways : list (option Gateway);
  sn_Routes : list (option Route);
  sn_Clusters : list (option Cluster);
  sn_Endpoints : gmap string (option (list (option Endpoint)))
}.

(** ** Building errors *)

Definition invalid (message field : string) : ValidationError :=
  WithField "field" (AStr field) (NewValidationError message).

Definition invalid_value (message field : string) (value : any) : ValidationError :=
  WithField "value" value (invalid message field).

(** The first error of a sequence of checks: each is an error or nothing. *)
Fixpoint first_error (l : list (option ValidationError)) : option ValidationError :=
  match l with
  | [] => None
  | Some e :: _ => Some e
  | None :: l' => first_error l'
  end.

(** A guard of the form [if bad { return err }]. *)
Definition reject (bad : bool) (e : ValidationError) : option ValidationError := if bad then Some e else None.

(** [name[i]] *)
Definition indexed (name : string) (i : nat) : string := name +:+ "[" +:+ format_d (Z.of_nat i) +:+ "]".
Definition keyed (name key : string) : string := name +:+ "[" +:+ key +:+ "]".

(** The collecting loops: a child error per failing element, [None] when no
    element fails. *)
Definition collect (parent : ValidationError) (errs : list (option ValidationError)) : option ValidationError :=
  match omap id errs with
  | [] => None
  | children => Some (foldl (λ p c, AddChild c p) parent children)
  end.

(** ** Hostnames *)

Definition hostname_char (c : ascii) : bool :=
  let b := byte_of c in
  bool_decide (97 ≤ b ≤ 122) || bool_decide (65 ≤ b ≤ 90) || bool_decide (48 ≤ b ≤ 57) || bool_decide (c = "-"%char).

Fixpoint all_chars (f : ascii → bool) (s : string) : bool :=
  match s with EmptyString => true | String c s' => f c && all_chars f s' end.

Fixpoint last_char (s : string) : option ascii :=
  match s with
  | EmptyString => None
  | String c EmptyString => Some c
  | String _ s' => last_char s'
  end.

Definition first_char (s : string) : option ascii := match s with String c _ => Some c | EmptyString => None end.

Definition hostname_label (part : string) : bool :=
  negb (str_empty part) && bool_decide (String.length part ≤ 63)%nat && all_chars hostname_char part &&
  negb (bool_decide (first_char part = Some "-"%char)) && negb (bool_decide (last_char part = Some "-"%char)).

Definition isValidHostname (hostname : string) : bool :=
  if str_empty hostname || bool_decide (253 < String.length hostname)%nat then false
  else forallb hostname_label (Split "." hostname).

(** ** Validators *)

Definition ValidateTLSConfig (tlsCfg : option TLSConfig) (fieldPrefix : string) : option ValidationError :=
  match tlsCfg with
  | None => None
  | Some t =>
      let hasCert := negb (str_empty (tls_Cert t)) in
      let hasKey := negb (str_empty (tls_Key t)) in
      if negb (Bool.eqb hasCert hasKey) then
        if hasCert then Some (invalid "TLS key is required when cert is provided" (fieldPrefix +:+ ".key"))
        else Some (invalid "TLS cert is required when key is provided" (fieldPrefix +:+ ".cert"))
      else None
  end.

Definition bad_port (p : Z) : bool := bool_decide (p < 1) || bool_decide (65535 < p).

Definition ValidateListener (visit : visiting) (listener : option Listener) (parentPrefix : string) (index : nat)
    : option ValidationError :=
  let prefix := indexed (parentPrefix +:+ ".listeners") index in
  match listener with
  | None => Some (invalid "listener cannot be nil" prefix)
  | Some l =>
      first_error
        ([reject (str_empty (li_Name l)) (invalid "listener name is required" (prefix +:+ ".name"));
          reject (bad_port (li_Port l))
            (invalid_value "listener port must be between 1 and 65535" (prefix +:+ ".port") (AInt (li_Port l)));
          reject (bool_decide (li_Protocol l = PROTOCOL_UNSPECIFIED))
            (invalid "listener protocol must be specified" (prefix +:+ ".protocol"));
          ValidateTLSConfig (li_Tls l) (prefix +:+ ".tls")] ++
         ((λ kv, ValidateTLSConfig kv.2 (keyed (prefix +:+ ".tls_certificates") kv.1)) <$> visit _ (li_TlsCertificates l)) ++
         [reject ((bool_decide (li_Protocol l = Protocol_HTTPS) || bool_decide (li_Protocol l = Protocol_TLS)) &&
                  bool_decide (li_Tls l = None) && bool_decide (size (li_TlsCertificates l) = 0%nat))
            (WithField "protocol" (AStr (Protocol_String (li_Protocol l)))
               (invalid "HTTPS/TLS listener requires TLS configuration" (prefix +:+ ".tls")))])
  end.

(** [validateNamespacedResource]; the children are validated in order. *)
Definition validateNamespacedResource (kind name namespace prefix childField : string)
    (children : list (option ValidationError)) : option ValidationError :=
  if str_empty name then Some (invalid (kind +:+ " name is required") (prefix +:+ ".name"))
  else if str_empty namespace then Some (invalid (kind +:+ " namespace is required") (prefix +:+ ".namespace"))
  else if bool_decide (children = []) then
    Some (invalid (kind +:+ " must have at least one " +:+ childField) (prefix +:+ "." +:+ childField +:+ "s"))
  else collect (NewValidationError (kind +:+ " '" +:+ namespace +:+ "/" +:+ name +:+ "' validation failed")) children.

Definition ValidateGateway (visit : visiting) (index : nat) (gw : option Gateway) : option ValidationError :=
  let prefix := indexed "gateways" index in
  match gw with
  | None => Some (invalid "gateway cannot be nil" prefix)
  | Some g =>
      validateNamespacedResource "gateway" (gw_Name g) (gw_Namespace g) prefix "listener"
        (imap (λ i l, ValidateListener visit l prefix i) (gw_Listeners g))
  end.

Definition validMethods : list string :=
  ["GET"; "HEAD"; "POST"; "PUT"; "DELETE"; "CONNECT"; "OPTIONS"; "TRACE"; "PATCH"]%string.

Definition ValidateRouteMatch (parentPrefix : string) (index : nat) (m : option RouteMatch) : option ValidationError :=
  let prefix := indexed (parentPrefix +:+ ".matches") index in
  match m with
  | None => Some (invalid "route match cannot be nil" prefix)
  | Some m =>
      let path_errors :=
        match rm_Path m with
        | None => []
        | Some p =>
            [reject (str_empty (pm_Value p)) (invalid "path match value cannot be empty" (prefix +:+ ".path.value"));
             reject (bool_decide (pm_Type p = PATH_MATCH_TYPE_UNSPECIFIED))
               (invalid "path match type must be specified" (prefix +:+ ".path.type"));
             reject ((bool_decide (pm_Type p = PathMatchType_EXACT) || bool_decide (pm_Type p = PathMatchType_PATH_PREFIX)) &&
                     negb (HasPrefix (pm_Value p) "/"))
               (invalid_value "path match value must start with '/'" (prefix +:+ ".path.value") (AStr (pm_Value p)))]
        end in
      first_error (path_errors ++
        [reject (negb (str_empty (rm_Method m)) && negb (contains validMethods (rm_Method m)))
           (invalid_value "invalid HTTP method" (prefix +:+ ".method") (AStr (rm_Method m)))])
  end.

Definition ValidateBackendRef (parentPrefix : string) (index : nat) (ref : option BackendRef) : option ValidationError :=
  let prefix := indexed (parentPrefix +:+ ".backend_refs") index in
  match ref with
  | None => Some (invalid "backend reference cannot be nil" prefix)
  | Some r =>
      first_error
        [reject (str_empty (br_Name r)) (invalid "backend reference name is required" (prefix +:+ ".name"));
         reject (bool_decide (br_Weight r < 0))
           (invalid_value "backend reference weight cannot be negative" (prefix +:+ ".weight") (AInt (br_Weight r)))]
  end.

Definition ValidateRouteRule (parentPrefix : string) (index : nat) (rule : option RouteRule) : option ValidationError :=
  let prefix := indexed (parentPrefix +:+ ".rules") index in
  match rule with
  | None => Some (invalid "route rule cannot be nil" prefix)
  | Some r =>
      first_error (imap (ValidateRouteMatch prefix) (rr_Matches r) ++
        [reject (bool_decide (rr_BackendRefs r = []))
           (invalid "route rule must have at least one backend reference" (prefix +:+ ".backend_refs"))] ++
        imap (ValidateBackendRef prefix) (rr_BackendRefs r))
  end.

Definition ValidateRoute (index : nat) (route : option Route) : option ValidationError :=
  let prefix := indexed "routes" index in
  match route with
  | None => Some (invalid "route cannot be nil" prefix)
  | Some r =>
      validateNamespacedResource "route" (ro_Name r) (ro_Namespace r) prefix "rule"
        (imap (ValidateRouteRule prefix) (ro_Rules r))
  end.

Definition ValidateCluster (index : nat) (cluster : option Cluster) : option ValidationError :=
  let prefix := indexed "clusters" index in
  match cluster with
  | None => Some (invalid "cluster cannot be nil" prefix)
  | Some c =>
      first_error
        [reject (str_empty (cl_Name c)) (invalid "cluster name is required" (prefix +:+ ".name"));
         reject (str_empty (cl_Namespace c)) (invalid "cluster namespace is required" (prefix +:+ ".namespace"));
         reject (bool_decide (cl_ConnectTimeoutMs c < 0))
           (invalid_value "cluster connect timeout cannot be negative" (prefix +:+ ".connect_timeout_ms")
              (AInt (cl_ConnectTimeoutMs c)));
         reject (bool_decide (cl_IdleTimeoutMs c < 0))
           (invalid_value "cluster idle timeout cannot be negative" (prefix +:+ ".idle_timeout_ms")
              (AInt (cl_IdleTimeoutMs c)))]
  end.

Definition ValidateEndpoint (clusterName : string) (index : nat) (ep : option Endpoint) : option ValidationError :=
  let prefix := indexed (keyed "endpoints" clusterName) index in
  match ep with
  | None => Some (invalid "endpoint cannot be nil" prefix)
  | Some e =>
      first_error
        [reject (str_empty (ep_Address e)) (invalid "endpoint address is required" (prefix +:+ ".address"));
         reject (negb (ParseIP (ep_Address e)) && negb (isValidHostname (ep_Address e)))
           (invalid_value "endpoint address must be a valid IP or hostname" (prefix +:+ ".address") (AStr (ep_Address e)));
         reject (bad_port (ep_Port e))
           (invalid_value "endpoint port must be between 1 and 65535" (prefix +:+ ".port") (AInt (ep_Port e)))]
  end.

Definition ValidateEndpointList (clusterName : string) (endpointList : option (list (option Endpoint)))
    : option ValidationError :=
  match endpointList with
  | None => Some (invalid "endpoint list cannot be nil" (keyed "endpoints" clusterName))
  | Some eps => first_error (imap (ValidateEndpoint clusterName) eps)
  end.

(** The validations of [ValidateSnapshot] in the order of its loops. *)
Definition part_errors (visit : visiting) (s : Snapshot) : list (option ValidationError) :=
  imap (ValidateGateway visit) (sn_Gateways s) ++ imap ValidateRoute (sn_Routes s) ++
  imap ValidateCluster (sn_Clusters s) ++
  ((λ kv, ValidateEndpointList kv.1 kv.2) <$> visit _ (sn_Endpoints s)).

Definition ValidateSnapshot (visit : visiting) (snapshot : option Snapshot) : option ValidationError :=
  match snapshot with
  | None => Some (NewValidationError "snapshot cannot be nil")
  | Some s =>
      if str_empty (sn_Version s) then Some (invalid "version is required" "version")
      else collect (NewValidationError "snapshot validation failed") (part_errors visit s)
  end.

(** ** What a valid snapshot is *)

Definition nonempty (s : string) : Prop := s ≠ ""%string.

(** Every element is present and satisfies [P]. *)
Definition each {A} (P : A → Prop) (l : list (option A)) : Prop :=
  Forall (λ o, match o with Some a => P a | None => False end) l.

Definition tls_ok (t : TLSConfig) : Prop := tls_Cert t = ""%string ↔ tls_Key t = ""%string.

Definition port_ok (p : Z) : Prop := 1 ≤ p ≤ 65535.

Record listener_ok (l : Listener) : Prop := {
  listener_name : nonempty (li_Name l);
  listener_port : port_ok (li_Port l);
  listener_protocol : li_Protocol l ≠ PROTOCOL_UNSPECIFIED;
  listener_tls : ∀ t, li_Tls l = Some t → tls_ok t;
  listener_certs : map_Forall (λ _ o, ∀ t, o = Some t → tls_ok t) (li_TlsCertificates l);
  listener_has_tls : li_Protocol l = Protocol_HTTPS ∨ li_Protocol l = Protocol_TLS →
    li_Tls l ≠ None ∨ li_TlsCertificates l ≠ ∅
}.

Definition gateway_ok (g : Gateway) : Prop :=
  nonempty (gw_Name g) ∧ nonempty (gw_Namespace g) ∧ gw_Listeners g ≠ [] ∧ each listener_ok (gw_Listeners g).

Definition path_ok (p : PathMatch) : Prop :=
  nonempty (pm_Value p) ∧ pm_Type p ≠ PATH_MATCH_TYPE_UNSPECIFIED ∧
  (pm_Type p = PathMatchType_EXACT ∨ pm_Type p = PathMatchType_PATH_PREFIX → HasPrefix (pm_Value p) "/" = true).

Definition match_ok (m : RouteMatch) : Prop :=
  (∀ p, rm_Path m = Some p → path_ok p) ∧ (rm_Method m = ""%string ∨ rm_Method m ∈ validMethods).

Definition ref_ok (r : BackendRef) : Prop := nonempty (br_Name r) ∧ 0 ≤ br_Weight r.

Definition rule_ok (r : RouteRule) : Prop :=
  each match_ok (rr_Matches r) ∧ rr_BackendRefs r ≠ [] ∧ each ref_ok (rr_BackendRefs r).

Definition route_ok (r : Route) : Prop :=
  nonempty (ro_Name r) ∧ nonempty (ro_Namespace r) ∧ ro_Rules r ≠ [] ∧ each rule_ok (ro_Rules r).

Definition cluster_ok (c : Cluster) : Prop :=
  nonempty (cl_Name c) ∧ nonempty (cl_Namespace c) ∧ 0 ≤ cl_ConnectTimeoutMs c ∧ 0 ≤ cl_IdleTimeoutMs c.

Definition endpoint_ok (e : Endpoint) : Prop :=
  nonempty (ep_Address e) ∧ (ParseIP (ep_Address e) = true ∨ isValidHostname (ep_Address e) = true) ∧ port_ok (ep_Port e).

Definition endpoints_ok (o : option (list (option Endpoint))) : Prop :=
  match o with Some eps => each endpoint_ok eps | None => False end.

Definition snapshot_ok (s : Snapshot) : Prop :=
  nonempty (sn_Version s) ∧ each gateway_ok (sn_Gateways s) ∧ each route_ok (sn_Routes s) ∧
  each cluster_ok (sn_Clusters s) ∧ map_Forall (λ _ o, endpoints_ok o) (sn_Endpoints s).

(** ** The validators decide it *)

Lemma first_error_None l : first_error l = None ↔ Forall (λ o, o = None) l.
Proof.
  induction l as [|[e|] l IH]; simpl; [by split|..].
  - split; [done|]. intros H. by apply Forall_cons in H as [? _].
  - rewrite Forall_cons, IH. naive_solver.
Qed.

Lemma reject_None b e : reject b e = None ↔ b = false.
Proof. by destruct b. Qed.

Lemma collect_None parent errs : collect parent errs = None ↔ Forall (λ o, o = None) errs.
Proof.
  unfold collect. induction errs as [|[e|] errs IH]; simpl; [by split|..].
  - split; [done|]. intros H. by apply Forall_cons in H as [? _].
  - rewrite IH, Forall_cons. naive_solver.
Qed.

Lemma imap_None {A} (f : nat → A → option ValidationError) (P : A → Prop) l :
  (∀ i x, f i x = None ↔ P x) → Forall (λ o, o = None) (imap f l) ↔ Forall P l.
Proof.
  revert f. induction l as [|x l IH]; intros f Hf; simpl; [by rewrite !Forall_nil|].
  rewrite !Forall_cons, Hf, (IH (λ i, f (S i))) by (intros; apply Hf). done.
Qed.

Lemma imap_each_None {A} (f : nat → option A → option ValidationError) (P : A → Prop) l :
  (∀ i x, f i (Some x) = None ↔ P x) → (∀ i, f i None ≠ None) → Forall (λ o, o = None) (imap f l) ↔ each P l.
Proof.
  intros Hs Hn. apply imap_None. intros i [x|]; [apply Hs|]. split; [|done]. intros E. by destruct (Hn i).
Qed.

Lemma range_Forall {V} (f : string * V → option ValidationError) (P : V → Prop) (m : gmap string V) l :
  range_order m l → (∀ k v, f (k, v) = None ↔ P v) →
  Forall (λ o, o = None) (f <$> l) ↔ map_Forall (λ _, P) m.
Proof.
  intros Hl Hf. rewrite Forall_fmap, Hl, map_Forall_to_list. apply Forall_iff. intros [k v]. apply Hf.
Qed.

Lemma str_empty_false s : str_empty s = false ↔ nonempty s.
Proof. apply bool_decide_eq_false. Qed.

Lemma bad_port_false p : bad_port p = false ↔ port_ok p.
Proof. unfold bad_port, port_ok. repeat case_bool_decide; simpl; split; intros; try done; lia. Qed.

Lemma ValidateTLSConfig_None o pre : ValidateTLSConfig o pre = None ↔ ∀ t, o = Some t → tls_ok t.
Proof.
  destruct o as [t|]; simpl; [|naive_solver]. unfold str_empty, tls_ok.
  repeat case_bool_decide; simpl; naive_solver.
Qed.

(** Unfold a sequence of checks into a conjunction. *)
Ltac checks :=
  rewrite ?first_error_None, ?Forall_app, ?Forall_cons, ?Forall_nil, ?reject_None, ?str_empty_false, ?bad_port_false,
    ?andb_false_iff, ?orb_false_iff, ?bool_decide_eq_false.

Lemma ValidateListener_None visit l pre i :
  (∀ V m, range_order m (visit V m)) → ValidateListener visit (Some l) pre i = None ↔ listener_ok l.
Proof.
  intros Hv. unfold ValidateListener. checks.
  rewrite (range_Forall _ (λ o, ∀ t, o = Some t → tls_ok t) _ _ (Hv _ _)) by (intros; apply ValidateTLSConfig_None).
  rewrite ValidateTLSConfig_None.
  assert (size (li_TlsCertificates l) ≠ 0%nat ↔ li_TlsCertificates l ≠ ∅) as Hsz.
  { by rewrite map_size_empty_iff. }
  split.
  - intros ([Hn [Hp [Hpr [Ht _]]]] & Hc & [Hr _]). constructor; naive_solver.
  - intros [Hn Hp Hpr Ht Hc Hr]. split_and!; try done.
    destruct (decide (li_Protocol l = Protocol_HTTPS)), (decide (li_Protocol l = Protocol_TLS)); naive_solver.
Qed.

Lemma namespaced_None kind name namespace prefix cf children :
  validateNamespacedResource kind name namespace prefix cf children = None ↔
  nonempty name ∧ nonempty namespace ∧ children ≠ [] ∧ Forall (λ o, o = None) children.
Proof.
  unfold validateNamespacedResource, nonempty, str_empty. repeat case_bool_decide; try naive_solver.
  rewrite collect_None. naive_solver.
Qed.

Lemma imap_nil_iff {A B} (f : nat → A → B) l : imap f l ≠ [] ↔ l ≠ [].
Proof. by destruct l. Qed.

Lemma ValidateGateway_None visit i g :
  (∀ V m, range_order m (visit V m)) → ValidateGateway visit i (Some g) = None ↔ gateway_ok g.
Proof.
  intros Hv. unfold ValidateGateway, gateway_ok. rewrite namespaced_None, imap_nil_iff.
  rewrite (imap_each_None _ listener_ok); [done|intros; by apply ValidateListener_None|done].
Qed.

Lemma ValidateRouteMatch_None pre i m : ValidateRouteMatch pre i (Some m) = None ↔ match_ok m.
Proof.
  unfold ValidateRouteMatch, match_ok, contains. destruct m as [[[ty v]|] me]; cbn [rm_Path rm_Method]; checks;
    cbn [pm_Type pm_Value]; rewrite ?negb_false_iff, ?bool_decide_eq_true; unfold str_empty; rewrite ?bool_decide_eq_true.
  - split.
    + intros [(Hv & Ht & Hp & _) [Hm _]]. split; [|done]. intros p [= <-]. split_and!; [done|done|]. simpl. naive_solver.
    + intros [Hp Hm]. destruct (Hp _ eq_refl) as (Hv & Ht & Hpre). simpl in *. split_and!; try done.
      destruct (decide (ty = PathMatchType_EXACT)), (decide (ty = PathMatchType_PATH_PREFIX)); naive_solver.
  - naive_solver.
Qed.

Lemma ValidateBackendRef_None pre i r : ValidateBackendRef pre i (Some r) = None ↔ ref_ok r.
Proof. unfold ValidateBackendRef, ref_ok. checks. rewrite Z.nlt_ge. naive_solver. Qed.

Lemma ValidateRouteRule_None pre i r : ValidateRouteRule pre i (Some r) = None ↔ rule_ok r.
Proof.
  unfold ValidateRouteRule, rule_ok. checks.
  rewrite (imap_each_None _ match_ok), (imap_each_None _ ref_ok);
    [naive_solver|intros; apply ValidateBackendRef_None|done|intros; apply ValidateRouteMatch_None|done].
Qed.

Lemma ValidateRoute_None i r : ValidateRoute i (Some r) = None ↔ route_ok r.
Proof.
  unfold ValidateRoute, route_ok. rewrite namespaced_None, imap_nil_iff.
  rewrite (imap_each_None _ rule_ok); [done|intros; apply ValidateRouteRule_None|done].
Qed.

Lemma ValidateCluster_None i c : ValidateCluster i (Some c) = None ↔ cluster_ok c.
Proof. unfold ValidateCluster, cluster_ok. checks. rewrite !Z.nlt_ge. naive_solver. Qed.

Lemma ValidateEndpoint_None cl i e : ValidateEndpoint cl i (Some e) = None ↔ endpoint_ok e.
Proof. unfold ValidateEndpoint, endpoint_ok. checks. rewrite !negb_false_iff. naive_solver. Qed.

Lemma ValidateEndpointList_None cl o : ValidateEndpointList cl o = None ↔ endpoints_ok o.
Proof.
  destruct o as [eps|]; simpl; [|done]. rewrite first_error_None.
  apply imap_each_None; [intros; apply ValidateEndpoint_None|done].
Qed.

(** The children of a collected error are the errors of the parts, in order. *)
Lemma foldl_AddChild_children l p : ve_Children (foldl (λ p c, AddChild c p) p l) = ve_Children p ++ l.
Proof.
  revert p. induction l as [|c l IH]; intros p; simpl; [by rewrite app_nil_r|].
  by rewrite IH, ve_Children_AddChild, <- app_assoc.
Qed.

Lemma foldl_AddChild_message l p : ve_Message (foldl (λ p c, AddChild c p) p l) = ve_Message p.
Proof. revert p. induction l as [|c l IH]; intros p; simpl; [done|]. rewrite IH. by destruct p. Qed.

Lemma collect_Some parent errs e :
  collect parent errs = Some e →
  ve_Children e = ve_Children parent ++ omap id errs ∧ ve_Message e = ve_Message parent ∧ omap id errs ≠ [].
Proof.
  unfold collect. destruct (omap id errs) as [|c l] eqn:E; [done|]. intros [= <-].
  rewrite foldl_AddChild_children, foldl_AddChild_message, ve_Children_AddChild, <- app_assoc.
  split_and!; [done|by destruct parent|done].
Qed.

Section snapshots.
Context (visit : visiting) (visit_order : ∀ V m, range_order m (visit V m)).

Lemma part_errors_None s :
  Forall (λ o, o = None) (part_errors visit s) ↔
  each gateway_ok (sn_Gateways s) ∧ each route_ok (sn_Routes s) ∧ each cluster_ok (sn_Clusters s) ∧
  map_Forall (λ _ o, endpoints_ok o) (sn_Endpoints s).
Proof.
  unfold part_errors. rewrite !Forall_app.
  rewrite (imap_each_None _ gateway_ok) by (intros; first [by apply ValidateGateway_None | done]).
  rewrite (imap_each_None _ route_ok) by (intros; first [by apply ValidateRoute_None | done]).
  rewrite (imap_each_None _ cluster_ok) by (intros; first [by apply ValidateCluster_None | done]).
  rewrite (range_Forall _ endpoints_ok _ _ (visit_order _ _)) by (intros; apply ValidateEndpointList_None). done.
Qed.

(** A snapshot passes the agent's validation exactly when it is well
    formed: every gateway, route, cluster and endpoint list is present, named
    and inside its bounds, HTTPS and TLS listeners have a certificate, path
    values start with a slash, endpoint addresses are IP addresses or host
    names; whatever order the maps are visited in. *)
Theorem ValidateSnapshot_decides s : ValidateSnapshot visit (Some s) = None ↔ snapshot_ok s.
Proof.
  unfold ValidateSnapshot, snapshot_ok, nonempty, str_empty. case_bool_decide; [naive_solver|].
  rewrite collect_None, part_errors_None. naive_solver.
Qed.

(** A rejected snapshot with a version is rejected with one child error
    per faulty part, in the order gateways, routes, clusters, endpoint lists,
    and there is at least one. *)
Theorem ValidateSnapshot_reports s e :
  nonempty (sn_Version s) → ValidateSnapshot visit (Some s) = Some e →
  ve_Message e = "snapshot validation failed"%string ∧ ve_Children e = omap id (part_errors visit s) ∧ ve_Children e ≠ [].
Proof.
  intros Hver. unfold ValidateSnapshot. rewrite (proj2 (str_empty_false _) Hver).
  intros (Hc & Hm & Hne)%collect_Some. simpl in *. by rewrite Hc.
Qed.

End snapshots.

(** A snapshot with one gateway that listens on [port]. *)
Definition example_snapshot (port : Z) : Snapshot :=
  mkSnapshot "v1"
    [Some (mkGateway "edge" "default" [Some (mkListener "https" port Protocol_HTTPS (Some (mkTLSConfig "cert" "key")) ∅)])]
    [Some (mkRoute "r" "default" [Some (mkRouteRule [Some (mkRouteMatch (Some (mkPathMatch 1 "/api")) "GET")]
       [Some (mkBackendRef "web" "default" 1)])])]
    [Some (mkCluster "web" "default" 1000 0)]
    {[ "default/web"%string := Some [Some (mkEndpoint "10.0.0.1" 8080); Some (mkEndpoint "web.example" 8080)] ]}.

Lemma ValidateSnapshot_decides_witness : snapshot_ok (example_snapshot 443).
Proof.
  apply (ValidateSnapshot_decides (λ V m, map_to_list m) (λ V m, reflexivity _)). vm_compute. reflexivity.
Defined.

Lemma ValidateSnapshot_reports_witness :
  length (omap id (part_errors (λ V m, map_to_list m) (example_snapshot 70000))) = 1%nat.
Proof.
  destruct (ValidateSnapshot (λ V m, map_to_list m) (Some (example_snapshot 70000))) as [e|] eqn:E; [|by vm_compute in E].
  destruct (ValidateSnapshot_reports (λ V m, map_to_list m) (example_snapshot 70000) e ltac:(done) E) as (_ & <- & _).
  revert E. vm_compute. intros [= <-]. reflexivity.
Defined.
