(* ===== verification/BuilderTypes.v ===== *)
(** * Resources and snapshots

    The Kubernetes resources the snapshot builder reads, [src/api/v1alpha1]
    (module [Crd], with the fields the builder uses and those it ignores where
    that matters), and the messages it writes, [src/api/proto/config.proto]
    (module [Pb]). A pointer is an option; a list is a slice; an enumeration of
    the API is its string and one of the protocol its number; a duration is in
    nanoseconds. Messages that copy a resource field by field share its
    record. *)

From S2P Require Import Prelude Float64.
Open Scope Z_scope.

(** ** Records shared by resources and messages *)

Record QUICConfig := mkQUICConfig { q_MaxIdleTimeout : string; q_MaxBiStreams : Z; q_MaxUniStreams : Z; q_Enable0RTT : bool }.
Record RedirectSchemeConfig := mkRedirectSchemeConfig {
  rd_Enabled : bool; rd_Scheme : string; rd_Port : Z; rd_StatusCode : Z; rd_Exclusions : list string }.
Record HTTPHeader := mkHTTPHeader { hh_Name : string; hh_Value : string }.
Record TransformOperation := mkTransformOperation { op_Op : string; op_Path : string; op_Value : string; op_From : string }.
Record UpstreamProxyProtocol := mkUpstreamProxyProtocol { up_Enabled : bool; up_Version : Z }.
Record JWTConfig := mkJWTConfig {
  jw_Issuer : string; jw_Audience : list string; jw_JWKSUri : string; jw_HeaderName : string; jw_HeaderPrefix : string;
  jw_AllowedAlgorithms : list string }.
Record HSTSConfig := mkHSTSConfig { hs_Enabled : bool; hs_MaxAge : Z; hs_IncludeSubDomains : bool; hs_Preload : bool }.
Record SecurityHeadersConfig := mkSecurityHeadersConfig {
  sh_HSTS : option HSTSConfig; sh_ContentSecurityPolicy : string; sh_XFrameOptions : string; sh_XContentTypeOptions : bool;
  sh_XXSSProtection : string; sh_ReferrerPolicy : string; sh_PermissionsPolicy : string; sh_CrossOriginEmbedderPolicy : string;
  sh_CrossOriginOpenerPolicy : string; sh_CrossOriginResourcePolicy : string }.
Record KeycloakConfig := mkKeycloakConfig { kc_ServerURL : string; kc_Realm : string; kc_RoleClaim : string; kc_GroupClaim : string }.
Record AuthorizationConfig := mkAuthorizationConfig { az_RequiredRoles : list string; az_RequiredGroups : list string; az_Mode : string }.
Record MeshSource := mkMeshSource { ms_Namespaces : list string; ms_ServiceAccounts : list string; ms_SpiffeIDs : list string }.
Record MeshDestination := mkMeshDestination { md_Methods : list string; md_Paths : list string }.
Record MeshAuthorizationRule := mkMeshAuthorizationRule { mr_From : list MeshSource; mr_To : list MeshDestination }.
Record WANTunnelEndpoint := mkWANTunnelEndpoint { wt_PublicIP : string; wt_Port : Z }.
Record WANPolicyMatch := mkWANPolicyMatch { wm_Hosts : list string; wm_Paths : list string; wm_Headers : gmap string string }.
Record WANPathSelection := mkWANPathSelection { wp_Strategy : string; wp_Failover : bool; wp_DSCPClass : string }.

(** ** Resources *)

Module Crd.

Record SecretReference := mkSecretReference { sr_Name : string; sr_Namespace : string }.
Record VaultCertReference := mkVaultCertReference { va_Path : string; va_Role : string; va_TTL : string; va_CacheSecretName : string }.
Record TLSConfig := mkTLSConfig {
  SecretRef : option SecretReference; VaultCertRef : option VaultCertReference; MinVersion : string; CipherSuites : list string }.
Record ClientAuthConfig := mkClientAuthConfig {
  Mode : string; CACertRef : option SecretReference; RequiredCNPatterns : list string; RequiredSANs : list string }.
Record ProxyProtocolConfig := mkProxyProtocolConfig { pp_Enabled : bool; pp_Version : Z; pp_TrustedCIDRs : list string }.
Record Listener := mkListener {
  l_Name : string; l_Port : Z; l_Protocol : string; l_TLS : option TLSConfig; l_TLSCertificates : gmap string TLSConfig;
  l_QUIC : option QUICConfig; l_Hostnames : list string; l_SSLRedirect : bool; l_ClientAuth : option ClientAuthConfig;
  l_OCSPStapling : bool; l_ProxyProtocol : option ProxyProtocolConfig; l_AllowedSourceRanges : list string;
  l_MaxRequestBodySize : Z }.
Record CustomErrorPage := mkCustomErrorPage { pg_Codes : list Z; pg_Path : string; pg_Body : string }.
Record CompressionConfig := mkCompressionConfig {
  cc_Enabled : bool; cc_MinSize : string; cc_Level : Z; cc_Algorithms : list string; cc_ExcludeTypes : list string }.
Record ExtProcConfig := mkExtProcConfig {
  xp_Address : string; xp_Timeout : option Z; xp_FailOpen : option bool; xp_ProcessRequestHeaders : option bool;
  xp_ProcessRequestBody : option bool; xp_ProcessResponseHeaders : option bool; xp_ProcessResponseBody : option bool }.
Record TracingConfig := mkTracingConfig {
  tr_Enabled : bool; tr_SamplingRate : option Z; tr_RequestIDHeader : string; tr_PropagateRequestID : bool; tr_GenerateRequestID : bool }.
Record AccessLogConfig := mkAccessLogConfig {
  ac_Enabled : bool; ac_Format : string; ac_Template : string; ac_Output : string; ac_FilePath : string; ac_MaxSize : string;
  ac_MaxBackups : option Z; ac_IncludeHeaders : list string; ac_ExcludePaths : list string; ac_FilterStatusCodes : list Z;
  ac_SampleRate : option float64 }.
Record ProxyGateway := mkProxyGateway {
  g_Name : string; g_Namespace : string; g_IngressClassName : string; g_LoadBalancerClass : string; g_Listeners : list Listener;
  g_CustomErrorPages : list CustomErrorPage; g_Compression : option CompressionConfig;
  g_RedirectScheme : option RedirectSchemeConfig; g_ExtProc : option ExtProcConfig; g_Labels : gmap string string;
  g_Tracing : option TracingConfig; g_AccessLog : option AccessLogConfig }.

Record HTTPPathMatch := mkHTTPPathMatch { pa_Type : string; pa_Value : string }.
Record HTTPHeaderMatch := mkHTTPHeaderMatch { ha_Type : string; ha_Name : string; ha_Value : string }.
Record HTTPRouteMatch := mkHTTPRouteMatch {
  m_Path : option HTTPPathMatch; m_Headers : list HTTPHeaderMatch; m_QueryParams : list HTTPHeaderMatch; m_Method : option string }.
Record BackendRef := mkBackendRef { b_Name : string; b_Namespace : option string; b_Weight : option Z }.
Record HTTPRouteFilter := mkHTTPRouteFilter {
  f_Type : string; f_Add : list HTTPHeader; f_Remove : list string; f_RedirectURL : option string; f_RewritePath : option string;
  f_ResponseAdd : list HTTPHeader; f_ResponseRemove : list string; f_ResponseSet : list HTTPHeader;
  f_MirrorBackend : option BackendRef; f_MirrorPercent : option Z }.
Record RouteLimits := mkRouteLimits { rl_MaxRequestBodySize : string; rl_RequestTimeout : string; rl_IdleTimeout : string }.
Record RouteBufferingConfig := mkRouteBufferingConfig { rb_Request : bool; rb_Response : bool; rb_MaxSize : string }.
Record RouteMirrorConfig := mkRouteMirrorConfig { mi_BackendRef : BackendRef; mi_Percentage : Z }.
Record RetryConfig := mkRetryConfig {
  re_MaxRetries : Z; re_PerTryTimeout : option Z; re_RetryOn : list string; re_RetryBudget : option float64;
  re_BackoffBase : option Z; re_RetryMethods : list string }.
Record FaultInjectionConfig := mkFaultInjectionConfig {
  fi_DelayDuration : option Z; fi_DelayPercent : option Z; fi_AbortStatusCode : option Z; fi_AbortPercent : option Z;
  fi_HeaderActivation : string }.
Record BodyTransformConfig := mkBodyTransformConfig {
  bt_Request : list TransformOperation; bt_Response : list TransformOperation; bt_MaxBodySize : option Z }.
Record HTTPRouteRule := mkHTTPRouteRule {
  r_Matches : list HTTPRouteMatch; r_Filters : list HTTPRouteFilter; r_BackendRefs : list BackendRef;
  r_Mirror : option RouteMirrorConfig; r_Limits : option RouteLimits; r_Buffering : option RouteBufferingConfig;
  r_Retry : option RetryConfig; r_FaultInjection : option FaultInjectionConfig; r_BodyTransform : option BodyTransformConfig }.
Record MiddlewareRefConfig := mkMiddlewareRefConfig {
  mw_Type : string; mw_Name : string; mw_Priority : Z; mw_Config : gmap string string }.
Record RouteAccessLogConfig := mkRouteAccessLogConfig {
  al_Enabled : bool; al_Format : string; al_Template : string; al_Output : string; al_FilePath : string; al_MaxSize : string;
  al_MaxBackups : option Z; al_FilterStatusCodes : list Z; al_SampleRate : option Z }.
Record ProxyRoute := mkProxyRoute {
  ro_Name : string; ro_Namespace : string; ro_Hostnames : list string; ro_Rules : list HTTPRouteRule;
  ro_AccessLog : option RouteAccessLogConfig; ro_Pipeline : option (list MiddlewareRefConfig); ro_Expression : string;
  ro_Labels : gmap string string }.

Record ServiceReference := mkServiceReference { s_Name : string; s_Namespace : option string; s_Port : Z }.
Record CircuitBreaker := mkCircuitBreaker {
  cb_MaxConnections : option Z; cb_MaxPendingRequests : option Z; cb_MaxRequests : option Z; cb_MaxRetries : option Z;
  cb_ConsecutiveFailures : option Z; cb_Interval : Z; cb_BaseEjectionTime : Z }.
Record RetryBackoff := mkRetryBackoff { bo_BaseInterval : Z; bo_MaxInterval : Z }.
Record RetryPolicy := mkRetryPolicy {
  rp_NumRetries : option Z; rp_PerTryTimeout : Z; rp_RetryOn : string; rp_RetryBackoff : option RetryBackoff }.
Record SessionAffinityConfig := mkSessionAffinityConfig {
  sa_Type : string; sa_CookieName : string; sa_CookieTTL : Z; sa_CookiePath : string; sa_HeaderName : string;
  sa_Secure : bool; sa_SameSite : string }.
Record ConnectionPool := mkConnectionPool {
  cp_MaxIdleConns : option Z; cp_MaxIdleConnsPerHost : option Z; cp_MaxConnsPerHost : option Z; cp_IdleConnTimeout : Z }.
Record HealthCheck := mkHealthCheck {
  hc_Interval : Z; hc_Timeout : Z; hc_HealthyThreshold : option Z; hc_UnhealthyThreshold : option Z; hc_HTTPPath : option string }.
Record BackendTLSConfig := mkBackendTLSConfig {
  bl_Enabled : bool; bl_InsecureSkipVerify : bool; bl_CACertSecretRef : option string; bl_ClientCertSecretRef : option string }.
Record SlowStartConfig := mkSlowStartConfig { ss_Window : Z; ss_Aggression : string }.
Record OutlierDetectionConfig := mkOutlierDetectionConfig {
  od_Interval : Z; od_Consecutive5xxThreshold : option Z; od_BaseEjectionDuration : Z; od_MaxEjectionPercent : option Z;
  od_SuccessRateMinHosts : option Z; od_SuccessRateMinRequests : option Z; od_SuccessRateStdevFactor : string }.
Record ProxyBackend := mkProxyBackend {
  k_Name : string; k_Namespace : string; k_ServiceRef : option ServiceReference; k_LBPolicy : string; k_ConnectTimeout : Z;
  k_IdleTimeout : Z; k_CircuitBreaker : option CircuitBreaker; k_HealthCheck : option HealthCheck; k_TLS : option BackendTLSConfig;
  k_ConnectionPool : option ConnectionPool; k_SessionAffinity : option SessionAffinityConfig;
  k_UpstreamProxyProtocol : option UpstreamProxyProtocol; k_Protocol : string; k_SlowStart : option SlowStartConfig;
  k_OutlierDetection : option OutlierDetectionConfig; k_RetryPolicy : option RetryPolicy; k_Labels : gmap string string }.

Record RateLimitConfig := mkRateLimitConfig { rt_RequestsPerSecond : Z; rt_Burst : option Z; rt_Key : string }.
Record IPListConfig := mkIPListConfig { ip_CIDRs : list string; ip_SourceHeader : option string }.
Record CORSConfig := mkCORSConfig {
  co_AllowOrigins : list string; co_AllowMethods : list string; co_AllowHeaders : list string; co_ExposeHeaders : list string;
  co_MaxAge : option Z; co_AllowCredentials : bool }.
Record RedisConfig := mkRedisConfig {
  rs_Address : string; rs_Password : option string (* the secret's name *); rs_TLS : bool; rs_Database : Z; rs_ClusterMode : bool }.
Record DistributedRateLimitConfig := mkDistributedRateLimitConfig {
  dr_RequestsPerSecond : Z; dr_Burst : option Z; dr_Algorithm : string; dr_Key : string; dr_RedisRef : RedisConfig }.
Record WAFConfig := mkWAFConfig {
  wf_Enabled : bool; wf_Mode : string; wf_ParanoiaLevel : Z; wf_AnomalyThreshold : Z; wf_RulesConfigMap : option string;
  wf_RuleExclusions : list string; wf_CustomRules : list string; wf_MaxBodySize : Z; wf_ResponseBodyInspection : bool;
  wf_MaxResponseBodySize : Z }.
Record WASMPluginConfig := mkWASMPluginConfig {
  wa_Source : string; wa_ConfigRef : option string; wa_Config : gmap string string; wa_Phase : string; wa_Priority : Z }.
Record BasicAuthPolicyConfig := mkBasicAuthPolicyConfig { ba_Realm : string; ba_SecretRef : string; ba_StripAuth : bool }.
Record ForwardAuthPolicyConfig := mkForwardAuthPolicyConfig {
  fa_Address : string; fa_AuthHeaders : list string; fa_ResponseHeaders : list string; fa_Timeout : string; fa_CacheTTL : string }.
Record OIDCPolicyConfig := mkOIDCPolicyConfig {
  oi_Provider : string; oi_IssuerURL : string; oi_ClientID : string; oi_ClientSecretRef : string; oi_RedirectURL : string;
  oi_Scopes : list string; oi_SessionSecretRef : string; oi_ForwardHeaders : list string; oi_Keycloak : option KeycloakConfig;
  oi_Authorization : option AuthorizationConfig }.
Record MeshAuthorizationConfig := mkMeshAuthorizationConfig { ma_Rules : list MeshAuthorizationRule; ma_Action : string }.
Record TargetRef := mkTargetRef { t_Kind : string; t_Name : string; t_Namespace : option string }.
Record ProxyPolicy := mkProxyPolicy {
  p_Name : string; p_Namespace : string; p_Type : string; p_TargetRef : TargetRef; p_RateLimit : option RateLimitConfig;
  p_JWT : option JWTConfig; p_IPList : option IPListConfig; p_CORS : option CORSConfig;
  p_SecurityHeaders : option SecurityHeadersConfig; p_DistributedRateLimit : option DistributedRateLimitConfig;
  p_WAF : option WAFConfig; p_WASMPlugin : option WASMPluginConfig; p_BasicAuth : option BasicAuthPolicyConfig;
  p_ForwardAuth : option ForwardAuthPolicyConfig; p_OIDC : option OIDCPolicyConfig;
  p_MeshAuthorization : option MeshAuthorizationConfig }.

Record WANLinkSLA := mkWANLinkSLA { sl_MaxLatency : option Z; sl_MaxJitter : option Z; sl_MaxPacketLoss : option float64 }.
Record ProxyWANLink := mkProxyWANLink {
  w_Name : string; w_Namespace : string; w_Site : string; w_Interface : string; w_Provider : string; w_Bandwidth : string;
  w_Cost : Z; w_SLA : option WANLinkSLA; w_TunnelEndpoint : option WANTunnelEndpoint; w_Role : string }.
Record ProxyWANPolicy := mkProxyWANPolicy {
  wo_Name : string; wo_Namespace : string; wo_Match : WANPolicyMatch; wo_PathSelection : WANPathSelection }.

(** Core resources. *)
Inductive IntOrString := IsInt (n : Z) | IsString (s : string).
Record ServicePort := mkServicePort { sp_Name : string; sp_Port : Z; sp_TargetPort : IntOrString; sp_Protocol : string }.
Record Service := mkService {
  sv_Name : string; sv_Namespace : string; sv_Annotations : gmap string string; sv_ClusterIP : string; sv_Ports : list ServicePort }.
Record Node := mkNode { n_Name : string; n_Labels : gmap string string }.
Record Secret := mkSecret { se_Name : string; se_Namespace : string; se_Data : gmap string string }.
Record ConfigMap := mkConfigMap {
  cm_Name : string; cm_Namespace : string; cm_Data : gmap string string; cm_BinaryData : gmap string string }.
Record EndpointPort := mkEndpointPort { ep_Name : option string; ep_Port : option Z }.
Record Endpoint := mkEndpoint {
  e_Addresses : list string; e_Ready : option bool; e_TargetRef : option string; e_NodeName : option string;
  e_Zone : option string; e_Hints : option (list string) (* names of the zones *) }.
Record EndpointSlice := mkEndpointSlice {
  es_Namespace : string; es_Labels : gmap string string; es_Endpoints : list Endpoint; es_Ports : list EndpointPort }.

End Crd.

(** ** Messages *)

Module Pb.

Record TLSConfig := mkTLSConfig { Cert : string; Key : string; MinVersion : string; CipherSuites : list string; CaCert : string }.
Record ClientAuthConfig := mkClientAuthConfig {
  ca_Mode : string; ca_RequiredCnPatterns : list string; ca_RequiredSans : list string; ca_CaCert : string }.
Record ProxyProtocolConfig := mkProxyProtocolConfig { pp_Enabled : bool; pp_Version : Z; pp_TrustedCidrs : list string }.
Record Listener := mkListener {
  l_Name : string; l_Port : Z; l_Protocol : Z; l_Hostnames : list string; l_SslRedirect : bool;
  l_AllowedSourceRanges : list string; l_Tls : option TLSConfig; l_TlsCertificates : gmap string TLSConfig; l_Quic : option QUICConfig;
  l_BindAddress : string; l_MaxRequestBodyBytes : Z; l_ProxyProtocol : option ProxyProtocolConfig }.
Record CompressionConfig := mkCompressionConfig {
  cc_Enabled : bool; cc_MinSize : Z; cc_Level : Z; cc_Algorithms : list string; cc_ExcludeTypes : list string }.
Record ErrorPageConfig := mkErrorPageConfig { eg_Enabled : bool; eg_Pages : gmap Z string; eg_DefaultPage : string }.
Record ExtProcConfig := mkExtProcConfig {
  xp_Enabled : bool; xp_Address : string; xp_TimeoutMs : Z; xp_FailOpen : bool; xp_ProcessRequestHeaders : bool;
  xp_ProcessRequestBody : bool; xp_ProcessResponseHeaders : bool; xp_ProcessResponseBody : bool }.
Record Gateway := mkGateway {
  g_Name : string; g_Namespace : string; g_IngressClassName : string; g_LoadBalancerClass : string; g_Listeners : list Listener;
  g_Compression : option CompressionConfig; g_ErrorPages : option ErrorPageConfig;
  g_RedirectScheme : option RedirectSchemeConfig; g_ExtProc : option ExtProcConfig }.

Record PathMatch := mkPathMatch { pa_Type : Z; pa_Value : string }.
Record HeaderMatch := mkHeaderMatch { ha_Type : Z; ha_Name : string; ha_Value : string }.
Record RouteMatch := mkRouteMatch { m_Path : option PathMatch; m_Headers : list HeaderMatch; m_Method : string }.
Record RouteFilter := mkRouteFilter {
  f_Type : Z; f_AddHeaders : list HTTPHeader; f_RemoveHeaders : list string; f_RedirectUrl : string; f_RewritePath : string;
  f_ResponseAddHeaders : list HTTPHeader; f_ResponseRemoveHeaders : list string; f_ResponseSetHeaders : list HTTPHeader }.
Record BackendRef := mkBackendRef { b_Name : string; b_Namespace : string; b_Weight : Z }.
Record RouteLimitsConfig := mkRouteLimitsConfig { rl_MaxRequestBodySize : Z; rl_RequestTimeoutMs : Z; rl_IdleTimeoutMs : Z }.
Record BufferingConfig := mkBufferingConfig { rb_RequestBuffering : bool; rb_ResponseBuffering : bool; rb_MaxBufferSize : Z }.
Record RetryConfig := mkRetryConfig {
  re_MaxRetries : Z; re_PerTryTimeoutMs : Z; re_RetryOn : list string; re_RetryBudget : float64; re_BackoffBaseMs : Z;
  re_RetryMethods : list string }.
Record FaultInjectionConfig := mkFaultInjectionConfig {
  fi_DelayDurationMs : Z; fi_DelayPercent : Z; fi_AbortStatusCode : Z; fi_AbortPercent : Z; fi_HeaderActivation : string }.
Record BodyTransformConfig := mkBodyTransformConfig {
  bt_Request : list TransformOperation; bt_Response : list TransformOperation; bt_MaxBodySize : Z }.
Record RouteRule := mkRouteRule {
  r_Matches : list RouteMatch; r_Filters : list RouteFilter; r_BackendRefs : list BackendRef; r_Limits : option RouteLimitsConfig;
  r_Buffering : option BufferingConfig; r_MirrorBackend : option BackendRef; r_MirrorPercent : Z; r_Retry : option RetryConfig;
  r_FaultInjection : option FaultInjectionConfig; r_BodyTransform : option BodyTransformConfig }.
Record MiddlewareRef := mkMiddlewareRef { mw_Type : string; mw_Name : string; mw_Priority : Z; mw_Config : gmap string string }.
Record AccessLogConfig := mkAccessLogConfig {
  al_Enabled : bool; al_Format : string; al_Template : string; al_Output : string; al_FilePath : string; al_MaxSize : string;
  al_MaxBackups : Z; al_FilterStatusCodes : list Z; al_SampleRate : float64 }.
Record Route := mkRoute {
  ro_Name : string; ro_Namespace : string; ro_Hostnames : list string; ro_Rules : list RouteRule;
  ro_AccessLog : option AccessLogConfig; ro_Pipeline : option (list MiddlewareRef); ro_Expression : string }.

Record CircuitBreaker := mkCircuitBreaker {
  cb_MaxConnections : Z; cb_MaxPendingRequests : Z; cb_MaxRequests : Z; cb_MaxRetries : Z }.
Record SessionAffinityConfig := mkSessionAffinityConfig {
  sa_Type : string; sa_CookieName : string; sa_CookieTtlSeconds : Z; sa_CookiePath : string; sa_CookieSecure : bool;
  sa_CookieSameSite : string; sa_HeaderName : string }.
Record ConnectionPool := mkConnectionPool {
  cp_MaxIdleConns : Z; cp_MaxIdleConnsPerHost : Z; cp_MaxConnsPerHost : Z; cp_IdleConnTimeoutMs : Z }.
Record HealthCheck := mkHealthCheck {
  hc_IntervalMs : Z; hc_TimeoutMs : Z; hc_HealthyThreshold : Z; hc_UnhealthyThreshold : Z; hc_HttpPath : string }.
Record BackendTLS := mkBackendTLS { bl_Enabled : bool; bl_InsecureSkipVerify : bool; bl_CaCert : string }.
Record SlowStart := mkSlowStart { ss_WindowMs : Z; ss_Aggression : float64 }.
Record OutlierDetection := mkOutlierDetection {
  od_IntervalMs : Z; od_Consecutive5xxThreshold : Z; od_BaseEjectionDurationMs : Z; od_MaxEjectionPercent : Z;
  od_SuccessRateMinHosts : Z; od_SuccessRateMinRequests : Z; od_SuccessRateStdevFactor : float64 }.
Record Cluster := mkCluster {
  k_Name : string; k_Namespace : string; k_LbPolicy : Z; k_ConnectTimeoutMs : Z; k_IdleTimeoutMs : Z;
  k_CircuitBreaker : option CircuitBreaker; k_HealthCheck : option HealthCheck; k_OutlierDetection : option OutlierDetection;
  k_SlowStart : option SlowStart; k_Tls : option BackendTLS; k_SessionAffinity : option SessionAffinityConfig;
  k_ConnectionPool : option ConnectionPool; k_UpstreamProxyProtocol : option UpstreamProxyProtocol; k_Protocol : string }.
Record Endpoint := mkEndpoint { e_Address : string; e_Port : Z; e_Ready : bool; e_Labels : gmap string string; e_Weight : Z }.

Record RateLimitConfig := mkRateLimitConfig { rt_RequestsPerSecond : Z; rt_Burst : Z; rt_Key : string }.
Record IPListConfig := mkIPListConfig { ip_Cidrs : list string; ip_SourceHeader : string }.
Record CORSConfig := mkCORSConfig {
  co_AllowOrigins : list string; co_AllowMethods : list string; co_AllowHeaders : list string; co_ExposeHeaders : list string;
  co_MaxAgeSeconds : Z; co_AllowCredentials : bool }.
Record RedisConfig := mkRedisConfig {
  rs_Address : string; rs_PasswordSecretRef : string; rs_Tls : bool; rs_Database : Z; rs_ClusterMode : bool }.
Record DistributedRateLimitConfig := mkDistributedRateLimitConfig {
  dr_RequestsPerSecond : Z; dr_Burst : Z; dr_Algorithm : string; dr_Key : string; dr_Redis : RedisConfig }.
Record WAFConfig := mkWAFConfig {
  wf_Enabled : bool; wf_Mode : string; wf_ParanoiaLevel : Z; wf_AnomalyThreshold : Z; wf_RulesConfigMapRef : string;
  wf_RuleExclusions : list string; wf_CustomRules : list string; wf_MaxBodySize : Z; wf_ResponseBodyInspection : bool;
  wf_MaxResponseBodySize : Z }.
Record WASMPluginConfig := mkWASMPluginConfig {
  wa_Source : string; wa_ConfigRef : string; wa_Config : gmap string string; wa_Phase : string; wa_Priority : Z; wa_WasmBytes : string }.
Record BasicAuthConfig := mkBasicAuthConfig { ba_Realm : string; ba_Htpasswd : string; ba_StripAuth : bool }.
Record ForwardAuthConfig := mkForwardAuthConfig {
  fa_Address : string; fa_AuthHeaders : list string; fa_ResponseHeaders : list string; fa_TimeoutMs : Z; fa_CacheTtlSeconds : Z }.
Record OIDCConfig := mkOIDCConfig {
  oi_Provider : string; oi_IssuerUrl : string; oi_ClientId : string; oi_ClientSecret : string; oi_RedirectUrl : string;
  oi_Scopes : list string; oi_SessionSecret : string; oi_ForwardHeaders : list string; oi_Keycloak : option KeycloakConfig;
  oi_Authorization : option AuthorizationConfig }.
Record TargetRef := mkTargetRef { t_Kind : string; t_Name : string; t_Namespace : string }.
Record Policy := mkPolicy {
  p_Name : string; p_Namespace : string; p_Type : Z; p_TargetRef : TargetRef; p_RateLimit : option RateLimitConfig;
  p_Jwt : option JWTConfig; p_IpList : option IPListConfig; p_Cors : option CORSConfig;
  p_SecurityHeaders : option SecurityHeadersConfig; p_DistributedRateLimit : option DistributedRateLimitConfig;
  p_Waf : option WAFConfig; p_WasmPlugin : option WASMPluginConfig; p_BasicAuth : option BasicAuthConfig;
  p_ForwardAuth : option ForwardAuthConfig; p_Oidc : option OIDCConfig }.

Record L4TCPConfig := mkL4TCPConfig { lt_ConnectTimeoutMs : Z; lt_IdleTimeoutMs : Z; lt_BufferSize : Z; lt_DrainTimeoutMs : Z }.
Record L4UDPConfig := mkL4UDPConfig { lu_SessionTimeoutMs : Z; lu_BufferSize : Z }.
Record L4TLSRoute := mkL4TLSRoute { lr_Hostname : string; lr_BackendName : string; lr_Backends : list Endpoint }.
Record L4Listener := mkL4Listener {
  l4_Name : string; l4_Port : Z; l4_Protocol : Z; l4_BackendName : string; l4_Backends : list Endpoint;
  l4_TlsRoutes : list L4TLSRoute; l4_TcpConfig : option L4TCPConfig; l4_UdpConfig : option L4UDPConfig;
  l4_DefaultTlsBackend : option L4TLSRoute; l4_BindAddress : string }.
Record ServicePort := mkServicePort { sp_Name : string; sp_Port : Z; sp_TargetPort : Z; sp_Protocol : string }.
Record InternalService := mkInternalService {
  i_Name : string; i_Namespace : string; i_ClusterIp : string; i_Ports : list ServicePort; i_Endpoints : list Endpoint;
  i_LbPolicy : Z; i_MeshEnabled : bool; i_MtlsMode : string }.
Record MeshAuthorizationPolicy := mkMeshAuthorizationPolicy {
  ma_Name : string; ma_TargetService : string; ma_TargetNamespace : string; ma_Action : string; ma_Rules : list MeshAuthorizationRule }.
Record WANLinkSLA := mkWANLinkSLA { sl_MaxLatencyMs : Z; sl_MaxJitterMs : Z; sl_MaxPacketLoss : float64 }.
Record WANLink := mkWANLink {
  w_Name : string; w_Namespace : string; w_Site : string; w_Iface : string; w_Provider : string; w_Bandwidth : string;
  w_Cost : Z; w_Role : string; w_Sla : option WANLinkSLA; w_TunnelEndpoint : option WANTunnelEndpoint }.
Record WANPolicy := mkWANPolicy {
  wo_Name : string; wo_Namespace : string; wo_Match : option WANPolicyMatch; wo_PathSelection : WANPathSelection }.
Record FederationMetadata := mkFederationMetadata { fm_FederationId : string; fm_OriginController : string; fm_VectorClock : gmap string Z }.

Record MeshTLSConfig := mkMeshTLSConfig {
  mt_TrustDomain : string; mt_CaCertificate : string; mt_Certificate : string; mt_PrivateKey : string; mt_SpiffeId : string; mt_ExpiryUnix : Z }.

Record ConfigSnapshot := mkConfigSnapshot {
  Version : string; GenerationTime : Z; Gateways : list Gateway; Routes : list Route; Clusters : list Cluster;
  Endpoints : gmap string (list Endpoint); Policies : list Policy; L4Listeners : list L4Listener;
  InternalServices : list InternalService; MeshAuthzPolicies : list MeshAuthorizationPolicy; WanLinks : list WANLink;
  WanPolicies : list WANPolicy; Federation : option FederationMetadata;
  MeshTlsConfig : option MeshTLSConfig }.

(** Listener and cluster extensions. *)
Record ListenerExtensions := mkListenerExtensions {
  lx_OCSPStapling : bool; lx_ClientAuth : option ClientAuthConfig; lx_ProxyProtocol : option ProxyProtocolConfig }.

Record ClusterExtensions := mkClusterExtensions { kx_UpstreamProxyProtocol : option UpstreamProxyProtocol }.

End Pb.
