(* ===== verification/BuilderConvert.v ===== *)
(** * Conversion of resources to messages

    [src/internal/controller/snapshot/builder_convert.go] and the authentication
    part [builder_auth.go]: pure conversions, with the defaults of absent
    values. The texts of sizes go through [ParseByteSize], whose table is
    visited in an order [units]; the rules of a ConfigMap are visited in an
    order [visit]. *)

From S2P Require Import Prelude Sha256 GoStrings Float64 GoLib Convert BuilderTypes.
Open Scope Z_scope.

(** ** Enumerations *)

Definition convertProtocol (protocol : string) : Z :=
  if str_eqb protocol "HTTP" then 1 else if str_eqb protocol "HTTPS" then 2 else if str_eqb protocol "HTTP3" then 3
  else if str_eqb protocol "TCP" then 4 else if str_eqb protocol "TLS" then 5 else if str_eqb protocol "UDP" then 6 else 0.

Definition convertLBPolicy (policy : string) : Z :=
  if str_eqb policy "RoundRobin" then 1 else if str_eqb policy "P2C" then 2 else if str_eqb policy "EWMA" then 3
  else if str_eqb policy "RingHash" then 4 else if str_eqb policy "Maglev" then 5 else if str_eqb policy "LeastConn" then 6
  else if str_eqb policy "SourceHash" then 7 else if str_eqb policy "Sticky" then 8 else 0.

Definition convertPolicyType (t : string) : Z :=
  if str_eqb t "RateLimit" then 1 else if str_eqb t "JWT" then 2 else if str_eqb t "IPAllowList" then 3
  else if str_eqb t "IPDenyList" then 4 else if str_eqb t "CORS" then 5 else if str_eqb t "SecurityHeaders" then 6
  else if str_eqb t "DistributedRateLimit" then 7 else if str_eqb t "WAF" then 8 else if str_eqb t "WASMPlugin" then 9
  else if str_eqb t "BasicAuth" then 10 else if str_eqb t "ForwardAuth" then 11 else if str_eqb t "OIDC" then 12
  else if str_eqb t "MeshAuthorization" then 13 else 0.

Definition convertPathMatchType (t : string) : Z :=
  if str_eqb t "Exact" then 1 else if str_eqb t "PathPrefix" then 2 else if str_eqb t "RegularExpression" then 3 else 0.

Definition convertHeaderMatchType (t : string) : Z :=
  if str_eqb t "Exact" then 1 else if str_eqb t "RegularExpression" then 2 else 0.

Definition convertFilterType (t : string) : Z :=
  if str_eqb t "AddHeader" then 1 else if str_eqb t "RemoveHeader" then 2 else if str_eqb t "RequestRedirect" then 3
  else if str_eqb t "URLRewrite" then 4 else if str_eqb t "ResponseAddHeader" then 5 else if str_eqb t "ResponseRemoveHeader" then 6
  else if str_eqb t "ResponseSetHeader" then 7 else 0.

(** ** Defaults *)

Definition durationToMillis (d : Z) : Z := Milliseconds d.
Definition durationToSeconds (d : option Z) : Z := match d with None => 0 | Some d => whole_seconds d end.
Definition getNamespace (ns : option string) (defaultNs : string) : string :=
  match ns with Some n => if str_empty n then defaultNs else n | None => defaultNs end.
Definition getWeight (w : option Z) : Z := default 1 w.
Definition getInt32 (v : option Z) : Z := default 0 v.
Definition getString (v : option string) : string := default ""%string v.

(** The clamp of an int priority to int32. *)
Definition clamp32 (p : Z) : Z := if decide (max_int32 < p) then max_int32 else if decide (p < min_int32) then min_int32 else p.

(** ** Routes *)

Definition convertMatches (matches : list Crd.HTTPRouteMatch) : list Pb.RouteMatch :=
  (λ m, Pb.mkRouteMatch
    ((λ p, Pb.mkPathMatch (convertPathMatchType (Crd.pa_Type p)) (Crd.pa_Value p)) <$> Crd.m_Path m)
    ((λ h, Pb.mkHeaderMatch (convertHeaderMatchType (Crd.ha_Type h)) (Crd.ha_Name h) (Crd.ha_Value h)) <$> Crd.m_Headers m)
    (getString (Crd.m_Method m))) <$> matches.

Definition copy_header (h : HTTPHeader) : HTTPHeader := mkHTTPHeader (hh_Name h) (hh_Value h).

Definition convertFilters (filters : list Crd.HTTPRouteFilter) : list Pb.RouteFilter :=
  (λ f, Pb.mkRouteFilter (convertFilterType (Crd.f_Type f)) (copy_header <$> Crd.f_Add f) (Crd.f_Remove f)
    (getString (Crd.f_RedirectURL f)) (getString (Crd.f_RewritePath f)) (copy_header <$> Crd.f_ResponseAdd f)
    (Crd.f_ResponseRemove f) (copy_header <$> Crd.f_ResponseSet f)) <$> filters.

Definition convertRetryConfig (r : Crd.RetryConfig) : Pb.RetryConfig :=
  Pb.mkRetryConfig (Crd.re_MaxRetries r) (from_option Milliseconds 0 (Crd.re_PerTryTimeout r)) (Crd.re_RetryOn r)
    (default fzero (Crd.re_RetryBudget r)) (from_option Milliseconds 0 (Crd.re_BackoffBase r)) (Crd.re_RetryMethods r).

Definition convertFaultInjectionConfig (f : Crd.FaultInjectionConfig) : Pb.FaultInjectionConfig :=
  Pb.mkFaultInjectionConfig (from_option Milliseconds 0 (Crd.fi_DelayDuration f)) (default 0 (Crd.fi_DelayPercent f))
    (default 0 (Crd.fi_AbortStatusCode f)) (default 0 (Crd.fi_AbortPercent f)) (Crd.fi_HeaderActivation f).

Definition convertTransformOperations (ops : list TransformOperation) : list TransformOperation :=
  (λ o, mkTransformOperation (op_Op o) (op_Path o) (op_Value o) (op_From o)) <$> ops.

Definition convertBodyTransformConfig (b : Crd.BodyTransformConfig) : Pb.BodyTransformConfig :=
  Pb.mkBodyTransformConfig (convertTransformOperations (Crd.bt_Request b)) (convertTransformOperations (Crd.bt_Response b))
    (default 0 (Crd.bt_MaxBodySize b)).

(** [parseDurationMs]; an error is logged and leaves zero. *)
Definition parseDurationMs (s : string) : option Z :=
  if str_empty s || str_eqb s "0" then Some 0 else Milliseconds <$> ParseDuration s.

Definition convertRouteLimits (units : list (string * Z)) (l : Crd.RouteLimits) : Pb.RouteLimitsConfig :=
  Pb.mkRouteLimitsConfig (default 0 (ParseByteSize units (Crd.rl_MaxRequestBodySize l)))
    (default 0 (parseDurationMs (Crd.rl_RequestTimeout l))) (default 0 (parseDurationMs (Crd.rl_IdleTimeout l))).

Definition convertBufferingConfig (units : list (string * Z)) (b : Crd.RouteBufferingConfig) : Pb.BufferingConfig :=
  Pb.mkBufferingConfig (Crd.rb_Request b) (Crd.rb_Response b) (default 0 (ParseByteSize units (Crd.rb_MaxSize b))).

Definition convertRouteAccessLog (a : Crd.RouteAccessLogConfig) : Pb.AccessLogConfig :=
  Pb.mkAccessLogConfig (Crd.al_Enabled a) (Crd.al_Format a) (Crd.al_Template a) (Crd.al_Output a) (Crd.al_FilePath a)
    (Crd.al_MaxSize a) (default 0 (Crd.al_MaxBackups a)) (Crd.al_FilterStatusCodes a)
    match Crd.al_SampleRate a with Some r => fdiv (float_of_Z r) (float_of_Z 100) | None => fone end.

Definition convertMiddlewarePipeline (p : list Crd.MiddlewareRefConfig) : list Pb.MiddlewareRef :=
  (λ m, Pb.mkMiddlewareRef (Crd.mw_Type m) (Crd.mw_Name m) (clamp32 (Crd.mw_Priority m)) (Crd.mw_Config m)) <$> p.

(** ** Gateways *)

Definition convertCompressionConfig (units : list (string * Z)) (c : Crd.CompressionConfig) : Pb.CompressionConfig :=
  Pb.mkCompressionConfig (Crd.cc_Enabled c) (default 0 (ParseByteSize units (Crd.cc_MinSize c))) (Crd.cc_Level c)
    (Crd.cc_Algorithms c) (Crd.cc_ExcludeTypes c).

(** Later pages win for the same code. *)
Definition convertErrorPages (pages : list Crd.CustomErrorPage) : Pb.ErrorPageConfig :=
  Pb.mkErrorPageConfig true
    (foldl (λ m p,
       let body := if str_empty (Crd.pg_Body p) then Crd.pg_Path p else Crd.pg_Body p in
       foldl (λ m code, <[code := body]> m) m (Crd.pg_Codes p)) ∅ pages) "".

Definition convertRedirectScheme (r : RedirectSchemeConfig) : RedirectSchemeConfig :=
  mkRedirectSchemeConfig (rd_Enabled r) (rd_Scheme r) (rd_Port r) (rd_StatusCode r) (rd_Exclusions r).

Definition convertExtProc (e : Crd.ExtProcConfig) : Pb.ExtProcConfig :=
  Pb.mkExtProcConfig true (Crd.xp_Address e) (from_option Milliseconds 0 (Crd.xp_Timeout e)) (default false (Crd.xp_FailOpen e))
    (default false (Crd.xp_ProcessRequestHeaders e)) (default false (Crd.xp_ProcessRequestBody e))
    (default false (Crd.xp_ProcessResponseHeaders e)) (default false (Crd.xp_ProcessResponseBody e)).

(** ** Backends *)

Definition convertCircuitBreaker (c : Crd.CircuitBreaker) : Pb.CircuitBreaker :=
  Pb.mkCircuitBreaker (getInt32 (Crd.cb_MaxConnections c)) (getInt32 (Crd.cb_MaxPendingRequests c))
    (getInt32 (Crd.cb_MaxRequests c)) (getInt32 (Crd.cb_MaxRetries c)).

Definition convertHealthCheck (h : Crd.HealthCheck) : Pb.HealthCheck :=
  Pb.mkHealthCheck (durationToMillis (Crd.hc_Interval h)) (durationToMillis (Crd.hc_Timeout h))
    (getInt32 (Crd.hc_HealthyThreshold h)) (getInt32 (Crd.hc_UnhealthyThreshold h)) (getString (Crd.hc_HTTPPath h)).

Definition convertSessionAffinity (sa : Crd.SessionAffinityConfig) : Pb.SessionAffinityConfig :=
  let affinityType :=
    if str_eqb (Crd.sa_Type sa) "Cookie" then "cookie" else if str_eqb (Crd.sa_Type sa) "Header" then "header"
    else if str_eqb (Crd.sa_Type sa) "SourceIP" then "source_ip" else "cookie" in
  Pb.mkSessionAffinityConfig affinityType
    (if str_empty (Crd.sa_CookieName sa) then "NOVAEDGE_AFFINITY" else Crd.sa_CookieName sa)
    (whole_seconds (Crd.sa_CookieTTL sa)) (if str_empty (Crd.sa_CookiePath sa) then "/" else Crd.sa_CookiePath sa)
    (Crd.sa_Secure sa) (Crd.sa_SameSite sa) (Crd.sa_HeaderName sa).

(** 1.9 *)
Definition f1_9 : float64 := fdiv (float_of_Z 19) (float_of_Z 10).

Section floats.
Context `{TextTables}.

Definition convertOutlierDetection (o : Crd.OutlierDetectionConfig) : Pb.OutlierDetection :=
  let stdevFactor :=
    if str_empty (Crd.od_SuccessRateStdevFactor o) then f1_9
    else default f1_9 (ParseFloat (Crd.od_SuccessRateStdevFactor o)) in
  Pb.mkOutlierDetection (durationToMillis (Crd.od_Interval o)) (getInt32 (Crd.od_Consecutive5xxThreshold o))
    (durationToMillis (Crd.od_BaseEjectionDuration o)) (getInt32 (Crd.od_MaxEjectionPercent o))
    (getInt32 (Crd.od_SuccessRateMinHosts o)) (getInt32 (Crd.od_SuccessRateMinRequests o)) stdevFactor.

Definition convertSlowStart (s : Crd.SlowStartConfig) : Pb.SlowStart :=
  Pb.mkSlowStart (durationToMillis (Crd.ss_Window s))
    (if str_empty (Crd.ss_Aggression s) then fone else default fone (ParseFloat (Crd.ss_Aggression s))).

(** ** Policies *)

(** The lines of a rule file: comments and blank lines end a rule, a backslash
    continues it. *)
Fixpoint rule_lines (lines : list string) (current : string) (rules : list string) : list string :=
  match lines with
  | [] => if str_empty current then rules else rules ++ [current]
  | line :: lines' =>
      let trimmed := TrimSpace line in
      if str_empty trimmed || HasPrefix trimmed "#" then
        if str_empty current then rule_lines lines' current rules else rule_lines lines' "" (rules ++ [current])
      else
        match cut_suffix trimmed "\" with
        | Some t => rule_lines lines' (current +:+ t +:+ " ") rules
        | None => rule_lines lines' "" (rules ++ [current +:+ trimmed])
        end
  end.

Definition parseConfigMapRules (content : string) : list string :=
  rule_lines (Split (ascii_of_nat 10) content) "" [].

(** [rules] is the ConfigMap of the rules, if it is found. *)
Definition convertWAFConfig (visit : gmap string string → list (string * string)) (rules : option Crd.ConfigMap)
    (namespace : string) (w : Crd.WAFConfig) : Pb.WAFConfig :=
  let '(ref, loaded) :=
    match Crd.wf_RulesConfigMap w with
    | None => (""%string, [])
    | Some name =>
        (name, if str_empty namespace then []
               else match rules with
                    | Some cm => concat (parseConfigMapRules <$> (visit (Crd.cm_Data cm)).*2)
                    | None => []
                    end)
    end in
  Pb.mkWAFConfig (Crd.wf_Enabled w) (Crd.wf_Mode w) (Crd.wf_ParanoiaLevel w) (Crd.wf_AnomalyThreshold w) ref
    (Crd.wf_RuleExclusions w) (Crd.wf_CustomRules w ++ loaded) (Crd.wf_MaxBodySize w) (Crd.wf_ResponseBodyInspection w)
    (Crd.wf_MaxResponseBodySize w).

End floats.

Definition convertDistributedRateLimitConfig (d : Crd.DistributedRateLimitConfig) : Pb.DistributedRateLimitConfig :=
  let r := Crd.dr_RedisRef d in
  Pb.mkDistributedRateLimitConfig (Crd.dr_RequestsPerSecond d) (getInt32 (Crd.dr_Burst d)) (Crd.dr_Algorithm d) (Crd.dr_Key d)
    (Pb.mkRedisConfig (Crd.rs_Address r) (default ""%string (Crd.rs_Password r)) (Crd.rs_TLS r) (Crd.rs_Database r) (Crd.rs_ClusterMode r)).

Definition buildForwardAuthConfig (f : Crd.ForwardAuthPolicyConfig) : Pb.ForwardAuthConfig :=
  Pb.mkForwardAuthConfig (Crd.fa_Address f) (Crd.fa_AuthHeaders f) (Crd.fa_ResponseHeaders f)
    (if str_empty (Crd.fa_Timeout f) then 5000 else from_option Milliseconds 0 (ParseDuration (Crd.fa_Timeout f)))
    (if str_empty (Crd.fa_CacheTTL f) then 0 else from_option whole_seconds 0 (ParseDuration (Crd.fa_CacheTTL f))).

(** [trimTrailingSlash]: the loop removes all trailing slashes. *)
Fixpoint trimTrailingSlash (s : string) : string :=
  match s with
  | EmptyString => EmptyString
  | String c s' =>
      match trimTrailingSlash s' with
      | EmptyString => if decide (c = "/"%char) then EmptyString else String c EmptyString
      | t => String c t
      end
  end.

(** ** Mesh and WAN *)

Definition convertMeshSources (l : list MeshSource) : list MeshSource :=
  (λ s, mkMeshSource (ms_Namespaces s) (ms_ServiceAccounts s) (ms_SpiffeIDs s)) <$> l.
Definition convertMeshDestinations (l : list MeshDestination) : list MeshDestination :=
  (λ d, mkMeshDestination (md_Methods d) (md_Paths d)) <$> l.
Definition convertMeshAuthzRules (rules : list MeshAuthorizationRule) : list MeshAuthorizationRule :=
  (λ r, mkMeshAuthorizationRule (convertMeshSources (mr_From r)) (convertMeshDestinations (mr_To r))) <$> rules.

(** The labels of an endpoint of another cluster. *)
Definition mergeRemoteEndpointLabels (existing : gmap string string) (clusterName region zone : string) : gmap string string :=
  let put k v (m : gmap string string) := if str_empty v then m else <[k := v]> m in
  put "novaedge.io/zone"%string zone (put "novaedge.io/region"%string region (put "novaedge.io/cluster"%string clusterName
    (<["novaedge.io/remote" := "true"]>%string (copy_map existing)))).
