(* ===== verification/SnapshotBuilder.v ===== *)
(** * The snapshot builder

    [src/internal/controller/snapshot/builder.go], [builder_auth.go] and
    [builder_l4.go]: the resources of the cluster are fetched once into a build
    context, from which every part of the snapshot is built, sorted and hashed.
    The Kubernetes client is an argument (a list call can fail, a secret can be
    absent), as are the protobuf encoding, the federation provider and the
    orders of range loops. A nil dereference is [Panics]. Log output and metrics
    are not modelled. *)

From S2P Require Import Prelude Sha256 GoStrings Float64 GoLib Convert BuilderTypes BuilderConvert.
Open Scope Z_scope.
Open Scope go_scope.

Definition ns_key (namespace name : string) : string := namespace +:+ "/" +:+ name.

(** ** Prefetching *)

(** The answers of the API server: [None] is an error of a list call. *)
Record KubeClient := mkKubeClient {
  kl_gateways : option (list Crd.ProxyGateway); kl_routes : option (list Crd.ProxyRoute);
  kl_backends : option (list Crd.ProxyBackend); kl_policies : option (list Crd.ProxyPolicy);
  kl_services : option (list Crd.Service); kl_wanLinks : option (list Crd.ProxyWANLink);
  kl_wanPolicies : option (list Crd.ProxyWANPolicy); kl_nodes : option (list Crd.Node);
  kl_configMaps : option (list Crd.ConfigMap); kl_endpointSlices : option (list Crd.EndpointSlice);
  kl_getSecret : string * string → option Crd.Secret (* namespace, name *)
}.

Record buildContext := mkBuildContext {
  bc_gateways : list Crd.ProxyGateway; bc_routes : list Crd.ProxyRoute; bc_backends : list Crd.ProxyBackend;
  bc_policies : list Crd.ProxyPolicy; bc_services : list Crd.Service; bc_wanLinks : list Crd.ProxyWANLink;
  bc_wanPolicies : list Crd.ProxyWANPolicy; bc_nodes : gmap string Crd.Node; bc_serviceMap : gmap string Crd.Service;
  bc_secrets : gmap string Crd.Secret; bc_configMaps : gmap string Crd.ConfigMap;
  bc_endpointSlices : gmap string (list Crd.EndpointSlice)
}.

Notation secretRefSet := (gset (string * string)).

Definition add_ref (ns name : string) (s : secretRefSet) : secretRefSet := if str_empty name then s else {[ (ns, name) ]} ∪ s.

Definition secretRefNS (ns defaultNS : string) : string := if str_empty ns then defaultNS else ns.

(** A secret reference of a resource in [defaultNS]. *)
Definition add_secret_ref (defaultNS : string) (r : option Crd.SecretReference) (s : secretRefSet) : secretRefSet :=
  match r with
  | Some r => add_ref (secretRefNS (Crd.sr_Namespace r) defaultNS) (Crd.sr_Name r) s
  | None => s
  end.

Definition collectListenerSecretRefs (ns : string) (l : Crd.Listener) (s : secretRefSet) : secretRefSet :=
  let s := add_secret_ref ns (Crd.l_TLS l ≫= Crd.SecretRef) s in
  let s := map_fold (λ _ t, add_secret_ref ns (Crd.SecretRef t)) s (Crd.l_TLSCertificates l) in
  add_secret_ref ns (Crd.l_ClientAuth l ≫= Crd.CACertRef) s.

Definition collectGatewaySecretRefs (gateways : list Crd.ProxyGateway) (s : secretRefSet) : secretRefSet :=
  foldl (λ s gw, foldl (λ s l, collectListenerSecretRefs (Crd.g_Namespace gw) l s) s (Crd.g_Listeners gw)) s gateways.

Definition collectBackendSecretRefs (backends : list Crd.ProxyBackend) (s : secretRefSet) : secretRefSet :=
  foldl (λ s b,
    match Crd.k_TLS b with
    | None => s
    | Some t =>
        let s := add_ref (Crd.k_Namespace b) (default ""%string (Crd.bl_CACertSecretRef t)) s in
        add_ref (Crd.k_Namespace b) (default ""%string (Crd.bl_ClientCertSecretRef t)) s
    end) s backends.

Definition collectPolicySecretRefs (policies : list Crd.ProxyPolicy) (s : secretRefSet) : secretRefSet :=
  foldl (λ s p,
    let s := match Crd.p_BasicAuth p with Some b => add_ref (Crd.p_Namespace p) (Crd.ba_SecretRef b) s | None => s end in
    match Crd.p_OIDC p with
    | Some o => add_ref (Crd.p_Namespace p) (Crd.oi_SessionSecretRef o) (add_ref (Crd.p_Namespace p) (Crd.oi_ClientSecretRef o) s)
    | None => s
    end) s policies.

Definition collectReferencedSecrets (gateways : list Crd.ProxyGateway) (backends : list Crd.ProxyBackend)
    (policies : list Crd.ProxyPolicy) : secretRefSet :=
  collectPolicySecretRefs policies (collectBackendSecretRefs backends (collectGatewaySecretRefs gateways ∅)).

(** The secrets that are found, under their own names. *)
Definition fetchSecrets (get : string * string → option Crd.Secret) (refs : secretRefSet) : gmap string Crd.Secret :=
  foldl (λ m ref, match get ref with Some s => <[ns_key (Crd.se_Namespace s) (Crd.se_Name s) := s]> m | None => m end)
    ∅ (elements refs).

Definition index_by {A} (key : A → string) (l : list A) : gmap string A := foldl (λ m a, <[key a := a]> m) ∅ l.

Definition serviceNameLabel : string := "kubernetes.io/service-name".

Definition indexSlices (l : list Crd.EndpointSlice) : gmap string (list Crd.EndpointSlice) :=
  foldl (λ m es,
    let svcName := map_get ""%string (Crd.es_Labels es) serviceNameLabel in
    if str_empty svcName then m
    else let key := ns_key (Crd.es_Namespace es) svcName in <[key := map_get [] m key ++ [es]]> m) ∅ l.

Definition prefetch (k : KubeClient) : option buildContext :=
  gateways ← kl_gateways k; routes ← kl_routes k; backends ← kl_backends k; policies ← kl_policies k;
  services ← kl_services k; wanLinks ← kl_wanLinks k; wanPolicies ← kl_wanPolicies k; nodes ← kl_nodes k;
  configMaps ← kl_configMaps k; slices ← kl_endpointSlices k;
  Some (mkBuildContext gateways routes backends policies services wanLinks wanPolicies
    (index_by Crd.n_Name nodes) (index_by (λ s, ns_key (Crd.sv_Namespace s) (Crd.sv_Name s)) services)
    (fetchSecrets (kl_getSecret k) (collectReferencedSecrets gateways backends policies))
    (index_by (λ c, ns_key (Crd.cm_Namespace c) (Crd.cm_Name c)) configMaps) (indexSlices slices)).

Definition getSecret (bc : buildContext) (namespace name : string) : option Crd.Secret := bc_secrets bc !! ns_key namespace name.
Definition getService (bc : buildContext) (namespace name : string) : option Crd.Service := bc_serviceMap bc !! ns_key namespace name.
Definition getConfigMap (bc : buildContext) (namespace name : string) : option Crd.ConfigMap := bc_configMaps bc !! ns_key namespace name.
Definition getEndpointSlices (bc : buildContext) (namespace serviceName : string) : list Crd.EndpointSlice :=
  map_get [] (bc_endpointSlices bc) (ns_key namespace serviceName).

(** ** Gateways *)

(** [loadTLSConfig]: the secret reference is dereferenced without a check;
    [None] is an error. *)
Definition loadTLSConfig (bc : buildContext) (defaultNamespace : string) (tls : Crd.TLSConfig) : outcome (option Pb.TLSConfig) :=
  let! ref := deref (Crd.SecretRef tls) in
  let namespace := secretRefNS (Crd.sr_Namespace ref) defaultNamespace in
  Returns (
    secret ← getSecret bc namespace (Crd.sr_Name ref);
    cert ← Crd.se_Data secret !! "tls.crt"%string;
    key ← Crd.se_Data secret !! "tls.key"%string;
    Some (Pb.mkTLSConfig cert key (Crd.MinVersion tls) (Crd.CipherSuites tls) "")).

(** The certificates by host name; those that cannot be loaded are left out. *)
Fixpoint loadSNI (bc : buildContext) (ns : string) (l : list (string * Crd.TLSConfig)) (acc : gmap string Pb.TLSConfig)
    : outcome (gmap string Pb.TLSConfig) :=
  match l with
  | [] => Returns acc
  | (hostname, tls) :: l' =>
      let! r := loadTLSConfig bc ns tls in
      loadSNI bc ns l' (match r with Some t => <[hostname := t]> acc | None => acc end)
  end.

Definition copy_quic (q : QUICConfig) : QUICConfig :=
  mkQUICConfig (q_MaxIdleTimeout q) (q_MaxBiStreams q) (q_MaxUniStreams q) (q_Enable0RTT q).

(** A listener; [None] when its certificate cannot be loaded. *)
Definition buildListener (visit : visiting) (bc : buildContext) (ns : string) (l : Crd.Listener)
    : outcome (option Pb.Listener) :=
  let finish tls :=
    let! certs := loadSNI bc ns (visit _ (Crd.l_TLSCertificates l)) ∅ in
    Returns (Some (Pb.mkListener (Crd.l_Name l) (Crd.l_Port l) (convertProtocol (Crd.l_Protocol l)) (Crd.l_Hostnames l)
      (Crd.l_SSLRedirect l) (Crd.l_AllowedSourceRanges l) tls certs (copy_quic <$> Crd.l_QUIC l) "" 0 None)) in
  match Crd.l_TLS l with
  | None => finish None
  | Some t =>
      let! r := loadTLSConfig bc ns t in
      match r with Some c => finish (Some c) | None => Returns None end
  end.

Fixpoint buildListeners (visit : visiting) (bc : buildContext) (ns : string) (l : list Crd.Listener)
    : outcome (list Pb.Listener) :=
  match l with
  | [] => Returns []
  | x :: l' =>
      let! o := buildListener visit bc ns x in
      let! rest := buildListeners visit bc ns l' in
      Returns (option_list o ++ rest)
  end.

Definition buildGateway (visit : visiting) (units : list (string * Z)) (bc : buildContext)
    (gw : Crd.ProxyGateway) : outcome Pb.Gateway :=
  let! listeners := buildListeners visit bc (Crd.g_Namespace gw) (Crd.g_Listeners gw) in
  Returns (Pb.mkGateway (Crd.g_Name gw) (Crd.g_Namespace gw) (Crd.g_IngressClassName gw) (Crd.g_LoadBalancerClass gw) listeners
    (convertCompressionConfig units <$> Crd.g_Compression gw)
    (match Crd.g_CustomErrorPages gw with [] => None | pages => Some (convertErrorPages pages) end)
    (match Crd.g_RedirectScheme gw with Some r => if rd_Enabled r then Some (convertRedirectScheme r) else None | None => None end)
    (convertExtProc <$> Crd.g_ExtProc gw)).

(** A loop that appends the results of its body. *)
Fixpoint build_all {A B} (f : A → outcome B) (l : list A) : outcome (list B) :=
  match l with
  | [] => Returns []
  | x :: l' => let! y := f x in let! ys := build_all f l' in Returns (y :: ys)
  end.

Definition buildGateways (visit : visiting) (units : list (string * Z)) (bc : buildContext)
    : outcome (list Pb.Gateway) :=
  build_all (buildGateway visit units bc) (bc_gateways bc).

(** ** Routes *)

Definition convertBackendRef (ns : string) (b : Crd.BackendRef) : Pb.BackendRef :=
  Pb.mkBackendRef (Crd.b_Name b) (getNamespace (Crd.b_Namespace b) ns) (getWeight (Crd.b_Weight b)).

Definition buildRule (units : list (string * Z)) (ns : string) (r : Crd.HTTPRouteRule) : Pb.RouteRule :=
  Pb.mkRouteRule (convertMatches (Crd.r_Matches r)) (convertFilters (Crd.r_Filters r))
    (convertBackendRef ns <$> Crd.r_BackendRefs r) (convertRouteLimits units <$> Crd.r_Limits r)
    (convertBufferingConfig units <$> Crd.r_Buffering r)
    ((λ m, convertBackendRef ns (Crd.mi_BackendRef m)) <$> Crd.r_Mirror r)
    (match Crd.r_Mirror r with
     | Some m => if decide (Crd.mi_Percentage m = 0) then 100 else Crd.mi_Percentage m
     | None => 0
     end)
    (convertRetryConfig <$> Crd.r_Retry r) (convertFaultInjectionConfig <$> Crd.r_FaultInjection r)
    (convertBodyTransformConfig <$> Crd.r_BodyTransform r).

Definition buildRoute (units : list (string * Z)) (r : Crd.ProxyRoute) : Pb.Route :=
  Pb.mkRoute (Crd.ro_Name r) (Crd.ro_Namespace r) (Crd.ro_Hostnames r) (buildRule units (Crd.ro_Namespace r) <$> Crd.ro_Rules r)
    (match Crd.ro_AccessLog r with Some a => if Crd.al_Enabled a then Some (convertRouteAccessLog a) else None | None => None end)
    (convertMiddlewarePipeline <$> Crd.ro_Pipeline r) (Crd.ro_Expression r).

Definition buildRoutes (units : list (string * Z)) (bc : buildContext) : list Pb.Route := buildRoute units <$> bc_routes bc.

(** ** Endpoints *)

(** [IntOrString.IntValue]: [strconv.Atoi] without its error; a number out of
    range gives the nearest int. *)
Definition IntValue (i : Crd.IntOrString) : Z :=
  match i with
  | Crd.IsInt n => n
  | Crd.IsString s =>
      let '(neg, digits) :=
        match s with
        | String c s' => if decide (c = "-"%char) then (true, s') else if decide (c = "+"%char) then (false, s') else (false, s)
        | EmptyString => (false, s)
        end in
      match parse_unsigned digits with
      | None => 0
      | Some n => if neg then Z.max min_int64 (- n) else Z.min max_int64 n
      end
  end.

(** The loop of [matchEndpointSlicePort]. *)
Fixpoint match_ports (esPorts : list Crd.EndpointPort) (targetPortName : string) (targetPortNumber servicePort : Z) : option Z :=
  match esPorts with
  | [] => None
  | p :: ps =>
      match Crd.ep_Port p with
      | None => match_ports ps targetPortName targetPortNumber servicePort
      | Some port =>
          if negb (str_empty targetPortName) && bool_decide (Crd.ep_Name p = Some targetPortName) then Some port
          else if bool_decide (targetPortNumber > 0) && bool_decide (port = targetPortNumber) then Some port
          else if str_empty targetPortName && bool_decide (targetPortNumber = 0) && bool_decide (port = servicePort) then Some port
          else match_ports ps targetPortName targetPortNumber servicePort
      end
  end.

Definition matchEndpointSlicePort (esPorts : list Crd.EndpointPort) (targetPortName : string) (targetPortNumber servicePort : Z) : Z :=
  match match_ports esPorts targetPortName targetPortNumber servicePort with
  | Some port => port
  | None => match esPorts with [p] => default 0 (Crd.ep_Port p) | _ => 0 end
  end.

Definition topologyZoneLabel : string := "topology.kubernetes.io/zone".
Definition topologyRegionLabel : string := "topology.kubernetes.io/region".

Definition nonempty_ptr (p : option string) : option string := s ← p; if str_empty s then None else Some s.

Definition resolveEndpointTopologyLabels (nodes : gmap string Crd.Node) (ep : Crd.Endpoint) : gmap string string :=
  let zone :=
    match nonempty_ptr (Crd.e_Zone ep) with
    | Some z => Some z
    | None => snd <$> list_find (λ z, str_empty z = false) (default [] (Crd.e_Hints ep))
    end in
  let labels : gmap string string := match zone with Some z => {[ topologyZoneLabel := z ]} | None => ∅ end in
  match (n ← nonempty_ptr (Crd.e_NodeName ep); nodes !! n) with
  | None => labels
  | Some node =>
      let labels := match Crd.n_Labels node !! topologyRegionLabel with Some r => <[topologyRegionLabel := r]> labels | None => labels end in
      match labels !! topologyZoneLabel, Crd.n_Labels node !! topologyZoneLabel with
      | None, Some z => <[topologyZoneLabel := z]> labels
      | _, _ => labels
      end
  end.

Definition endpoint_ready (ep : Crd.Endpoint) : bool := default true (Crd.e_Ready ep).

(** The port of the Service that a backend refers to: its name and number. *)
Definition target_port (svc : Crd.Service) (port : Z) : string * Z :=
  match snd <$> list_find (λ sp, Crd.sp_Port sp = port) (Crd.sv_Ports svc) with
  | Some sp =>
      let tp := IntValue (Crd.sp_TargetPort sp) in
      (Crd.sp_Name sp, if bool_decide (tp > 0) && bool_decide (tp ≤ max_int32) then tp else 0)
  | None => (""%string, 0)
  end.

(** [None] is the error that the service is not found. *)
Definition resolveServiceEndpoints (bc : buildContext) (ref : Crd.ServiceReference) (defaultNamespace : string)
    : option (list Pb.Endpoint) :=
  let namespace := getNamespace (Crd.s_Namespace ref) defaultNamespace in
  svc ← getService bc namespace (Crd.s_Name ref);
  let '(portName, portNumber) := target_port svc (Crd.s_Port ref) in
  Some (
    es ← getEndpointSlices bc namespace (Crd.s_Name ref);
    ep ← Crd.es_Endpoints es;
    let port := matchEndpointSlicePort (Crd.es_Ports es) portName portNumber (Crd.s_Port ref) in
    if decide (port = 0) then []
    else (λ addr, Pb.mkEndpoint addr port (endpoint_ready ep) (resolveEndpointTopologyLabels (bc_nodes bc) ep) 0) <$> Crd.e_Addresses ep).

(** ** Clusters *)

(** [pb.ServiceEndpoints] of another cluster and [FederationStateProvider]. *)
Record RemoteService := mkRemoteService {
  rv_Endpoints : list Pb.Endpoint; rv_ClusterName : string; rv_Region : string; rv_Zone : string }.

Record FederationStateProvider := mkFederationStateProvider {
  fp_IsActive : bool; fp_FederationID : string; fp_LocalMemberName : string; fp_VectorClock : gmap string Z;
  fp_RemoteEndpoints : string → string → list RemoteService }.

Definition active (fp : option FederationStateProvider) : option FederationStateProvider :=
  p ← fp; if fp_IsActive p then Some p else None.

(** The CA certificate under the first of the usual keys. *)
Definition first_key (data : gmap string string) (keys : list string) : option string :=
  head (omap (λ k, data !! k) keys).

Definition convertBackendTLS (bc : buildContext) (b : Crd.ProxyBackend) (t : Crd.BackendTLSConfig) : Pb.BackendTLS :=
  let caCert :=
    name ← nonempty_ptr (Crd.bl_CACertSecretRef t);
    secret ← getSecret bc (Crd.k_Namespace b) name;
    first_key (Crd.se_Data secret) ["ca.crt"; "tls.crt"; "ca-bundle.crt"]%string in
  Pb.mkBackendTLS (Crd.bl_Enabled t) (Crd.bl_InsecureSkipVerify t) (default ""%string caCert).

Definition convertConnectionPool (c : Crd.ConnectionPool) : Pb.ConnectionPool :=
  Pb.mkConnectionPool (getInt32 (Crd.cp_MaxIdleConns c)) (getInt32 (Crd.cp_MaxIdleConnsPerHost c))
    (getInt32 (Crd.cp_MaxConnsPerHost c)) (durationToMillis (Crd.cp_IdleConnTimeout c)).

Definition remote_endpoints (fp : option FederationStateProvider) (ns svc : string) : list Pb.Endpoint :=
  match active fp with
  | None => []
  | Some p =>
      r ← fp_RemoteEndpoints p ns svc;
      (λ e, Pb.mkEndpoint (Pb.e_Address e) (Pb.e_Port e) (Pb.e_Ready e)
        (mergeRemoteEndpointLabels (Pb.e_Labels e) (rv_ClusterName r) (rv_Region r) (rv_Zone r)) 0) <$> rv_Endpoints r
  end.

(** The endpoints of a backend, with those of the other clusters. *)
Definition backend_endpoints (fp : option FederationStateProvider) (bc : buildContext) (b : Crd.ProxyBackend)
    : option (list Pb.Endpoint) :=
  ref ← Crd.k_ServiceRef b;
  eps ← resolveServiceEndpoints bc ref (Crd.k_Namespace b);
  Some (eps ++ remote_endpoints fp (getNamespace (Crd.s_Namespace ref) (Crd.k_Namespace b)) (Crd.s_Name ref)).

Section tables.
Context `{TextTables}.

Definition buildCluster (bc : buildContext) (b : Crd.ProxyBackend) : Pb.Cluster :=
  Pb.mkCluster (Crd.k_Name b) (Crd.k_Namespace b) (convertLBPolicy (Crd.k_LBPolicy b)) (durationToMillis (Crd.k_ConnectTimeout b))
    (durationToMillis (Crd.k_IdleTimeout b)) (convertCircuitBreaker <$> Crd.k_CircuitBreaker b)
    (convertHealthCheck <$> Crd.k_HealthCheck b) (convertOutlierDetection <$> Crd.k_OutlierDetection b)
    (convertSlowStart <$> Crd.k_SlowStart b) (convertBackendTLS bc b <$> Crd.k_TLS b)
    (convertSessionAffinity <$> Crd.k_SessionAffinity b) (convertConnectionPool <$> Crd.k_ConnectionPool b)
    ((λ u, mkUpstreamProxyProtocol (up_Enabled u) (up_Version u)) <$> Crd.k_UpstreamProxyProtocol b) (Crd.k_Protocol b).

Definition buildClusters (fp : option FederationStateProvider) (bc : buildContext)
    : list Pb.Cluster * gmap string (list Pb.Endpoint) :=
  (buildCluster bc <$> bc_backends bc,
   foldl (λ m b, match backend_endpoints fp bc b with
                 | Some eps => <[ns_key (Crd.k_Namespace b) (Crd.k_Name b) := eps]> m
                 | None => m
                 end) ∅ (bc_backends bc)).

(** ** Policies *)

Definition loadSecretValue (bc : buildContext) (namespace secretName key : string) : option string :=
  secret ← getSecret bc namespace secretName; Crd.se_Data secret !! key.

Definition buildBasicAuthConfig (bc : buildContext) (ns : string) (b : Crd.BasicAuthPolicyConfig) : option Pb.BasicAuthConfig :=
  htpasswd ← loadSecretValue bc ns (Crd.ba_SecretRef b) "htpasswd";
  Some (Pb.mkBasicAuthConfig (if str_empty (Crd.ba_Realm b) then "Restricted" else Crd.ba_Realm b) htpasswd (Crd.ba_StripAuth b)).

Definition buildOIDCConfig (bc : buildContext) (ns : string) (o : Crd.OIDCPolicyConfig) : option Pb.OIDCConfig :=
  clientSecret ← loadSecretValue bc ns (Crd.oi_ClientSecretRef o) "client-secret";
  sessionSecret ← loadSecretValue bc ns (Crd.oi_SessionSecretRef o) "session-secret";
  let issuerURL :=
    match Crd.oi_Keycloak o with
    | Some k => if str_empty (Crd.oi_IssuerURL o) then trimTrailingSlash (kc_ServerURL k) +:+ "/realms/" +:+ kc_Realm k else Crd.oi_IssuerURL o
    | None => Crd.oi_IssuerURL o
    end in
  Some (Pb.mkOIDCConfig (Crd.oi_Provider o) issuerURL (Crd.oi_ClientID o) clientSecret (Crd.oi_RedirectURL o) (Crd.oi_Scopes o)
    sessionSecret (Crd.oi_ForwardHeaders o)
    ((λ k, mkKeycloakConfig (kc_ServerURL k) (kc_Realm k) (kc_RoleClaim k) (kc_GroupClaim k)) <$> Crd.oi_Keycloak o)
    ((λ a, mkAuthorizationConfig (az_RequiredRoles a) (az_RequiredGroups a) (az_Mode a)) <$> Crd.oi_Authorization o)).

Definition loadWASMBinary (bc : buildContext) (source defaultNamespace : string) : option string :=
  let '(namespace, name) :=
    match SplitN "/" source 2 with [ns; n] => (ns, n) | _ => (defaultNamespace, source) end in
  cm ← getConfigMap bc namespace name;
  match Crd.cm_BinaryData cm !! "plugin.wasm"%string with
  | Some w => Some w
  | None => w ← Crd.cm_Data cm !! "plugin.wasm"%string; bytes ← base64_DecodeString w; Some (String.string_of_list_ascii ((λ b, ascii_of_nat (Z.to_nat b)) <$> bytes))
  end.

Definition buildWASM (bc : buildContext) (ns : string) (w : Crd.WASMPluginConfig) : Pb.WASMPluginConfig :=
  Pb.mkWASMPluginConfig (Crd.wa_Source w) (default ""%string (Crd.wa_ConfigRef w)) (Crd.wa_Config w) (Crd.wa_Phase w)
    (clamp32 (Crd.wa_Priority w)) (default ""%string (loadWASMBinary bc (Crd.wa_Source w) ns)).

Definition copy_jwt (j : JWTConfig) : JWTConfig :=
  mkJWTConfig (jw_Issuer j) (jw_Audience j) (jw_JWKSUri j) (jw_HeaderName j) (jw_HeaderPrefix j) (jw_AllowedAlgorithms j).

Definition copy_headers (s : SecurityHeadersConfig) : SecurityHeadersConfig :=
  mkSecurityHeadersConfig
    ((λ h, mkHSTSConfig (hs_Enabled h) (hs_MaxAge h) (hs_IncludeSubDomains h) (hs_Preload h)) <$> sh_HSTS s)
    (sh_ContentSecurityPolicy s) (sh_XFrameOptions s) (sh_XContentTypeOptions s) (sh_XXSSProtection s) (sh_ReferrerPolicy s)
    (sh_PermissionsPolicy s) (sh_CrossOriginEmbedderPolicy s) (sh_CrossOriginOpenerPolicy s) (sh_CrossOriginResourcePolicy s).

Definition buildPolicy (visit : visiting) (bc : buildContext) (p : Crd.ProxyPolicy) : Pb.Policy :=
  let ns := Crd.p_Namespace p in
  Pb.mkPolicy (Crd.p_Name p) ns (convertPolicyType (Crd.p_Type p))
    (Pb.mkTargetRef (Crd.t_Kind (Crd.p_TargetRef p)) (Crd.t_Name (Crd.p_TargetRef p)) (getNamespace (Crd.t_Namespace (Crd.p_TargetRef p)) ns))
    ((λ r, Pb.mkRateLimitConfig (Crd.rt_RequestsPerSecond r) (getInt32 (Crd.rt_Burst r)) (Crd.rt_Key r)) <$> Crd.p_RateLimit p)
    (copy_jwt <$> Crd.p_JWT p)
    ((λ i, Pb.mkIPListConfig (Crd.ip_CIDRs i) (getString (Crd.ip_SourceHeader i))) <$> Crd.p_IPList p)
    ((λ c, Pb.mkCORSConfig (Crd.co_AllowOrigins c) (Crd.co_AllowMethods c) (Crd.co_AllowHeaders c) (Crd.co_ExposeHeaders c)
       (durationToSeconds (Crd.co_MaxAge c)) (Crd.co_AllowCredentials c)) <$> Crd.p_CORS p)
    (copy_headers <$> Crd.p_SecurityHeaders p)
    (convertDistributedRateLimitConfig <$> Crd.p_DistributedRateLimit p)
    ((λ w, convertWAFConfig (visit _) (name ← Crd.wf_RulesConfigMap w; getConfigMap bc ns name) ns w) <$> Crd.p_WAF p)
    (buildWASM bc ns <$> Crd.p_WASMPlugin p) (Crd.p_BasicAuth p ≫= buildBasicAuthConfig bc ns)
    (buildForwardAuthConfig <$> Crd.p_ForwardAuth p) (Crd.p_OIDC p ≫= buildOIDCConfig bc ns).

Definition buildPolicies (visit : visiting) (bc : buildContext) : list Pb.Policy :=
  buildPolicy visit bc <$> bc_policies bc.

(** ** L4 listeners *)

(** The first backend reference, in the order of the routes, whose cluster has
    endpoints, of a route in the gateway's namespace. *)
Definition findL4Backend (gwNamespace : string) (endpoints : gmap string (list Pb.Endpoint)) (bc : buildContext)
    : option (string * list Pb.Endpoint) :=
  head (
    route ← bc_routes bc;
    if str_eqb (Crd.ro_Namespace route) gwNamespace then
      rule ← Crd.ro_Rules route;
      ref ← Crd.r_BackendRefs rule;
      option_list ((λ eps, (Crd.b_Name ref, eps)) <$> endpoints !! ns_key (default gwNamespace (Crd.b_Namespace ref)) (Crd.b_Name ref))
    else []).

Definition l4_name (gw : Pb.Gateway) (l : Pb.Listener) : string :=
  Pb.g_Namespace gw +:+ "-" +:+ Pb.g_Name gw +:+ "-" +:+ Pb.l_Name l.

Definition defaultTCPConfig : Pb.L4TCPConfig := Pb.mkL4TCPConfig 5000 300000 32768 30000.
Definition defaultUDPConfig : Pb.L4UDPConfig := Pb.mkL4UDPConfig 30000 65535.

(** A backend with an empty name counts as none. *)
Definition named_backend (o : option (string * list Pb.Endpoint)) : option (string * list Pb.Endpoint) :=
  b ← o; if str_empty b.1 then None else Some b.

Definition buildL4Listener (endpoints : gmap string (list Pb.Endpoint)) (bc : buildContext) (gw : Pb.Gateway) (l : Pb.Listener)
    : option Pb.L4Listener :=
  let backend := named_backend (findL4Backend (Pb.g_Namespace gw) endpoints bc) in
  match Pb.l_Protocol l with
  | 4 => (λ b, Pb.mkL4Listener (l4_name gw l) (Pb.l_Port l) 4 b.1 b.2 [] (Some defaultTCPConfig) None None "") <$> backend
  | 5 =>
      let routes := match backend with
                    | Some b => (λ h, Pb.mkL4TLSRoute h b.1 b.2) <$> Pb.l_Hostnames l
                    | None => []
                    end in
      match routes with
      | [] => None
      | _ => Some (Pb.mkL4Listener (l4_name gw l) (Pb.l_Port l) 5 "" [] routes None None None "")
      end
  | 6 => (λ b, Pb.mkL4Listener (l4_name gw l) (Pb.l_Port l) 6 b.1 b.2 [] None (Some defaultUDPConfig) None "") <$> backend
  | _ => None
  end.

Definition buildL4Listeners (gateways : list Pb.Gateway) (endpoints : gmap string (list Pb.Endpoint)) (bc : buildContext)
    : list Pb.L4Listener :=
  gw ← gateways; l ← Pb.g_Listeners gw; option_list (buildL4Listener endpoints bc gw l).

(** ** Internal services *)

Definition meshAnnotation : string := "novaedge.io/mesh".
Definition meshMTLSAnnotation : string := "novaedge.io/mesh-mtls".

Definition internal_labels (es : Crd.EndpointSlice) (ep : Crd.Endpoint) : gmap string string :=
  let labels : gmap string string := {[ "kubernetes.io/namespace"%string := Crd.es_Namespace es ]} in
  let labels := match nonempty_ptr (Crd.e_TargetRef ep) with Some n => <["kubernetes.io/name"%string := n]> labels | None => labels end in
  match nonempty_ptr (Crd.e_NodeName ep) with Some n => <["topology.kubernetes.io/node"%string := n]> labels | None => labels end.

Definition resolveInternalServiceEndpoints (bc : buildContext) (svc : Crd.Service) : list Pb.Endpoint :=
  es ← getEndpointSlices bc (Crd.sv_Namespace svc) (Crd.sv_Name svc);
  ep ← Crd.es_Endpoints es;
  p ← Crd.es_Ports es;
  match Crd.ep_Port p with
  | None => []
  | Some port => (λ addr, Pb.mkEndpoint addr port (endpoint_ready ep) (internal_labels es ep) 0) <$> Crd.e_Addresses ep
  end.

Definition in_mesh (svc : Crd.Service) : bool :=
  str_eqb (map_get ""%string (Crd.sv_Annotations svc) meshAnnotation) "enabled" &&
  negb (str_empty (Crd.sv_ClusterIP svc)) && negb (str_eqb (Crd.sv_ClusterIP svc) "None").

Definition buildInternalService (bc : buildContext) (svc : Crd.Service) : Pb.InternalService :=
  Pb.mkInternalService (Crd.sv_Name svc) (Crd.sv_Namespace svc) (Crd.sv_ClusterIP svc)
    ((λ sp, Pb.mkServicePort (Crd.sp_Name sp) (Crd.sp_Port sp) (wrap32 (IntValue (Crd.sp_TargetPort sp))) (Crd.sp_Protocol sp)) <$> Crd.sv_Ports svc)
    (resolveInternalServiceEndpoints bc svc) 1 true
    (default "permissive"%string (Crd.sv_Annotations svc !! meshMTLSAnnotation)).

Definition str_lt (s t : string) : bool := bool_decide (String.compare s t = Lt).

Definition service_less (a b : Pb.InternalService) : bool :=
  if negb (str_eqb (Pb.i_Namespace a) (Pb.i_Namespace b)) then str_lt (Pb.i_Namespace a) (Pb.i_Namespace b)
  else str_lt (Pb.i_Name a) (Pb.i_Name b).

Context `{SortSlice}.

Definition buildInternalServices (bc : buildContext) : list Pb.InternalService :=
  Slice service_less (buildInternalService bc <$> filter (λ svc, in_mesh svc = true) (bc_services bc)).

(** ** Mesh policies and WAN *)

Definition buildMeshAuthorizationPolicies (bc : buildContext) : list Pb.MeshAuthorizationPolicy :=
  omap (λ p,
    if str_eqb (Crd.p_Type p) "MeshAuthorization" then
      (λ m, Pb.mkMeshAuthorizationPolicy (Crd.p_Name p) (Crd.t_Name (Crd.p_TargetRef p))
        (default (Crd.p_Namespace p) (Crd.t_Namespace (Crd.p_TargetRef p))) (Crd.ma_Action m) (convertMeshAuthzRules (Crd.ma_Rules m)))
        <$> Crd.p_MeshAuthorization p
    else None) (bc_policies bc).

Definition buildWANLink (l : Crd.ProxyWANLink) : Pb.WANLink :=
  Pb.mkWANLink (Crd.w_Name l) (Crd.w_Namespace l) (Crd.w_Site l) (Crd.w_Interface l) (Crd.w_Provider l) (Crd.w_Bandwidth l)
    (Crd.w_Cost l) (Crd.w_Role l)
    ((λ s, Pb.mkWANLinkSLA (from_option Milliseconds 0 (Crd.sl_MaxLatency s)) (from_option Milliseconds 0 (Crd.sl_MaxJitter s))
       (default fzero (Crd.sl_MaxPacketLoss s))) <$> Crd.w_SLA l)
    ((λ t, mkWANTunnelEndpoint (wt_PublicIP t) (wt_Port t)) <$> Crd.w_TunnelEndpoint l).

Definition buildWANLinks (bc : buildContext) : list Pb.WANLink := buildWANLink <$> bc_wanLinks bc.

Definition buildWANPolicy (p : Crd.ProxyWANPolicy) : Pb.WANPolicy :=
  let m := Crd.wo_Match p in
  Pb.mkWANPolicy (Crd.wo_Name p) (Crd.wo_Namespace p)
    (if bool_decide (wm_Hosts m = []) && bool_decide (wm_Paths m = []) && bool_decide (wm_Headers m = ∅) then None
     else Some (mkWANPolicyMatch (wm_Hosts m) (wm_Paths m) (wm_Headers m)))
    (let s := Crd.wo_PathSelection p in mkWANPathSelection (wp_Strategy s) (wp_Failover s) (wp_DSCPClass s)).

Definition buildWANPolicies (bc : buildContext) : list Pb.WANPolicy := buildWANPolicy <$> bc_wanPolicies bc.

(** ** Sorting and version *)

Definition by_name {A} (name : A → string) (a b : A) : bool := str_lt (name a) (name b).

Definition sortSnapshot (s : Pb.ConfigSnapshot) : Pb.ConfigSnapshot :=
  Pb.mkConfigSnapshot (Pb.Version s) (Pb.GenerationTime s) (Slice (by_name Pb.g_Name) (Pb.Gateways s))
    (Slice (by_name Pb.ro_Name) (Pb.Routes s)) (Slice (by_name Pb.k_Name) (Pb.Clusters s))
    (Slice (by_name Pb.e_Address) <$> Pb.Endpoints s) (Slice (by_name Pb.p_Name) (Pb.Policies s))
    (Slice (by_name Pb.l4_Name) (Pb.L4Listeners s)) (Pb.InternalServices s) (Slice (by_name Pb.ma_Name) (Pb.MeshAuthzPolicies s))
    (Slice (by_name Pb.w_Name) (Pb.WanLinks s)) (Slice (by_name Pb.wo_Name) (Pb.WanPolicies s)) (Pb.Federation s) (Pb.MeshTlsConfig s).

Definition set_version (version : string) (genTime : Z) (s : Pb.ConfigSnapshot) : Pb.ConfigSnapshot :=
  Pb.mkConfigSnapshot version genTime (Pb.Gateways s) (Pb.Routes s) (Pb.Clusters s) (Pb.Endpoints s) (Pb.Policies s)
    (Pb.L4Listeners s) (Pb.InternalServices s) (Pb.MeshAuthzPolicies s) (Pb.WanLinks s) (Pb.WanPolicies s) (Pb.Federation s) (Pb.MeshTlsConfig s).

(** [generateVersion]: sixteen hexadecimal digits of the hash of the encoding
    without version and time; an encoding error gives the time. *)
Definition generateVersion (marshal : Pb.ConfigSnapshot → option (list Z)) (now : Z) (s : Pb.ConfigSnapshot) : string :=
  match marshal (set_version "" 0 s) with
  | None => "err-" +:+ format_d (UnixNano now)
  | Some data => EncodeToString (take 8 (sha256 data))
  end.

Definition enhanceWithFederation (fp : FederationStateProvider) (s : Pb.ConfigSnapshot) : Pb.ConfigSnapshot :=
  Pb.mkConfigSnapshot (Pb.Version s) (Pb.GenerationTime s) (Pb.Gateways s) (Pb.Routes s) (Pb.Clusters s) (Pb.Endpoints s) (Pb.Policies s)
    (Pb.L4Listeners s) (Pb.InternalServices s) (Pb.MeshAuthzPolicies s) (Pb.WanLinks s) (Pb.WanPolicies s)
    (Some (Pb.mkFederationMetadata (fp_FederationID fp) (fp_LocalMemberName fp) (fp_VectorClock fp))) (Pb.MeshTlsConfig s).

(** The parts of the snapshot, before sorting. *)
Definition buildParts (visit : visiting) (units : list (string * Z))
    (fp : option FederationStateProvider) (now : Z) (bc : buildContext) : outcome Pb.ConfigSnapshot :=
  let! gateways := buildGateways visit units bc in
  let '(clusters, endpoints) := buildClusters fp bc in
  Returns (Pb.mkConfigSnapshot "" (now / Second) gateways (buildRoutes units bc) clusters endpoints (buildPolicies visit bc)
    (buildL4Listeners gateways endpoints bc) (buildInternalServices bc) (buildMeshAuthorizationPolicies bc)
    (buildWANLinks bc) (buildWANPolicies bc) None None).

(** [buildSnapshotInternal]: [None] is an error of a list call. *)
Definition BuildSnapshot (visit : visiting) (units : list (string * Z))
    (marshal : Pb.ConfigSnapshot → option (list Z)) (fp : option FederationStateProvider) (now : Z) (k : KubeClient)
    : outcome (option Pb.ConfigSnapshot) :=
  match prefetch k with
  | None => Returns None
  | Some bc =>
      let! parts := buildParts visit units fp now bc in
      let s := sortSnapshot parts in
      let s := set_version (generateVersion marshal now s) (Pb.GenerationTime s) s in
      Returns (Some (match active fp with Some p => enhanceWithFederation p s | None => s end))
  end.

(** ** Extensions *)

Definition loadCACert (bc : buildContext) (r : Crd.SecretReference) (defaultNamespace : string) : option string :=
  secret ← getSecret bc (secretRefNS (Crd.sr_Namespace r) defaultNamespace) (Crd.sr_Name r);
  first_key (Crd.se_Data secret) ["ca.crt"; "ca-bundle.crt"; "tls.crt"]%string.

Definition buildListenerExtensions (bc : buildContext) (ns : string) (l : Crd.Listener) : Pb.ListenerExtensions :=
  Pb.mkListenerExtensions (Crd.l_OCSPStapling l)
    (match Crd.l_ClientAuth l with
     | Some a =>
         if str_empty (Crd.Mode a) || str_eqb (Crd.Mode a) "none" then None
         else Some (Pb.mkClientAuthConfig (Crd.Mode a) (Crd.RequiredCNPatterns a) (Crd.RequiredSANs a)
                (default ""%string (r ← Crd.CACertRef a; loadCACert bc r ns)))
     | None => None
     end)
    (match Crd.l_ProxyProtocol l with
     | Some p => if Crd.pp_Enabled p then Some (Pb.mkProxyProtocolConfig true (Crd.pp_Version p) (Crd.pp_TrustedCIDRs p)) else None
     | None => None
     end).

(** The extensions by listener and by cluster. *)
Definition buildExtensions (bc : buildContext) : gmap string Pb.ListenerExtensions * gmap string UpstreamProxyProtocol :=
  (foldl (λ m gw, foldl (λ m l,
       <[ns_key (Crd.g_Namespace gw) (ns_key (Crd.g_Name gw) (Crd.l_Name l)) := buildListenerExtensions bc (Crd.g_Namespace gw) l]> m)
       m (Crd.g_Listeners gw)) ∅ (bc_gateways bc),
   foldl (λ m b,
     match Crd.k_UpstreamProxyProtocol b with
     | Some u => if up_Enabled u then <[ns_key (Crd.k_Namespace b) (Crd.k_Name b) := mkUpstreamProxyProtocol true (up_Version u)]> m else m
     | None => m
     end) ∅ (bc_backends bc)).

End tables.
