(* ===== verification/BuilderSecrets.v ===== *)
(** * The builder fetches the secrets it needs

    The builder asks the API server only for the secrets that
    [collectReferencedSecrets] finds. The theorem of this file says that this
    is enough: the snapshot and its extensions are the same as with every
    secret of the cluster at hand. *)

From S2P Require Import Prelude Sha256 GoStrings Float64 GoLib Convert BuilderTypes BuilderConvert SnapshotBuilder.
Open Scope Z_scope.
Open Scope go_scope.

(** ** The collectors *)

Definition grows_set (f : secretRefSet → secretRefSet) : Prop := ∀ s, s ⊆ f s.

Lemma foldl_grows {A} (f : secretRefSet → A → secretRefSet) l s : (∀ x, grows_set (λ s, f s x)) → s ⊆ foldl f s l.
Proof. intros Hf. revert s. induction l as [|x l IH]; intros s; simpl; [done|]. etransitivity; [apply (Hf x)|apply IH]. Qed.

(** What the body adds for an element of the list is in the result. *)
Lemma foldl_collects {A} (f : secretRefSet → A → secretRefSet) l x r s :
  (∀ x, grows_set (λ s, f s x)) → (∀ s, r ∈ f s x) → x ∈ l → r ∈ foldl f s l.
Proof.
  intros Hf Hr Hx. revert s. induction Hx as [y l|y z l Hx IH]; intros s; simpl; [|by apply IH].
  apply (foldl_grows f l _ Hf). apply Hr.
Qed.

Lemma map_fold_grows {V} (f : V → secretRefSet → secretRefSet) (m : gmap string V) s :
  (∀ v, grows_set (f v)) → s ⊆ map_fold (λ _, f) s m.
Proof.
  intros Hf. apply (map_fold_weak_ind (λ r _, s ⊆ r)); [done|]. intros k v m' r _ Hr. etransitivity; [done|apply Hf].
Qed.

Lemma map_fold_collects {V} (f : V → secretRefSet → secretRefSet) (m : gmap string V) k v r s :
  (∀ v, grows_set (f v)) → (∀ s, r ∈ f v s) → m !! k = Some v → r ∈ map_fold (λ _, f) s m.
Proof.
  intros Hf Hr. apply (map_fold_weak_ind (λ R m, m !! k = Some v → r ∈ R)); [by rewrite lookup_empty|].
  intros i w m' R _ IH Hk. apply lookup_insert_Some in Hk as [[-> ->]|[_ Hk]]; [apply Hr|]. by apply Hf, IH.
Qed.

Lemma add_ref_grows ns name : grows_set (add_ref ns name).
Proof. intros s. unfold add_ref. case_match; set_solver. Qed.

Lemma add_secret_ref_grows ns r : grows_set (add_secret_ref ns r).
Proof. intros s. destruct r; [apply add_ref_grows|done]. Qed.

Lemma collectListener_grows ns l : grows_set (collectListenerSecretRefs ns l).
Proof.
  intros s. unfold collectListenerSecretRefs. etransitivity; [|apply add_secret_ref_grows].
  etransitivity; [|apply (map_fold_grows (λ t, add_secret_ref ns (Crd.SecretRef t))); intros; apply add_secret_ref_grows].
  apply add_secret_ref_grows.
Qed.

(** A reference is found unless its name is empty. *)
Definition covered (refs : secretRefSet) (ns name : string) : Prop := name = ""%string ∨ (ns, name) ∈ refs.

Lemma add_ref_covers ns name s : covered (add_ref ns name s) ns name.
Proof. unfold covered, add_ref, str_empty. case_bool_decide; [by left|right; set_solver]. Qed.

Lemma covered_mono s s' ns name : s ⊆ s' → covered s ns name → covered s' ns name.
Proof. unfold covered. set_solver. Qed.

(** [s ⊆ add_ref ... (add_ref ... s)] *)
Ltac grow := repeat first [done | etransitivity; [|apply add_ref_grows]].

(** The secrets a listener can be asked for. *)
Definition listener_refs (ns : string) (l : Crd.Listener) (r : Crd.SecretReference) : Prop :=
  (Crd.l_TLS l ≫= Crd.SecretRef) = Some r ∨ (∃ h t, Crd.l_TLSCertificates l !! h = Some t ∧ Crd.SecretRef t = Some r) ∨
  (Crd.l_ClientAuth l ≫= Crd.CACertRef) = Some r.

Lemma collectListener_covers ns l r s :
  listener_refs ns l r → covered (collectListenerSecretRefs ns l s) (secretRefNS (Crd.sr_Namespace r) ns) (Crd.sr_Name r).
Proof.
  unfold collectListenerSecretRefs. set (f := λ t, add_secret_ref ns (Crd.SecretRef t)).
  assert (∀ t, grows_set (f t)) as Hf by (intros; apply add_secret_ref_grows).
  intros [E|[(h & t & Ht & E)|E]].
  - rewrite E. eapply covered_mono; [etransitivity; [apply (map_fold_grows f); done|apply add_secret_ref_grows]|]. apply add_ref_covers.
  - eapply covered_mono; [apply add_secret_ref_grows|].
    destruct (decide (Crd.sr_Name r = ""%string)); [by left|right].
    apply (map_fold_collects f _ h t); [done| |done]. intros s'. unfold f. rewrite E.
    destruct (add_ref_covers (secretRefNS (Crd.sr_Namespace r) ns) (Crd.sr_Name r) s') as [?|?]; done.
  - rewrite E. apply add_ref_covers.
Qed.

Lemma gateways_covered gws bks ps gw l r :
  gw ∈ gws → l ∈ Crd.g_Listeners gw → listener_refs (Crd.g_Namespace gw) l r →
  covered (collectReferencedSecrets gws bks ps) (secretRefNS (Crd.sr_Namespace r) (Crd.g_Namespace gw)) (Crd.sr_Name r).
Proof.
  intros Hgw Hl Hr. destruct (decide (Crd.sr_Name r = ""%string)); [by left|right]. unfold collectReferencedSecrets.
  apply (foldl_grows _ ps). { intros p s. repeat case_match; grow. }
  apply (foldl_grows _ bks). { intros b s. case_match; grow. }
  apply (foldl_collects _ gws gw); [intros x s; apply foldl_grows; intros; apply collectListener_grows| |done].
  intros s. apply (foldl_collects _ (Crd.g_Listeners gw) l); [intros; apply collectListener_grows| |done].
  intros s'. by destruct (collectListener_covers _ _ r s' Hr).
Qed.

Lemma backends_covered gws bks ps b t name :
  b ∈ bks → Crd.k_TLS b = Some t → Crd.bl_CACertSecretRef t = Some name →
  covered (collectReferencedSecrets gws bks ps) (Crd.k_Namespace b) name.
Proof.
  intros Hb Ht Hn. destruct (decide (name = ""%string)); [by left|right]. unfold collectReferencedSecrets.
  apply (foldl_grows _ ps). { intros p s. repeat case_match; grow. }
  apply (foldl_collects _ bks b); [|intros s|done].
  - intros x s. case_match; grow.
  - rewrite Ht, Hn. apply add_ref_grows. simpl. by destruct (add_ref_covers (Crd.k_Namespace b) name s).
Qed.

Definition policy_refs (p : Crd.ProxyPolicy) (name : string) : Prop :=
  (∃ b, Crd.p_BasicAuth p = Some b ∧ name = Crd.ba_SecretRef b) ∨
  (∃ o, Crd.p_OIDC p = Some o ∧ (name = Crd.oi_ClientSecretRef o ∨ name = Crd.oi_SessionSecretRef o)).

Lemma policies_covered gws bks ps p name :
  p ∈ ps → policy_refs p name → covered (collectReferencedSecrets gws bks ps) (Crd.p_Namespace p) name.
Proof.
  intros Hp Hr. destruct (decide (name = ""%string)); [by left|right]. unfold collectReferencedSecrets.
  apply (foldl_collects _ ps p); [|intros s|done].
  - intros x s. repeat case_match; grow.
  - destruct Hr as [(b & Hb & ->)|(o & Ho & [-> | ->])].
    + rewrite Hb. assert ((Crd.p_Namespace p, Crd.ba_SecretRef b) ∈ add_ref (Crd.p_Namespace p) (Crd.ba_SecretRef b) s) as Hin
        by (by destruct (add_ref_covers (Crd.p_Namespace p) (Crd.ba_SecretRef b) s)).
      destruct (Crd.p_OIDC p); [by apply add_ref_grows, add_ref_grows|done].
    + rewrite Ho. apply add_ref_grows. by edestruct add_ref_covers.
    + rewrite Ho. by edestruct add_ref_covers.
Qed.

(** ** The fetched secrets *)

Definition with_secrets (m : gmap string Crd.Secret) (bc : buildContext) : buildContext :=
  mkBuildContext (bc_gateways bc) (bc_routes bc) (bc_backends bc) (bc_policies bc) (bc_services bc) (bc_wanLinks bc)
    (bc_wanPolicies bc) (bc_nodes bc) (bc_serviceMap bc) m (bc_configMaps bc) (bc_endpointSlices bc).

Section fetch.
Context (get : string * string → option Crd.Secret) (full : gmap string Crd.Secret).
(** The API server returns the object that was asked for, none has an empty
    name, and [full] has every secret of the cluster under its key. *)
Context (get_names : ∀ ns name s, get (ns, name) = Some s → Crd.se_Namespace s = ns ∧ Crd.se_Name s = name).
Context (get_empty : ∀ ns, get (ns, ""%string) = None).
Context (full_get : ∀ ns name, full !! ns_key ns name = get (ns, name)).

Lemma fetch_list l (m : gmap string Crd.Secret) :
  (∀ k s, m !! k = Some s → full !! k = Some s) →
  let m' := foldl (λ m ref, match get ref with Some s => <[ns_key (Crd.se_Namespace s) (Crd.se_Name s) := s]> m | None => m end) m l in
  (∀ k s, m' !! k = Some s → full !! k = Some s) ∧ (∀ k s, m !! k = Some s → m' !! k = Some s) ∧
  (∀ ns name s, (ns, name) ∈ l → get (ns, name) = Some s → m' !! ns_key ns name = Some s).
Proof.
  revert m. induction l as [|[ns name] l IH]; intros m Hm; simpl.
  { split_and!; [done|done|]. by intros ??? ?%not_elem_of_nil. }
  destruct (get (ns, name)) as [s|] eqn:E.
  - destruct (get_names _ _ _ E) as [-> ->].
    destruct (IH (<[ns_key ns name := s]> m)) as (H1 & H2 & H3).
    { intros k s' [[<- <-]|[_ Hk]]%lookup_insert_Some; [by rewrite full_get|by apply Hm]. }
    split_and!; [done| |].
    + intros k s' Hk. apply H2. destruct (decide (ns_key ns name = k)) as [<-|Hne]; [|by rewrite lookup_insert_ne].
      rewrite lookup_insert_eq. apply Hm in Hk. rewrite full_get in Hk. congruence.
    + intros ns' name' s' [[= -> ->]|Hin]%elem_of_cons Hs'; [|by apply H3].
      apply H2. rewrite lookup_insert_eq. congruence.
  - destruct (IH m Hm) as (H1 & H2 & H3). split_and!; [done|done|].
    intros ns' name' s' [[= -> ->]|Hin]%elem_of_cons Hs'; [congruence|by apply H3].
Qed.

Lemma fetch_lookup refs ns name :
  covered refs ns name → fetchSecrets get refs !! ns_key ns name = full !! ns_key ns name.
Proof.
  intros Hc. unfold fetchSecrets. destruct (fetch_list (elements refs) ∅) as (H1 & _ & H3).
  { intros k s []%lookup_empty_Some. }
  rewrite full_get in *. destruct (get (ns, name)) as [s|] eqn:E.
  - destruct Hc as [->|Hin]; [by rewrite get_empty in E|]. apply H3; [by apply elem_of_elements|done].
  - match goal with |- ?m !! ?k = _ => destruct (m !! k) as [s|] eqn:Em end; [|done].
    apply H1 in Em. rewrite full_get in Em. congruence.
Qed.

Lemma build_all_ext {A B} (f g : A → outcome B) l : (∀ x, x ∈ l → f x = g x) → build_all f l = build_all g l.
Proof.
  induction l as [|x l IH]; intros Hfg; simpl; [done|]. rewrite Hfg by (by left). destruct (g x); simpl; [|done].
  rewrite IH; [done|]. intros y Hy. apply Hfg. by right.
Qed.

(** *** The parts that read secrets *)

Context (bc : buildContext).
Context (bc_covered : ∀ ns name, covered (collectReferencedSecrets (bc_gateways bc) (bc_backends bc) (bc_policies bc)) ns name →
  getSecret bc ns name = getSecret (with_secrets full bc) ns name).
Context (visit : visiting) (visit_order : ∀ V m, range_order m (visit V m)).

Lemma loadTLSConfig_same gw l t r :
  gw ∈ bc_gateways bc → l ∈ Crd.g_Listeners gw → Crd.SecretRef t = Some r → listener_refs (Crd.g_Namespace gw) l r →
  loadTLSConfig bc (Crd.g_Namespace gw) t = loadTLSConfig (with_secrets full bc) (Crd.g_Namespace gw) t.
Proof.
  intros Hgw Hl Hr Href. unfold loadTLSConfig. rewrite Hr. simpl. rewrite bc_covered; [done|]. by eapply gateways_covered.
Qed.

Lemma loadTLSConfig_nil ns t (b1 b2 : buildContext) : Crd.SecretRef t = None → loadTLSConfig b1 ns t = loadTLSConfig b2 ns t.
Proof. intros E. unfold loadTLSConfig. by rewrite E. Qed.

Lemma buildListener_same gw l :
  gw ∈ bc_gateways bc → l ∈ Crd.g_Listeners gw →
  buildListener visit bc (Crd.g_Namespace gw) l = buildListener visit (with_secrets full bc) (Crd.g_Namespace gw) l.
Proof.
  intros Hgw Hl.
  assert (∀ acc, loadSNI bc (Crd.g_Namespace gw) (visit _ (Crd.l_TLSCertificates l)) acc =
    loadSNI (with_secrets full bc) (Crd.g_Namespace gw) (visit _ (Crd.l_TLSCertificates l)) acc) as Hsni.
  { assert (∀ h t, (h, t) ∈ visit _ (Crd.l_TLSCertificates l) → Crd.l_TLSCertificates l !! h = Some t) as Hin
      by (intros h t; by rewrite (visit_order _ _), elem_of_map_to_list).
    induction (visit _ (Crd.l_TLSCertificates l)) as [|[h t] lst IH]; intros acc; simpl; [done|].
    assert (loadTLSConfig bc (Crd.g_Namespace gw) t = loadTLSConfig (with_secrets full bc) (Crd.g_Namespace gw) t) as ->.
    { destruct (Crd.SecretRef t) as [r|] eqn:E; [|by apply loadTLSConfig_nil].
      apply (loadTLSConfig_same gw l t r); try done. right. left. exists h, t. split; [|done]. apply Hin. by left. }
    destruct (loadTLSConfig (with_secrets full bc) (Crd.g_Namespace gw) t); simpl; [|done].
    apply IH. intros h' t' Hin'. apply Hin. by right. }
  unfold buildListener. destruct (Crd.l_TLS l) as [t|] eqn:Et; [|by rewrite Hsni].
  assert (loadTLSConfig bc (Crd.g_Namespace gw) t = loadTLSConfig (with_secrets full bc) (Crd.g_Namespace gw) t) as ->.
  { destruct (Crd.SecretRef t) as [r|] eqn:E; [|by apply loadTLSConfig_nil].
    apply (loadTLSConfig_same gw l t r); try done. left. by rewrite Et. }
  destruct (loadTLSConfig (with_secrets full bc) (Crd.g_Namespace gw) t) as [[c|]|]; simpl; [by rewrite Hsni|done|done].
Qed.

Lemma buildGateways_same units : buildGateways visit units bc = buildGateways visit units (with_secrets full bc).
Proof.
  unfold buildGateways. apply build_all_ext. intros gw Hgw. unfold buildGateway.
  assert (∀ ls, (∀ l, l ∈ ls → l ∈ Crd.g_Listeners gw) →
    buildListeners visit bc (Crd.g_Namespace gw) ls = buildListeners visit (with_secrets full bc) (Crd.g_Namespace gw) ls) as Hls.
  { induction ls as [|l ls IH]; intros Hin; simpl; [done|]. rewrite (buildListener_same gw) by (try done; apply Hin; by left).
    rewrite IH; [done|]. intros l' Hl'. apply Hin. by right. }
  by rewrite Hls.
Qed.

Lemma buildCluster_same `{TextTables} b : b ∈ bc_backends bc → buildCluster bc b = buildCluster (with_secrets full bc) b.
Proof.
  intros Hb. unfold buildCluster. f_equal. destruct (Crd.k_TLS b) as [t|] eqn:Et; simpl; [|done]. f_equal.
  unfold convertBackendTLS. f_equal. f_equal. unfold nonempty_ptr. destruct (Crd.bl_CACertSecretRef t) as [name|] eqn:En; simpl; [|done].
  destruct (str_empty name); simpl; [done|]. rewrite bc_covered; [done|]. by eapply backends_covered.
Qed.

Lemma loadSecretValue_same p name key :
  p ∈ bc_policies bc → policy_refs p name →
  loadSecretValue bc (Crd.p_Namespace p) name key = loadSecretValue (with_secrets full bc) (Crd.p_Namespace p) name key.
Proof. intros Hp Hr. unfold loadSecretValue. rewrite bc_covered; [done|]. by apply policies_covered. Qed.

Lemma buildPolicy_same `{TextTables} p : p ∈ bc_policies bc → buildPolicy visit bc p = buildPolicy visit (with_secrets full bc) p.
Proof.
  intros Hp. unfold buildPolicy. f_equal.
  - destruct (Crd.p_BasicAuth p) as [b|] eqn:Eb; simpl; [|done]. unfold buildBasicAuthConfig.
    rewrite loadSecretValue_same; [done|done|]. left. by exists b.
  - destruct (Crd.p_OIDC p) as [o|] eqn:Eo; simpl; [|done]. unfold buildOIDCConfig.
    rewrite !loadSecretValue_same; try done; right; exists o; auto.
Qed.

Lemma buildListenerExtensions_same gw l :
  gw ∈ bc_gateways bc → l ∈ Crd.g_Listeners gw →
  buildListenerExtensions bc (Crd.g_Namespace gw) l = buildListenerExtensions (with_secrets full bc) (Crd.g_Namespace gw) l.
Proof.
  intros Hgw Hl. unfold buildListenerExtensions. f_equal. destruct (Crd.l_ClientAuth l) as [a|] eqn:Ea; [|done].
  destruct (str_empty (Crd.Mode a) || str_eqb (Crd.Mode a) "none"); [done|]. do 3 f_equal.
  destruct (Crd.CACertRef a) as [r|] eqn:Er; simpl; [|done]. unfold loadCACert. rewrite bc_covered; [done|].
  eapply gateways_covered; [done|done|]. right. right. by rewrite Ea.
Qed.

Lemma buildExtensions_same : buildExtensions bc = buildExtensions (with_secrets full bc).
Proof.
  unfold buildExtensions. f_equal. simpl. apply foldl_ext_in. intros m gw Hgw. apply foldl_ext_in. intros m' l Hl.
  by rewrite buildListenerExtensions_same.
Qed.

End fetch.

(** The secrets the builder collects from gateways, backends and policies
    before it asks the API server are all it needs: with only those fetched, the
    snapshot and its extensions are the same as with every secret of the cluster
    at hand. *)
Theorem prefetch_fetches_enough `{TextTables} `{SortSlice} k bc full (visit : visiting) units fp now :
  (∀ ns name s, kl_getSecret k (ns, name) = Some s → Crd.se_Namespace s = ns ∧ Crd.se_Name s = name) →
  (∀ ns, kl_getSecret k (ns, ""%string) = None) →
  (∀ ns name, full !! ns_key ns name = kl_getSecret k (ns, name)) →
  (∀ V m, range_order m (visit V m)) →
  prefetch k = Some bc →
  buildParts visit units fp now bc = buildParts visit units fp now (with_secrets full bc) ∧
  buildExtensions bc = buildExtensions (with_secrets full bc).
Proof.
  intros Hn He Hf Hv Hbc.
  assert (∀ ns name, covered (collectReferencedSecrets (bc_gateways bc) (bc_backends bc) (bc_policies bc)) ns name →
    getSecret bc ns name = getSecret (with_secrets full bc) ns name) as Hc.
  { intros ns name Hcov. unfold getSecret. simpl. unfold prefetch in Hbc.
    repeat match type of Hbc with (?x ≫= _) = Some _ => destruct x; [simpl in Hbc|done] end.
    injection Hbc as <-. simpl in *. by apply (fetch_lookup _ full Hn He Hf). }
  split; [|by apply buildExtensions_same]. unfold buildParts.
  rewrite (buildGateways_same full bc Hc visit Hv).
  destruct (buildGateways visit units (with_secrets full bc)); simpl; [|done]. f_equal. unfold buildClusters. simpl.
  assert (buildCluster bc <$> bc_backends bc = buildCluster (with_secrets full bc) <$> bc_backends bc) as ->
    by (apply list_fmap_ext; intros i b Hb; apply buildCluster_same; [done|by eapply list_elem_of_lookup_2]).
  assert (buildPolicies visit bc = buildPolicies visit (with_secrets full bc)) as ->; [|done].
  unfold buildPolicies. apply list_fmap_ext. intros i p Hp. apply buildPolicy_same; [done|by eapply list_elem_of_lookup_2].
Qed.

(** *** A cluster with one certificate *)

Definition cert_secret : Crd.Secret := Crd.mkSecret "cert" "shop" {[ "tls.crt" := "C"; "tls.key" := "K" ]}%string.

Definition https_listener (ref : option Crd.SecretReference) : Crd.Listener :=
  Crd.mkListener "https" 443 "HTTPS" (Some (Crd.mkTLSConfig ref None "" [])) ∅ None [] false None false None [] 0.

Definition example_gateway (ns name : string) (ls : list Crd.Listener) : Crd.ProxyGateway :=
  Crd.mkProxyGateway name ns "" "" ls [] None None None ∅ None None.

Definition example_client (gws : list Crd.ProxyGateway) : KubeClient :=
  mkKubeClient (Some gws) (Some []) (Some []) (Some []) (Some []) (Some []) (Some []) (Some []) (Some []) (Some [])
    (λ ref, if decide (ref = ("shop", "cert")%string) then Some cert_secret else None).

#[local] Instance no_tables : TextTables := {| ToLower := λ s, s; TrimSpace := λ s, s; ParseFloat := λ _, None |}.
#[local] Instance example_sort : SortSlice := insertion_SortSlice.

Lemma prefetch_fetches_enough_witness :
  ∃ bc, prefetch (example_client [example_gateway "shop" "edge" [https_listener (Some (Crd.mkSecretReference "cert" ""))]]) = Some bc ∧
    buildExtensions bc = buildExtensions (with_secrets {[ "shop/cert"%string := cert_secret ]} bc).
Proof.
  eexists. split; [reflexivity|].
  apply (prefetch_fetches_enough (example_client [example_gateway "shop" "edge" [https_listener (Some (Crd.mkSecretReference "cert" ""))]])
    _ {[ "shop/cert"%string := cert_secret ]} (λ V m, map_to_list m) multipliers None 0).
  - intros ns name s. simpl. case_decide as E; [|done]. injection E as -> ->. by intros [= <-].
  - intros ns. simpl. by rewrite decide_False.
  - intros ns name. simpl. case_decide as E; [injection E as -> ->; by vm_compute|].
    apply lookup_singleton_ne. intros Ek. apply E. clear E.
    do 4 (destruct ns as [|? ns]; [discriminate Ek|injection Ek as <- Ek]).
    destruct ns as [|? ns]; [injection Ek as Ek; rewrite str_app_nil in Ek; by subst|injection Ek as <- Ek].
    do 5 (destruct ns as [|? ns]; [discriminate Ek|try discriminate Ek; injection Ek as <- Ek]).
  - intros V m. unfold range_order. reflexivity.
  - reflexivity.
Defined.
