(* ===== verification/BuilderVersion.v ===== *)
(** * The version of a snapshot

    The version is a hash of the sorted snapshot; the server sends a snapshot
    when the version changes. The theorem of this file says when two builds of
    the same resources, listed in different orders, have the same version; the
    examples show what the conditions are for. *)

From S2P Require Import Prelude Sha256 GoStrings Float64 GoLib Convert BuilderTypes BuilderConvert SnapshotBuilder.
Open Scope Z_scope.
Open Scope go_scope.

(** ** Sorting by a name that identifies *)

Lemma str_lt_false s t : str_lt s t = false ↔ str_le t s.
Proof.
  unfold str_lt, str_le. rewrite bool_decide_eq_false, (String.compare_antisym s t).
  by destruct (String.compare t s).
Qed.

Lemma str_lt_true s t : str_lt s t = true → str_lt t s = false.
Proof.
  unfold str_lt. rewrite bool_decide_eq_true, bool_decide_eq_false, (String.compare_antisym s t).
  by destruct (String.compare t s).
Qed.

Lemma by_name_strict_weak {A} (name : A → string) (ok : A → Prop) : strict_weak ok (by_name name).
Proof.
  split.
  - intros x y _ _. apply str_lt_true.
  - unfold by_name. intros x y z _ _ _. rewrite !str_lt_false. intros Hxy Hyz. by etransitivity.
Qed.

Section canonical.
Context `{SortSlice}.

(** A sort by a comparison that separates the elements is canonical. *)
Lemma Slice_canonical {A} (less : A → A → bool) l1 l2 :
  strict_weak (λ _, True) less → (∀ x y, x ∈ l1 → y ∈ l1 → less x y = false → less y x = false → x = y) →
  l1 ≡ₚ l2 → Slice less l1 = Slice less l2.
Proof.
  intros [H1 H2] Hanti Hp.
  assert (∀ l : list A, strict_weak (λ x, x ∈ l) less) as Hsw by (intros l; split; eauto).
  apply (StronglySorted_unique_strong (λ x y, less y x = false)); [|by apply Slice_sorts..|].
  - intros x y Hx Hy Hyx Hxy. rewrite Slice_perm in Hx, Hy. rewrite <- Hp in Hy. by apply Hanti.
  - by rewrite !Slice_perm.
Qed.

Lemma Slice_by_name {A} (name : A → string) l1 l2 :
  NoDup (name <$> l1) → l1 ≡ₚ l2 → Slice (by_name name) l1 = Slice (by_name name) l2.
Proof.
  intros Hnd Hp. apply Slice_canonical; [apply by_name_strict_weak| |done].
  intros x y Hx Hy Hxy Hyx. unfold by_name in *. rewrite str_lt_false in Hxy, Hyx.
  assert (name x = name y) as E by (by apply (anti_symm str_le)). clear Hxy Hyx Hp.
  apply list_elem_of_lookup in Hx as [i Hi], Hy as [j Hj].
  assert (i = j) as ->; [|congruence]. apply (NoDup_lookup (name <$> l1) _ _ (name x)); [done|..]; rewrite list_lookup_fmap.
  - by rewrite Hi.
  - by rewrite Hj, E.
Qed.

(** Services are sorted by namespace and name. *)
Lemma service_less_false x y :
  service_less x y = false ↔
  (Pb.i_Namespace x = Pb.i_Namespace y ∧ str_le (Pb.i_Name y) (Pb.i_Name x)) ∨
  (Pb.i_Namespace x ≠ Pb.i_Namespace y ∧ str_le (Pb.i_Namespace y) (Pb.i_Namespace x)).
Proof. unfold service_less, str_eqb. case_bool_decide; simpl; rewrite str_lt_false; naive_solver. Qed.

Lemma service_less_strict_weak : strict_weak (λ _, True) service_less.
Proof.
  split.
  - intros x y _ _. unfold service_less, str_eqb. repeat case_bool_decide; simpl; try congruence; apply str_lt_true.
  - intros x y z _ _ _. rewrite !service_less_false. intros [[E1 H1]|[E1 H1]] [[E2 H2]|[E2 H2]].
    + left. split; [congruence|by etransitivity].
    + right. rewrite E1. done.
    + right. rewrite <- E2. done.
    + right. split; [|by etransitivity]. intros E3. apply E1. rewrite E3 in *. by apply (anti_symm str_le).
Qed.

Lemma Slice_services l1 l2 :
  NoDup ((λ s, (Pb.i_Namespace s, Pb.i_Name s)) <$> l1) → l1 ≡ₚ l2 → Slice service_less l1 = Slice service_less l2.
Proof.
  intros Hnd Hp. apply Slice_canonical; [apply service_less_strict_weak| |done].
  intros x y Hx Hy.
  assert (Pb.i_Namespace x = Pb.i_Namespace y → Pb.i_Name x = Pb.i_Name y → x = y) as Hid.
  { intros E1 E2. apply list_elem_of_lookup in Hx as [i Hi], Hy as [j Hj].
    assert (i = j) as ->; [|congruence].
    apply (NoDup_lookup ((λ s, (Pb.i_Namespace s, Pb.i_Name s)) <$> l1) _ _ (Pb.i_Namespace x, Pb.i_Name x)); [done|..];
      rewrite list_lookup_fmap; [by rewrite Hi|by rewrite Hj; simpl; rewrite E1, E2]. }
  rewrite !service_less_false. intros [[E1 H1]|[E1 H1]] [[E2 H2]|[E2 H2]]; try congruence.
  - apply Hid; [done|]. by apply (anti_symm str_le).
  - exfalso. apply E1. by apply (anti_symm str_le).
Qed.

End canonical.

(** ** Parts that do not depend on the order of the lists *)

(** The order in which the certificates are loaded does not matter. *)
Lemma loadSNI_perm bc ns l1 l2 acc : l1 ≡ₚ l2 → NoDup l1.*1 → loadSNI bc ns l1 acc = loadSNI bc ns l2 acc.
Proof.
  intros Hp. revert acc. induction Hp as [|[h t] l1 l2 Hp IH|[h1 t1] [h2 t2] l|l1 l2 l3 Hp1 IH1 Hp2 IH2]; intros acc Hnd; simpl.
  - done.
  - apply NoDup_cons in Hnd as [_ Hnd]. destruct (loadTLSConfig bc ns t); simpl; [by apply IH|done].
  - apply NoDup_cons in Hnd as [Hne _]. simpl in Hne. rewrite elem_of_cons in Hne.
    destruct (loadTLSConfig bc ns t1) as [r1|], (loadTLSConfig bc ns t2) as [r2|]; simpl; try done.
    f_equal. destruct r1, r2; try done. apply insert_insert_ne. naive_solver.
  - rewrite IH1 by done. apply IH2. by rewrite <- Hp1.
Qed.

Lemma build_all_perm {A B} (f : A → outcome B) l1 l2 r1 :
  l1 ≡ₚ l2 → build_all f l1 = Returns r1 → ∃ r2, build_all f l2 = Returns r2 ∧ r1 ≡ₚ r2.
Proof.
  intros Hp. revert r1. induction Hp as [|x l1 l2 Hp IH|x y l|l1 l2 l3 Hp1 IH1 Hp2 IH2]; intros r1 E; simpl in *.
  - injection E as <-. by exists [].
  - destruct (f x) as [b|]; [|done]. simpl in *. destruct (build_all f l1) as [bs|]; [|done]. simpl in E. injection E as <-.
    destruct (IH bs eq_refl) as (r2 & -> & Hr). exists (b :: r2). by rewrite Hr.
  - destruct (f y) as [b|], (f x) as [c|]; simpl in *; try done. destruct (build_all f l) as [bs|]; [|done]. simpl in *.
    injection E as <-. exists (c :: b :: bs). split; [done|apply perm_swap].
  - destruct (IH1 r1 E) as (r2 & E2 & Hr2). destruct (IH2 r2 E2) as (r3 & E3 & Hr3). exists r3. split; [done|by etransitivity].
Qed.

Lemma build_all_fields {A B C} (f : A → outcome B) (g : A → C) (h : B → C) l r :
  (∀ x y, f x = Returns y → h y = g x) → build_all f l = Returns r → h <$> r = g <$> l.
Proof.
  intros Hf. revert r. induction l as [|x l IH]; intros r E; simpl in *; [by injection E as <-|].
  destruct (f x) as [y|] eqn:Ex; [|done]. simpl in E. destruct (build_all f l) as [ys|]; [|done]. simpl in E. injection E as <-.
  by rewrite !fmap_cons, (Hf x y Ex), (IH ys eq_refl).
Qed.

(** What a built listener keeps of its resource. *)
Lemma buildListener_fields visit bc ns l y :
  buildListener visit bc ns l = Returns (Some y) →
  Pb.l_Name y = Crd.l_Name l ∧ Pb.l_Port y = Crd.l_Port l ∧ Pb.l_Protocol y = convertProtocol (Crd.l_Protocol l).
Proof.
  unfold buildListener. destruct (Crd.l_TLS l) as [t|].
  - destruct (loadTLSConfig bc ns t) as [[c|]|]; simpl; try done. destruct (loadSNI bc ns _ ∅); simpl; [|done]. by intros [= <-].
  - destruct (loadSNI bc ns _ ∅); simpl; [|done]. by intros [= <-].
Qed.

(** A loop that stores values under distinct keys. *)
Lemma foldl_insert_lookup {A V} (key : A → string) (f : A → option V) l (m : gmap string V) k :
  NoDup (key <$> l) →
  foldl (λ m a, match f a with Some v => <[key a := v]> m | None => m end) m l !! k =
  match head (filter (λ a, key a = k) l) with
  | Some a => match f a with Some v => Some v | None => m !! k end
  | None => m !! k
  end.
Proof.
  revert m. induction l as [|a l IH]; intros m Hnd; simpl; [done|]. apply NoDup_cons in Hnd as [Hk Hnd].
  rewrite IH by done. rewrite filter_cons. case_decide as E.
  - assert (filter (λ a, key a = k) l = []) as ->.
    { apply elem_of_nil_inv. intros b [Eb Hb]%list_elem_of_filter. apply Hk. rewrite E, <- Eb. by apply list_elem_of_fmap_2. }
    simpl. destruct (f a); [|done]. by rewrite E, lookup_insert_eq.
  - destruct (head (filter (λ a, key a = k) l)) as [b|]; [destruct (f b); [done|]|];
      (destruct (f a); [by rewrite lookup_insert_ne|done]).
Qed.

(** With distinct keys the element of a key is the same in every order. *)
Lemma filter_key_perm {A} (key : A → string) l1 l2 k :
  l1 ≡ₚ l2 → NoDup (key <$> l1) → filter (λ a, key a = k) l1 = filter (λ a, key a = k) l2.
Proof.
  intros Hp Hnd. assert (filter (λ a, key a = k) l1 ≡ₚ filter (λ a, key a = k) l2) as Hf by (by rewrite Hp).
  assert (∀ l, NoDup (key <$> l) → (length (filter (λ a, key a = k) l) ≤ 1)%nat) as Hlen.
  { clear. induction l as [|a l IH]; intros Hnd; [simpl; lia|]. apply NoDup_cons in Hnd as [Hk Hnd]. rewrite filter_cons.
    case_decide as E; [|by apply IH]. simpl. assert (filter (λ a, key a = k) l = []) as ->; [|simpl; lia].
    apply elem_of_nil_inv. intros b [Eb Hb]%list_elem_of_filter. apply Hk. rewrite E, <- Eb. by apply list_elem_of_fmap_2. }
  pose proof (Hlen l1 Hnd) as H1. destruct (filter _ l1) as [|x [|y t]] eqn:E; simpl in H1; [|..|lia].
  - symmetry in Hf. by apply Permutation_nil_r in Hf.
  - by apply Permutation_singleton_l in Hf.
Qed.

Lemma fmap_perm_ext {A B} (f g : A → B) l1 l2 : l1 ≡ₚ l2 → (∀ x, x ∈ l1 → f x = g x) → f <$> l1 ≡ₚ g <$> l2.
Proof.
  intros Hp Hfg. rewrite <- Hp. assert (f <$> l1 = g <$> l1) as ->; [|done].
  apply list_fmap_ext. intros i x Hx. apply Hfg. by eapply list_elem_of_lookup_2.
Qed.

Lemma NoDup_fmap_filter {A B} (f : A → B) (P : A → Prop) `{∀ x, Decision (P x)} (l : list A) :
  NoDup (f <$> l) → NoDup (f <$> filter P l).
Proof.
  induction l as [|x l IH]; intros Hnd; [done|]. apply NoDup_cons in Hnd as [Hx Hnd]. rewrite filter_cons.
  case_decide; [|by apply IH]. rewrite fmap_cons. apply NoDup_cons. split; [|by apply IH].
  intros (y & E & [_ Hy]%list_elem_of_filter)%list_elem_of_fmap. apply Hx. rewrite E. by apply list_elem_of_fmap_2.
Qed.

Lemma NoDup_omap_names {A B} (f : A → option B) (name : A → string) (name' : B → string) (l : list A) :
  (∀ x y, f x = Some y → name' y = name x) → NoDup (name <$> l) → NoDup (name' <$> omap f l).
Proof.
  intros Hf. induction l as [|x l IH]; intros Hnd; simpl; [constructor|]. apply NoDup_cons in Hnd as [Hx Hnd].
  destruct (f x) as [y|] eqn:E; [|by apply IH]. rewrite fmap_cons. apply NoDup_cons. split; [|by apply IH].
  rewrite (Hf x y E). intros (z & Ez & Hz)%list_elem_of_fmap. apply list_elem_of_omap in Hz as (w & Hw & Ew).
  apply Hx. rewrite Ez, (Hf w z Ew). by apply list_elem_of_fmap_2.
Qed.

(** ** Two builds of the same resources *)

Definition l4_protocol (p : string) : bool := str_eqb p "TCP" || str_eqb p "TLS" || str_eqb p "UDP".

Definition backend_key (b : Crd.ProxyBackend) : string := ns_key (Crd.k_Namespace b) (Crd.k_Name b).

(** The same objects, listed in different orders; the slices of a service that
    is in the mesh come in the same order. *)
Record same_resources (b1 b2 : buildContext) : Prop := {
  same_gateways : bc_gateways b1 ≡ₚ bc_gateways b2;
  same_routes : bc_routes b1 ≡ₚ bc_routes b2;
  same_backends : bc_backends b1 ≡ₚ bc_backends b2;
  same_policies : bc_policies b1 ≡ₚ bc_policies b2;
  same_services : bc_services b1 ≡ₚ bc_services b2;
  same_wanLinks : bc_wanLinks b1 ≡ₚ bc_wanLinks b2;
  same_wanPolicies : bc_wanPolicies b1 ≡ₚ bc_wanPolicies b2;
  same_nodes : bc_nodes b1 = bc_nodes b2;
  same_serviceMap : bc_serviceMap b1 = bc_serviceMap b2;
  same_secrets : bc_secrets b1 = bc_secrets b2;
  same_configMaps : bc_configMaps b1 = bc_configMaps b2;
  same_slices ns n : getEndpointSlices b1 ns n ≡ₚ getEndpointSlices b2 ns n;
  same_mesh_slices svc : svc ∈ bc_services b1 → in_mesh svc = true →
    getEndpointSlices b1 (Crd.sv_Namespace svc) (Crd.sv_Name svc) = getEndpointSlices b2 (Crd.sv_Namespace svc) (Crd.sv_Name svc)
}.

(** Names identify the resources of a kind, also across namespaces, addresses
    the endpoints of a backend; there are no L4 listeners and no rule files. *)
Record sortable (fp : option FederationStateProvider) (b : buildContext) : Prop := {
  sort_gateways : NoDup (Crd.g_Name <$> bc_gateways b);
  sort_routes : NoDup (Crd.ro_Name <$> bc_routes b);
  sort_backends : NoDup (Crd.k_Name <$> bc_backends b);
  sort_keys : NoDup (backend_key <$> bc_backends b);
  sort_policies : NoDup (Crd.p_Name <$> bc_policies b);
  sort_services : NoDup ((λ s, (Crd.sv_Namespace s, Crd.sv_Name s)) <$> bc_services b);
  sort_wanLinks : NoDup (Crd.w_Name <$> bc_wanLinks b);
  sort_wanPolicies : NoDup (Crd.wo_Name <$> bc_wanPolicies b);
  sort_endpoints k eps : k ∈ bc_backends b → backend_endpoints fp b k = Some eps → NoDup (Pb.e_Address <$> eps);
  sort_l4 gw l : gw ∈ bc_gateways b → l ∈ Crd.g_Listeners gw → l4_protocol (Crd.l_Protocol l) = false;
  sort_waf p w : p ∈ bc_policies b → Crd.p_WAF p = Some w → Crd.wf_RulesConfigMap w = None
}.

Section builds.
Context `{TextTables} `{SortSlice}.
Context (visit1 visit2 : visiting) (units : list (string * Z)) (fp : option FederationStateProvider).
Context (visit1_order : ∀ V m, range_order m (visit1 V m)) (visit2_order : ∀ V m, range_order m (visit2 V m)).
Context (b1 b2 : buildContext) (Hsame : same_resources b1 b2).

Lemma loadTLSConfig_secrets ns t : loadTLSConfig b1 ns t = loadTLSConfig b2 ns t.
Proof. unfold loadTLSConfig, getSecret. by rewrite (same_secrets _ _ Hsame). Qed.

Lemma loadSNI_secrets ns l acc : loadSNI b1 ns l acc = loadSNI b2 ns l acc.
Proof.
  revert acc. induction l as [|[h t] l IH]; intros acc; simpl; [done|]. rewrite loadTLSConfig_secrets.
  destruct (loadTLSConfig b2 ns t); simpl; [apply IH|done].
Qed.

Lemma buildListener_order ns l : buildListener visit1 b1 ns l = buildListener visit2 b2 ns l.
Proof.
  assert (∀ acc, loadSNI b1 ns (visit1 _ (Crd.l_TLSCertificates l)) acc = loadSNI b2 ns (visit2 _ (Crd.l_TLSCertificates l)) acc) as Hs.
  { intros acc. rewrite loadSNI_secrets. apply loadSNI_perm.
    - by rewrite (visit1_order _ _), (visit2_order _ _).
    - rewrite (visit1_order _ _). apply NoDup_fst_map_to_list. }
  unfold buildListener. rewrite Hs. destruct (Crd.l_TLS l); [|done]. rewrite loadTLSConfig_secrets.
  done.
Qed.

Lemma buildGateway_order gw : buildGateway visit1 units b1 gw = buildGateway visit2 units b2 gw.
Proof.
  unfold buildGateway. assert (∀ ls, buildListeners visit1 b1 (Crd.g_Namespace gw) ls = buildListeners visit2 b2 (Crd.g_Namespace gw) ls) as Hl.
  { induction ls as [|l ls IH]; simpl; [done|]. by rewrite buildListener_order, IH. }
  by rewrite Hl.
Qed.

Lemma buildCluster_order b : buildCluster b1 b = buildCluster b2 b.
Proof.
  unfold buildCluster, convertBackendTLS, getSecret. by rewrite (same_secrets _ _ Hsame).
Qed.

Lemma buildPolicy_order p :
  (∀ w, Crd.p_WAF p = Some w → Crd.wf_RulesConfigMap w = None) → buildPolicy visit1 b1 p = buildPolicy visit2 b2 p.
Proof.
  intros Hw. unfold buildPolicy, buildWASM, loadWASMBinary, buildBasicAuthConfig, buildOIDCConfig, loadSecretValue, getSecret, getConfigMap.
  rewrite (same_secrets _ _ Hsame), (same_configMaps _ _ Hsame). f_equal.
  destruct (Crd.p_WAF p) as [w|]; [|done]. simpl. f_equal. unfold convertWAFConfig. by rewrite (Hw w eq_refl).
Qed.

Lemma resolveService_order ref ns :
  resolveServiceEndpoints b1 ref ns = None ∧ resolveServiceEndpoints b2 ref ns = None ∨
  ∃ e1 e2, resolveServiceEndpoints b1 ref ns = Some e1 ∧ resolveServiceEndpoints b2 ref ns = Some e2 ∧ e1 ≡ₚ e2.
Proof.
  unfold resolveServiceEndpoints, getService. rewrite (same_serviceMap _ _ Hsame), (same_nodes _ _ Hsame).
  destruct (bc_serviceMap b2 !! _) as [svc|]; simpl; [|by left]. right. destruct (target_port svc (Crd.s_Port ref)) as [pn pp].
  eexists _, _. split; [done|]. split; [done|]. by rewrite (same_slices _ _ Hsame).
Qed.

Lemma backend_endpoints_order b :
  backend_endpoints fp b1 b = None ∧ backend_endpoints fp b2 b = None ∨
  ∃ e1 e2, backend_endpoints fp b1 b = Some e1 ∧ backend_endpoints fp b2 b = Some e2 ∧ e1 ≡ₚ e2.
Proof.
  unfold backend_endpoints. destruct (Crd.k_ServiceRef b) as [ref|]; simpl; [|by left].
  destruct (resolveService_order ref (Crd.k_Namespace b)) as [[-> ->]|(e1 & e2 & -> & -> & Hp)]; simpl; [by left|right].
  eexists _, _. split; [done|]. split; [done|]. by rewrite Hp.
Qed.

Lemma endpoints_order k :
  sortable fp b1 →
  Slice (by_name Pb.e_Address) <$> (buildClusters fp b1).2 !! k = Slice (by_name Pb.e_Address) <$> (buildClusters fp b2).2 !! k.
Proof.
  intros Hsort. simpl.
  pose proof (same_backends _ _ Hsame) as Hp. pose proof (sort_keys _ _ Hsort) as Hnd.
  rewrite (foldl_insert_lookup backend_key (backend_endpoints fp b1)) by done.
  rewrite (foldl_insert_lookup backend_key (backend_endpoints fp b2)) by (by rewrite <- Hp).
  rewrite <- (filter_key_perm backend_key _ _ k Hp Hnd).
  destruct (head (filter (λ a, backend_key a = k) (bc_backends b1))) as [b|] eqn:E; [|done].
  assert (b ∈ bc_backends b1) as Hb.
  { apply head_Some_elem_of in E. by apply list_elem_of_filter in E as [_ E]. }
  destruct (backend_endpoints_order b) as [[-> ->]|(e1 & e2 & E1 & E2 & Hep)]; [done|]. rewrite E1, E2. simpl. f_equal.
  apply Slice_by_name; [|done]. by apply (sort_endpoints _ _ Hsort b).
Qed.

Lemma internal_order : sortable fp b1 → buildInternalServices b1 = buildInternalServices b2.
Proof.
  intros Hsort. unfold buildInternalServices. pose proof (same_services _ _ Hsame) as Hp.
  apply Slice_services.
  - assert ((λ s, (Pb.i_Namespace s, Pb.i_Name s)) <$> (buildInternalService b1 <$> filter (λ svc, in_mesh svc = true) (bc_services b1)) =
      (λ s, (Crd.sv_Namespace s, Crd.sv_Name s)) <$> filter (λ svc, in_mesh svc = true) (bc_services b1)) as ->.
    { rewrite <- list_fmap_compose. by apply list_fmap_ext. }
    apply NoDup_fmap_filter, (sort_services _ _ Hsort).
  - apply fmap_perm_ext; [by rewrite Hp|]. intros svc [Hm Hs]%list_elem_of_filter. unfold buildInternalService. f_equal.
    unfold resolveInternalServiceEndpoints. by rewrite (same_mesh_slices _ _ Hsame svc).
Qed.

Lemma no_l4 visit b gws eps :
  (∀ gw l, gw ∈ bc_gateways b → l ∈ Crd.g_Listeners gw → l4_protocol (Crd.l_Protocol l) = false) →
  buildGateways visit units b = Returns gws → buildL4Listeners gws eps b = [].
Proof.
  intros Hno E. assert (Forall (λ g, Forall (λ l, Pb.l_Protocol l < 4) (Pb.g_Listeners g)) gws) as Hall.
  { unfold buildGateways in E. revert gws E Hno. induction (bc_gateways b) as [|gw l IH]; intros gws E Hno; simpl in E; [by injection E as <-|].
    destruct (buildGateway visit units b gw) as [g|] eqn:Eg; [|done]. simpl in E.
    destruct (build_all (buildGateway visit units b) l) as [gs|]; [|done]. simpl in E. injection E as <-.
    constructor; [|apply (IH gs eq_refl); intros; eapply Hno; [by right|done]].
    unfold buildGateway in Eg. destruct (buildListeners visit b (Crd.g_Namespace gw) (Crd.g_Listeners gw)) as [ls|] eqn:El; [|done].
    simpl in Eg. injection Eg as <-. simpl. assert (∀ l, l ∈ Crd.g_Listeners gw → l4_protocol (Crd.l_Protocol l) = false) as Hl
      by (intros l0 Hl0; eapply Hno; [by left|done]).
    clear -El Hl. revert ls El. induction (Crd.g_Listeners gw) as [|x lst IHl]; intros ls El; simpl in El; [by injection El as <-|].
    destruct (buildListener visit b (Crd.g_Namespace gw) x) as [o|] eqn:Eo; [|done]. simpl in El.
    destruct (buildListeners visit b (Crd.g_Namespace gw) lst) as [rest|]; [|done]. simpl in El. injection El as <-.
    apply Forall_app. split; [|apply (IHl (λ l Hl', Hl l (list_elem_of_further _ _ _ Hl')) rest eq_refl)].
    destruct o as [y|]; simpl; [|constructor]. constructor; [|constructor].
    assert (Pb.l_Protocol y = convertProtocol (Crd.l_Protocol x)) as ->.
    { by apply buildListener_fields in Eo as (_ & _ & ?). }
    specialize (Hl x (list_elem_of_here _ _)). unfold l4_protocol in Hl. bool_prop. unfold convertProtocol, str_eqb in *.
    repeat case_bool_decide; subst; try done; lia. }
  unfold buildL4Listeners. clear E. induction Hall as [|g gs Hg _ IH]; [done|]. rewrite bind_cons, IH, app_nil_r.
  induction Hg as [|l ls Hl _ IHl]; [done|]. rewrite bind_cons, IHl, app_nil_r. unfold buildL4Listener.
  destruct (Pb.l_Protocol l) as [|[[p|p|]|[p|[]|]|]|]; try done; lia.
Qed.

Lemma sorted_parts_order now1 now2 p1 p2 :
  sortable fp b1 → buildParts visit1 units fp now1 b1 = Returns p1 → buildParts visit2 units fp now2 b2 = Returns p2 →
  set_version "" 0 (sortSnapshot p1) = set_version "" 0 (sortSnapshot p2).
Proof.
  intros Hsort E1 E2. unfold buildParts in E1, E2.
  destruct (buildGateways visit1 units b1) as [g1|] eqn:G1; [|done]. destruct (buildGateways visit2 units b2) as [g2|] eqn:G2; [|done].
  simpl in E1, E2. injection E1 as <-. injection E2 as <-. unfold set_version, sortSnapshot.
  cbn [Pb.Gateways Pb.Routes Pb.Clusters Pb.Endpoints Pb.Policies Pb.L4Listeners Pb.InternalServices Pb.MeshAuthzPolicies
       Pb.WanLinks Pb.WanPolicies Pb.Federation Pb.Version Pb.GenerationTime].
  assert (g1 ≡ₚ g2 ∧ NoDup (Pb.g_Name <$> g1)) as [Hg Hgn].
  { unfold buildGateways in *. destruct (build_all_perm _ _ _ _ (same_gateways _ _ Hsame) G1) as (r2 & E & Hr).
    assert (∀ l, build_all (buildGateway visit1 units b1) l = build_all (buildGateway visit2 units b2) l) as Eb.
    { induction l as [|g l IH]; simpl; [done|]. by rewrite buildGateway_order, IH. }
    rewrite Eb, G2 in E. injection E as <-. split; [done|].
    assert (Pb.g_Name <$> g1 = Crd.g_Name <$> bc_gateways b1) as ->; [|apply (sort_gateways _ _ Hsort)].
    apply (build_all_fields (buildGateway visit1 units b1)); [|done].
    intros x y Exy. unfold buildGateway in Exy. destruct (buildListeners visit1 b1 _ _); [|done]. simpl in Exy. by injection Exy as <-. }
  f_equal.
  - by apply Slice_by_name.
  - apply Slice_by_name.
    + unfold buildRoutes. rewrite <- list_fmap_compose. apply (sort_routes _ _ Hsort).
    + apply fmap_perm_ext; [apply (same_routes _ _ Hsame)|done].
  - apply Slice_by_name.
    + rewrite <- list_fmap_compose. apply (sort_backends _ _ Hsort).
    + apply fmap_perm_ext; [apply (same_backends _ _ Hsame)|]. intros; apply buildCluster_order.
  - apply map_eq. intros k. rewrite !lookup_fmap. by apply endpoints_order.
  - apply Slice_by_name.
    + unfold buildPolicies. rewrite <- list_fmap_compose. apply (sort_policies _ _ Hsort).
    + apply fmap_perm_ext; [apply (same_policies _ _ Hsame)|]. intros p Hp. apply buildPolicy_order. intros w. by apply (sort_waf _ _ Hsort).
  - rewrite (no_l4 visit1 b1 g1), (no_l4 visit2 b2 g2); try done; [|apply (sort_l4 _ _ Hsort)].
    intros gw l Hgw. rewrite <- (same_gateways _ _ Hsame) in Hgw. by apply (sort_l4 _ _ Hsort).
  - by apply internal_order.
  - apply Slice_by_name.
    + apply (NoDup_omap_names _ Crd.p_Name); [|apply (sort_policies _ _ Hsort)].
      intros p y. case_match; [|done]. destruct (Crd.p_MeshAuthorization p); [|done]. by intros [= <-].
    + unfold buildMeshAuthorizationPolicies. by rewrite (same_policies _ _ Hsame).
  - apply Slice_by_name.
    + unfold buildWANLinks. rewrite <- list_fmap_compose. apply (sort_wanLinks _ _ Hsort).
    + apply fmap_perm_ext; [apply (same_wanLinks _ _ Hsame)|done].
  - apply Slice_by_name.
    + unfold buildWANPolicies. rewrite <- list_fmap_compose. apply (sort_wanPolicies _ _ Hsort).
    + apply fmap_perm_ext; [apply (same_wanPolicies _ _ Hsame)|done].
Qed.

(** C40: the version does not depend on the order of lists and maps. Two builds that
    return, of the same resources with the same federation state, listed in
    different orders, with maps visited in different orders and at different
    times, have the same version, whatever [sort.Slice] does with equal elements,
    when the encoding of a snapshot does not fail and: gateways, routes, backends,
    policies, WAN links and WAN policies each have different names even across
    namespaces, and Services different names within one; the endpoints of a
    backend have different addresses; no gateway has a TCP, TLS or UDP listener
    and no policy takes WAF rules from a ConfigMap; and the endpoint slices of
    every Service in the mesh come in the same order. *)
Theorem version_is_canonical marshal now1 now2 p1 p2 :
  sortable fp b1 → buildParts visit1 units fp now1 b1 = Returns p1 → buildParts visit2 units fp now2 b2 = Returns p2 →
  (∀ s, marshal s ≠ None) →
  generateVersion marshal now1 (sortSnapshot p1) = generateVersion marshal now2 (sortSnapshot p2).
Proof.
  intros Hsort E1 E2 Hm. unfold generateVersion. rewrite (sorted_parts_order now1 now2 p1 p2 Hsort E1 E2).
  destruct (marshal (set_version "" 0 (sortSnapshot p2))) eqn:E; [done|]. by destruct (Hm _ E).
Qed.

End builds.

(** ** What the conditions are for *)

#[local] Instance no_texts : TextTables := {| ToLower := λ s, s; TrimSpace := λ s, s; ParseFloat := λ _, None |}.
#[local] Instance some_sort : SortSlice := insertion_SortSlice.

Definition http_gateway (ns name : string) (protocol : string) (port : Z) : Crd.ProxyGateway :=
  Crd.mkProxyGateway name ns "" "" [Crd.mkListener "l" port protocol None ∅ None [] false None false None [] 0] [] None None None ∅ None None.

Definition context (gws : list Crd.ProxyGateway) (routes : list Crd.ProxyRoute) (backends : list Crd.ProxyBackend)
    (policies : list Crd.ProxyPolicy) (services : gmap string Crd.Service) (maps : gmap string Crd.ConfigMap)
    (slices : gmap string (list Crd.EndpointSlice)) : buildContext :=
  mkBuildContext gws routes backends policies [] [] [] ∅ services ∅ maps slices.

Definition parts (visit : visiting) (bc : buildContext) : outcome Pb.ConfigSnapshot :=
  outcome_bind (buildParts visit multipliers None 0 bc) (λ p, Returns (set_version "" 0 (sortSnapshot p))).

Definition in_order : visiting := λ V m, map_to_list m.
Definition in_reverse : visiting := λ V m, reverse (map_to_list m).

Lemma version_is_canonical_witness :
  let b1 := context [http_gateway "a" "g1" "HTTP" 80; http_gateway "b" "g2" "HTTP" 81] [] [] [] ∅ ∅ ∅ in
  let b2 := context [http_gateway "b" "g2" "HTTP" 81; http_gateway "a" "g1" "HTTP" 80] [] [] [] ∅ ∅ ∅ in
  ∃ p1 p2, buildParts in_order multipliers None 1 b1 = Returns p1 ∧ buildParts in_reverse multipliers None 2 b2 = Returns p2 ∧
    generateVersion (λ _, Some [1]) 1 (sortSnapshot p1) = generateVersion (λ _, Some [1]) 2 (sortSnapshot p2).
Proof.
  intros b1 b2. destruct (buildParts in_order multipliers None 1 b1) as [p1|] eqn:E1; [|by vm_compute in E1].
  destruct (buildParts in_reverse multipliers None 2 b2) as [p2|] eqn:E2; [|by vm_compute in E2].
  exists p1, p2. split; [done|]. split; [done|].
  apply (version_is_canonical in_order in_reverse multipliers None (λ V m, reflexivity _)
    (λ V m, reverse_Permutation _) b1 b2) ; [|..|exact E1|exact E2|done].
  - split; try reflexivity. apply perm_swap.
  - split; simpl; try (by constructor); try (intros; set_solver).
    + apply (bool_decide_unpack _). vm_compute. exact I.
    + intros gw l. rewrite !elem_of_cons. intros [->|[->|[]%not_elem_of_nil]]; simpl; rewrite elem_of_cons; intros [->|[]%not_elem_of_nil]; reflexivity.
Defined.

(** Gateways with the same name in two namespaces: the sorted list, and with it
    the version, depends on the order in which they are listed. *)
Example same_name_reorders :
  (Pb.Gateways <$> (match parts in_order (context [http_gateway "a" "web" "HTTP" 80; http_gateway "b" "web" "HTTP" 80] [] [] [] ∅ ∅ ∅) with Returns p => Some p | Panics => None end)) ≠
  (Pb.Gateways <$> (match parts in_order (context [http_gateway "b" "web" "HTTP" 80; http_gateway "a" "web" "HTTP" 80] [] [] [] ∅ ∅ ∅) with Returns p => Some p | Panics => None end)).
Proof. vm_compute. discriminate. Qed.

(** A TCP listener gets the first backend of any route of its namespace: with
    two routes, the order of the list decides where the traffic goes. *)
Definition tcp_route (name backend : string) : Crd.ProxyRoute :=
  Crd.mkProxyRoute name "shop" [] [Crd.mkHTTPRouteRule [] [] [Crd.mkBackendRef backend None None] None None None None None None] None None "" ∅.

Definition tcp_backend (name : string) : Crd.ProxyBackend :=
  Crd.mkProxyBackend name "shop" (Some (Crd.mkServiceReference name None 80)) "" 0 0 None None None None None None "" None None None ∅.

Definition tcp_services : gmap string Crd.Service :=
  {[ "shop/db"%string := Crd.mkService "db" "shop" ∅ "10.0.0.1" [];
     "shop/mail"%string := Crd.mkService "mail" "shop" ∅ "10.0.0.2" [] ]}.

Definition l4_backends (bc : buildContext) : option (list string) :=
  match parts in_order bc with Returns p => Some (Pb.l4_BackendName <$> Pb.L4Listeners p) | Panics => None end.

Example listener_backend_is_the_first_route :
  let bc routes := context [http_gateway "shop" "edge" "TCP" 5432] routes [tcp_backend "db"; tcp_backend "mail"] [] tcp_services ∅ ∅ in
  (l4_backends (bc [tcp_route "r1" "db"; tcp_route "r2" "mail"]), l4_backends (bc [tcp_route "r2" "mail"; tcp_route "r1" "db"])) =
  (Some ["db"], Some ["mail"])%string.
Proof. by vm_compute. Qed.

(** Rules from a ConfigMap with two keys come in the order of a range loop. *)
Definition waf_policy : Crd.ProxyPolicy :=
  Crd.mkProxyPolicy "waf" "shop" "WAF" (Crd.mkTargetRef "ProxyRoute" "r" None) None None None None None None
    (Some (Crd.mkWAFConfig true "prevention" 1 5 (Some "rules"%string) [] [] 0 false 0)) None None None None None.

Definition waf_rules (visit : visiting) : option (list string) :=
  match parts visit (context [] [] [] [waf_policy] ∅ {[ "shop/rules"%string := Crd.mkConfigMap "rules" "shop" {[ "a" := "SecRule A"; "b" := "SecRule B" ]}%string ∅ ]} ∅) with
  | Returns p => Some (concat (omap (λ q, Pb.wf_CustomRules <$> Pb.p_Waf q) (Pb.Policies p)))
  | Panics => None
  end.

Example waf_rules_follow_the_map : waf_rules in_order ≠ waf_rules in_reverse.
Proof. vm_compute. discriminate. Qed.

(** A listener with a certificate that is not in a secret (ACME, self-signed or
    from Vault) has no secret reference, and the build panics. *)
Example acme_listener_panics :
  buildGateways in_order multipliers
    (context [Crd.mkProxyGateway "edge" "shop" "" "" [Crd.mkListener "https" 443 "HTTPS" (Some (Crd.mkTLSConfig None None "" [])) ∅ None [] false None false None [] 0] [] None None None ∅ None None]
      [] [] [] ∅ ∅ ∅) = Panics.
Proof. reflexivity. Qed.

(** Query parameters of a match are dropped: the route matches requests
    without them. *)
Lemma query_params_are_dropped p hs q m : convertMatches [Crd.mkHTTPRouteMatch p hs q m] = convertMatches [Crd.mkHTTPRouteMatch p hs [] m].
Proof. done. Qed.

(** A port name does not take precedence over a port number that comes first. *)
Example port_number_wins :
  matchEndpointSlicePort [Crd.mkEndpointPort (Some "metrics"%string) (Some 8080); Crd.mkEndpointPort (Some "web"%string) (Some 9090)] "web" 8080 80 = 8080.
Proof. reflexivity. Qed.
