(* ===== verification/IngressTranslate.v ===== *)
(** * Translation of Ingress resources

    [src/internal/controller/ingress_translator.go]: an Ingress becomes a
    gateway with its listeners, a route per rule and a backend per path, with
    the settings of its annotations. Owner references are not modelled. The
    resolver of named ports, the JSON decoders of two annotations and the
    Unicode tables are arguments; range loops over maps take their order from
    [visit]. *)

From S2P Require Import Prelude GoStrings Float64 GoLib Convert BuilderTypes.
Open Scope Z_scope.

(** ** Ingress resources *)

Record IngressServiceBackend := mkIngressServiceBackend { is_Name : string; is_PortName : string; is_PortNumber : Z }.
Record IngressBackend := mkIngressBackend { ib_Service : option IngressServiceBackend }.
Record HTTPIngressPath := mkHTTPIngressPath { ip_Path : string; ip_PathType : option string; ip_Backend : IngressBackend }.
Record IngressRule := mkIngressRule { ir_Host : string; ir_HTTP : option (list HTTPIngressPath) }.
Record IngressTLS := mkIngressTLS { it_Hosts : list string; it_SecretName : string }.
Record Ingress := mkIngress {
  in_Name : string; in_Namespace : string; in_Labels : gmap string string; in_Annotations : gmap string string;
  in_Deleted : bool; in_Finalizers : list string; in_IngressClassName : option string;
  in_DefaultBackend : option IngressBackend; in_TLS : list IngressTLS; in_Rules : list IngressRule }.

Record TranslationResult := mkTranslationResult {
  tr_Gateway : Crd.ProxyGateway; tr_Routes : list Crd.ProxyRoute; tr_Backends : list Crd.ProxyBackend }.

(** An annotation: [get] is the index expression, which gives the empty string
    when the key is absent; [lookup] is the form with a second result. *)
Definition annotation (ing : Ingress) (key : string) : option string := in_Annotations ing !! ("novaedge.io/" +:+ key).
Definition annotation_get (ing : Ingress) (key : string) : string := default ""%string (annotation ing key).

(** [strconv.ParseInt(s, 10, 32)] *)
Definition ParseInt32 (s : string) : option Z :=
  z ← ParseInt s; if decide (min_int32 ≤ z ≤ max_int32) then Some z else None.

Fixpoint ContainsAny (s : string) (chars : list ascii) : bool :=
  match s with EmptyString => false | String c s => bool_decide (c ∈ chars) || ContainsAny s chars end.

Definition regex_chars : list ascii := String.list_ascii_of_string "^$.*+?[](){}|\".

(** ** Names *)

Definition generateGatewayName (ing : Ingress) : string := in_Name ing +:+ "-gateway".
Definition generateRouteName (ing : Ingress) (ruleIdx : nat) : string := in_Name ing +:+ "-route-" +:+ format_d (Z.of_nat ruleIdx).
Definition generateBackendName (ing : Ingress) (ruleIdx pathIdx : nat) : string :=
  in_Name ing +:+ "-backend-" +:+ format_d (Z.of_nat ruleIdx) +:+ "-" +:+ format_d (Z.of_nat pathIdx).
Definition generateDefaultBackendName (ing : Ingress) : string := in_Name ing +:+ "-backend-default".

(** ** Setters of backends *)

Definition ProxyBackend_eta (b : Crd.ProxyBackend) : Crd.ProxyBackend :=
  Crd.mkProxyBackend (Crd.k_Name b) (Crd.k_Namespace b) (Crd.k_ServiceRef b) (Crd.k_LBPolicy b) (Crd.k_ConnectTimeout b)
    (Crd.k_IdleTimeout b) (Crd.k_CircuitBreaker b) (Crd.k_HealthCheck b) (Crd.k_TLS b) (Crd.k_ConnectionPool b)
    (Crd.k_SessionAffinity b) (Crd.k_UpstreamProxyProtocol b) (Crd.k_Protocol b) (Crd.k_SlowStart b) (Crd.k_OutlierDetection b)
    (Crd.k_RetryPolicy b) (Crd.k_Labels b).
Definition set_LBPolicy : string → Crd.ProxyBackend → Crd.ProxyBackend := ltac:(field_setter ProxyBackend_eta Crd.k_LBPolicy).
Definition set_ConnectTimeout : Z → Crd.ProxyBackend → Crd.ProxyBackend := ltac:(field_setter ProxyBackend_eta Crd.k_ConnectTimeout).
Definition set_IdleTimeout : Z → Crd.ProxyBackend → Crd.ProxyBackend := ltac:(field_setter ProxyBackend_eta Crd.k_IdleTimeout).
Definition set_TLS : option Crd.BackendTLSConfig → Crd.ProxyBackend → Crd.ProxyBackend := ltac:(field_setter ProxyBackend_eta Crd.k_TLS).
Definition set_RetryPolicy : option Crd.RetryPolicy → Crd.ProxyBackend → Crd.ProxyBackend := ltac:(field_setter ProxyBackend_eta Crd.k_RetryPolicy).
Definition set_CircuitBreaker : option Crd.CircuitBreaker → Crd.ProxyBackend → Crd.ProxyBackend := ltac:(field_setter ProxyBackend_eta Crd.k_CircuitBreaker).
Definition set_SessionAffinity : option Crd.SessionAffinityConfig → Crd.ProxyBackend → Crd.ProxyBackend := ltac:(field_setter ProxyBackend_eta Crd.k_SessionAffinity).
Definition set_HealthCheck : option Crd.HealthCheck → Crd.ProxyBackend → Crd.ProxyBackend := ltac:(field_setter ProxyBackend_eta Crd.k_HealthCheck).
Definition set_Protocol : string → Crd.ProxyBackend → Crd.ProxyBackend := ltac:(field_setter ProxyBackend_eta Crd.k_Protocol).

Section translator.
Context `{TextTables}.
Context (ToUpper : string → string) (visit : visiting).
(** [json.Unmarshal] into a map of strings and into a list of error pages. *)
Context (unmarshalHeaders : string → option (gmap string string)) (unmarshalPages : string → option (list Crd.CustomErrorPage)).
Context (resolver : option (string → string → string → option Z)).

Definition is_true (s : string) : bool := str_eqb (ToLower s) "true".

(** A list of values separated by commas. *)
Definition comma_list (s : string) : list string :=
  filter (λ part, str_empty part = false) (TrimSpace <$> Split "," s).

(** ** Settings from annotations *)

Definition getIngressClassName (ing : Ingress) : string :=
  match in_IngressClassName ing with
  | Some c => c
  | None => default ""%string (in_Annotations ing !! "kubernetes.io/ingress.class"%string)
  end.

Definition getLBPolicy (ing : Ingress) : string :=
  match annotation ing "load-balancing" with
  | Some p =>
      let p := ToLower p in
      if str_eqb p "roundrobin" then "RoundRobin" else if str_eqb p "p2c" then "P2C" else if str_eqb p "ewma" then "EWMA"
      else if str_eqb p "ringhash" then "RingHash" else if str_eqb p "maglev" then "Maglev" else "RoundRobin"
  | None => "RoundRobin"
  end.

Definition copyLabels (ing : Ingress) : gmap string string :=
  <["novaedge.io/managed-by"%string := "ingress-controller"%string]>
    (<["novaedge.io/ingress-name"%string := in_Name ing]> (copy_map (in_Labels ing))).

Definition shouldSSLRedirect (ing : Ingress) : bool :=
  match annotation ing "force-ssl-redirect" with
  | Some f => is_true f
  | None => match annotation ing "ssl-redirect" with Some r => is_true r | None => bool_decide (in_TLS ing ≠ []) end
  end.

Definition getWhitelistSourceRanges (ing : Ingress) : list string :=
  let ranges := annotation_get ing "whitelist-source-range" in if str_empty ranges then [] else comma_list ranges.

Definition body_size_unit (size : string) : string * Z :=
  match cut_suffix size "k" with Some s => (s, 1024) | None =>
  match cut_suffix size "m" with Some s => (s, 1024 * 1024) | None =>
  match cut_suffix size "g" with Some s => (s, 1024 * 1024 * 1024) | None => (size, 1) end end end.

Definition getProxyBodySize (ing : Ingress) : Z :=
  let size := annotation_get ing "proxy-body-size" in
  if str_empty size then 0 else
  let '(digits, multiplier) := body_size_unit (ToLower (TrimSpace size)) in
  match ParseInt digits with Some n => wrap64 (n * multiplier) | None => 0 end.

Definition getRequestHeaders (ing : Ingress) : gmap string string :=
  let h := annotation_get ing "request-headers" in if str_empty h then ∅ else default ∅ (unmarshalHeaders h).

Definition getRemoveRequestHeaders (ing : Ingress) : list string :=
  let h := annotation_get ing "remove-request-headers" in if str_empty h then [] else comma_list h.

Definition getCanaryWeight (ing : Ingress) : Z :=
  let w := annotation_get ing "canary-weight" in
  if str_empty w then 0 else match ParseInt32 w with Some z => if decide (0 ≤ z ≤ 100) then z else 0 | None => 0 end.

Definition getCanaryHeader (ing : Ingress) : option (string * string) :=
  let header := annotation_get ing "canary-header" in
  if str_empty header then None else
  let value := annotation_get ing "canary-header-value" in
  Some (header, if str_empty value then "true"%string else value).

Definition getTracingConfig (ing : Ingress) : option Crd.TracingConfig :=
  let enabled := annotation_get ing "tracing-enabled" in
  let rate := annotation_get ing "tracing-sampling-rate" in
  if str_empty enabled && str_empty rate then None else
  Some (Crd.mkTracingConfig (if str_empty enabled then true else is_true enabled)
    (r ← ParseInt32 rate; if decide (0 ≤ r ≤ 100) then Some r else None) "X-Request-ID" true true).

Definition getAccessLogConfig (ing : Ingress) : option Crd.AccessLogConfig :=
  let enabled := annotation_get ing "access-log-enabled" in
  let format := annotation_get ing "access-log-format" in
  if str_empty enabled && str_empty format then None else
  Some (Crd.mkAccessLogConfig (if str_empty enabled then true else is_true enabled) (if str_empty format then "json" else format)
    "" "" "" "" None [] [] [] None).

Definition getCustomErrorPages (ing : Ingress) : list Crd.CustomErrorPage :=
  let p := annotation_get ing "custom-error-pages" in if str_empty p then [] else default [] (unmarshalPages p).

Definition getMirrorConfig (ing : Ingress) : option (Crd.BackendRef * option Z) :=
  let backend := annotation_get ing "mirror-backend" in
  if str_empty backend then None else
  Some (Crd.mkBackendRef backend None None,
    p ← ParseInt32 (annotation_get ing "mirror-percent"); if decide (0 ≤ p ≤ 100) then Some p else None).

Definition useRegexPathMatching (ing : Ingress) : bool := is_true (annotation_get ing "use-regex").

(** ** Settings of a backend *)

Definition applyTimeoutAnnotations (ing : Ingress) (b : Crd.ProxyBackend) : Crd.ProxyBackend :=
  let b := match annotation ing "proxy-connect-timeout" ≫= ParseDuration with Some d => set_ConnectTimeout d b | None => b end in
  match annotation ing "proxy-read-timeout" with
  | Some t => match ParseDuration t with Some d => set_IdleTimeout d b | None => b end
  | None => match annotation ing "proxy-send-timeout" ≫= ParseDuration with Some d => set_IdleTimeout d b | None => b end
  end.

Definition tls_enabled : option Crd.BackendTLSConfig := Some (Crd.mkBackendTLSConfig true false None None).

Definition applyBackendProtocol (ing : Ingress) (b : Crd.ProxyBackend) : Crd.ProxyBackend :=
  match annotation ing "backend-protocol" with
  | None => b
  | Some p => if str_eqb (ToUpper p) "HTTPS" || str_eqb (ToUpper p) "GRPCS" then set_TLS tls_enabled b else b
  end.

Definition cookie_affinity (ing : Ingress) : bool :=
  match annotation ing "session-affinity" with Some a => str_eqb (ToLower a) "cookie" | None => false end.

Definition applySessionAffinity (ing : Ingress) (b : Crd.ProxyBackend) : Crd.ProxyBackend :=
  if cookie_affinity ing then set_LBPolicy "RingHash" b else b.

Definition ring_keys : list string := ["$request_uri"; "$uri"; "uri"; "$remote_addr"; "$binary_remote_addr"; "ip"; "header"; "cookie"]%string.

Definition applyUpstreamHash (ing : Ingress) (b : Crd.ProxyBackend) : Crd.ProxyBackend :=
  match annotation ing "upstream-hash-by" with
  | None => b
  | Some h => set_LBPolicy (if bool_decide (ToLower h ∈ ring_keys) then "RingHash" else "Maglev") b
  end.

Definition applyRetryPolicy (ing : Ingress) (b : Crd.ProxyBackend) : Crd.ProxyBackend :=
  let attempts := annotation ing "retry-attempts" in
  let retryOn := annotation_get ing "retry-on" in
  let perTry := annotation_get ing "retry-per-try-timeout" in
  if bool_decide (attempts = None) && str_empty retryOn && str_empty perTry then b else
  set_RetryPolicy (Some (Crd.mkRetryPolicy
    (a ← attempts; n ← ParseInt32 a; if decide (0 ≤ n ≤ 10) then Some n else None)
    (if str_empty perTry then 0 else default 0 (ParseDuration perTry)) retryOn None)) b.

Definition positive_annotation (ing : Ingress) (key : string) : option Z :=
  let s := annotation_get ing key in
  if str_empty s then None else (v ← ParseInt32 s; if decide (0 < v) then Some v else None).

Definition applyCircuitBreaker (ing : Ingress) (b : Crd.ProxyBackend) : Crd.ProxyBackend :=
  if str_empty (annotation_get ing "circuit-breaker-max-connections") && str_empty (annotation_get ing "circuit-breaker-max-pending-requests") &&
     str_empty (annotation_get ing "circuit-breaker-max-requests") && str_empty (annotation_get ing "circuit-breaker-consecutive-failures")
  then b else
  set_CircuitBreaker (Some (Crd.mkCircuitBreaker (positive_annotation ing "circuit-breaker-max-connections")
    (positive_annotation ing "circuit-breaker-max-pending-requests") (positive_annotation ing "circuit-breaker-max-requests") None
    (positive_annotation ing "circuit-breaker-consecutive-failures") 0 0)) b.

Definition applySessionAffinityConfig (ing : Ingress) (b : Crd.ProxyBackend) : Crd.ProxyBackend :=
  if cookie_affinity ing then
    let ttl := annotation_get ing "session-affinity-cookie-ttl" in
    set_LBPolicy "RingHash" (set_SessionAffinity (Some (Crd.mkSessionAffinityConfig "Cookie"
      (annotation_get ing "session-affinity-cookie-name") (if str_empty ttl then 0 else default 0 (ParseDuration ttl)) "" "" false "")) b)
  else b.

Definition applyHealthCheck (ing : Ingress) (b : Crd.ProxyBackend) : Crd.ProxyBackend :=
  let path := annotation_get ing "health-check-path" in
  let interval := annotation_get ing "health-check-interval" in
  if str_empty path && str_empty interval && negb (is_true (annotation_get ing "grpc-health-check")) then b else
  set_HealthCheck (Some (Crd.mkHealthCheck (if str_empty interval then 0 else default 0 (ParseDuration interval)) 0 None None
    (if str_empty path then None else Some path))) b.

Definition applyGRPCBackend (ing : Ingress) (b : Crd.ProxyBackend) : Crd.ProxyBackend :=
  let protocol := ToUpper (annotation_get ing "backend-protocol") in
  if is_true (annotation_get ing "grpc-backend") || str_eqb protocol "GRPC" then set_Protocol "gRPC" b
  else if str_eqb protocol "GRPCS" then
    let b := set_Protocol "gRPCS" b in match Crd.k_TLS b with Some _ => b | None => set_TLS tls_enabled b end
  else if str_eqb protocol "HTTP2" then set_Protocol "HTTP2" b
  else b.

Definition getServicePort (ing : Ingress) (svc : IngressServiceBackend) : Z :=
  if negb (is_PortNumber svc =? 0) then is_PortNumber svc else
  default 80 (if str_empty (is_PortName svc) then None else (f ← resolver; f (in_Namespace ing) (is_Name svc) (is_PortName svc))).

Definition translateBackend (ing : Ingress) (backend : IngressBackend) (name : string) : Crd.ProxyBackend :=
  let b := Crd.mkProxyBackend name (in_Namespace ing)
    ((λ svc, Crd.mkServiceReference (is_Name svc) (Some (in_Namespace ing)) (getServicePort ing svc)) <$> ib_Service backend)
    (getLBPolicy ing) 0 0 None None None None None None "" None None None (copyLabels ing) in
  applyGRPCBackend ing (applyHealthCheck ing (applySessionAffinityConfig ing (applyCircuitBreaker ing (applyRetryPolicy ing
    (applyUpstreamHash ing (applySessionAffinity ing (applyBackendProtocol ing (applyTimeoutAnnotations ing b)))))))).

(** ** Routes *)

Definition convertPathMatchWithIngress (ing : Ingress) (path : HTTPIngressPath) : option Crd.HTTPPathMatch :=
  if str_empty (ip_Path path) then None else
  Some (Crd.mkHTTPPathMatch
    (if useRegexPathMatching ing then "RegularExpression" else
     match ip_PathType path with
     | None => "PathPrefix"
     | Some t =>
         if str_eqb t "Exact" then "Exact" else if str_eqb t "Prefix" then "PathPrefix"
         else if str_eqb t "ImplementationSpecific" then
           if ContainsAny (ip_Path path) regex_chars then "RegularExpression" else "PathPrefix"
         else ""
     end) (ip_Path path)).

Definition empty_filter (type : string) : Crd.HTTPRouteFilter := Crd.mkHTTPRouteFilter type [] [] None None [] [] [] None None.

Definition translateRouteRule (ing : Ingress) (path : HTTPIngressPath) (ruleIdx pathIdx : nat) : Crd.HTTPRouteRule :=
  let weight := getCanaryWeight ing in
  let matches := match convertPathMatchWithIngress ing path with
    | None => []
    | Some m => [Crd.mkHTTPRouteMatch (Some m)
        (match getCanaryHeader ing with Some (h, v) => [Crd.mkHTTPHeaderMatch "" h v] | None => [] end) [] None]
    end in
  let rewrite := match annotation ing "rewrite-target" with
    | Some t => [Crd.mkHTTPRouteFilter "URLRewrite" [] [] None (Some t) [] [] [] None None] | None => [] end in
  let headers := (λ kv, mkHTTPHeader kv.1 kv.2) <$> visit _ (getRequestHeaders ing) in
  let add := if bool_decide (headers = []) then [] else [Crd.mkHTTPRouteFilter "AddHeader" headers [] None None [] [] [] None None] in
  let remove := match getRemoveRequestHeaders ing with
    | [] => [] | l => [Crd.mkHTTPRouteFilter "RemoveHeader" [] l None None [] [] [] None None] end in
  let mirror := match getMirrorConfig ing with
    | Some (ref, percent) => [Crd.mkHTTPRouteFilter "RequestMirror" [] [] None None [] [] [] (Some ref) percent] | None => [] end in
  Crd.mkHTTPRouteRule matches (rewrite ++ add ++ remove ++ mirror)
    [Crd.mkBackendRef (generateBackendName ing ruleIdx pathIdx) None (if decide (0 < weight) then Some weight else None)]
    None None None None None None.

Definition translateRoute (ing : Ingress) (rule : IngressRule) (ruleIdx : nat) : Crd.ProxyRoute :=
  Crd.mkProxyRoute (generateRouteName ing ruleIdx) (in_Namespace ing) (if str_empty (ir_Host rule) then [] else [ir_Host rule])
    (imap (λ pathIdx path, translateRouteRule ing path ruleIdx pathIdx) (default [] (ir_HTTP rule))) None None "" (copyLabels ing).

(** ** The gateway *)

Definition tls_of (ing : Ingress) (secret : string) : Crd.TLSConfig :=
  Crd.mkTLSConfig (Some (Crd.mkSecretReference secret (in_Namespace ing))) None "TLS1.3" [].

(** The certificate of each host name; an entry without hosts is the default. *)
Definition sni_certificates (ing : Ingress) : gmap string Crd.TLSConfig :=
  foldl (λ m tls,
    if str_empty (it_SecretName tls) then m
    else match it_Hosts tls with
         | [] => <["*"%string := tls_of ing (it_SecretName tls)]> m
         | hosts => foldl (λ m host, <[host := tls_of ing (it_SecretName tls)]> m) m hosts
         end) ∅ (in_TLS ing).

Definition createHTTPSListener (ing : Ingress) : Crd.Listener :=
  Crd.mkListener "https" 443 "HTTPS"
    (match in_TLS ing with
     | tls :: _ => if str_empty (it_SecretName tls) then None else Some (tls_of ing (it_SecretName tls))
     | [] => None
     end)
    (sni_certificates ing) None (in_TLS ing ≫= it_Hosts) false None false None [] 0.

Definition rule_hosts (ing : Ingress) : gmap string bool :=
  foldl (λ m rule, if str_empty (ir_Host rule) then m else <[ir_Host rule := true]> m) ∅ (in_Rules ing).

Definition with_limits (size : Z) (ranges : list string) (l : Crd.Listener) : Crd.Listener :=
  Crd.mkListener (Crd.l_Name l) (Crd.l_Port l) (Crd.l_Protocol l) (Crd.l_TLS l) (Crd.l_TLSCertificates l) (Crd.l_QUIC l)
    (Crd.l_Hostnames l) (Crd.l_SSLRedirect l) (Crd.l_ClientAuth l) (Crd.l_OCSPStapling l) (Crd.l_ProxyProtocol l) ranges size.

Definition translateGateway (ing : Ingress) : Crd.ProxyGateway :=
  let size := getProxyBodySize ing in
  let ranges := getWhitelistSourceRanges ing in
  let http := Crd.mkListener "http" 80 "HTTP" None ∅ None (visit _ (rule_hosts ing)).*1 (shouldSSLRedirect ing) None false None ranges size in
  Crd.mkProxyGateway (generateGatewayName ing) (in_Namespace ing) (getIngressClassName ing) ""
    (http :: match in_TLS ing with [] => [] | _ => [with_limits size ranges (createHTTPSListener ing)] end)
    (getCustomErrorPages ing) None None None (copyLabels ing) (getTracingConfig ing) (getAccessLogConfig ing).

(** ** The whole translation *)

(** The backends of the paths of a rule, added to the map by name. *)
Definition rule_backends (ing : Ingress) (ruleIdx : nat) (paths : list HTTPIngressPath) (m : gmap string Crd.ProxyBackend)
    : gmap string Crd.ProxyBackend :=
  foldl (λ m p,
    let name := generateBackendName ing ruleIdx p.1 in
    match m !! name with Some _ => m | None => <[name := translateBackend ing (ip_Backend p.2) name]> m end)
    m (imap pair paths).

Definition backend_map (ing : Ingress) : gmap string Crd.ProxyBackend :=
  foldl (λ m r, match ir_HTTP r.2 with Some paths => rule_backends ing r.1 paths m | None => m end) ∅ (imap pair (in_Rules ing)).

Definition Translate (ing : Ingress) : TranslationResult :=
  let m := backend_map ing in
  let backends := (visit _ m).*2 in
  mkTranslationResult (translateGateway ing)
    (omap (λ r, match ir_HTTP r.2 with Some _ => Some (translateRoute ing r.2 r.1) | None => None end) (imap pair (in_Rules ing)))
    (backends ++ match in_DefaultBackend ing with
       | Some b =>
           let name := generateDefaultBackendName ing in
           match m !! name with Some _ => [] | None => [translateBackend ing b name] end
       | None => []
       end).

End translator.
