(* ===== verification/KubeApi.v ===== *)
(** * Calls of the Kubernetes API server

    The reconcilers of [src/internal/controller] read and write resources
    through a client whose calls may fail. Their store is any type [S]; a kind
    of resource is a map in it. *)

From S2P Require Import Prelude.

(** A computation that calls the API server: [oracle] says which calls succeed
    (all of them at its end); the result is [None] on an error. *)
Definition api (S A : Type) : Type := list bool → S → S * list bool * option A.

Section api.
Context {S : Type}.
#[local] Notation api := (api S).

Definition ret {A} (x : A) : api A := λ oracle s, (s, oracle, Some x).
Definition bind {A B} (m : api A) (f : A → api B) : api B := λ oracle s,
  match m oracle s with
  | (s, oracle, Some x) => f x oracle s
  | (s, oracle, None) => (s, oracle, None)
  end.
Definition call {A} (f : S → S * A) : api A := λ oracle s,
  match oracle with
  | false :: oracle => (s, oracle, None)
  | true :: oracle => let '(s, x) := f s in (s, oracle, Some x)
  | [] => let '(s, x) := f s in (s, [], Some x)
  end.

Fixpoint for_each {A} (f : A → api unit) (l : list A) : api unit :=
  match l with [] => ret tt | x :: l => bind (f x) (λ _, for_each f l) end.

Definition fail {A} : api A := λ oracle s, (s, oracle, None).
(** A call whose error is handled: the result is [None] after an error; the
    store keeps what was written before it. *)
Definition attempt {A} (m : api A) : api (option A) := λ oracle s,
  let '(s, oracle, r) := m oracle s in (s, oracle, Some r).

(** A kind of resource: its key and its place in the store. *)
Record kind (A : Type) := mkKind { kd_key : A → string; kd_get : S → gmap string A; kd_put : gmap string A → S → S }.
#[global] Arguments kd_key {A}. #[global] Arguments kd_get {A}. #[global] Arguments kd_put {A}.

(** [Get], with [None] for a resource that is not found, [Update] and [Delete]. *)
Definition get {A} (k : kind A) (key : string) : api (option A) := call (λ s, (s, kd_get k s !! key)).
Definition update {A} (k : kind A) (key : string) (x : A) : api unit := call (λ s, (kd_put k (<[key := x]> (kd_get k s)) s, tt)).
Definition remove {A} (k : kind A) (key : string) : api unit := call (λ s, (kd_put k (delete key (kd_get k s)) s, tt)).

(** [reconcileResource]: create the resource, or replace its specification and
    labels. Both leave the desired resource. *)
Definition reconcileResource {A} (k : kind A) (desired : A) : api unit :=
  bind (get k (kd_key k desired)) (λ existing,
  match existing with
  | None => update k (kd_key k desired) desired
  | Some _ => update k (kd_key k desired) desired
  end).

(** ** Writing resources *)

Record kind_ok {A} (k : kind A) : Prop := {
  get_put m s : kd_get k (kd_put k m s) = m;
  put_put m m' s : kd_put k m' (kd_put k m s) = kd_put k m' s;
  put_get s : kd_put k (kd_get k s) s = s;
}.

Definition put_all {A} (k : kind A) (l : list A) (s : S) : S := kd_put k (insert_all (kd_key k) (kd_get k s) l) s.

Lemma reconcileResource_cases {A} (k : kind A) x oracle s s' o' res :
  reconcileResource k x oracle s = (s', o', res) → (res = Some tt ∧ s' = put_all k [x] s) ∨ (res = None ∧ s' = s).
Proof.
  unfold reconcileResource, get, update, bind, call. destruct oracle as [|[|] [|[|] oracle]]; simpl; destruct (kd_get k s !! kd_key k x); simpl;
    intros [= <- <- <-]; (by left) || by right.
Qed.

(** A loop of writes performs a prefix of them, all of them without an error. *)
Lemma for_each_prefix {A} (k : kind A) l oracle s s' o' res :
  kind_ok k → for_each (reconcileResource k) l oracle s = (s', o', res) →
  ∃ l1 l2, l = l1 ++ l2 ∧ s' = put_all k l1 s ∧ (res = Some tt → l2 = []).
Proof.
  intros Hk. revert oracle s. induction l as [|x l IH]; intros oracle s E; simpl in E.
  - injection E as <- <- <-. exists [], []. split; [done|]. split; [|done]. unfold put_all. simpl. by rewrite (put_get _ Hk).
  - unfold bind in E. destruct (reconcileResource k x oracle s) as [[s1 o1] r1] eqn:E1.
    destruct (reconcileResource_cases _ _ _ _ _ _ _ E1) as [[-> ->]|[-> ->]].
    + apply IH in E as (l1 & l2 & -> & -> & Hr). exists (x :: l1), l2. split; [done|]. split; [|done].
      unfold put_all. simpl. by rewrite (get_put _ Hk), (put_put _ Hk).
    + injection E as <- <- <-. exists [], (x :: l). split; [done|]. split; [|done]. unfold put_all. simpl. by rewrite (put_get _ Hk).
Qed.

Lemma reconcileResource_succeeds {A} (k : kind A) x s : reconcileResource k x [] s = (put_all k [x] s, [], Some tt).
Proof. unfold reconcileResource, get, update, bind, call. simpl. by destruct (kd_get k s !! kd_key k x). Qed.

Lemma for_each_succeeds {A} (k : kind A) l s : kind_ok k → for_each (reconcileResource k) l [] s = (put_all k l s, [], Some tt).
Proof.
  intros Hk. revert s. induction l as [|x l IH]; intros s; simpl; [unfold put_all; simpl; by rewrite (put_get _ Hk)|].
  unfold bind. rewrite reconcileResource_succeeds, IH. unfold put_all. simpl. by rewrite (get_put _ Hk), (put_put _ Hk).
Qed.

(** ** Reasoning about calls

    [triple m w Q]: whatever calls fail, [m] ends in a store and a result of [Q].
    [succeeds m w Q]: when no call fails, [m] ends without an error. *)

Definition triple {A} (m : api A) (s : S) (Q : S → option A → Prop) : Prop :=
  ∀ oracle, let '(s', _, r) := m oracle s in Q s' r.
Definition succeeds {A} (m : api A) (s : S) (Q : S → A → Prop) : Prop :=
  ∃ s' x, m [] s = (s', [], Some x) ∧ Q s' x.

Lemma triple_ret {A} (x : A) s Q : Q s (Some x) → triple (ret x) s Q.
Proof. by intros H oracle. Qed.
Lemma triple_fail {A} s (Q : S → option A → Prop) : Q s None → triple fail s Q.
Proof. by intros H oracle. Qed.
Lemma triple_bind {A B} (m : api A) (f : A → api B) s Q :
  triple m s (λ s' r, match r with Some x => triple (f x) s' Q | None => Q s' None end) → triple (bind m f) s Q.
Proof.
  intros H oracle. specialize (H oracle). unfold bind. destruct (m oracle s) as [[s' o'] [x|]]; [apply H|done].
Qed.
Lemma triple_call {A} (f : S → S * A) s Q : Q s None → Q (f s).1 (Some (f s).2) → triple (call f) s Q.
Proof. intros Hn Hs oracle. unfold call. by destruct oracle as [|[] ?], (f s). Qed.
Lemma triple_mono {A} (m : api A) s (P Q : S → option A → Prop) : triple m s P → (∀ s' r, P s' r → Q s' r) → triple m s Q.
Proof. intros H HPQ oracle. specialize (H oracle). destruct (m oracle s) as [[s' o'] r]. by apply HPQ. Qed.

Lemma succeeds_ret {A} (x : A) s Q : Q s x → succeeds (ret x) s Q.
Proof. intros H. by exists s, x. Qed.
Lemma succeeds_bind {A B} (m : api A) (f : A → api B) s Q :
  succeeds m s (λ s' x, succeeds (f x) s' Q) → succeeds (bind m f) s Q.
Proof. intros (s' & x & E & s'' & y & E' & H). exists s'', y. unfold bind. by rewrite E. Qed.
Lemma succeeds_call {A} (f : S → S * A) s Q : Q (f s).1 (f s).2 → succeeds (call f) s Q.
Proof. intros H. exists (f s).1, (f s).2. split; [|done]. unfold call. by destruct (f s). Qed.

Lemma succeeds_attempt {A} (m : api A) s Q : succeeds m s (λ s' x, Q s' (Some x)) → succeeds (attempt m) s Q.
Proof. intros (s' & x & E & H). exists s', (Some x). unfold attempt. by rewrite E. Qed.

(** [stays I m]: whatever calls fail, [m] keeps the invariant [I] of the store. *)
Definition stays {A} (I : S → Prop) (m : api A) : Prop := ∀ s, I s → triple m s (λ s' _, I s').

Lemma stays_ret {A} I (x : A) : stays I (ret x).
Proof. intros s H. by apply triple_ret. Qed.
Lemma stays_fail {A} I : stays (A := A) I fail.
Proof. intros s H. by apply triple_fail. Qed.
Lemma stays_bind {A B} I (m : api A) (f : A → api B) : stays I m → (∀ x, stays I (f x)) → stays I (bind m f).
Proof. intros Hm Hf s H. apply triple_bind. eapply triple_mono; [by apply Hm|]. intros s' [x|] Hs; [by apply Hf|done]. Qed.
Lemma stays_attempt {A} I (m : api A) : stays I m → stays I (attempt m).
Proof. intros Hm s H oracle. specialize (Hm s H oracle). unfold attempt. by destruct (m oracle s) as [[s' o'] r]. Qed.
Lemma stays_call {A} I (f : S → S * A) : (∀ s, I s → I (f s).1) → stays I (call f).
Proof. intros Hf s H. apply triple_call; [done|]. by apply Hf. Qed.

End api.

Create HintDb stays.
#[export] Hint Resolve stays_ret stays_fail stays_bind stays_attempt : stays.
