(* ===== verification/IngressReconcile.v ===== *)
(** * From an Ingress to a snapshot

    The properties of [IngressTranslate], the reconciler
    [src/internal/controller/ingress_controller.go] that keeps the translated
    resources in the cluster, and the composition with [SnapshotBuilder]: where
    the traffic for a path of an Ingress goes. The cluster is a store of
    resources; every call of the Kubernetes client can fail, which the
    argument [oracle] decides. Finalizers are modelled; the owner references
    that delete resources with their Ingress are not. *)

From S2P Require Import Prelude GoStrings Float64 GoLib Convert BuilderTypes BuilderConvert SnapshotBuilder BuilderVersion IngressTranslate KubeApi.
Open Scope Z_scope.

(** ** Names *)

Lemma format_nat_no_dash n : no_char "-" (format_d (Z.of_nat n)) = true.
Proof. unfold format_d. rewrite decide_False by lia. apply dec_digits_no_char; [done|done|lia]. Qed.

Lemma str_app_cancel_r a b c : a +:+ c = b +:+ c → a = b.
Proof. intros E. pose proof (cut_suffix_of_app a c) as Ha. rewrite E, cut_suffix_of_app in Ha. by injection Ha. Qed.

Lemma dash_number_inj a b n m :
  a +:+ "-" +:+ format_d (Z.of_nat n) = b +:+ "-" +:+ format_d (Z.of_nat m) → a = b ∧ n = m.
Proof.
  intros E. pose proof (CutLast_app "-" a (format_d (Z.of_nat n)) (format_nat_no_dash n)) as Ha.
  change (String "-" (format_d (Z.of_nat n))) with ("-" +:+ format_d (Z.of_nat n)) in Ha. rewrite E in Ha.
  pose proof (CutLast_app "-" b (format_d (Z.of_nat m)) (format_nat_no_dash m)) as Hb.
  change (String "-" (format_d (Z.of_nat m))) with ("-" +:+ format_d (Z.of_nat m)) in Hb. rewrite Hb in Ha.
  injection Ha as -> E2. split; [done|]. symmetry. by apply format_nat_inj.
Qed.

(** The name of a backend determines its Ingress, rule and path. *)
Lemma generateBackendName_inj ing ing' i j i' j' :
  generateBackendName ing i j = generateBackendName ing' i' j' → in_Name ing = in_Name ing' ∧ i = i' ∧ j = j'.
Proof.
  unfold generateBackendName. intros E.
  assert (∀ n k l, n +:+ "-backend-" +:+ format_d (Z.of_nat k) +:+ "-" +:+ format_d (Z.of_nat l) =
    ((n +:+ "-backend") +:+ "-" +:+ format_d (Z.of_nat k)) +:+ "-" +:+ format_d (Z.of_nat l)) as Hs.
  { intros. by rewrite !str_app_assoc. }
  rewrite !Hs in E. apply dash_number_inj in E as [E ->]. apply dash_number_inj in E as [E ->]. by apply str_app_cancel_r in E.
Qed.

Lemma generateRouteName_inj ing ing' i i' :
  generateRouteName ing i = generateRouteName ing' i' → in_Name ing = in_Name ing' ∧ i = i'.
Proof.
  unfold generateRouteName. intros E.
  assert (∀ n k, n +:+ "-route-" +:+ format_d (Z.of_nat k) = (n +:+ "-route") +:+ "-" +:+ format_d (Z.of_nat k)) as Hs.
  { intros. by rewrite !str_app_assoc. }
  rewrite !Hs in E. apply dash_number_inj in E as [E ->]. by apply str_app_cancel_r in E.
Qed.

(** ** The map of backends *)

Lemma elem_of_imap_pair {A} (l : list A) i x : (i, x) ∈ imap pair l ↔ l !! i = Some x.
Proof. rewrite elem_of_imap. split; [intros (k & y & Hk & [= -> ->]); done|intros Hi; by exists i, x]. Qed.

Section translation.
Context `{TextTables}.
Context (ToUpper : string → string) (visit : visiting) (visit_order : ∀ V (m : gmap string V), range_order m (visit V m)).
Context (unmarshalHeaders : string → option (gmap string string)) (unmarshalPages : string → option (list Crd.CustomErrorPage)).
Context (resolver : option (string → string → string → option Z)).

#[local] Notation translateBackend := (translateBackend ToUpper resolver).
#[local] Notation rule_backends := (rule_backends ToUpper resolver).
#[local] Notation backend_map := (backend_map ToUpper resolver).
#[local] Notation Translate := (Translate ToUpper visit unmarshalHeaders unmarshalPages resolver).
#[local] Notation translateRouteRule := (translateRouteRule visit unmarshalHeaders).

(** A map that holds under each name the backend of a path of the Ingress. *)
Definition backends_ok (ing : Ingress) (m : gmap string Crd.ProxyBackend) : Prop :=
  ∀ name b, m !! name = Some b →
    ∃ i j rule paths path, in_Rules ing !! i = Some rule ∧ ir_HTTP rule = Some paths ∧ paths !! j = Some path ∧
      name = generateBackendName ing i j ∧ b = translateBackend ing (ip_Backend path) name.

(** One loop over the paths of a rule: it adds the backend of every path. *)
Lemma rule_backends_spec ing i rule paths m :
  in_Rules ing !! i = Some rule → ir_HTTP rule = Some paths → backends_ok ing m →
  backends_ok ing (rule_backends ing i paths m) ∧ m ⊆ rule_backends ing i paths m ∧
  ∀ j path, paths !! j = Some path → is_Some (rule_backends ing i paths m !! generateBackendName ing i j).
Proof.
  intros Hrule Hpaths Hok. unfold IngressTranslate.rule_backends.
  assert (∀ l, (∀ j path, (j, path) ∈ l → paths !! j = Some path) → ∀ m, backends_ok ing m →
    let m' := foldl (λ m p, let name := generateBackendName ing i p.1 in
      match m !! name with Some _ => m | None => <[name := translateBackend ing (ip_Backend p.2) name]> m end) m l in
    backends_ok ing m' ∧ m ⊆ m' ∧ ∀ j path, (j, path) ∈ l → is_Some (m' !! generateBackendName ing i j)) as Hloop.
  { clear m Hok. induction l as [|[j path] l IH]; intros Hl m Hok; simpl; [split; [done|]; split; [done|]; intros ?? []%not_elem_of_nil|].
    set (name := generateBackendName ing i j).
    set (m1 := match m !! name with Some _ => m | None => <[name := translateBackend ing (ip_Backend path) name]> m end).
    assert (backends_ok ing m1 ∧ m ⊆ m1 ∧ is_Some (m1 !! name)) as (Hok1 & Hsub & Hin).
    { unfold m1. destruct (m !! name) as [b|] eqn:E; [split; [done|]; split; [done|]; by exists b|].
      split; [|split; [by apply insert_subseteq|rewrite lookup_insert_eq; by eexists]].
      intros n b. rewrite lookup_insert_Some. intros [[<- <-]|[_ Hb]]; [|by apply Hok].
      exists i, j, rule, paths, path. split_and!; try done. apply Hl. apply list_elem_of_here. }
    destruct (IH (λ j' p' Hin', Hl j' p' (list_elem_of_further _ _ _ Hin')) m1 Hok1) as (I1 & I2 & I3).
    split; [done|]. split; [by trans m1|]. intros j' path' [[= -> ->]|Hin']%elem_of_cons; [|by apply (I3 j' path')].
    destruct Hin as [b Hb]. exists b. by eapply lookup_weaken. }
  destruct (Hloop (imap pair paths)) with (m := m) as (L1 & L2 & L3); [|done|].
  { intros j path. by rewrite elem_of_imap_pair. }
  split; [done|]. split; [done|]. intros j path Hj. apply (L3 j path). by apply elem_of_imap_pair.
Qed.

Lemma backend_map_spec ing :
  backends_ok ing (backend_map ing) ∧
  ∀ i j rule paths path, in_Rules ing !! i = Some rule → ir_HTTP rule = Some paths → paths !! j = Some path →
    is_Some (backend_map ing !! generateBackendName ing i j).
Proof.
  unfold IngressTranslate.backend_map.
  assert (∀ l, (∀ i rule, (i, rule) ∈ l → in_Rules ing !! i = Some rule) → ∀ m, backends_ok ing m →
    let m' := foldl (λ m r, match ir_HTTP r.2 with Some paths => rule_backends ing r.1 paths m | None => m end) m l in
    backends_ok ing m' ∧ m ⊆ m' ∧ ∀ i j rule paths path, (i, rule) ∈ l → ir_HTTP rule = Some paths → paths !! j = Some path →
      is_Some (m' !! generateBackendName ing i j)) as Hloop.
  { induction l as [|[i rule] l IH]; intros Hl m Hok; simpl; [split; [done|]; split; [done|]; intros ????? []%not_elem_of_nil|].
    pose proof (Hl i rule (list_elem_of_here _ _)) as Hrule.
    set (m1 := match ir_HTTP rule with Some paths => rule_backends ing i paths m | None => m end).
    assert (backends_ok ing m1 ∧ m ⊆ m1 ∧ ∀ j paths path, ir_HTTP rule = Some paths → paths !! j = Some path →
      is_Some (m1 !! generateBackendName ing i j)) as (Hok1 & Hsub & Hin).
    { unfold m1. destruct (ir_HTTP rule) as [paths|] eqn:E; [|split; [done|]; split; [done|]; by intros ??? [=]].
      destruct (rule_backends_spec ing i rule paths m Hrule E Hok) as (R1 & R2 & R3). split; [done|]. split; [done|].
      intros j ? path [= <-]. apply R3. }
    destruct (IH (λ i' r' Hin', Hl i' r' (list_elem_of_further _ _ _ Hin')) m1 Hok1) as (I1 & I2 & I3).
    split; [done|]. split; [by trans m1|]. intros i' j rule' paths path [[= -> ->]|Hin']%elem_of_cons; [|by apply (I3 i' j rule' paths path)].
    intros Hp Hj. destruct (Hin j paths path Hp Hj) as [b Hb]. exists b. by eapply lookup_weaken. }
  destruct (Hloop (imap pair (in_Rules ing))) with (m := ∅ : gmap string Crd.ProxyBackend) as (L1 & _ & L3).
  - intros i rule. by rewrite elem_of_imap_pair.
  - intros name b. by rewrite lookup_empty.
  - split; [done|]. intros i j rule paths path Hi. apply L3. by apply elem_of_imap_pair.
Qed.

(** The backend of a path. *)
Lemma backend_of_path ing i j rule paths path :
  in_Rules ing !! i = Some rule → ir_HTTP rule = Some paths → paths !! j = Some path →
  backend_map ing !! generateBackendName ing i j = Some (translateBackend ing (ip_Backend path) (generateBackendName ing i j)).
Proof.
  intros Hi Hp Hj. destruct (backend_map_spec ing) as [Hok Hall]. destruct (Hall i j rule paths path Hi Hp Hj) as [b Hb].
  destruct (Hok _ b Hb) as (i' & j' & rule' & paths' & path' & Hi' & Hp' & Hj' & En & ->).
  apply generateBackendName_inj in En as (_ & <- & <-). rewrite Hi in Hi'. injection Hi' as <-. rewrite Hp in Hp'. injection Hp' as <-.
  rewrite Hj in Hj'. injection Hj' as <-. done.
Qed.

(** What the translated backend keeps of its arguments. *)
Lemma translateBackend_fields ing backend name :
  let b := translateBackend ing backend name in
  Crd.k_Name b = name ∧ Crd.k_Namespace b = in_Namespace ing ∧
  Crd.k_ServiceRef b = (λ svc, Crd.mkServiceReference (is_Name svc) (Some (in_Namespace ing)) (getServicePort resolver ing svc)) <$> ib_Service backend.
Proof.
  unfold IngressTranslate.translateBackend. set (b0 := Crd.mkProxyBackend _ _ _ _ _ _ _ _ _ _ _ _ _ _ _ _ _).
  assert (∀ (f : Crd.ProxyBackend → Crd.ProxyBackend) b, (∀ b, Crd.k_Name (f b) = Crd.k_Name b ∧ Crd.k_Namespace (f b) = Crd.k_Namespace b ∧ Crd.k_ServiceRef (f b) = Crd.k_ServiceRef b) →
    Crd.k_Name b = name ∧ Crd.k_Namespace b = in_Namespace ing ∧ Crd.k_ServiceRef b = Crd.k_ServiceRef b0 →
    Crd.k_Name (f b) = name ∧ Crd.k_Namespace (f b) = in_Namespace ing ∧ Crd.k_ServiceRef (f b) = Crd.k_ServiceRef b0) as Hf.
  { intros f b Hfb (H1 & H2 & H3). destruct (Hfb b) as (-> & -> & ->). done. }
  change (fmap _ (ib_Service backend)) with (Crd.k_ServiceRef b0).
  do 9 (apply Hf; [intros b; unfold applyGRPCBackend, applyHealthCheck, applySessionAffinityConfig, applyCircuitBreaker, applyRetryPolicy,
    applyUpstreamHash, applySessionAffinity, applyBackendProtocol, applyTimeoutAnnotations; repeat (case_match; simpl; try done)|]).
  done.
Qed.

(** ** Routing *)

(** The elements of the two lists. *)
Lemma elem_of_visited {V} (m : gmap string V) x : x ∈ (visit V m).*2 ↔ ∃ k, m !! k = Some x.
Proof.
  rewrite list_elem_of_fmap. split.
  - intros ([k v] & -> & Hin). exists k. rewrite (visit_order V m) in Hin. by apply elem_of_map_to_list in Hin.
  - intros [k Hk]. exists (k, x). split; [done|]. rewrite (visit_order V m). by apply elem_of_map_to_list.
Qed.

Lemma default_name_differs ing i j : generateDefaultBackendName ing ≠ generateBackendName ing i j.
Proof.
  unfold generateDefaultBackendName, generateBackendName. intros E. apply str_app_inj in E. cbn in E.
  unfold format_d in E. rewrite decide_False in E by lia.
  destruct (dec_digits_nonempty (Z.to_nat (Z.log2 (Z.of_nat i))) (Z.of_nat i) "") as (d & s & Ed & Hd). rewrite Ed in E. cbn in E.
  injection E as E _. revert E. pattern d. apply digit_cases; [done|]. by repeat constructor.
Qed.

Lemma elem_of_backends ing b :
  b ∈ tr_Backends (Translate ing) ↔ backend_map ing !! Crd.k_Name b = Some b ∨
    ∃ d, in_DefaultBackend ing = Some d ∧ b = translateBackend ing d (generateDefaultBackendName ing).
Proof.
  unfold IngressTranslate.Translate. simpl. rewrite elem_of_app, elem_of_visited. destruct (backend_map_spec ing) as [Hok _].
  assert (∀ k x, backend_map ing !! k = Some x → Crd.k_Name x = k) as Hname.
  { intros k x Hx. destruct (Hok k x Hx) as (i & j & rule & paths & path & _ & _ & _ & _ & ->). apply translateBackend_fields. }
  assert (backend_map ing !! generateDefaultBackendName ing = None) as Hnone.
  { destruct (backend_map ing !! generateDefaultBackendName ing) as [x|] eqn:E; [|done].
    destruct (Hok _ x E) as (i & j & _ & _ & _ & _ & _ & _ & En & _). by apply default_name_differs in En. }
  rewrite Hnone. assert ((∃ k, backend_map ing !! k = Some b) ↔ backend_map ing !! Crd.k_Name b = Some b) as ->.
  { split; [|by eauto]. intros [k Hk]. by rewrite (Hname k b Hk). }
  destruct (in_DefaultBackend ing) as [d|].
  - rewrite list_elem_of_singleton. split; [intros [?| ->]; [by left|right; eauto]|intros [?|(d' & [= <-] & ->)]; [by left|by right]].
  - split; [intros [?|[]%not_elem_of_nil]; by left|intros [?|(d' & [=] & _)]; by left].
Qed.

Lemma backends_distinct ing b b' :
  b ∈ tr_Backends (Translate ing) → b' ∈ tr_Backends (Translate ing) → Crd.k_Name b' = Crd.k_Name b → b' = b.
Proof.
  rewrite !elem_of_backends. destruct (backend_map_spec ing) as [Hok _].
  assert (∀ x d, backend_map ing !! Crd.k_Name x = Some x →
    Crd.k_Name x = Crd.k_Name (translateBackend ing d (generateDefaultBackendName ing)) → False) as Hd.
  { intros x d Hx En. destruct (Hok _ x Hx) as (i & j & _ & _ & _ & _ & _ & _ & Ex & _).
    destruct (translateBackend_fields ing d (generateDefaultBackendName ing)) as (Hn & _). rewrite Hn, Ex in En.
    symmetry in En. by apply default_name_differs in En. }
  intros [Hb|(d & Ed & ->)] [Hb'|(d' & Ed' & ->)] En.
  - rewrite En in Hb'. congruence.
  - exfalso. by apply (Hd b d').
  - exfalso. by apply (Hd b' d).
  - congruence.
Qed.

Lemma backend_namespace ing b : b ∈ tr_Backends (Translate ing) → Crd.k_Namespace b = in_Namespace ing.
Proof.
  rewrite elem_of_backends. intros [Hb|(d & _ & ->)]; [|apply translateBackend_fields].
  destruct (backend_map_spec ing) as [Hok _]. destruct (Hok _ b Hb) as (i & j & rule & paths & path & _ & _ & _ & _ & ->).
  apply translateBackend_fields.
Qed.

Lemma route_namespace ing r : r ∈ tr_Routes (Translate ing) → Crd.ro_Namespace r = in_Namespace ing.
Proof.
  unfold IngressTranslate.Translate. simpl. rewrite list_elem_of_omap. intros ([i rule] & _ & E). simpl in E.
  destruct (ir_HTTP rule); [|done]. by injection E as <-.
Qed.

Lemma elem_of_routes ing i rule paths :
  in_Rules ing !! i = Some rule → ir_HTTP rule = Some paths →
  translateRoute visit unmarshalHeaders ing rule i ∈ tr_Routes (Translate ing).
Proof.
  intros Hi Hp. unfold IngressTranslate.Translate. simpl. apply list_elem_of_omap. exists (i, rule). split; [by apply elem_of_imap_pair|].
  simpl. by rewrite Hp.
Qed.

Lemma routes_distinct ing r r' :
  r ∈ tr_Routes (Translate ing) → r' ∈ tr_Routes (Translate ing) → Crd.ro_Name r' = Crd.ro_Name r → r' = r.
Proof.
  unfold IngressTranslate.Translate. simpl. rewrite !list_elem_of_omap.
  intros ([i rule] & Hi & E) ([i' rule'] & Hi' & E') En. rewrite elem_of_imap_pair in Hi, Hi'. simpl in E, E'.
  destruct (ir_HTTP rule); [|done]. destruct (ir_HTTP rule'); [|done]. injection E as <-. injection E' as <-. simpl in En.
  apply generateRouteName_inj in En as [_ ->]. congruence.
Qed.

(** Every path of every rule of an Ingress is routed to the service it
    names: the translation has a route for the rule, with the rule's host,
    whose rule for the path matches it and refers to a single backend; this
    backend is among the translated ones, under a name of its own, and refers
    to the service and port of the path. *)
Theorem ingress_paths_are_routed ing i j rule paths path svc :
  in_Rules ing !! i = Some rule → ir_HTTP rule = Some paths → paths !! j = Some path → ib_Service (ip_Backend path) = Some svc →
  ∃ route r b, route ∈ tr_Routes (Translate ing) ∧ b ∈ tr_Backends (Translate ing) ∧
    Crd.ro_Hostnames route = (if str_empty (ir_Host rule) then [] else [ir_Host rule]) ∧ Crd.ro_Namespace route = in_Namespace ing ∧
    Crd.ro_Rules route !! j = Some r ∧ Crd.m_Path <$> Crd.r_Matches r = option_list (Some <$> convertPathMatchWithIngress ing path) ∧
    Crd.b_Name <$> Crd.r_BackendRefs r = [Crd.k_Name b] ∧ Crd.b_Namespace <$> Crd.r_BackendRefs r = [None] ∧
    Crd.k_Namespace b = in_Namespace ing ∧
    Crd.k_ServiceRef b = Some (Crd.mkServiceReference (is_Name svc) (Some (in_Namespace ing)) (getServicePort resolver ing svc)) ∧
    ∀ b', b' ∈ tr_Backends (Translate ing) → Crd.k_Name b' = Crd.k_Name b → b' = b.
Proof.
  intros Hi Hp Hj Hs. set (name := generateBackendName ing i j).
  set (b := translateBackend ing (ip_Backend path) name).
  destruct (translateBackend_fields ing (ip_Backend path) name) as (B1 & B2 & B3). fold b in B1, B2, B3.
  assert (b ∈ tr_Backends (Translate ing)) as Hb.
  { apply elem_of_backends. left. rewrite B1. by eapply backend_of_path. }
  exists (translateRoute visit unmarshalHeaders ing rule i), (translateRouteRule ing path i j), b.
  split; [by eapply elem_of_routes|]. split; [done|]. split; [done|]. split; [done|].
  split; [simpl; rewrite Hp; simpl; by rewrite list_lookup_imap, Hj|].
  split; [unfold IngressTranslate.translateRouteRule; simpl; by destruct (convertPathMatchWithIngress ing path)|].
  split; [by rewrite B1|]. split; [done|]. split; [done|]. split; [by rewrite B3, Hs|].
  intros b' Hb' En. by apply (backends_distinct ing).
Qed.

End translation.

(** ** The reconciler *)

(** [resolveServicePort]; [get] reads a Service, and has no result when the
    Service does not exist or the call fails. *)
Definition resolveServicePort (get : string → string → option Crd.Service) (namespace serviceName portName : string) : option Z :=
  svc ← get namespace serviceName; (λ p, Crd.sp_Port p.2) <$> list_find (λ p, Crd.sp_Name p = portName) (Crd.sv_Ports svc).

(** The resources of the cluster by namespace and name, and the number of
    updates announced to the configuration server, if the reconciler has one. *)
Record store := mkStore {
  st_ingresses : gmap string Ingress;
  st_gateways : gmap string Crd.ProxyGateway;
  st_routes : gmap string Crd.ProxyRoute;
  st_backends : gmap string Crd.ProxyBackend;
  st_updates : option nat; (* no server, or how often its TriggerUpdate was called *)
}.

#[local] Notation api := (api store).
#[local] Notation kind := (kind (S := store)).

Definition gateway_kind : kind Crd.ProxyGateway := mkKind _ (λ g, ns_key (Crd.g_Namespace g) (Crd.g_Name g)) st_gateways
  (λ m s, mkStore (st_ingresses s) m (st_routes s) (st_backends s) (st_updates s)).
Definition route_kind : kind Crd.ProxyRoute := mkKind _ (λ r, ns_key (Crd.ro_Namespace r) (Crd.ro_Name r)) st_routes
  (λ m s, mkStore (st_ingresses s) (st_gateways s) m (st_backends s) (st_updates s)).
Definition backend_kind : kind Crd.ProxyBackend := mkKind _ (λ b, ns_key (Crd.k_Namespace b) (Crd.k_Name b)) st_backends
  (λ m s, mkStore (st_ingresses s) (st_gateways s) (st_routes s) m (st_updates s)).

Lemma gateway_kind_ok : kind_ok gateway_kind.
Proof. split; try done. by intros []. Qed.
Lemma route_kind_ok : kind_ok route_kind.
Proof. split; try done. by intros []. Qed.
Lemma backend_kind_ok : kind_ok backend_kind.
Proof. split; try done. by intros []. Qed.

Section reconciler.
Context `{TextTables}.
Context (ToUpper : string → string) (visit : visiting) (visit_order : ∀ V (m : gmap string V), range_order m (visit V m)).
Context (unmarshalHeaders : string → option (gmap string string)) (unmarshalPages : string → option (list Crd.CustomErrorPage)).
Context (getSvc : string → string → option Crd.Service).

#[local] Notation resolver := (Some (resolveServicePort getSvc)).
#[local] Notation Translate := (Translate ToUpper visit unmarshalHeaders unmarshalPages resolver).

Definition IngressClassName : string := "novaedge".
Definition IngressFinalizerName : string := "novaedge.io/ingress-finalizer".

Definition shouldProcessIngress (ingressClass : string) (ing : Ingress) : bool :=
  str_eqb (getIngressClassName ing) (if str_empty ingressClass then IngressClassName else ingressClass).

Definition set_finalizers (fs : list string) (ing : Ingress) : Ingress :=
  mkIngress (in_Name ing) (in_Namespace ing) (in_Labels ing) (in_Annotations ing) (in_Deleted ing) fs (in_IngressClassName ing)
    (in_DefaultBackend ing) (in_TLS ing) (in_Rules ing).

Definition update_ingress (key : string) (ing : Ingress) : api unit :=
  call (λ s, (mkStore (<[key := ing]> (st_ingresses s)) (st_gateways s) (st_routes s) (st_backends s) (st_updates s), tt)).

Definition has_finalizer (ing : Ingress) : bool := bool_decide (IngressFinalizerName ∈ in_Finalizers ing).

Definition handleDeletion (key : string) (ing : Ingress) : api unit :=
  if has_finalizer ing then update_ingress key (set_finalizers (filter (λ f, f ≠ IngressFinalizerName) (in_Finalizers ing)) ing) else ret tt.

Definition add_finalizer (key : string) (ing : Ingress) : api unit :=
  if has_finalizer ing then ret tt else update_ingress key (set_finalizers (in_Finalizers ing ++ [IngressFinalizerName]) ing).

Definition triggerConfigUpdate : api unit := λ oracle s,
  (mkStore (st_ingresses s) (st_gateways s) (st_routes s) (st_backends s) (S <$> st_updates s), oracle, Some tt).

(** The resources of a translation are written in turn. *)
Definition apply_result (r : TranslationResult) : api unit :=
  bind (reconcileResource gateway_kind (tr_Gateway r)) (λ _,
  bind (for_each (reconcileResource route_kind) (tr_Routes r)) (λ _,
  for_each (reconcileResource backend_kind) (tr_Backends r))).

Definition Reconcile (ingressClass key : string) : api unit :=
  bind (call (λ s, (s, st_ingresses s !! key))) (λ found,
  match found with
  | None => ret tt
  | Some ing =>
      if negb (shouldProcessIngress ingressClass ing) then ret tt
      else if in_Deleted ing then handleDeletion key ing
      else bind (add_finalizer key ing) (λ _, bind (apply_result (Translate ing)) (λ _, triggerConfigUpdate))
  end).

(** ** What a reconciliation leaves *)

(** The store with all resources of a translation. *)
Definition with_result (r : TranslationResult) (s : store) : store :=
  put_all backend_kind (tr_Backends r) (put_all route_kind (tr_Routes r) (put_all gateway_kind [tr_Gateway r] s)).

Lemma apply_result_succeeds r s : apply_result r [] s = (with_result r s, [], Some tt).
Proof.
  unfold apply_result, bind. rewrite reconcileResource_succeeds, (for_each_succeeds route_kind) by apply route_kind_ok.
  by rewrite (for_each_succeeds backend_kind) by apply backend_kind_ok.
Qed.

(** The store with a part of a translation. *)
Definition with_parts (gws : list Crd.ProxyGateway) (routes : list Crd.ProxyRoute) (backends : list Crd.ProxyBackend) (s : store) : store :=
  put_all backend_kind backends (put_all route_kind routes (put_all gateway_kind gws s)).

Lemma with_parts_nil s : with_parts [] [] [] s = s.
Proof. by destruct s. Qed.

Lemma apply_result_prefix r oracle s s' o' res :
  apply_result r oracle s = (s', o', res) →
  ∃ g1 g2 r1 r2 b1 b2, [tr_Gateway r] = g1 ++ g2 ∧ tr_Routes r = r1 ++ r2 ∧ tr_Backends r = b1 ++ b2 ∧ s' = with_parts g1 r1 b1 s ∧
    (res = Some tt → g2 = [] ∧ r2 = [] ∧ b2 = []).
Proof.
  unfold apply_result, bind. destruct (reconcileResource gateway_kind _ oracle s) as [[s1 o1] e1] eqn:E1.
  destruct (reconcileResource_cases _ _ _ _ _ _ _ E1) as [[-> ->]|[-> ->]].
  - destruct (for_each _ (tr_Routes r) o1 _) as [[s2 o2] e2] eqn:E2. apply for_each_prefix in E2 as (r1 & r2 & Er & -> & H2); [|apply route_kind_ok].
    destruct e2 as [[]|].
    + intros E3. apply for_each_prefix in E3 as (b1 & b2 & Eb & -> & H3); [|apply backend_kind_ok].
      exists [tr_Gateway r], [], r1, r2, b1, b2. split_and!; try done. intros Hr. split; [done|]. split; [by apply H2|by apply H3].
    + intros [= <- <- <-]. exists [tr_Gateway r], [], r1, r2, [], (tr_Backends r). by split_and!.
  - intros [= <- <- <-]. exists [], [tr_Gateway r], [], (tr_Routes r), [], (tr_Backends r). split_and!; try done. by rewrite with_parts_nil.
Qed.

Lemma with_result_covers r gws routes backends s :
  covers (kd_key gateway_kind) [tr_Gateway r] gws → covers (kd_key route_kind) (tr_Routes r) routes →
  covers (kd_key backend_kind) (tr_Backends r) backends →
  with_result r (with_parts gws routes backends s) = with_result r s.
Proof.
  intros Hg Hr Hb. unfold with_result, with_parts, put_all. cbn [kd_put kd_get gateway_kind route_kind backend_kind
    st_ingresses st_gateways st_routes st_backends st_updates]. f_equal; by apply insert_all_covered.
Qed.

(** The finalizer does not matter for the translation. *)
Lemma Translate_set_finalizers fs ing : Translate (set_finalizers fs ing) = Translate ing.
Proof. done. Qed.

Definition finalized (key : string) (ing : Ingress) (s : store) : store :=
  mkStore (if has_finalizer ing then st_ingresses s
           else <[key := set_finalizers (in_Finalizers ing ++ [IngressFinalizerName]) ing]> (st_ingresses s))
    (st_gateways s) (st_routes s) (st_backends s) (st_updates s).

Definition announced (s : store) : store :=
  mkStore (st_ingresses s) (st_gateways s) (st_routes s) (st_backends s) (S <$> st_updates s).

Lemma add_finalizer_cases key ing oracle s s' o' res :
  add_finalizer key ing oracle s = (s', o', res) → (res = Some tt ∧ s' = finalized key ing s) ∨ (res = None ∧ s' = s).
Proof.
  unfold add_finalizer, update_ingress, call, ret, finalized. destruct (has_finalizer ing).
  - intros [= <- <- <-]. left. by destruct s.
  - destruct oracle as [|[|] oracle]; intros [= <- <- <-]; (by left) || by right.
Qed.

Lemma add_finalizer_succeeds key ing s : add_finalizer key ing [] s = (finalized key ing s, [], Some tt).
Proof. unfold add_finalizer, update_ingress, call, ret, finalized. destruct (has_finalizer ing); [by destruct s|done]. Qed.

Lemma Reconcile_succeeds cls key ing s :
  st_ingresses s !! key = Some ing → shouldProcessIngress cls ing = true → in_Deleted ing = false →
  Reconcile cls key [] s = (announced (with_result (Translate ing) (finalized key ing s)), [], Some tt).
Proof.
  intros Hk Hp Hd. unfold Reconcile, bind at 1, call. simpl. rewrite Hk, Hp, Hd. simpl.
  unfold bind. by rewrite add_finalizer_succeeds, apply_result_succeeds.
Qed.

(** The Ingress in the store after its finalizer was added. *)
Lemma finalized_ingress cls key ing s :
  st_ingresses s !! key = Some ing → shouldProcessIngress cls ing = true → in_Deleted ing = false →
  ∃ ing', st_ingresses (finalized key ing s) !! key = Some ing' ∧ shouldProcessIngress cls ing' = true ∧ in_Deleted ing' = false ∧
    Translate ing' = Translate ing ∧ has_finalizer ing' = true.
Proof.
  intros Hk Hp Hd. unfold finalized. simpl. destruct (has_finalizer ing) eqn:Hf; [by exists ing|].
  eexists. split; [apply lookup_insert_eq|]. split; [done|]. split; [done|]. split; [apply Translate_set_finalizers|].
  unfold has_finalizer. simpl. apply bool_decide_eq_true. apply elem_of_app. right. by apply list_elem_of_singleton.
Qed.

Lemma finalized_again key ing s : has_finalizer ing = true → finalized key ing s = s.
Proof. unfold finalized. intros ->. by destruct s. Qed.

(** What a run leaves: the whole translation, or a part of it. *)
Lemma Reconcile_cases cls key ing oracle s s1 o1 res :
  st_ingresses s !! key = Some ing → shouldProcessIngress cls ing = true → in_Deleted ing = false →
  Reconcile cls key oracle s = (s1, o1, res) →
  (res = Some tt ∧ s1 = announced (with_result (Translate ing) (finalized key ing s))) ∨
  (res = None ∧ s1 = s) ∨
  (res = None ∧ ∃ g r b, s1 = with_parts g r b (finalized key ing s) ∧
    g `prefix_of` [tr_Gateway (Translate ing)] ∧ r `prefix_of` tr_Routes (Translate ing) ∧ b `prefix_of` tr_Backends (Translate ing)).
Proof.
  intros Hk Hp Hd E. unfold Reconcile, bind at 1 in E. destruct (call _ oracle s) as [[s0 o0] [found|]] eqn:Ec.
  2: { right. left. unfold call in Ec. destruct oracle as [|[|] ?]; by simplify_eq. }
  assert (s0 = s ∧ found = Some ing) as [-> ->] by (unfold call in Ec; destruct oracle as [|[|] ?]; simplify_eq; by rewrite Hk).
  rewrite Hp, Hd in E. simpl in E. unfold bind in E. destruct (add_finalizer key ing o0 s) as [[s2 o2] r2] eqn:Ef.
  destruct (add_finalizer_cases _ _ _ _ _ _ _ Ef) as [[-> ->]|[-> ->]]; [|right; left; by simplify_eq].
  destruct (apply_result (Translate ing) o2 (finalized key ing s)) as [[s3 o3] r3] eqn:Ea.
  destruct (apply_result_prefix _ _ _ _ _ _ Ea) as (g1 & g2 & r1 & r2 & b1 & b2 & Eg & Er & Eb & -> & Hall).
  destruct r3 as [[]|].
  - left. destruct (Hall eq_refl) as (-> & -> & ->). rewrite app_nil_r in Eg, Er, Eb. unfold triggerConfigUpdate in E. injection E as <- _ <-.
    split; [done|]. unfold announced, with_result, with_parts. by rewrite Eg, Er, Eb.
  - right. right. injection E as <- _ <-. split; [done|]. exists g1, r1, b1. rewrite Eg, Er, Eb. split_and!; auto using prefix_app_r.
Qed.

(** ** Into the snapshot *)

(** Backends are filed under their own key. *)
Definition filed (s : store) : Prop := ∀ k b, st_backends s !! k = Some b → k = backend_key b.

(** The build context lists the routes and backends of the store. *)
Record listed (s : store) (bc : buildContext) : Prop := {
  listed_routes : bc_routes bc ≡ₚ (map_to_list (st_routes s)).*2;
  listed_backends : bc_backends bc ≡ₚ (map_to_list (st_backends s)).*2;
}.

Lemma insert_all_filed s r : filed s → filed (with_result r s).
Proof.
  intros Hs k b. unfold with_result, put_all. simpl. rewrite insert_all_lookup. destruct (last (filter _ (tr_Backends r))) as [x|] eqn:E; [|apply Hs].
  intros [= <-]. apply last_Some in E as [l El]. assert (x ∈ filter (λ x, kd_key backend_kind x = k) (tr_Backends r)) as Hx.
  { simpl. rewrite El. apply elem_of_app. right. by apply list_elem_of_singleton. }
  apply list_elem_of_filter in Hx as [Hk _]. by rewrite <- Hk.
Qed.

(** The backends of the context have different keys. *)
Lemma listed_keys s bc : filed s → listed s bc → NoDup (backend_key <$> bc_backends bc).
Proof.
  intros Hf Hl. rewrite (listed_backends _ _ Hl). rewrite <- list_fmap_compose.
  assert (compose backend_key snd <$> map_to_list (st_backends s) = fst <$> map_to_list (st_backends s)) as ->; [|apply NoDup_fst_map_to_list].
  apply list_fmap_ext. intros i [k b] Hi. simpl. symmetry. apply Hf. apply elem_of_map_to_list. by apply list_elem_of_lookup_2 in Hi.
Qed.

Lemma elem_of_listed {A} (m : gmap string A) l k x : l ≡ₚ (map_to_list m).*2 → m !! k = Some x → x ∈ l.
Proof. intros -> Hx. apply list_elem_of_fmap. exists (k, x). split; [done|]. by apply elem_of_map_to_list. Qed.

(** The endpoints of a backend in the map of the snapshot. *)
Lemma endpoints_of_backend fp bc b :
  NoDup (backend_key <$> bc_backends bc) → b ∈ bc_backends bc →
  (buildClusters fp bc).2 !! backend_key b = backend_endpoints fp bc b.
Proof.
  intros Hnd Hb. unfold buildClusters. simpl. rewrite (foldl_insert_lookup backend_key (backend_endpoints fp bc)) by done.
  destruct (head (filter (λ a, backend_key a = backend_key b) (bc_backends bc))) as [a|] eqn:E.
  - apply head_Some_elem_of, list_elem_of_filter in E as [Ek Ha].
    assert (a = b) as -> by (by apply (NoDup_key_inj backend_key (bc_backends bc))). by destruct (backend_endpoints fp bc b).
  - exfalso. assert (b ∈ filter (λ a, backend_key a = backend_key b) (bc_backends bc)) as Hin by (by apply list_elem_of_filter).
    destruct (filter _ (bc_backends bc)); [by apply not_elem_of_nil in Hin|done].
Qed.

(** A namespace that is its own default. *)
Lemma getNamespace_same n : getNamespace (Some n) n = n.
Proof. unfold getNamespace. simpl. by destruct (str_empty n). Qed.

(** From an Ingress to a snapshot: after a successful reconciliation, the
    build has for every path of every rule the route of the rule, with a rule
    for the path, and under the key of the backend of the path the endpoints of
    its service, local and federated. *)
Lemma ingress_in_snapshot cls key ing oracle s s1 o1 units fp bc i j rule paths path svc service :
  st_ingresses s !! key = Some ing → shouldProcessIngress cls ing = true → in_Deleted ing = false → filed s →
  Reconcile cls key oracle s = (s1, o1, Some tt) → listed s1 bc →
  in_Rules ing !! i = Some rule → ir_HTTP rule = Some paths → paths !! j = Some path → ib_Service (ip_Backend path) = Some svc →
  getService bc (in_Namespace ing) (is_Name svc) = Some service →
  let name := generateBackendName ing i j in
  let route := buildRoute units (translateRoute visit unmarshalHeaders ing rule i) in
  ∃ b eps, route ∈ buildRoutes units bc ∧
    Pb.ro_Rules route !! j = Some (buildRule units (in_Namespace ing) (translateRouteRule visit unmarshalHeaders ing path i j)) ∧
    b ∈ bc_backends bc ∧ Crd.k_Name b = name ∧ Crd.k_Namespace b = in_Namespace ing ∧
    resolveServiceEndpoints bc (Crd.mkServiceReference (is_Name svc) (Some (in_Namespace ing)) (getServicePort resolver ing svc)) (in_Namespace ing) = Some eps ∧
    (buildClusters fp bc).2 !! ns_key (in_Namespace ing) name = Some (eps ++ remote_endpoints fp (in_Namespace ing) (is_Name svc)).
Proof.
  intros Hk Hp Hd Hfiled E Hlist Hi Hpaths Hj Hsvc Hget name route'.
  assert (s1 = announced (with_result (Translate ing) (finalized key ing s))) as ->.
  { by destruct (Reconcile_cases cls key ing oracle s s1 o1 _ Hk Hp Hd E) as [[_ ?]|[[[=] _]|[[=] _]]]. }
  set (T := Translate ing) in *. set (s1 := announced _) in *.
  set (b := translateBackend ToUpper resolver ing (ip_Backend path) name).
  destruct (translateBackend_fields ToUpper resolver ing (ip_Backend path) name) as (B1 & B2 & B3). fold b in B1, B2, B3.
  assert (b ∈ tr_Backends T) as Hb.
  { apply (elem_of_backends ToUpper visit visit_order unmarshalHeaders unmarshalPages resolver ing b). left. rewrite B1. exact (backend_of_path ToUpper resolver ing i j rule paths path Hi Hpaths Hj). }
  assert (b ∈ bc_backends bc) as Hbc.
  { apply (elem_of_listed (st_backends s1) _ (backend_key b)); [apply (listed_backends _ _ Hlist)|].
    apply (insert_all_elem (kd_key backend_kind) _ (tr_Backends T) b Hb). intros y Hy Ey.
    assert (Crd.k_Namespace y = in_Namespace ing) as Hns by exact (backend_namespace ToUpper visit visit_order unmarshalHeaders unmarshalPages resolver ing y Hy).
    simpl in Ey. unfold ns_key in Ey. rewrite Hns, B2 in Ey. do 2 apply str_app_inj in Ey.
    by apply (backends_distinct ToUpper visit visit_order unmarshalHeaders unmarshalPages resolver ing b y). }
  set (route := translateRoute visit unmarshalHeaders ing rule i).
  assert (route ∈ bc_routes bc) as Hroute.
  { apply (elem_of_listed (st_routes s1) _ (kd_key route_kind route)); [apply (listed_routes _ _ Hlist)|].
    assert (route ∈ tr_Routes T) as Hin by exact (elem_of_routes ToUpper visit unmarshalHeaders unmarshalPages resolver ing i rule paths Hi Hpaths).
    apply (insert_all_elem (kd_key route_kind) _ (tr_Routes T) route Hin). intros y Hy Ey.
    assert (Crd.ro_Namespace y = in_Namespace ing) as Hns by exact (route_namespace ToUpper visit unmarshalHeaders unmarshalPages resolver ing y Hy).
    simpl in Ey. unfold ns_key in Ey. rewrite Hns in Ey. do 2 apply str_app_inj in Ey.
    by apply (routes_distinct ToUpper visit unmarshalHeaders unmarshalPages resolver ing route y). }
  assert (NoDup (backend_key <$> bc_backends bc)) as Hnd.
  { apply (listed_keys s1); [|done]. intros k x Hx. apply (insert_all_filed (finalized key ing s) T Hfiled k x Hx). }
  destruct (resolveServiceEndpoints bc (Crd.mkServiceReference (is_Name svc) (Some (in_Namespace ing)) (getServicePort resolver ing svc)) (in_Namespace ing)) as [eps|] eqn:Eeps.
  2: { exfalso. revert Eeps. unfold resolveServiceEndpoints. cbn [Crd.s_Namespace Crd.s_Name]. rewrite getNamespace_same, Hget. simpl. by destruct (target_port service _). }
  exists b, eps. split; [by apply list_elem_of_fmap_2|].
  split; [simpl; rewrite Hpaths; simpl; by rewrite list_lookup_fmap, list_lookup_imap, Hj|].
  split; [done|]. split; [done|]. split; [done|]. split; [done|].
  assert (ns_key (in_Namespace ing) name = backend_key b) as -> by (unfold backend_key; by rewrite B1, B2).
  rewrite endpoints_of_backend by done. unfold backend_endpoints. rewrite B3, Hsvc. rewrite B2. simpl. rewrite Eeps. simpl. by destruct (str_empty (in_Namespace ing)).
Qed.

End reconciler.

(** ** Retries *)

Section retries.
Context `{TextTables}.
Context (ToUpper : string → string).
Context (unmarshalHeaders : string → option (gmap string string)) (unmarshalPages : string → option (list Crd.CustomErrorPage)).

(** The keys of the translated resources depend on the Ingress only, not on
    the order of a map iteration or the Services of the cluster. *)
Lemma Translate_covers visit visit' resolver resolver' ing :
  (∀ V (m : gmap string V), range_order m (visit V m)) → (∀ V (m : gmap string V), range_order m (visit' V m)) →
  let T := Translate ToUpper visit unmarshalHeaders unmarshalPages resolver ing in
  let T' := Translate ToUpper visit' unmarshalHeaders unmarshalPages resolver' ing in
  covers (kd_key gateway_kind) [tr_Gateway T'] [tr_Gateway T] ∧ covers (kd_key route_kind) (tr_Routes T') (tr_Routes T) ∧
  covers (kd_key backend_kind) (tr_Backends T') (tr_Backends T).
Proof.
  intros Hv Hv' T T'. split; [|split].
  - intros x ->%list_elem_of_singleton. exists (tr_Gateway T'). split; [by apply list_elem_of_singleton|done].
  - intros x. unfold T, T', Translate. simpl. rewrite list_elem_of_omap. intros ([i rule] & Hi & E). simpl in E.
    exists (translateRoute visit' unmarshalHeaders ing rule i). destruct (ir_HTTP rule) as [paths|] eqn:Eh; [|done]. injection E as <-.
    split; [|done]. apply list_elem_of_omap. exists (i, rule). simpl. by rewrite Eh.
  - intros b Hb. assert (∀ b', Crd.k_Name b' = Crd.k_Name b → b' ∈ tr_Backends T' → ∃ y, y ∈ tr_Backends T' ∧ kd_key backend_kind y = kd_key backend_kind b) as Hkey.
    { intros b' En Hb'. exists b'. split; [done|]. simpl. rewrite En.
      by rewrite (backend_namespace ToUpper visit Hv _ _ _ _ _ Hb), (backend_namespace ToUpper visit' Hv' _ _ _ _ _ Hb'). }
    apply (elem_of_backends ToUpper visit Hv) in Hb as [Hb|(d & Ed & ->)].
    + destruct (backend_map_spec ToUpper resolver ing) as [Hok _].
      destruct (Hok _ b Hb) as (i & j & rule & paths & path & Hi & Hp & Hj & En & _).
      pose proof (backend_of_path ToUpper resolver' ing i j rule paths path Hi Hp Hj) as Hb'.
      destruct (translateBackend_fields ToUpper resolver' ing (ip_Backend path) (generateBackendName ing i j)) as (B1 & _).
      apply (Hkey (translateBackend ToUpper resolver' ing (ip_Backend path) (generateBackendName ing i j))); [by rewrite B1|].
      apply (elem_of_backends ToUpper visit' Hv'). left. by rewrite B1.
    + destruct (translateBackend_fields ToUpper resolver ing d (generateDefaultBackendName ing)) as (B1 & _).
      destruct (translateBackend_fields ToUpper resolver' ing d (generateDefaultBackendName ing)) as (B1' & _).
      apply (Hkey (translateBackend ToUpper resolver' ing d (generateDefaultBackendName ing))); [by rewrite B1, B1'|].
      apply (elem_of_backends ToUpper visit' Hv'). right. by exists d.
Qed.

(** C31: the reconciliation of an Ingress writes its translation, and retries
    converge. Whatever calls of the API server fail, the store holds a part of
    the translation and nothing else has changed; a later run without failures,
    in which the maps are visited in other orders and the Services may have
    changed, leaves the same resources as a first run without failures: the
    translation of that run on top of what was there before all runs. Only a
    run that succeeds announces an update to the agents. *)
Theorem reconcile_converges visit visit' getSvc getSvc' cls key ing oracle s s1 o1 res :
  (∀ V (m : gmap string V), range_order m (visit V m)) → (∀ V (m : gmap string V), range_order m (visit' V m)) →
  st_ingresses s !! key = Some ing → shouldProcessIngress cls ing = true → in_Deleted ing = false →
  Reconcile ToUpper visit unmarshalHeaders unmarshalPages getSvc cls key oracle s = (s1, o1, res) →
  let T := Translate ToUpper visit unmarshalHeaders unmarshalPages (Some (resolveServicePort getSvc)) ing in
  let T' := Translate ToUpper visit' unmarshalHeaders unmarshalPages (Some (resolveServicePort getSvc')) ing in
  let final := with_result T' (finalized key ing s) in
  (res = Some tt → s1 = announced (with_result T (finalized key ing s))) ∧
  (res = None → s1 = s ∨ ∃ g r b, s1 = with_parts g r b (finalized key ing s) ∧
    g `prefix_of` [tr_Gateway T] ∧ r `prefix_of` tr_Routes T ∧ b `prefix_of` tr_Backends T) ∧
  Reconcile ToUpper visit' unmarshalHeaders unmarshalPages getSvc' cls key [] s = (announced final, [], Some tt) ∧
  ∃ s2, Reconcile ToUpper visit' unmarshalHeaders unmarshalPages getSvc' cls key [] s1 = (s2, [], Some tt) ∧
    st_ingresses s2 = st_ingresses final ∧ st_gateways s2 = st_gateways final ∧ st_routes s2 = st_routes final ∧
    st_backends s2 = st_backends final ∧ st_updates s2 = S <$> st_updates s1.
Proof.
  intros Hv Hv' Hk Hp Hd E T T' final.
  pose proof (Reconcile_succeeds ToUpper visit' unmarshalHeaders unmarshalPages getSvc' cls key ing s Hk Hp Hd) as Hfirst. fold T' final in Hfirst.
  destruct (Translate_covers visit visit' (Some (resolveServicePort getSvc)) (Some (resolveServicePort getSvc')) ing Hv Hv') as (Cg & Cr & Cb).
  fold T T' in Cg, Cr, Cb.
  destruct (finalized_ingress ToUpper visit' unmarshalHeaders unmarshalPages getSvc' cls key ing s Hk Hp Hd) as (ing' & Hk' & Hp' & Hd' & Ht & Hf).
  assert (∀ g r b n, g `prefix_of` [tr_Gateway T] → r `prefix_of` tr_Routes T → b `prefix_of` tr_Backends T →
    let w := with_parts g r b (finalized key ing s) in
    let s' := mkStore (st_ingresses w) (st_gateways w) (st_routes w) (st_backends w) n in
    ∃ s2, Reconcile ToUpper visit' unmarshalHeaders unmarshalPages getSvc' cls key [] s' = (s2, [], Some tt) ∧
      st_ingresses s2 = st_ingresses final ∧ st_gateways s2 = st_gateways final ∧ st_routes s2 = st_routes final ∧
      st_backends s2 = st_backends final ∧ st_updates s2 = S <$> st_updates s') as Hagain.
  { intros g r b n [g2 Eg] [r2 Er] [b2 Eb] w s'. assert (st_ingresses s' = st_ingresses (finalized key ing s)) as Es' by done.
    rewrite <- Es' in Hk'. rewrite (Reconcile_succeeds ToUpper visit' unmarshalHeaders unmarshalPages getSvc' cls key ing' s' Hk' Hp' Hd'), finalized_again by done.
    rewrite Ht. fold T'. eexists. split; [done|].
    pose proof (with_result_covers T' g r b (finalized key ing s)) as Hw. rewrite Eg, Er, Eb in *. clear Eg Er Eb.
    specialize (Hw (covers_app_l _ _ _ _ Cg) (covers_app_l _ _ _ _ Cr) (covers_app_l _ _ _ _ Cb)). fold final w in Hw.
    split; [exact (f_equal st_ingresses Hw)|]. split; [exact (f_equal st_gateways Hw)|]. split; [exact (f_equal st_routes Hw)|].
    by split; [exact (f_equal st_backends Hw)|]. }
  destruct (Reconcile_cases ToUpper visit unmarshalHeaders unmarshalPages getSvc cls key ing oracle s s1 o1 res Hk Hp Hd E)
    as [[-> ->]|[[-> ->]|[-> (g & r & b & -> & Pg & Pr & Pb)]]].
  - split; [done|]. split; [done|]. split; [done|].
    exact (Hagain [tr_Gateway T] (tr_Routes T) (tr_Backends T) (S <$> st_updates s) (reflexivity _) (reflexivity _) (reflexivity _)).
  - split; [done|]. split; [by left|]. split; [done|]. eexists. split; [exact Hfirst|done].
  - split; [done|]. split; [right; by exists g, r, b|]. split; [done|].
    exact (Hagain g r b (st_updates s) Pg Pr Pb).
Qed.

End retries.

(** ** An example *)

#[local] Instance plain_texts : TextTables := {| ToLower := λ s, s; TrimSpace := λ s, s; ParseFloat := λ _, None |}.

Definition to_service (name : string) (port : Z) : IngressBackend := mkIngressBackend (Some (mkIngressServiceBackend name "" port)).

(** Two hosts, the first with two paths, and a default backend. *)
Definition shop_rules : list IngressRule :=
  [mkIngressRule "shop.example" (Some [mkHTTPIngressPath "/" (Some "Prefix"%string) (to_service "web" 80);
                                       mkHTTPIngressPath "/api" (Some "Exact"%string) (to_service "api" 8080)]);
   mkIngressRule "mail.example" (Some [mkHTTPIngressPath "/" None (to_service "mail" 25)])].

Definition shop_ingress (rules : list IngressRule) : Ingress :=
  mkIngress "shop" "prod" ∅ ∅ false [] (Some "novaedge"%string) (Some (to_service "fallback" 80)) [] rules.

Definition shop_store (rules : list IngressRule) : store := mkStore {[ "prod/shop"%string := shop_ingress rules ]} ∅ ∅ ∅ (Some 0%nat).

Definition upper (s : string) : string := s.
Definition no_headers (s : string) : option (gmap string string) := None.
Definition no_pages (s : string) : option (list Crd.CustomErrorPage) := None.
Definition api_service : Crd.Service := Crd.mkService "api" "prod" ∅ "10.0.0.7" [Crd.mkServicePort "http" 8080 (Crd.IsInt 9090) "TCP"].
Definition services_of (ns name : string) : option Crd.Service := if str_eqb name "api" then Some api_service else None.

Definition reconcile (oracle : list bool) (s : store) : store * list bool * option unit :=
  Reconcile upper in_order no_headers no_pages services_of "" "prod/shop" oracle s.

Lemma run_of_outcome oracle s o res : let r := reconcile oracle s in (r.1.2, r.2) = (o, res) → ∃ s1, reconcile oracle s = (s1, o, res).
Proof. destruct (reconcile oracle s) as [[s1 o1] res1]. intros r [= <- <-]. by exists s1. Qed.

Lemma filed_empty rules : filed (shop_store rules).
Proof. intros k b. unfold shop_store. simpl. by rewrite lookup_empty. Qed.

Lemma in_order_visits V (m : gmap string V) : range_order m (in_order V m).
Proof. exact (reflexivity (R:=Permutation) (map_to_list m)). Qed.

Lemma in_reverse_visits V (m : gmap string V) : range_order m (in_reverse V m).
Proof. apply reverse_Permutation. Qed.

(** The path [/api] of the first host. *)
Lemma ingress_paths_are_routed_witness :
  ∃ route r b, route ∈ tr_Routes (Translate upper in_order no_headers no_pages None (shop_ingress shop_rules)) ∧
    Crd.ro_Hostnames route = ["shop.example"%string] ∧ Crd.ro_Rules route !! 1%nat = Some r ∧
    Crd.b_Name <$> Crd.r_BackendRefs r = [Crd.k_Name b] ∧
    Crd.k_ServiceRef b = Some (Crd.mkServiceReference "api" (Some "prod"%string) 8080).
Proof.
  destruct (ingress_paths_are_routed upper in_order in_order_visits no_headers no_pages None (shop_ingress shop_rules) 0 1
    _ _ _ _ eq_refl eq_refl eq_refl eq_refl) as (route & r & b & H1 & _ & H2 & _ & H3 & _ & H4 & _ & _ & H5 & _).
  exists route, r, b. split; [exact H1|]. split; [exact H2|]. split; [exact H3|]. split; [exact H4|exact H5].
Defined.

(** The first run fails at the seventh call, when the second route is written,
    and the second visits the backends in the other order. *)
Lemma reconcile_converges_witness :
  let s := shop_store shop_rules in
  ∃ s1, reconcile [true; true; true; true; true; true; true; false] s = (s1, [], None) ∧
    ∃ s2, Reconcile upper in_reverse no_headers no_pages services_of "" "prod/shop" [] s1 = (s2, [], Some tt) ∧
      st_backends s2 = st_backends (Reconcile upper in_reverse no_headers no_pages services_of "" "prod/shop" [] s).1.1.
Proof.
  intros s. destruct (run_of_outcome [true; true; true; true; true; true; true; false] s [] None) as [s1 E]; [vm_compute; reflexivity|].
  exists s1. split; [exact E|].
  destruct (reconcile_converges upper no_headers no_pages in_order in_reverse services_of services_of "" "prod/shop"
    (shop_ingress shop_rules) _ s s1 [] None in_order_visits in_reverse_visits eq_refl eq_refl eq_refl E) as (_ & _ & Hf & s2 & H2 & _ & _ & _ & Hb & _).
  exists s2. split; [exact H2|]. rewrite Hb, Hf. reflexivity.
Defined.

(** The snapshot of a cluster with the reconciled resources and one endpoint
    of the service [api]. *)
Definition shop_context (s : store) : buildContext :=
  context (map_to_list (st_gateways s)).*2 (map_to_list (st_routes s)).*2 (map_to_list (st_backends s)).*2 []
    {[ "prod/api"%string := api_service ]} ∅
    {[ "prod/api"%string := [Crd.mkEndpointSlice "prod" ∅ [Crd.mkEndpoint ["10.1.0.1"%string] None None None None None]
         [Crd.mkEndpointPort (Some "http"%string) (Some 9090)]] ]}.

Lemma shop_listed s : listed s (shop_context s).
Proof. by split. Qed.

(** ** What the translation leaves out *)

(** The default backend of an Ingress becomes a backend to which no route of
    the translation refers. *)
Example default_backend_is_unreachable :
  let T := Translate upper in_order no_headers no_pages None (shop_ingress shop_rules) in
  let referred := mbind (λ r, mbind (λ u, Crd.b_Name <$> Crd.r_BackendRefs u) (Crd.ro_Rules r)) (tr_Routes T) in
  In "shop-backend-default"%string (Crd.k_Name <$> tr_Backends T) ∧ "shop-backend-default"%string ∉ referred.
Proof. split; [vm_compute; tauto|]. apply (bool_decide_unpack _). vm_compute. exact I. Qed.

(** A rule removed from an Ingress: its route stays in the cluster. *)
Example removed_rule_stays :
  let s1 := (reconcile [] (shop_store shop_rules)).1.1 in
  let edited := mkStore {[ "prod/shop"%string := shop_ingress (take 1 shop_rules) ]} (st_gateways s1) (st_routes s1) (st_backends s1) (st_updates s1) in
  let '(s2, _, res) := reconcile [] edited in
  res = Some tt ∧ Crd.ro_Hostnames <$> st_routes s2 !! "prod/shop-route-1"%string = Some ["mail.example"%string].
Proof. vm_compute. done. Qed.

(** A named port whose Service cannot be read becomes port 80. *)
Example unresolved_port_is_80 :
  let T := Translate upper in_order no_headers no_pages (Some (resolveServicePort (λ _ _, None)))
    (shop_ingress [mkIngressRule "" (Some [mkHTTPIngressPath "/" None (mkIngressBackend (Some (mkIngressServiceBackend "api" "http" 0)))])]) in
  (λ b, Crd.s_Port <$> Crd.k_ServiceRef b) <$> tr_Backends T = [Some 80; Some 80].
Proof. vm_compute. reflexivity. Qed.

(** The host names of the gateway follow the iteration of a map: two runs on
    the same Ingress write different gateways, and every write of an owned
    resource starts another reconciliation. *)
Example gateway_hostnames_follow_the_map :
  let hosts visit := mbind Crd.l_Hostnames (Crd.g_Listeners (tr_Gateway (Translate upper visit no_headers no_pages None (shop_ingress shop_rules)))) in
  hosts in_order ≠ hosts in_reverse.
Proof. vm_compute. discriminate. Qed.
