(* ===== verification/GatewayApi.v ===== *)
(** * The Gateway API translators

    [src/internal/controller/gatewayapi_translator.go] and
    [l4route_translator.go] translate Gateway API resources into the resources
    of NovaEdge. The records of [Gw] hold the fields of the Gateway API that
    the program reads. Annotations and owner references of the results are
    left out; an error is named by its sentinel. *)

From S2P Require Import Prelude GoStrings Float64 GoLib BuilderTypes.
Open Scope Z_scope.

Module Gw.

Record BackendRef := mkBackendRef {
  br_Kind : option string; br_Namespace : option string; br_Name : string; br_Port : option Z; br_Weight : option Z }.
Record ParentRef := mkParentRef {
  pr_Kind : option string; pr_Namespace : option string; pr_Name : string; pr_SectionName : option string }.

Record SecretRef := mkSecretRef { se_Name : string; se_Namespace : option string }.
Record Listener := mkListener {
  l_Name : string; l_Port : Z; l_Protocol : string; l_Hostname : option string; l_TLS : option (list SecretRef) (* CertificateRefs *) }.

Record HTTPHeaderFilter := mkHTTPHeaderFilter { hf_Set : list HTTPHeader; hf_Add : list HTTPHeader; hf_Remove : list string }.
Record HTTPPathModifier := mkHTTPPathModifier {
  pm_Type : string; pm_ReplaceFullPath : option string; pm_ReplacePrefixMatch : option string }.
Record RequestRedirect := mkRequestRedirect {
  rr_Scheme : option string; rr_Hostname : option string; rr_Path : option HTTPPathModifier; rr_Port : option Z; rr_StatusCode : option Z }.
Record URLRewrite := mkURLRewrite { ur_Hostname : option string; ur_Path : option HTTPPathModifier }.
Record RequestMirror := mkRequestMirror { rm_BackendRef : BackendRef; rm_Percent : option Z }.
Record HTTPRouteFilter := mkHTTPRouteFilter {
  f_Type : string; f_RequestHeaderModifier : option HTTPHeaderFilter; f_ResponseHeaderModifier : option HTTPHeaderFilter;
  f_RequestRedirect : option RequestRedirect; f_URLRewrite : option URLRewrite; f_RequestMirror : option RequestMirror }.

Record HTTPPathMatch := mkHTTPPathMatch { pa_Type : option string; pa_Value : option string }.
(** Header and query parameter matches. *)
Record HTTPHeaderMatch := mkHTTPHeaderMatch { ha_Type : option string; ha_Name : string; ha_Value : string }.
Record HTTPRouteMatch := mkHTTPRouteMatch {
  m_Path : option HTTPPathMatch; m_Headers : list HTTPHeaderMatch; m_QueryParams : list HTTPHeaderMatch; m_Method : option string }.
Record HTTPBackendRef := mkHTTPBackendRef { hb_Ref : BackendRef; hb_Filters : list HTTPRouteFilter }.
Record HTTPRouteRule := mkHTTPRouteRule {
  r_Matches : list HTTPRouteMatch; r_Filters : list HTTPRouteFilter; r_BackendRefs : list HTTPBackendRef }.

Record GRPCMethodMatch := mkGRPCMethodMatch { gm_Type : option string; gm_Service : option string; gm_Method : option string }.
Record GRPCRouteMatch := mkGRPCRouteMatch { gx_Method : option GRPCMethodMatch; gx_Headers : list HTTPHeaderMatch }.
Record GRPCRouteRule := mkGRPCRouteRule { gr_Matches : list GRPCRouteMatch; gr_BackendRefs : list BackendRef }.

(** A condition of a status, without its times. *)
Record Condition := mkCondition { cd_Type : string; cd_Status : bool; cd_Reason : string }.
Record ParentStatus := mkParentStatus { ps_ParentRef : ParentRef; ps_Conditions : list Condition }.
Record ListenerStatus := mkListenerStatus {
  ls_Name : string; ls_SupportedKind : string; ls_Conditions : list Condition; ls_AttachedRoutes : Z }.

Record Gateway := mkGateway {
  g_Name : string; g_Namespace : string; g_Labels : gmap string string; g_Deleted : bool; g_Finalizers : list string;
  g_ClassName : string; g_Listeners : list Listener; g_Conditions : list Condition; g_ListenerStatuses : list ListenerStatus }.
(** A route of any kind: [R] is the type of its rules. *)
Record Route (R : Type) := mkRoute {
  ro_Name : string; ro_Namespace : string; ro_Labels : gmap string string; ro_Deleted : bool; ro_Finalizers : list string;
  ro_ParentRefs : list ParentRef; ro_Hostnames : list string; ro_Rules : list R; ro_Parents : list ParentStatus }.
Arguments mkRoute {R}. Arguments ro_Name {R}. Arguments ro_Namespace {R}. Arguments ro_Labels {R}. Arguments ro_Deleted {R}.
Arguments ro_Finalizers {R}. Arguments ro_ParentRefs {R}. Arguments ro_Hostnames {R}. Arguments ro_Rules {R}. Arguments ro_Parents {R}.
Definition HTTPRoute := Route HTTPRouteRule.
Definition GRPCRoute := Route GRPCRouteRule.
(** The rules of a TCPRoute or a TLSRoute are lists of backends. *)
Definition L4Route := Route (list BackendRef).

End Gw.

(** ** Results *)

Inductive gw_error :=
  | GatewayClassError (class : string)
  | UnsupportedProtocol (protocol : string)
  | ListenerError (name : string)
  | RuleHasNoBackendRefs
  | UnsupportedPathMatchType
  | UnsupportedHeaderMatchType
  | UnsupportedQueryParamMatchType
  | FilterHasNoConfiguration (type : string)
  | UnsupportedFilterType (type : string)
  | L4RuleHasNoBackendRefs (i : nat).

(** A result, an error, or a panic. *)
Inductive result (A : Type) := Ok (x : A) | Err (e : gw_error) | Panic.
Arguments Ok {A}. Arguments Err {A}. Arguments Panic {A}.

Definition rbind {A B} (r : result A) (f : A → result B) : result B :=
  match r with Ok x => f x | Err e => Err e | Panic => Panic end.
#[local] Notation "'let?' x := m 'in' k" := (rbind m (λ x, k)) (at level 200, x binder, m at level 100, k at level 200).

(** A loop that appends results and ends with the first error; [i] counts. *)
Fixpoint each_from {A B} (f : nat → A → result B) (i : nat) (l : list A) : result (list B) :=
  match l with [] => Ok [] | x :: l => let? y := f i x in let? ys := each_from f (S i) l in Ok (y :: ys) end.
Definition each {A B} (f : A → result B) (l : list A) : result (list B) := each_from (λ _, f) 0 l.

(** ** Gateways *)

Definition NovaEdgeGatewayClassName : string := "novaedge".

Definition translateListener (l : Gw.Listener) (namespace : string) : result Crd.Listener :=
  let protocol := Gw.l_Protocol l in
  if str_eqb protocol "HTTP" || str_eqb protocol "HTTPS" || str_eqb protocol "TLS" || str_eqb protocol "TCP" then
    let listener tls := Crd.mkListener (Gw.l_Name l) (Gw.l_Port l) protocol tls ∅ None
      (match Gw.l_Hostname l with Some h => [h] | None => [] end) false None false None [] 0 in
    match Gw.l_TLS l with
    | None => Ok (listener None)
    | Some [] => Err (ListenerError (Gw.l_Name l))
    | Some (certRef :: _) =>
        Ok (listener (Some (Crd.mkTLSConfig (Some (Crd.mkSecretReference (Gw.se_Name certRef) (default namespace (Gw.se_Namespace certRef)))) None "" [])))
    end
  else Err (UnsupportedProtocol protocol).

Definition TranslateGatewayToProxyGateway (gw : Gw.Gateway) : result Crd.ProxyGateway :=
  if negb (str_eqb (Gw.g_ClassName gw) NovaEdgeGatewayClassName) then Err (GatewayClassError (Gw.g_ClassName gw))
  else
    let? listeners := each (λ l, translateListener l (Gw.g_Namespace gw)) (Gw.g_Listeners gw) in
    Ok (Crd.mkProxyGateway (Gw.g_Name gw) (Gw.g_Namespace gw) "" "" listeners [] None None None (Gw.g_Labels gw) None None).

(** ** Filters *)

Definition empty_filter (type : string) : Crd.HTTPRouteFilter := Crd.mkHTTPRouteFilter type [] [] None None [] [] [] None None.
Definition copy_headers (l : list HTTPHeader) : list HTTPHeader := (λ h, mkHTTPHeader (hh_Name h) (hh_Value h)) <$> l.

Definition translateRequestHeaderModifierFilter (f : Gw.HTTPRouteFilter) : result Crd.HTTPRouteFilter :=
  match Gw.f_RequestHeaderModifier f with
  | None => Err (FilterHasNoConfiguration (Gw.f_Type f))
  | Some m =>
      let type := if (0 <? length (Gw.hf_Add m))%nat then "AddHeader"%string else ""%string in
      let type := if (0 <? length (Gw.hf_Set m))%nat then "AddHeader"%string else type in
      let type := if (0 <? length (Gw.hf_Remove m))%nat && str_empty type then "RemoveHeader"%string else type in
      let type := if str_empty type then "AddHeader"%string else type in
      Ok (Crd.mkHTTPRouteFilter type (copy_headers (Gw.hf_Add m) ++ copy_headers (Gw.hf_Set m)) (Gw.hf_Remove m) None None [] [] [] None None)
  end.

Definition translateResponseHeaderModifierFilter (f : Gw.HTTPRouteFilter) : result Crd.HTTPRouteFilter :=
  match Gw.f_ResponseHeaderModifier f with
  | None => Err (FilterHasNoConfiguration (Gw.f_Type f))
  | Some m => Ok (Crd.mkHTTPRouteFilter "ResponseAddHeader" [] [] None None (copy_headers (Gw.hf_Add m)) (Gw.hf_Remove m) (copy_headers (Gw.hf_Set m)) None None)
  end.

Definition resolvePathModifier (pathMod : option Gw.HTTPPathModifier) : option string :=
  match pathMod with
  | None => None
  | Some p =>
      match (if str_eqb (Gw.pm_Type p) "ReplaceFullPath" then Gw.pm_ReplaceFullPath p else None) with
      | Some path => Some path
      | None => if str_eqb (Gw.pm_Type p) "ReplacePrefixMatch" then Gw.pm_ReplacePrefixMatch p else None
      end
  end.

Definition translateRequestRedirectFilter (f : Gw.HTTPRouteFilter) : result Crd.HTTPRouteFilter :=
  match Gw.f_RequestRedirect f with
  | None => Err (FilterHasNoConfiguration (Gw.f_Type f))
  | Some r =>
      let url := default "http"%string (Gw.rr_Scheme r) +:+ "://" +:+ default ""%string (Gw.rr_Hostname r) +:+
        match Gw.rr_Port r with Some p => ":" +:+ format_d p | None => "" end in
      Ok (Crd.mkHTTPRouteFilter "RequestRedirect" [] []
        (match Gw.rr_Scheme r, Gw.rr_Hostname r, Gw.rr_Port r with None, None, None => None | _, _, _ => Some url end)
        (resolvePathModifier (Gw.rr_Path r)) [] [] [] None None)
  end.

Definition translateURLRewriteFilter (f : Gw.HTTPRouteFilter) : result Crd.HTTPRouteFilter :=
  match Gw.f_URLRewrite f with
  | None => Err (FilterHasNoConfiguration (Gw.f_Type f))
  | Some u =>
      Ok (Crd.mkHTTPRouteFilter "URLRewrite" (match Gw.ur_Hostname u with Some h => [mkHTTPHeader "Host" h] | None => [] end) [] None
        (resolvePathModifier (Gw.ur_Path u)) [] [] [] None None)
  end.

Definition translateRequestMirrorFilter (f : Gw.HTTPRouteFilter) : result Crd.HTTPRouteFilter :=
  match Gw.f_RequestMirror f with
  | None => Err (FilterHasNoConfiguration (Gw.f_Type f))
  | Some m =>
      Ok (Crd.mkHTTPRouteFilter "RequestMirror" [] [] None None [] [] []
        (Some (Crd.mkBackendRef (Gw.br_Name (Gw.rm_BackendRef m)) (Some (default ""%string (Gw.br_Namespace (Gw.rm_BackendRef m)))) None))
        (Gw.rm_Percent m))
  end.

Definition translateHTTPRouteFilter (f : Gw.HTTPRouteFilter) : result Crd.HTTPRouteFilter :=
  let t := Gw.f_Type f in
  if str_eqb t "RequestHeaderModifier" then translateRequestHeaderModifierFilter f
  else if str_eqb t "ResponseHeaderModifier" then translateResponseHeaderModifierFilter f
  else if str_eqb t "RequestRedirect" then translateRequestRedirectFilter f
  else if str_eqb t "URLRewrite" then translateURLRewriteFilter f
  else if str_eqb t "RequestMirror" then translateRequestMirrorFilter f
  else Err (UnsupportedFilterType t).

(** ** HTTP routes *)

Definition translate_header_type (e : gw_error) (t : option string) : result string :=
  match t with
  | None => Ok "Exact"%string
  | Some t => if str_eqb t "Exact" || str_eqb t "RegularExpression" then Ok t else Err e
  end.
Definition translate_header (e : gw_error) (h : Gw.HTTPHeaderMatch) : result Crd.HTTPHeaderMatch :=
  let? t := translate_header_type e (Gw.ha_Type h) in Ok (Crd.mkHTTPHeaderMatch t (Gw.ha_Name h) (Gw.ha_Value h)).

Definition translate_path (p : Gw.HTTPPathMatch) : result Crd.HTTPPathMatch :=
  match Gw.pa_Value p with
  | None => Panic
  | Some value =>
      let t := default "PathPrefix"%string (Gw.pa_Type p) in
      if str_eqb t "Exact" || str_eqb t "PathPrefix" || str_eqb t "RegularExpression" then Ok (Crd.mkHTTPPathMatch t value)
      else Err UnsupportedPathMatchType
  end.

Definition translateHTTPRouteMatch (m : Gw.HTTPRouteMatch) : result Crd.HTTPRouteMatch :=
  let? path := match Gw.m_Path m with Some p => let? p := translate_path p in Ok (Some p) | None => Ok None end in
  let? headers := each (translate_header UnsupportedHeaderMatchType) (Gw.m_Headers m) in
  let? params := each (translate_header UnsupportedQueryParamMatchType) (Gw.m_QueryParams m) in
  Ok (Crd.mkHTTPRouteMatch path headers params (Gw.m_Method m)).

Definition ref_namespace (namespace : string) (br : Gw.BackendRef) : string := default namespace (Gw.br_Namespace br).
Definition ref_port (br : Gw.BackendRef) : Z := default 80 (Gw.br_Port br).
(** A reference under the name of its Service, as in HTTP, TCP and TLS routes. *)
Definition translate_ref (namespace : string) (br : Gw.BackendRef) : Crd.BackendRef :=
  Crd.mkBackendRef (Gw.br_Name br) (Some (ref_namespace namespace br)) (Some (default 1 (Gw.br_Weight br))).

Definition bare_crd_rule (matches : list Crd.HTTPRouteMatch) (filters : list Crd.HTTPRouteFilter) (refs : list Crd.BackendRef) : Crd.HTTPRouteRule :=
  Crd.mkHTTPRouteRule matches filters refs None None None None None None.

Definition translateHTTPRouteRule (rule : Gw.HTTPRouteRule) (namespace : string) : result Crd.HTTPRouteRule :=
  let? matches := each translateHTTPRouteMatch (Gw.r_Matches rule) in
  let? filters := each translateHTTPRouteFilter (Gw.r_Filters rule) in
  match Gw.r_BackendRefs rule with
  | [] => Err RuleHasNoBackendRefs
  | refs =>
      let? more := each (λ b, each translateHTTPRouteFilter (Gw.hb_Filters b)) refs in
      Ok (bare_crd_rule matches (filters ++ mjoin more) ((λ b, translate_ref namespace (Gw.hb_Ref b)) <$> refs))
  end.

Definition proxy_route {R} (r : Gw.Route R) (name : string) (hostnames : list string) (rules : list Crd.HTTPRouteRule) : Crd.ProxyRoute :=
  Crd.mkProxyRoute name (Gw.ro_Namespace r) hostnames rules None None "" (Gw.ro_Labels r).

Definition TranslateHTTPRouteToProxyRoute (r : Gw.HTTPRoute) : result Crd.ProxyRoute :=
  let? rules := each (λ rule, translateHTTPRouteRule rule (Gw.ro_Namespace r)) (Gw.ro_Rules r) in
  Ok (proxy_route r (Gw.ro_Name r) (Gw.ro_Hostnames r) rules).

(** ** gRPC routes *)

Definition GenerateProxyBackendName (serviceName namespace : string) (port : Z) : string :=
  namespace +:+ "-" +:+ serviceName +:+ "-" +:+ format_d port.

Definition grpc_header : Crd.HTTPHeaderMatch := Crd.mkHTTPHeaderMatch "Exact" "Content-Type" "application/grpc".
Definition translate_grpc_header (h : Gw.HTTPHeaderMatch) : Crd.HTTPHeaderMatch :=
  Crd.mkHTTPHeaderMatch (match Gw.ha_Type h with Some t => if str_eqb t "RegularExpression" then t else "Exact"%string | None => "Exact"%string end)
    (Gw.ha_Name h) (Gw.ha_Value h).
Definition grpc_path (m : Gw.GRPCMethodMatch) : Crd.HTTPPathMatch :=
  Crd.mkHTTPPathMatch
    (match Gw.gm_Type m with Some t => if str_eqb t "RegularExpression" then "RegularExpression"%string else "Exact"%string | None => "Exact"%string end)
    ("/" +:+ default ""%string (Gw.gm_Service m) +:+ match Gw.gm_Method m with Some x => "/" +:+ x | None => "" end).
Definition translate_grpc_match (m : Gw.GRPCRouteMatch) : Crd.HTTPRouteMatch :=
  Crd.mkHTTPRouteMatch (grpc_path <$> Gw.gx_Method m) ((translate_grpc_header <$> Gw.gx_Headers m) ++ [grpc_header]) [] (Some "POST"%string).

Definition grpc_ref (namespace : string) (br : Gw.BackendRef) : Crd.BackendRef :=
  let ns := ref_namespace namespace br in
  Crd.mkBackendRef (GenerateProxyBackendName (Gw.br_Name br) ns (ref_port br)) (Some ns) (Some (default 1 (Gw.br_Weight br))).

Definition translateGRPCRouteRule (rule : Gw.GRPCRouteRule) (namespace : string) : result Crd.HTTPRouteRule :=
  let matches := match Gw.gr_Matches rule with
    | [] => [Crd.mkHTTPRouteMatch None [grpc_header] [] (Some "POST"%string)]
    | ms => translate_grpc_match <$> ms
    end in
  match Gw.gr_BackendRefs rule with
  | [] => Err RuleHasNoBackendRefs
  | refs => Ok (bare_crd_rule matches [] (grpc_ref namespace <$> refs))
  end.

Definition TranslateGRPCRouteToProxyRoute (r : Gw.GRPCRoute) : result Crd.ProxyRoute :=
  let? rules := each (λ rule, translateGRPCRouteRule rule (Gw.ro_Namespace r)) (Gw.ro_Rules r) in
  Ok (proxy_route r ("grpc-" +:+ Gw.ro_Name r) (Gw.ro_Hostnames r) rules).

(** ** TCP and TLS routes *)

Definition translate_l4_rule (namespace : string) (i : nat) (refs : list Gw.BackendRef) : result Crd.HTTPRouteRule :=
  match refs with [] => Err (L4RuleHasNoBackendRefs i) | _ => Ok (bare_crd_rule [] [] (translate_ref namespace <$> refs)) end.

Definition TranslateTCPRouteToProxyRoute (r : Gw.L4Route) : result Crd.ProxyRoute :=
  let? rules := each_from (translate_l4_rule (Gw.ro_Namespace r)) 0 (Gw.ro_Rules r) in
  Ok (proxy_route r (Gw.ro_Name r) [] rules).

Definition TranslateTLSRouteToProxyRoute (r : Gw.L4Route) : result Crd.ProxyRoute :=
  let? rules := each_from (translate_l4_rule (Gw.ro_Namespace r)) 0 (Gw.ro_Rules r) in
  Ok (proxy_route r (Gw.ro_Name r) (Gw.ro_Hostnames r) rules).
