(* ===== verification/GatewayReconcile.v ===== *)
(** * The Gateway API reconcilers

    [gateway_controller.go], [gatewayclass_controller.go],
    [httproute_controller.go], [grpcroute_controller.go] and
    [l4route_reconciler.go] of [src/internal/controller] keep the translations
    of Gateway API resources in the cluster and report conditions. The result
    of a reconciliation says whether it asks for another one. The update of a
    condition list ([meta.SetStatusCondition]) and the orders of range loops
    are arguments. *)

From S2P Require Import Prelude GoStrings Float64 GoLib BuilderTypes BuilderConvert SnapshotBuilder KubeApi GatewayApi.
Open Scope Z_scope.

Record GatewayClass := mkGatewayClass { gc_Name : string; gc_ControllerName : string; gc_Conditions : list Gw.Condition }.

Record gstore := mkGStore {
  gs_classes : gmap string GatewayClass;
  gs_gateways : gmap string Gw.Gateway;
  gs_http : gmap string Gw.HTTPRoute;
  gs_grpc : gmap string Gw.GRPCRoute;
  gs_l4 : gmap string Gw.L4Route; (* the routes of the kind at hand, TCPRoute or TLSRoute *)
  gs_services : gmap string Crd.Service;
  gs_proxyGateways : gmap string Crd.ProxyGateway;
  gs_proxyRoutes : gmap string Crd.ProxyRoute;
  gs_proxyBackends : gmap string Crd.ProxyBackend;
  gs_updates : nat;
}.

#[local] Notation api := (api gstore).
#[local] Notation kind := (kind (S := gstore)).
#[local] Notation "'let*' x := m 'in' k" := (bind m (λ x, k)) (at level 200, x binder, m at level 100, k at level 200).

Definition class_kind : kind GatewayClass := mkKind _ gc_Name gs_classes
  (λ m s, mkGStore m (gs_gateways s) (gs_http s) (gs_grpc s) (gs_l4 s) (gs_services s) (gs_proxyGateways s) (gs_proxyRoutes s) (gs_proxyBackends s) (gs_updates s)).
Definition gw_kind : kind Gw.Gateway := mkKind _ (λ g, ns_key (Gw.g_Namespace g) (Gw.g_Name g)) gs_gateways
  (λ m s, mkGStore (gs_classes s) m (gs_http s) (gs_grpc s) (gs_l4 s) (gs_services s) (gs_proxyGateways s) (gs_proxyRoutes s) (gs_proxyBackends s) (gs_updates s)).
Definition http_kind : kind Gw.HTTPRoute := mkKind _ (λ r, ns_key (Gw.ro_Namespace r) (Gw.ro_Name r)) gs_http
  (λ m s, mkGStore (gs_classes s) (gs_gateways s) m (gs_grpc s) (gs_l4 s) (gs_services s) (gs_proxyGateways s) (gs_proxyRoutes s) (gs_proxyBackends s) (gs_updates s)).
Definition grpc_kind : kind Gw.GRPCRoute := mkKind _ (λ r, ns_key (Gw.ro_Namespace r) (Gw.ro_Name r)) gs_grpc
  (λ m s, mkGStore (gs_classes s) (gs_gateways s) (gs_http s) m (gs_l4 s) (gs_services s) (gs_proxyGateways s) (gs_proxyRoutes s) (gs_proxyBackends s) (gs_updates s)).
Definition l4_kind : kind Gw.L4Route := mkKind _ (λ r, ns_key (Gw.ro_Namespace r) (Gw.ro_Name r)) gs_l4
  (λ m s, mkGStore (gs_classes s) (gs_gateways s) (gs_http s) (gs_grpc s) m (gs_services s) (gs_proxyGateways s) (gs_proxyRoutes s) (gs_proxyBackends s) (gs_updates s)).
Definition service_kind : kind Crd.Service := mkKind _ (λ v, ns_key (Crd.sv_Namespace v) (Crd.sv_Name v)) gs_services
  (λ m s, mkGStore (gs_classes s) (gs_gateways s) (gs_http s) (gs_grpc s) (gs_l4 s) m (gs_proxyGateways s) (gs_proxyRoutes s) (gs_proxyBackends s) (gs_updates s)).
Definition proxyGateway_kind : kind Crd.ProxyGateway := mkKind _ (λ g, ns_key (Crd.g_Namespace g) (Crd.g_Name g)) gs_proxyGateways
  (λ m s, mkGStore (gs_classes s) (gs_gateways s) (gs_http s) (gs_grpc s) (gs_l4 s) (gs_services s) m (gs_proxyRoutes s) (gs_proxyBackends s) (gs_updates s)).
Definition proxyRoute_kind : kind Crd.ProxyRoute := mkKind _ (λ r, ns_key (Crd.ro_Namespace r) (Crd.ro_Name r)) gs_proxyRoutes
  (λ m s, mkGStore (gs_classes s) (gs_gateways s) (gs_http s) (gs_grpc s) (gs_l4 s) (gs_services s) (gs_proxyGateways s) m (gs_proxyBackends s) (gs_updates s)).
Definition proxyBackend_kind : kind Crd.ProxyBackend := mkKind _ (λ b, ns_key (Crd.k_Namespace b) (Crd.k_Name b)) gs_proxyBackends
  (λ m s, mkGStore (gs_classes s) (gs_gateways s) (gs_http s) (gs_grpc s) (gs_l4 s) (gs_services s) (gs_proxyGateways s) (gs_proxyRoutes s) m (gs_updates s)).

Definition trigger_update : api unit := λ oracle s,
  (mkGStore (gs_classes s) (gs_gateways s) (gs_http s) (gs_grpc s) (gs_l4 s) (gs_services s) (gs_proxyGateways s) (gs_proxyRoutes s) (gs_proxyBackends s) (S (gs_updates s)), oracle, Some tt).

Section reconcilers.
Context (SetStatusCondition : list Gw.Condition → Gw.Condition → list Gw.Condition) (visit : visiting).

Definition set_parents {R} (parents : list Gw.ParentStatus) (r : Gw.Route R) : Gw.Route R :=
  Gw.mkRoute (Gw.ro_Name r) (Gw.ro_Namespace r) (Gw.ro_Labels r) (Gw.ro_Deleted r) (Gw.ro_Finalizers r) (Gw.ro_ParentRefs r)
    (Gw.ro_Hostnames r) (Gw.ro_Rules r) parents.
Definition set_route_finalizers {R} (fs : list string) (r : Gw.Route R) : Gw.Route R :=
  Gw.mkRoute (Gw.ro_Name r) (Gw.ro_Namespace r) (Gw.ro_Labels r) (Gw.ro_Deleted r) fs (Gw.ro_ParentRefs r)
    (Gw.ro_Hostnames r) (Gw.ro_Rules r) (Gw.ro_Parents r).
Definition set_gateway_finalizers (fs : list string) (g : Gw.Gateway) : Gw.Gateway :=
  Gw.mkGateway (Gw.g_Name g) (Gw.g_Namespace g) (Gw.g_Labels g) (Gw.g_Deleted g) fs (Gw.g_ClassName g) (Gw.g_Listeners g)
    (Gw.g_Conditions g) (Gw.g_ListenerStatuses g).
Definition set_gateway_status (conds : list Gw.Condition) (ls : list Gw.ListenerStatus) (g : Gw.Gateway) : Gw.Gateway :=
  Gw.mkGateway (Gw.g_Name g) (Gw.g_Namespace g) (Gw.g_Labels g) (Gw.g_Deleted g) (Gw.g_Finalizers g) (Gw.g_ClassName g) (Gw.g_Listeners g) conds ls.
Definition add_condition (c : Gw.Condition) (p : Gw.ParentStatus) : Gw.ParentStatus :=
  Gw.mkParentStatus (Gw.ps_ParentRef p) (SetStatusCondition (Gw.ps_Conditions p) c).

(** [handleResourceDeletion]: the proxy resource is found under the key of the
    source. *)
Definition handleResourceDeletion {A P} (k : kind A) (p : kind P) (key : string) (finalizer : string) (finalizers : list string)
    (set : list string → A) : api bool :=
  let* found := get p key in
  let* _ := match found with Some _ => remove p key | None => ret tt end in
  let* _ := if bool_decide (finalizer ∈ finalizers) then update k key (set (filter (λ f, f ≠ finalizer) finalizers)) else ret tt in
  ret false.

(** ** Backends of routes *)

Definition is_service (br : Gw.BackendRef) : bool := match Gw.br_Kind br with None => true | Some k => str_eqb k "Service" end.

Definition collect_refs (namespace : string) (refs : list Gw.BackendRef) : gmap string Gw.BackendRef :=
  foldl (λ m br, if is_service br then <[GenerateProxyBackendName (Gw.br_Name br) (ref_namespace namespace br) (ref_port br) := br]> m else m) ∅ refs.

Definition service_backend (name namespace : string) (br : Gw.BackendRef) (labels : gmap string string) : Crd.ProxyBackend :=
  Crd.mkProxyBackend name namespace (Some (Crd.mkServiceReference (Gw.br_Name br) None (ref_port br))) "RoundRobin" 0 0 None None None None None None
    "" None None None labels.

(** The body of the loop over the collected references; an update keeps the
    labels of the backend. *)
Definition reconcile_backend (namespace : string) (nb : string * Gw.BackendRef) : api unit :=
  let '(name, br) := nb in
  let ns := ref_namespace namespace br in
  let* svc := get service_kind (ns_key ns (Gw.br_Name br)) in
  match svc with
  | None => fail
  | Some _ =>
      let* existing := get proxyBackend_kind (ns_key ns name) in
      update proxyBackend_kind (ns_key ns name) (service_backend name ns br (match existing with Some b => Crd.k_Labels b | None => ∅ end))
  end.

Definition reconcile_refs (namespace : string) (refs : list Gw.BackendRef) : api unit :=
  for_each (reconcile_backend namespace) (visit _ (collect_refs namespace refs)).
Definition reconcileBackends (r : Gw.HTTPRoute) : api unit :=
  reconcile_refs (Gw.ro_Namespace r) (mbind (λ rule, Gw.hb_Ref <$> Gw.r_BackendRefs rule) (Gw.ro_Rules r)).
Definition reconcileGRPCBackends (r : Gw.GRPCRoute) : api unit :=
  reconcile_refs (Gw.ro_Namespace r) (mbind Gw.gr_BackendRefs (Gw.ro_Rules r)).

(** ** HTTP routes *)

Definition accepted (status : bool) (reason : string) : Gw.Condition := Gw.mkCondition "Accepted" status reason.

(** The status of one parent, and whether it is a gateway of NovaEdge. *)
Definition parent_status (namespace : string) (pr : Gw.ParentRef) : api (option Gw.ParentStatus * bool) :=
  let status c := Some (Gw.mkParentStatus pr [c]) in
  if negb (str_eqb (default "Gateway"%string (Gw.pr_Kind pr)) "Gateway") then ret (status (accepted false "NotAllowedByListeners"), false)
  else
    let* found := attempt (get gw_kind (ns_key (default namespace (Gw.pr_Namespace pr)) (Gw.pr_Name pr))) in
    ret match found with
    | None => (status (accepted false "GatewayError"), false)
    | Some None => (status (accepted false "GatewayNotFound"), false)
    | Some (Some gw) =>
        if negb (str_eqb (Gw.g_ClassName gw) NovaEdgeGatewayClassName) then (None, false)
        else if match Gw.pr_SectionName pr with Some sn => existsb (λ l, str_eqb (Gw.l_Name l) sn) (Gw.g_Listeners gw) | None => true end
        then (status (accepted true "Accepted"), true)
        else (status (accepted false "NoMatchingParent"), true)
    end.

Fixpoint parent_statuses (namespace : string) (prs : list Gw.ParentRef) : api (list Gw.ParentStatus * bool) :=
  match prs with
  | [] => ret ([], false)
  | pr :: prs =>
      let* p := parent_status namespace pr in
      let* rest := parent_statuses namespace prs in
      ret (match p.1 with Some st => st :: rest.1 | None => rest.1 end, p.2 || rest.2)
  end.
Definition buildParentStatuses (r : Gw.HTTPRoute) : api (list Gw.ParentStatus * bool) := parent_statuses (Gw.ro_Namespace r) (Gw.ro_ParentRefs r).

Definition Reconcile_HTTPRoute (key : string) : api bool :=
  let* found := get http_kind key in
  match found with
  | None => ret false
  | Some r =>
      if Gw.ro_Deleted r then
        handleResourceDeletion http_kind proxyRoute_kind key "novaedge.io/httproute-finalizer" (Gw.ro_Finalizers r) (λ fs, set_route_finalizers fs r)
      else
        let* parents := buildParentStatuses r in
        if negb parents.2 then ret false
        else match TranslateHTTPRouteToProxyRoute r with
        | Panic => fail
        | Err _ =>
            let* _ := update http_kind key (set_parents (add_condition (accepted false "TranslationFailed") <$> parents.1) r) in ret true
        | Ok route =>
            let* resolved := attempt (reconcileBackends r) in
            let* _ := reconcileResource proxyRoute_kind route in
            let refs := match resolved with Some _ => Gw.mkCondition "ResolvedRefs" true "ResolvedRefs" | None => Gw.mkCondition "ResolvedRefs" false "BackendNotFound" end in
            let* _ := update http_kind key (set_parents (add_condition refs <$> parents.1) r) in
            let* _ := trigger_update in ret false
        end
  end.

(** ** gRPC routes *)

Fixpoint has_novaedge_gateway (namespace : string) (prs : list Gw.ParentRef) : api bool :=
  match prs with
  | [] => ret false
  | pr :: prs =>
      if negb (str_eqb (default "Gateway"%string (Gw.pr_Kind pr)) "Gateway") then has_novaedge_gateway namespace prs
      else
        let* found := attempt (get gw_kind (ns_key (default namespace (Gw.pr_Namespace pr)) (Gw.pr_Name pr))) in
        match found with
        | Some (Some gw) => if str_eqb (Gw.g_ClassName gw) NovaEdgeGatewayClassName then ret true else has_novaedge_gateway namespace prs
        | _ => has_novaedge_gateway namespace prs
        end
  end.

Definition updateGRPCRouteStatus (key : string) (r : Gw.GRPCRoute) (c : Gw.Condition) : api bool :=
  let* _ := update grpc_kind key (set_parents (add_condition c <$> Gw.ro_Parents r) r) in ret true.

Definition handleGRPCRouteDeletion (key : string) (r : Gw.GRPCRoute) : api bool :=
  let pkey := ns_key (Gw.ro_Namespace r) ("grpc-" +:+ Gw.ro_Name r) in
  let* found := get proxyRoute_kind pkey in
  let* _ := match found with Some _ => remove proxyRoute_kind pkey | None => ret tt end in
  let finalizer := "novaedge.io/grpcroute-finalizer"%string in
  let* _ := if bool_decide (finalizer ∈ Gw.ro_Finalizers r)
    then update grpc_kind key (set_route_finalizers (filter (λ f, f ≠ finalizer) (Gw.ro_Finalizers r)) r) else ret tt in
  ret false.

Definition grpc_parents (r : Gw.GRPCRoute) : list Gw.ParentStatus :=
  (λ pr, Gw.mkParentStatus pr [accepted true "Accepted"; Gw.mkCondition "ResolvedRefs" true "ResolvedRefs"]) <$> Gw.ro_ParentRefs r.

Definition Reconcile_GRPCRoute (key : string) : api bool :=
  let* found := get grpc_kind key in
  match found with
  | None => ret false
  | Some r =>
      if Gw.ro_Deleted r then handleGRPCRouteDeletion key r
      else
        let* ours := has_novaedge_gateway (Gw.ro_Namespace r) (Gw.ro_ParentRefs r) in
        if negb ours then ret false
        else match TranslateGRPCRouteToProxyRoute r with
        | Panic => fail
        | Err _ => updateGRPCRouteStatus key r (accepted false "Invalid")
        | Ok route =>
            let* resolved := attempt (reconcileGRPCBackends r) in
            match resolved with
            | None => updateGRPCRouteStatus key r (accepted false "BackendNotFound")
            | Some _ =>
                let* existing := get proxyRoute_kind (kd_key proxyRoute_kind route) in
                let* written := attempt (update proxyRoute_kind (kd_key proxyRoute_kind route) route) in
                match written with
                | None => updateGRPCRouteStatus key r (accepted false (match existing with None => "CreationFailed" | Some _ => "UpdateFailed" end))
                | Some _ =>
                    let* _ := update grpc_kind key (set_parents (grpc_parents r) r) in
                    let* _ := trigger_update in ret false
                end
            end
        end
  end.

(** ** TCP and TLS routes *)

Definition updateL4RouteStatus (key : string) (r : Gw.L4Route) (c : Gw.Condition) : api bool :=
  let parents := match Gw.ro_Parents r with [] => [Gw.mkParentStatus (Gw.mkParentRef None None "" None) []] | l => l end in
  let parents := match parents with p :: l => add_condition c p :: l | [] => [] end in
  let* _ := update l4_kind key (set_parents parents r) in
  let* _ := trigger_update in ret false.

Definition handleL4RouteDeletion (key : string) : api bool :=
  let* found := get proxyRoute_kind key in
  let* _ := match found with Some _ => remove proxyRoute_kind key | None => ret tt end in
  let* _ := trigger_update in ret false.

(** [reconcileL4Controller] and [reconcileL4Route]; [translate] is the
    translator of the kind of route. *)
Definition reconcileL4Route (translate : Gw.L4Route → result Crd.ProxyRoute) (key : string) : api bool :=
  let* found := get l4_kind key in
  match found with
  | None => ret false
  | Some r =>
      if Gw.ro_Deleted r then handleL4RouteDeletion key
      else match translate r with
      | Panic => fail
      | Err _ => updateL4RouteStatus key r (accepted false "Invalid")
      | Ok route =>
          let* _ := reconcileResource proxyRoute_kind route in
          updateL4RouteStatus key r (accepted true "Accepted")
      end
  end.

(** ** Gateways *)

Definition isProtocolSupported (protocol : string) : bool :=
  str_eqb protocol "HTTP" || str_eqb protocol "HTTPS" || str_eqb protocol "TLS" || str_eqb protocol "TCP".
Definition supportedKindsForProtocol (protocol : string) : string :=
  if str_eqb protocol "TLS" then "TLSRoute" else if str_eqb protocol "TCP" then "TCPRoute" else if str_eqb protocol "UDP" then "UDPRoute" else "HTTPRoute".

(** The maps of the loop: the protocols and the host names seen on a port, and
    the errors by listener. *)
Record listener_scan := mkScan {
  sc_protocols : gmap Z (gset string); sc_hostnames : gmap Z (gset string); sc_statuses : list Gw.ListenerStatus; sc_errors : gmap string string }.

Definition listener_hostname (l : Gw.Listener) : string := default "*"%string (Gw.l_Hostname l).

Definition listener_conditions (supported conflict : bool) : list Gw.Condition :=
  [if supported && negb conflict then accepted true "Accepted"
   else if conflict then Gw.mkCondition "Conflicted" true "HostnameConflict"
   else accepted false "UnsupportedProtocol";
   if supported && negb conflict then Gw.mkCondition "Programmed" true "Programmed" else Gw.mkCondition "Programmed" false "Invalid";
   Gw.mkCondition "ResolvedRefs" true "ResolvedRefs"].

Definition scan_listener (sc : listener_scan) (l : Gw.Listener) : listener_scan :=
  let port := Gw.l_Port l in
  let protocols := default ∅ (sc_protocols sc !! port) in
  let hostnames := default ∅ (sc_hostnames sc !! port) in
  let c1 := negb (bool_decide (protocols = ∅)) && negb (bool_decide (Gw.l_Protocol l ∈ protocols)) in
  let errors := if c1 then <[Gw.l_Name l := "protocol conflict on port"%string]> (sc_errors sc) else sc_errors sc in
  let c2 := bool_decide (listener_hostname l ∈ hostnames) in
  let errors := if c2 then <[Gw.l_Name l := "hostname conflict on port"%string]> errors else errors in
  mkScan (<[port := {[ Gw.l_Protocol l ]} ∪ protocols]> (sc_protocols sc)) (<[port := {[ listener_hostname l ]} ∪ hostnames]> (sc_hostnames sc))
    (sc_statuses sc ++ [Gw.mkListenerStatus (Gw.l_Name l) (supportedKindsForProtocol (Gw.l_Protocol l))
      (listener_conditions (isProtocolSupported (Gw.l_Protocol l)) (c1 || c2)) 0]) errors.

Definition scan_listeners (ls : list Gw.Listener) : listener_scan := foldl scan_listener (mkScan ∅ ∅ [] ∅) ls.
Definition validateListeners (g : Gw.Gateway) : list Gw.ListenerStatus * gmap string string :=
  let sc := scan_listeners (Gw.g_Listeners g) in (sc_statuses sc, sc_errors sc).

(** A route counts when one of its parents names the gateway, and the listener
    if it names one; only routes of the namespace of the gateway are listed. *)
Definition attached (gatewayName listenerName : string) (r : Gw.HTTPRoute) : bool :=
  existsb (λ pr, str_eqb (Gw.pr_Name pr) gatewayName &&
    match Gw.pr_SectionName pr with Some sn => str_empty sn || str_eqb sn listenerName | None => true end) (Gw.ro_ParentRefs r).
Definition countAttachedRoutes (gatewayName gatewayNamespace listenerName : string) : api Z :=
  let* listed := attempt (call (λ s, (s, gs_http s))) in
  ret match listed with
  | None => 0
  | Some m => wrap32 (Z.of_nat (length (filter (λ r, Gw.ro_Namespace r = gatewayNamespace ∧ attached gatewayName listenerName r = true) (map_to_list m).*2)))
  end.

Fixpoint count_listeners (g : Gw.Gateway) (ls : list Gw.ListenerStatus) : api (list Gw.ListenerStatus) :=
  match ls with
  | [] => ret []
  | l :: ls =>
      let* n := countAttachedRoutes (Gw.g_Name g) (Gw.g_Namespace g) (Gw.ls_Name l) in
      let* rest := count_listeners g ls in
      ret (Gw.mkListenerStatus (Gw.ls_Name l) (Gw.ls_SupportedKind l) (Gw.ls_Conditions l) n :: rest)
  end.

Definition updateGatewayStatus (key : string) (g : Gw.Gateway) (c : Gw.Condition) : api bool :=
  let* _ := update gw_kind key (set_gateway_status (SetStatusCondition (Gw.g_Conditions g) c) (Gw.g_ListenerStatuses g) g) in ret true.

Definition Reconcile_Gateway (className key : string) : api bool :=
  let* found := get gw_kind key in
  match found with
  | None => ret false
  | Some g =>
      let expected := if str_empty className then NovaEdgeGatewayClassName else className in
      if negb (str_eqb (Gw.g_ClassName g) expected) then ret false
      else
        let* class := get class_kind expected in
        match class with
        | None => updateGatewayStatus key g (accepted false "Invalid")
        | Some _ =>
            if Gw.g_Deleted g then
              handleResourceDeletion gw_kind proxyGateway_kind key "novaedge.io/gateway-finalizer" (Gw.g_Finalizers g) (λ fs, set_gateway_finalizers fs g)
            else
              let '(statuses, errors) := validateListeners g in
              match TranslateGatewayToProxyGateway g with
              | Panic => fail
              | Err _ => updateGatewayStatus key g (accepted false "Invalid")
              | Ok pg =>
                  let* existing := get proxyGateway_kind (kd_key proxyGateway_kind pg) in
                  let* written := attempt (update proxyGateway_kind (kd_key proxyGateway_kind pg) pg) in
                  match written with
                  | None => updateGatewayStatus key g (accepted false (match existing with None => "CreationFailed" | Some _ => "UpdateFailed" end))
                  | Some _ =>
                      let programmed := if bool_decide (errors = ∅) then Gw.mkCondition "Programmed" true "Programmed"
                        else Gw.mkCondition "Programmed" false "AddressNotAssigned" in
                      let* statuses := count_listeners g statuses in
                      let* _ := update gw_kind key (set_gateway_status
                        (SetStatusCondition (SetStatusCondition (Gw.g_Conditions g) (accepted true "Accepted")) programmed) statuses g) in
                      let* _ := trigger_update in ret false
                  end
              end
        end
  end.

(** ** Gateway classes *)

Definition NovaEdgeControllerName : string := "novaedge.io/gateway-controller".
Definition Reconcile_GatewayClass (key : string) : api bool :=
  let* found := get class_kind key in
  match found with
  | None => ret false
  | Some c =>
      if negb (str_eqb (gc_ControllerName c) NovaEdgeControllerName) then ret false
      else
        let conds := SetStatusCondition (SetStatusCondition (gc_Conditions c) (accepted true "Accepted")) (Gw.mkCondition "SupportedVersion" true "SupportedVersion") in
        let* _ := update class_kind key (mkGatewayClass (gc_Name c) (gc_ControllerName c) conds) in ret false
  end.

End reconcilers.
