(* ===== verification/Dataplane.v ===== *)
(** * From a snapshot to the dataplane

    [src/internal/dataplane/translator.go]: the agent turns every snapshot into
    one request for the dataplane process. Enumerations of the snapshot are
    numbers, as on the wire; those of the request are inductive types. Go's
    conversions between integer types keep the low bits. The gRPC call is an
    argument of [Sync]. Nil elements of repeated fields do not occur: they
    cannot be encoded. *)

From S2P Require Import Prelude GoStrings Float64 GoLib BuilderTypes.
Open Scope Z_scope.

(** ** Messages of the dataplane *)

Module Dp.

Inductive GatewayProtocol := GW_UNSPECIFIED | GW_HTTP | GW_HTTPS | GW_HTTP3 | GW_TCP | GW_UDP.
Inductive PathMatchType := PATH_UNSPECIFIED | PATH_PREFIX | PATH_EXACT | PATH_REGEX.
Inductive LBAlgorithm :=
  LB_UNSPECIFIED | LB_ROUND_ROBIN | LB_LEAST_CONN | LB_P2C | LB_EWMA | LB_RING_HASH | LB_MAGLEV | LB_RANDOM | LB_SOURCE_HASH | LB_STICKY.
Inductive L4Protocol := L4_UNSPECIFIED | L4_TCP | L4_UDP | L4_TLS_PASSTHROUGH.
Inductive PolicyType :=
  POLICY_UNSPECIFIED | POLICY_RATE_LIMIT | POLICY_JWT | POLICY_BASIC_AUTH | POLICY_FORWARD_AUTH | POLICY_OAUTH2 | POLICY_WAF
  | POLICY_CORS | POLICY_IP_FILTER | POLICY_SECURITY_HEADERS.
Inductive OperationStatus := STATUS_UNSPECIFIED | STATUS_OK | STATUS_ERROR | STATUS_NOOP.

Record TLSConfig := mkTLSConfig { CertPem : string; KeyPem : string; CaPem : string; MinVersion : string; InsecureSkipVerify : bool }.
Record ProxyProtocolConfig := mkProxyProtocolConfig { pp_Enabled : bool; pp_Version : Z }.
Record GatewayConfig := mkGatewayConfig {
  g_Name : string; g_BindAddress : string; g_Port : Z; g_Protocol : GatewayProtocol; g_TlsConfig : option TLSConfig;
  g_ProxyProtocol : option ProxyProtocolConfig; g_Hostnames : list string; g_MaxRequestBodyBytes : Z }.

Record PathMatch := mkPathMatch { pa_MatchType : PathMatchType; pa_Value : string }.
Record HeaderMatch := mkHeaderMatch { ha_Name : string; ha_Value : string; ha_IsRegex : bool }.
Record BackendRef := mkBackendRef { b_ClusterName : string; b_Weight : Z }.
Record RetryPolicy := mkRetryPolicy { re_MaxRetries : Z; re_PerTryTimeoutMs : Z; re_RetryOn : list string; re_BackoffBaseMs : Z }.
Record RouteConfig := mkRouteConfig {
  r_Name : string; r_Hostnames : list string; r_PathMatch : option PathMatch; r_HeaderMatches : list HeaderMatch;
  r_BackendRefs : list BackendRef; r_MiddlewareRefs : list string; r_TimeoutMs : Z; r_Retry : option RetryPolicy;
  r_Methods : list string; r_RewritePath : string; r_AddHeaders : gmap string string; r_MirrorCluster : string; r_MirrorPercent : Z }.

Record Endpoint := mkEndpoint { e_Ip : string; e_Port : Z; e_Weight : Z; e_Healthy : bool }.
Record HealthCheckConfig := mkHealthCheckConfig {
  hc_IntervalMs : Z; hc_TimeoutMs : Z; hc_HealthyThreshold : Z; hc_UnhealthyThreshold : Z; hc_HttpPath : string }.
Record CircuitBreakerConfig := mkCircuitBreakerConfig {
  cb_MaxConnections : Z; cb_MaxPendingRequests : Z; cb_MaxRequests : Z; cb_MaxRetries : Z }.
Record ConnectionPoolConfig := mkConnectionPoolConfig { cp_MaxConnections : Z; cp_MaxIdle : Z; cp_IdleTimeoutMs : Z; cp_ConnectTimeoutMs : Z }.
Record OutlierDetectionConfig := mkOutlierDetectionConfig {
  od_IntervalMs : Z; od_Consecutive5xxThreshold : Z; od_BaseEjectionDurationMs : Z; od_MaxEjectionPercent : Z;
  od_SuccessRateMinHosts : Z; od_SuccessRateMinRequests : Z; od_SuccessRateStdevFactor : float64 }.
Record ClusterConfig := mkClusterConfig {
  k_Name : string; k_Endpoints : list Endpoint; k_LbAlgorithm : LBAlgorithm; k_HealthCheck : option HealthCheckConfig;
  k_CircuitBreaker : option CircuitBreakerConfig; k_ConnectionPool : option ConnectionPoolConfig; k_BackendTls : option TLSConfig;
  k_ConnectTimeoutMs : Z; k_SessionAffinity : option Pb.SessionAffinityConfig; k_OutlierDetection : option OutlierDetectionConfig;
  k_SlowStart : option (Z * float64); k_Protocol : string; k_UpstreamProxyProtocol : option (bool * Z) }.

Record L4ListenerConfig := mkL4ListenerConfig {
  l4_Name : string; l4_BindAddress : string; l4_Port : Z; l4_Protocol : L4Protocol; l4_BackendRefs : list BackendRef;
  l4_IdleTimeoutMs : Z; l4_ConnectTimeoutMs : Z }.

(** The field [config] of a policy: one of nine messages. *)
Inductive PolicyBody :=
  | RateLimit (requestsPerSecond burst : Z) (key : string)
  | Jwt (issuer : string) (audiences : list string) (jwksUri headerName headerPrefix : string) (allowedAlgorithms : list string)
  | BasicAuth (realm htpasswd : string) (stripAuthorization : bool)
  | ForwardAuth (address : string) (requestHeaders responseHeaders : list string) (timeoutMs : Z)
  | Oauth2 (issuerUrl clientId clientSecret redirectUrl : string) (scopes : list string) (sessionSecret : string)
  | Waf (enabled : bool) (mode : string) (paranoiaLevel anomalyThreshold : Z) (ruleExclusions : list string) (maxBodySize : Z)
  | Cors (origins methods headers exposeHeaders : list string) (maxAgeSeconds : Z) (allowCredentials : bool)
  | IpFilter (action : string) (cidrs : list string) (sourceHeader : string)
  | SecurityHeaders (csp xFrameOptions : string) (xContentTypeOptions : bool) (sts referrerPolicy permissionsPolicy : string).

Record PolicyConfig := mkPolicyConfig { p_Name : string; p_PolicyType : PolicyType; p_Config : option PolicyBody }.

Record MeshConfig := mkMeshConfig {
  mc_Enabled : bool; mc_MtlsMode : string; mc_SpiffeId : string; mc_InterceptPorts : list Z; mc_CaCertPem : string;
  mc_CertPem : string; mc_KeyPem : string; mc_TrustDomain : string }.
Record SLATarget := mkSLATarget { sl_MaxLatencyMs : Z; sl_MaxJitterMs : Z; sl_MaxPacketLossPct : float64 }.
Record WANLinkConfig := mkWANLinkConfig {
  w_Name : string; w_Interface : string; w_Provider : string; w_Priority : Z; w_Gateway : string; w_SlaTarget : option SLATarget }.

Record ApplyConfigRequest := mkApplyConfigRequest {
  Version : string; Gateways : list GatewayConfig; Routes : list RouteConfig; Clusters : list ClusterConfig;
  L4Listeners : list L4ListenerConfig; Policies : list PolicyConfig; MeshConfig_ : option MeshConfig; WanLinks : list WANLinkConfig }.
Record ApplyConfigResponse := mkApplyConfigResponse { rs_Status : OperationStatus; rs_Message : string; rs_AppliedVersion : string }.

End Dp.

(** ** Integers *)

Definition safeUint64 (v : Z) : Z := if decide (v < 0) then 0 else v mod 2 ^ 64.
Definition safeInt32ToUint32 (v : Z) : Z := if decide (v < 0) then 0 else v mod 2 ^ 32.
Definition uint32 (v : Z) : Z := v mod 2 ^ 32.
Definition uint64 (v : Z) : Z := v mod 2 ^ 64.

(** ** Gateways *)

Definition defaultBindAddress : string := "0.0.0.0".
Definition bind_address (addr : string) : string := if str_empty addr then defaultBindAddress else addr.

Definition translateGatewayProtocol (proto : Z) : Dp.GatewayProtocol :=
  match proto with
  | 1 => Dp.GW_HTTP | 2 => Dp.GW_HTTPS | 3 => Dp.GW_HTTP3 | 4 => Dp.GW_TCP | 6 => Dp.GW_UDP
  | _ => Dp.GW_UNSPECIFIED
  end.

Definition translateTLS (t : Pb.TLSConfig) : Dp.TLSConfig :=
  Dp.mkTLSConfig (Pb.Cert t) (Pb.Key t) (Pb.CaCert t) (Pb.MinVersion t) false.

Definition translateListener (gw : Pb.Gateway) (lis : Pb.Listener) : Dp.GatewayConfig :=
  Dp.mkGatewayConfig (Pb.g_Name gw +:+ "/" +:+ Pb.l_Name lis) (bind_address (Pb.l_BindAddress lis)) (uint32 (Pb.l_Port lis))
    (translateGatewayProtocol (Pb.l_Protocol lis)) (translateTLS <$> Pb.l_Tls lis)
    ((λ p, Dp.mkProxyProtocolConfig (Pb.pp_Enabled p) (Pb.pp_Version p)) <$> Pb.l_ProxyProtocol lis) (Pb.l_Hostnames lis)
    (if decide (0 < Pb.l_MaxRequestBodyBytes lis) then uint64 (Pb.l_MaxRequestBodyBytes lis) else 0).

Definition translateGateways (gateways : list Pb.Gateway) : list Dp.GatewayConfig :=
  gw ← gateways; translateListener gw <$> Pb.g_Listeners gw.

(** ** Routes *)

Definition translatePathMatchType (t : Z) : Dp.PathMatchType :=
  match t with 1 => Dp.PATH_EXACT | 2 => Dp.PATH_PREFIX | 3 => Dp.PATH_REGEX | _ => Dp.PATH_UNSPECIFIED end.

(** [applyRouteFilters]: the first rewrite and the first filter that adds headers. *)
Definition apply_filter (acc : string * gmap string string) (f : Pb.RouteFilter) : string * gmap string string :=
  let '(rewrite, headers) := acc in
  (if (Pb.f_Type f =? 4) && negb (str_empty (Pb.f_RewritePath f)) && str_empty rewrite then Pb.f_RewritePath f else rewrite,
   if (Pb.f_Type f =? 1) && negb (length (Pb.f_AddHeaders f) =? 0)%nat && (size headers =? 0)%nat
   then foldl (λ m h, <[hh_Name h := hh_Value h]> m) ∅ (Pb.f_AddHeaders f) else headers).
Definition applyRouteFilters (filters : list Pb.RouteFilter) : string * gmap string string := foldl apply_filter (""%string, ∅) filters.

Definition route_name (rt : string) (ruleIdx matchIdx : nat) (several : bool) : string :=
  rt +:+ "/rule-" +:+ format_d (Z.of_nat ruleIdx) +:+ (if several then "/match-" +:+ format_d (Z.of_nat matchIdx) else "").

Definition translateBackendRef (br : Pb.BackendRef) : Dp.BackendRef := Dp.mkBackendRef (Pb.b_Name br) (uint32 (Pb.b_Weight br)).
Definition translateRetry (r : Pb.RetryConfig) : Dp.RetryPolicy :=
  Dp.mkRetryPolicy (uint32 (Pb.re_MaxRetries r)) (safeUint64 (Pb.re_PerTryTimeoutMs r)) (Pb.re_RetryOn r) (safeUint64 (Pb.re_BackoffBaseMs r)).

(** One iteration of the loop over the matches; [None] stands for the match of
    a rule without matches. *)
Definition translateMatch (rt : Pb.Route) (ruleIdx : nat) (rule : Pb.RouteRule) (middlewareRefs : list string) (several : bool)
    (matchIdx : nat) (m : option Pb.RouteMatch) : Dp.RouteConfig :=
  let '(rewrite, headers) := applyRouteFilters (Pb.r_Filters rule) in
  let mirror := match Pb.r_MirrorBackend rule with Some b => Pb.b_Name b | None => ""%string end in
  Dp.mkRouteConfig (route_name (Pb.ro_Name rt) ruleIdx matchIdx several) (Pb.ro_Hostnames rt)
    (m ← m; p ← Pb.m_Path m; Some (Dp.mkPathMatch (translatePathMatchType (Pb.pa_Type p)) (Pb.pa_Value p)))
    (match m with Some m => (λ h, Dp.mkHeaderMatch (Pb.ha_Name h) (Pb.ha_Value h) false) <$> Pb.m_Headers m | None => [] end)
    (translateBackendRef <$> Pb.r_BackendRefs rule) middlewareRefs
    (match Pb.r_Limits rule with Some l => if decide (0 < Pb.rl_RequestTimeoutMs l) then safeUint64 (Pb.rl_RequestTimeoutMs l) else 0 | None => 0 end)
    (translateRetry <$> Pb.r_Retry rule)
    (match m with Some m => if str_empty (Pb.m_Method m) then [] else [Pb.m_Method m] | None => [] end)
    rewrite headers mirror
    (if str_empty mirror then 0 else if decide (0 < Pb.r_MirrorPercent rule) then uint32 (Pb.r_MirrorPercent rule) else 100).

Definition translateRouteRule (rt : Pb.Route) (ruleIdx : nat) (rule : Pb.RouteRule) (middlewareRefs : list string) : list Dp.RouteConfig :=
  let matches := match Pb.r_Matches rule with [] => [None] | ms => Some <$> ms end in
  imap (translateMatch rt ruleIdx rule middlewareRefs (bool_decide (1 < length matches)%nat)) matches.

Definition translateRoute (rt : Pb.Route) : list Dp.RouteConfig :=
  let middlewareRefs := match Pb.ro_Pipeline rt with Some l => Pb.mw_Name <$> l | None => [] end in
  mjoin (imap (λ i rule, translateRouteRule rt i rule middlewareRefs) (Pb.ro_Rules rt)).

Definition translateRoutes (routes : list Pb.Route) : list Dp.RouteConfig := rt ← routes; translateRoute rt.

(** ** Clusters *)

Definition translateLBAlgorithm (policy : Z) : Dp.LBAlgorithm :=
  match policy with
  | 1 => Dp.LB_ROUND_ROBIN | 2 => Dp.LB_P2C | 3 => Dp.LB_EWMA | 4 => Dp.LB_RING_HASH | 5 => Dp.LB_MAGLEV | 6 => Dp.LB_LEAST_CONN
  | 7 => Dp.LB_SOURCE_HASH | 8 => Dp.LB_STICKY | _ => Dp.LB_ROUND_ROBIN
  end.

Definition translateEndpoint (ep : Pb.Endpoint) : Dp.Endpoint :=
  let weight := uint32 (Pb.e_Weight ep) in
  Dp.mkEndpoint (Pb.e_Address ep) (uint32 (Pb.e_Port ep)) (if decide (weight = 0) then 1 else weight) (Pb.e_Ready ep).

Definition translateHealthCheck (hc : Pb.HealthCheck) : Dp.HealthCheckConfig :=
  Dp.mkHealthCheckConfig (safeUint64 (Pb.hc_IntervalMs hc)) (safeUint64 (Pb.hc_TimeoutMs hc)) (uint32 (Pb.hc_HealthyThreshold hc))
    (uint32 (Pb.hc_UnhealthyThreshold hc)) (Pb.hc_HttpPath hc).
Definition translateCircuitBreaker (cb : Pb.CircuitBreaker) : Dp.CircuitBreakerConfig :=
  Dp.mkCircuitBreakerConfig (uint32 (Pb.cb_MaxConnections cb)) (uint32 (Pb.cb_MaxPendingRequests cb)) (uint32 (Pb.cb_MaxRequests cb))
    (uint32 (Pb.cb_MaxRetries cb)).
Definition translateConnectionPool (connectTimeoutMs : Z) (pool : Pb.ConnectionPool) : Dp.ConnectionPoolConfig :=
  Dp.mkConnectionPoolConfig (uint32 (Pb.cp_MaxConnsPerHost pool)) (uint32 (Pb.cp_MaxIdleConnsPerHost pool))
    (safeUint64 (Pb.cp_IdleConnTimeoutMs pool)) (safeUint64 connectTimeoutMs).
Definition translateBackendTLS (t : Pb.BackendTLS) : option Dp.TLSConfig :=
  if Pb.bl_Enabled t then Some (Dp.mkTLSConfig "" "" (Pb.bl_CaCert t) "" (Pb.bl_InsecureSkipVerify t)) else None.
Definition translateOutlierDetection (od : Pb.OutlierDetection) : Dp.OutlierDetectionConfig :=
  Dp.mkOutlierDetectionConfig (safeUint64 (Pb.od_IntervalMs od)) (uint32 (Pb.od_Consecutive5xxThreshold od))
    (safeUint64 (Pb.od_BaseEjectionDurationMs od)) (uint32 (Pb.od_MaxEjectionPercent od)) (uint32 (Pb.od_SuccessRateMinHosts od))
    (uint32 (Pb.od_SuccessRateMinRequests od)) (Pb.od_SuccessRateStdevFactor od).

Definition translateCluster (endpoints : gmap string (list Pb.Endpoint)) (cl : Pb.Cluster) : Dp.ClusterConfig :=
  let clusterKey := Pb.k_Namespace cl +:+ "/" +:+ Pb.k_Name cl in
  Dp.mkClusterConfig (Pb.k_Name cl) (translateEndpoint <$> default [] (endpoints !! clusterKey)) (translateLBAlgorithm (Pb.k_LbPolicy cl))
    (translateHealthCheck <$> Pb.k_HealthCheck cl) (translateCircuitBreaker <$> Pb.k_CircuitBreaker cl)
    (translateConnectionPool (Pb.k_ConnectTimeoutMs cl) <$> Pb.k_ConnectionPool cl) (Pb.k_Tls cl ≫= translateBackendTLS)
    (safeUint64 (Pb.k_ConnectTimeoutMs cl)) (Pb.k_SessionAffinity cl) (translateOutlierDetection <$> Pb.k_OutlierDetection cl)
    ((λ ss, (safeUint64 (Pb.ss_WindowMs ss), Pb.ss_Aggression ss)) <$> Pb.k_SlowStart cl) (Pb.k_Protocol cl)
    (u ← Pb.k_UpstreamProxyProtocol cl; if up_Enabled u then Some (true, safeInt32ToUint32 (up_Version u)) else None).

Definition translateClusters (clusters : list Pb.Cluster) (endpoints : gmap string (list Pb.Endpoint)) : list Dp.ClusterConfig :=
  translateCluster endpoints <$> clusters.

(** ** L4 listeners *)

Definition translateL4Protocol (proto : Z) : Dp.L4Protocol :=
  match proto with 4 => Dp.L4_TCP | 6 => Dp.L4_UDP | 5 => Dp.L4_TLS_PASSTHROUGH | _ => Dp.L4_UNSPECIFIED end.

Definition translateL4Listener (l4 : Pb.L4Listener) : Dp.L4ListenerConfig :=
  Dp.mkL4ListenerConfig (Pb.l4_Name l4) (bind_address (Pb.l4_BindAddress l4)) (uint32 (Pb.l4_Port l4)) (translateL4Protocol (Pb.l4_Protocol l4))
    (if str_empty (Pb.l4_BackendName l4) then [] else [Dp.mkBackendRef (Pb.l4_BackendName l4) 0])
    (match Pb.l4_UdpConfig l4, Pb.l4_TcpConfig l4 with
     | Some u, _ => safeUint64 (Pb.lu_SessionTimeoutMs u)
     | None, Some t => safeUint64 (Pb.lt_IdleTimeoutMs t)
     | None, None => 0
     end)
    (match Pb.l4_TcpConfig l4 with Some t => safeUint64 (Pb.lt_ConnectTimeoutMs t) | None => 0 end).

Definition translateL4Listeners (listeners : list Pb.L4Listener) : list Dp.L4ListenerConfig := translateL4Listener <$> listeners.

(** ** Policies *)

Definition strict_transport_security (h : option HSTSConfig) : string :=
  match h with
  | Some h =>
      if hs_Enabled h then
        "max-age=" +:+ format_d (hs_MaxAge h) +:+ (if hs_IncludeSubDomains h then "; includeSubDomains" else "") +:+
        (if hs_Preload h then "; preload" else "")
      else ""
  | None => ""
  end.

(** The table [policyConfigTranslators], and the two kinds of address lists. *)
Definition policyConfigTranslators (pol : Pb.Policy) : option Dp.PolicyBody :=
  match Pb.p_Type pol with
  | 1 => (λ c, Dp.RateLimit (uint32 (Pb.rt_RequestsPerSecond c)) (uint32 (Pb.rt_Burst c)) (Pb.rt_Key c)) <$> Pb.p_RateLimit pol
  | 2 => (λ c, Dp.Jwt (jw_Issuer c) (jw_Audience c) (jw_JWKSUri c) (jw_HeaderName c) (jw_HeaderPrefix c) (jw_AllowedAlgorithms c)) <$> Pb.p_Jwt pol
  | 10 => (λ c, Dp.BasicAuth (Pb.ba_Realm c) (Pb.ba_Htpasswd c) (Pb.ba_StripAuth c)) <$> Pb.p_BasicAuth pol
  | 11 => (λ c, Dp.ForwardAuth (Pb.fa_Address c) (Pb.fa_AuthHeaders c) (Pb.fa_ResponseHeaders c)
        (if decide (0 < Pb.fa_TimeoutMs c) then safeUint64 (Pb.fa_TimeoutMs c) else 0)) <$> Pb.p_ForwardAuth pol
  | 8 => (λ c, Dp.Waf (Pb.wf_Enabled c) (Pb.wf_Mode c) (uint32 (Pb.wf_ParanoiaLevel c)) (uint32 (Pb.wf_AnomalyThreshold c))
        (Pb.wf_RuleExclusions c) (safeUint64 (Pb.wf_MaxBodySize c))) <$> Pb.p_Waf pol
  | 5 => (λ c, Dp.Cors (Pb.co_AllowOrigins c) (Pb.co_AllowMethods c) (Pb.co_AllowHeaders c) (Pb.co_ExposeHeaders c)
        (safeUint64 (Pb.co_MaxAgeSeconds c)) (Pb.co_AllowCredentials c)) <$> Pb.p_Cors pol
  | 12 => (λ c, Dp.Oauth2 (Pb.oi_IssuerUrl c) (Pb.oi_ClientId c) (Pb.oi_ClientSecret c) (Pb.oi_RedirectUrl c) (Pb.oi_Scopes c)
        (Pb.oi_SessionSecret c)) <$> Pb.p_Oidc pol
  | 6 => (λ c, Dp.SecurityHeaders (sh_ContentSecurityPolicy c) (sh_XFrameOptions c) (sh_XContentTypeOptions c)
        (strict_transport_security (sh_HSTS c)) (sh_ReferrerPolicy c) (sh_PermissionsPolicy c)) <$> Pb.p_SecurityHeaders pol
  | _ => None
  end.

Definition translateIPListPolicy (pol : Pb.Policy) : option Dp.PolicyBody :=
  (λ l, Dp.IpFilter (if decide (Pb.p_Type pol = 4) then "deny" else "allow") (Pb.ip_Cidrs l) (Pb.ip_SourceHeader l)) <$> Pb.p_IpList pol.

Definition translatePolicyType (t : Z) : Dp.PolicyType :=
  match t with
  | 1 => Dp.POLICY_RATE_LIMIT | 2 => Dp.POLICY_JWT | 10 => Dp.POLICY_BASIC_AUTH | 11 => Dp.POLICY_FORWARD_AUTH | 8 => Dp.POLICY_WAF
  | 5 => Dp.POLICY_CORS | 3 | 4 => Dp.POLICY_IP_FILTER | 12 => Dp.POLICY_OAUTH2 | 6 => Dp.POLICY_SECURITY_HEADERS
  | _ => Dp.POLICY_UNSPECIFIED
  end.

Definition translatePolicy (pol : Pb.Policy) : Dp.PolicyConfig :=
  Dp.mkPolicyConfig (Pb.p_Name pol) (translatePolicyType (Pb.p_Type pol))
    (match Pb.p_Type pol with
     | 3 | 4 => translateIPListPolicy pol
     | 9 | 7 | 13 | 0 => None
     | _ => policyConfigTranslators pol
     end).

Definition translatePolicies (policies : list Pb.Policy) : list Dp.PolicyConfig := translatePolicy <$> policies.

(** ** WAN links and mesh *)

Definition translateWANLink (wl : Pb.WANLink) : Dp.WANLinkConfig :=
  Dp.mkWANLinkConfig (Pb.w_Name wl) (Pb.w_Iface wl) (Pb.w_Provider wl) (uint32 (Pb.w_Cost wl))
    (match Pb.w_TunnelEndpoint wl with Some t => wt_PublicIP t | None => ""%string end)
    ((λ s, Dp.mkSLATarget (safeUint64 (Pb.sl_MaxLatencyMs s)) (safeUint64 (Pb.sl_MaxJitterMs s)) (Pb.sl_MaxPacketLoss s)) <$> Pb.w_Sla wl).
Definition translateWANLinks (wanLinks : list Pb.WANLink) : list Dp.WANLinkConfig := translateWANLink <$> wanLinks.

Section sorted.
Context `{SortSlice}.

(** The loop over the ports: the set of ports seen is the list built so far. *)
Definition add_port (acc : list Z) (port : Z) : list Z :=
  let p := uint32 port in if decide (0 < p ∧ p ∉ acc) then acc ++ [p] else acc.
Definition intercept_ports (services : list Pb.InternalService) : list Z :=
  foldl (λ acc svc, if Pb.i_MeshEnabled svc then foldl add_port acc (Pb.sp_Port <$> Pb.i_Ports svc) else acc) [] services.

Definition translateMeshConfig (s : Pb.ConfigSnapshot) : Dp.MeshConfig :=
  let ports := intercept_ports (Pb.InternalServices s) in
  let enabled := negb (length ports =? 0)%nat in
  let field {A} (d : A) (f : Pb.MeshTLSConfig → A) := match Pb.MeshTlsConfig s with Some t => f t | None => d end in
  Dp.mkMeshConfig enabled (if enabled then "permissive" else "") (field ""%string Pb.mt_SpiffeId) (Slice Z.ltb ports)
    (field ""%string Pb.mt_CaCertificate) (field ""%string Pb.mt_Certificate) (field ""%string Pb.mt_PrivateKey) (field ""%string Pb.mt_TrustDomain).

(** ** Requests *)

Definition empty_request : Dp.ApplyConfigRequest := Dp.mkApplyConfigRequest "" [] [] [] [] [] None [].

Definition TranslateSnapshot (snapshot : option Pb.ConfigSnapshot) : Dp.ApplyConfigRequest :=
  match snapshot with
  | None => empty_request
  | Some s =>
      Dp.mkApplyConfigRequest (Pb.Version s) (translateGateways (Pb.Gateways s)) (translateRoutes (Pb.Routes s))
        (translateClusters (Pb.Clusters s) (Pb.Endpoints s)) (translateL4Listeners (Pb.L4Listeners s)) (translatePolicies (Pb.Policies s))
        (match Pb.MeshTlsConfig s, Pb.InternalServices s with None, [] => None | _, _ => Some (translateMeshConfig s) end)
        (translateWANLinks (Pb.WanLinks s))
  end.

(** [Sync]: [None] is success. *)
Inductive SyncError := SyncFailed (err : string) | SyncRejected (message : string).
Definition Sync (ApplyConfig : Dp.ApplyConfigRequest → string + Dp.ApplyConfigResponse) (snapshot : option Pb.ConfigSnapshot) : option SyncError :=
  match ApplyConfig (TranslateSnapshot snapshot) with
  | inl err => Some (SyncFailed err)
  | inr resp => match Dp.rs_Status resp with Dp.STATUS_ERROR => Some (SyncRejected (Dp.rs_Message resp)) | _ => None end
  end.

End sorted.
