(* ===== verification/DataplaneSpec.v ===== *)
(** * What the dataplane is told

    Properties of [Dataplane]: the routes of a request select what the rules of
    the snapshot select, every route and cluster has a name of its own, policies
    keep their kind, and all numbers fit their fields. *)

From S2P Require Import Prelude GoStrings Float64 GoLib BuilderTypes Dataplane.
Open Scope Z_scope.

(** ** Matching *)

(** A request, and the two parts of matching that depend on texts only: how a
    path is matched against a value and a text against a regular expression,
    and how a host is matched against the names of a route. *)
Record request := mkRequest { rq_host : string; rq_path : string; rq_method : string; rq_headers : gmap string string; rq_query : gmap string string }.

Section matching.
Context (match_host : list string → string → bool) (match_path : Dp.PathMatchType → string → string → bool)
  (match_regex : string → string → bool).

Definition value_holds (regex : bool) (name value : string) (found : gmap string string) : bool :=
  match found !! name with
  | Some v => if regex then match_regex value v else str_eqb value v
  | None => false
  end.
Definition header_holds (regex : bool) (name value : string) (rq : request) : bool := value_holds regex name value (rq_headers rq).

(** A match of a rule holds when all its conditions hold. *)
Definition match_holds (m : Pb.RouteMatch) (rq : request) : bool :=
  match Pb.m_Path m with Some p => match_path (translatePathMatchType (Pb.pa_Type p)) (Pb.pa_Value p) (rq_path rq) | None => true end &&
  forallb (λ h, header_holds (Pb.ha_Type h =? 2) (Pb.ha_Name h) (Pb.ha_Value h) rq) (Pb.m_Headers m) &&
  (str_empty (Pb.m_Method m) || str_eqb (Pb.m_Method m) (rq_method rq)).

(** A rule selects the requests of any of its matches, and all requests when
    it has none. *)
Definition rule_selects (rt : Pb.Route) (rule : Pb.RouteRule) (rq : request) : bool :=
  match_host (Pb.ro_Hostnames rt) (rq_host rq) &&
  ((length (Pb.r_Matches rule) =? 0)%nat || existsb (λ m, match_holds m rq) (Pb.r_Matches rule)).

(** A route of the dataplane selects by host, path, headers and method. *)
Definition config_selects (rc : Dp.RouteConfig) (rq : request) : bool :=
  match_host (Dp.r_Hostnames rc) (rq_host rq) &&
  match Dp.r_PathMatch rc with Some p => match_path (Dp.pa_MatchType p) (Dp.pa_Value p) (rq_path rq) | None => true end &&
  forallb (λ h, header_holds (Dp.ha_IsRegex h) (Dp.ha_Name h) (Dp.ha_Value h) rq) (Dp.r_HeaderMatches rc) &&
  ((length (Dp.r_Methods rc) =? 0)%nat || existsb (str_eqb (rq_method rq)) (Dp.r_Methods rc)).

(** No header of the rule is matched by a regular expression. *)
Definition plain_headers (rule : Pb.RouteRule) : bool :=
  forallb (λ m, forallb (λ h, negb (Pb.ha_Type h =? 2)) (Pb.m_Headers m)) (Pb.r_Matches rule).

Lemma translateMatch_selects rt i rule mw several j m rq :
  forallb (λ h, negb (Pb.ha_Type h =? 2)) (Pb.m_Headers m) = true →
  config_selects (translateMatch rt i rule mw several j (Some m)) rq = match_host (Pb.ro_Hostnames rt) (rq_host rq) && match_holds m rq.
Proof.
  intros Hplain. unfold config_selects, match_holds, translateMatch. destruct (applyRouteFilters (Pb.r_Filters rule)) as [rw hs]. simpl.
  rewrite <- !andb_assoc. f_equal. f_equal; [by destruct (Pb.m_Path m)|]. f_equal.
  - induction (Pb.m_Headers m) as [|h l IH]; [done|]. simpl in *. apply andb_true_iff in Hplain as [Hh Hl]. f_equal; [|exact (IH Hl)].
    by destruct (Pb.ha_Type h =? 2).
  - unfold str_empty, str_eqb. destruct (bool_decide (Pb.m_Method m = ""%string)) eqn:E; [done|]. simpl. rewrite orb_false_r.
    apply bool_decide_ext. done.
Qed.

Lemma translateMatch_selects_all rt i rule mw several j rq :
  config_selects (translateMatch rt i rule mw several j None) rq = match_host (Pb.ro_Hostnames rt) (rq_host rq).
Proof.
  unfold config_selects, translateMatch. destruct (applyRouteFilters (Pb.r_Filters rule)) as [rw hs]. simpl. by rewrite !andb_true_r.
Qed.

Lemma translateMatch_backends rt i rule mw several j m :
  Dp.r_BackendRefs (translateMatch rt i rule mw several j m) = translateBackendRef <$> Pb.r_BackendRefs rule.
Proof. unfold translateMatch. by destruct (applyRouteFilters (Pb.r_Filters rule)). Qed.

(** The fan-out of one rule. *)
Lemma translateRouteRule_selects rt i rule mw rq :
  plain_headers rule = true →
  (∃ rc, rc ∈ translateRouteRule rt i rule mw ∧ config_selects rc rq = true) ↔ rule_selects rt rule rq = true.
Proof.
  unfold plain_headers, rule_selects, translateRouteRule. intros Hplain. destruct (Pb.r_Matches rule) as [|m0 ms] eqn:Em.
  - simpl. rewrite andb_true_r. split.
    + intros (rc & ->%list_elem_of_singleton & Hrc). by rewrite translateMatch_selects_all in Hrc.
    + intros Hh. eexists. split; [by apply list_elem_of_singleton|]. by rewrite translateMatch_selects_all.
  - set (l := m0 :: ms) in *. rewrite forallb_forall in Hplain. assert ((length l =? 0)%nat = false) as -> by done. rewrite orb_false_l. split.
    + intros (rc & (j & o & Hj & ->)%elem_of_imap & Hrc). rewrite list_lookup_fmap in Hj. destruct (l !! j) as [m|] eqn:Ej; [|done].
      injection Hj as <-. apply list_elem_of_lookup_2 in Ej as Hin.
      rewrite translateMatch_selects in Hrc by (apply Hplain; by apply list_elem_of_In). apply andb_true_iff in Hrc as [-> Hm]. rewrite andb_true_l.
      apply existsb_exists. exists m. split; [by apply list_elem_of_In|done].
    + intros [Hh (m & Hin & Hm)%existsb_exists]%andb_true_iff. apply list_elem_of_In, list_elem_of_lookup in Hin as [j Hj].
      eexists. split; [apply elem_of_imap; exists j, (Some m); split; [by rewrite list_lookup_fmap, Hj|done]|].
      rewrite translateMatch_selects by (apply Hplain; by apply list_elem_of_In, list_elem_of_lookup_2 with j). by rewrite Hh, Hm.
Qed.

Lemma elem_of_translateRoutes routes rc :
  rc ∈ translateRoutes routes ↔
  ∃ rt i rule, rt ∈ routes ∧ Pb.ro_Rules rt !! i = Some rule ∧
    rc ∈ translateRouteRule rt i rule (match Pb.ro_Pipeline rt with Some l => Pb.mw_Name <$> l | None => [] end).
Proof.
  unfold translateRoutes, translateRoute. rewrite list_elem_of_bind. split.
  - intros (rt & Hrc & Hrt). apply list_elem_of_join in Hrc as (l & Hrc & (i & rule & Hi & ->)%elem_of_imap). by exists rt, i, rule.
  - intros (rt & i & rule & Hrt & Hi & Hrc). exists rt. split; [|done]. apply list_elem_of_join. eexists. split; [exact Hrc|].
    apply elem_of_imap. by exists i, rule.
Qed.

Lemma translateRoutes_selects routes rq bs :
  (∀ rt rule, rt ∈ routes → rule ∈ Pb.ro_Rules rt → plain_headers rule = true) →
  (∃ rc, rc ∈ translateRoutes routes ∧ config_selects rc rq = true ∧ Dp.r_BackendRefs rc = bs) ↔
  (∃ rt rule, rt ∈ routes ∧ rule ∈ Pb.ro_Rules rt ∧ rule_selects rt rule rq = true ∧ bs = translateBackendRef <$> Pb.r_BackendRefs rule).
Proof.
  intros Hplain. split.
  - intros (rc & (rt & i & rule & Hrt & Hi & Hrc)%elem_of_translateRoutes & Hsel & <-). apply list_elem_of_lookup_2 in Hi as Hin.
    exists rt, rule. split; [done|]. split; [done|]. split.
    + eapply (translateRouteRule_selects rt i rule); [by apply (Hplain rt)|by exists rc].
    + apply elem_of_imap in Hrc as (j & m & _ & ->). apply translateMatch_backends.
  - intros (rt & rule & Hrt & Hin & Hsel & ->). apply list_elem_of_lookup in Hin as Hi. destruct Hi as [i Hi].
    eapply (translateRouteRule_selects rt i rule) in Hsel as (rc & Hrc & Hsel); [|by apply (Hplain rt)].
    exists rc. split; [apply elem_of_translateRoutes; by exists rt, i, rule|]. split; [done|].
    apply elem_of_imap in Hrc as (j & m & _ & ->). apply translateMatch_backends.
Qed.

(** The routes of a request select what the rules of the snapshot select:
    for rules that match headers by their value, a request is selected by some
    route of the dataplane with given backends exactly when it is selected by a
    rule of the snapshot with these backends. *)
Theorem dataplane_routes_select routes rq bs :
  (∀ rt rule, rt ∈ routes → rule ∈ Pb.ro_Rules rt → plain_headers rule = true) →
  (∃ rc, rc ∈ translateRoutes routes ∧ config_selects rc rq = true ∧ Dp.r_BackendRefs rc = bs) ↔
  (∃ rt rule, rt ∈ routes ∧ rule ∈ Pb.ro_Rules rt ∧ rule_selects rt rule rq = true ∧ bs = translateBackendRef <$> Pb.r_BackendRefs rule).
Proof. intros Hplain. by apply translateRoutes_selects. Qed.

End matching.

(** ** Names *)

Lemma route_name_inj rt rt' i i' j j' several several' :
  no_char "/" rt = true → no_char "/" rt' = true → route_name rt i j several = route_name rt' i' j' several' →
  rt = rt' ∧ i = i' ∧ several = several' ∧ (several = true → j = j').
Proof.
  intros Hrt Hrt' E. unfold route_name in E.
  assert (∀ r k m (b : bool), no_char "/" r = true →
    Split "/" (r +:+ "/rule-" +:+ format_d (Z.of_nat k) +:+ (if b then "/match-" +:+ format_d (Z.of_nat m) else "")) =
    r :: ("rule-" +:+ format_d (Z.of_nat k))%string :: (if b then [("match-" +:+ format_d (Z.of_nat m))%string] else [])) as Hs.
  { intros r k m b Hr. change ("/rule-" +:+ ?x) with (String "/" ("rule-" +:+ x)). rewrite (Split_app "/" r) by done. f_equal.
    rewrite <- str_app_assoc. assert (no_char "/" ("rule-" +:+ format_d (Z.of_nat k)) = true) as Hk by (by rewrite no_char_app, format_d_no_char).
    destruct b; [|rewrite str_app_nil_r; by apply Split_no_char].
    change ("/match-" +:+ ?x) with (String "/" ("match-" +:+ x)). rewrite Split_app by done. f_equal. apply Split_no_char.
    by rewrite no_char_app, format_d_no_char. }
  pose proof (f_equal (Split "/") E) as E'. rewrite !Hs in E' by done. injection E' as -> Hi Hj.
  apply str_app_inj in Hi. apply format_nat_inj in Hi as ->. split; [done|]. split; [done|].
  destruct several, several'; try done. injection Hj as Hj. apply str_app_inj in Hj. apply format_nat_inj in Hj as ->. done.
Qed.

Definition route_names_ok (routes : list Pb.Route) : Prop :=
  NoDup (Pb.ro_Name <$> routes) ∧ ∀ rt, rt ∈ routes → no_char "/" (Pb.ro_Name rt) = true.

Lemma translateMatch_name rt i rule mw several j m :
  Dp.r_Name (translateMatch rt i rule mw several j m) = route_name (Pb.ro_Name rt) i j several.
Proof. unfold translateMatch. by destruct (applyRouteFilters (Pb.r_Filters rule)). Qed.

(** The name of a route of the dataplane determines it. *)
Lemma route_names_distinct routes rc rc' :
  route_names_ok routes → rc ∈ translateRoutes routes → rc' ∈ translateRoutes routes → Dp.r_Name rc' = Dp.r_Name rc → rc' = rc.
Proof.
  intros [Hnd Hslash] (rt & i & rule & Hrt & Hi & Hrc)%elem_of_translateRoutes (rt' & i' & rule' & Hrt' & Hi' & Hrc')%elem_of_translateRoutes.
  apply elem_of_imap in Hrc as (j & m & Hj & ->). apply elem_of_imap in Hrc' as (j' & m' & Hj' & ->).
  rewrite !translateMatch_name. intros E. apply route_name_inj in E as (En & -> & Es & Ej); [|by apply Hslash..].
  assert (rt' = rt) as -> by (by apply (NoDup_key_inj Pb.ro_Name routes)). rewrite Hi in Hi'. injection Hi' as ->.
  destruct (bool_decide (1 < _)%nat) eqn:Eb in Ej; [specialize (Ej eq_refl) as ->; rewrite Hj in Hj'; by injection Hj' as ->|].
  apply bool_decide_eq_false in Eb. apply lookup_lt_Some in Hj as Lj. apply lookup_lt_Some in Hj' as Lj'.
  assert (j = j') as <- by lia. rewrite Hj in Hj'. by injection Hj' as ->.
Qed.

(** The tables of a dataplane that has applied a request: it files routes and
    clusters under their names, and a later one replaces an earlier one. *)
Definition routes_of (req : Dp.ApplyConfigRequest) : gmap string Dp.RouteConfig := insert_all Dp.r_Name ∅ (Dp.Routes req).
Definition clusters_of (req : Dp.ApplyConfigRequest) : gmap string Dp.ClusterConfig := insert_all Dp.k_Name ∅ (Dp.Clusters req).

(** The endpoints of a cluster of the snapshot. *)
Definition cluster_endpoints (s : Pb.ConfigSnapshot) (cl : Pb.Cluster) : list Pb.Endpoint :=
  default [] (Pb.Endpoints s !! (Pb.k_Namespace cl +:+ "/" +:+ Pb.k_Name cl)).

Section tables.
Context `{SortSlice}.

(** The tables of the dataplane are complete. When names identify the
    routes and clusters of a snapshot, every route of the request is found
    under its name, and every cluster under its name with exactly the
    endpoints of the snapshot, in order, each with a weight of at least one. *)
Theorem dataplane_tables_are_complete s :
  route_names_ok (Pb.Routes s) → NoDup (Pb.k_Name <$> Pb.Clusters s) →
  let req := TranslateSnapshot (Some s) in
  (∀ rc, rc ∈ translateRoutes (Pb.Routes s) → routes_of req !! Dp.r_Name rc = Some rc) ∧
  (∀ cl, cl ∈ Pb.Clusters s → ∃ k, clusters_of req !! Pb.k_Name cl = Some k ∧ Dp.k_LbAlgorithm k = translateLBAlgorithm (Pb.k_LbPolicy cl) ∧
    Dp.e_Ip <$> Dp.k_Endpoints k = Pb.e_Address <$> cluster_endpoints s cl ∧
    Dp.e_Healthy <$> Dp.k_Endpoints k = Pb.e_Ready <$> cluster_endpoints s cl ∧
    Forall (λ e, 1 ≤ Dp.e_Weight e) (Dp.k_Endpoints k)).
Proof.
  intros Hr Hk req. split.
  - intros rc Hrc. apply insert_all_elem; [done|]. intros rc' Hrc' E. by apply (route_names_distinct (Pb.Routes s)).
  - intros cl Hcl. exists (translateCluster (Pb.Endpoints s) cl). split.
    + change (Pb.k_Name cl) with (Dp.k_Name (translateCluster (Pb.Endpoints s) cl)). apply insert_all_elem; [by apply list_elem_of_fmap_2|].
      intros k (cl' & -> & Hcl')%list_elem_of_fmap E. by rewrite (NoDup_key_inj Pb.k_Name (Pb.Clusters s) cl' cl).
    + split; [done|]. simpl. rewrite <- !list_fmap_compose. split; [done|]. split; [done|]. apply Forall_fmap, Forall_true. intros e. simpl.
      assert (0 ≤ uint32 (Pb.e_Weight e)) by (apply Z.mod_pos_bound; lia). destruct (decide _); lia.
Qed.

End tables.

(** ** Policies *)

(** The kind of configuration that belongs to a type of policy. *)
Definition body_type (b : Dp.PolicyBody) : Dp.PolicyType :=
  match b with
  | Dp.RateLimit _ _ _ => Dp.POLICY_RATE_LIMIT | Dp.Jwt _ _ _ _ _ _ => Dp.POLICY_JWT | Dp.BasicAuth _ _ _ => Dp.POLICY_BASIC_AUTH
  | Dp.ForwardAuth _ _ _ _ => Dp.POLICY_FORWARD_AUTH | Dp.Oauth2 _ _ _ _ _ _ => Dp.POLICY_OAUTH2 | Dp.Waf _ _ _ _ _ _ => Dp.POLICY_WAF
  | Dp.Cors _ _ _ _ _ _ => Dp.POLICY_CORS | Dp.IpFilter _ _ _ => Dp.POLICY_IP_FILTER | Dp.SecurityHeaders _ _ _ _ _ _ => Dp.POLICY_SECURITY_HEADERS
  end.

(** The snapshot carries the configuration that the type of the policy announces. *)
Definition policy_complete (p : Pb.Policy) : bool :=
  match Pb.p_Type p with
  | 1 => bool_decide (is_Some (Pb.p_RateLimit p)) | 2 => bool_decide (is_Some (Pb.p_Jwt p))
  | 3 | 4 => bool_decide (is_Some (Pb.p_IpList p)) | 5 => bool_decide (is_Some (Pb.p_Cors p))
  | 6 => bool_decide (is_Some (Pb.p_SecurityHeaders p)) | 8 => bool_decide (is_Some (Pb.p_Waf p))
  | 10 => bool_decide (is_Some (Pb.p_BasicAuth p)) | 11 => bool_decide (is_Some (Pb.p_ForwardAuth p))
  | 12 => bool_decide (is_Some (Pb.p_Oidc p)) | _ => false
  end.

(** One type of policy: its configuration is present or not. *)
Ltac typed_policy :=
  (split; [intros b; first [by intros [=]|intros (c & Hc & ->)%fmap_Some_1; done]|]);
  (split; [first [by rewrite fmap_is_Some, bool_decide_eq_true|by split; [intros [? [=]]|intros [=]]]|]);
  (split; [rewrite !not_elem_of_cons; split; [first [by intros [=]|intros _; split_and!; (done || lia || apply not_elem_of_nil)]|first [done|intros; lia|intros; exfalso; lia]]|]);
  intros Ht; try lia; intros l Hl; by rewrite Hl.

(** Policies are well typed: whatever the type of a policy of the snapshot
    and the configurations it carries, the translated policy has either no
    configuration or the one of its own type, it has one exactly when the
    snapshot carries the configuration of its type, and it has a type exactly
    for the kinds the dataplane knows. *)
Theorem translated_policy_is_typed p :
  let q := translatePolicy p in
  (∀ b, Dp.p_Config q = Some b → body_type b = Dp.p_PolicyType q) ∧
  (is_Some (Dp.p_Config q) ↔ policy_complete p = true) ∧
  (Dp.p_PolicyType q = Dp.POLICY_UNSPECIFIED ↔ Pb.p_Type p ∉ [1; 2; 3; 4; 5; 6; 8; 10; 11; 12]) ∧
  (Pb.p_Type p = 4 → ∀ l, Pb.p_IpList p = Some l → Dp.p_Config q = Some (Dp.IpFilter "deny" (Pb.ip_Cidrs l) (Pb.ip_SourceHeader l))).
Proof.
  unfold translatePolicy, policyConfigTranslators, translateIPListPolicy, translatePolicyType, policy_complete. simpl.
  destruct (Pb.p_Type p) as [|n|n] eqn:E; [by typed_policy| |by typed_policy].
  destruct n as [[[[n|n|]|[n|n|]|]|[[n|n|]|[n|n|]|]|]|[[[n|n|]|[n|n|]|]|[[n|n|]|[n|n|]|]|]|]; by typed_policy.
Qed.

(** ** Mesh *)

Lemma add_ports_spec acc ports :
  NoDup acc → NoDup (foldl add_port acc ports) ∧ ∀ p, p ∈ foldl add_port acc ports ↔ p ∈ acc ∨ (0 < p ∧ ∃ q, q ∈ ports ∧ p = uint32 q).
Proof.
  revert acc. induction ports as [|q ports IH]; intros acc Hacc; simpl.
  - split; [done|]. intros p. split; [by left|]. intros [?|(_ & q & []%not_elem_of_nil & _)]; done.
  - set (acc' := add_port acc q).
    assert (NoDup acc' ∧ ∀ p, p ∈ acc' ↔ p ∈ acc ∨ (0 < p ∧ p = uint32 q)) as [Hnd Hin].
    { unfold acc', add_port. destruct (decide (0 < uint32 q ∧ uint32 q ∉ acc)) as [[Hpos Hnew]|Hno].
      - split; [apply NoDup_app; split_and!; [done|intros x Hx ->%list_elem_of_singleton; done|apply NoDup_singleton]|].
        intros p. rewrite elem_of_app, list_elem_of_singleton. split; [intros [?| ->]; [by left|by right]|intros [?|[_ ->]]; [by left|by right]].
      - split; [done|]. intros p. split; [by left|]. intros [?|[Hp ->]]; [done|]. destruct (decide (uint32 q ∈ acc)); [done|]. by destruct Hno. }
    destruct (IH acc' Hnd) as [I1 I2]. split; [done|]. intros p. rewrite I2, Hin. split.
    + intros [[?|[? ->]]|(Hp & q' & Hq & ->)]; [by left|right; split; [done|]; exists q; split; [apply list_elem_of_here|done]|].
      right. split; [done|]. exists q'. split; [by apply list_elem_of_further|done].
    + intros [?|(Hp & q' & [->|Hq]%elem_of_cons & ->)]; [by left; left|by left; right|]. right. split; [done|]. by exists q'.
Qed.

Lemma intercept_ports_spec services :
  NoDup (intercept_ports services) ∧
  ∀ p, p ∈ intercept_ports services ↔
    0 < p ∧ ∃ svc port, svc ∈ services ∧ Pb.i_MeshEnabled svc = true ∧ port ∈ Pb.i_Ports svc ∧ p = uint32 (Pb.sp_Port port).
Proof.
  unfold intercept_ports. assert (∀ acc, NoDup acc →
    let f := λ acc svc, if Pb.i_MeshEnabled svc then foldl add_port acc (Pb.sp_Port <$> Pb.i_Ports svc) else acc in
    NoDup (foldl f acc services) ∧ ∀ p, p ∈ foldl f acc services ↔ p ∈ acc ∨
      0 < p ∧ ∃ svc port, svc ∈ services ∧ Pb.i_MeshEnabled svc = true ∧ port ∈ Pb.i_Ports svc ∧ p = uint32 (Pb.sp_Port port)) as Hloop.
  { induction services as [|svc services IH]; intros acc Hacc f; simpl.
    - split; [done|]. intros p. split; [by left|]. intros [?|(_ & ? & ? & []%not_elem_of_nil & _)]; done.
    - assert (NoDup (f acc svc) ∧ ∀ p, p ∈ f acc svc ↔ p ∈ acc ∨ 0 < p ∧ Pb.i_MeshEnabled svc = true ∧ ∃ port, port ∈ Pb.i_Ports svc ∧ p = uint32 (Pb.sp_Port port))
        as [F1 F2].
      { unfold f. destruct (Pb.i_MeshEnabled svc); [|split; [done|]; intros p; split; [by left|by intros [?|(_ & [=] & _)]]].
        destruct (add_ports_spec acc (Pb.sp_Port <$> Pb.i_Ports svc) Hacc) as [A1 A2]. split; [done|]. intros p. rewrite A2.
        setoid_rewrite list_elem_of_fmap. split.
        - intros [?|(Hp & q & (port & -> & Hport) & ->)]; [by left|]. right. split; [done|]. split; [done|]. by exists port.
        - intros [?|(Hp & _ & port & Hport & ->)]; [by left|]. right. split; [done|]. exists (Pb.sp_Port port). split; [by exists port|done]. }
      destruct (IH (f acc svc) F1) as [I1 I2]. split; [exact I1|]. intros p. etransitivity; [exact (I2 p)|]. rewrite F2. split.
      + intros [[?|(Hp & Hm & port & Hport & ->)]|(Hp & svc' & port & Hs & Hm & Hport & ->)]; [by left|..]; right; (split; [done|]).
        * exists svc, port. split; [apply list_elem_of_here|done].
        * exists svc', port. split; [by apply list_elem_of_further|done].
      + intros [?|(Hp & svc' & port & [->|Hs]%elem_of_cons & Hm & Hport & ->)]; [by left; left| |].
        * left. right. split; [done|]. split; [done|]. by exists port.
        * right. split; [done|]. by exists svc', port. }
  destruct (Hloop [] (NoDup_nil_2)) as [L1 L2]. split; [done|]. intros p. rewrite L2. split; [intros [[]%not_elem_of_nil|?]; done|by right].
Qed.

Section mesh.
Context `{SortSlice}.

Lemma Zltb_weak_on (P : Z → Prop) : strict_weak P Z.ltb.
Proof. split; intros; rewrite ?Z.ltb_ge, ?Z.ltb_lt in *; lia. Qed.

(** The mesh of the dataplane intercepts exactly the ports of the services
    that take part in the mesh, each once and in increasing order, and it is
    enabled, in permissive mode, exactly when there is such a port. *)
Theorem mesh_intercepts_mesh_ports s :
  let mc := translateMeshConfig s in
  StronglySorted Z.lt (Dp.mc_InterceptPorts mc) ∧
  (∀ p, p ∈ Dp.mc_InterceptPorts mc ↔ 0 < p ∧ ∃ svc port, svc ∈ Pb.InternalServices s ∧ Pb.i_MeshEnabled svc = true ∧
    port ∈ Pb.i_Ports svc ∧ p = uint32 (Pb.sp_Port port)) ∧
  (Dp.mc_Enabled mc = true ↔ ∃ p, p ∈ Dp.mc_InterceptPorts mc) ∧
  Dp.mc_MtlsMode mc = (if Dp.mc_Enabled mc then "permissive" else "")%string.
Proof.
  intros mc. set (ports := intercept_ports (Pb.InternalServices s)).
  destruct (intercept_ports_spec (Pb.InternalServices s)) as [Hnd Hin]. fold ports in Hnd, Hin.
  assert (Dp.mc_InterceptPorts mc ≡ₚ ports) as Hperm by apply Slice_perm. split; [|split; [|split]].
  - assert (StronglySorted (λ x y, (y <? x) = false) (Dp.mc_InterceptPorts mc)) as Hs by (apply Slice_sorts, Zltb_weak_on).
    rewrite <- Hperm in Hnd. clear -Hs Hnd. induction Hs as [|x l Hs IH Hall]; [constructor|]. apply NoDup_cons in Hnd as [Hx Hl].
    constructor; [by apply IH|]. rewrite Forall_forall in Hall |- *. intros y Hy. specialize (Hall y Hy). apply Z.ltb_ge in Hall.
    assert (x ≠ y) by (by intros ->). lia.
  - intros p. by rewrite Hperm.
  - setoid_rewrite Hperm. unfold mc, translateMeshConfig. simpl. fold ports. destruct ports as [|p l]; simpl.
    + split; [done|]. by intros [? []%not_elem_of_nil].
    + split; [|done]. intros _. exists p. apply list_elem_of_here.
  - done.
Qed.

End mesh.

(** ** What the request leaves out *)

#[local] Instance a_sort : SortSlice := insertion_SortSlice.

Definition bare_cluster (ns name : string) : Pb.Cluster := Pb.mkCluster name ns 1 0 0 None None None None None None None None "".
Definition bare_endpoint (addr : string) : Pb.Endpoint := Pb.mkEndpoint addr 80 true ∅ 0.
Definition bare_rule (ms : list Pb.RouteMatch) (bs : list Pb.BackendRef) : Pb.RouteRule := Pb.mkRouteRule ms [] bs None None None 0 None None None.
Definition bare_snapshot (routes : list Pb.Route) (clusters : list Pb.Cluster) (eps : gmap string (list Pb.Endpoint)) : Pb.ConfigSnapshot :=
  Pb.mkConfigSnapshot "v" 0 [] routes clusters eps [] [] [] [] [] [] None None.

(** Backends with the same name in two namespaces: the route of the namespace
    [shop] refers to a backend of its own namespace, and its requests go to the
    endpoint of the namespace [test]. *)
Example clusters_of_two_namespaces_collide :
  let ref := Pb.mkBackendRef "web" "shop" 1 in
  let s := bare_snapshot [Pb.mkRoute "r" "shop" [] [bare_rule [] [ref]] None None ""] [bare_cluster "shop" "web"; bare_cluster "test" "web"]
    {[ "shop/web"%string := [bare_endpoint "10.0.0.1"]; "test/web"%string := [bare_endpoint "10.9.9.9"] ]} in
  let req := TranslateSnapshot (Some s) in
  mbind Dp.r_BackendRefs (Dp.Routes req) = [Dp.mkBackendRef "web" 1] ∧
  (λ k, Dp.e_Ip <$> Dp.k_Endpoints k) <$> clusters_of req !! "web"%string = Some ["10.9.9.9"%string].
Proof. vm_compute. split; reflexivity. Qed.

(** A header matched by a regular expression becomes a header with that text. *)
Example regular_expression_of_header_is_lost :
  let m := Pb.mkRouteMatch None [Pb.mkHeaderMatch 2 "version" "v.*"] "" in
  let rt := Pb.mkRoute "r" "shop" [] [bare_rule [m] []] None None "" in
  let rq := mkRequest "" "/" "GET" {[ "version"%string := "v2"%string ]} ∅ in
  let any_host (_ : list string) (_ : string) := true in
  let any_path (_ : Dp.PathMatchType) (_ _ : string) := true in
  rule_selects any_host any_path (λ _ _, true) rt (bare_rule [m] []) rq = true ∧
  existsb (λ rc, config_selects any_host any_path (λ _ _, true) rc rq) (translateRoutes [rt]) = false.
Proof. vm_compute. split; reflexivity. Qed.

(** The certificates for single host names are not passed on. *)
Example sni_certificates_are_dropped :
  let t := Pb.mkTLSConfig "cert" "key" "TLS1.3" [] "" in
  let l certs := Pb.mkListener "https" 443 2 [] false [] (Some t) certs None "" 0 None in
  let gw := Pb.mkGateway "g" "shop" "" "" [] None None None None in
  translateListener gw (l {[ "a.example"%string := t; "b.example"%string := t ]}) = translateListener gw (l ∅).
Proof. reflexivity. Qed.

(** A negative weight becomes a very large one. *)
Example negative_weight_wraps : Dp.b_Weight (translateBackendRef (Pb.mkBackendRef "web" "shop" (-1))) = 2 ^ 32 - 1.
Proof. reflexivity. Qed.

(** ** Witnesses *)

Definition sample_routes : list Pb.Route :=
  [Pb.mkRoute "shop" "prod" ["shop.example"%string]
    [bare_rule [Pb.mkRouteMatch (Some (Pb.mkPathMatch 2 "/a")) [] ""; Pb.mkRouteMatch None [] "PUT"] [Pb.mkBackendRef "web" "prod" 1]] None None ""].

Lemma dataplane_routes_select_witness :
  let rq := mkRequest "shop.example" "/" "PUT" ∅ ∅ in
  let host l h := existsb (str_eqb h) l in
  let path (_ : Dp.PathMatchType) (v p : string) := str_eqb v p in
  ∃ rc, rc ∈ translateRoutes sample_routes ∧ config_selects host path (λ _ _, false) rc rq = true ∧ Dp.r_BackendRefs rc = [Dp.mkBackendRef "web" 1].
Proof.
  intros rq host path. apply (dataplane_routes_select host path (λ _ _, false) sample_routes rq).
  - intros rt rule ->%list_elem_of_singleton ->%list_elem_of_singleton. reflexivity.
  - exists (hd (Pb.mkRoute "" "" [] [] None None "") sample_routes), (bare_rule [Pb.mkRouteMatch (Some (Pb.mkPathMatch 2 "/a")) [] ""; Pb.mkRouteMatch None [] "PUT"] [Pb.mkBackendRef "web" "prod" 1]).
    split; [apply list_elem_of_here|]. split; [apply list_elem_of_here|]. split; reflexivity.
Defined.

Lemma dataplane_tables_are_complete_witness :
  let s := bare_snapshot sample_routes [bare_cluster "prod" "web"] {[ "prod/web"%string := [bare_endpoint "10.0.0.1"] ]} in
  ∃ k, clusters_of (TranslateSnapshot (Some s)) !! "web"%string = Some k ∧ Dp.e_Ip <$> Dp.k_Endpoints k = ["10.0.0.1"%string].
Proof.
  intros s. destruct (dataplane_tables_are_complete s) as [_ Hk].
  - split; [apply NoDup_singleton|]. intros rt ->%list_elem_of_singleton. reflexivity.
  - apply NoDup_singleton.
  - destruct (Hk (bare_cluster "prod" "web") (list_elem_of_here _ _)) as (k & H1 & _ & H2 & _). exists k. split; [exact H1|exact H2].
Defined.
