(* ===== verification/IngressDataplane.v ===== *)
(** * From an Ingress to the dataplane

    The composition of the reconciler, the snapshot builder and the dataplane
    translator: where the dataplane sends the requests for a path of an
    Ingress. *)

From S2P Require Import Prelude GoStrings Float64 GoLib Convert BuilderTypes BuilderConvert SnapshotBuilder BuilderVersion IngressTranslate KubeApi IngressReconcile Dataplane DataplaneSpec.
Open Scope Z_scope.
Open Scope go_scope.

Section composition.
Context `{TextTables} `{SortSlice}.

(** What a built snapshot holds of the parts. *)
Lemma BuildSnapshot_parts visit units marshal fp now k bc snap :
  prefetch k = Some bc → BuildSnapshot visit units marshal fp now k = Returns (Some snap) →
  Pb.Routes snap ≡ₚ buildRoutes units bc ∧ Pb.Clusters snap ≡ₚ (buildClusters fp bc).1 ∧
  ∀ key, match (buildClusters fp bc).2 !! key with
         | Some eps => ∃ eps', Pb.Endpoints snap !! key = Some eps' ∧ eps' ≡ₚ eps
         | None => Pb.Endpoints snap !! key = None
         end.
Proof.
  intros Hk E. unfold BuildSnapshot in E. rewrite Hk in E. unfold buildParts in E.
  destruct (buildGateways visit units bc) as [gws|]; [|done]. destruct (buildClusters fp bc) as [clusters endpoints] eqn:Ec. simpl in E.
  set (s := sortSnapshot _) in E.
  assert (Pb.Routes snap = Pb.Routes s ∧ Pb.Clusters snap = Pb.Clusters s ∧ Pb.Endpoints snap = Pb.Endpoints s) as (-> & -> & ->).
  { destruct (active fp); by injection E as <-. }
  split; [apply Slice_perm|]. split; [apply Slice_perm|]. intros key. simpl. rewrite lookup_fmap.
  destruct (endpoints !! key) as [eps|]; [|done]. eexists. split; [done|]. apply Slice_perm.
Qed.

(** The cluster of a backend in the tables of the dataplane. *)
Lemma backend_in_dataplane visit units marshal fp now k bc snap b eps :
  prefetch k = Some bc → BuildSnapshot visit units marshal fp now k = Returns (Some snap) → NoDup (Pb.k_Name <$> Pb.Clusters snap) →
  NoDup (backend_key <$> bc_backends bc) → b ∈ bc_backends bc → backend_endpoints fp bc b = Some eps →
  ∃ cluster, clusters_of (TranslateSnapshot (Some snap)) !! Crd.k_Name b = Some cluster ∧ Dp.k_Endpoints cluster ≡ₚ translateEndpoint <$> eps.
Proof.
  intros Hpre Eb Nc Hkeys Hb Heps. destruct (BuildSnapshot_parts _ _ _ _ _ _ _ _ Hpre Eb) as (_ & Pc & Pe).
  set (cl := buildCluster bc b). assert (cl ∈ Pb.Clusters snap) as Hcl by (rewrite Pc; by apply list_elem_of_fmap_2).
  pose proof (endpoints_of_backend fp bc b Hkeys Hb) as Hends. rewrite Heps in Hends.
  specialize (Pe (backend_key b)). rewrite Hends in Pe. destruct Pe as (eps' & He & Pe).
  exists (translateCluster (Pb.Endpoints snap) cl). split.
  - change (Crd.k_Name b) with (Dp.k_Name (translateCluster (Pb.Endpoints snap) cl)). apply insert_all_elem; [by apply list_elem_of_fmap_2|].
    intros k' (cl' & -> & Hcl')%list_elem_of_fmap En. by rewrite (NoDup_key_inj Pb.k_Name (Pb.Clusters snap) cl' cl).
  - simpl. unfold backend_key, ns_key in He. rewrite He. simpl. by rewrite Pe.
Qed.

Context (ToUpper : string → string) (visit : visiting) (visit_order : ∀ V (m : gmap string V), range_order m (visit V m)).
Context (unmarshalHeaders : string → option (gmap string string)) (unmarshalPages : string → option (list Crd.CustomErrorPage)).
Context (getSvc : string → string → option Crd.Service).

#[local] Notation resolver := (Some (resolveServicePort getSvc)).

(** The names of a cluster of namespaces identify routes and backends. *)
Record names_identify (bc : buildContext) : Prop := {
  routes_identified : NoDup (Crd.ro_Name <$> bc_routes bc);
  routes_without_slash : ∀ r, r ∈ bc_routes bc → no_char "/" (Crd.ro_Name r) = true;
  backends_identified : NoDup (Crd.k_Name <$> bc_backends bc);
}.

Lemma built_names visit' units marshal fp now k bc snap :
  prefetch k = Some bc → BuildSnapshot visit' units marshal fp now k = Returns (Some snap) → names_identify bc →
  route_names_ok (Pb.Routes snap) ∧ NoDup (Pb.k_Name <$> Pb.Clusters snap).
Proof.
  intros Hk E [H1 H2 H3]. destruct (BuildSnapshot_parts _ _ _ _ _ _ _ _ Hk E) as (Pr & Pc & _). split; [split|].
  - rewrite Pr. unfold buildRoutes. by rewrite <- list_fmap_compose.
  - intros rt. rewrite Pr. intros (r & -> & Hr)%list_elem_of_fmap. by apply H2.
  - rewrite Pc. unfold buildClusters. simpl. by rewrite <- list_fmap_compose.
Qed.

(** The match of a path, by its type; [regex] is the annotation that makes all paths
    regular expressions. No path matches everything. *)
Definition path_means (regex : bool) (path : HTTPIngressPath) (pm : option Dp.PathMatch) : Prop :=
  (ip_Path path = ""%string → pm = None) ∧
  (ip_Path path ≠ ""%string → ∃ t, pm = Some (Dp.mkPathMatch t (ip_Path path)) ∧
    (regex = true → t = Dp.PATH_REGEX) ∧
    (regex = false →
      (ip_PathType path = Some "Exact"%string → t = Dp.PATH_EXACT) ∧
      (ip_PathType path = Some "Prefix"%string ∨ ip_PathType path = None → t = Dp.PATH_PREFIX) ∧
      (ip_PathType path = Some "ImplementationSpecific"%string → t = if ContainsAny (ip_Path path) regex_chars then Dp.PATH_REGEX else Dp.PATH_PREFIX))).

(** The port of the Service: a number, or the port of that name; 80 when the name is not found. *)
Definition port_means (ing : Ingress) (svc : IngressServiceBackend) (port : Z) : Prop :=
  (is_PortNumber svc ≠ 0 → port = is_PortNumber svc) ∧
  (is_PortNumber svc = 0 → is_PortName svc ≠ ""%string → ∀ v i p, getSvc (in_Namespace ing) (is_Name svc) = Some v →
     list_find (λ p, Crd.sp_Name p = is_PortName svc) (Crd.sv_Ports v) = Some (i, p) → port = Crd.sp_Port p) ∧
  (is_PortNumber svc = 0 → (is_PortName svc = ""%string ∨ ∀ v, getSvc (in_Namespace ing) (is_Name svc) = Some v →
     list_find (λ p, Crd.sp_Name p = is_PortName svc) (Crd.sv_Ports v) = None) → port = 80).

Lemma path_match_means ing path :
  path_means (useRegexPathMatching ing) path
    ((λ m, Dp.mkPathMatch (translatePathMatchType (convertPathMatchType (Crd.pa_Type m))) (Crd.pa_Value m)) <$> convertPathMatchWithIngress ing path).
Proof.
  unfold path_means, convertPathMatchWithIngress, str_empty. case_bool_decide as E; [by split|]. split; [done|]. intros _.
  eexists. split; [done|]. cbn [Crd.pa_Type]. destruct (useRegexPathMatching ing); [done|]. split; [done|]. intros _.
  destruct (ip_PathType path) as [t|]; [|split; [done|]; by split]. split; [by intros [= ->]|]. split; [by intros [[= ->]|[=]]|]. intros [= ->].
  cbn -[ContainsAny]. by destruct (ContainsAny _ _).
Qed.

Lemma getServicePort_means ing svc : port_means ing svc (getServicePort resolver ing svc).
Proof.
  unfold port_means, getServicePort, resolveServicePort, str_empty. split; [|split].
  - intros E. by rewrite (proj2 (Z.eqb_neq _ _) E).
  - intros E Hn v i p Hv Hp. rewrite (proj2 (Z.eqb_eq _ _) E), bool_decide_eq_false_2 by done. simpl. rewrite Hv. simpl. by rewrite Hp.
  - intros E Hn. rewrite (proj2 (Z.eqb_eq _ _) E). simpl. case_bool_decide; [done|]. destruct Hn as [?|Hv]; [done|]. simpl.
    destruct (getSvc _ _) as [v|]; [|done]. simpl. by rewrite (Hv v).
Qed.


End composition.

(** ** An example *)

#[local] Instance plain_texts : TextTables := IngressReconcile.plain_texts.
#[local] Instance plain_sort : SortSlice := insertion_SortSlice.

Definition shop_kube (s : store) : KubeClient :=
  mkKubeClient (Some (map_to_list (st_gateways s)).*2) (Some (map_to_list (st_routes s)).*2) (Some (map_to_list (st_backends s)).*2) (Some [])
    (Some [api_service]) (Some []) (Some []) (Some []) (Some [])
    (Some [Crd.mkEndpointSlice "prod" {[ "kubernetes.io/service-name"%string := "api"%string ]}
       [Crd.mkEndpoint ["10.1.0.1"%string; "10.1.0.2"%string] None None None None None] [Crd.mkEndpointPort (Some "http"%string) (Some 9090)]])
    (λ _, None).

Definition shop_reconciled : store := (reconcile [] (shop_store shop_rules)).1.1.
Definition shop_snapshot : outcome (option Pb.ConfigSnapshot) :=
  BuildSnapshot in_order multipliers (λ _, Some [1]) None 0 (shop_kube shop_reconciled).

Lemma shop_run :
  Reconcile upper in_order no_headers no_pages services_of "" "prod/shop" [] (shop_store shop_rules) = (shop_reconciled, [], Some tt).
Proof. vm_compute. reflexivity. Qed.

(** The build of the example and its conditions. *)
Lemma shop_build :
  ∃ bc snap, prefetch (shop_kube shop_reconciled) = Some bc ∧ shop_snapshot = Returns (Some snap) ∧ listed shop_reconciled bc ∧ names_identify bc ∧
    getService bc "prod" "api" = Some api_service.
Proof.
  destruct (prefetch (shop_kube shop_reconciled)) as [bc|] eqn:Epre; [|by vm_compute in Epre].
  destruct shop_snapshot as [[snap|]|] eqn:Esnap; [|by vm_compute in Esnap..]. exists bc, snap. clear Esnap. split; [reflexivity|]. split; [reflexivity|].
  vm_compute in Epre. injection Epre as <-. split; [split; vm_compute; reflexivity|]. split; [|vm_compute; reflexivity]. split.
  - apply (bool_decide_unpack _). vm_compute. exact I.
  - apply Forall_forall. apply (bool_decide_unpack _). vm_compute. exact I.
  - apply (bool_decide_unpack _). vm_compute. exact I.
Qed.

(** The conclusion for the path [/api]. *)
Definition api_is_served (snap : Pb.ConfigSnapshot) : Prop :=
  ∃ rc cluster weight eps, routes_of (TranslateSnapshot (Some snap)) !! Dp.r_Name rc = Some rc ∧ Dp.r_Hostnames rc = ["shop.example"%string] ∧
    Dp.r_PathMatch rc = Some (Dp.mkPathMatch Dp.PATH_EXACT "/api") ∧ Dp.r_BackendRefs rc = [Dp.mkBackendRef "shop-backend-0-1" weight] ∧
    clusters_of (TranslateSnapshot (Some snap)) !! "shop-backend-0-1"%string = Some cluster ∧
    Dp.k_Endpoints cluster ≡ₚ translateEndpoint <$> eps ++ [].

