(* ===== verification/GatewaySpec.v ===== *)
(** * What the Gateway API promises

    The routes of the dataplane select what an HTTPRoute selects; the calls a
    GRPCRoute names reach the endpoints of its Services; the conditions of
    listeners report conflicts. *)

From S2P Require Import Prelude GoStrings Float64 GoLib Convert BuilderTypes BuilderConvert SnapshotBuilder BuilderVersion IngressTranslate KubeApi IngressReconcile GatewayApi GatewayReconcile Dataplane DataplaneSpec IngressDataplane.
Open Scope Z_scope.

(** ** Loops with errors *)

Lemma rbind_Ok {A B} (r : result A) (f : A → result B) y : rbind r f = Ok y ↔ ∃ x, r = Ok x ∧ f x = Ok y.
Proof. destruct r; simpl; [split; [by eauto|by intros (x' & [= ->] & ?)]|split; [done|by intros (? & [=] & _)]..]. Qed.

Lemma each_from_Ok {A B} (f : nat → A → result B) (g : A → B → Prop) i l l' :
  (∀ i x y, f i x = Ok y → g x y) → each_from f i l = Ok l' → Forall2 g l l'.
Proof.
  intros Hf. revert i l'. induction l as [|x l IH]; intros i l' E; simpl in E; [injection E as <-; constructor|].
  apply rbind_Ok in E as (y & Ey & E). apply rbind_Ok in E as (ys & Eys & [= <-]). constructor; eauto.
Qed.

Lemma each_Ok {A B} (f : A → result B) l l' : each f l = Ok l' → Forall2 (λ x y, f x = Ok y) l l'.
Proof. apply each_from_Ok. done. Qed.

(** ** Selection *)

Section selection.
Context (match_host : list string → string → bool) (match_path : Dp.PathMatchType → string → string → bool)
  (match_regex : string → string → bool).

#[local] Notation config_selects := (config_selects match_host match_path match_regex).
#[local] Notation match_holds := (match_holds match_path match_regex).

(** The meaning of a match of the Gateway API: the path is a prefix unless a
    type is given, headers and query parameters are compared by value unless a
    type is given, and all conditions of the match have to hold. *)
Definition gw_path_type (t : option string) : Dp.PathMatchType :=
  match t with
  | None => Dp.PATH_PREFIX
  | Some t => if str_eqb t "Exact" then Dp.PATH_EXACT else if str_eqb t "PathPrefix" then Dp.PATH_PREFIX
      else if str_eqb t "RegularExpression" then Dp.PATH_REGEX else Dp.PATH_UNSPECIFIED
  end.
Definition gw_is_regex (t : option string) : bool := match t with Some t => str_eqb t "RegularExpression" | None => false end.
Definition gw_match_holds (m : Gw.HTTPRouteMatch) (rq : request) : bool :=
  match Gw.m_Path m with Some p => match_path (gw_path_type (Gw.pa_Type p)) (default ""%string (Gw.pa_Value p)) (rq_path rq) | None => true end &&
  forallb (λ h, header_holds match_regex (gw_is_regex (Gw.ha_Type h)) (Gw.ha_Name h) (Gw.ha_Value h) rq) (Gw.m_Headers m) &&
  forallb (λ q, value_holds match_regex (gw_is_regex (Gw.ha_Type q)) (Gw.ha_Name q) (Gw.ha_Value q) (rq_query rq)) (Gw.m_QueryParams m) &&
  match Gw.m_Method m with Some x => str_empty x || str_eqb x (rq_method rq) | None => true end.
Definition gw_rule_selects (r : Gw.HTTPRoute) (rule : Gw.HTTPRouteRule) (rq : request) : bool :=
  match_host (Gw.ro_Hostnames r) (rq_host rq) &&
  ((length (Gw.r_Matches rule) =? 0)%nat || existsb (λ m, gw_match_holds m rq) (Gw.r_Matches rule)).

(** No header is matched by a regular expression, and no query parameter is matched
    at all. *)
Definition gw_plain_match (m : Gw.HTTPRouteMatch) : bool :=
  forallb (λ h, negb (gw_is_regex (Gw.ha_Type h))) (Gw.m_Headers m) && (length (Gw.m_QueryParams m) =? 0)%nat.
Definition gw_plain (rule : Gw.HTTPRouteRule) : bool := forallb gw_plain_match (Gw.r_Matches rule).

Lemma translate_header_spec e h h' :
  translate_header e h = Ok h' →
  Crd.ha_Name h' = Gw.ha_Name h ∧ Crd.ha_Value h' = Gw.ha_Value h ∧ (convertHeaderMatchType (Crd.ha_Type h') =? 2) = gw_is_regex (Gw.ha_Type h).
Proof.
  unfold translate_header, translate_header_type, gw_is_regex. destruct (Gw.ha_Type h) as [t|]; [|intros [= <-]; done].
  destruct (str_eqb t "Exact") eqn:E1; simpl.
  - intros [= <-]. apply str_eqb_true in E1 as ->. done.
  - destruct (str_eqb t "RegularExpression") eqn:E2; simpl; [|done]. intros [= <-]. apply str_eqb_true in E2 as ->. done.
Qed.

Lemma translate_path_spec p p' :
  translate_path p = Ok p' →
  translatePathMatchType (convertPathMatchType (Crd.pa_Type p')) = gw_path_type (Gw.pa_Type p) ∧ Crd.pa_Value p' = default ""%string (Gw.pa_Value p).
Proof.
  unfold translate_path, gw_path_type. destruct (Gw.pa_Value p) as [v|]; [|done]. destruct (Gw.pa_Type p) as [t|]; simpl; [|intros [= <-]; done].
  destruct (str_eqb t "Exact") eqn:E1; simpl; [intros [= <-]; apply str_eqb_true in E1 as ->; done|].
  destruct (str_eqb t "PathPrefix") eqn:E2; simpl; [intros [= <-]; apply str_eqb_true in E2 as ->; done|].
  destruct (str_eqb t "RegularExpression") eqn:E3; simpl; [intros [= <-]; apply str_eqb_true in E3 as ->; done|done].
Qed.

Lemma forallb_Forall2 {A B} (f : A → bool) (g : B → bool) l l' : Forall2 (λ x y, f x = g y) l l' → forallb f l = forallb g l'.
Proof. induction 1 as [|x y l l' E _ IH]; simpl; [done|]. by rewrite E, IH. Qed.
Lemma existsb_Forall2 {A B} (f : A → bool) (g : B → bool) l l' : Forall2 (λ x y, f x = g y) l l' → existsb f l = existsb g l'.
Proof. induction 1 as [|x y l l' E _ IH]; simpl; [done|]. by rewrite E, IH. Qed.

(** One match, through the snapshot. *)
Definition convert_match (m : Crd.HTTPRouteMatch) : Pb.RouteMatch :=
  Pb.mkRouteMatch ((λ p, Pb.mkPathMatch (convertPathMatchType (Crd.pa_Type p)) (Crd.pa_Value p)) <$> Crd.m_Path m)
    ((λ h, Pb.mkHeaderMatch (convertHeaderMatchType (Crd.ha_Type h)) (Crd.ha_Name h) (Crd.ha_Value h)) <$> Crd.m_Headers m) (getString (Crd.m_Method m)).

Lemma translateHTTPRouteMatch_holds m m' rq :
  translateHTTPRouteMatch m = Ok m' → gw_plain_match m = true →
  match_holds (convert_match m') rq = gw_match_holds m rq ∧
  forallb (λ h, negb (Pb.ha_Type h =? 2)) (Pb.m_Headers (convert_match m')) = true.
Proof.
  unfold translateHTTPRouteMatch, gw_plain_match. intros E [Hh Hq]%andb_true_iff. apply Nat.eqb_eq, nil_length_inv in Hq. apply rbind_Ok in E as (path & Ep & E). apply rbind_Ok in E as (headers & Eh & E).
  apply rbind_Ok in E as (params & _ & [= <-]). apply each_Ok in Eh. split.
  - unfold DataplaneSpec.match_holds, gw_match_holds. rewrite Hq. simpl. rewrite andb_true_r. f_equal; [f_equal|].
    + destruct (Gw.m_Path m) as [p|]; [|injection Ep as <-; done]. apply rbind_Ok in Ep as (p' & Ep & [= <-]).
      apply translate_path_spec in Ep as [Et Ev]. simpl. by rewrite Et, Ev.
    + symmetry. apply forallb_Forall2, Forall2_fmap_r. eapply Forall2_impl; [exact Eh|]. intros h h' Hx. simpl.
      apply translate_header_spec in Hx as (-> & -> & ->). done.
    + by destruct (Gw.m_Method m).
  - simpl. rewrite <- Hh. symmetry. apply forallb_Forall2, Forall2_fmap_r. eapply Forall2_impl; [exact Eh|]. intros h h' Hx. simpl.
    by apply translate_header_spec in Hx as (_ & _ & ->).
Qed.

Definition gw_ref (br : Gw.BackendRef) : Dp.BackendRef := Dp.mkBackendRef (Gw.br_Name br) (uint32 (default 1 (Gw.br_Weight br))).

Lemma translated_refs ns (bs : list Gw.HTTPBackendRef) :
  translateBackendRef <$> (convertBackendRef ns <$> ((λ b, translate_ref ns (Gw.hb_Ref b)) <$> bs)) = gw_ref ∘ Gw.hb_Ref <$> bs.
Proof. induction bs as [|b bs IH]; [done|]. rewrite !fmap_cons. f_equal. exact IH. Qed.

Lemma translateHTTPRouteRule_selects units r rule rule' ns rq :
  translateHTTPRouteRule rule (Gw.ro_Namespace r) = Ok rule' → gw_plain rule = true →
  let rt := Pb.mkRoute "" ns (Gw.ro_Hostnames r) [] None None "" in
  let built := buildRule units (Gw.ro_Namespace r) rule' in
  rule_selects match_host match_path match_regex rt built rq = gw_rule_selects r rule rq ∧ plain_headers built = true ∧
  translateBackendRef <$> Pb.r_BackendRefs built = gw_ref ∘ Gw.hb_Ref <$> Gw.r_BackendRefs rule.
Proof.
  unfold translateHTTPRouteRule. intros E Hplain. apply rbind_Ok in E as (ms & Em & E). apply rbind_Ok in E as (fs & _ & E).
  apply each_Ok in Em. set (rt := Pb.mkRoute _ _ _ _ _ _ _). simpl. destruct (Gw.r_BackendRefs rule) as [|b bs] eqn:Eb; [done|].
  apply rbind_Ok in E as (more & _ & [= <-]).
  assert (Forall2 (λ m m', match_holds m' rq = gw_match_holds m rq ∧
    forallb (λ h, negb (Pb.ha_Type h =? 2)) (Pb.m_Headers m') = true) (Gw.r_Matches rule) (convert_match <$> ms)) as Hm.
  { apply Forall2_fmap_r. unfold gw_plain in Hplain. revert Hplain. clear -Em. induction Em as [|m m' l l' E _ IH]; [constructor|].
    intros [Hm Hl]%andb_true_iff. constructor; [by apply translateHTTPRouteMatch_holds|by apply IH]. }
  split; [|split].
  - unfold rule_selects, gw_rule_selects. cbn [Pb.ro_Hostnames Pb.r_Matches]. change (convertMatches ms) with (convert_match <$> ms). f_equal. f_equal.
    + by rewrite (Forall2_length _ _ _ Hm).
    + symmetry. apply existsb_Forall2. eapply Forall2_impl; [exact Hm|]. intros m m' [Hx _]. symmetry. exact Hx.
  - unfold plain_headers. cbn [Pb.r_Matches]. change (convertMatches ms) with (convert_match <$> ms).
    change (forallb (λ m, forallb (λ h, negb (Pb.ha_Type h =? 2)) (Pb.m_Headers m)) (convert_match <$> ms) = true).
    clear -Hm. induction Hm as [|m m' l l' [_ E] _ IH]; [reflexivity|]. by apply andb_true_iff.
  - exact (translated_refs (Gw.ro_Namespace r) (b :: bs)).
Qed.

(** C34: the routes of the dataplane select what an HTTPRoute selects. Take a route
    that can be translated, none of whose matches compares a header with a
    regular expression or compares a query parameter (the program takes the
    expression as a value, and drops the parameter). The translation has, for a request, a route of the dataplane that
    selects it and has given backends exactly when the host names of the route
    cover the request and one of the matches of a rule with these backends holds,
    by the meaning of the Gateway API. The backends are named like their Services
    and have the weights of the rule, one by default. How hosts, paths and regular
    expressions match is the dataplane's, and the same on both sides; header names
    are compared as they are written. *)
Theorem http_route_selects r pr units rq bs :
  TranslateHTTPRouteToProxyRoute r = Ok pr → (∀ rule, rule ∈ Gw.ro_Rules r → gw_plain rule = true) →
  (∃ rc, rc ∈ translateRoutes [buildRoute units pr] ∧ config_selects rc rq = true ∧ Dp.r_BackendRefs rc = bs) ↔
  (∃ rule, rule ∈ Gw.ro_Rules r ∧ gw_rule_selects r rule rq = true ∧ bs = gw_ref ∘ Gw.hb_Ref <$> Gw.r_BackendRefs rule).
Proof.
  unfold TranslateHTTPRouteToProxyRoute. intros E Hplain. apply rbind_Ok in E as (rules & Er & [= <-]). apply each_Ok in Er.
  assert (∀ rule', rule' ∈ rules → ∃ rule, rule ∈ Gw.ro_Rules r ∧ translateHTTPRouteRule rule (Gw.ro_Namespace r) = Ok rule') as Hl.
  { intros rule' Hin. apply list_elem_of_lookup in Hin as [i Hi]. eapply Forall2_lookup_r in Er as (rule & Hr & Et); [|exact Hi].
    exists rule. split; [by apply list_elem_of_lookup_2 in Hr|done]. }
  assert (∀ rule, rule ∈ Gw.ro_Rules r → ∃ rule', rule' ∈ rules ∧ translateHTTPRouteRule rule (Gw.ro_Namespace r) = Ok rule') as Hr.
  { intros rule Hin. apply list_elem_of_lookup in Hin as [i Hi]. eapply Forall2_lookup_l in Er as (rule' & Hr & Et); [|exact Hi].
    exists rule'. split; [by apply list_elem_of_lookup_2 in Hr|done]. }
  rewrite translateRoutes_selects.
  - split.
    + intros (rt & rule1 & ->%list_elem_of_singleton & (rule' & -> & Hin)%list_elem_of_fmap & Hsel & ->).
      destruct (Hl rule' Hin) as (rule & Hrule & Et). exists rule. split; [done|].
      destruct (translateHTTPRouteRule_selects units r rule rule' "" rq Et (Hplain rule Hrule)) as (Es & _ & Eb). split; [rewrite <- Es; exact Hsel|exact Eb].
    + intros (rule & Hrule & Hsel & ->). destruct (Hr rule Hrule) as (rule' & Hin & Et).
      destruct (translateHTTPRouteRule_selects units r rule rule' "" rq Et (Hplain rule Hrule)) as (Es & _ & Eb).
      exists (buildRoute units (proxy_route r (Gw.ro_Name r) (Gw.ro_Hostnames r) rules)), (buildRule units (Gw.ro_Namespace r) rule').
      split; [by apply list_elem_of_singleton|]. split; [by apply list_elem_of_fmap_2|]. split; [rewrite <- Es in Hsel; exact Hsel|by rewrite <- Eb].
  - intros rt rule1 ->%list_elem_of_singleton (rule' & -> & Hin)%list_elem_of_fmap. destruct (Hl rule' Hin) as (rule & Hrule & Et).
    destruct (translateHTTPRouteRule_selects units r rule rule' "" rq Et (Hplain rule Hrule)) as (_ & Ep & _). exact Ep.
Qed.

End selection.

(** ** What a reconciliation of a GRPCRoute leaves *)

Lemma bind_Some {S A B} (m : api S A) (f : A → api S B) o s s' o' y :
  bind m f o s = (s', o', Some y) → ∃ s1 o1 x, m o s = (s1, o1, Some x) ∧ f x o1 s1 = (s', o', Some y).
Proof. unfold bind. destruct (m o s) as [[s1 o1] [x|]] eqn:E; [|done]. intros Hf. by exists s1, o1, x. Qed.

Lemma get_Some {S A} (k : kind A) key o (s s' : S) o' x : get k key o s = (s', o', Some x) → s' = s ∧ x = kd_get k s !! key.
Proof. unfold get, call. destruct o as [|[|] o]; intros [= <- <- <-]; done. Qed.

Lemma update_Some {S A} (k : kind A) key x o (s s' : S) o' y :
  update k key x o s = (s', o', Some y) → s' = kd_put k (<[key := x]> (kd_get k s)) s.
Proof. unfold update, call. destruct o as [|[|] o]; intros [= <- <- <-]; done. Qed.

(** A computation that announces nothing. *)
Definition quiet {A} (m : api gstore A) : Prop := ∀ o s s' o' r, m o s = (s', o', r) → gs_updates s' = gs_updates s.
Definition quiet_kind {A} (k : kind (S := gstore) A) : Prop := ∀ m s, gs_updates (kd_put k m s) = gs_updates s.

Lemma quiet_ret {A} (x : A) : quiet (ret x).
Proof. by intros o s s' o' r [= <- <- <-]. Qed.
Lemma quiet_fail {A} : quiet (A := A) fail.
Proof. by intros o s s' o' r [= <- <- <-]. Qed.
Lemma quiet_bind {A B} (m : api gstore A) (f : A → api gstore B) : quiet m → (∀ x, quiet (f x)) → quiet (bind m f).
Proof.
  intros Hm Hf o s s' o' r. unfold bind. destruct (m o s) as [[s1 o1] [x|]] eqn:E.
  - intros E'. rewrite (Hf x _ _ _ _ _ E'). by eapply Hm.
  - intros [= <- <- <-]. by eapply Hm.
Qed.
Lemma quiet_attempt {A} (m : api gstore A) : quiet m → quiet (attempt m).
Proof. intros Hm o s s' o' r. unfold attempt. destruct (m o s) as [[s1 o1] x] eqn:E. intros [= <- <- <-]. by eapply Hm. Qed.
Lemma quiet_get {A} (k : kind A) key : quiet (get k key).
Proof. intros o s s' o' r. unfold get, call. destruct o as [|[|] o]; by intros [= <- <- <-]. Qed.
Lemma quiet_update {A} (k : kind A) key x : quiet_kind k → quiet (update k key x).
Proof. intros Hk o s s' o' r. unfold update, call. destruct o as [|[|] o]; intros [= <- <- <-]; [apply Hk|apply Hk|done]. Qed.
Lemma quiet_for_each {A} (f : A → api gstore unit) l : (∀ x, quiet (f x)) → quiet (for_each f l).
Proof. intros Hf. induction l as [|x l IH]; [apply quiet_ret|]. apply quiet_bind; [apply Hf|done]. Qed.

Create HintDb quiet.
#[local] Hint Resolve quiet_ret quiet_fail quiet_bind quiet_attempt quiet_get quiet_update quiet_for_each : quiet.
#[local] Hint Extern 1 (quiet_kind _) => by intros ? ? : quiet.

Section grpc.
Context (SetStatusCondition : list Gw.Condition → Gw.Condition → list Gw.Condition).
Context (visit : visiting) (visit_order : ∀ V (m : gmap string V), range_order m (visit V m)).

#[local] Notation Reconcile_GRPCRoute := (Reconcile_GRPCRoute SetStatusCondition visit).

Lemma quiet_backend ns nb : quiet (reconcile_backend ns nb).
Proof. destruct nb as [name br]. apply quiet_bind; [auto with quiet|]. intros [v|]; auto 6 with quiet. Qed.

Lemma quiet_gateways ns prs : quiet (has_novaedge_gateway ns prs).
Proof.
  induction prs as [|pr prs IH]; simpl; [auto with quiet|]. destruct (negb _); [done|]. apply quiet_bind; [auto with quiet|].
  intros [[gw|]|]; [destruct (str_eqb _ _)|..]; auto with quiet.
Qed.

(** The backend of an entry of the map of references. *)
Definition entry_key (ns : string) (nb : string * Gw.BackendRef) : string := ns_key (ref_namespace ns nb.2) nb.1.

Lemma reconcile_backend_Some ns nb o s s' o' :
  reconcile_backend ns nb o s = (s', o', Some tt) →
  ∃ labels, s' = kd_put proxyBackend_kind (<[entry_key ns nb := service_backend nb.1 (ref_namespace ns nb.2) nb.2 labels]> (gs_proxyBackends s)) s.
Proof.
  destruct nb as [name br]. unfold reconcile_backend. intros E. apply bind_Some in E as (s1 & o1 & v & E1 & E).
  apply get_Some in E1 as [-> ->]. destruct (kd_get service_kind s !! _); [|done].
  apply bind_Some in E as (s2 & o2 & b & E2 & E). apply get_Some in E2 as [-> ->]. apply update_Some in E as ->. eexists. reflexivity.
Qed.

Lemma reconcile_refs_Some ns l o s s' o' :
  for_each (reconcile_backend ns) l o s = (s', o', Some tt) → NoDup (entry_key ns <$> l) →
  gs_proxyRoutes s' = gs_proxyRoutes s ∧
  (∀ nb, nb ∈ l → ∃ labels, gs_proxyBackends s' !! entry_key ns nb = Some (service_backend nb.1 (ref_namespace ns nb.2) nb.2 labels)) ∧
  (∀ k b, gs_proxyBackends s' !! k = Some b → k = backend_key b ∨ gs_proxyBackends s !! k = Some b) ∧
  (∀ k, k ∉ entry_key ns <$> l → gs_proxyBackends s' !! k = gs_proxyBackends s !! k).
Proof.
  revert o s. induction l as [|nb l IH]; intros o s E Hnd; simpl in E.
  - injection E as <- <-. split; [done|]. split; [by intros ? []%not_elem_of_nil|]. split; [by right|done].
  - apply bind_Some in E as (s1 & o1 & [] & E1 & E). apply reconcile_backend_Some in E1 as (labels & ->).
    rewrite fmap_cons in Hnd. apply NoDup_cons in Hnd as [Hn Hnd]. apply IH in E as (I1 & I2 & I3 & I4); [|done]. split; [done|]. split; [|split].
    + intros nb' [->|Hin]%elem_of_cons; [|by apply I2]. exists labels. rewrite I4 by done. simpl. apply lookup_insert_eq.
    + intros k b Hb. destruct (I3 k b Hb) as [?|Hk]; [by left|]. simpl in Hk. apply lookup_insert_Some in Hk as [[<- <-]|[_ ?]]; [by left|by right].
    + intros k Hk. rewrite fmap_cons, not_elem_of_cons in Hk. destruct Hk as [Hk1 Hk2]. rewrite I4 by done. simpl. by rewrite lookup_insert_ne.
Qed.

(** A reconciliation that announces an update has written the route and its
    backends. *)
Lemma Reconcile_GRPCRoute_announced key r o s s1 o1 res :
  gs_grpc s !! key = Some r → Gw.ro_Deleted r = false → Reconcile_GRPCRoute key o s = (s1, o1, res) → gs_updates s1 ≠ gs_updates s →
  ∃ route s2 s3 o2 o3, TranslateGRPCRouteToProxyRoute r = Ok route ∧ reconcileGRPCBackends visit r o2 s2 = (s3, o3, Some tt) ∧
    gs_proxyBackends s2 = gs_proxyBackends s ∧ gs_proxyBackends s1 = gs_proxyBackends s3 ∧ gs_proxyRoutes s1 !! kd_key proxyRoute_kind route = Some route.
Proof.
  intros Hk Hd E Hu. unfold GatewayReconcile.Reconcile_GRPCRoute in E. unfold bind at 1 in E.
  destruct (get grpc_kind key o s) as [[s' o'] [found|]] eqn:Eg; [|injection E as <- <- <-; by rewrite (quiet_get _ _ _ _ _ _ _ Eg) in Hu].
  apply get_Some in Eg as [-> ->]. change (kd_get grpc_kind s) with (gs_grpc s) in E. unfold Gw.GRPCRoute in *. rewrite Hk, Hd in E.
  unfold bind at 1 in E. destruct (has_novaedge_gateway _ _ o' s) as [[s2 o2] [ours|]] eqn:Eo; [|injection E as <- <- <-; by rewrite (quiet_gateways _ _ _ _ _ _ _ Eo) in Hu].
  assert (s2 = s) as ->.
  { clear -Eo. revert o' Eo. induction (Gw.ro_ParentRefs r) as [|pr prs IH]; intros o' Eo; simpl in Eo; [by injection Eo as <- _ _|].
    destruct (negb _); [by eapply IH|]. unfold bind, attempt in Eo. destruct (get gw_kind _ o' s) as [[s3 o3] x] eqn:Eg.
    assert (s3 = s) as -> by (unfold get, call in Eg; destruct o' as [|[|] ?]; by injection Eg as <- _ _).
    destruct x as [[gw|]|]; [destruct (str_eqb _ _); [by injection Eo as <- _ _|]|..]; by eapply IH. }
  destruct ours; simpl in E; [|by injection E as <- <- <-].
  assert (∀ c o s s' o' x, updateGRPCRouteStatus SetStatusCondition key r c o s = (s', o', x) → gs_updates s' = gs_updates s) as Hst.
  { intros c. change (quiet (updateGRPCRouteStatus SetStatusCondition key r c)). unfold updateGRPCRouteStatus. auto 6 with quiet. }
  destruct (TranslateGRPCRouteToProxyRoute r) as [route|err|] eqn:Et; [|by apply Hst in E|by injection E as <- <- <-].
  unfold bind at 1, attempt in E. destruct (reconcileGRPCBackends visit r o2 s) as [[s3 o3] b] eqn:Eb.
  assert (gs_updates s3 = gs_updates s) as Hu3.
  { assert (quiet (reconcileGRPCBackends visit r)) as Hq by (apply quiet_for_each, quiet_backend). by apply Hq in Eb. }
  destruct b as [[]|]; [|apply Hst in E; congruence].
  unfold bind at 1 in E. destruct (get proxyRoute_kind _ o3 s3) as [[s4 o4] x] eqn:Eg.
  assert (s4 = s3) as -> by (unfold get, call in Eg; destruct o3 as [|[|] ?]; by injection Eg as <- _ _).
  destruct x as [existing|]; [|injection E as <- <- <-; congruence].
  unfold bind at 1 in E. destruct (update proxyRoute_kind _ route o4 s3) as [[s5 o5] w] eqn:Ew.
  assert (gs_updates s5 = gs_updates s3) as Hu5 by (revert Ew; apply quiet_update; by intros ? ?).
  destruct w as [[]|]; [|apply Hst in E; congruence]. apply update_Some in Ew as ->.
  unfold bind at 1 in E. match type of E with (let (_, _) := ?t in _) = _ => destruct t as [[s6 o6] y] eqn:Ey end.
  destruct y as [[]|]; [|injection E as <- <- <-; apply quiet_update in Ey; [by rewrite Ey in Hu|by intros ? ?]].
  apply update_Some in Ey as ->. injection E as <- <- <-.
  exists route, s, s3, o2, o3. split; [done|]. split; [done|]. split; [done|]. split; [done|]. simpl. apply lookup_insert_eq.
Qed.
(** ** The references of a route *)

Definition gen_name (ns : string) (br : Gw.BackendRef) : string := GenerateProxyBackendName (Gw.br_Name br) (ref_namespace ns br) (ref_port br).

Lemma collect_refs_insert_all ns refs :
  collect_refs ns refs = insert_all (gen_name ns) ∅ (filter (λ b, is_service b = true) refs).
Proof.
  unfold collect_refs, insert_all. generalize (∅ : gmap string Gw.BackendRef). induction refs as [|b refs IH]; intros m; [done|].
  rewrite filter_cons. simpl. destruct (is_service b); [rewrite decide_True by done|rewrite decide_False by done]; simpl; apply IH.
Qed.

Lemma collect_refs_Some ns refs name b : collect_refs ns refs !! name = Some b → b ∈ refs ∧ is_service b = true ∧ gen_name ns b = name.
Proof.
  rewrite collect_refs_insert_all, insert_all_lookup. destruct (last _) as [x|] eqn:E; [|by rewrite lookup_empty]. intros [= <-].
  apply last_Some in E as [l El]. assert (x ∈ filter (λ b, gen_name ns b = name) (filter (λ b, is_service b = true) refs)) as Hx.
  { rewrite El. apply elem_of_app. right. by apply list_elem_of_singleton. }
  apply list_elem_of_filter in Hx as [Hn Hx]. by apply list_elem_of_filter in Hx as [? ?].
Qed.

Lemma collect_refs_is_Some ns refs b : b ∈ refs → is_service b = true → is_Some (collect_refs ns refs !! gen_name ns b).
Proof.
  intros Hb Hs. rewrite collect_refs_insert_all, insert_all_lookup. destruct (last _) as [x|] eqn:E; [by exists x|].
  apply last_None in E. assert (b ∈ filter (λ x, gen_name ns x = gen_name ns b) (filter (λ b, is_service b = true) refs)) as Hin.
  { apply list_elem_of_filter. split; [done|]. by apply list_elem_of_filter. }
  rewrite E in Hin. by apply not_elem_of_nil in Hin.
Qed.

Lemma ns_key_inj a b a' b' : no_char "/" a = true → no_char "/" a' = true → ns_key a b = ns_key a' b' → a = a' ∧ b = b'.
Proof.
  unfold ns_key. intros Ha Ha' E. pose proof (Cut_app "/" a b Ha) as H1. pose proof (Cut_app "/" a' b' Ha') as H2.
  change (String "/" b) with ("/" +:+ b) in H1. change (String "/" b') with ("/" +:+ b') in H2. rewrite E, H2 in H1. by injection H1 as -> ->.
Qed.

(** The references of a route can be told apart by the names of their backends,
    and namespaces contain no slash. *)
Record refs_identify (ns : string) (refs : list Gw.BackendRef) : Prop := {
  refs_told_apart b b' : b ∈ refs → b' ∈ refs → is_service b = true → is_service b' = true → gen_name ns b = gen_name ns b' →
    ref_namespace ns b = ref_namespace ns b' ∧ Gw.br_Name b = Gw.br_Name b' ∧ ref_port b = ref_port b';
  refs_without_slash b : b ∈ refs → no_char "/" (ref_namespace ns b) = true;
}.

Lemma elem_of_visited_refs ns refs nb :
  nb ∈ visit _ (collect_refs ns refs) ↔ collect_refs ns refs !! nb.1 = Some nb.2.
Proof. rewrite (visit_order _ (collect_refs ns refs)). destruct nb as [n b]. apply elem_of_map_to_list. Qed.

Lemma entry_keys_distinct ns refs : refs_identify ns refs → NoDup (entry_key ns <$> visit _ (collect_refs ns refs)).
Proof.
  intros Hr. apply NoDup_fmap_2_strong; [|rewrite (visit_order _ (collect_refs ns refs)); apply NoDup_map_to_list].
  intros [n b] [n' b'] H1%elem_of_visited_refs H2%elem_of_visited_refs E. unfold entry_key in E. simpl in *. pose proof (collect_refs_Some _ _ _ _ H1) as (I1 & _ & _).
  pose proof (collect_refs_Some _ _ _ _ H2) as (I2 & _ & _). apply ns_key_inj in E as [_ ->]; [|by apply (refs_without_slash ns refs Hr)..].
  rewrite H1 in H2. by injection H2 as ->.
Qed.

(** The backend of a reference after the reconciliation. *)
Lemma reference_backend ns refs o s s' o' br :
  reconcile_refs visit ns refs o s = (s', o', Some tt) → refs_identify ns refs → br ∈ refs → is_service br = true →
  ∃ b, gs_proxyBackends s' !! backend_key b = Some b ∧ Crd.k_Name b = gen_name ns br ∧ Crd.k_Namespace b = ref_namespace ns br ∧
    Crd.k_ServiceRef b = Some (Crd.mkServiceReference (Gw.br_Name br) None (ref_port br)).
Proof.
  intros E Hr Hb Hs. apply reconcile_refs_Some in E as (_ & Hall & _); [|by apply entry_keys_distinct].
  destruct (collect_refs_is_Some ns refs br Hb Hs) as [b Hin]. pose proof (collect_refs_Some _ _ _ _ Hin) as (Hb' & Hs' & Hn).
  destruct (refs_told_apart ns refs Hr b br Hb' Hb Hs' Hs Hn) as (E1 & E2 & E3).
  destruct (Hall (gen_name ns br, b)) as [labels Hl]; [by apply elem_of_visited_refs|].
  unfold entry_key in Hl. simpl in Hl. rewrite E1 in Hl. exists (service_backend (gen_name ns br) (ref_namespace ns br) b labels).
  split; [exact Hl|]. split; [done|]. split; [done|]. simpl. by rewrite E2, E3.
Qed.

(** Backends are filed under their own keys, and stay so. *)
Definition g_filed (s : gstore) : Prop := ∀ k b, gs_proxyBackends s !! k = Some b → k = backend_key b.

(** The build context lists the routes and backends of the store. *)
Record g_listed (s : gstore) (bc : buildContext) : Prop := {
  g_routes : bc_routes bc ≡ₚ (map_to_list (gs_proxyRoutes s)).*2;
  g_backends : bc_backends bc ≡ₚ (map_to_list (gs_proxyBackends s)).*2;
}.

Lemma g_listed_keys s bc : g_filed s → g_listed s bc → NoDup (backend_key <$> bc_backends bc).
Proof.
  intros Hf Hl. rewrite (g_backends _ _ Hl). rewrite <- list_fmap_compose.
  assert (compose backend_key snd <$> map_to_list (gs_proxyBackends s) = fst <$> map_to_list (gs_proxyBackends s)) as ->; [|apply NoDup_fst_map_to_list].
  apply list_fmap_ext. intros i [k b] Hi. simpl. symmetry. apply Hf. apply elem_of_map_to_list. by apply list_elem_of_lookup_2 in Hi.
Qed.

(** ** Calls *)

(** The matches of a rule: a rule without matches has one without conditions. *)
Definition grpc_matches (rule : Gw.GRPCRouteRule) : list Gw.GRPCRouteMatch :=
  match Gw.gr_Matches rule with [] => [Gw.mkGRPCRouteMatch None []] | ms => ms end.

Lemma translateGRPCRouteRule_Ok rule ns rule' :
  translateGRPCRouteRule rule ns = Ok rule' → rule' = bare_crd_rule (translate_grpc_match <$> grpc_matches rule) [] (grpc_ref ns <$> Gw.gr_BackendRefs rule).
Proof.
  unfold translateGRPCRouteRule, grpc_matches. destruct (Gw.gr_BackendRefs rule); [done|]. intros [= <-]. by destruct (Gw.gr_Matches rule).
Qed.

(** A call selected by a match: a POST request of gRPC for the host names of
    the route, with the path of service and method and the headers. *)
Definition grpc_selects (match_host : list string → string → bool) (match_path : Dp.PathMatchType → string → string → bool)
    (r : Gw.GRPCRoute) (m : Gw.GRPCRouteMatch) (rq : request) : bool :=
  match_host (Gw.ro_Hostnames r) (rq_host rq) &&
  (match Gw.gx_Method m with
   | Some x => match_path (if gw_is_regex (Gw.gm_Type x) then Dp.PATH_REGEX else Dp.PATH_EXACT)
       ("/" +:+ default ""%string (Gw.gm_Service x) +:+ match Gw.gm_Method x with Some y => "/" +:+ y | None => "" end) (rq_path rq)
   | None => true
   end &&
   (forallb (λ h, bool_decide (rq_headers rq !! Gw.ha_Name h = Some (Gw.ha_Value h))) (Gw.gx_Headers m) &&
    bool_decide (rq_headers rq !! "Content-Type"%string = Some "application/grpc"%string)) &&
   str_eqb "POST" (rq_method rq)).

Definition grpc_plain (m : Gw.GRPCRouteMatch) : bool := forallb (λ h, negb (gw_is_regex (Gw.ha_Type h))) (Gw.gx_Headers m).

Lemma header_holds_exact match_regex name value rq :
  header_holds match_regex false name value rq = bool_decide (rq_headers rq !! name = Some value).
Proof.
  unfold header_holds, value_holds. destruct (rq_headers rq !! name) as [v|]; [|done].
  unfold str_eqb. apply bool_decide_ext. split; [by intros ->|by intros [= ->]].
Qed.

Lemma grpc_match_holds match_host match_path match_regex r m rq :
  grpc_plain m = true →
  match_host (Gw.ro_Hostnames r) (rq_host rq) && match_holds match_path match_regex (convert_match (translate_grpc_match m)) rq =
  grpc_selects match_host match_path r m rq ∧
  forallb (λ h, negb (Pb.ha_Type h =? 2)) (Pb.m_Headers (convert_match (translate_grpc_match m))) = true.
Proof.
  unfold grpc_plain. intros Hp.
  assert (∀ h, h ∈ Gw.gx_Headers m → Crd.ha_Type (translate_grpc_header h) = "Exact"%string) as Ht.
  { intros h Hh. rewrite forallb_forall in Hp. specialize (Hp h (proj1 (list_elem_of_In _ _) Hh)). unfold translate_grpc_header. simpl.
    destruct (Gw.ha_Type h) as [t|]; [|done]. unfold gw_is_regex in Hp. by destruct (str_eqb t "RegularExpression"). }
  split.
  - unfold DataplaneSpec.match_holds, grpc_selects. f_equal. simpl. f_equal. f_equal.
    + destruct (Gw.gx_Method m) as [x|]; [|done]. simpl. unfold gw_is_regex. destruct (Gw.gm_Type x) as [t|]; [|done]. by destruct (str_eqb t "RegularExpression").
    + rewrite fmap_app, forallb_app. f_equal.
      * rewrite <- list_fmap_compose. clear Hp. induction (Gw.gx_Headers m) as [|h l IH]; [done|]. simpl. f_equal.
        -- pose proof (Ht h (list_elem_of_here _ _)) as Eh. simpl in Eh. rewrite Eh. apply header_holds_exact.
        -- apply IH. intros h' Hh'. apply Ht. by right.
      * simpl. by rewrite header_holds_exact, andb_true_r.
  - simpl. rewrite fmap_app, forallb_app, andb_true_iff. split; [|done]. rewrite <- list_fmap_compose. apply forallb_forall. intros h' Hh'.
    apply list_elem_of_In, list_elem_of_fmap in Hh' as (h & -> & Hh). simpl. pose proof (Ht h Hh) as Eh. simpl in Eh. by rewrite Eh.
Qed.

Context `{TextTables} `{SortSlice}.

Definition all_refs (r : Gw.GRPCRoute) : list Gw.BackendRef := mbind Gw.gr_BackendRefs (Gw.ro_Rules r).

(** The rules of the translated route. *)
Lemma TranslateGRPCRoute_rules r route i rule :
  TranslateGRPCRouteToProxyRoute r = Ok route → Gw.ro_Rules r !! i = Some rule →
  Crd.ro_Namespace route = Gw.ro_Namespace r ∧ Crd.ro_Hostnames route = Gw.ro_Hostnames r ∧ Crd.ro_Pipeline route = None ∧
  Crd.ro_Rules route !! i = Some (bare_crd_rule (translate_grpc_match <$> grpc_matches rule) [] (grpc_ref (Gw.ro_Namespace r) <$> Gw.gr_BackendRefs rule)).
Proof.
  unfold TranslateGRPCRouteToProxyRoute. intros E Hi. apply rbind_Ok in E as (rules & Er & [= <-]). apply each_Ok in Er.
  eapply Forall2_lookup_l in Er as (rule' & Hr & Et); [|exact Hi]. apply translateGRPCRouteRule_Ok in Et as ->. done.
Qed.

(** The calls of a GRPCRoute reach its Services. When a reconciliation
    announces an update, then after a snapshot of the cluster and its
    translation the dataplane finds under its name a route for every match of
    every rule, which selects exactly the calls of the match (without regular
    expressions on headers) and sends to the backends of the rule with their
    weights; and it finds every such backend that is a Service under its name,
    with the endpoints of the Service, local and federated. Names must identify
    routes and backends. *)
Theorem grpc_route_reaches_dataplane key r oracle s s1 o1 res visit' units marshal fp now k bc snap i rule :
  gs_grpc s !! key = Some r → Gw.ro_Deleted r = false → Reconcile_GRPCRoute key oracle s = (s1, o1, res) → gs_updates s1 ≠ gs_updates s →
  g_filed s → refs_identify (Gw.ro_Namespace r) (all_refs r) →
  prefetch k = Some bc → g_listed s1 bc → names_identify bc → BuildSnapshot visit' units marshal fp now k = Returns (Some snap) →
  Gw.ro_Rules r !! i = Some rule →
  let req := TranslateSnapshot (Some snap) in
  (∀ j m, grpc_matches rule !! j = Some m → ∃ rc, routes_of req !! Dp.r_Name rc = Some rc ∧
    Dp.r_BackendRefs rc = (λ br, Dp.mkBackendRef (gen_name (Gw.ro_Namespace r) br) (uint32 (default 1 (Gw.br_Weight br)))) <$> Gw.gr_BackendRefs rule ∧
    (grpc_plain m = true → ∀ match_host match_path match_regex rq,
      config_selects match_host match_path match_regex rc rq = grpc_selects match_host match_path r m rq)) ∧
  (∀ br service, br ∈ Gw.gr_BackendRefs rule → is_service br = true →
    getService bc (ref_namespace (Gw.ro_Namespace r) br) (Gw.br_Name br) = Some service →
    ∃ cluster eps, clusters_of req !! gen_name (Gw.ro_Namespace r) br = Some cluster ∧
      resolveServiceEndpoints bc (Crd.mkServiceReference (Gw.br_Name br) None (ref_port br)) (ref_namespace (Gw.ro_Namespace r) br) = Some eps ∧
      Dp.k_Endpoints cluster ≡ₚ translateEndpoint <$> eps ++ remote_endpoints fp (ref_namespace (Gw.ro_Namespace r) br) (Gw.br_Name br)).
Proof.
  intros Hk Hd E Hu Hfiled Hids Hpre Hlist Hnames Eb Hi req.
  destruct (Reconcile_GRPCRoute_announced key r oracle s s1 o1 res Hk Hd E Hu) as (route & s2 & s3 & o2 & o3 & Et & Erefs & E2 & E3 & Hroute).
  destruct (BuildSnapshot_parts _ _ _ _ _ _ _ _ Hpre Eb) as (Pr & Pc & Pe). destruct (built_names _ _ _ _ _ _ _ _ Hpre Eb Hnames) as [Nr Nc].
  destruct (TranslateGRPCRoute_rules r route i rule Et Hi) as (Tn & Th & Tp & Trule). split.
  - intros j m Hj. set (rt := buildRoute units route).
    set (rule' := buildRule units (Crd.ro_Namespace route) (bare_crd_rule (translate_grpc_match <$> grpc_matches rule) [] (grpc_ref (Gw.ro_Namespace r) <$> Gw.gr_BackendRefs rule))).
    assert (rt ∈ Pb.Routes snap) as Hrt.
    { rewrite Pr. apply list_elem_of_fmap_2. apply (elem_of_listed (gs_proxyRoutes s1) _ (kd_key proxyRoute_kind route)); [apply (g_routes _ _ Hlist)|done]. }
    assert (Pb.ro_Rules rt !! i = Some rule') as Hrule by (unfold rt; simpl; by rewrite list_lookup_fmap, Trule).
    assert (Pb.r_Matches rule' !! j = Some (convert_match (translate_grpc_match m))) as Hm.
    { unfold rule'. simpl. change (convertMatches ?l) with (convert_match <$> l). by rewrite !list_lookup_fmap, Hj. }
    exists (translateMatch rt i rule' [] (bool_decide (1 < length (Some <$> Pb.r_Matches rule'))%nat) j (Some (convert_match (translate_grpc_match m)))).
    split; [|split].
    + apply insert_all_elem; [|intros rc' Hrc' En; apply (route_names_distinct (Pb.Routes snap)); try done].
      all: apply elem_of_translateRoutes; exists rt, i, rule'; (split; [done|]; split; [done|]).
      all: unfold rt; simpl; rewrite Tp; unfold translateRouteRule; destruct (Pb.r_Matches rule') eqn:Em; [done|].
      all: rewrite <- Em in *; apply elem_of_imap; exists j, (Some (convert_match (translate_grpc_match m))); split; [by rewrite list_lookup_fmap, Hm|done].
    + rewrite translateMatch_backends. unfold rule'. simpl. rewrite <- !list_fmap_compose. apply list_fmap_ext. intros n br _. reflexivity.
    + intros Hp match_host match_path match_regex rq. destruct (grpc_match_holds match_host match_path match_regex r m rq Hp) as [Hs Hplain].
      rewrite translateMatch_selects by exact Hplain. rewrite <- Hs. unfold rt. simpl. by rewrite Th.
  - intros br service Hbr Hs Hget. assert (br ∈ all_refs r) as Hin.
    { apply list_elem_of_bind. exists rule. split; [done|]. by apply list_elem_of_lookup_2 in Hi. }
    destruct (reference_backend _ _ _ _ _ _ br Erefs Hids Hin Hs) as (b & Hb & Bn & Bns & Bref). rewrite <- E3 in Hb.
    assert (b ∈ bc_backends bc) as Hbc by (apply (elem_of_listed (gs_proxyBackends s1) _ (backend_key b)); [apply (g_backends _ _ Hlist)|done]).
    assert (g_filed s1) as Hf1.
    { intros k' b' Hb'. rewrite E3 in Hb'. apply reconcile_refs_Some in Erefs as (_ & _ & Hold & _); [|by apply entry_keys_distinct].
      destruct (Hold k' b' Hb') as [?|Hb2]; [done|]. rewrite E2 in Hb2. by apply Hfiled. }
    destruct (resolveServiceEndpoints bc (Crd.mkServiceReference (Gw.br_Name br) None (ref_port br)) (ref_namespace (Gw.ro_Namespace r) br)) as [eps|] eqn:Eeps.
    2: { exfalso. revert Eeps. unfold resolveServiceEndpoints. cbn [Crd.s_Namespace Crd.s_Name getNamespace]. rewrite Hget. simpl. by destruct (target_port service _). }
    assert (backend_endpoints fp bc b = Some (eps ++ remote_endpoints fp (ref_namespace (Gw.ro_Namespace r) br) (Gw.br_Name br))) as Hbe.
    { unfold backend_endpoints. rewrite Bref. simpl. by rewrite Bns, Eeps. }
    destruct (backend_in_dataplane _ _ _ _ _ _ _ _ b _ Hpre Eb Nc (g_listed_keys s1 bc Hf1 Hlist) Hbc Hbe) as (cluster & Hc & Pends).
    exists cluster, eps. rewrite <- Bn. done.
Qed.

End grpc.
