(* ===== verification/GatewayListeners.v ===== *)
(** * Listeners of gateways

    The conditions that the gateway reconciler reports for listeners, and
    witnesses and behaviours of note of the Gateway API. *)

From S2P Require Import Prelude GoStrings Float64 GoLib Convert BuilderTypes BuilderConvert SnapshotBuilder BuilderVersion IngressTranslate KubeApi IngressReconcile GatewayApi GatewayReconcile Dataplane DataplaneSpec IngressDataplane GatewaySpec.
Open Scope Z_scope.

(** ** Conflicts of listeners *)

(** A listener conflicts with those before it on its port when none of them has
    its protocol, or one of them has its host name. *)
Definition conflicts (earlier : list Gw.Listener) (l : Gw.Listener) : bool :=
  let same := filter (λ l', Gw.l_Port l' = Gw.l_Port l) earlier in
  negb (bool_decide (same = [])) && forallb (λ l', negb (str_eqb (Gw.l_Protocol l') (Gw.l_Protocol l))) same ||
  existsb (λ l', str_eqb (listener_hostname l') (listener_hostname l)) same.

(** The statuses by this definition. *)
Fixpoint statuses_after (earlier ls : list Gw.Listener) : list Gw.ListenerStatus :=
  match ls with
  | [] => []
  | l :: ls =>
      Gw.mkListenerStatus (Gw.l_Name l) (supportedKindsForProtocol (Gw.l_Protocol l))
        (listener_conditions (isProtocolSupported (Gw.l_Protocol l)) (conflicts earlier l)) 0 :: statuses_after (earlier ++ [l]) ls
  end.
Fixpoint any_conflict (earlier ls : list Gw.Listener) : bool :=
  match ls with [] => false | l :: ls => conflicts earlier l || any_conflict (earlier ++ [l]) ls end.

Definition on_port {A} (f : Gw.Listener → A) (p : Z) (ls : list Gw.Listener) : list A := f <$> filter (λ l, Gw.l_Port l = p) ls.

Lemma on_port_snoc {A} (f : Gw.Listener → A) p ls l :
  on_port f p (ls ++ [l]) = on_port f p ls ++ (if decide (Gw.l_Port l = p) then [f l] else []).
Proof. unfold on_port. rewrite filter_app, fmap_app, filter_cons, filter_nil. by destruct (decide (Gw.l_Port l = p)). Qed.

(** The maps of the loop after some listeners. *)
Record scanned (ls : list Gw.Listener) (sc : listener_scan) : Prop := {
  scanned_protocols p : default ∅ (sc_protocols sc !! p) = list_to_set (C := gset string) (on_port Gw.l_Protocol p ls);
  scanned_hostnames p : default ∅ (sc_hostnames sc !! p) = list_to_set (C := gset string) (on_port listener_hostname p ls);
}.

Lemma scanned_add (f : Gw.Listener → string) (m : gmap Z (gset string)) ls l p :
  (∀ p, default ∅ (m !! p) = list_to_set (C := gset string) (on_port f p ls)) →
  default ∅ (<[Gw.l_Port l := {[ f l ]} ∪ default ∅ (m !! Gw.l_Port l)]> m !! p) = list_to_set (C := gset string) (on_port f p (ls ++ [l])).
Proof.
  intros Hm. rewrite on_port_snoc. destruct (decide (Gw.l_Port l = p)) as [<-|Hp].
  - rewrite lookup_insert_eq. simpl. rewrite Hm, list_to_set_app_L. simpl. set_solver.
  - rewrite lookup_insert_ne by done. rewrite app_nil_r. apply Hm.
Qed.

Lemma scan_conflict ls sc l :
  scanned ls sc →
  (negb (bool_decide (default ∅ (sc_protocols sc !! Gw.l_Port l) = ∅)) && negb (bool_decide (Gw.l_Protocol l ∈ default (∅ : gset string) (sc_protocols sc !! Gw.l_Port l)))) ||
  bool_decide (listener_hostname l ∈ default (∅ : gset string) (sc_hostnames sc !! Gw.l_Port l)) = conflicts ls l.
Proof.
  intros [H1 H2]. rewrite H1, H2. unfold conflicts, on_port. set (same := filter _ ls). f_equal; [f_equal|].
  - f_equal. apply bool_decide_ext. destruct same as [|x same]; [done|]. simpl. split; [set_solver|done].
  - apply eq_true_iff_eq. rewrite negb_true_iff, bool_decide_eq_false, forallb_forall, elem_of_list_to_set. setoid_rewrite <- list_elem_of_In.
    split.
    + intros Hn x Hx. apply negb_true_iff. unfold str_eqb. apply bool_decide_eq_false. intros E. apply Hn. rewrite <- E. by apply list_elem_of_fmap_2.
    + intros Hf (x & E & Hx)%list_elem_of_fmap. specialize (Hf x Hx). apply negb_true_iff in Hf. unfold str_eqb in Hf. by rewrite bool_decide_eq_true_2 in Hf.
  - apply eq_true_iff_eq. rewrite bool_decide_eq_true, existsb_exists, elem_of_list_to_set. setoid_rewrite <- list_elem_of_In. split.
    + intros (x & E & Hx)%list_elem_of_fmap. exists x. split; [done|]. by apply str_eqb_true.
    + intros (x & Hx & E%str_eqb_true). rewrite <- E. by apply list_elem_of_fmap_2.
Qed.

Lemma scan_listeners_from earlier ls sc :
  scanned earlier sc →
  let sc' := foldl scan_listener sc ls in
  sc_statuses sc' = sc_statuses sc ++ statuses_after earlier ls ∧
  (sc_errors sc' = ∅ ↔ sc_errors sc = ∅ ∧ any_conflict earlier ls = false).
Proof.
  revert earlier sc. induction ls as [|l ls IH]; intros earlier sc Hs; simpl; [rewrite app_nil_r; by split; [|split; [|intros []]]|].
  pose proof (scan_conflict earlier sc l Hs) as Hc.
  destruct (IH (earlier ++ [l]) (scan_listener sc l)) as [I1 I2].
  { destruct Hs as [H1 H2]. split; intros p; simpl; by apply scanned_add. }
  split.
  - rewrite I1. unfold scan_listener. simpl. rewrite Hc, <- app_assoc. done.
  - rewrite I2, orb_false_iff, <- Hc. unfold scan_listener. simpl.
    destruct (negb _ && negb _), (bool_decide (listener_hostname l ∈ _)); simpl;
      (split; [intros [E ?]; (by apply insert_non_empty in E) || done|by intros (? & ? & ?)]).
Qed.

(** The conditions of the listeners of a gateway report its conflicts. In
    the order of the listeners, a listener is accepted and programmed exactly
    when its protocol is supported and it does not conflict with the listeners
    before it on its port; the gateway has errors exactly when some listener
    conflicts. *)
Theorem listener_conditions_decide g :
  let '(statuses, errors) := validateListeners g in
  statuses = statuses_after [] (Gw.g_Listeners g) ∧ (errors = ∅ ↔ any_conflict [] (Gw.g_Listeners g) = false).
Proof.
  unfold validateListeners, scan_listeners.
  destruct (scan_listeners_from [] (Gw.g_Listeners g) (mkScan ∅ ∅ [] ∅)) as [H1 H2]; [by split; intros p; simpl; rewrite lookup_empty|].
  split; [exact H1|]. rewrite H2. simpl. split; [by intros [_ ?]|done].
Qed.

(** ** A cluster *)

#[local] Instance gw_texts : TextTables := IngressReconcile.plain_texts.
#[local] Instance gw_sort : SortSlice := insertion_SortSlice.

Definition append_condition (l : list Gw.Condition) (c : Gw.Condition) : list Gw.Condition := filter (λ x, Gw.cd_Type x ≠ Gw.cd_Type c) l ++ [c].

Definition edge : Gw.Gateway :=
  Gw.mkGateway "edge" "shop" ∅ false [] "novaedge" [Gw.mkListener "http" 80 "HTTP" None None] [] [].
Definition to_svc (name : string) (port : Z) : Gw.BackendRef := Gw.mkBackendRef None None name (Some port) None.
Definition to_edge (section : option string) : Gw.ParentRef := Gw.mkParentRef None None "edge" section.
Definition http_rule (ms : list Gw.HTTPRouteMatch) (br : Gw.BackendRef) : Gw.HTTPRouteRule := Gw.mkHTTPRouteRule ms [] [Gw.mkHTTPBackendRef br []].
Definition prefix_match (p : string) : Gw.HTTPRouteMatch := Gw.mkHTTPRouteMatch (Some (Gw.mkHTTPPathMatch None (Some p))) [] [] None.
Definition web_route (section : option string) : Gw.HTTPRoute :=
  Gw.mkRoute "web" "shop" ∅ false [] [to_edge section] ["shop.example"%string] [http_rule [prefix_match "/a"] (to_svc "web" 80)] [].
Definition call_match : Gw.GRPCRouteMatch := Gw.mkGRPCRouteMatch (Some (Gw.mkGRPCMethodMatch None (Some "Cart"%string) (Some "Add"%string))) [].
Definition cart_route (ms : list Gw.GRPCRouteMatch) : Gw.GRPCRoute :=
  Gw.mkRoute "cart" "shop" ∅ false [] [to_edge None] ["shop.example"%string] [Gw.mkGRPCRouteRule ms [to_svc "cart" 9000]] [].
Definition svc (name : string) (port : Z) : Crd.Service :=
  Crd.mkService name "shop" ∅ "" [Crd.mkServicePort "grpc" port (Crd.IsInt port) "TCP"].
Definition gw_cluster (http : gmap string Gw.HTTPRoute) (grpc : gmap string Gw.GRPCRoute) (l4 : gmap string Gw.L4Route) : gstore :=
  mkGStore {[ "novaedge"%string := mkGatewayClass "novaedge" NovaEdgeControllerName [] ]} {[ "shop/edge"%string := edge ]} http grpc l4
    {[ "shop/web"%string := svc "web" 80; "shop/cart"%string := svc "cart" 9000 ]} ∅ ∅ ∅ 0.

Definition any_host (hosts : list string) (h : string) : bool := match hosts with [] => true | _ => existsb (str_eqb h) hosts end.
Definition begins (t : Dp.PathMatchType) (v p : string) : bool :=
  match t with Dp.PATH_EXACT => str_eqb v p | _ => String.prefix v p end.

(** ** Witnesses *)

Lemma http_route_selects_witness :
  ∃ pr, TranslateHTTPRouteToProxyRoute (web_route None) = Ok pr ∧
  ∃ rc, rc ∈ translateRoutes [buildRoute [] pr] ∧ config_selects any_host begins (λ _ _, false) rc (mkRequest "shop.example" "/a/b" "GET" ∅ ∅) = true ∧
    Dp.r_BackendRefs rc = [Dp.mkBackendRef "web" 1].
Proof.
  eexists. split; [reflexivity|].
  apply (http_route_selects any_host begins (λ _ _, false) (web_route None) _ [] (mkRequest "shop.example" "/a/b" "GET" ∅ ∅) [Dp.mkBackendRef "web" 1]).
  - reflexivity.
  - intros rule ->%list_elem_of_singleton. reflexivity.
  - exists (http_rule [prefix_match "/a"] (to_svc "web" 80)). split; [apply list_elem_of_here|]. split; reflexivity.
Defined.

Definition cart_store : gstore := gw_cluster ∅ {[ "shop/cart"%string := cart_route [call_match] ]} ∅.
Definition cart_reconciled : gstore := (Reconcile_GRPCRoute append_condition in_order "shop/cart" [] cart_store).1.1.
Definition cart_kube : KubeClient :=
  mkKubeClient (Some []) (Some (map_to_list (gs_proxyRoutes cart_reconciled)).*2) (Some (map_to_list (gs_proxyBackends cart_reconciled)).*2) (Some [])
    (Some [svc "cart" 9000]) (Some []) (Some []) (Some []) (Some [])
    (Some [Crd.mkEndpointSlice "shop" {[ "kubernetes.io/service-name"%string := "cart"%string ]}
       [Crd.mkEndpoint ["10.1.0.1"%string] None None None None None] [Crd.mkEndpointPort (Some "grpc"%string) (Some 9000)]])
    (λ _, None).
Definition cart_snapshot : outcome (option Pb.ConfigSnapshot) := BuildSnapshot in_order multipliers (λ _, Some [1]) None 0 cart_kube.

Lemma cart_run : Reconcile_GRPCRoute append_condition in_order "shop/cart" [] cart_store = (cart_reconciled, [], Some false).
Proof. vm_compute. reflexivity. Qed.

Lemma cart_build :
  ∃ bc snap, prefetch cart_kube = Some bc ∧ cart_snapshot = Returns (Some snap) ∧ g_listed cart_reconciled bc ∧ names_identify bc ∧
    getService bc "shop" "cart" = Some (svc "cart" 9000).
Proof.
  destruct (prefetch cart_kube) as [bc|] eqn:Epre; [|by vm_compute in Epre].
  destruct cart_snapshot as [[snap|]|] eqn:Esnap; [|by vm_compute in Esnap..]. exists bc, snap. clear Esnap. split; [reflexivity|]. split; [reflexivity|].
  vm_compute in Epre. injection Epre as <-. split; [split; vm_compute; reflexivity|]. split; [|vm_compute; reflexivity]. split.
  - apply (bool_decide_unpack _). vm_compute. exact I.
  - apply Forall_forall. apply (bool_decide_unpack _). vm_compute. exact I.
  - apply (bool_decide_unpack _). vm_compute. exact I.
Qed.

Lemma cart_refs : refs_identify "shop" (all_refs (cart_route [call_match])).
Proof.
  split.
  - intros b b' ->%list_elem_of_singleton ->%list_elem_of_singleton _ _ _. done.
  - intros b ->%list_elem_of_singleton. reflexivity.
Qed.

Lemma grpc_route_reaches_dataplane_witness :
  ∃ snap cluster, cart_snapshot = Returns (Some snap) ∧ clusters_of (TranslateSnapshot (Some snap)) !! "shop-cart-9000"%string = Some cluster ∧
  ∃ rc, routes_of (TranslateSnapshot (Some snap)) !! Dp.r_Name rc = Some rc ∧ Dp.r_BackendRefs rc = [Dp.mkBackendRef "shop-cart-9000" 1].
Proof.
  destruct cart_build as (bc & snap & Epre & Esnap & Hl & Hn & Hs).
  destruct (grpc_route_reaches_dataplane append_condition in_order in_order_visits "shop/cart" (cart_route [call_match]) [] cart_store cart_reconciled []
    (Some false) in_order multipliers (λ _, Some [1]) None 0 cart_kube bc snap 0 (Gw.mkGRPCRouteRule [call_match] [to_svc "cart" 9000]))
    as [Hr Hc].
  - reflexivity.
  - reflexivity.
  - exact cart_run.
  - vm_compute. discriminate.
  - intros k b Hb. vm_compute in Hb. discriminate.
  - exact cart_refs.
  - exact Epre.
  - exact Hl.
  - exact Hn.
  - exact Esnap.
  - reflexivity.
  - destruct (Hc (to_svc "cart" 9000) (svc "cart" 9000) (list_elem_of_here _ _) eq_refl Hs) as (cluster & eps & H1 & _).
    destruct (Hr 0%nat call_match eq_refl) as (rc & R1 & R2 & _).
    exists snap, cluster. split; [exact Esnap|]. split; [exact H1|]. exists rc. split; [exact R1|exact R2].
Defined.

(** ** Behaviours of note *)

(** An HTTPRoute names its backends like their Services, the backends that are
    created for them have longer names. *)
Lemma http_reference_dangles ns br : Crd.b_Name (translate_ref ns br) ≠ gen_name ns br.
Proof.
  unfold gen_name, GenerateProxyBackendName. simpl. intros E%(f_equal String.length). rewrite !str_length_app in E. simpl in E. lia.
Qed.

(** The reconciliation of an HTTPRoute succeeds and reports resolved references;
    the route and the backend do not have a name in common. *)
Example http_route_has_no_backend :
  let '(s, _, res) := Reconcile_HTTPRoute append_condition in_order "shop/web" [] (gw_cluster {[ "shop/web"%string := web_route None ]} ∅ ∅) in
  res = Some false ∧ (λ r, mbind (λ x, Crd.b_Name <$> Crd.r_BackendRefs x) (Crd.ro_Rules r)) <$> (map_to_list (gs_proxyRoutes s)).*2 = [["web"%string]] ∧
  Crd.k_Name <$> (map_to_list (gs_proxyBackends s)).*2 = ["shop-web-80"%string] ∧
  (mbind Gw.ps_Conditions (mbind Gw.ro_Parents (map_to_list (gs_http s)).*2)) = [accepted true "Accepted"; Gw.mkCondition "ResolvedRefs" true "ResolvedRefs"].
Proof. vm_compute. repeat split. Qed.

(** Two Services of two namespaces have one backend name, and only one of them
    is collected. *)
Example backend_names_are_ambiguous :
  GenerateProxyBackendName "b-c" "a" 80 = GenerateProxyBackendName "c" "a-b" 80 ∧
  size (collect_refs "a" [Gw.mkBackendRef None None "b-c" None None; Gw.mkBackendRef None (Some "a-b"%string) "c" None None]) = 1%nat.
Proof. vm_compute. split; reflexivity. Qed.

(** When the gateway cannot be read, the route is taken for one of another
    controller: nothing is written, and there is no error to be retried. *)
Example unread_gateway_drops_route :
  let http := Reconcile_HTTPRoute append_condition in_order "shop/web" [true; false] (gw_cluster {[ "shop/web"%string := web_route None ]} ∅ ∅) in
  let grpc := Reconcile_GRPCRoute append_condition in_order "shop/cart" [true; false] cart_store in
  http.2 = Some false ∧ gs_proxyRoutes http.1.1 = ∅ ∧ gs_http http.1.1 = {[ "shop/web"%string := web_route None ]} ∧
  grpc.2 = Some false ∧ grpc.1.1 = cart_store.
Proof. vm_compute. repeat split. Qed.

(** A route for a listener that does not exist is refused and served. *)
Example refused_route_is_served :
  let '(s, _, _) := Reconcile_HTTPRoute append_condition in_order "shop/web" [] (gw_cluster {[ "shop/web"%string := web_route (Some "https"%string) ]} ∅ ∅) in
  size (gs_proxyRoutes s) = 1%nat ∧
  head (mbind Gw.ps_Conditions (mbind Gw.ro_Parents (map_to_list (gs_http s)).*2)) = Some (accepted false "NoMatchingParent").
Proof. vm_compute. split; reflexivity. Qed.

(** A TCPRoute becomes a route for all requests of HTTP. *)
Example tcp_route_catches_http match_path match_regex rq :
  let tcp : Gw.L4Route := Gw.mkRoute "db" "shop" ∅ false [] [] [] [[to_svc "db" 5432]] [] in
  ∃ pr rc, TranslateTCPRouteToProxyRoute tcp = Ok pr ∧ translateRoutes [buildRoute [] pr] = [rc] ∧ config_selects any_host match_path match_regex rc rq = true.
Proof. eexists _, _. split; [reflexivity|]. split; reflexivity. Qed.

(** TCP and TLS routes are taken whatever gateway they name; no gateway is
    read. *)
Example l4_route_of_another_controller :
  let tcp : Gw.L4Route := Gw.mkRoute "db" "shop" ∅ false [] [Gw.mkParentRef None None "other" None] [] [[to_svc "db" 5432]] [] in
  let '(s, _, res) := reconcileL4Route append_condition TranslateTCPRouteToProxyRoute "shop/db" [] (gw_cluster ∅ ∅ {[ "shop/db"%string := tcp ]}) in
  res = Some false ∧ size (gs_proxyRoutes s) = 1%nat.
Proof. vm_compute. split; reflexivity. Qed.

(** Routes of different kinds share the name of their ProxyRoute. *)
Example routes_of_two_kinds_collide :
  let tcp : Gw.L4Route := Gw.mkRoute "web" "shop" ∅ false [] [] [] [[to_svc "db" 5432]] [] in
  match TranslateHTTPRouteToProxyRoute (web_route None), TranslateTCPRouteToProxyRoute tcp with
  | Ok a, Ok b => kd_key proxyRoute_kind a = kd_key proxyRoute_kind b ∧ a ≠ b
  | _, _ => False
  end.
Proof. split; [reflexivity|discriminate]. Qed.

(** A match on a service without a method is an exact match of its name, which
    is the path of no call. *)
Example grpc_service_matches_no_call :
  grpc_path (Gw.mkGRPCMethodMatch None (Some "Cart"%string) None) = Crd.mkHTTPPathMatch "Exact" "/Cart" ∧
  grpc_path (Gw.mkGRPCMethodMatch None None (Some "Add"%string)) = Crd.mkHTTPPathMatch "Exact" "//Add".
Proof. split; reflexivity. Qed.

(** Of the filters of a route the dataplane keeps one rewritten path and the
    headers to add: redirects, mirrors and removed headers are lost, and
    headers to set are added. *)
Example filters_are_lost :
  let h := mkHTTPHeader "x" "1" in
  let none t := Gw.mkHTTPRouteFilter t None None None None None in
  let modify := Gw.mkHTTPRouteFilter "RequestHeaderModifier" (Some (Gw.mkHTTPHeaderFilter [h] [] ["cookie"%string])) None None None None in
  let redirect := Gw.mkHTTPRouteFilter "RequestRedirect" None None (Some (Gw.mkRequestRedirect (Some "https"%string) None None None (Some 301))) None None in
  let mirror := Gw.mkHTTPRouteFilter "RequestMirror" None None None None (Some (Gw.mkRequestMirror (to_svc "shadow" 80) None)) in
  match each translateHTTPRouteFilter [modify; redirect; mirror] with
  | Ok fs => applyRouteFilters (convertFilters fs) = (""%string, {[ "x"%string := "1"%string ]})
  | _ => False
  end ∧ translateHTTPRouteFilter (none "CORS"%string) = Err (UnsupportedFilterType "CORS").
Proof. split; reflexivity. Qed.

(** The status code of a redirect has no effect. *)
Example redirect_status_is_lost r code code' :
  let f c := Gw.mkHTTPRouteFilter "RequestRedirect" None None (Some (Gw.mkRequestRedirect (Gw.rr_Scheme r) (Gw.rr_Hostname r) (Gw.rr_Path r) (Gw.rr_Port r) c)) None None in
  translateHTTPRouteFilter (f code) = translateHTTPRouteFilter (f code').
Proof. reflexivity. Qed.

(** The filters of one backend are filters of its rule. *)
Example backend_filters_are_shared :
  let rewrite := Gw.mkHTTPRouteFilter "URLRewrite" None None None (Some (Gw.mkURLRewrite None (Some (Gw.mkHTTPPathModifier "ReplaceFullPath" (Some "/new"%string) None)))) None in
  let rule := Gw.mkHTTPRouteRule [] [] [Gw.mkHTTPBackendRef (to_svc "old" 80) []; Gw.mkHTTPBackendRef (to_svc "new" 80) [rewrite]] in
  match translateHTTPRouteRule rule "shop" with
  | Ok r => length (Crd.r_BackendRefs r) = 2%nat ∧ Crd.f_RewritePath <$> Crd.r_Filters r = [Some "/new"%string]
  | _ => False
  end.
Proof. split; reflexivity. Qed.

(** A match on a path without a value panics. *)
Example path_without_value_panics ty : translateHTTPRouteMatch (Gw.mkHTTPRouteMatch (Some (Gw.mkHTTPPathMatch ty None)) [] [] None) = Panic.
Proof. reflexivity. Qed.

(** A reconciler for another class takes its gateways and cannot translate
    them. *)
Example other_class_is_refused g :
  Gw.g_ClassName g = "internal"%string → TranslateGatewayToProxyGateway g = Err (GatewayClassError "internal").
Proof. unfold TranslateGatewayToProxyGateway. by intros ->. Qed.

(** Listeners in conflict are reported and passed on. *)
Example conflicting_listener_is_translated :
  let g := Gw.mkGateway "edge" "shop" ∅ false [] "novaedge" [Gw.mkListener "a" 80 "HTTP" None None; Gw.mkListener "b" 80 "HTTPS" None None] [] [] in
  any_conflict [] (Gw.g_Listeners g) = true ∧
  match TranslateGatewayToProxyGateway g with Ok pg => Crd.l_Name <$> Crd.g_Listeners pg = ["a"%string; "b"%string] | _ => False end.
Proof. split; reflexivity. Qed.

(** The first error of a GRPCRoute is not reported: it has no parent statuses
    yet. *)
Example grpc_error_is_not_reported :
  let r : Gw.GRPCRoute := Gw.mkRoute "cart" "shop" ∅ false [] [to_edge None] [] [Gw.mkGRPCRouteRule [] []] [] in
  let '(s, _, res) := Reconcile_GRPCRoute append_condition in_order "shop/cart" [] (gw_cluster ∅ {[ "shop/cart"%string := r ]} ∅) in
  res = Some true ∧ gs_grpc s = {[ "shop/cart"%string := r ]}.
Proof. vm_compute. split; reflexivity. Qed.
