(* ===== verification/ProxyReconcile.v ===== *)
(** * Reconcilers of the NovaEdge resources
    (src/internal/controller/proxygateway_controller.go, proxyroute_controller.go,
    proxybackend_controller.go, proxypolicy_controller.go,
    proxywanlink_controller.go, proxywanpolicy_controller.go,
    endpointslice_controller.go and config.go)

    Each reconciler validates a resource against the others, writes the verdict
    into its status and, when it is good, asks the snapshot server for an update.
    A call that fails with another error than "not found" is [None] of [attempt].
    The certificates of cert-manager, which the gateway reconciler requests on the
    side, are left out. *)

From S2P Require Import Prelude GoStrings GoNet Float64 BuilderTypes SnapshotBuilder KubeApi.
Open Scope Z_scope.
Open Scope go_scope.

(** ** Resources with their status *)

Record tracked (A : Type) := mkTracked {
  tk_obj : A;
  tk_generation : Z;
  tk_observed : Z;
  tk_ready : option bool; (* the Ready condition; a WAN link has a flag Healthy, always written with the same value *)
  tk_phase : string; (* of the WAN resources *)
}.
Arguments mkTracked {A}. Arguments tk_obj {A}. Arguments tk_generation {A}. Arguments tk_observed {A}. Arguments tk_ready {A}. Arguments tk_phase {A}.

Record pstore := mkPStore {
  ps_gateways : gmap string (tracked Crd.ProxyGateway);
  ps_routes : gmap string (tracked Crd.ProxyRoute);
  ps_backends : gmap string (tracked Crd.ProxyBackend);
  ps_policies : gmap string (tracked Crd.ProxyPolicy);
  ps_wanLinks : gmap string (tracked Crd.ProxyWANLink);
  ps_wanPolicies : gmap string (tracked Crd.ProxyWANPolicy);
  ps_services : gmap string Crd.Service;
  ps_secrets : gmap string Crd.Secret;
  ps_updates : option nat; (* the snapshot server of the reconcilers: none, or how often its TriggerUpdate was called *)
}.
Definition pstore_eta (s : pstore) : pstore :=
  mkPStore (ps_gateways s) (ps_routes s) (ps_backends s) (ps_policies s) (ps_wanLinks s) (ps_wanPolicies s) (ps_services s) (ps_secrets s) (ps_updates s).
Definition set_ps_gateways : gmap string (tracked Crd.ProxyGateway) → pstore → pstore := ltac:(field_setter pstore_eta ps_gateways).
Definition set_ps_routes : gmap string (tracked Crd.ProxyRoute) → pstore → pstore := ltac:(field_setter pstore_eta ps_routes).
Definition set_ps_backends : gmap string (tracked Crd.ProxyBackend) → pstore → pstore := ltac:(field_setter pstore_eta ps_backends).
Definition set_ps_policies : gmap string (tracked Crd.ProxyPolicy) → pstore → pstore := ltac:(field_setter pstore_eta ps_policies).
Definition set_ps_wanLinks : gmap string (tracked Crd.ProxyWANLink) → pstore → pstore := ltac:(field_setter pstore_eta ps_wanLinks).
Definition set_ps_wanPolicies : gmap string (tracked Crd.ProxyWANPolicy) → pstore → pstore := ltac:(field_setter pstore_eta ps_wanPolicies).
Definition set_ps_secrets : gmap string Crd.Secret → pstore → pstore := ltac:(field_setter pstore_eta ps_secrets).
Definition set_ps_updates : option nat → pstore → pstore := ltac:(field_setter pstore_eta ps_updates).

#[local] Notation api := (KubeApi.api pstore).
#[local] Notation kind := (KubeApi.kind (S := pstore)).
#[local] Notation "'do' x <- m ; k" := (bind m (λ x, k)) (at level 199, x name, m at level 100, k at level 199).

Definition gateways : kind (tracked Crd.ProxyGateway) := mkKind _ (λ t, ns_key (Crd.g_Namespace (tk_obj t)) (Crd.g_Name (tk_obj t))) ps_gateways set_ps_gateways.
Definition routes : kind (tracked Crd.ProxyRoute) := mkKind _ (λ t, ns_key (Crd.ro_Namespace (tk_obj t)) (Crd.ro_Name (tk_obj t))) ps_routes set_ps_routes.
Definition backends : kind (tracked Crd.ProxyBackend) := mkKind _ (λ t, ns_key (Crd.k_Namespace (tk_obj t)) (Crd.k_Name (tk_obj t))) ps_backends set_ps_backends.
Definition policies : kind (tracked Crd.ProxyPolicy) := mkKind _ (λ t, ns_key (Crd.p_Namespace (tk_obj t)) (Crd.p_Name (tk_obj t))) ps_policies set_ps_policies.
Definition wanLinks : kind (tracked Crd.ProxyWANLink) := mkKind _ (λ t, ns_key (Crd.w_Namespace (tk_obj t)) (Crd.w_Name (tk_obj t))) ps_wanLinks set_ps_wanLinks.
Definition wanPolicies : kind (tracked Crd.ProxyWANPolicy) := mkKind _ (λ t, ns_key (Crd.wo_Namespace (tk_obj t)) (Crd.wo_Name (tk_obj t))) ps_wanPolicies set_ps_wanPolicies.
Definition secrets : kind Crd.Secret := mkKind _ (λ v, ns_key (Crd.se_Namespace v) (Crd.se_Name v)) ps_secrets set_ps_secrets.

(** [Get] whose error is handled: [None] for an error, [Some None] for a resource that
    is not found. *)
Definition get_service (namespace name : string) : api (option (option Crd.Service)) :=
  attempt (call (λ s, (s, ps_services s !! ns_key namespace name))).
Definition get_secret (namespace name : string) : api (option (option Crd.Secret)) := attempt (get secrets (ns_key namespace name)).

(** A reconciler without a snapshot server announces nothing: the count stays [None]. *)
Definition triggerConfigUpdate : api unit := λ oracle s, (set_ps_updates (S <$> ps_updates s) s, oracle, Some tt).

(** ** Validation errors *)

Inductive ValidationErr :=
  | ServiceNotFound (name : string) | PortNotFound (port : Z) (service : string)
  | HealthyThresholdTooLow | UnhealthyThresholdTooLow
  | MaxConnectionsTooLow | MaxPendingRequestsTooLow | MaxRequestsTooLow | MaxRetriesNegative
  | CACertNotFound (secret : string) | CACertMissing (secret : string)
  | BackendNotFound (name : string) (rule backend : nat) | EmptyPath (rule match_ : nat) | EmptyHeaderName (rule match_ header : nat)
  | InvalidTargetKind (kind : string) | TargetNotFound (kind name : string)
  | InvalidPolicyType (type : string) | PolicyError (message : string) | InvalidCIDR (cidr : string)
  | TLSSecretRequired (listener : string) | TLSSecretNotFound (secret listener : string) | TLSCertMissing (secret : string) | TLSKeyMissing (secret : string)
  | FieldRequired (field : string) | UnsupportedStrategy (strategy : string).

Definition err_when (b : bool) (e : ValidationErr) : list ValidationErr := if b then [e] else [].
Definition below (o : option Z) (n : Z) : bool := from_option (λ v, bool_decide (v < n)) false o.

(** The errors of several checks, in their order. *)
Fixpoint all_errors (checks : list (api (list ValidationErr))) : api (list ValidationErr) :=
  match checks with
  | [] => ret []
  | check :: checks => do errs <- check; do more <- all_errors checks; ret (errs ++ more)
  end.

(** ** Backends *)

Definition validateServiceRef (b : Crd.ProxyBackend) : api (list ValidationErr) :=
  match Crd.k_ServiceRef b with
  | None => ret []
  | Some ref =>
      do service <- get_service (default (Crd.k_Namespace b) (Crd.s_Namespace ref)) (Crd.s_Name ref);
      ret (match service with
           | None => []
           | Some None => [ServiceNotFound (Crd.s_Name ref)]
           | Some (Some v) =>
               if decide (Crd.s_Port ref ∈ Crd.sp_Port <$> Crd.sv_Ports v) then [] else [PortNotFound (Crd.s_Port ref) (Crd.s_Name ref)]
           end)
  end.

Definition validateHealthCheck (hc : option Crd.HealthCheck) : list ValidationErr :=
  match hc with
  | None => []
  | Some h => err_when (below (Crd.hc_HealthyThreshold h) 1) HealthyThresholdTooLow ++
              err_when (below (Crd.hc_UnhealthyThreshold h) 1) UnhealthyThresholdTooLow
  end.

Definition validateCircuitBreaker (cb : option Crd.CircuitBreaker) : list ValidationErr :=
  match cb with
  | None => []
  | Some c => err_when (below (Crd.cb_MaxConnections c) 1) MaxConnectionsTooLow ++
              err_when (below (Crd.cb_MaxPendingRequests c) 1) MaxPendingRequestsTooLow ++
              err_when (below (Crd.cb_MaxRequests c) 1) MaxRequestsTooLow ++
              err_when (below (Crd.cb_MaxRetries c) 0) MaxRetriesNegative
  end.

Definition validateTLSCACert (b : Crd.ProxyBackend) : api (list ValidationErr) :=
  match Crd.k_TLS b with
  | Some (Crd.mkBackendTLSConfig true _ (Some name) _) =>
      do secret <- get_secret (Crd.k_Namespace b) name;
      ret (match secret with
           | None => []
           | Some None => [CACertNotFound name]
           | Some (Some v) => err_when (bool_decide (Crd.se_Data v !! "ca.crt"%string = None)) (CACertMissing name)
           end)
  | _ => ret []
  end.

Definition validateBackend (b : Crd.ProxyBackend) : api (list ValidationErr) :=
  all_errors [validateServiceRef b; ret (validateHealthCheck (Crd.k_HealthCheck b)); ret (validateCircuitBreaker (Crd.k_CircuitBreaker b)); validateTLSCACert b].

(** ** Routes *)

Definition check_backend_ref (namespace : string) (i j : nat) (ref : Crd.BackendRef) : api (list ValidationErr) :=
  do backend <- attempt (get backends (ns_key (default namespace (Crd.b_Namespace ref)) (Crd.b_Name ref)));
  ret (match backend with Some None => [BackendNotFound (Crd.b_Name ref) i j] | _ => [] end).

Definition check_backend_refs (r : Crd.ProxyRoute) : api (list ValidationErr) :=
  all_errors (concat (imap (λ i rule, imap (check_backend_ref (Crd.ro_Namespace r) i) (Crd.r_BackendRefs rule)) (Crd.ro_Rules r))).

Definition match_errors (i j : nat) (m : Crd.HTTPRouteMatch) : list ValidationErr :=
  err_when (from_option (λ p, str_empty (Crd.pa_Value p)) false (Crd.m_Path m)) (EmptyPath i j) ++
  concat (imap (λ k h, err_when (str_empty (Crd.ha_Name h)) (EmptyHeaderName i j k)) (Crd.m_Headers m)).

Definition validateRoute (r : Crd.ProxyRoute) : api (list ValidationErr) :=
  do refs <- check_backend_refs r;
  ret (refs ++ concat (imap (λ i rule, concat (imap (match_errors i) (Crd.r_Matches rule))) (Crd.ro_Rules r))).

(** ** Policies *)

(** [validateTargetRef]; a lookup of each kind of target. *)
Definition target_exists (target : string) (key : string) : option (api (option unit)) :=
  let found {A} (k : kind A) : api (option unit) := do x <- get k key; ret ((λ _, tt) <$> x) in
  if str_eqb target "ProxyGateway" then Some (found gateways)
  else if str_eqb target "ProxyRoute" then Some (found routes)
  else if str_eqb target "ProxyBackend" then Some (found backends)
  else None.

Definition validateTargetRef (p : Crd.ProxyPolicy) : api (list ValidationErr) :=
  let t := Crd.p_TargetRef p in
  match target_exists (Crd.t_Kind t) (ns_key (default (Crd.p_Namespace p) (Crd.t_Namespace t)) (Crd.t_Name t)) with
  | None => ret [InvalidTargetKind (Crd.t_Kind t)]
  | Some lookup =>
      do found <- attempt lookup;
      ret (match found with Some None => [TargetNotFound (Crd.t_Kind t) (Crd.t_Name t)] | _ => [] end)
  end.

(** [policyValidators]: the settings a type requires, and what is asked of them. *)
Definition required {A} (o : option A) (missing : string) (bad : A → bool) (message : string) : option string :=
  match o with None => Some missing | Some c => if bad c then Some message else None end.

Definition policyValidators (p : Crd.ProxyPolicy) : option (option string) :=
  let t := Crd.p_Type p in
  let config name := (name +:+ " configuration is required for " +:+ name +:+ " policy type")%string in
  if str_eqb t "RateLimit" then Some (required (Crd.p_RateLimit p) (config "RateLimit")
    (λ c, bool_decide (Crd.rt_RequestsPerSecond c ≤ 0)) "RateLimit RequestsPerSecond must be > 0")
  else if str_eqb t "JWT" then Some (required (Crd.p_JWT p) (config "JWT")
    (λ c, str_empty (jw_Issuer c) && str_empty (jw_JWKSUri c)) "JWT policy must have either issuer or jwksUri set")
  else if str_eqb t "CORS" then Some (required (Crd.p_CORS p) (config "CORS")
    (λ c, bool_decide (Crd.co_AllowOrigins c = [])) "CORS AllowOrigins must not be empty")
  else if str_eqb t "WAF" then Some (required (Crd.p_WAF p) (config "WAF") (λ _, false) "")
  else if str_eqb t "BasicAuth" then Some (required (Crd.p_BasicAuth p) (config "BasicAuth")
    (λ c, str_empty (Crd.ba_SecretRef c)) "BasicAuth SecretRef name must not be empty")
  else if str_eqb t "SecurityHeaders" then Some (required (Crd.p_SecurityHeaders p) (config "SecurityHeaders") (λ _, false) "")
  else if str_eqb t "ForwardAuth" then Some (required (Crd.p_ForwardAuth p) (config "ForwardAuth")
    (λ c, str_empty (Crd.fa_Address c)) "ForwardAuth Address must not be empty")
  else if str_eqb t "OIDC" then Some (required (Crd.p_OIDC p) (config "OIDC")
    (λ c, str_empty (Crd.oi_ClientID c)) "OIDC ClientID must not be empty")
  else if str_eqb t "WASMPlugin" then Some (required (Crd.p_WASMPlugin p) (config "WASMPlugin")
    (λ c, str_empty (Crd.wa_Source c)) "WASMPlugin Source must not be empty")
  else if str_eqb t "DistributedRateLimit" then Some (required (Crd.p_DistributedRateLimit p) (config "DistributedRateLimit")
    (λ c, bool_decide (Crd.dr_RequestsPerSecond c ≤ 0)) "DistributedRateLimit RequestsPerSecond must be > 0")
  else if str_eqb t "MeshAuthorization" then Some (required (Crd.p_MeshAuthorization p) (config "MeshAuthorization")
    (λ c, bool_decide (Crd.ma_Rules c = [])) "MeshAuthorization Rules must not be empty")
  else None.

Definition validateIPListPolicy (p : Crd.ProxyPolicy) : list ValidationErr :=
  match Crd.p_IPList p with
  | None => [PolicyError "IPList configuration is required for IP allow/deny list policy type"]
  | Some l =>
      match Crd.ip_CIDRs l with
      | [] => [PolicyError "IPList CIDRs must not be empty"]
      | cidrs => InvalidCIDR <$> filter (λ c, ParseCIDR c = false) cidrs
      end
  end.

Definition validatePolicyConfig (p : Crd.ProxyPolicy) : list ValidationErr :=
  if str_eqb (Crd.p_Type p) "IPAllowList" || str_eqb (Crd.p_Type p) "IPDenyList" then validateIPListPolicy p
  else match policyValidators p with
       | None => [InvalidPolicyType (Crd.p_Type p)]
       | Some (Some message) => [PolicyError message]
       | Some None => []
       end.

Definition validatePolicy (p : Crd.ProxyPolicy) : api (list ValidationErr) :=
  all_errors [validateTargetRef p; ret (validatePolicyConfig p)].

(** ** The common reconciliation *)

(** The end of each [validateAndUpdateStatus]: the verdict goes to the status, and is
    returned as an error. *)
Definition write_verdict {A} (k : kind (tracked A)) (t : tracked A) (errs : list ValidationErr) : api unit :=
  do _ <- update k (kd_key k t) (mkTracked (tk_obj t) (tk_generation t) (tk_generation t) (Some (bool_decide (length errs = 0%nat))) (tk_phase t));
  match errs with [] => ret tt | _ => fail end.

Definition already_reconciled {A} (t : tracked A) : bool :=
  bool_decide (tk_observed t ≠ 0) && bool_decide (tk_observed t = tk_generation t).

Definition reconcileWithGenerationCheck {A} (k : kind (tracked A)) (validate : A → api (list ValidationErr)) (key : string) : api unit :=
  do found <- get k key;
  match found with
  | None => ret tt
  | Some t =>
      if already_reconciled t then ret tt
      else
        do errs <- validate (tk_obj t);
        do _ <- write_verdict k t errs;
        triggerConfigUpdate
  end.

Definition Reconcile_ProxyBackend : string → api unit := reconcileWithGenerationCheck backends validateBackend.
Definition Reconcile_ProxyRoute : string → api unit := reconcileWithGenerationCheck routes validateRoute.
Definition Reconcile_ProxyPolicy : string → api unit := reconcileWithGenerationCheck policies validatePolicy.
Definition Reconcile_EndpointSlice : api unit := triggerConfigUpdate.

(** ** Gateways *)

Definition DefaultControllerClass : string := "novaedge.io/proxy".

Definition shouldReconcileGateway (controllerClass : string) (g : Crd.ProxyGateway) : bool :=
  let controllerClass := if str_empty controllerClass then DefaultControllerClass else controllerClass in
  if str_empty (Crd.g_LoadBalancerClass g) then str_eqb controllerClass DefaultControllerClass
  else str_eqb (Crd.g_LoadBalancerClass g) controllerClass.

(** A request to Vault, and what it answers: certificate and key, or an error. *)
Record PKIRequest := mkPKIRequest { pk_MountPath : string; pk_Role : string; pk_CommonName : string; pk_AltNames : list string; pk_TTL : string }.
Definition VaultPKI : Type := PKIRequest → option (string * string).

Definition pki_request (g : Crd.ProxyGateway) (l : Crd.Listener) (ref : Crd.VaultCertReference) : PKIRequest :=
  mkPKIRequest (Crd.va_Path ref) (Crd.va_Role ref)
    (default (Crd.g_Name g +:+ "." +:+ Crd.g_Namespace g +:+ ".svc") (head (Crd.l_Hostnames l)))
    (tail (Crd.l_Hostnames l)) (Crd.va_TTL ref).

(** One listener of [ensureVaultCertificates]; errors are collected for the log. *)
Definition ensure_vault_certificate (vault : VaultPKI) (g : Crd.ProxyGateway) (l : Crd.Listener) : api unit :=
  match Crd.l_TLS l ≫= Crd.VaultCertRef with
  | None => ret tt
  | Some ref =>
      match vault (pki_request g l ref) with
      | None => ret tt
      | Some (cert, key) =>
          let secretName := if str_empty (Crd.va_CacheSecretName ref)
            then (Crd.g_Name g +:+ "-" +:+ Crd.l_Name l +:+ "-vault-tls")%string else Crd.va_CacheSecretName ref in
          let data := <["tls.crt" := cert]> (<["tls.key" := key]> ∅)%string in
          do existing <- get_secret (Crd.g_Namespace g) secretName;
          match existing with
          | None => ret tt
          | Some None =>
              do _ <- attempt (update secrets (ns_key (Crd.g_Namespace g) secretName) (Crd.mkSecret secretName (Crd.g_Namespace g) data)); ret tt
          | Some (Some e) =>
              do _ <- attempt (update secrets (ns_key (Crd.g_Namespace g) secretName) (Crd.mkSecret (Crd.se_Name e) (Crd.se_Namespace e) data)); ret tt
          end
      end
  end.
Definition ensureVaultCertificates (vault : VaultPKI) (g : Crd.ProxyGateway) : api unit :=
  for_each (ensure_vault_certificate vault g) (Crd.g_Listeners g).

Definition secret_errors (name listener : string) (secret : option (option Crd.Secret)) : list ValidationErr :=
  match secret with
  | None => []
  | Some None => [TLSSecretNotFound name listener]
  | Some (Some v) => err_when (bool_decide (Crd.se_Data v !! "tls.crt"%string = None)) (TLSCertMissing name) ++
                     err_when (bool_decide (Crd.se_Data v !! "tls.key"%string = None)) (TLSKeyMissing name)
  end.

(** The check of one listener; the reference to the Secret is dereferenced without a
    check. *)
Definition listener_errors (g : Crd.ProxyGateway) (l : Crd.Listener) : api (outcome (list ValidationErr)) :=
  if str_eqb (Crd.l_Protocol l) "HTTPS" || str_eqb (Crd.l_Protocol l) "TLS" then
    match Crd.l_TLS l with
    | None => ret (Returns [TLSSecretRequired (Crd.l_Name l)])
    | Some tls =>
        match Crd.SecretRef tls with
        | None => ret Panics
        | Some ref =>
            if str_empty (Crd.sr_Name ref) then ret (Returns [TLSSecretRequired (Crd.l_Name l)])
            else
              do secret <- get_secret (if str_empty (Crd.sr_Namespace ref) then Crd.g_Namespace g else Crd.sr_Namespace ref) (Crd.sr_Name ref);
              ret (Returns (secret_errors (Crd.sr_Name ref) (Crd.l_Name l) secret))
        end
    end
  else ret (Returns []).

Fixpoint gateway_errors (g : Crd.ProxyGateway) (listeners : list Crd.Listener) : api (outcome (list ValidationErr)) :=
  match listeners with
  | [] => ret (Returns [])
  | l :: listeners =>
      do r <- listener_errors g l;
      match r with
      | Panics => ret Panics
      | Returns errs =>
          do more <- gateway_errors g listeners;
          ret (let! more := more in Returns (errs ++ more))
      end
  end.

Definition Reconcile_ProxyGateway (controllerClass : string) (vault : option VaultPKI) (key : string) : api (outcome unit) :=
  do found <- get gateways key;
  match found with
  | None => ret (Returns tt)
  | Some t =>
      let g := tk_obj t in
      if already_reconciled t then ret (Returns tt)
      else if negb (shouldReconcileGateway controllerClass g) then ret (Returns tt)
      else
        do _ <- match vault with Some v => ensureVaultCertificates v g | None => ret tt end;
        do errs <- gateway_errors g (Crd.g_Listeners g);
        match errs with
        | Panics => ret Panics
        | Returns errs =>
            do _ <- write_verdict gateways t errs;
            do _ <- triggerConfigUpdate;
            ret (Returns tt)
        end
  end.

(** ** WAN links and policies *)

Definition phaseActive : string := "Active".

(** The end of both reconciliations: an invalid resource is reported and not retried. *)
Definition write_phase {A} (k : kind (tracked A)) (t : tracked A) (errs : list ValidationErr) : api unit :=
  let valid := bool_decide (length errs = 0%nat) in
  do _ <- update k (kd_key k t) (mkTracked (tk_obj t) (tk_generation t) (tk_generation t) (Some valid) (if valid then phaseActive else "Invalid"));
  if valid then triggerConfigUpdate else ret tt.

Definition wan_link_errors (l : Crd.ProxyWANLink) : list ValidationErr :=
  err_when (str_empty (Crd.w_Site l)) (FieldRequired "spec.site") ++
  err_when (str_empty (Crd.w_Interface l)) (FieldRequired "spec.interface") ++
  err_when (str_empty (Crd.w_Provider l)) (FieldRequired "spec.provider") ++
  err_when (str_empty (Crd.w_Bandwidth l)) (FieldRequired "spec.bandwidth").

Definition wan_strategies : list string := ["lowest-latency"; "highest-bandwidth"; "most-reliable"; "lowest-cost"].
Definition wan_policy_errors (p : Crd.ProxyWANPolicy) : list ValidationErr :=
  let strategy := wp_Strategy (Crd.wo_PathSelection p) in
  err_when (str_empty strategy) (FieldRequired "spec.pathSelection.strategy") ++
  err_when (negb (contains wan_strategies strategy) && negb (str_empty strategy)) (UnsupportedStrategy strategy).

Definition reconcile_wan {A} (k : kind (tracked A)) (errors : A → list ValidationErr) (key : string) : api unit :=
  do found <- get k key;
  match found with
  | None => triggerConfigUpdate
  | Some t => write_phase k t (errors (tk_obj t))
  end.
Definition Reconcile_ProxyWANLink : string → api unit := reconcile_wan wanLinks wan_link_errors.
Definition Reconcile_ProxyWANPolicy : string → api unit := reconcile_wan wanPolicies wan_policy_errors.

(** ** What the reconcilers check *)

(** A check that leaves the store alone and reports no error exactly when [P] holds,
    if every call succeeds. *)
Definition decides (check : api (list ValidationErr)) (s : pstore) (P : Prop) : Prop :=
  succeeds check s (λ s' errs, s' = s ∧ (errs = [] ↔ P)).

(** The interface of the common reconciliation: a kind of resource, its checks, and
    what they decide. *)
Class ProxyResource (A : Type) := {
  pr_kind : kind (tracked A);
  pr_kind_ok : kind_ok pr_kind;
  pr_trigger n s : kd_get pr_kind (set_ps_updates n s) = kd_get pr_kind s;
  pr_updates m s : ps_updates (kd_put pr_kind m s) = ps_updates s;
  pr_validate : A → api (list ValidationErr);
  pr_valid : pstore → A → Prop;
  pr_decides s a : decides (pr_validate a) s (pr_valid s a);
}.

Lemma err_when_nil b e : err_when b e = [] ↔ b = false.
Proof. by destruct b. Qed.

Lemma decides_ret errs s P : (errs = [] ↔ P) → decides (ret errs) s P.
Proof. intros H. by apply succeeds_ret. Qed.
Lemma decides_iff check s P Q : (P ↔ Q) → decides check s P → decides check s Q.
Proof. intros HPQ (s' & errs & E & -> & H). exists s, errs. split; [done|]. split; [done|]. by rewrite H. Qed.

(** Checks one after the other. *)
Lemma all_errors_decides checks Ps s :
  Forall2 (λ c P, decides c s P) checks Ps → decides (all_errors checks) s (Forall (λ P : Prop, P) Ps).
Proof.
  induction 1 as [|c P checks Ps (s1 & errs & E1 & -> & H1) _ (s2 & more & E2 & -> & H2)]; [by apply decides_ret|].
  unfold decides. apply succeeds_bind. exists s, errs. split; [done|]. apply succeeds_bind. exists s, more. split; [done|].
  apply succeeds_ret. split; [done|]. by rewrite app_nil, H1, H2, Forall_cons.
Qed.

Lemma Forall2_concat_imap {A B C} (R : B → C → Prop) (f : nat → A → list B) (g : A → list C) l :
  (∀ i x, x ∈ l → Forall2 R (f i x) (g x)) → Forall2 R (concat (imap f l)) (concat (g <$> l)).
Proof.
  revert f. induction l as [|x l IH]; intros f H; [constructor|]. rewrite imap_cons. simpl. apply Forall2_app; [apply H; left|].
  apply IH. intros i y Hy. apply H. by right.
Qed.
Lemma Forall2_imap_fmap {A B C} (R : B → C → Prop) (f : nat → A → B) (g : A → C) l :
  (∀ i x, x ∈ l → R (f i x) (g x)) → Forall2 R (imap f l) (g <$> l).
Proof.
  revert f. induction l as [|x l IH]; intros f H; [constructor|]. rewrite imap_cons. simpl. constructor; [apply H; left|].
  apply IH. intros i y Hy. apply H. by right.
Qed.
Lemma concat_imap_nil {A B} (f : nat → A → list B) (P : A → Prop) l :
  (∀ i x, f i x = [] ↔ P x) → concat (imap f l) = [] ↔ Forall P l.
Proof.
  revert f. induction l as [|x l IH]; intros f H; [by split|]. rewrite imap_cons. simpl.
  rewrite app_nil, Forall_cons, (H 0%nat x), (IH (f ∘ S)); [done|]. intros i y. apply H.
Qed.

(** *** Backends *)

Definition at_least (n : Z) (o : option Z) : Prop := ∀ v, o = Some v → n ≤ v.

Record backend_valid (s : pstore) (b : Crd.ProxyBackend) : Prop := {
  bv_service : ∀ ref, Crd.k_ServiceRef b = Some ref →
    ∃ v, ps_services s !! ns_key (default (Crd.k_Namespace b) (Crd.s_Namespace ref)) (Crd.s_Name ref) = Some v ∧
      Crd.s_Port ref ∈ Crd.sp_Port <$> Crd.sv_Ports v;
  bv_health : ∀ h, Crd.k_HealthCheck b = Some h → at_least 1 (Crd.hc_HealthyThreshold h) ∧ at_least 1 (Crd.hc_UnhealthyThreshold h);
  bv_breaker : ∀ c, Crd.k_CircuitBreaker b = Some c → at_least 1 (Crd.cb_MaxConnections c) ∧ at_least 1 (Crd.cb_MaxPendingRequests c) ∧
    at_least 1 (Crd.cb_MaxRequests c) ∧ at_least 0 (Crd.cb_MaxRetries c);
  bv_ca : ∀ t name, Crd.k_TLS b = Some t → Crd.bl_Enabled t = true → Crd.bl_CACertSecretRef t = Some name →
    ∃ v, ps_secrets s !! ns_key (Crd.k_Namespace b) name = Some v ∧ is_Some (Crd.se_Data v !! "ca.crt"%string);
}.

Lemma below_false o n : below o n = false ↔ at_least n o.
Proof.
  unfold below, at_least. destruct o as [v|]; simpl; [rewrite bool_decide_eq_false|by split]. split.
  - intros ? ? [= <-]. lia.
  - intros Hv. specialize (Hv v eq_refl). lia.
Qed.

Lemma validateServiceRef_decides b s :
  decides (validateServiceRef b) s (∀ ref, Crd.k_ServiceRef b = Some ref →
    ∃ v, ps_services s !! ns_key (default (Crd.k_Namespace b) (Crd.s_Namespace ref)) (Crd.s_Name ref) = Some v ∧
      Crd.s_Port ref ∈ Crd.sp_Port <$> Crd.sv_Ports v).
Proof.
  unfold validateServiceRef. destruct (Crd.k_ServiceRef b) as [ref|]; [|by apply decides_ret].
  apply succeeds_bind, succeeds_attempt, succeeds_call. simpl. destruct (ps_services s !! _) as [v|] eqn:E.
  - case_decide; apply decides_ret; naive_solver.
  - apply decides_ret. naive_solver.
Qed.

Lemma validateTLSCACert_decides b s :
  decides (validateTLSCACert b) s (∀ t name, Crd.k_TLS b = Some t → Crd.bl_Enabled t = true → Crd.bl_CACertSecretRef t = Some name →
    ∃ v, ps_secrets s !! ns_key (Crd.k_Namespace b) name = Some v ∧ is_Some (Crd.se_Data v !! "ca.crt"%string)).
Proof.
  unfold validateTLSCACert. destruct (Crd.k_TLS b) as [[[] i [name|] c]|]; try (apply decides_ret; naive_solver).
  apply succeeds_bind, succeeds_attempt, succeeds_call. simpl. destruct (ps_secrets s !! _) as [v|] eqn:E; [|apply decides_ret; naive_solver].
  apply decides_ret. rewrite err_when_nil, bool_decide_eq_false, not_eq_None_Some. naive_solver.
Qed.

Lemma validateHealthCheck_nil hc :
  validateHealthCheck hc = [] ↔ ∀ h, hc = Some h → at_least 1 (Crd.hc_HealthyThreshold h) ∧ at_least 1 (Crd.hc_UnhealthyThreshold h).
Proof. unfold validateHealthCheck. destruct hc; [rewrite app_nil, !err_when_nil, !below_false|]; naive_solver. Qed.

Lemma validateCircuitBreaker_nil cb :
  validateCircuitBreaker cb = [] ↔ ∀ c, cb = Some c → at_least 1 (Crd.cb_MaxConnections c) ∧ at_least 1 (Crd.cb_MaxPendingRequests c) ∧
    at_least 1 (Crd.cb_MaxRequests c) ∧ at_least 0 (Crd.cb_MaxRetries c).
Proof. unfold validateCircuitBreaker. destruct cb; [rewrite !app_nil, !err_when_nil, !below_false|]; naive_solver. Qed.

Lemma validateBackend_decides s b : decides (validateBackend b) s (backend_valid s b).
Proof.
  eapply decides_iff; [|unfold validateBackend; apply all_errors_decides].
  2:{ constructor; [apply validateServiceRef_decides|]. constructor; [apply decides_ret, validateHealthCheck_nil|].
      constructor; [apply decides_ret, validateCircuitBreaker_nil|]. constructor; [apply validateTLSCACert_decides|constructor]. }
  rewrite !Forall_cons. split.
  - intros (? & ? & ? & ? & _). by split.
  - intros [? ? ? ?]. by split_and!.
Qed.

(** *** Routes *)

Definition ref_exists (s : pstore) (namespace : string) (ref : Crd.BackendRef) : Prop :=
  is_Some (ps_backends s !! ns_key (default namespace (Crd.b_Namespace ref)) (Crd.b_Name ref)).

Definition match_valid (m : Crd.HTTPRouteMatch) : Prop :=
  (∀ p, Crd.m_Path m = Some p → Crd.pa_Value p ≠ ""%string) ∧ Forall (λ h, Crd.ha_Name h ≠ ""%string) (Crd.m_Headers m).

Definition route_valid (s : pstore) (r : Crd.ProxyRoute) : Prop :=
  Forall (λ rule, Forall (ref_exists s (Crd.ro_Namespace r)) (Crd.r_BackendRefs rule) ∧ Forall match_valid (Crd.r_Matches rule)) (Crd.ro_Rules r).

Lemma check_backend_ref_decides s namespace i j ref : decides (check_backend_ref namespace i j ref) s (ref_exists s namespace ref).
Proof.
  apply succeeds_bind, succeeds_attempt, succeeds_call. cbn [fst snd]. unfold ref_exists. cbn [kd_get backends].
  destruct (ps_backends s !! _); apply decides_ret; [by split|]. split; [done|]. by intros [? ?].
Qed.

Lemma Forall_concat_fmap {A B} (P : B → Prop) (g : A → list B) l : Forall P (concat (g <$> l)) ↔ Forall (λ x, Forall P (g x)) l.
Proof. induction l as [|x l IH]; simpl; [by split; constructor|]. by rewrite Forall_app, Forall_cons, IH. Qed.

Lemma match_errors_nil i j m : match_errors i j m = [] ↔ match_valid m.
Proof.
  unfold match_errors, match_valid. rewrite app_nil, err_when_nil.
  rewrite (concat_imap_nil _ (λ h, Crd.ha_Name h ≠ ""%string)).
  - destruct (Crd.m_Path m) as [p|]; simpl; unfold str_empty; [rewrite bool_decide_eq_false|]; naive_solver.
  - intros k h. unfold str_empty. by rewrite err_when_nil, bool_decide_eq_false.
Qed.

Lemma validateRoute_decides s r : decides (validateRoute r) s (route_valid s r).
Proof.
  apply succeeds_bind. unfold check_backend_refs.
  destruct (all_errors_decides _ (concat ((λ rule, ref_exists s (Crd.ro_Namespace r) <$> Crd.r_BackendRefs rule) <$> Crd.ro_Rules r)) s
    (Forall2_concat_imap _ (λ i rule, imap (check_backend_ref (Crd.ro_Namespace r) i) (Crd.r_BackendRefs rule)) _ _
      (λ i rule _, Forall2_imap_fmap _ _ _ _ (λ j ref _, check_backend_ref_decides s (Crd.ro_Namespace r) i j ref))))
    as (s' & errs & E & -> & H).
  exists s, errs. split; [exact E|]. apply decides_ret. rewrite app_nil, H.
  rewrite (concat_imap_nil _ (λ rule, Forall match_valid (Crd.r_Matches rule))).
  - rewrite Forall_concat_fmap. unfold route_valid. rewrite Forall_and. setoid_rewrite Forall_fmap. done.
  - intros i rule. rewrite (concat_imap_nil _ match_valid); [done|]. intros j m. apply match_errors_nil.
Qed.

(** *** Policies *)

Definition policy_kinds : list string := ["ProxyGateway"; "ProxyRoute"; "ProxyBackend"].
Definition target_found (s : pstore) (target key : string) : Prop :=
  (target = "ProxyGateway"%string ∧ is_Some (ps_gateways s !! key)) ∨ (target = "ProxyRoute"%string ∧ is_Some (ps_routes s !! key)) ∨
  (target = "ProxyBackend"%string ∧ is_Some (ps_backends s !! key)).

(** The settings of a policy, by its type. *)
Inductive settings_valid (p : Crd.ProxyPolicy) : Prop :=
  | sv_rate c : Crd.p_Type p = "RateLimit"%string → Crd.p_RateLimit p = Some c → 0 < Crd.rt_RequestsPerSecond c → settings_valid p
  | sv_jwt c : Crd.p_Type p = "JWT"%string → Crd.p_JWT p = Some c → jw_Issuer c ≠ ""%string ∨ jw_JWKSUri c ≠ ""%string → settings_valid p
  | sv_cors c : Crd.p_Type p = "CORS"%string → Crd.p_CORS p = Some c → Crd.co_AllowOrigins c ≠ [] → settings_valid p
  | sv_waf c : Crd.p_Type p = "WAF"%string → Crd.p_WAF p = Some c → settings_valid p
  | sv_basic c : Crd.p_Type p = "BasicAuth"%string → Crd.p_BasicAuth p = Some c → Crd.ba_SecretRef c ≠ ""%string → settings_valid p
  | sv_headers c : Crd.p_Type p = "SecurityHeaders"%string → Crd.p_SecurityHeaders p = Some c → settings_valid p
  | sv_forward c : Crd.p_Type p = "ForwardAuth"%string → Crd.p_ForwardAuth p = Some c → Crd.fa_Address c ≠ ""%string → settings_valid p
  | sv_oidc c : Crd.p_Type p = "OIDC"%string → Crd.p_OIDC p = Some c → Crd.oi_ClientID c ≠ ""%string → settings_valid p
  | sv_wasm c : Crd.p_Type p = "WASMPlugin"%string → Crd.p_WASMPlugin p = Some c → Crd.wa_Source c ≠ ""%string → settings_valid p
  | sv_distributed c : Crd.p_Type p = "DistributedRateLimit"%string → Crd.p_DistributedRateLimit p = Some c → 0 < Crd.dr_RequestsPerSecond c → settings_valid p
  | sv_mesh c : Crd.p_Type p = "MeshAuthorization"%string → Crd.p_MeshAuthorization p = Some c → Crd.ma_Rules c ≠ [] → settings_valid p
  | sv_ips l : Crd.p_Type p ∈ ["IPAllowList"; "IPDenyList"]%string → Crd.p_IPList p = Some l → Crd.ip_CIDRs l ≠ [] →
      Forall (λ c, ParseCIDR c = true) (Crd.ip_CIDRs l) → settings_valid p.

Definition policy_valid (s : pstore) (p : Crd.ProxyPolicy) : Prop :=
  target_found s (Crd.t_Kind (Crd.p_TargetRef p))
    (ns_key (default (Crd.p_Namespace p) (Crd.t_Namespace (Crd.p_TargetRef p))) (Crd.t_Name (Crd.p_TargetRef p))) ∧
  settings_valid p.

Lemma found_decides {A} (k : kind A) key s (e : ValidationErr) :
  decides (do found <- attempt (do x <- get k key; ret ((λ _, tt) <$> x)); ret (match found with Some None => [e] | _ => [] end)) s
    (is_Some (kd_get k s !! key)).
Proof.
  apply succeeds_bind, succeeds_attempt, succeeds_bind, succeeds_call, succeeds_ret. cbn [fst snd].
  destruct (kd_get k s !! key); simpl; apply decides_ret; [by split|]. split; [done|]. by intros [? ?].
Qed.

Lemma validateTargetRef_decides s p :
  let t := Crd.p_TargetRef p in
  decides (validateTargetRef p) s (target_found s (Crd.t_Kind t) (ns_key (default (Crd.p_Namespace p) (Crd.t_Namespace t)) (Crd.t_Name t))).
Proof.
  intros t. unfold validateTargetRef, target_exists, target_found, str_eqb. fold t.
  case_bool_decide as H1; [eapply decides_iff, found_decides; rewrite H1; split; [by left|by intros [[_ ?]|[[? _]|[? _]]]]|].
  case_bool_decide as H2; [eapply decides_iff, found_decides; rewrite H2; split; [by right; left|by intros [[? _]|[[_ ?]|[? _]]]]|].
  case_bool_decide as H3; [eapply decides_iff, found_decides; rewrite H3; split; [by right; right|by intros [[? _]|[[? _]|[_ ?]]]]|].
  apply decides_ret. split; [done|]. by intros [[? _]|[[? _]|[? _]]].
Qed.

Lemma required_None {A} (o : option A) missing bad message :
  required o missing bad message = None ↔ ∃ c, o = Some c ∧ bad c = false.
Proof.
  unfold required. destruct o as [c|]; [|by split; [|intros (c & ? & _)]]. destruct (bad c) eqn:E.
  - split; [done|]. intros (c' & [= <-] & ?). congruence.
  - split; [|done]. intros _. by exists c.
Qed.

Lemma validateIPListPolicy_nil p :
  validateIPListPolicy p = [] ↔ ∃ l, Crd.p_IPList p = Some l ∧ Crd.ip_CIDRs l ≠ [] ∧ Forall (λ c, ParseCIDR c = true) (Crd.ip_CIDRs l).
Proof.
  unfold validateIPListPolicy. destruct (Crd.p_IPList p) as [l|]; [|naive_solver].
  destruct (Crd.ip_CIDRs l) as [|c cs] eqn:E; [naive_solver|]. split.
  - intros Hf%fmap_nil_inv. exists l. rewrite E. split; [done|]. split; [done|]. apply Forall_forall. intros x Hx.
    destruct (ParseCIDR x) eqn:Ex; [done|]. assert (x ∈ filter (λ c, ParseCIDR c = false) (c :: cs)) as Hin by (by apply list_elem_of_filter).
    rewrite Hf in Hin. by apply not_elem_of_nil in Hin.
  - intros (l' & [= <-] & _ & Hall). rewrite E in Hall. destruct (filter (λ c, ParseCIDR c = false) (c :: cs)) as [|x xs] eqn:F; [done|].
    assert (x ∈ filter (λ c, ParseCIDR c = false) (c :: cs)) as [Hx Hin]%list_elem_of_filter by (rewrite F; left).
    rewrite Forall_forall in Hall. apply Hall in Hin. congruence.
Qed.

(** One type of the table: its settings are there and good. *)
Ltac policy_bools := rewrite ?andb_false_iff, ?bool_decide_eq_false in *; first [done|lia|tauto].
Ltac policy_type rule :=
  match goal with |- context [required ?o ?m ?bad ?msg] =>
    transitivity (required o m bad msg = None); [by destruct (required o m bad msg)|]
  end;
  rewrite required_None; split;
  [intros (c & ? & ?); eapply rule; try eassumption; policy_bools
  |intros [c Hc ?|c Hc ?|c Hc ?|c Hc ?|c Hc ?|c Hc ?|c Hc ?|c Hc ?|c Hc ?|c Hc ?|c Hc ?|l Hc ?];
   try congruence; exists c; split; [done|policy_bools]].

Lemma validatePolicyConfig_nil p : validatePolicyConfig p = [] ↔ settings_valid p.
Proof.
  unfold validatePolicyConfig, policyValidators, str_eqb.
  destruct (decide (Crd.p_Type p ∈ ["IPAllowList"; "IPDenyList"]%string)) as [Hip|Hip].
  - assert (bool_decide (Crd.p_Type p = "IPAllowList"%string) || bool_decide (Crd.p_Type p = "IPDenyList"%string) = true) as ->.
    { apply elem_of_cons in Hip as [->|Hip]; [done|]. apply elem_of_cons in Hip as [->|Hip]; [done|]. by apply not_elem_of_nil in Hip. }
    rewrite validateIPListPolicy_nil. split; [intros (l & ? & ? & ?); by eapply sv_ips|].
    intros [c Hc|c Hc|c Hc|c Hc|c Hc|c Hc|c Hc|c Hc|c Hc|c Hc|c Hc|l Hc];
      [rewrite Hc in Hip; apply elem_of_cons in Hip as [?|Hip]; [done|]; apply elem_of_cons in Hip as [?|Hip]; [done|]; by apply not_elem_of_nil in Hip..|].
    eauto.
  - assert (bool_decide (Crd.p_Type p = "IPAllowList"%string) || bool_decide (Crd.p_Type p = "IPDenyList"%string) = false) as ->.
    { apply orb_false_iff. rewrite !bool_decide_eq_false. split; intros E; apply Hip; rewrite E; set_solver. }
    unfold str_empty. cbv zeta.
    case_bool_decide as H1; [policy_type sv_rate|].
    case_bool_decide as H2; [policy_type sv_jwt|].
    case_bool_decide as H3; [policy_type sv_cors|].
    case_bool_decide as H4; [policy_type sv_waf|].
    case_bool_decide as H5; [policy_type sv_basic|].
    case_bool_decide as H6; [policy_type sv_headers|].
    case_bool_decide as H7; [policy_type sv_forward|].
    case_bool_decide as H8; [policy_type sv_oidc|].
    case_bool_decide as H9; [policy_type sv_wasm|].
    case_bool_decide as H10; [policy_type sv_distributed|].
    case_bool_decide as H11; [policy_type sv_mesh|].
    split; [done|]. by intros [].
Qed.

Lemma validatePolicy_decides s p : decides (validatePolicy p) s (policy_valid s p).
Proof.
  eapply decides_iff; [|unfold validatePolicy; apply all_errors_decides].
  2:{ constructor; [apply validateTargetRef_decides|]. constructor; [apply decides_ret, validatePolicyConfig_nil|constructor]. }
  rewrite !Forall_cons. split; [by intros (? & ? & _)|]. intros [? ?]. by split_and!.
Qed.

Lemma backends_ok : kind_ok backends. Proof. split; done || by intros []. Qed.
Lemma routes_ok : kind_ok routes. Proof. split; done || by intros []. Qed.
Lemma policies_ok : kind_ok policies. Proof. split; done || by intros []. Qed.

#[export] Instance backend_resource : ProxyResource Crd.ProxyBackend :=
  {| pr_kind := backends; pr_kind_ok := backends_ok; pr_trigger n s := eq_refl; pr_updates m s := eq_refl; pr_validate := validateBackend;
     pr_valid := backend_valid; pr_decides := validateBackend_decides |}.
#[export] Instance route_resource : ProxyResource Crd.ProxyRoute :=
  {| pr_kind := routes; pr_kind_ok := routes_ok; pr_trigger n s := eq_refl; pr_updates m s := eq_refl; pr_validate := validateRoute;
     pr_valid := route_valid; pr_decides := validateRoute_decides |}.
#[export] Instance policy_resource : ProxyResource Crd.ProxyPolicy :=
  {| pr_kind := policies; pr_kind_ok := policies_ok; pr_trigger n s := eq_refl; pr_updates m s := eq_refl; pr_validate := validatePolicy;
     pr_valid := policy_valid; pr_decides := validatePolicy_decides |}.

(** ** The verdict *)

Section verdict.
Context {A : Type} `{ProxyResource A}.

Definition Reconcile_resource : string → api unit := reconcileWithGenerationCheck pr_kind pr_validate.

(** The resource with a verdict on its current generation. *)
Definition judged (t : tracked A) (ready : bool) : tracked A :=
  mkTracked (tk_obj t) (tk_generation t) (tk_generation t) (Some ready) (tk_phase t).

Lemma Reconcile_ready (s : pstore) (key : string) (t : tracked A) :
  kd_get pr_kind s !! key = Some t → kd_key pr_kind t = key → already_reconciled t = false →
  ∃ s' r ready, Reconcile_resource key [] s = (s', [], r) ∧
    kd_get pr_kind s' = <[key := judged t ready]> (kd_get pr_kind s) ∧
    (ready = true ↔ pr_valid s (tk_obj t)) ∧
    (if ready then r = Some tt ∧ s' = set_ps_updates (S <$> ps_updates s) (kd_put pr_kind (<[key := judged t true]> (kd_get pr_kind s)) s)
     else r = None ∧ s' = kd_put pr_kind (<[key := judged t false]> (kd_get pr_kind s)) s).
Proof.
  intros Ht Hkey Hnew.
  destruct (pr_decides s (tk_obj t)) as (s0 & errs & E & -> & Hvalid).
  assert (Reconcile_resource key [] s = match write_verdict pr_kind t errs [] s with
    | (s', o, Some _) => triggerConfigUpdate o s' | (s', o, None) => (s', o, None) end) as ->.
  { unfold Reconcile_resource, reconcileWithGenerationCheck, get, bind at 1, call. simpl. rewrite Ht, Hnew. unfold bind. by rewrite E. }
  unfold write_verdict, update, bind, call. rewrite Hkey. destruct errs as [|e errs]; cbn.
  - eexists _, _, true. split; [reflexivity|]. rewrite pr_trigger, (get_put _ pr_kind_ok), pr_updates.
    split; [done|]. split; [tauto|]. done.
  - eexists _, _, false. split; [reflexivity|]. rewrite (get_put _ pr_kind_ok). split; [done|]. split; [|done].
    split; [done|]. intros Hv. by apply Hvalid in Hv.
Qed.


(** A verdict is final: once the generation of a resource was observed, a
    reconciliation does nothing, whatever changed around it. *)
Lemma verdict_is_final (s : pstore) (key : string) (t : tracked A) :
  kd_get pr_kind s !! key = Some t → already_reconciled t = true → triple (Reconcile_resource key) s (λ s' _, s' = s).
Proof.
  intros Ht Hr. apply triple_bind, triple_call; [done|]. cbn [fst snd]. rewrite Ht, Hr. by apply triple_ret.
Qed.

(** The reconciliation of a resource that is gone asks for nothing. *)
Lemma deletion_triggers_nothing (s : pstore) (key : string) :
  kd_get pr_kind s !! key = None → triple (Reconcile_resource key) s (λ s' _, s' = s).
Proof. intros Ht. apply triple_bind, triple_call; [done|]. cbn [fst snd]. rewrite Ht. by apply triple_ret. Qed.
End verdict.

(** ** Gateways *)

(** A listener that terminates TLS. *)
Definition terminates_tls (l : Crd.Listener) : bool := str_eqb (Crd.l_Protocol l) "HTTPS" || str_eqb (Crd.l_Protocol l) "TLS".
(** Its TLS settings name no Secret: they use Vault, ACME or a self-signed certificate. *)
Definition without_secret (l : Crd.Listener) : Prop := terminates_tls l = true ∧ ∃ tls, Crd.l_TLS l = Some tls ∧ Crd.SecretRef tls = None.

Definition has_certificate (s : pstore) (namespace : string) (ref : Crd.SecretReference) : Prop :=
  ∃ v, ps_secrets s !! ns_key (if str_empty (Crd.sr_Namespace ref) then namespace else Crd.sr_Namespace ref) (Crd.sr_Name ref) = Some v ∧
    is_Some (Crd.se_Data v !! "tls.crt"%string) ∧ is_Some (Crd.se_Data v !! "tls.key"%string).
Definition listener_valid (s : pstore) (g : Crd.ProxyGateway) (l : Crd.Listener) : Prop :=
  terminates_tls l = true → ∃ tls ref, Crd.l_TLS l = Some tls ∧ Crd.SecretRef tls = Some ref ∧ Crd.sr_Name ref ≠ ""%string ∧
    has_certificate s (Crd.g_Namespace g) ref.

Lemma secret_errors_nil name listener v :
  secret_errors name listener (Some (Some v)) = [] ↔ is_Some (Crd.se_Data v !! "tls.crt"%string) ∧ is_Some (Crd.se_Data v !! "tls.key"%string).
Proof. simpl. by rewrite app_nil, !err_when_nil, !bool_decide_eq_false, !not_eq_None_Some. Qed.

Lemma listener_errors_decides s g l :
  ¬ without_secret l →
  succeeds (listener_errors g l) s (λ s' r, s' = s ∧ ∃ errs, r = Returns errs ∧ (errs = [] ↔ listener_valid s g l)).
Proof.
  intros Hn. unfold listener_errors, listener_valid. fold (terminates_tls l). destruct (terminates_tls l) eqn:Et.
  2:{ apply succeeds_ret. split; [done|]. by exists []. }
  destruct (Crd.l_TLS l) as [tls|] eqn:El.
  2:{ apply succeeds_ret. split; [done|]. eexists. split; [done|]. split; [done|]. intros Hv. by destruct (Hv eq_refl) as (? & ? & ? & _). }
  destruct (Crd.SecretRef tls) as [ref|] eqn:Er; [|exfalso; apply Hn; split; eauto].
  unfold str_empty at 1. case_bool_decide as He.
  { apply succeeds_ret. split; [done|]. eexists. split; [done|]. split; [done|]. intros Hv.
    destruct (Hv eq_refl) as (? & ? & [= <-] & Hr & ? & _). rewrite Er in Hr. by injection Hr as <-. }
  apply succeeds_bind, succeeds_attempt, succeeds_call, succeeds_ret. split; [done|]. eexists. split; [done|]. cbn [fst snd kd_get secrets].
  destruct (ps_secrets s !! _) as [v|] eqn:Es.
  - rewrite secret_errors_nil. split.
    + intros Hv _. exists tls, ref. split_and!; [done|done|done|]. by exists v.
    + intros Hv. destruct (Hv eq_refl) as (? & ref' & [= <-] & Hr & _ & v' & Hv' & ?). rewrite Er in Hr. injection Hr as <-. by simplify_eq.
  - split; [done|]. intros Hv. destruct (Hv eq_refl) as (? & ref' & [= <-] & Hr & _ & v' & Hv' & ?). rewrite Er in Hr. injection Hr as <-. congruence.
Qed.

Lemma gateway_errors_decides s g ls :
  Forall (λ l, ¬ without_secret l) ls →
  succeeds (gateway_errors g ls) s (λ s' r, s' = s ∧ ∃ errs, r = Returns errs ∧ (errs = [] ↔ Forall (listener_valid s g) ls)).
Proof.
  induction 1 as [|l ls Hl _ (s2 & r2 & E2 & -> & more & -> & H2)].
  { apply succeeds_ret. split; [done|]. exists []. by split. }
  apply succeeds_bind. destruct (listener_errors_decides s g l Hl) as (s1 & r1 & E1 & -> & errs & -> & H1).
  exists s, (Returns errs). split; [exact E1|]. apply succeeds_bind. exists s, (Returns more). split; [exact E2|]. apply succeeds_ret.
  split; [done|]. exists (errs ++ more). split; [done|]. by rewrite app_nil, Forall_cons, H1, H2.
Qed.

(** The gateway reconciler, without Vault, decides whether the certificates of all
    listeners exist. *)
Theorem gateway_verdict (controllerClass : string) (s : pstore) (key : string) (t : tracked Crd.ProxyGateway)
    (Ht : ps_gateways s !! key = Some t) (Hkey : kd_key gateways t = key) (Hnew : already_reconciled t = false)
    (Hclass : shouldReconcileGateway controllerClass (tk_obj t) = true)
    (Hsecrets : Forall (λ l, ¬ without_secret l) (Crd.g_Listeners (tk_obj t))) :
  ∃ s' r ready, Reconcile_ProxyGateway controllerClass None key [] s = (s', [], r) ∧
    ps_gateways s' = <[key := judged t ready]> (ps_gateways s) ∧
    (ready = true ↔ Forall (listener_valid s (tk_obj t)) (Crd.g_Listeners (tk_obj t))) ∧
    (if ready then r = Some (Returns tt) ∧ ps_updates s' = S <$> ps_updates s else r = None ∧ ps_updates s' = ps_updates s).
Proof.
  destruct (gateway_errors_decides s (tk_obj t) _ Hsecrets) as (s0 & r0 & E & -> & errs & -> & Hv).
  unfold Reconcile_ProxyGateway, get, bind at 1, call. cbn [kd_get gateways]. rewrite Ht, Hnew, Hclass. cbn [negb].
  unfold bind, ret. rewrite E. unfold write_verdict, update, bind, call. rewrite Hkey. destruct errs as [|e errs]; cbn.
  - eexists _, _, true. split; [reflexivity|]. cbn. split; [done|]. split; [tauto|done].
  - eexists _, _, false. split; [reflexivity|]. cbn. split; [done|]. split; [|done]. split; [done|]. intros H. by apply Hv in H.
Qed.

(** A listener with TLS settings that name no Secret makes the reconciler panic before
    it has written a verdict, whatever calls fail. *)
Lemma listener_without_secret_panics g ls l s :
  l ∈ ls → without_secret l → triple (gateway_errors g ls) s (λ s' r, s' = s ∧ (r = Some Panics ∨ r = None)).
Proof.
  intros Hl Hw. induction ls as [|l' ls IH]; [by apply not_elem_of_nil in Hl|]. apply triple_bind.
  assert (triple (listener_errors g l') s (λ s' r, s' = s ∧ (r = None ∨ (l' = l → r = Some Panics)))) as H1.
  { destruct Hw as (Ht & tls & El & Er). unfold listener_errors. destruct (_ || _) eqn:Ep.
    - destruct (Crd.l_TLS l') as [tls'|] eqn:El'; [|apply triple_ret; split; [done|]; right; intros ->; congruence].
      destruct (Crd.SecretRef tls') as [ref|] eqn:Er'; [|apply triple_ret; auto].
      destruct (str_empty _); [apply triple_ret; split; [done|]; right; intros ->; congruence|].
      intros oracle. unfold get_secret, get, bind, attempt, call. destruct oracle as [|[] oracle]; simpl; (split; [done|]); right; intros ->; congruence.
    - apply triple_ret. split; [done|]. right. intros ->. unfold terminates_tls in Ht. congruence. }
  eapply triple_mono; [exact H1|]. intros s' r [-> [->|Hr]]; [by split; [|right]|].
  destruct r as [[errs|]|]; [|by apply triple_ret; auto|by split; [|right]].
  apply elem_of_cons in Hl as [<-|Hl]; [by specialize (Hr eq_refl)|].
  apply triple_bind. eapply triple_mono; [by apply IH|]. intros s'' r' [-> [-> | ->]]; [apply triple_ret; auto|by split; [|right]].
Qed.
