(* ===== verification/ProxySpec.v ===== *)
(** * The verdicts of the reconcilers and the configuration of the agents

    A route that is reported as ready finds its backends in the snapshot that is
    built next. Then examples of the reconcilers, and of verdicts that are not
    repeated. *)

From S2P Require Import Prelude GoStrings GoNet Float64 GoLib BuilderTypes SnapshotBuilder Convert BuilderVersion KubeApi IngressDataplane GatewaySpec ProxyReconcile.
Open Scope Z_scope.
Open Scope go_scope.

Section composition.
Context `{TextTables} `{SortSlice}.

(** The names of the store are those of Kubernetes: keys are namespace and name, and
    a namespace has no slash. *)
Definition backends_filed (s : pstore) : Prop :=
  map_Forall (λ key t, kd_key backends t = key ∧ no_char "/" (Crd.k_Namespace (tk_obj t)) = true) (ps_backends s).

(** C33: A route that was found ready is served. Let a reconciliation in which every
    call to the API server succeeds mark a generation of a route that was not
    observed before as ready. Then every snapshot that is built from a listing
    that has the backends of that store - filed under namespace and name, no
    namespace with a slash - has a cluster for each backend the route names, of
    that name and namespace; and the update was announced, where there is a
    snapshot server. *)
Theorem ready_route_is_served (s s' : pstore) (key : string) (t t' : tracked Crd.ProxyRoute) (o : list bool) (r : option unit)
    visit units marshal fp now k bc snap
    (Ht : ps_routes s !! key = Some t) (Hkey : kd_key routes t = key) (Hnew : already_reconciled t = false)
    (Hrun : Reconcile_ProxyRoute key [] s = (s', o, r)) (Ht' : ps_routes s' !! key = Some t') (Hready : tk_ready t' = Some true)
    (Hfiled : backends_filed s') (Hns : ∀ rule ref, rule ∈ Crd.ro_Rules (tk_obj t) → ref ∈ Crd.r_BackendRefs rule →
       no_char "/" (default (Crd.ro_Namespace (tk_obj t)) (Crd.b_Namespace ref)) = true)
    (Hk : prefetch k = Some bc) (Hlist : ∀ key b, ps_backends s' !! key = Some b → tk_obj b ∈ bc_backends bc)
    (Hsnap : BuildSnapshot visit units marshal fp now k = Returns (Some snap)) :
  ps_updates s' = S <$> ps_updates s ∧
  ∀ rule ref, rule ∈ Crd.ro_Rules (tk_obj t) → ref ∈ Crd.r_BackendRefs rule →
    ∃ cl, cl ∈ Pb.Clusters snap ∧ Pb.k_Name cl = Crd.b_Name ref ∧
      Pb.k_Namespace cl = default (Crd.ro_Namespace (tk_obj t)) (Crd.b_Namespace ref).
Proof.
  destruct (@Reconcile_ready Crd.ProxyRoute route_resource s key t Ht Hkey Hnew) as (s1 & r1 & ready & E & Hget & Hv & Hend).
  change (Reconcile_resource key) with (Reconcile_ProxyRoute key) in E. rewrite Hrun in E. injection E as -> -> ->.
  change (kd_get pr_kind ?x) with (ps_routes x) in Hget. rewrite Hget, lookup_insert_eq in Ht'. injection Ht' as <-.
  simpl in Hready. injection Hready as ->. destruct Hend as [-> ->]. split; [done|]. intros rule ref Hrule Href.
  assert (route_valid s (tk_obj t)) as Hr by (by apply Hv). unfold route_valid in Hr. rewrite Forall_forall in Hr.
  destruct (Hr rule Hrule) as [Hrefs _]. rewrite Forall_forall in Hrefs. destruct (Hrefs ref Href) as [b Hb].
  destruct (Hfiled _ _ Hb) as [Hbk Hbn]. apply ns_key_inj in Hbk as [Hbns Hbname]; [|done|by eapply Hns].
  destruct (BuildSnapshot_parts _ _ _ _ _ _ _ _ Hk Hsnap) as (_ & Pc & _).
  exists (buildCluster bc (tk_obj b)). split; [rewrite Pc; apply list_elem_of_fmap_2; by eapply Hlist|]. done.
Qed.
End composition.

(** ** An example *)

#[local] Instance spec_texts : TextTables := IngressReconcile.plain_texts.
#[local] Instance spec_sort : SortSlice := insertion_SortSlice.

(** A resource as it is created. *)
Definition created {A} (a : A) : tracked A := mkTracked a 1 0 None "".

Definition db_route : tracked Crd.ProxyRoute := created (tcp_route "orders" "db").
Definition db_backend : tracked Crd.ProxyBackend := created (tcp_backend "db").
Definition db_store (backends : list (string * tracked Crd.ProxyBackend)) : pstore :=
  mkPStore ∅ {[ "shop/orders"%string := db_route ]} (list_to_map backends) ∅ ∅ ∅ tcp_services ∅ (Some 0%nat).
Definition full_store : pstore := db_store [("shop/db"%string, db_backend)].

Definition db_kube (s : pstore) : KubeClient :=
  mkKubeClient (Some []) (Some (tk_obj <$> (map_to_list (ps_routes s)).*2)) (Some (tk_obj <$> (map_to_list (ps_backends s)).*2)) (Some [])
    (Some []) (Some []) (Some []) (Some []) (Some []) (Some []) (λ _, None).


Definition full_reconciled : pstore := (Reconcile_ProxyRoute "shop/orders" [] full_store).1.1.

(** The cluster of the backend, on the example. *)
Lemma ready_route_is_served_witness :
  ∃ bc snap, prefetch (db_kube full_reconciled) = Some bc ∧
    BuildSnapshot in_order multipliers (λ _, Some [1]) None 0 (db_kube full_reconciled) = Returns (Some snap) ∧
    ps_updates full_reconciled = Some 1%nat ∧ ∃ cl, cl ∈ Pb.Clusters snap ∧ Pb.k_Name cl = "db"%string ∧ Pb.k_Namespace cl = "shop"%string.
Proof.
  destruct (prefetch (db_kube full_reconciled)) as [bc|] eqn:Epre; [|vm_compute in Epre; discriminate].
  destruct (BuildSnapshot in_order multipliers (λ _, Some [1]) None 0 (db_kube full_reconciled)) as [[snap|]|] eqn:Esnap;
    [|vm_compute in Esnap; discriminate..].
  exists bc, snap. split; [reflexivity|]. split; [reflexivity|].
  destruct (ready_route_is_served full_store full_reconciled "shop/orders" db_route (judged db_route true) [] (Some tt)
    in_order multipliers (λ _, Some [1]) None 0 (db_kube full_reconciled) bc snap) as [Hu Hc];
    [vm_compute; reflexivity..| | | | | |].
  - apply map_Forall_singleton. split; reflexivity.
  - intros rule ref [->|[]%not_elem_of_nil]%elem_of_cons [->|[]%not_elem_of_nil]%elem_of_cons. reflexivity.
  - exact Epre.
  - vm_compute in Epre. injection Epre as <-. intros key b Hb. apply (lookup_singleton_Some "shop/db"%string key db_backend) in Hb as [_ <-]. left.
  - exact Esnap.
  - split; [exact Hu|]. apply (Hc (Crd.mkHTTPRouteRule [] [] [Crd.mkBackendRef "db" None None] None None None None None None) (Crd.mkBackendRef "db" None None)); left.
Defined.

(** ** Verdicts that are not repeated *)

(** The store after a backend was created. *)
Definition with_backend (s : pstore) : pstore := set_ps_backends (<["shop/db"%string := db_backend]> (ps_backends s)) s.

(** A route that is reconciled before its backend is created fails, and is retried;
    the retry finds that the generation was observed, and gives up. The route stays
    "not ready" for ever, although it is valid, and no agent is told of it. *)
Example early_route_stays_rejected :
  let s1 := with_backend (Reconcile_ProxyRoute "shop/orders" [] (db_store [])).1.1 in
  let s2 := (Reconcile_ProxyRoute "shop/orders" [] s1).1.1 in
  (Reconcile_ProxyRoute "shop/orders" [] (db_store [])).2 = None ∧ (Reconcile_ProxyRoute "shop/orders" [] s1).2 = Some tt ∧
  route_valid s2 (tk_obj db_route) ∧ (ps_routes s2 !! "shop/orders"%string) ≫= tk_ready = Some false ∧ ps_updates s2 = Some 0%nat.
Proof.
  split; [vm_compute; reflexivity|]. split; [vm_compute; reflexivity|]. split; [|split; vm_compute; reflexivity].
  repeat constructor. eexists. vm_compute. reflexivity.
Qed.

(** A backend that is deleted triggers no update, and the route that names it stays
    ready; the agents keep the backend until something else changes. *)
Example deleted_backend_is_not_announced :
  let s1 := set_ps_backends ∅ full_reconciled in
  let s2 := (Reconcile_ProxyRoute "shop/orders" [] (Reconcile_ProxyBackend "shop/db" [] s1).1.1).1.1 in
  s2 = s1 ∧ (ps_routes s2 !! "shop/orders"%string) ≫= tk_ready = Some true ∧ ¬ route_valid s2 (tk_obj db_route).
Proof.
  split; [vm_compute; reflexivity|]. split; [vm_compute; reflexivity|].
  intros Hr. apply Forall_inv in Hr as [Hr _]. apply Forall_inv in Hr as [b Hb]. vm_compute in Hb. discriminate.
Qed.

(** A lookup that fails, for example because the API server is overloaded, counts as
    found: the route is ready although its backend does not exist. *)
Example failed_lookup_is_a_pass :
  let s1 := (Reconcile_ProxyRoute "shop/orders" [true; false] (db_store [])).1.1 in
  (ps_routes s1 !! "shop/orders"%string) ≫= tk_ready = Some true ∧ ps_updates s1 = Some 1%nat ∧ ¬ route_valid s1 (tk_obj db_route).
Proof.
  split; [vm_compute; reflexivity|]. split; [vm_compute; reflexivity|].
  intros Hr. apply Forall_inv in Hr as [Hr _]. apply Forall_inv in Hr as [b Hb]. vm_compute in Hb. discriminate.
Qed.

(** A gateway whose certificate comes from Vault: the certificate is requested and
    stored, and then the check of the listener panics. *)
Definition vault_listener : Crd.Listener :=
  Crd.mkListener "https" 443 "HTTPS" (Some (Crd.mkTLSConfig None (Some (Crd.mkVaultCertReference "pki" "web" "24h" "")) "" [])) ∅ None
    ["shop.example"%string] false None false None [] 0.
Definition vault_gateway : Crd.ProxyGateway := Crd.mkProxyGateway "web" "shop" "" "" [vault_listener] [] None None None ∅ None None.

Example vault_gateway_panics :
  let s := mkPStore {[ "shop/web"%string := created vault_gateway ]} ∅ ∅ ∅ ∅ ∅ ∅ ∅ (Some 0%nat) in
  let run := Reconcile_ProxyGateway "" (Some (λ _, Some ("CERT", "KEY")%string)) "shop/web" [] s in
  run.2 = Some Panics ∧ is_Some (ps_secrets run.1.1 !! "shop/web-https-vault-tls"%string) ∧
  (ps_gateways run.1.1 !! "shop/web"%string) ≫= tk_ready = None.
Proof. split; [vm_compute; reflexivity|]. split; [eexists; vm_compute; reflexivity|vm_compute; reflexivity]. Qed.
