(* ===== verification/StandaloneConfig.v ===== *)
(** * Configuration files of the standalone mode

    [src/internal/standalone/config.go]: without Kubernetes the agent reads its
    configuration from a file. The records hold the fields the program reads;
    decoding YAML is an argument of the watcher. Errors are their texts. *)

From S2P Require Import Prelude GoStrings Float64 GoLib.
Open Scope Z_scope.

Module Sa.

Record CompressionConfig := mkCompressionConfig {
  cc_Enabled : bool; cc_MinSize : string; cc_Level : Z; cc_Algorithms : list string; cc_ExcludeTypes : list string }.
Record AccessLogConfig := mkAccessLogConfig {
  al_Enabled : bool; al_Format : string; al_Template : string; al_Path : string; al_Output : string; al_MaxSize : string;
  al_MaxBackups : Z; al_FilterStatusCodes : list Z; al_SampleRate : float64 }.
Record GlobalConfig := mkGlobalConfig { gl_AccessLog : AccessLogConfig; gl_Compression : option CompressionConfig }.
Record ErrorPagesConfig := mkErrorPagesConfig { eg_Enabled : bool; eg_Pages : gmap Z string; eg_DefaultPage : string }.
Record RedirectSchemeStandaloneConfig := mkRedirectScheme {
  rd_Enabled : bool; rd_Scheme : string; rd_Port : Z; rd_StatusCode : Z; rd_Exclusions : list string }.

Record HTTP3ListenerConfig := mkHTTP3 { h3_Enabled : bool; h3_ZeroRTT : bool; h3_MaxIdleTimeout : string }.
Record ClientAuthListenerConfig := mkClientAuth {
  ca_Mode : string; ca_CAFile : string; ca_RequiredCNPatterns : list string; ca_RequiredSANs : list string }.
Record ProxyProtocolListenerConfig := mkProxyProtocol { pp_Enabled : bool; pp_Version : Z; pp_TrustedCIDRs : list string }.
Record TLSConfig := mkTLSConfig {
  tl_CertFile : string; tl_KeyFile : string; tl_Certificate : string; tl_MinVersion : string; tl_CipherSuites : list string }.
Record ListenerConfig := mkListenerConfig {
  l_Name : string; l_Port : Z; l_Protocol : string; l_HTTP3 : option HTTP3ListenerConfig; l_TLS : option TLSConfig;
  l_Hostnames : list string; l_MaxRequestBodySize : Z; l_ClientAuth : option ClientAuthListenerConfig; l_OCSPStapling : bool;
  l_ProxyProtocol : option ProxyProtocolListenerConfig }.

Record RouteMirrorConfig := mkRouteMirrorConfig { mi_Backend : string; mi_Percentage : Z }.
Record RouteLimits := mkRouteLimits { rl_MaxRequestBodySize : string; rl_RequestTimeout : string; rl_IdleTimeout : string }.
Record BufferingConfig := mkBufferingConfig { bu_Request : bool; bu_Response : bool; bu_MaxSize : string }.
Record RetryPolicyConfig := mkRetryPolicyConfig {
  re_MaxRetries : Z; re_PerTryTimeout : string; re_RetryOn : list string; re_RetryBudget : float64; re_BackoffBase : string;
  re_RetryMethods : list string }.
Record MiddlewareRefConfig := mkMiddlewareRefConfig { mw_Type : string; mw_Name : string; mw_Priority : Z; mw_Config : gmap string string }.
Record PathMatch := mkPathMatch { pa_Type : string; pa_Value : string }.
Record HeaderMatch := mkHeaderMatch { ha_Name : string; ha_Value : string; ha_Type : string }.
Record RouteMatch := mkRouteMatch { m_Hostnames : list string; m_Path : option PathMatch; m_Headers : list HeaderMatch; m_Method : string }.
Record RouteBackendRef := mkRouteBackendRef { b_Name : string; b_Weight : Z }.
Record RouteFilter := mkRouteFilter {
  f_Type : string; f_Add : gmap string string; f_Remove : list string; f_RewritePath : string; f_RedirectURL : string }.
Record RouteConfig := mkRouteConfig {
  r_Name : string; r_Match : RouteMatch; r_Backends : list RouteBackendRef; r_Filters : list RouteFilter;
  r_Mirror : option RouteMirrorConfig; r_Timeout : string; r_Policies : list string; r_Limits : option RouteLimits;
  r_Buffering : option BufferingConfig; r_Retry : option RetryPolicyConfig; r_Pipeline : option (list MiddlewareRefConfig);
  r_Expression : string }.

Record EndpointConfig := mkEndpointConfig { e_Address : string; e_Weight : Z }.
Record HealthCheckConfig := mkHealthCheckConfig {
  hc_Path : string; hc_Interval : string; hc_Timeout : string; hc_HealthyThreshold : Z; hc_UnhealthyThreshold : Z }.
Record CircuitBreakerConfig := mkCircuitBreakerConfig {
  cb_MaxConnections : Z; cb_MaxPendingRequests : Z; cb_MaxRequests : Z; cb_MaxRetries : Z }.
Record ConnectionPoolConfig := mkConnectionPoolConfig { cp_MaxConnections : Z; cp_MaxIdleConnections : Z; cp_IdleTimeout : string }.
Record BackendTLSConfig := mkBackendTLSConfig {
  bl_Enabled : bool; bl_Mode : string; bl_CAFile : string; bl_CertFile : string; bl_KeyFile : string; bl_InsecureSkipVerify : bool }.
Record SessionAffinityStandaloneConfig := mkSessionAffinity {
  sa_Type : string; sa_CookieName : string; sa_CookieTTL : string; sa_CookiePath : string; sa_Secure : bool; sa_SameSite : string }.
Record UpstreamProxyProtocolBackendConfig := mkUpstreamProxyProtocol { up_Enabled : bool; up_Version : Z }.
Record BackendConfig := mkBackendConfig {
  k_Name : string; k_Endpoints : list EndpointConfig; k_LBPolicy : string; k_HealthCheck : option HealthCheckConfig;
  k_CircuitBreaker : option CircuitBreakerConfig; k_ConnectionPool : option ConnectionPoolConfig; k_TLS : option BackendTLSConfig;
  k_SessionAffinity : option SessionAffinityStandaloneConfig; k_UpstreamProxyProtocol : option UpstreamProxyProtocolBackendConfig }.

Record RateLimitPolicy := mkRateLimitPolicy { rt_RequestsPerSecond : Z; rt_BurstSize : Z; rt_Key : string }.
Record CORSPolicy := mkCORSPolicy {
  co_AllowOrigins : list string; co_AllowMethods : list string; co_AllowHeaders : list string; co_ExposeHeaders : list string;
  co_MaxAge : Z; co_AllowCredentials : bool }.
Record IPFilterPolicy := mkIPFilterPolicy { ip_AllowList : list string; ip_DenyList : list string }.
Record JWTPolicy := mkJWTPolicy {
  jw_Issuer : string; jw_Audience : list string; jw_JWKSURI : string; jw_SecretKey : string; jw_AllowedAlgorithms : list string }.
Record RedisConnectionConfig := mkRedis { rs_Address : string; rs_Password : string; rs_TLS : bool; rs_Database : Z; rs_ClusterMode : bool }.
Record DistributedRateLimitPolicy := mkDistributedRateLimitPolicy {
  dr_RequestsPerSecond : Z; dr_BurstSize : Z; dr_Algorithm : string; dr_Key : string; dr_Redis : RedisConnectionConfig }.
Record WAFPolicy := mkWAFPolicy {
  wf_Enabled : bool; wf_Mode : string; wf_ParanoiaLevel : Z; wf_AnomalyThreshold : Z; wf_RulesFile : string;
  wf_RuleExclusions : list string; wf_CustomRules : list string; wf_MaxBodySize : Z; wf_ResponseBodyInspection : bool;
  wf_MaxResponseBodySize : Z }.
Record WASMPluginPolicy := mkWASMPluginPolicy { wa_Source : string; wa_Config : gmap string string; wa_Phase : string; wa_Priority : Z }.
Record BasicAuthPolicy := mkBasicAuthPolicy { ba_Realm : string; ba_HtpasswdFile : string; ba_Users : gmap string string; ba_StripAuth : bool }.
Record ForwardAuthPolicy := mkForwardAuthPolicy {
  fa_Address : string; fa_AuthHeaders : list string; fa_ResponseHeaders : list string; fa_Timeout : string; fa_CacheTTL : string }.
Record KeycloakPolicy := mkKeycloakPolicy { kc_ServerURL : string; kc_Realm : string; kc_RoleClaim : string; kc_GroupClaim : string }.
Record AuthorizationPolicy := mkAuthorizationPolicy { az_RequiredRoles : list string; az_RequiredGroups : list string; az_Mode : string }.
Record OIDCPolicy := mkOIDCPolicy {
  oi_Provider : string; oi_IssuerURL : string; oi_ClientID : string; oi_ClientSecret : string; oi_RedirectURL : string;
  oi_Scopes : list string; oi_SessionSecret : string; oi_ForwardHeaders : list string; oi_Keycloak : option KeycloakPolicy;
  oi_Authorization : option AuthorizationPolicy }.
Record PolicyConfig := mkPolicyConfig {
  p_Name : string; p_Type : string; p_RateLimit : option RateLimitPolicy; p_CORS : option CORSPolicy; p_IPFilter : option IPFilterPolicy;
  p_JWT : option JWTPolicy; p_DistributedRateLimit : option DistributedRateLimitPolicy; p_WAF : option WAFPolicy;
  p_WASMPlugin : option WASMPluginPolicy; p_BasicAuth : option BasicAuthPolicy; p_ForwardAuth : option ForwardAuthPolicy;
  p_OIDC : option OIDCPolicy }.

Record L4TCPStandaloneConfig := mkL4TCP { lt_ConnectTimeout : string; lt_IdleTimeout : string; lt_BufferSize : Z; lt_DrainTimeout : string }.
Record L4UDPStandaloneConfig := mkL4UDP { lu_SessionTimeout : string; lu_BufferSize : Z }.
Record L4TLSRouteStandaloneConfig := mkL4TLSRoute { lr_Hostname : string; lr_Backend : string }.
Record L4ListenerStandaloneConfig := mkL4Listener {
  l4_Name : string; l4_Port : Z; l4_Protocol : string; l4_Backend : string; l4_TCP : option L4TCPStandaloneConfig;
  l4_UDP : option L4UDPStandaloneConfig; l4_TLSRoutes : list L4TLSRouteStandaloneConfig; l4_DefaultTLSBackend : string }.

Record ManualIssuerConfig := mkManualIssuer { mn_CertFile : string; mn_KeyFile : string }.
Record CertificateIssuerConfig := mkIssuer { is_Type : string; is_ACMEEmail : option string; is_Manual : option ManualIssuerConfig }.
Record CertificateConfig := mkCertificate { ce_Name : string; ce_Domains : list string; ce_Issuer : CertificateIssuerConfig }.

Record Config := mkConfig {
  Version : string; Global : GlobalConfig; Certificates : list CertificateConfig; Listeners : list ListenerConfig;
  Routes : list RouteConfig; Backends : list BackendConfig; L4Listeners : list L4ListenerStandaloneConfig; Policies : list PolicyConfig;
  ErrorPages : option ErrorPagesConfig; RedirectScheme : option RedirectSchemeStandaloneConfig }.

End Sa.

(** ** Validation *)

(** A failed check is the text of its error. *)
#[local] Notation "'guard' c 'else' e ; k" := (if (c : bool) then k else Some (e)%string) (at level 20, c at level 100, e at level 100, k at level 200).

(** [fmt.Errorf("%w: %d]: ...", err, i)] *)
Definition indexed (err : string) (i : nat) (what : string) : string := err +:+ ": " +:+ format_d (Z.of_nat i) +:+ "]: " +:+ what.
Definition errCertificate : string := "certificate[".
Definition errListener : string := "listener[".
Definition errBackend : string := "backend[".
Definition errRoute : string := "route[".

(** A loop that ends with the first error. *)
Fixpoint first_failure {A} (f : nat → A → option string) (i : nat) (l : list A) : option string :=
  match l with [] => None | x :: l => match f i x with Some e => Some e | None => first_failure f (S i) l end end.

Definition validateCertIssuer (issuer : Sa.CertificateIssuerConfig) (idx : nat) : option string :=
  let type := Sa.is_Type issuer in
  guard negb (str_empty type) else indexed errCertificate idx "issuer type is required";
  if str_eqb type "acme" then
    match Sa.is_ACMEEmail issuer with
    | None => Some (indexed errCertificate idx "ACME configuration required for type acme")
    | Some email => guard negb (str_empty email) else indexed errCertificate idx "ACME email is required"; None
    end
  else if str_eqb type "manual" then
    match Sa.is_Manual issuer with
    | None => Some (indexed errCertificate idx "manual configuration required for type manual")
    | Some m => guard negb (str_empty (Sa.mn_CertFile m) || str_empty (Sa.mn_KeyFile m))
        else indexed errCertificate idx "certFile and keyFile are required for manual issuer"; None
    end
  else if str_eqb type "self-signed" then None
  else Some (indexed errCertificate idx ("invalid issuer type " +:+ type)).

(** The names seen so far are the first argument of the loops. *)
Fixpoint check_certificates (seen : list string) (i : nat) (l : list Sa.CertificateConfig) : option string :=
  match l with
  | [] => None
  | cert :: l =>
      guard negb (str_empty (Sa.ce_Name cert)) else indexed errCertificate i "name is required";
      guard negb (bool_decide (Sa.ce_Name cert ∈ seen)) else indexed errCertificate i ("duplicate name " +:+ Sa.ce_Name cert);
      guard negb (length (Sa.ce_Domains cert) =? 0)%nat else indexed errCertificate i "at least one domain is required";
      match validateCertIssuer (Sa.ce_Issuer cert) i with
      | Some e => Some e
      | None => check_certificates (Sa.ce_Name cert :: seen) (S i) l
      end
  end.
Definition validateCertificates (c : Sa.Config) : option string := check_certificates [] 0 (Sa.Certificates c).
Definition cert_names (c : Sa.Config) : list string := Sa.ce_Name <$> Sa.Certificates c.

Definition check_listener (certNames : list string) (i : nat) (l : Sa.ListenerConfig) : option string :=
  guard negb (str_empty (Sa.l_Name l)) else indexed errListener i "name is required";
  guard negb ((Sa.l_Port l <=? 0) || (65535 <? Sa.l_Port l)) else indexed errListener i ("invalid port " +:+ format_d (Sa.l_Port l));
  guard negb (str_empty (Sa.l_Protocol l)) else indexed errListener i "protocol is required";
  if str_eqb (Sa.l_Protocol l) "HTTPS" || str_eqb (Sa.l_Protocol l) "TLS" then
    match Sa.l_TLS l with
    | None => Some (indexed errListener i ("TLS configuration required for " +:+ Sa.l_Protocol l))
    | Some t =>
        if negb (str_empty (Sa.tl_Certificate t)) then
          guard bool_decide (Sa.tl_Certificate t ∈ certNames) else indexed errListener i ("unknown certificate " +:+ Sa.tl_Certificate t); None
        else guard negb (str_empty (Sa.tl_CertFile t) || str_empty (Sa.tl_KeyFile t))
          else indexed errListener i "either certificate reference or certFile/keyFile required"; None
    end
  else None.
Definition validateListeners (c : Sa.Config) (certNames : list string) : option string := first_failure (check_listener certNames) 0 (Sa.Listeners c).

Fixpoint check_backends (seen : list string) (i : nat) (l : list Sa.BackendConfig) : option string :=
  match l with
  | [] => None
  | b :: l =>
      guard negb (str_empty (Sa.k_Name b)) else indexed errBackend i "name is required";
      guard negb (bool_decide (Sa.k_Name b ∈ seen)) else indexed errBackend i ("duplicate name " +:+ Sa.k_Name b);
      guard negb (length (Sa.k_Endpoints b) =? 0)%nat else indexed errBackend i "at least one endpoint is required";
      check_backends (Sa.k_Name b :: seen) (S i) l
  end.
Definition validateBackends (c : Sa.Config) : option string := check_backends [] 0 (Sa.Backends c).
Definition backend_names (c : Sa.Config) : list string := Sa.k_Name <$> Sa.Backends c.

Definition check_ref (backendNames : list string) (i j : nat) (br : Sa.RouteBackendRef) : option string :=
  guard bool_decide (Sa.b_Name br ∈ backendNames)
    else errRoute +:+ ": " +:+ format_d (Z.of_nat i) +:+ "].backends[" +:+ format_d (Z.of_nat j) +:+ "]: unknown backend " +:+ Sa.b_Name br; None.
Definition check_route (backendNames : list string) (i : nat) (r : Sa.RouteConfig) : option string :=
  guard negb (str_empty (Sa.r_Name r)) else indexed errRoute i "name is required";
  guard negb (length (Sa.r_Backends r) =? 0)%nat else indexed errRoute i "at least one backend is required";
  first_failure (check_ref backendNames i) 0 (Sa.r_Backends r).
Definition validateRoutes (c : Sa.Config) (backendNames : list string) : option string := first_failure (check_route backendNames) 0 (Sa.Routes c).

Definition Validate (c : Sa.Config) : option string :=
  guard negb (str_empty (Sa.Version c)) else "version is required";
  guard negb (length (Sa.Listeners c) =? 0)%nat else "at least one listener is required";
  match validateCertificates c with
  | Some e => Some e
  | None =>
      match validateListeners c (cert_names c) with
      | Some e => Some e
      | None => match validateBackends c with Some e => Some e | None => validateRoutes c (backend_names c) end
      end
  end.

(** [GetTimeout] *)
Definition GetTimeout (r : Sa.RouteConfig) : Z :=
  if str_empty (Sa.r_Timeout r) then 30 * Second else default (30 * Second) (ParseDuration (Sa.r_Timeout r)).

(** ** Well-formed configurations *)

Definition issuer_ok (iss : Sa.CertificateIssuerConfig) : Prop :=
  Sa.is_Type iss = "self-signed"%string ∨
  (Sa.is_Type iss = "acme"%string ∧ ∃ email, Sa.is_ACMEEmail iss = Some email ∧ email ≠ ""%string) ∨
  (Sa.is_Type iss = "manual"%string ∧ ∃ m, Sa.is_Manual iss = Some m ∧ Sa.mn_CertFile m ≠ ""%string ∧ Sa.mn_KeyFile m ≠ ""%string).

Definition listener_ok (certs : list string) (l : Sa.ListenerConfig) : Prop :=
  Sa.l_Name l ≠ ""%string ∧ 1 ≤ Sa.l_Port l ≤ 65535 ∧ Sa.l_Protocol l ≠ ""%string ∧
  (Sa.l_Protocol l = "HTTPS"%string ∨ Sa.l_Protocol l = "TLS"%string → ∃ t, Sa.l_TLS l = Some t ∧
    (Sa.tl_Certificate t ∈ certs ∧ Sa.tl_Certificate t ≠ ""%string ∨
     Sa.tl_Certificate t = ""%string ∧ Sa.tl_CertFile t ≠ ""%string ∧ Sa.tl_KeyFile t ≠ ""%string)).

Record config_ok (c : Sa.Config) : Prop := {
  ok_version : Sa.Version c ≠ ""%string;
  ok_listeners : Sa.Listeners c ≠ [] ∧ Forall (listener_ok (cert_names c)) (Sa.Listeners c);
  ok_certificates : NoDup (cert_names c) ∧ Forall (λ x, Sa.ce_Name x ≠ ""%string ∧ Sa.ce_Domains x ≠ [] ∧ issuer_ok (Sa.ce_Issuer x)) (Sa.Certificates c);
  ok_backends : NoDup (backend_names c) ∧ Forall (λ b, Sa.k_Name b ≠ ""%string ∧ Sa.k_Endpoints b ≠ []) (Sa.Backends c);
  ok_routes : Forall (λ r, Sa.r_Name r ≠ ""%string ∧ Sa.r_Backends r ≠ [] ∧ Forall (λ b, Sa.b_Name b ∈ backend_names c) (Sa.r_Backends r)) (Sa.Routes c);
}.

Lemma nonempty_spec s : negb (str_empty s) = true ↔ s ≠ ""%string.
Proof. unfold str_empty. rewrite negb_true_iff, bool_decide_eq_false. done. Qed.

Lemma length_spec {A} (l : list A) : negb (length l =? 0)%nat = true ↔ l ≠ [].
Proof. destruct l; simpl; split; done. Qed.

Lemma guard_None (c : bool) (e : string) (k : option string) : (if c then k else Some e) = None ↔ c = true ∧ k = None.
Proof. destruct c; split; [done|by intros [_ ?]|done|by intros [[=] _]]. Qed.

Lemma first_failure_None {A} (f : nat → A → option string) (P : A → Prop) i l :
  (∀ i x, f i x = None ↔ P x) → first_failure f i l = None ↔ Forall P l.
Proof.
  intros Hf. revert i. induction l as [|x l IH]; intros i; simpl; [split; [constructor|done]|].
  rewrite Forall_cons, <- (Hf i x), <- (IH (S i)). destruct (f i x); split; [done|by intros [[=] _]|done|by intros [_ ?]].
Qed.

Lemma str_eqb_spec s t : str_eqb s t = true ↔ s = t.
Proof. unfold str_eqb. apply bool_decide_eq_true. Qed.
Lemma str_eqb_false s t : s ≠ t → str_eqb s t = false.
Proof. unfold str_eqb. apply bool_decide_eq_false_2. Qed.

Lemma validateCertIssuer_None iss i : validateCertIssuer iss i = None ↔ issuer_ok iss.
Proof.
  unfold validateCertIssuer, issuer_ok. rewrite guard_None, nonempty_spec.
  destruct (str_eqb (Sa.is_Type iss) "acme") eqn:E1; [apply str_eqb_spec in E1|].
  - rewrite E1. destruct (Sa.is_ACMEEmail iss) as [email|].
    + rewrite guard_None, nonempty_spec. split; [intros (_ & ? & _); right; left; split; [done|]; by exists email|].
      intros [[=]|[(_ & e & [= ->] & He)|([=] & _)]]. done.
    + split; [by intros [_ [=]]|]. intros [[=]|[(_ & e & [=] & _)|([=] & _)]].
  - destruct (str_eqb (Sa.is_Type iss) "manual") eqn:E2; [apply str_eqb_spec in E2|].
    + rewrite E2. destruct (Sa.is_Manual iss) as [m|].
      * rewrite guard_None, negb_orb, andb_true_iff, !nonempty_spec. split.
        -- intros (_ & [? ?] & _). right. right. split; [done|]. by exists m.
        -- intros [[=]|[([=] & _)|(_ & m' & [= ->] & ? & ?)]]. done.
      * split; [by intros [_ [=]]|]. intros [[=]|[([=] & _)|(_ & m' & [=] & _)]].
    + destruct (str_eqb (Sa.is_Type iss) "self-signed") eqn:E3; [apply str_eqb_spec in E3; rewrite E3; split; [by left|done]|].
      split; [by intros [_ [=]]|]. intros [E|[[E _]|[E _]]]; rewrite E in *; done.
Qed.

Lemma check_certificates_None seen i l :
  check_certificates seen i l = None ↔
  NoDup (Sa.ce_Name <$> l) ∧ (∀ x, x ∈ l → Sa.ce_Name x ∉ seen) ∧
  Forall (λ x, Sa.ce_Name x ≠ ""%string ∧ Sa.ce_Domains x ≠ [] ∧ issuer_ok (Sa.ce_Issuer x)) l.
Proof.
  revert seen i. induction l as [|x l IH]; intros seen i; simpl.
  - split; [intros _; split; [constructor|]; split; [by intros x ?%not_elem_of_nil|constructor]|done].
  - rewrite !guard_None, nonempty_spec, length_spec, negb_true_iff, bool_decide_eq_false, NoDup_cons, Forall_cons.
    assert (match validateCertIssuer (Sa.ce_Issuer x) i with Some e => Some e | None => check_certificates (Sa.ce_Name x :: seen) (S i) l end = None ↔
      issuer_ok (Sa.ce_Issuer x) ∧ check_certificates (Sa.ce_Name x :: seen) (S i) l = None) as ->.
    { rewrite <- (validateCertIssuer_None (Sa.ce_Issuer x) i). destruct (validateCertIssuer _ _); split; [done|by intros [[=] _]|done|by intros [_ ?]]. }
    rewrite IH. setoid_rewrite not_elem_of_cons. setoid_rewrite elem_of_cons. rewrite list_elem_of_fmap. split.
    + intros (H1 & H2 & H3 & H4 & H5 & H6 & H7). split; [split; [|done]|split; [|done]].
      * intros (y & E & Hy). by destruct (H6 y Hy) as [Hn _].
      * intros y [->|Hy]; [done|]. by destruct (H6 y Hy).
    + intros ([H1 H2] & H3 & [(H4 & H5 & H6) H7]). split; [done|]. split; [apply H3; by left|]. split; [done|]. split; [done|]. split; [done|].
      split; [|done]. intros y Hy. split; [|apply H3; by right]. intros E. apply H1. by exists y.
Qed.

Lemma check_backends_None seen i l :
  check_backends seen i l = None ↔
  NoDup (Sa.k_Name <$> l) ∧ (∀ b, b ∈ l → Sa.k_Name b ∉ seen) ∧ Forall (λ b, Sa.k_Name b ≠ ""%string ∧ Sa.k_Endpoints b ≠ []) l.
Proof.
  revert seen i. induction l as [|b l IH]; intros seen i; simpl.
  - split; [intros _; split; [constructor|]; split; [by intros x ?%not_elem_of_nil|constructor]|done].
  - rewrite !guard_None, nonempty_spec, length_spec, negb_true_iff, bool_decide_eq_false, NoDup_cons, Forall_cons, IH.
    setoid_rewrite not_elem_of_cons. setoid_rewrite elem_of_cons. rewrite list_elem_of_fmap. split.
    + intros (H1 & H2 & H3 & H4 & H5 & H6). split; [split; [|done]|split; [|done]].
      * intros (y & E & Hy). by destruct (H5 y Hy) as [Hn _].
      * intros y [->|Hy]; [done|]. by destruct (H5 y Hy).
    + intros ([H1 H2] & H3 & [(H4 & H5) H6]). split; [done|]. split; [apply H3; by left|]. split; [done|]. split; [done|].
      split; [|done]. intros y Hy. split; [|apply H3; by right]. intros E. apply H1. by exists y.
Qed.

Lemma check_listener_None certs i l : check_listener certs i l = None ↔ listener_ok certs l.
Proof.
  unfold check_listener, listener_ok. rewrite !guard_None, !nonempty_spec.
  assert (negb ((Sa.l_Port l <=? 0) || (65535 <? Sa.l_Port l)) = true ↔ 1 ≤ Sa.l_Port l ≤ 65535) as ->.
  { rewrite negb_orb, andb_true_iff, !negb_true_iff, Z.leb_gt, Z.ltb_ge. lia. }
  destruct (str_eqb (Sa.l_Protocol l) "HTTPS" || str_eqb (Sa.l_Protocol l) "TLS") eqn:E.
  - rewrite orb_true_iff, !str_eqb_spec in E. destruct (Sa.l_TLS l) as [t|].
    + destruct (str_empty (Sa.tl_Certificate t)) eqn:Et; simpl; unfold str_empty in Et.
      * apply bool_decide_eq_true in Et. rewrite guard_None, negb_orb, andb_true_iff, !nonempty_spec. split.
        -- intros (H1 & H2 & H3 & [H4 H5] & _). split; [done|]. split; [done|]. split; [done|]. intros _. exists t. split; [done|]. by right.
        -- intros (H1 & H2 & H3 & H4). destruct (H4 E) as (t' & [= <-] & [[_ ?]|(_ & ? & ?)]); done.
      * apply bool_decide_eq_false in Et. rewrite guard_None, bool_decide_eq_true. split.
        -- intros (H1 & H2 & H3 & H4 & _). split; [done|]. split; [done|]. split; [done|]. intros _. exists t. split; [done|]. by left.
        -- intros (H1 & H2 & H3 & H4). destruct (H4 E) as (t' & [= <-] & [[? _]|(? & _)]); done.
    + split; [by intros (_ & _ & _ & [=])|]. intros (_ & _ & _ & H4). by destruct (H4 E) as (t & [=] & _).
  - rewrite orb_false_iff in E. destruct E as [E1 E2]. split; [|intros (? & ? & ? & _); done].
    intros (? & ? & ? & _). split; [done|]. split; [done|]. split; [done|]. intros [E|E]; rewrite E in *; done.
Qed.

Lemma check_route_None names i r :
  check_route names i r = None ↔ Sa.r_Name r ≠ ""%string ∧ Sa.r_Backends r ≠ [] ∧ Forall (λ b, Sa.b_Name b ∈ names) (Sa.r_Backends r).
Proof.
  unfold check_route. rewrite !guard_None, nonempty_spec, length_spec. rewrite (first_failure_None _ (λ b, Sa.b_Name b ∈ names)); [done|].
  intros j br. unfold check_ref. rewrite guard_None, bool_decide_eq_true. split; [by intros [? _]|done].
Qed.

Lemma Validate_None c : Validate c = None ↔ config_ok c.
Proof.
  unfold Validate. rewrite !guard_None, nonempty_spec, length_spec.
  pose proof (check_certificates_None [] 0 (Sa.Certificates c)) as Hc. fold (validateCertificates c) in Hc.
  pose proof (first_failure_None (check_listener (cert_names c)) _ 0 (Sa.Listeners c) (check_listener_None (cert_names c))) as Hl. fold (validateListeners c (cert_names c)) in Hl.
  pose proof (check_backends_None [] 0 (Sa.Backends c)) as Hb. fold (validateBackends c) in Hb.
  pose proof (first_failure_None (check_route (backend_names c)) _ 0 (Sa.Routes c) (check_route_None (backend_names c))) as Hr. fold (validateRoutes c (backend_names c)) in Hr.
  assert (∀ A (key : A → string) (l : list A), (∀ x : A, x ∈ l → key x ∉ ([] : list string)) ↔ True) as Hnil.
  { intros A key l. split; [done|]. intros _ x _. apply not_elem_of_nil. }
  rewrite Hnil in Hc, Hb. destruct (validateCertificates c) as [e|].
  - split; [by intros (_ & _ & [=])|]. intros [_ _ [Hn Hf] _ _]. exfalso. assert (Some e = None) as [=]. apply Hc. done.
  - destruct Hc as [Hc _]. destruct (Hc eq_refl) as (Hn & _ & Hf). destruct (validateListeners c (cert_names c)) as [e|].
    + split; [by intros (_ & _ & [=])|]. intros [_ [_ Hls] _ _ _]. exfalso. assert (Some e = None) as [=]. by apply Hl.
    + destruct Hl as [Hl _]. specialize (Hl eq_refl). destruct (validateBackends c) as [e|].
      * split; [by intros (_ & _ & [=])|]. intros [_ _ _ [Hbn Hbf] _]. exfalso. assert (Some e = None) as [=]. by apply Hb.
      * destruct Hb as [Hb _]. destruct (Hb eq_refl) as (Hbn & _ & Hbf). rewrite Hr. split; [by intros (? & ? & ?)|].
        intros [? [? _] _ _ ?]. done.
Qed.

(** Validation accepts exactly the well-formed configurations: version and
    listeners present, ports in range, certificates and backends named once and
    complete, and every route refers to backends that exist. *)
Theorem Validate_decides c : Validate c = None ↔ config_ok c.
Proof. apply Validate_None. Qed.
