(* ===== verification/StandaloneConvert.v ===== *)
(** * The standalone mode

    [src/internal/standalone/converter.go] turns a configuration file into a
    snapshot, [watcher.go] reloads the file when it changes. Reading files,
    the encoding of a snapshot, the case table and the orders of range loops
    are arguments. *)

From S2P Require Import Prelude Sha256 GoStrings Float64 GoLib GoScan Convert BuilderTypes BuilderConvert StandaloneConfig Dataplane.
Open Scope Z_scope.

Definition safeInt32 (v : Z) : Z := if decide (v > max_int32) then max_int32 else if decide (v < min_int32) then min_int32 else wrap32 v.

(** The milliseconds of a text, 0 when it cannot be parsed. *)
Definition millis (s : string) : Z := from_option Milliseconds 0 (ParseDuration s).

Section converter.
Context (ToUpper : string → string) (readFile : string → option string) (units : list (string * Z)).
Context (visit : visiting) (visit_pages : gmap Z string → list (Z * string)).

Definition parseProtocol (protocol : string) : Z := convertProtocol (ToUpper protocol).

(** ** Gateways *)

Definition convertListener (l : Sa.ListenerConfig) : Pb.Listener :=
  let http3 := match Sa.l_HTTP3 l with Some h => if Sa.h3_Enabled h then Some h else None | None => None end in
  Pb.mkListener (Sa.l_Name l) (safeInt32 (Sa.l_Port l)) (match http3 with Some _ => 3 | None => parseProtocol (Sa.l_Protocol l) end)
    (Sa.l_Hostnames l) false [] ((λ t, Pb.mkTLSConfig "" "" (Sa.tl_MinVersion t) [] "") <$> Sa.l_TLS l) ∅
    ((λ h, mkQUICConfig (Sa.h3_MaxIdleTimeout h) 100 100 (Sa.h3_ZeroRTT h)) <$> http3) ""
    (if decide (0 < Sa.l_MaxRequestBodySize l) then Sa.l_MaxRequestBodySize l else 0) None.

Definition convertCompression (c : Sa.CompressionConfig) : Pb.CompressionConfig :=
  Pb.mkCompressionConfig (Sa.cc_Enabled c) (if str_empty (Sa.cc_MinSize c) then 0 else default 0 (ParseInt (Sa.cc_MinSize c)))
    (safeInt32 (Sa.cc_Level c)) (Sa.cc_Algorithms c) (Sa.cc_ExcludeTypes c).

Definition convertErrorPages (ep : Sa.ErrorPagesConfig) : option Pb.ErrorPageConfig :=
  if Sa.eg_Enabled ep then
    Some (Pb.mkErrorPageConfig true (foldl (λ m p, <[safeInt32 p.1 := p.2]> m) ∅ (visit_pages (Sa.eg_Pages ep))) (Sa.eg_DefaultPage ep))
  else None.

Definition convertRedirectSchemeConfig (r : Sa.RedirectSchemeStandaloneConfig) : option RedirectSchemeConfig :=
  if Sa.rd_Enabled r then
    Some (mkRedirectSchemeConfig true (Sa.rd_Scheme r) (safeInt32 (Sa.rd_Port r)) (safeInt32 (Sa.rd_StatusCode r)) (Sa.rd_Exclusions r))
  else None.

(** [convertListeners] and what [ToSnapshot] adds to its gateway. *)
Definition standalone_gateway (cfg : Sa.Config) : Pb.Gateway :=
  Pb.mkGateway "standalone" "default" "" "" (convertListener <$> Sa.Listeners cfg)
    (match Sa.gl_Compression (Sa.Global cfg) with Some c => if Sa.cc_Enabled c then Some (convertCompression c) else None | None => None end)
    (Sa.ErrorPages cfg ≫= convertErrorPages) (Sa.RedirectScheme cfg ≫= convertRedirectSchemeConfig) None.

(** ** Routes *)

Definition parsePathMatchType (t : string) : Z :=
  if str_eqb t "Exact" then 1 else if str_eqb t "PathPrefix" then 2 else if str_eqb t "RegularExpression" then 3 else 2.
Definition parseHeaderMatchType (t : string) : Z :=
  if str_eqb t "Exact" || str_empty t then 1 else if str_eqb t "RegularExpression" then 2 else 1.
Definition parseFilterType (t : string) : Z :=
  if str_eqb t "AddHeader" then 1 else if str_eqb t "RemoveHeader" then 2 else if str_eqb t "URLRewrite" then 4
  else if str_eqb t "RequestRedirect" then 3 else 0.

Definition convertRouteFilter (f : Sa.RouteFilter) : Pb.RouteFilter :=
  let t := Sa.f_Type f in
  Pb.mkRouteFilter (parseFilterType t) (if str_eqb t "AddHeader" then (λ p, mkHTTPHeader p.1 p.2) <$> visit _ (Sa.f_Add f) else [])
    (if str_eqb t "RemoveHeader" then Sa.f_Remove f else []) (if str_eqb t "RequestRedirect" then Sa.f_RedirectURL f else "")
    (if str_eqb t "URLRewrite" then Sa.f_RewritePath f else "") [] [] [].
Definition convertRouteFilters (filters : list Sa.RouteFilter) : list Pb.RouteFilter := convertRouteFilter <$> filters.

Definition convertRouteLimits (l : Sa.RouteLimits) : Pb.RouteLimitsConfig :=
  Pb.mkRouteLimitsConfig (if str_empty (Sa.rl_MaxRequestBodySize l) then 0 else default 0 (ParseByteSize units (Sa.rl_MaxRequestBodySize l)))
    (if str_empty (Sa.rl_RequestTimeout l) then 0 else millis (Sa.rl_RequestTimeout l))
    (if str_empty (Sa.rl_IdleTimeout l) then 0 else millis (Sa.rl_IdleTimeout l)).
Definition convertRouteBuffering (b : Sa.BufferingConfig) : Pb.BufferingConfig :=
  Pb.mkBufferingConfig (Sa.bu_Request b) (Sa.bu_Response b) (if str_empty (Sa.bu_MaxSize b) then 0 else default 0 (ParseByteSize units (Sa.bu_MaxSize b))).
Definition convertRetryConfig (r : Sa.RetryPolicyConfig) : Pb.RetryConfig :=
  Pb.mkRetryConfig (safeInt32 (Sa.re_MaxRetries r)) (if str_empty (Sa.re_PerTryTimeout r) then 0 else millis (Sa.re_PerTryTimeout r))
    (Sa.re_RetryOn r) (Sa.re_RetryBudget r) (if str_empty (Sa.re_BackoffBase r) then 0 else millis (Sa.re_BackoffBase r)) (Sa.re_RetryMethods r).
Definition convertMiddlewarePipeline (p : list Sa.MiddlewareRefConfig) : list Pb.MiddlewareRef :=
  (λ m, Pb.mkMiddlewareRef (Sa.mw_Type m) (Sa.mw_Name m) (safeInt32 (Sa.mw_Priority m)) (Sa.mw_Config m)) <$> p.

Definition convertAccessLogConfig (al : Sa.AccessLogConfig) : option Pb.AccessLogConfig :=
  if Sa.al_Enabled al then
    Some (Pb.mkAccessLogConfig true (Sa.al_Format al) (Sa.al_Template al) (Sa.al_Output al)
      (if negb (str_empty (Sa.al_Path al)) && negb (str_eqb (Sa.al_Path al) "stdout") then Sa.al_Path al else "")
      (Sa.al_MaxSize al) (safeInt32 (Sa.al_MaxBackups al)) (safeInt32 <$> Sa.al_FilterStatusCodes al)
      (if fle (Sa.al_SampleRate al) fzero then fone else Sa.al_SampleRate al))
  else None.

Definition int32_or_one (w : Z) : Z := let weight := safeInt32 w in if decide (weight = 0) then 1 else weight.

Definition convertMatch (m : Sa.RouteMatch) : Pb.RouteMatch :=
  Pb.mkRouteMatch ((λ p, Pb.mkPathMatch (parsePathMatchType (Sa.pa_Type p)) (Sa.pa_Value p)) <$> Sa.m_Path m)
    ((λ h, Pb.mkHeaderMatch (parseHeaderMatchType (Sa.ha_Type h)) (Sa.ha_Name h) (Sa.ha_Value h)) <$> Sa.m_Headers m) (Sa.m_Method m).
Definition has_condition (m : Pb.RouteMatch) : bool :=
  bool_decide (is_Some (Pb.m_Path m)) || negb (length (Pb.m_Headers m) =? 0)%nat || negb (str_empty (Pb.m_Method m)).

Definition convertRule (r : Sa.RouteConfig) : Pb.RouteRule :=
  let m := convertMatch (Sa.r_Match r) in
  let mirror := match Sa.r_Mirror r with Some c => if str_empty (Sa.mi_Backend c) then None else Some c | None => None end in
  Pb.mkRouteRule (if has_condition m then [m] else []) (convertRouteFilters (Sa.r_Filters r))
    ((λ b, Pb.mkBackendRef (Sa.b_Name b) "default" (int32_or_one (Sa.b_Weight b))) <$> Sa.r_Backends r)
    (convertRouteLimits <$> Sa.r_Limits r) (convertRouteBuffering <$> Sa.r_Buffering r)
    ((λ c, Pb.mkBackendRef (Sa.mi_Backend c) "default" 1) <$> mirror)
    (match mirror with Some c => let p := safeInt32 (Sa.mi_Percentage c) in if decide (p = 0) then 100 else p | None => 0 end)
    (convertRetryConfig <$> Sa.r_Retry r) None None.

Definition convertRoute (log : option Pb.AccessLogConfig) (r : Sa.RouteConfig) : Pb.Route :=
  Pb.mkRoute (Sa.r_Name r) "default" (Sa.m_Hostnames (Sa.r_Match r)) [convertRule r] log
    (match Sa.r_Pipeline r with Some (m :: l) => Some (convertMiddlewarePipeline (m :: l)) | _ => None end) (Sa.r_Expression r).

(** ** Backends *)

Definition parseLBPolicy (p : string) : Z :=
  if str_eqb p "RoundRobin" then 1 else if str_eqb p "P2C" then 2 else if str_eqb p "EWMA" then 3 else if str_eqb p "RingHash" then 4
  else if str_eqb p "Maglev" then 5 else if str_eqb p "LeastConn" || str_eqb p "LeastConnections" then 6 else 1.

Definition parseAddressPort (addr : string) : string * Z :=
  match Split ":" addr with
  | [host; port] => (host, match Sscanf_d port with Some p => safeInt32 p | None => 0 end)
  | _ => (addr, 80)
  end.

Definition convertSessionAffinity (sa : Sa.SessionAffinityStandaloneConfig) : Pb.SessionAffinityConfig :=
  let t := Sa.sa_Type sa in
  Pb.mkSessionAffinityConfig (if str_eqb t "Header" then "header" else if str_eqb t "SourceIP" then "source_ip" else "cookie")
    (if str_empty (Sa.sa_CookieName sa) then "NOVAEDGE_AFFINITY" else Sa.sa_CookieName sa)
    (if str_empty (Sa.sa_CookieTTL sa) then 0 else from_option whole_seconds 0 (ParseDuration (Sa.sa_CookieTTL sa)))
    (if str_empty (Sa.sa_CookiePath sa) then "/" else Sa.sa_CookiePath sa) (Sa.sa_Secure sa) (Sa.sa_SameSite sa) "".

Definition convertBackend (b : Sa.BackendConfig) : Pb.Cluster :=
  Pb.mkCluster (Sa.k_Name b) "default" (parseLBPolicy (Sa.k_LBPolicy b)) 0 0
    ((λ c, Pb.mkCircuitBreaker (safeInt32 (Sa.cb_MaxConnections c)) (safeInt32 (Sa.cb_MaxPendingRequests c)) (safeInt32 (Sa.cb_MaxRequests c))
        (safeInt32 (Sa.cb_MaxRetries c))) <$> Sa.k_CircuitBreaker b)
    ((λ h, Pb.mkHealthCheck (millis (Sa.hc_Interval h)) (millis (Sa.hc_Timeout h)) (safeInt32 (Sa.hc_HealthyThreshold h))
        (safeInt32 (Sa.hc_UnhealthyThreshold h)) (Sa.hc_Path h)) <$> Sa.k_HealthCheck b)
    None None
    (match Sa.k_TLS b with Some t => if Sa.bl_Enabled t then Some (Pb.mkBackendTLS true (Sa.bl_InsecureSkipVerify t) "") else None | None => None end)
    (convertSessionAffinity <$> Sa.k_SessionAffinity b)
    ((λ p, Pb.mkConnectionPool (safeInt32 (Sa.cp_MaxIdleConnections p)) (safeInt32 (Sa.cp_MaxConnections p)) 0 (millis (Sa.cp_IdleTimeout p))) <$> Sa.k_ConnectionPool b)
    None "".

Definition convertEndpoint (e : Sa.EndpointConfig) : Pb.Endpoint :=
  let '(address, port) := parseAddressPort (Sa.e_Address e) in Pb.mkEndpoint address port true ∅ (safeInt32 (Sa.e_Weight e)).

Definition cluster_key (name : string) : string := "default/" +:+ name.
Definition convertBackends (backends : list Sa.BackendConfig) : list Pb.Cluster * gmap string (list Pb.Endpoint) :=
  (convertBackend <$> backends, foldl (λ m b, <[cluster_key (Sa.k_Name b) := convertEndpoint <$> Sa.k_Endpoints b]> m) ∅ backends).

(** ** L4 listeners *)

Definition convertL4Listener (endpoints : gmap string (list Pb.Endpoint)) (c : Sa.L4ListenerStandaloneConfig) : Pb.L4Listener :=
  let backends name := default [] (endpoints !! cluster_key name) in
  let listener name eps tls tcp udp dflt :=
    Pb.mkL4Listener (Sa.l4_Name c) (safeInt32 (Sa.l4_Port c)) (parseProtocol (Sa.l4_Protocol c)) name eps tls tcp udp dflt "" in
  if str_eqb (Sa.l4_Protocol c) "TCP" then
    listener (Sa.l4_Backend c) (backends (Sa.l4_Backend c)) []
      ((λ t, Pb.mkL4TCPConfig (millis (Sa.lt_ConnectTimeout t)) (millis (Sa.lt_IdleTimeout t)) (safeInt32 (Sa.lt_BufferSize t)) (millis (Sa.lt_DrainTimeout t))) <$> Sa.l4_TCP c)
      None None
  else if str_eqb (Sa.l4_Protocol c) "UDP" then
    listener (Sa.l4_Backend c) (backends (Sa.l4_Backend c)) [] None
      ((λ u, Pb.mkL4UDPConfig (millis (Sa.lu_SessionTimeout u)) (safeInt32 (Sa.lu_BufferSize u))) <$> Sa.l4_UDP c) None
  else if str_eqb (Sa.l4_Protocol c) "TLS" then
    listener "" [] ((λ r, Pb.mkL4TLSRoute (Sa.lr_Hostname r) (Sa.lr_Backend r) (backends (Sa.lr_Backend r))) <$> Sa.l4_TLSRoutes c) None None
      (if str_empty (Sa.l4_DefaultTLSBackend c) then None
       else Some (Pb.mkL4TLSRoute "*" (Sa.l4_DefaultTLSBackend c) (backends (Sa.l4_DefaultTLSBackend c))))
  else listener "" [] [] None None None.
Definition convertL4Listeners (configs : list Sa.L4ListenerStandaloneConfig) (endpoints : gmap string (list Pb.Endpoint)) : list Pb.L4Listener :=
  convertL4Listener endpoints <$> configs.

(** ** Policies *)

Fixpoint join_lines (l : list string) : string :=
  match l with [] => "" | [x] => x | x :: l => x +:+ String (ascii_of_nat 10) (join_lines l) end.
Definition bytes_string (l : list Z) : string := String.string_of_list_ascii ((λ b, ascii_of_nat (Z.to_nat b)) <$> l).

Definition buildHtpasswdFromConfig (c : Sa.BasicAuthPolicy) : string :=
  let inline := join_lines ((λ u, u.1 +:+ ":" +:+ u.2) <$> visit _ (Sa.ba_Users c)) in
  if str_empty (Sa.ba_HtpasswdFile c) then inline else default inline (readFile (Sa.ba_HtpasswdFile c)).

Definition convertOIDCPolicy (p : Sa.OIDCPolicy) : Pb.OIDCConfig :=
  Pb.mkOIDCConfig (Sa.oi_Provider p)
    (match Sa.oi_Keycloak p with
     | Some k => if str_empty (Sa.oi_IssuerURL p) then trimTrailingSlash (Sa.kc_ServerURL k) +:+ "/realms/" +:+ Sa.kc_Realm k else Sa.oi_IssuerURL p
     | None => Sa.oi_IssuerURL p
     end)
    (Sa.oi_ClientID p) (Sa.oi_ClientSecret p) (Sa.oi_RedirectURL p) (Sa.oi_Scopes p) (bytes_string (base64_decoded (Sa.oi_SessionSecret p)))
    (Sa.oi_ForwardHeaders p)
    ((λ k, mkKeycloakConfig (Sa.kc_ServerURL k) (Sa.kc_Realm k) (Sa.kc_RoleClaim k) (Sa.kc_GroupClaim k)) <$> Sa.oi_Keycloak p)
    ((λ a, mkAuthorizationConfig (Sa.az_RequiredRoles a) (Sa.az_RequiredGroups a) (Sa.az_Mode a)) <$> Sa.oi_Authorization p).

(** A policy without a target; the reference of the message is nil, whose
    fields read as empty texts. *)
Definition bare_policy (name : string) : Pb.Policy :=
  Pb.mkPolicy name "default" 0 (Pb.mkTargetRef "" "" "") None None None None None None None None None None None.
(** The table [standalonePolicyConverters], with the case of basic
    authentication that [convertPolicies] handles itself. *)
Definition convertPolicy (p : Sa.PolicyConfig) : Pb.Policy :=
  let name := Sa.p_Name p in
  let mk type rl jwt ip cors dr waf wasm ba fa oidc :=
    Pb.mkPolicy name "default" type (Pb.mkTargetRef "" "" "") rl jwt ip cors None dr waf wasm ba fa oidc in
  let convert {A} (o : option A) (f : A → Pb.Policy) := match o with Some a => f a | None => bare_policy name end in
  let t := Sa.p_Type p in
  if str_eqb t "RateLimit" then convert (Sa.p_RateLimit p) (λ c,
    mk 1 (Some (Pb.mkRateLimitConfig (safeInt32 (Sa.rt_RequestsPerSecond c)) (safeInt32 (Sa.rt_BurstSize c)) (Sa.rt_Key c))) None None None None None None None None None)
  else if str_eqb t "CORS" then convert (Sa.p_CORS p) (λ c,
    mk 5 None None None (Some (Pb.mkCORSConfig (Sa.co_AllowOrigins c) (Sa.co_AllowMethods c) (Sa.co_AllowHeaders c) (Sa.co_ExposeHeaders c) (Sa.co_MaxAge c)
      (Sa.co_AllowCredentials c))) None None None None None None)
  else if str_eqb t "IPFilter" then convert (Sa.p_IPFilter p) (λ c,
    match Sa.ip_AllowList c with
    | [] => mk 4 None None (Some (Pb.mkIPListConfig (Sa.ip_DenyList c) "")) None None None None None None None
    | l => mk 3 None None (Some (Pb.mkIPListConfig l "")) None None None None None None None
    end)
  else if str_eqb t "JWT" then convert (Sa.p_JWT p) (λ c,
    mk 2 None (Some (mkJWTConfig (Sa.jw_Issuer c) (Sa.jw_Audience c) (Sa.jw_JWKSURI c) "" "" (Sa.jw_AllowedAlgorithms c))) None None None None None None None None)
  else if str_eqb t "DistributedRateLimit" then convert (Sa.p_DistributedRateLimit p) (λ c,
    let r := Sa.dr_Redis c in
    mk 7 None None None None (Some (Pb.mkDistributedRateLimitConfig (safeInt32 (Sa.dr_RequestsPerSecond c)) (safeInt32 (Sa.dr_BurstSize c)) (Sa.dr_Algorithm c)
      (Sa.dr_Key c) (Pb.mkRedisConfig (Sa.rs_Address r) "" (Sa.rs_TLS r) (safeInt32 (Sa.rs_Database r)) (Sa.rs_ClusterMode r)))) None None None None None)
  else if str_eqb t "WAF" then convert (Sa.p_WAF p) (λ c,
    mk 8 None None None None None (Some (Pb.mkWAFConfig (Sa.wf_Enabled c) (Sa.wf_Mode c) (safeInt32 (Sa.wf_ParanoiaLevel c)) (safeInt32 (Sa.wf_AnomalyThreshold c)) ""
      (Sa.wf_RuleExclusions c) (Sa.wf_CustomRules c) (Sa.wf_MaxBodySize c) (Sa.wf_ResponseBodyInspection c) (Sa.wf_MaxResponseBodySize c))) None None None None)
  else if str_eqb t "WASMPlugin" then convert (Sa.p_WASMPlugin p) (λ c,
    mk 9 None None None None None None (Some (Pb.mkWASMPluginConfig (Sa.wa_Source c) "" (Sa.wa_Config c) (Sa.wa_Phase c) (safeInt32 (Sa.wa_Priority c)) "")) None None None)
  else if str_eqb t "BasicAuth" then convert (Sa.p_BasicAuth p) (λ c,
    mk 10 None None None None None None None (Some (Pb.mkBasicAuthConfig (Sa.ba_Realm c) (buildHtpasswdFromConfig c) (Sa.ba_StripAuth c))) None None)
  else if str_eqb t "ForwardAuth" then convert (Sa.p_ForwardAuth p) (λ c,
    mk 11 None None None None None None None None (Some (Pb.mkForwardAuthConfig (Sa.fa_Address c) (Sa.fa_AuthHeaders c) (Sa.fa_ResponseHeaders c) (millis (Sa.fa_Timeout c))
      (from_option whole_seconds 0 (ParseDuration (Sa.fa_CacheTTL c))))) None)
  else if str_eqb t "OIDC" then convert (Sa.p_OIDC p) (λ c, mk 12 None None None None None None None None None (Some (convertOIDCPolicy c)))
  else bare_policy name.
Definition convertPolicies (policies : list Sa.PolicyConfig) : list Pb.Policy := convertPolicy <$> policies.

(** ** Snapshots *)

(** [generateVersion]: an encoding error gives the hash of no data. *)
Definition standalone_version (marshal : Pb.ConfigSnapshot → option (list Z)) (s : Pb.ConfigSnapshot) : string :=
  EncodeToString (take 8 (sha256 (default [] (marshal s)))).

Definition unversioned (cfg : Sa.Config) (now : Z) : Pb.ConfigSnapshot :=
  let '(clusters, endpoints) := convertBackends (Sa.Backends cfg) in
  Pb.mkConfigSnapshot "" now [standalone_gateway cfg] (convertRoute (convertAccessLogConfig (Sa.gl_AccessLog (Sa.Global cfg))) <$> Sa.Routes cfg)
    clusters endpoints (convertPolicies (Sa.Policies cfg)) (convertL4Listeners (Sa.L4Listeners cfg) endpoints) [] [] [] [] None None.

Definition ToSnapshot (marshal : Pb.ConfigSnapshot → option (list Z)) (now : Z) (cfg : Sa.Config) : Pb.ConfigSnapshot :=
  let s := unversioned cfg now in
  Pb.mkConfigSnapshot (standalone_version marshal s) (Pb.GenerationTime s) (Pb.Gateways s) (Pb.Routes s) (Pb.Clusters s) (Pb.Endpoints s)
    (Pb.Policies s) (Pb.L4Listeners s) (Pb.InternalServices s) (Pb.MeshAuthzPolicies s) (Pb.WanLinks s) (Pb.WanPolicies s) (Pb.Federation s) (Pb.MeshTlsConfig s).

(** [buildExtensions] *)
Definition listener_extension (l : Sa.ListenerConfig) : Pb.ListenerExtensions :=
  Pb.mkListenerExtensions (Sa.l_OCSPStapling l)
    (match Sa.l_ClientAuth l with
     | Some c =>
         if negb (str_empty (Sa.ca_Mode c)) && negb (str_eqb (Sa.ca_Mode c) "none") then
           Some (Pb.mkClientAuthConfig (Sa.ca_Mode c) (Sa.ca_RequiredCNPatterns c) (Sa.ca_RequiredSANs c)
             (if str_empty (Sa.ca_CAFile c) then "" else default ""%string (readFile (Sa.ca_CAFile c))))
         else None
     | None => None
     end)
    (match Sa.l_ProxyProtocol l with
     | Some p => if Sa.pp_Enabled p then Some (Pb.mkProxyProtocolConfig true (safeInt32 (Sa.pp_Version p)) (Sa.pp_TrustedCIDRs p)) else None
     | None => None
     end).
Definition cluster_extension (b : Sa.BackendConfig) : option Pb.ClusterExtensions :=
  u ← Sa.k_UpstreamProxyProtocol b;
  if Sa.up_Enabled u then Some (Pb.mkClusterExtensions (Some (mkUpstreamProxyProtocol true (int32_or_one (Sa.up_Version u))))) else None.
Definition buildExtensions (cfg : Sa.Config) : gmap string Pb.ListenerExtensions * gmap string Pb.ClusterExtensions :=
  (foldl (λ m l, <["default/standalone/" +:+ Sa.l_Name l := listener_extension l]> m) ∅ (Sa.Listeners cfg),
   foldl (λ m b, match cluster_extension b with Some x => <[cluster_key (Sa.k_Name b) := x]> m | None => m end) ∅ (Sa.Backends cfg)).

(** ** The watcher *)

Record ConfigWatcher := mkConfigWatcher { cw_lastHash : string; cw_lastConfig : option Sa.Config; cw_lastSnapshot : option Pb.ConfigSnapshot }.
Definition NewConfigWatcher : ConfigWatcher := mkConfigWatcher "" None None.
Inductive LoadError := ReadFailed | ParseFailed | Invalid (e : string) | ApplyFailed (e : string).

Context (marshal : Pb.ConfigSnapshot → option (list Z)) (unmarshal : list Z → option Sa.Config).

Definition computeHashFromData (data : list Z) : string := EncodeToString (sha256 data).

Definition LoadConfigFromBytes (data : list Z) : LoadError + Sa.Config :=
  match unmarshal data with
  | None => inl ParseFailed
  | Some cfg => match Validate cfg with Some e => inl (Invalid e) | None => inr cfg end
  end.

(** [loadAndApply]: [file] is what reading the file gives, [apply] the error of
    applying a snapshot; the second result are the snapshots that were given to
    [apply]. *)
Definition loadAndApply (file : option (list Z)) (now : Z) (apply : Pb.ConfigSnapshot → option string) (w : ConfigWatcher)
    : ConfigWatcher * list Pb.ConfigSnapshot * option LoadError :=
  match file with
  | None => (w, [], Some ReadFailed)
  | Some data =>
      match LoadConfigFromBytes data with
      | inl e => (w, [], Some e)
      | inr cfg =>
          let snapshot := ToSnapshot marshal now cfg in
          (mkConfigWatcher (computeHashFromData data) (Some cfg) (Some snapshot), [snapshot], ApplyFailed <$> apply snapshot)
      end
  end.

Definition hasChanged (file : option (list Z)) (w : ConfigWatcher) : bool :=
  match file with None => false | Some data => negb (str_eqb (computeHashFromData data) (cw_lastHash w)) end.

(** The events of the loop of [Start]: the file system reports a write of the
    file, or the ticker fires. *)
Inductive watch_event := Written | Tick.
Definition watch_step (file : option (list Z)) (now : Z) (apply : Pb.ConfigSnapshot → option string) (e : watch_event) (w : ConfigWatcher)
    : ConfigWatcher * list Pb.ConfigSnapshot * option LoadError :=
  match e with
  | Written => loadAndApply file now apply w
  | Tick => if hasChanged file w then loadAndApply file now apply w else (w, [], None)
  end.

End converter.
