(* ===== verification/StandaloneSpec.v ===== *)
(** * What the standalone mode promises

    An accepted configuration file becomes a request whose routes lead to the
    endpoints of the file, and the watcher follows the file and keeps the last
    good configuration. *)

From S2P Require Import Prelude Sha256 GoStrings Float64 GoLib GoScan Convert BuilderTypes BuilderConvert StandaloneConfig StandaloneConvert Dataplane DataplaneSpec.
Open Scope Z_scope.

Section spec.
Context (ToUpper : string → string) (readFile : string → option string) (units : list (string * Z)).
Context (visit : visiting) (visit_pages : gmap Z string → list (Z * string)).
Context (marshal : Pb.ConfigSnapshot → option (list Z)).

#[local] Notation ToSnapshot := (ToSnapshot ToUpper readFile units visit visit_pages marshal).
#[local] Notation convertRule := (convertRule units visit).
#[local] Notation convertRoute := (convertRoute units visit).

(** The endpoints of a backend in the map of the snapshot. *)
Lemma converted_endpoints backends b :
  NoDup (Sa.k_Name <$> backends) → b ∈ backends →
  (convertBackends backends).2 !! cluster_key (Sa.k_Name b) = Some (convertEndpoint <$> Sa.k_Endpoints b).
Proof.
  intros Hnd Hb. unfold convertBackends. simpl.
  assert (∀ l (m : gmap string (list Pb.Endpoint)), NoDup (Sa.k_Name <$> l) →
    foldl (λ m b, <[cluster_key (Sa.k_Name b) := convertEndpoint <$> Sa.k_Endpoints b]> m) m l !! cluster_key (Sa.k_Name b) =
    match list_find (λ b', Sa.k_Name b' = Sa.k_Name b) l with Some (_, b') => Some (convertEndpoint <$> Sa.k_Endpoints b') | None => m !! cluster_key (Sa.k_Name b) end) as Hl.
  { induction l as [|x l IH]; intros m Hl; [done|]. simpl. apply NoDup_cons in Hl as [Hx Hl]. rewrite IH by done.
    destruct (decide (Sa.k_Name x = Sa.k_Name b)) as [E|E]; simpl.
    - destruct (list_find _ l) as [[i b']|] eqn:Ef.
      + apply list_find_Some in Ef as (Hi & E' & _). exfalso. apply Hx. apply list_elem_of_fmap. exists b'. split; [by rewrite E'|].
        by apply list_elem_of_lookup_2 in Hi.
      + rewrite E. by rewrite lookup_insert_eq.
    - destruct (list_find _ l) as [[i b']|]; simpl; [done|]. rewrite lookup_insert_ne; [done|]. unfold cluster_key. intros E'. by apply str_app_inj in E'. }
  rewrite Hl by done. destruct (list_find (λ b', Sa.k_Name b' = Sa.k_Name b) backends) as [[i b']|] eqn:Ef.
  - apply list_find_Some in Ef as (Hi & E & _). apply list_elem_of_lookup_2 in Hi.
    by rewrite (NoDup_key_inj Sa.k_Name backends b' b).
  - apply list_find_None in Ef. rewrite Forall_forall in Ef. by destruct (Ef b Hb).
Qed.

Context `{SortSlice}.

(** What the dataplane receives for a configuration file. *)
Definition file_request (now : Z) (cfg : Sa.Config) : Dp.ApplyConfigRequest := TranslateSnapshot (Some (ToSnapshot now cfg)).

(** *** What the file means *)

Section meaning.
Context (match_host : list string → string → bool) (match_path : Dp.PathMatchType → string → string → bool).

(** A path is a prefix unless its type says otherwise; every header has its value;
    no method is any method. *)
Definition file_path_type (t : string) : Dp.PathMatchType :=
  if decide (t = "Exact"%string) then Dp.PATH_EXACT else if decide (t = "RegularExpression"%string) then Dp.PATH_REGEX else Dp.PATH_PREFIX.
Definition file_selects (m : Sa.RouteMatch) (rq : request) : Prop :=
  match_host (Sa.m_Hostnames m) (rq_host rq) = true ∧
  (∀ p, Sa.m_Path m = Some p → match_path (file_path_type (Sa.pa_Type p)) (Sa.pa_Value p) (rq_path rq) = true) ∧
  (∀ h, h ∈ Sa.m_Headers m → rq_headers rq !! Sa.ha_Name h = Some (Sa.ha_Value h)) ∧
  (Sa.m_Method m ≠ ""%string → rq_method rq = Sa.m_Method m).

(** No header is matched by a regular expression. *)
Definition file_plain (m : Sa.RouteMatch) : Prop := ∀ h, h ∈ Sa.m_Headers m → Sa.ha_Type h ≠ "RegularExpression"%string.
End meaning.

(** A weight of the file; none counts as one. *)
Definition weighs (w w' : Z) : Prop := 0 ≤ w ≤ max_int32 → w' = if decide (w = 0) then 1 else w.
(** An endpoint of the dataplane for one of the file, whose address is written
    "host:port", with no colon in the host. *)
Definition endpoint_is (e : Sa.EndpointConfig) (d : Dp.Endpoint) : Prop :=
  Dp.e_Healthy d = true ∧ weighs (Sa.e_Weight e) (Dp.e_Weight d) ∧
  ∀ host port, no_char ":" host = true → 0 ≤ port < 65536 → Sa.e_Address e = (host +:+ ":" +:+ format_d port)%string →
    Dp.e_Ip d = host ∧ Dp.e_Port d = port.
Definition backend_ref_is (b : Sa.RouteBackendRef) (d : Dp.BackendRef) : Prop :=
  Dp.b_ClusterName d = Sa.b_Name b ∧ weighs (Sa.b_Weight b) (Dp.b_Weight d).

Lemma convertMatch_holds match_path match_regex m rq :
  file_plain m →
  match_holds match_path match_regex (convertMatch m) rq = true ↔
  (∀ p, Sa.m_Path m = Some p → match_path (file_path_type (Sa.pa_Type p)) (Sa.pa_Value p) (rq_path rq) = true) ∧
  (∀ h, h ∈ Sa.m_Headers m → rq_headers rq !! Sa.ha_Name h = Some (Sa.ha_Value h)) ∧
  (Sa.m_Method m ≠ ""%string → rq_method rq = Sa.m_Method m).
Proof.
  intros Hplain. unfold match_holds, convertMatch. simpl. rewrite !andb_true_iff.
  match goal with |- (?a ∧ ?b) ∧ ?c ↔ ?p ∧ ?q ∧ ?r => enough ((a ↔ p) ∧ (b ↔ q) ∧ (c ↔ r)) by tauto end. split; [|split].
  - destruct (Sa.m_Path m) as [p|]; simpl; [|split; [by intros _ ? [=]|done]].
    assert (translatePathMatchType (parsePathMatchType (Sa.pa_Type p)) = file_path_type (Sa.pa_Type p)) as ->.
    { unfold parsePathMatchType, file_path_type. destruct (decide (Sa.pa_Type p = "Exact"%string)) as [->|H1]; [done|].
      rewrite (str_eqb_false _ "Exact") by done. destruct (decide (Sa.pa_Type p = "RegularExpression"%string)) as [->|H2]; [done|].
      rewrite (str_eqb_false (Sa.pa_Type p) "RegularExpression") by done. by destruct (str_eqb _ _). }
    split; [by intros E ? [= <-]|intros E; by apply E].
  - rewrite forallb_forall. split.
    + intros Hall h Hh. specialize (Hplain h Hh). pose proof (Hall _ (proj1 (list_elem_of_In _ _) (list_elem_of_fmap_2 _ _ _ Hh))) as E. simpl in E.
      revert E. unfold parseHeaderMatchType, header_holds, value_holds. rewrite (str_eqb_false _ "RegularExpression") by done.
      destruct (_ || _); simpl; (destruct (rq_headers rq !! _); [|done]); by intros ->%str_eqb_spec.
    + intros Hall x (h & -> & Hh)%list_elem_of_In%list_elem_of_fmap. simpl. specialize (Hplain h Hh). specialize (Hall h Hh).
      unfold parseHeaderMatchType, header_holds, value_holds. rewrite (str_eqb_false _ "RegularExpression") by done.
      rewrite Hall. destruct (_ || _); simpl; by apply str_eqb_spec.
  - rewrite orb_true_iff. unfold str_empty, str_eqb. rewrite !bool_decide_eq_true. destruct (decide (Sa.m_Method m = ""%string)); [tauto|].
    split; [by intros [?|<-]|intros E; right; symmetry; by apply E].
Qed.

Lemma safeInt32_id z : 0 ≤ z ≤ max_int32 → safeInt32 z = z.
Proof.
  intros Hz. unfold safeInt32. rewrite !decide_False by (unfold min_int32; lia). apply wrap32_small. unfold int32_range, min_int32. lia.
Qed.

Lemma parseAddressPort_host_port host port :
  no_char ":" host = true → 0 ≤ port < 65536 → parseAddressPort (host +:+ ":" +:+ format_d port) = (host, port).
Proof.
  intros Hh Hp. unfold parseAddressPort. change (":" +:+ format_d port)%string with (String ":" (format_d port)).
  rewrite Split_app, Split_no_char by (done || by apply format_d_no_char).
  rewrite Sscanf_format_d by (unfold max_int64; lia). f_equal. apply safeInt32_id. unfold max_int32. lia.
Qed.

Lemma translated_endpoint e : endpoint_is e (translateEndpoint (convertEndpoint e)).
Proof.
  unfold endpoint_is, weighs, convertEndpoint. destruct (parseAddressPort (Sa.e_Address e)) as [host port] eqn:Ea. simpl. split; [done|]. split.
  - intros Hw. assert (uint32 (safeInt32 (Sa.e_Weight e)) = Sa.e_Weight e) as ->; [|done].
    rewrite safeInt32_id by done. unfold uint32. apply Z.mod_small. unfold max_int32 in Hw. lia.
  - intros h q Hh Hq Hs. rewrite Hs, parseAddressPort_host_port in Ea by done. injection Ea as <- <-. split; [done|]. unfold uint32. rewrite Z.mod_small; lia.
Qed.

Lemma translated_backend_ref b : backend_ref_is b (Dp.mkBackendRef (Sa.b_Name b) (uint32 (int32_or_one (Sa.b_Weight b)))).
Proof.
  split; [done|]. unfold weighs, int32_or_one. simpl. intros Hw. rewrite safeInt32_id by done. unfold uint32, max_int32 in *. case_decide; rewrite Z.mod_small; lia.
Qed.

Lemma plain_convertMatch m : file_plain m → forallb (λ h, negb (Pb.ha_Type h =? 2)) (Pb.m_Headers (convertMatch m)) = true.
Proof.
  intros Hp. apply forallb_forall. intros x (h & -> & Hh)%list_elem_of_In%list_elem_of_fmap. simpl. unfold parseHeaderMatchType.
  rewrite (str_eqb_false (Sa.ha_Type h) "RegularExpression") by (by apply Hp). by destruct (_ || _).
Qed.

(** The route of the dataplane for a route of the file. *)
Lemma standalone_route_selects now cfg r :
  r ∈ Sa.Routes cfg →
  ∃ rc, rc ∈ Dp.Routes (file_request now cfg) ∧ Dp.r_Name rc = (Sa.r_Name r +:+ "/rule-0")%string ∧
    Dp.r_Hostnames rc = Sa.m_Hostnames (Sa.r_Match r) ∧ Forall2 backend_ref_is (Sa.r_Backends r) (Dp.r_BackendRefs rc) ∧
    ∀ match_host match_path match_regex rq, file_plain (Sa.r_Match r) →
      config_selects match_host match_path match_regex rc rq = true ↔ file_selects match_host match_path (Sa.r_Match r) rq.
Proof.
  intros Hr. set (route := convertRoute (convertAccessLogConfig (Sa.gl_AccessLog (Sa.Global cfg))) r). set (rule := convertRule r).
  set (m := head (Pb.r_Matches rule)). set (mw := match Pb.ro_Pipeline route with Some l => Pb.mw_Name <$> l | None => [] end).
  assert (Dataplane.translateRouteRule route 0 rule mw = [translateMatch route 0 rule mw false 0 m]) as Erc.
  { unfold m, Dataplane.translateRouteRule, rule. simpl. by destruct (has_condition _). }
  exists (translateMatch route 0 rule mw false 0 m). split.
  { apply elem_of_translateRoutes. exists route, 0%nat, rule. split; [|split; [done|]; fold mw; rewrite Erc; by apply list_elem_of_singleton].
    by apply list_elem_of_fmap_2. }
  split; [by rewrite translateMatch_name|]. split; [unfold translateMatch; by destruct (applyRouteFilters _)|]. split.
  { rewrite translateMatch_backends. simpl. rewrite <- list_fmap_compose. induction (Sa.r_Backends r); constructor; [apply translated_backend_ref|done]. }
  intros match_host match_path match_regex rq Hplain. unfold file_selects. rewrite <- (convertMatch_holds match_path match_regex) by done.
  pose proof (plain_convertMatch _ Hplain) as Hp. unfold m, rule in *. simpl in *.
  destruct (has_condition (convertMatch (Sa.r_Match r))) eqn:Ec; simpl in *.
  - by rewrite translateMatch_selects, andb_true_iff.
  - rewrite translateMatch_selects_all. unfold has_condition in Ec. rewrite !orb_false_iff, bool_decide_eq_false, !negb_false_iff in Ec.
    destruct Ec as [[E1 E2] E3]. unfold match_holds. apply Nat.eqb_eq, length_zero_iff_nil in E2. rewrite E2, E3. simpl.
    destruct (Pb.m_Path (convertMatch (Sa.r_Match r))) as [p|] eqn:Ep; [by destruct E1; exists p|]. simpl in Ep. rewrite Ep. simpl. tauto.
Qed.

(** The cluster of the dataplane for a backend of the file. *)
Lemma standalone_cluster now cfg b :
  NoDup (Sa.k_Name <$> Sa.Backends cfg) → b ∈ Sa.Backends cfg →
  ∃ k, clusters_of (file_request now cfg) !! Sa.k_Name b = Some k ∧ Dp.k_Endpoints k = translateEndpoint ∘ convertEndpoint <$> Sa.k_Endpoints b.
Proof.
  intros Hnd Hin. exists (translateCluster (Pb.Endpoints (ToSnapshot now cfg)) (convertBackend b)). split.
  - change (Sa.k_Name b) with (Dp.k_Name (translateCluster (Pb.Endpoints (ToSnapshot now cfg)) (convertBackend b))).
    apply insert_all_elem; [apply list_elem_of_fmap_2; by apply list_elem_of_fmap_2|].
    intros k (cl & -> & (b' & -> & Hb')%list_elem_of_fmap)%list_elem_of_fmap E. by rewrite (NoDup_key_inj Sa.k_Name (Sa.Backends cfg) b' b).
  - simpl. change ("default" +:+ "/" +:+ Sa.k_Name b) with (cluster_key (Sa.k_Name b)).
    pose proof (converted_endpoints (Sa.Backends cfg) b Hnd Hin) as Hc. unfold convertBackends in Hc. simpl in Hc. rewrite Hc. simpl.
    by rewrite <- list_fmap_compose.
Qed.


(** ** The watcher *)

Context (unmarshal : list Z → option Sa.Config).
#[local] Notation watch_step := (watch_step ToUpper readFile units visit visit_pages marshal unmarshal).
#[local] Notation loadAndApply := (loadAndApply ToUpper readFile units visit visit_pages marshal unmarshal).
#[local] Notation LoadConfigFromBytes := (LoadConfigFromBytes unmarshal).

(** One turn of the loop: the event, the file at that moment, the clock and the
    answer to a new snapshot. *)
Record watch_turn := mkTurn {
  t_event : watch_event; t_file : option (list Z); t_now : Z; t_apply : Pb.ConfigSnapshot → option string }.

Definition watch_turn_step (a : ConfigWatcher * list Pb.ConfigSnapshot) (t : watch_turn) : ConfigWatcher * list Pb.ConfigSnapshot :=
  let '(w, applied, _) := watch_step (t_file t) (t_now t) (t_apply t) (t_event t) a.1 in (w, a.2 ++ applied).
Definition watch (ts : list watch_turn) : ConfigWatcher * list Pb.ConfigSnapshot := foldl watch_turn_step (NewConfigWatcher, []) ts.

(** The specification: the configuration of the last turn with an acceptable
    file. *)
Definition turn_config (t : watch_turn) : option Sa.Config :=
  data ← t_file t; match LoadConfigFromBytes data with inr cfg => Some cfg | inl _ => None end.
Definition last_good (ts : list watch_turn) : option Sa.Config :=
  foldl (λ acc t, match turn_config t with Some cfg => Some cfg | None => acc end) None ts.

(** The contents in the turns have different digests. *)
Definition distinct_digests (ts : list watch_turn) : Prop :=
  ∀ t1 t2 d1 d2, t1 ∈ ts → t2 ∈ ts → t_file t1 = Some d1 → t_file t2 = Some d2 → computeHashFromData d1 = computeHashFromData d2 → d1 = d2.

Definition check_digests (ts : list watch_turn) : bool :=
  let contents := omap t_file ts in
  forallb (λ d1, forallb (λ d2, bool_decide (d1 = d2) || negb (str_eqb (computeHashFromData d1) (computeHashFromData d2))) contents) contents.
Lemma check_digests_sound ts : check_digests ts = true → distinct_digests ts.
Proof.
  intros Hc t1 t2 d1 d2 H1 H2 E1 E2 E. unfold check_digests in Hc. rewrite forallb_forall in Hc.
  assert (∀ t d, t ∈ ts → t_file t = Some d → In d (omap t_file ts)) as Hin.
  { intros t d Ht Ed. apply list_elem_of_In, list_elem_of_omap. by exists t. }
  specialize (Hc d1 (Hin t1 d1 H1 E1)). rewrite forallb_forall in Hc. specialize (Hc d2 (Hin t2 d2 H2 E2)).
  apply orb_true_iff in Hc as [Hc|Hc]; [by apply bool_decide_eq_true in Hc|]. apply negb_true_iff in Hc.
  apply str_eqb_spec in E. by rewrite E in Hc.
Qed.

Lemma computeHash_not_empty data : computeHashFromData data ≠ ""%string.
Proof. unfold computeHashFromData. pose proof (length_sha256 data) as Hl. by destruct (sha256 data). Qed.

(** What the watcher keeps: nothing, or an accepted file of a past turn. *)
Definition watch_inv (ts : list watch_turn) (a : ConfigWatcher * list Pb.ConfigSnapshot) : Prop :=
  cw_lastConfig a.1 = last_good ts ∧ last a.2 = cw_lastSnapshot a.1 ∧
  (a.1 = NewConfigWatcher ∨ ∃ t data cfg, t ∈ ts ∧ t_file t = Some data ∧ LoadConfigFromBytes data = inr cfg ∧
    a.1 = mkConfigWatcher (computeHashFromData data) (Some cfg) (Some (ToSnapshot (t_now t) cfg))) ∧
  Forall (λ s, ∃ t cfg, t ∈ ts ∧ turn_config t = Some cfg ∧ s = ToSnapshot (t_now t) cfg) a.2.

Lemma last_good_snoc ts t : last_good (ts ++ [t]) = match turn_config t with Some cfg => Some cfg | None => last_good ts end.
Proof. unfold last_good. by rewrite foldl_app. Qed.

Lemma watch_inv_keep ts t a :
  watch_inv ts a → turn_config t = None ∨ turn_config t = cw_lastConfig a.1 → watch_inv (ts ++ [t]) (a.1, a.2 ++ []).
Proof.
  intros (I1 & I2 & I3 & I4) Ht. rewrite app_nil_r. split; [|split; [done|split]].
  - rewrite last_good_snoc. simpl. destruct Ht as [-> | ->]; [done|]. rewrite I1. by destruct (last_good ts).
  - destruct I3 as [I3|(t' & data & cfg & Hin & I3)]; [by left|]. right. exists t', data, cfg. split; [set_solver|done].
  - eapply Forall_impl; [exact I4|]. intros s (t' & cfg & Hin & Hs). exists t', cfg. split; [set_solver|done].
Qed.

Lemma load_inv ts t a :
  watch_inv ts a → let '(w, applied, _) := loadAndApply (t_file t) (t_now t) (t_apply t) a.1 in watch_inv (ts ++ [t]) (w, a.2 ++ applied).
Proof.
  intros I. unfold StandaloneConvert.loadAndApply. destruct (t_file t) as [data|] eqn:Ef; [|apply watch_inv_keep; [done|]; left; unfold turn_config; by rewrite Ef].
  destruct (LoadConfigFromBytes data) as [e|cfg] eqn:El; [apply watch_inv_keep; [done|]; left; unfold turn_config; rewrite Ef; simpl; by rewrite El|].
  assert (turn_config t = Some cfg) as Et by (unfold turn_config; rewrite Ef; simpl; by rewrite El).
  destruct I as (I1 & I2 & I3 & I4). split; [by rewrite last_good_snoc, Et|]. split; [simpl; by rewrite last_snoc|]. split.
  - right. exists t, data, cfg. split; [set_solver|done].
  - apply Forall_app. split; [|apply Forall_singleton; exists t, cfg; split; [set_solver|done]].
    eapply Forall_impl; [exact I4|]. intros s (t' & cfg' & Hin & Hs). exists t', cfg'. split; [set_solver|done].
Qed.

Lemma watch_turn_inv ts t a : distinct_digests (ts ++ [t]) → watch_inv ts a → watch_inv (ts ++ [t]) (watch_turn_step a t).
Proof.
  intros Hd I. unfold watch_turn_step, StandaloneConvert.watch_step. pose proof (load_inv ts t a I) as Hl.
  destruct (t_event t); [by destruct (loadAndApply _ _ _ _) as [[w' ap] e]|].
  destruct (hasChanged (t_file t) a.1) eqn:Eh; [by destruct (loadAndApply _ _ _ _) as [[w' ap] e]|].
  apply watch_inv_keep; [done|]. unfold hasChanged in Eh. destruct (t_file t) as [data|] eqn:Ef; [|left; unfold turn_config; by rewrite Ef].
  apply negb_false_iff, str_eqb_spec in Eh. destruct I as (_ & _ & [Ew|(t' & data' & cfg & Hin & Hf & El & Ew)] & _); rewrite Ew in *.
  - by apply computeHash_not_empty in Eh.
  - right. simpl in *. assert (data = data') as -> by (apply (Hd t t'); [set_solver..|done|done|done]).
    unfold turn_config. rewrite Ef. simpl. by rewrite El.
Qed.

Lemma watch_invariant ts : distinct_digests ts → watch_inv ts (watch ts).
Proof.
  induction ts as [|t ts IH] using rev_ind; intros Hd.
  - split; [done|]. split; [done|]. split; [by left|constructor].
  - unfold watch. rewrite foldl_app. apply (watch_turn_inv ts t); [done|]. apply IH. intros t1 t2 d1 d2 H1 H2. apply (Hd t1 t2); set_solver.
Qed.

(** C36: the watcher implements its specification. After any sequence of file
    events and polls, with files that appear, disappear or become invalid and
    with an agent that refuses snapshots, its configuration is that of the last
    acceptable file; the last snapshot given to the agent is the one it shows,
    and every snapshot ever given was the translation of an acceptable file.
    Files of different contents must have different digests. *)
Theorem watcher_follows_file ts :
  distinct_digests ts →
  let '(w, applied) := watch ts in
  cw_lastConfig w = last_good ts ∧ cw_lastSnapshot w = last applied ∧
  Forall (λ s, ∃ t cfg, t ∈ ts ∧ turn_config t = Some cfg ∧ s = ToSnapshot (t_now t) cfg) applied.
Proof. intros Hd. pose proof (watch_invariant ts Hd) as (I1 & I2 & _ & I4). destruct (watch ts) as [w applied]. done. Qed.

End spec.

(** ** Witnesses and behaviours of note *)

#[local] Instance file_sort : SortSlice := insertion_SortSlice.

Definition same_text (s : string) : string := s.
Definition no_file (_ : string) : option string := None.
Definition by_key : visiting := λ V m, map_to_list m.
Definition by_code (m : gmap Z string) : list (Z * string) := map_to_list m.
Definition no_bytes (_ : Pb.ConfigSnapshot) : option (list Z) := None.
Definition clock_bytes (s : Pb.ConfigSnapshot) : option (list Z) := Some [Pb.GenerationTime s].

Definition file_log : Sa.AccessLogConfig := Sa.mkAccessLogConfig false "" "" "" "" "" 0 [] fzero.
Definition file_listener : Sa.ListenerConfig := Sa.mkListenerConfig "http" 80 "HTTP" None None [] 0 None false None.
Definition file_backend : Sa.BackendConfig :=
  Sa.mkBackendConfig "web" [Sa.mkEndpointConfig "10.0.0.1:8080" 0; Sa.mkEndpointConfig "10.0.0.2:8080" 0] "RoundRobin" None None None None None None.
Definition file_route (name : string) : Sa.RouteConfig :=
  Sa.mkRouteConfig name (Sa.mkRouteMatch ["shop.example"%string] (Some (Sa.mkPathMatch "PathPrefix" "/a")) [] "") [Sa.mkRouteBackendRef "web" 0] []
    None "" [] None None None None "".
Definition file_config (routes : list Sa.RouteConfig) (listeners : list Sa.ListenerConfig) : Sa.Config :=
  Sa.mkConfig "v1" (Sa.mkGlobalConfig file_log None) [] listeners routes [file_backend] [] [] None None.


(** A decoder for the examples: an empty file is not a configuration, the
    others differ in the number of their listeners. *)
Definition decode_file (data : list Z) : option Sa.Config :=
  match data with
  | [1] => Some (file_config [file_route "shop"] [file_listener])
  | [2] => Some (file_config [] [file_listener; file_listener])
  | [3] => Some (file_config [] [])
  | _ => None
  end.
Definition accepts (_ : Pb.ConfigSnapshot) : option string := None.
Definition refuses (_ : Pb.ConfigSnapshot) : option string := Some "port in use"%string.
Definition file_turns : list watch_turn :=
  [mkTurn Written (Some [1]) 1 accepts; mkTurn Tick (Some [2]) 31 accepts; mkTurn Written (Some [3]) 40 accepts; mkTurn Tick None 61 accepts].

Lemma watcher_follows_file_witness :
  let '(w, applied) := watch same_text no_file [] by_key by_code no_bytes decode_file file_turns in
  length <$> (Sa.Listeners <$> cw_lastConfig w) = Some 2%nat ∧ cw_lastSnapshot w = last applied ∧ length applied = 2%nat.
Proof.
  pose proof (watcher_follows_file same_text no_file [] by_key by_code no_bytes decode_file file_turns) as Hw.
  assert (distinct_digests file_turns) as Hd.
  { apply check_digests_sound. vm_compute. reflexivity. }
  specialize (Hw Hd). assert (length (watch same_text no_file [] by_key by_code no_bytes decode_file file_turns).2 = 2%nat) as Hlen by reflexivity.
  destruct (watch same_text no_file [] by_key by_code no_bytes decode_file file_turns) as [w applied]. destruct Hw as (E & Es & _).
  split; [rewrite E; reflexivity|]. split; [exact Es|exact Hlen].
Defined.

(** A snapshot the agent refused is not offered again by the polls: the digest
    is stored before the snapshot is applied. *)
Example refused_snapshot_is_not_retried :
  let ts := [mkTurn Written (Some [1]) 1 refuses; mkTurn Tick (Some [1]) 31 accepts; mkTurn Tick (Some [1]) 61 accepts] in
  length (watch same_text no_file [] by_key by_code no_bytes decode_file ts).2 = 1%nat ∧
  (loadAndApply same_text no_file [] by_key by_code no_bytes decode_file (Some [1]) 1 refuses NewConfigWatcher).2 = Some (ApplyFailed "port in use").
Proof. vm_compute. split; reflexivity. Qed.

(** A file that is written again without a change becomes a new version. *)
Example version_follows_the_clock :
  let version now := Pb.Version (ToSnapshot same_text no_file [] by_key by_code clock_bytes now (file_config [] [file_listener])) in
  version 1 ≠ version 2.
Proof. vm_compute. discriminate. Qed.

(** A filter with both lists allows the addresses of its deny list. *)
Example deny_list_is_dropped :
  let p := Sa.mkPolicyConfig "f" "IPFilter" None None (Some (Sa.mkIPFilterPolicy ["10.0.0.0/8"%string] ["10.6.6.6/32"%string])) None None None None None None None in
  Pb.p_IpList (convertPolicy no_file by_key p) = Some (Pb.mkIPListConfig ["10.0.0.0/8"%string] "") ∧ Pb.p_Type (convertPolicy no_file by_key p) = 3.
Proof. split; reflexivity. Qed.

(** The protocol of a port may be written in small letters, but then it has no
    backend. *)
Example small_tcp_has_no_backend (ToUpper : string → string) (endpoints : gmap string (list Pb.Endpoint)) :
  let l := Sa.mkL4Listener "db" 5432 "tcp" "pg" None None [] "" in
  Pb.l4_Backends (convertL4Listener ToUpper endpoints l) = [] ∧ Pb.l4_BackendName (convertL4Listener ToUpper endpoints l) = ""%string.
Proof. split; reflexivity. Qed.

(** Two routes may have the same name; their entries in the request then have
    the same name too. *)
Example routes_may_share_a_name :
  let cfg := file_config [file_route "shop"; file_route "shop"] [file_listener] in
  Validate cfg = None ∧
  Dp.r_Name <$> Dp.Routes (TranslateSnapshot (Some (ToSnapshot same_text no_file [] by_key by_code no_bytes 7 cfg))) = ["shop/rule-0"%string; "shop/rule-0"%string].
Proof. vm_compute. split; reflexivity. Qed.

(** The index in an error stands outside of its brackets. *)
Example error_text_of_certificate : validateCertIssuer (Sa.mkIssuer "" None None) 0 = Some "certificate[: 0]: issuer type is required"%string.
Proof. reflexivity. Qed.

(** The client certificates that a listener requires are in the extensions,
    which the watcher never asks for. *)
Example client_certificates_are_not_in_snapshot (ca1 ca2 : option Sa.ClientAuthListenerConfig) :
  let l ca := Sa.mkListenerConfig "https" 443 "HTTPS" None None [] 0 ca false None in
  let snapshot ca := ToSnapshot same_text no_file [] by_key by_code no_bytes 7 (file_config [] [l ca]) in
  snapshot ca1 = snapshot ca2.
Proof. reflexivity. Qed.

(** An endpoint without a port gets the port 80, and so does an IPv6 endpoint,
    whose port stays in its address. *)
Example parseAddressPort_cases :
  parseAddressPort "10.0.0.1:8080" = ("10.0.0.1"%string, 8080) ∧ parseAddressPort "10.0.0.1" = ("10.0.0.1"%string, 80) ∧
  parseAddressPort "10.0.0.1:http" = ("10.0.0.1"%string, 0) ∧ parseAddressPort "[::1]:8080" = ("[::1]:8080"%string, 80).
Proof. repeat split. Qed.

(** The certificate files of a listener are neither read nor named in the
    snapshot. *)
Example certificate_files_are_lost (ToUpper : string → string) (cert1 key1 cert2 key2 : string) :
  let l cert key := Sa.mkListenerConfig "https" 443 "HTTPS" None (Some (Sa.mkTLSConfig cert key "" "TLS1.3" [])) [] 0 None false None in
  convertListener ToUpper (l cert1 key1) = convertListener ToUpper (l cert2 key2).
Proof. reflexivity. Qed.
