(* ===== verification/RemoteAgents.v ===== *)
(** * Agents of remote clusters

    [src/internal/controller/snapshot/remote_cluster.go] and the registry of
    [src/internal/operator/controller/novaedgeremotecluster_controller.go]: the
    tracker of the agents that connect from other clusters, the interface
    [RemoteClusterHandler] it reports to, and the registry that implements the
    interface, with the status it gives a remote cluster resource. The mutexes
    make every method atomic. The range loops count, so their order does not
    matter; where a loop calls the handler, the order is an argument. *)

From S2P Require Import Prelude Sha256 GoStrings.
Open Scope Z_scope.

(** ** The interface *)

(** [RemoteClusterHandler]: what the handler knows of a cluster, and that an
    update changes exactly the cluster it names, if the handler knows it. *)
Class RemoteClusterHandler (H : Type) := {
  UpdateConnection : Z → string → bool → Z → Z → H → H;
  reported : H → string → option (bool * Z * Z);
  reported_update now name connected agentCount readyAgents h name' :
    reported (UpdateConnection now name connected agentCount readyAgents h) name' =
    if decide (name = name') then (λ _, (connected, agentCount, readyAgents)) <$> reported h name'
    else reported h name'
}.

(** ** The tracker *)

Record RemoteAgentInfo := mkRemoteAgentInfo {
  ra_NodeName : string; ra_ClusterName : string; ra_ClusterRegion : string; ra_ClusterZone : string;
  ra_AgentVersion : string; ra_Connected : bool; ra_Healthy : bool; ra_LastSeen : Z; ra_Labels : gmap string string
}.

#[global] Instance RemoteAgentInfo_eq_dec : EqDecision RemoteAgentInfo.
Proof. solve_decision. Defined.

Definition set_status (connected healthy : bool) (lastSeen : Z) (a : RemoteAgentInfo) : RemoteAgentInfo :=
  mkRemoteAgentInfo (ra_NodeName a) (ra_ClusterName a) (ra_ClusterRegion a) (ra_ClusterZone a)
    (ra_AgentVersion a) connected healthy lastSeen (ra_Labels a).

(** A status report, and the expiry of an agent. *)
Definition report_health (healthy : bool) (now : Z) (a : RemoteAgentInfo) : RemoteAgentInfo :=
  set_status (ra_Connected a) healthy now a.
Definition disconnect (a : RemoteAgentInfo) : RemoteAgentInfo := set_status false (ra_Healthy a) (ra_LastSeen a) a.

Definition agent_key (clusterName nodeName : string) : string := clusterName +:+ "/" +:+ nodeName.

Notation Agents := (gmap string RemoteAgentInfo).

(** The loop of [countAgentsForCluster]; the counters are int32. *)
Definition countAgentsForCluster (clusterName : string) (agents : Agents) : Z * Z :=
  map_fold (λ _ a '(total, ready),
      if str_eqb (ra_ClusterName a) clusterName then
        (wrap32 (total + 1), if ra_Connected a && ra_Healthy a then wrap32 (ready + 1) else ready)
      else (total, ready)) (0, 0) agents.

Definition ready_agent (a : RemoteAgentInfo) : bool := ra_Connected a && ra_Healthy a.

Section tracker.
Context {H : Type} `{RemoteClusterHandler H}.

Record RemoteAgentTracker := mkTracker { tr_agents : Agents; tr_handler : option H }.

Definition NewRemoteAgentTracker : RemoteAgentTracker := mkTracker ∅ None.
Definition SetHandler (handler : H) (t : RemoteAgentTracker) : RemoteAgentTracker := mkTracker (tr_agents t) (Some handler).

(** [t.handler.UpdateConnection] with the counts of the cluster; [connected]
    is computed from the number of agents. *)
Definition tell (now : Z) (connected : Z → bool) (clusterName : string) (t : RemoteAgentTracker) : RemoteAgentTracker :=
  let '(agentCount, readyAgents) := countAgentsForCluster clusterName (tr_agents t) in
  mkTracker (tr_agents t) (UpdateConnection now clusterName (connected agentCount) agentCount readyAgents <$> tr_handler t).

Definition some_agents (agentCount : Z) : bool := bool_decide (agentCount > 0).

Definition RegisterAgent (now : Z) (info : RemoteAgentInfo) (t : RemoteAgentTracker) : RemoteAgentTracker :=
  tell now (λ _, true) (ra_ClusterName info)
    (mkTracker (<[agent_key (ra_ClusterName info) (ra_NodeName info) := info]> (tr_agents t)) (tr_handler t)).

Definition UnregisterAgent (now : Z) (clusterName nodeName : string) (t : RemoteAgentTracker) : RemoteAgentTracker :=
  tell now some_agents clusterName (mkTracker (delete (agent_key clusterName nodeName) (tr_agents t)) (tr_handler t)).

Definition UpdateAgentStatus (now : Z) (clusterName nodeName : string) (healthy : bool) (t : RemoteAgentTracker)
    : RemoteAgentTracker :=
  match tr_agents t !! agent_key clusterName nodeName with
  | None => t
  | Some agent =>
      tell now (λ _, true) clusterName
        (mkTracker (<[agent_key clusterName nodeName := report_health healthy now agent]> (tr_agents t)) (tr_handler t))
  end.

(** The loop of [CleanupStaleAgents] over the agents: what becomes of an agent;
    [maxAge*3] wraps. *)
Definition stale (now maxAge : Z) (a : RemoteAgentInfo) : bool := bool_decide (time_Sub now (ra_LastSeen a) > maxAge).
Definition expire (now maxAge : Z) (a : RemoteAgentInfo) : option RemoteAgentInfo :=
  if stale now maxAge a then if stale now (wrap64 (maxAge * 3)) a then None else Some (disconnect a) else Some a.

(** The clusters whose handler is told: an agent was disconnected or removed. *)
Definition expired_cluster (now maxAge : Z) (a : RemoteAgentInfo) : bool :=
  stale now maxAge a && (ra_Connected a || stale now (wrap64 (maxAge * 3)) a).

Definition clustersToUpdate (now maxAge : Z) (agents : Agents) : gset string :=
  map_fold (λ _ a acc, if expired_cluster now maxAge a then {[ ra_ClusterName a ]} ∪ acc else acc) ∅ agents.

(** The handler is told of the clusters in the order [visit] gives the set. *)
Definition CleanupStaleAgents (visit : gset string → list string) (now maxAge : Z) (t : RemoteAgentTracker)
    : RemoteAgentTracker :=
  foldl (λ t c, tell now some_agents c t) (mkTracker (omap (expire now maxAge) (tr_agents t)) (tr_handler t))
    (visit (clustersToUpdate now maxAge (tr_agents t))).

Definition GetClusterStats (clusterName : string) (t : RemoteAgentTracker) : Z * Z :=
  countAgentsForCluster clusterName (tr_agents t).

Definition GetAgentsForCluster (visit : Agents → list (string * RemoteAgentInfo)) (clusterName : string)
    (t : RemoteAgentTracker) : list RemoteAgentInfo :=
  filter (λ a, ra_ClusterName a = clusterName) (visit (tr_agents t)).*2.

Definition GetAllRemoteClusters (visit : gset string → list string) (t : RemoteAgentTracker) : list string :=
  visit (map_fold (λ _ a acc, if str_empty (ra_ClusterName a) then acc else {[ ra_ClusterName a ]} ∪ acc) ∅ (tr_agents t)).

(** ** Counting *)

Definition members (c : string) (agents : Agents) : Agents := filter (λ kv, ra_ClusterName kv.2 = c) agents.
Definition ready_members (c : string) (agents : Agents) : Agents := filter (λ kv, ready_agent kv.2 = true) (members c agents).

Lemma wrap32_succ n : wrap32 (wrap32 (Z.of_nat n) + 1) = wrap32 (Z.of_nat (S n)).
Proof.
  unfold wrap32. rewrite Nat2Z.inj_succ.
  replace ((Z.of_nat n + 2 ^ 31) mod 2 ^ 32 - 2 ^ 31 + 1 + 2 ^ 31) with ((Z.of_nat n + 2 ^ 31) mod 2 ^ 32 + 1) by lia.
  rewrite Zplus_mod_idemp_l. do 2 f_equal. lia.
Qed.

(** Adding an entry under a new key adds one to a filtered size or nothing. *)
Lemma size_filter_insert (P : string * RemoteAgentInfo → Prop) `{∀ x, Decision (P x)} (m : Agents) k a :
  m !! k = None →
  size (filter P (<[k := a]> m)) = if decide (P (k, a)) then S (size (filter P m)) else size (filter P m).
Proof.
  intros Hk. rewrite map_filter_insert. case_decide.
  - rewrite map_size_insert_None; [done|]. apply map_lookup_filter_None. by left.
  - by rewrite delete_id.
Qed.

Lemma ready_members_alt c agents :
  ready_members c agents = filter (λ kv, ready_agent kv.2 = true ∧ ra_ClusterName kv.2 = c) agents.
Proof. apply map_filter_filter. Qed.

Lemma countAgents_sizes c agents :
  countAgentsForCluster c agents =
  (wrap32 (Z.of_nat (size (members c agents))), wrap32 (Z.of_nat (size (ready_members c agents)))).
Proof.
  rewrite ready_members_alt. unfold countAgentsForCluster, members.
  induction agents as [|k a m Hk Hf IH] using map_first_key_ind; [done|].
  rewrite map_fold_insert_first_key, IH, !size_filter_insert by done. simpl. unfold str_eqb, ready_agent.
  repeat case_bool_decide; destruct (ra_Connected a && ra_Healthy a); repeat case_decide; try naive_solver;
    by rewrite ?wrap32_succ.
Qed.

(** ** What the handler knows *)

(** The table: every agent is stored under its own key, cluster names have no
    slash, and the int32 counters are large enough. *)
Record agents_ok (agents : Agents) : Prop := {
  agents_keys k a : agents !! k = Some a → k = agent_key (ra_ClusterName a) (ra_NodeName a);
  agents_slash k a : agents !! k = Some a → no_char "/" (ra_ClusterName a) = true;
  agents_bound : Z.of_nat (size agents) ≤ max_int32
}.

Lemma agent_key_cluster c n c' n' :
  no_char "/" c = true → no_char "/" c' = true → agent_key c n = agent_key c' n' → c = c' ∧ n = n'.
Proof.
  intros Hc Hc' E. unfold agent_key in E.
  pose proof (Cut_app "/" c n Hc) as E1. pose proof (Cut_app "/" c' n' Hc') as E2.
  change (String "/" n) with ("/" +:+ n) in E1. change (String "/" n') with ("/" +:+ n') in E2.
  rewrite E, E2 in E1. by injection E1.
Qed.

(** The report on a cluster that the table justifies. *)
Definition truth (agents : Agents) (c : string) : bool * Z * Z :=
  let '(total, ready) := countAgentsForCluster c agents in (some_agents total, total, ready).

(** What the handler knows is true, but for the clusters in [S]. *)
Definition informed_except (S : gset string) (t : RemoteAgentTracker) : Prop :=
  ∀ h c v, tr_handler t = Some h → c ∉ S → reported h c = Some v → v = truth (tr_agents t) c.

Definition informed := informed_except ∅.

Lemma tell_informed S now conn c t :
  informed_except S t → conn (countAgentsForCluster c (tr_agents t)).1 = some_agents (countAgentsForCluster c (tr_agents t)).1 →
  informed_except (S ∖ {[ c ]}) (tell now conn c t).
Proof.
  unfold informed_except, tell, truth. intros HS Hconn h c' v Hh Hc' Hv.
  destruct (countAgentsForCluster c (tr_agents t)) as [total ready] eqn:E. simpl in *.
  destruct (tr_handler t) as [h0|]; [|done]. injection Hh as <-. rewrite reported_update in Hv. case_decide as Hcc.
  - subst c'. rewrite E. destruct (reported h0 c); [|done]. injection Hv as <-. by rewrite Hconn.
  - apply (HS h0); [done|set_solver|done].
Qed.

Lemma tell_agents now conn c t : tr_agents (tell now conn c t) = tr_agents t.
Proof. unfold tell. by destruct (countAgentsForCluster c (tr_agents t)). Qed.

Lemma truth_members m m' c : members c m = members c m' → truth m c = truth m' c.
Proof. intros E. unfold truth. rewrite !countAgents_sizes. unfold ready_members. by rewrite E. Qed.

(** A change of the table that keeps the agents of every cluster but [c]. *)
Lemma informed_change c t m :
  informed t → (∀ c', c' ≠ c → members c' m = members c' (tr_agents t)) →
  informed_except {[ c ]} (mkTracker m (tr_handler t)).
Proof.
  intros Hi Hm h c' v Hh Hc' Hv. simpl in *. rewrite (truth_members _ (tr_agents t)) by (apply Hm; set_solver).
  apply (Hi h); [done|set_solver|done].
Qed.

Lemma members_insert_other c k a (m : Agents) :
  ra_ClusterName a ≠ c → (∀ a', m !! k = Some a' → ra_ClusterName a' ≠ c) → members c (<[k := a]> m) = members c m.
Proof.
  intros Ha Hk. unfold members. apply map_eq. intros i. destruct (decide (i = k)) as [->|Hik].
  - transitivity (@None RemoteAgentInfo); [|symmetry]; apply map_lookup_filter_None; right; intros a'.
    + rewrite lookup_insert_eq. by intros [= <-].
    + apply Hk.
  - rewrite !map_lookup_filter, lookup_insert_ne by done. done.
Qed.

Lemma members_delete_other c k (m : Agents) :
  (∀ a', m !! k = Some a' → ra_ClusterName a' ≠ c) → members c (delete k m) = members c m.
Proof.
  intros Hk. unfold members. rewrite map_filter_delete. apply delete_id, map_lookup_filter_None. right. apply Hk.
Qed.

(** With an agent of the cluster in the table the count is positive. *)
Lemma some_agents_present k a (m : Agents) :
  m !! k = Some a → Z.of_nat (size m) ≤ max_int32 → some_agents (countAgentsForCluster (ra_ClusterName a) m).1 = true.
Proof.
  intros Hk Hsz. rewrite countAgents_sizes. simpl.
  assert (members (ra_ClusterName a) m !! k = Some a) as Hin by (by apply map_lookup_filter_Some).
  assert (size (members (ra_ClusterName a) m) ≠ 0%nat) as Hne.
  { intros E. apply map_size_empty_inv in E. by rewrite E, lookup_empty in Hin. }
  assert (size (members (ra_ClusterName a) m) ≤ size m)%nat as Hle.
  { apply map_subseteq_size, map_filter_subseteq. }
  unfold some_agents. rewrite wrap32_small by (unfold int32_range, min_int32, max_int32 in *; lia).
  apply bool_decide_eq_true. lia.
Qed.

(** *** Every operation keeps the handler informed *)

Inductive tracker_op :=
  | OpRegister (info : RemoteAgentInfo)
  | OpUnregister (clusterName nodeName : string)
  | OpStatus (clusterName nodeName : string) (healthy : bool)
  | OpCleanup (maxAge : Z).

Definition apply_op (visit : gset string → list string) (now : Z) (op : tracker_op) (t : RemoteAgentTracker)
    : RemoteAgentTracker :=
  match op with
  | OpRegister info => RegisterAgent now info t
  | OpUnregister c n => UnregisterAgent now c n t
  | OpStatus c n b => UpdateAgentStatus now c n b t
  | OpCleanup maxAge => CleanupStaleAgents visit now maxAge t
  end.

(** Cluster names are names of Kubernetes objects, which have no slash. *)
Definition op_ok (op : tracker_op) : Prop :=
  match op with
  | OpRegister info => no_char "/" (ra_ClusterName info) = true
  | OpUnregister c _ | OpStatus c _ _ => no_char "/" c = true
  | OpCleanup _ => True
  end.

Lemma other_cluster (m : Agents) c n k a :
  agents_ok m → no_char "/" c = true → k = agent_key c n → m !! k = Some a → ra_ClusterName a = c.
Proof.
  intros Hm Hc -> Ha. pose proof (agents_keys _ Hm _ _ Ha) as E.
  destruct (agent_key_cluster _ _ _ _ Hc (agents_slash _ Hm _ _ Ha) E) as [-> _]. done.
Qed.

Lemma informed_diff c t : informed_except ({[ c ]} ∖ {[ c ]}) t → informed t.
Proof. unfold informed. by rewrite (difference_diag_L ({[ c ]} : gset string)). Qed.

Lemma members_expire now maxAge c (m : Agents) :
  c ∉ clustersToUpdate now maxAge m → members c (omap (expire now maxAge) m) = members c m.
Proof.
  intros Hc. apply map_eq. intros k. unfold members. rewrite !map_lookup_filter, lookup_omap.
  destruct (m !! k) as [a|] eqn:Hk; [|done]. simpl.
  assert (expired_cluster now maxAge a = true → ra_ClusterName a ∈ clustersToUpdate now maxAge m) as Hin.
  { clear Hc. intros Hx. unfold clustersToUpdate. revert k a Hk Hx.
    induction m as [|k0 a0 m Hk0 Hf IH] using map_first_key_ind; intros k a Hk Hx; [by rewrite lookup_empty in Hk|].
    rewrite map_fold_insert_first_key by done. apply lookup_insert_Some in Hk as [[_ ->]|[_ Hk]].
    - rewrite Hx. set_solver.
    - specialize (IH k a Hk Hx). destruct (expired_cluster now maxAge a0); set_solver. }
  unfold expire, expired_cluster in *. destruct (stale now maxAge a) eqn:Hs; [|done].
  destruct (stale now (wrap64 (maxAge * 3)) a) eqn:Hs3; simpl.
  - rewrite orb_true_r in Hin. rewrite option_guard_False; [done|]. intros E. apply Hc. rewrite <- E. by apply Hin.
  - destruct (ra_Connected a) eqn:Hconn; simpl in *.
    + rewrite !option_guard_False; [done|..]; simpl; intros E; apply Hc; rewrite <- E; by apply Hin.
    + destruct a. simpl in *. by subst.
Qed.

Lemma tell_all_informed now l S t :
  informed_except S t → informed_except (S ∖ list_to_set l) (foldl (λ t c, tell now some_agents c t) t l).
Proof.
  revert S t. induction l as [|c l IH]; intros S t Ht; simpl; [by rewrite difference_empty_L|].
  rewrite <- difference_difference_l_L. apply IH. by apply tell_informed.
Qed.

Lemma tell_all_agents now l t : tr_agents (foldl (λ t c, tell now some_agents c t) t l) = tr_agents t.
Proof. revert t. induction l as [|c l IH]; intros t; simpl; [done|]. by rewrite IH, tell_agents. Qed.

Lemma apply_op_agents_ok visit now op t :
  agents_ok (tr_agents t) → op_ok op → Z.of_nat (size (tr_agents (apply_op visit now op t))) ≤ max_int32 →
  agents_ok (tr_agents (apply_op visit now op t)).
Proof.
  intros [Hk Hs Hb] Hop Hsz. split; [..|done]; clear Hsz Hb;
    destruct op as [info|c n|c n b|maxAge]; simpl in *; unfold RegisterAgent, UnregisterAgent, UpdateAgentStatus, CleanupStaleAgents;
    intros k a; rewrite ?tell_agents, ?tell_all_agents; simpl.
  all: try (rewrite lookup_insert_Some; naive_solver).
  all: try (rewrite lookup_delete_Some; naive_solver).
  all: try (destruct (tr_agents t !! agent_key c n) as [a0|] eqn:E; [|by eauto]; rewrite tell_agents; simpl;
    rewrite lookup_insert_Some; intros [[<- <-]|[_ Ha]]; [|by eauto]; simpl; by eauto).
  all: rewrite lookup_omap; destruct (tr_agents t !! k) as [a0|] eqn:E; [|done]; simpl; unfold expire; intros Ha;
    repeat case_match; simplify_eq; simpl; eauto.
Qed.

Lemma apply_op_informed visit now op t :
  (∀ s, visit s ≡ₚ elements s) →
  agents_ok (tr_agents t) → op_ok op → Z.of_nat (size (tr_agents (apply_op visit now op t))) ≤ max_int32 →
  informed t → informed (apply_op visit now op t).
Proof.
  intros Hvisit Hok Hop Hsz Hi. destruct op as [info|c n|c n b|maxAge]; simpl in *.
  - unfold RegisterAgent in *. rewrite tell_agents in Hsz. simpl in Hsz. apply (informed_diff (ra_ClusterName info)), tell_informed.
    + apply informed_change; [done|]. intros c' Hc'. apply members_insert_other; [done|].
      intros a' Ha' <-. apply Hc'. by apply (other_cluster _ _ _ _ _ Hok Hop eq_refl Ha').
    + simpl. symmetry. by eapply some_agents_present; [apply lookup_insert_eq|].
  - unfold UnregisterAgent. apply (informed_diff c), tell_informed; [|done].
    apply informed_change; [done|]. intros c' Hc'. apply members_delete_other.
    intros a' Ha' <-. apply Hc'. by apply (other_cluster _ _ _ _ _ Hok Hop eq_refl Ha').
  - unfold UpdateAgentStatus in *. destruct (tr_agents t !! agent_key c n) as [a|] eqn:E; [|done].
    pose proof (other_cluster _ _ _ _ _ Hok Hop eq_refl E) as Hc.
    rewrite tell_agents in Hsz. simpl in Hsz. apply (informed_diff c), tell_informed.
    + apply informed_change; [done|]. intros c' Hc'. apply members_insert_other; [simpl; by rewrite Hc|]. by rewrite E; intros a' [= <-]; rewrite Hc.
    + pose proof (some_agents_present _ _ _ (lookup_insert_eq _ _ _) Hsz) as Hp. simpl in Hp. by rewrite Hc in Hp.
  - unfold CleanupStaleAgents. set (C := clustersToUpdate now maxAge (tr_agents t)).
    assert (informed_except (C ∖ list_to_set (visit C))
      (foldl (λ t c, tell now some_agents c t) (mkTracker (omap (expire now maxAge) (tr_agents t)) (tr_handler t)) (visit C))) as Hx.
    { apply tell_all_informed. intros h c v Hh Hc Hv. simpl in *.
      rewrite (truth_members _ (tr_agents t)) by (by apply members_expire). by apply (Hi h); [|set_solver|]. }
    unfold informed. assert (C ∖ list_to_set (visit C) = ∅) as <-; [|done].
    rewrite (Hvisit C), list_to_set_elements_L. by apply difference_diag_L.
Qed.

(** A history of operations, each at its time, with the table inside int32. *)
Inductive history (visit : gset string → list string) : RemoteAgentTracker → Prop :=
  | history_start h : (∀ c v, reported h c = Some v → v = (false, 0, 0)) → history visit (mkTracker ∅ (Some h))
  | history_op now op t :
      history visit t → op_ok op → Z.of_nat (size (tr_agents (apply_op visit now op t))) ≤ max_int32 →
      history visit (apply_op visit now op t).

(** After any history of registrations, departures, status reports and
    expiries of agents, whatever the handler of the tracker knows of a cluster
    is true: connected exactly when an agent of the cluster is in the table,
    with the current numbers of agents and of ready agents. *)
Lemma handler_is_informed visit t :
  (∀ s, visit s ≡ₚ elements s) → history visit t →
  ∀ h c v, tr_handler t = Some h → reported h c = Some v →
    v = (bool_decide (members c (tr_agents t) ≠ ∅), Z.of_nat (size (members c (tr_agents t))),
         Z.of_nat (size (ready_members c (tr_agents t)))).
Proof.
  intros Hvisit Hh. assert (agents_ok (tr_agents t) ∧ informed t) as [Hok Hi].
  { induction Hh as [h0 Hstart|now op t Ht [Hok Hi] Hop Hsz].
    - split; [by split; simpl; [intros ?? []%lookup_empty_Some..|]|]. intros h c v [= <-] _ Hv. by apply Hstart in Hv.
    - split; [by apply apply_op_agents_ok|by apply apply_op_informed]. }
  intros h c v Hh' Hv. rewrite (Hi h c v Hh' (not_elem_of_empty c) Hv). unfold truth. rewrite countAgents_sizes.
  pose proof (agents_bound _ Hok) as Hb.
  assert (size (members c (tr_agents t)) ≤ size (tr_agents t))%nat as Hle by apply map_subseteq_size, map_filter_subseteq.
  assert (size (ready_members c (tr_agents t)) ≤ size (members c (tr_agents t)))%nat as Hle'
    by apply map_subseteq_size, map_filter_subseteq.
  unfold some_agents. rewrite !wrap32_small by (unfold int32_range, min_int32, max_int32 in *; lia).
  f_equal. f_equal. apply bool_decide_ext. rewrite <- map_size_empty_iff. lia.
Qed.

(** An agent that the expiry disconnects stays disconnected although it
    reports again: a report changes health and time only. *)
Lemma report_keeps_disconnected now c n b t k a :
  tr_agents t !! k = Some a → ra_Connected a = false → ∃ a', tr_agents (UpdateAgentStatus now c n b t) !! k = Some a' ∧ ra_Connected a' = false.
Proof.
  intros Ha Hd. unfold UpdateAgentStatus. destruct (tr_agents t !! agent_key c n) as [a0|] eqn:E; [|by eauto].
  rewrite tell_agents. simpl. destruct (decide (agent_key c n = k)) as [<-|Hne].
  - rewrite lookup_insert_eq. eexists. split; [done|]. simpl. congruence.
  - rewrite lookup_insert_ne by done. by eauto.
Qed.

End tracker.

Arguments RemoteAgentTracker H : clear implicits.

(** ** The registry of remote clusters *)

Record RemoteClusterInfo := mkRemoteClusterInfo {
  rc_Name : string; rc_Region : string; rc_Zone : string; rc_ControllerAddress : string; rc_TLSEnabled : bool;
  rc_Connected : bool; rc_LastHeartbeat : Z; rc_AgentCount : Z; rc_ReadyAgents : Z; rc_Labels : gmap string string
}.

Record RemoteClusterRegistry := mkRegistry { clusters : gmap string RemoteClusterInfo }.

Definition NewRemoteClusterRegistry : RemoteClusterRegistry := mkRegistry ∅.
Definition Register (info : RemoteClusterInfo) (r : RemoteClusterRegistry) : RemoteClusterRegistry :=
  mkRegistry (<[rc_Name info := info]> (clusters r)).
Definition Unregister (name : string) (r : RemoteClusterRegistry) : RemoteClusterRegistry :=
  mkRegistry (delete name (clusters r)).
Definition Registry_Get (name : string) (r : RemoteClusterRegistry) : option RemoteClusterInfo := clusters r !! name.

Definition set_connection (now : Z) (connected : bool) (agentCount readyAgents : Z) (i : RemoteClusterInfo) : RemoteClusterInfo :=
  mkRemoteClusterInfo (rc_Name i) (rc_Region i) (rc_Zone i) (rc_ControllerAddress i) (rc_TLSEnabled i)
    connected (if connected then now else rc_LastHeartbeat i) agentCount readyAgents (rc_Labels i).

Definition Registry_UpdateConnection (now : Z) (name : string) (connected : bool) (agentCount readyAgents : Z)
    (r : RemoteClusterRegistry) : RemoteClusterRegistry :=
  match clusters r !! name with
  | Some info => mkRegistry (<[name := set_connection now connected agentCount readyAgents info]> (clusters r))
  | None => r
  end.

Definition info_report (i : RemoteClusterInfo) : bool * Z * Z := (rc_Connected i, rc_AgentCount i, rc_ReadyAgents i).

Definition registry_report (r : RemoteClusterRegistry) (name : string) : option (bool * Z * Z) :=
  info_report <$> clusters r !! name.

Lemma registry_report_update now name connected total ready r name' :
  registry_report (Registry_UpdateConnection now name connected total ready r) name' =
  if decide (name = name') then (λ _, (connected, total, ready)) <$> registry_report r name' else registry_report r name'.
Proof.
  unfold Registry_UpdateConnection, registry_report.
  destruct (clusters r !! name) as [i|] eqn:E; case_decide; subst; simpl; rewrite ?E; simpl;
    by rewrite ?lookup_insert_eq, ?lookup_insert_ne.
Qed.

#[global] Instance registry_handler : RemoteClusterHandler RemoteClusterRegistry :=
  {| UpdateConnection := Registry_UpdateConnection; reported := registry_report; reported_update := registry_report_update |}.

(** ** The status of a remote cluster resource *)

Inductive RemoteClusterPhase := PhasePending | PhaseConnecting | PhaseConnected | PhaseDegraded | PhaseDisconnected | PhaseFailed.

#[global] Instance RemoteClusterPhase_eq_dec : EqDecision RemoteClusterPhase.
Proof. solve_decision. Defined.

(** The specification of a [NovaEdgeRemoteCluster] that registration reads. *)
Record RemoteClusterSpec := mkRemoteClusterSpec {
  rs_ClusterName : string; rs_Region : string; rs_Zone : string; rs_ControllerEndpoint : string;
  rs_TLSEnabled : option bool; rs_Labels : gmap string string
}.

(** Its status: the phase, the connection ([LastConnected] is [None] until
    there was one), the agents and the conditions that hold. *)
Record RemoteClusterStatus := mkRemoteClusterStatus {
  rt_Phase : RemoteClusterPhase; rt_LastConnected : option Z; rt_Connected : bool;
  rt_Total : Z; rt_Ready : Z; rt_Conditions : gmap string bool
}.

Definition ConditionTypeRemoteReady : string := "Ready".
Definition ConditionTypeRemoteConnected : string := "Connected".
Definition ConditionTypeRemoteConfigured : string := "Configured".
Definition ConditionTypeRemoteHealthy : string := "Healthy".

(** [registerRemoteCluster]: the error, or the registry with the cluster. *)
Definition registerRemoteCluster (rc : RemoteClusterSpec) (r : RemoteClusterRegistry) : string + RemoteClusterRegistry :=
  if str_empty (rs_ClusterName rc) then inl "cluster name is required"%string
  else if str_empty (rs_ControllerEndpoint rc) then inl "connection controller endpoint is required"%string
  else
    let tlsEnabled := default true (rs_TLSEnabled rc) in
    let info connected heartbeat total ready :=
      mkRemoteClusterInfo (rs_ClusterName rc) (rs_Region rc) (rs_Zone rc) (rs_ControllerEndpoint rc) tlsEnabled
        connected heartbeat total ready (rs_Labels rc) in
    inr (Register
      match Registry_Get (rs_ClusterName rc) r with
      | Some e => info (rc_Connected e) (rc_LastHeartbeat e) (rc_AgentCount e) (rc_ReadyAgents e)
      | None => info false time_zero 0 0
      end r).

(** [updateConnectionStatus]; [None] is the error of an unknown cluster. *)
Definition updateConnectionStatus (now : Z) (clusterName : string) (r : RemoteClusterRegistry) (st : RemoteClusterStatus)
    : option RemoteClusterStatus :=
  match Registry_Get clusterName r with
  | None => None
  | Some info =>
      Some (mkRemoteClusterStatus (rt_Phase st) (if rc_Connected info then Some now else rt_LastConnected st) (rc_Connected info)
        (rc_AgentCount info) (rc_ReadyAgents info)
        (<[ConditionTypeRemoteConnected := rc_Connected info]> (rt_Conditions st)))
  end.

Definition IsStatusConditionTrue (conditions : gmap string bool) (t : string) : bool := map_get false conditions t.

(** [updateOverallStatus]: the phase and the conditions it sets. *)
Definition updateOverallStatus (st : RemoteClusterStatus) : RemoteClusterStatus :=
  let connected := IsStatusConditionTrue (rt_Conditions st) ConditionTypeRemoteConnected in
  let configured := IsStatusConditionTrue (rt_Conditions st) ConditionTypeRemoteConfigured in
  let '(phase, conditions) :=
    if negb configured then (PhaseFailed, rt_Conditions st)
    else if connected then
      if bool_decide (rt_Ready st = rt_Total st) && bool_decide (rt_Total st > 0) then
        (PhaseConnected, <[ConditionTypeRemoteHealthy := true]> (rt_Conditions st))
      else if decide (rt_Ready st > 0) then (PhaseDegraded, <[ConditionTypeRemoteHealthy := false]> (rt_Conditions st))
      else (PhaseConnecting, rt_Conditions st)
    else (match rt_LastConnected st with Some _ => PhaseDisconnected | None => PhaseConnecting end, rt_Conditions st) in
  mkRemoteClusterStatus phase (rt_LastConnected st) (rt_Connected st) (rt_Total st) (rt_Ready st)
    (<[ConditionTypeRemoteReady := bool_decide (phase = PhaseConnected)]> conditions).

(** Registering a cluster again keeps what is known of its connection. *)
Lemma registerRemoteCluster_keeps rc r r' :
  registerRemoteCluster rc r = inr r' →
  ∀ c, reported r' c = if decide (c = rs_ClusterName rc) then Some (default (false, 0, 0) (reported r c)) else reported r c.
Proof.
  intros E c. unfold registerRemoteCluster, Registry_Get in E. repeat (case_match; [done|]). injection E as <-.
  unfold reported, registry_handler, registry_report, Register. simpl.
  case_decide as Hc; [subst c|rewrite lookup_insert_ne; [done|by destruct (clusters r !! rs_ClusterName rc)]].
  by destruct (clusters r !! rs_ClusterName rc) as [e|] eqn:E; simpl; rewrite ?lookup_insert_eq.
Qed.

(** ** The status tells the truth about the agents *)

Definition fresh_status : RemoteClusterStatus := mkRemoteClusterStatus PhasePending None false 0 0 ∅.

(** The status of a configured remote cluster follows from the agents the
    tracker holds: it is ready exactly when it has agents and all of them are
    connected and healthy, and its phase is connected, degraded, connecting or
    disconnected by the numbers of agents and ready agents. *)
Theorem remote_status_is_true visit (t : RemoteAgentTracker RemoteClusterRegistry) reg name now st st' :
  (∀ s, visit s ≡ₚ elements s) → history visit t → tr_handler t = Some reg →
  rt_Conditions st !! ConditionTypeRemoteConfigured = Some true →
  updateConnectionStatus now name reg st = Some st' →
  let m := members name (tr_agents t) in
  let ready := ready_members name (tr_agents t) in
  rt_Phase (updateOverallStatus st') =
    (if decide (m = ∅) then match rt_LastConnected st with Some _ => PhaseDisconnected | None => PhaseConnecting end
     else if decide (ready = m) then PhaseConnected
     else if decide (ready = ∅) then PhaseConnecting else PhaseDegraded) ∧
  IsStatusConditionTrue (rt_Conditions (updateOverallStatus st')) ConditionTypeRemoteReady = bool_decide (m ≠ ∅ ∧ ready = m).
Proof.
  intros Hvisit Hhist Hreg Hconf Hst m ready. unfold updateConnectionStatus, Registry_Get in Hst.
  destruct (clusters reg !! name) as [info|] eqn:E; [|done]. injection Hst as <-.
  pose proof (handler_is_informed visit t Hvisit Hhist reg name (info_report info) Hreg) as Hinf.
  simpl in Hinf. unfold registry_report in Hinf. rewrite E in Hinf. specialize (Hinf eq_refl). fold m ready in Hinf. injection Hinf as Hc Ht Hr.
  unfold updateOverallStatus, IsStatusConditionTrue, map_get. simpl. rewrite lookup_insert_ne, Hconf by done. rewrite lookup_insert_eq.
  simpl. rewrite Hc, Ht, Hr.
  assert (ready = m ↔ Z.of_nat (size ready) = Z.of_nat (size m)) as Hrm.
  { split; [by intros ->|]. intros Hs. apply map_subseteq_size_eq; [apply map_filter_subseteq|lia]. }
  assert (m = ∅ ↔ Z.of_nat (size m) = 0) as Hm by (rewrite <- map_size_empty_iff; lia).
  assert (ready = ∅ ↔ Z.of_nat (size ready) = 0) as Hre by (rewrite <- map_size_empty_iff; lia).
  destruct (decide (m = ∅)) as [Em|Em].
  - rewrite bool_decide_eq_false_2 by (intros Hn; by apply Hn). simpl. rewrite lookup_insert_eq.
    split; [done|]. simpl. rewrite (bool_decide_eq_false_2 (m ≠ ∅ ∧ _)) by (intros [Hn _]; by apply Hn).
    by destruct (rt_LastConnected st).
  - assert (Z.of_nat (size m) ≠ 0) as Em' by (by rewrite <- Hm).
    rewrite bool_decide_eq_true_2 by done. destruct (decide (ready = m)) as [Er|Er].
    + rewrite (bool_decide_eq_true_2 (Z.of_nat (size ready) = _)) by (by rewrite Er).
      rewrite (bool_decide_eq_true_2 (Z.of_nat (size m) > 0)) by lia.
      rewrite (bool_decide_eq_true_2 (m ≠ ∅ ∧ _)) by done. simpl. by rewrite lookup_insert_eq.
    + rewrite (bool_decide_eq_false_2 (Z.of_nat (size ready) = _)) by (by rewrite <- Hrm). simpl.
      rewrite (bool_decide_eq_false_2 (m ≠ ∅ ∧ _)) by (by intros [_ ?]).
      destruct (decide (ready = ∅)) as [E0|E0].
      * rewrite decide_False by (apply Hre in E0; lia). simpl. by rewrite lookup_insert_eq.
      * rewrite decide_True by (rewrite Hre in E0; lia). simpl. by rewrite lookup_insert_eq.
Qed.

(** Two agents of the cluster [spoke], one of them unhealthy. *)
Definition spoke_agent (node : string) (healthy : bool) : RemoteAgentInfo :=
  mkRemoteAgentInfo node "spoke" "eu" "a" "1.0" true healthy 0 ∅.

Definition spoke_registry : RemoteClusterRegistry :=
  mkRegistry {[ "spoke"%string := mkRemoteClusterInfo "spoke" "eu" "a" "hub:443" true false time_zero 0 0 ∅ ]}.

Definition spoke_tracker : RemoteAgentTracker RemoteClusterRegistry :=
  apply_op elements 2 (OpStatus "spoke" "n2" false)
    (apply_op elements 1 (OpRegister (spoke_agent "n2" true))
      (apply_op elements 1 (OpRegister (spoke_agent "n1" true)) (mkTracker ∅ (Some spoke_registry)))).

Lemma remote_status_is_true_witness :
  ∃ reg st', tr_handler spoke_tracker = Some reg ∧
    updateConnectionStatus 5 "spoke" reg (mkRemoteClusterStatus PhasePending None false 0 0 {[ ConditionTypeRemoteConfigured := true ]}) = Some st' ∧
    rt_Phase (updateOverallStatus st') = PhaseDegraded.
Proof.
  eexists. eexists. split; [vm_compute; reflexivity|]. split; [vm_compute; reflexivity|].
  eapply (remote_status_is_true elements spoke_tracker _ "spoke" 5
    (mkRemoteClusterStatus PhasePending None false 0 0 {[ ConditionTypeRemoteConfigured := true ]})); try reflexivity.
  unfold spoke_tracker. repeat (apply history_op; [|by vm_compute|by vm_compute]). apply history_start.
  intros c v. unfold reported, registry_handler, registry_report, spoke_registry. simpl.
  destruct (decide (c = "spoke"%string)) as [->|]; [by intros [= <-]|]. rewrite lookup_singleton_ne by done. done.
Defined.
