(* ===== verification/SnapshotServer.v ===== *)
(** * The configuration server of the controller

    [src/internal/controller/snapshot/server.go]: agents open a stream and
    receive snapshots of their configuration. The model has the whole state of
    the server (the cache with its subscribers, the channels, the agent table,
    the tracker of remote agents, the dirty flag, the debounce timer) and runs
    the goroutines as events: every blocking operation of [StreamConfig] is one
    event of its stream, the watch handlers, the timer and the status reports
    are events of their own. An event that is not enabled changes nothing. A
    change of the resources may be announced or not, and a build during which they
    change may see any mixture of them. The builder of snapshots is an argument, as is what the agent's certificate
    contains. *)

From S2P Require Import Prelude Sha256 GoStrings RemoteAgents.
Open Scope Z_scope.

Definition AgentExpiryDuration : Z := 30 * Second.

(** ** Who is on the other side of a connection *)

Record Certificate := mkCertificate { crt_URIs : list (string * string) (* scheme, path *); crt_CommonName : string }.

(** What [peer.FromContext] gives: no peer, no TLS, or TLS with the client's
    certificates. *)
Inductive Peer := NoPeer | PlainPeer | TLSPeer (certs : list Certificate).

(** The node a SPIFFE URI names, if it is an agent's. *)
Definition agent_of_uri (uri : string * string) : option string :=
  if str_eqb uri.1 "spiffe" then
    match Split "/" uri.2 with
    | _ :: kind :: node :: _ => if str_eqb kind "agent" then Some node else None
    | _ => None
    end
  else None.

(** The three PermissionDenied errors of [validatePeerNodeName]. *)
Inductive peer_error := NoMatchingSPIFFE | CommonNameMismatch | NoRecognizableIdentity.

Definition validatePeerNodeName (p : Peer) (requestedNode : string) : option peer_error :=
  match p with
  | NoPeer | PlainPeer | TLSPeer [] => None
  | TLSPeer (cert :: _) =>
      let agents := omap agent_of_uri (crt_URIs cert) in
      if contains agents requestedNode then None
      else if bool_decide (agents ≠ []) then Some NoMatchingSPIFFE
      else if negb (str_empty (crt_CommonName cert)) then
        if str_eqb (crt_CommonName cert) requestedNode then None
        else Some CommonNameMismatch
      else Some NoRecognizableIdentity
  end.

(** [RequestMeshCertificate]: the mesh CA is absent or has its own operations;
    a signature can fail. *)
Record MeshCA := mkMeshCA {
  mc_SignCSR : string → string → option (string * Z); (* certificate and expiry *)
  mc_TrustDomain : string;
  mc_CACertPEM : string
}.

Inductive cert_error := PermissionDenied (e : peer_error) | Unavailable | CSRRequired | NodeNameRequired | SigningFailed.

Record MeshCertificateResponse := mkMeshCertificateResponse {
  mr_Certificate : string; mr_CaCertificate : string; mr_SpiffeId : string; mr_ExpiryUnix : Z
}.

Definition RequestMeshCertificate (meshCA : option MeshCA) (p : Peer) (csr nodeName : string)
    : cert_error + MeshCertificateResponse :=
  match validatePeerNodeName p nodeName, meshCA with
  | Some e, _ => inl (PermissionDenied e)
  | None, None => inl Unavailable
  | None, Some ca =>
      if str_empty csr then inl CSRRequired
      else if str_empty nodeName then inl NodeNameRequired
      else
        match mc_SignCSR ca csr nodeName with
        | None => inl SigningFailed
        | Some (certPEM, notAfter) =>
            inr (mkMeshCertificateResponse certPEM (mc_CACertPEM ca)
              ("spiffe://" +:+ mc_TrustDomain ca +:+ "/agent/" +:+ nodeName) notAfter)
        end
  end.

(** ** Agent status *)

Record AgentStatusInfo := mkAgentStatusInfo {
  as_NodeName : string; as_AgentVersion : string; as_AppliedConfigVersion : string; as_Healthy : bool;
  as_LastSeen : Z; as_Connected : bool; as_ActiveConnections : Z; as_Errors : list string; as_Metrics : gmap string Z;
  as_ClusterName : string; as_ClusterRegion : string; as_ClusterZone : string
}.

Definition new_status (nodeName : string) : AgentStatusInfo :=
  mkAgentStatusInfo nodeName "" "" false time_zero false 0 [] ∅ "" "" "".

(** [pb.AgentStatus] *)
Record AgentStatus := mkAgentStatus {
  ar_NodeName : string; ar_AppliedConfigVersion : string; ar_Healthy : bool; ar_Errors : list string;
  ar_Metrics : gmap string Z; ar_ClusterName : string
}.

Notation StatusMap := (gmap string AgentStatusInfo).

Definition apply_report (now : Z) (req : AgentStatus) (s : AgentStatusInfo) : AgentStatusInfo :=
  mkAgentStatusInfo (as_NodeName s) (as_AgentVersion s) (ar_AppliedConfigVersion req) (ar_Healthy req) now
    (as_Connected s) (default (as_ActiveConnections s) (ar_Metrics req !! "active_connections"%string))
    (ar_Errors req) (ar_Metrics req) (as_ClusterName s) (as_ClusterRegion s) (as_ClusterZone s).

Definition storeAgentStatus (now : Z) (req : AgentStatus) (m : StatusMap) : StatusMap :=
  <[ar_NodeName req := apply_report now req (default (new_status (ar_NodeName req)) (m !! ar_NodeName req))]> m.

(** [pb.StreamConfigRequest] *)
Record StreamConfigRequest := mkStreamConfigRequest {
  rq_NodeName : string; rq_AgentVersion : string; rq_ClusterName : string; rq_ClusterRegion : string;
  rq_ClusterZone : string; rq_ClusterLabels : gmap string string
}.

Definition isRemote (req : StreamConfigRequest) : bool := negb (str_empty (rq_ClusterName req)).

Definition status_key (req : StreamConfigRequest) : string :=
  if isRemote req then agent_key (rq_ClusterName req) (rq_NodeName req) else rq_NodeName req.

Definition set_connected (now : Z) (req : StreamConfigRequest) (connected : bool) (s : AgentStatusInfo) : AgentStatusInfo :=
  mkAgentStatusInfo (as_NodeName s) (rq_AgentVersion req) (as_AppliedConfigVersion s) (as_Healthy s) now connected
    (as_ActiveConnections s) (as_Errors s) (as_Metrics s) (rq_ClusterName req) (rq_ClusterRegion req) (rq_ClusterZone req).

Definition updateAgentConnectionWithCluster (now : Z) (req : StreamConfigRequest) (connected : bool) (m : StatusMap) : StatusMap :=
  <[status_key req := set_connected now req connected (default (new_status (rq_NodeName req)) (m !! status_key req))]> m.

(** One tick of [cleanupStaleAgents]. *)
Definition expire_status (now : Z) (s : AgentStatusInfo) : AgentStatusInfo :=
  if bool_decide (time_Sub now (as_LastSeen s) > AgentExpiryDuration) && as_Connected s then
    mkAgentStatusInfo (as_NodeName s) (as_AgentVersion s) (as_AppliedConfigVersion s) (as_Healthy s) (as_LastSeen s) false
      (as_ActiveConnections s) (as_Errors s) (as_Metrics s) (as_ClusterName s) (as_ClusterRegion s) (as_ClusterZone s)
  else s.

Definition cleanupStaleAgents (now : Z) (m : StatusMap) : StatusMap := expire_status now <$> m.

(** ** The cache and its channels

    A channel is a reference into a store; it has room for ten values. *)

Record chan := mkChan { ch_buf : list string; ch_closed : bool }.
Definition chan_cap : nat := 10.

(** A send in a select with a default branch: dropped when the channel is
    full; sending on a closed channel panics. *)
Definition try_send (x : string) (c : chan) : outcome chan :=
  if ch_closed c then Panics
  else if decide (length (ch_buf c) < chan_cap)%nat then Returns (mkChan (ch_buf c ++ [x]) false) else Returns c.

Section server.
Context {config ConfigSnapshot H : Type} `{RemoteClusterHandler H}.
Context (Version : ConfigSnapshot → string) (BuildSnapshot : config → string → ConfigSnapshot).
Context (visit : gmap string (list nat) → list (string * list nat)).

Record Cache := mkCache {
  ca_snapshots : gmap string ConfigSnapshot;
  ca_subscribers : gmap string (list nat);
  ca_chans : gmap nat chan
}.

Definition NewCache : Cache := mkCache ∅ ∅ ∅.
Definition Cache_Get (nodeName : string) (c : Cache) : option ConfigSnapshot := ca_snapshots c !! nodeName.
Definition Cache_Set (nodeName : string) (s : ConfigSnapshot) (c : Cache) : Cache :=
  mkCache (<[nodeName := s]> (ca_snapshots c)) (ca_subscribers c) (ca_chans c).
Definition Cache_Clear (c : Cache) : Cache := mkCache ∅ (ca_subscribers c) (ca_chans c).
Definition GetCacheSize (c : Cache) : Z := Z.of_nat (size (ca_snapshots c)).
Definition GetVersion (nodeName : string) (c : Cache) : string :=
  match ca_snapshots c !! nodeName with Some s => Version s | None => ""%string end.

(** [make(chan string, 10)] and [Subscribe]. *)
Definition Subscribe (nodeName : string) (ch : nat) (c : Cache) : Cache :=
  mkCache (ca_snapshots c) (<[nodeName := map_get [] (ca_subscribers c) nodeName ++ [ch]]> (ca_subscribers c))
    (<[ch := mkChan [] false]> (ca_chans c)).

Definition close_chan (ch : nat) (m : gmap nat chan) : outcome (gmap nat chan) :=
  match m !! ch with
  | Some c => if ch_closed c then Panics else Returns (<[ch := mkChan (ch_buf c) true]> m)
  | None => Panics
  end.

(** [Unsubscribe] removes the first occurrence of the channel and closes it. *)
Definition Unsubscribe (nodeName : string) (ch : nat) (c : Cache) : outcome Cache :=
  let subs := map_get [] (ca_subscribers c) nodeName in
  match list_find (λ x, x = ch) subs with
  | None => Returns c
  | Some (i, _) =>
      outcome_bind (close_chan ch (ca_chans c)) (λ m,
        Returns (mkCache (ca_snapshots c) (<[nodeName := delete i subs]> (ca_subscribers c)) m))
  end.

(** The loop of [Notify] over the channels of a node. *)
Fixpoint notify_chans (nodeName : string) (l : list nat) (m : gmap nat chan) : outcome (gmap nat chan) :=
  match l with
  | [] => Returns m
  | ch :: l' =>
      outcome_bind (deref (m !! ch)) (λ c,
        outcome_bind (try_send nodeName c) (λ c', notify_chans nodeName l' (<[ch := c']> m)))
  end.

Definition Notify (nodeName : string) (c : Cache) : outcome Cache :=
  outcome_bind (notify_chans nodeName (map_get [] (ca_subscribers c) nodeName) (ca_chans c)) (λ m,
    Returns (mkCache (ca_snapshots c) (ca_subscribers c) m)).

Fixpoint notify_nodes (l : list (string * list nat)) (m : gmap nat chan) : outcome (gmap nat chan) :=
  match l with
  | [] => Returns m
  | (nodeName, chs) :: l' => outcome_bind (notify_chans nodeName chs m) (notify_nodes l')
  end.

(** [NotifyAll] visits the nodes in the order [visit] gives. *)
Definition NotifyAll (c : Cache) : outcome Cache :=
  outcome_bind (notify_nodes (visit (ca_subscribers c)) (ca_chans c)) (λ m,
    Returns (mkCache (ca_snapshots c) (ca_subscribers c) m)).

(** ** The server *)

Record Server := mkServer {
  sv_cache : Cache;
  sv_statusMap : StatusMap;
  sv_tracker : RemoteAgentTracker H;
  sv_activeStreams : Z;
  sv_dirty : bool;
  sv_debounce : option string; (* the armed timer and the node of its callback *)
  sv_shutdown : bool (* the shutdown channel is closed *)
}.

Definition NewServer : Server := mkServer NewCache ∅ NewRemoteAgentTracker 0 false None false.

Definition Server_eta (s : Server) : Server :=
  mkServer (sv_cache s) (sv_statusMap s) (sv_tracker s) (sv_activeStreams s) (sv_dirty s) (sv_debounce s) (sv_shutdown s).
Definition set_cache : Cache → Server → Server := ltac:(field_setter Server_eta sv_cache).
Definition set_statusMap : StatusMap → Server → Server := ltac:(field_setter Server_eta sv_statusMap).
Definition set_tracker : RemoteAgentTracker H → Server → Server := ltac:(field_setter Server_eta sv_tracker).
Definition set_activeStreams : Z → Server → Server := ltac:(field_setter Server_eta sv_activeStreams).
Definition set_dirty : bool → Server → Server := ltac:(field_setter Server_eta sv_dirty).
Definition set_debounce : option string → Server → Server := ltac:(field_setter Server_eta sv_debounce).
Definition set_shutdown : bool → Server → Server := ltac:(field_setter Server_eta sv_shutdown).

Definition incrementStreams (s : Server) : Server := set_activeStreams (wrap64 (sv_activeStreams s + 1)) s.
Definition decrementStreams (s : Server) : Server := set_activeStreams (wrap64 (sv_activeStreams s - 1)) s.

(** [ReportStatus]. *)
Definition ReportStatus (p : Peer) (now : Z) (req : AgentStatus) (s : Server) : Server * option peer_error :=
  match validatePeerNodeName p (ar_NodeName req) with
  | Some e => (s, Some e)
  | None =>
      let s := set_statusMap (storeAgentStatus now req (sv_statusMap s)) s in
      (if str_empty (ar_ClusterName req) then s
       else set_tracker (UpdateAgentStatus now (ar_ClusterName req) (ar_NodeName req) (ar_Healthy req) (sv_tracker s)) s, None)
  end.

(** [TriggerUpdate] stops the armed timer and arms a new one. *)
Definition TriggerUpdate (nodeName : string) (s : Server) : Server := set_debounce (Some nodeName) (set_dirty true s).

Definition doTrigger (nodeName : string) (s : Server) : outcome Server :=
  outcome_bind (if str_empty nodeName then NotifyAll (sv_cache s) else Notify nodeName (sv_cache s)) (λ c, Returns (set_cache c s)).

Definition Shutdown (s : Server) : outcome Server :=
  if sv_shutdown s then Panics else Returns (set_shutdown true (set_debounce None s)).

(** ** A stream

    The phases of [StreamConfig] are the operations it blocks on. *)

Inductive phase :=
  | FirstBuild
  | FirstSend (s : ConfigSnapshot)
  | Subscribing
  | Waiting
  | Rebuilding
  | Sending (s : ConfigSnapshot).

(** [st_sent] is what the agent has received on the stream, in order; [st_torn]
    tells whether the resources have changed since the phase began. *)
Record stream := mkStream {
  st_req : StreamConfigRequest; st_phase : phase; st_lastVersion : string; st_sent : list ConfigSnapshot; st_torn : bool
}.

Definition at_phase (ph : phase) (t : stream) : stream := mkStream (st_req t) ph (st_lastVersion t) (st_sent t) false.
Definition sent (s : ConfigSnapshot) (ph : phase) (t : stream) : stream :=
  mkStream (st_req t) ph (Version s) (st_sent t ++ [s]) false.
Definition tear (t : stream) : stream := mkStream (st_req t) (st_phase t) (st_lastVersion t) (st_sent t) true.

Definition subscribed (ph : phase) : bool :=
  match ph with Waiting | Rebuilding | Sending _ => true | _ => false end.

(** The world: the resources in the cluster, whether a change of them has not
    reached the watch handlers yet, the callbacks of timers that have expired,
    the server and its open streams. *)
Record world := mkWorld {
  w_cfg : config; w_unseen : bool; w_firing : list string; w_server : Server; w_streams : gmap nat stream
}.

Definition with_server (s : Server) (w : world) : world := mkWorld (w_cfg w) (w_unseen w) (w_firing w) s (w_streams w).
Definition with_stream (sid : nat) (t : stream) (w : world) : world :=
  mkWorld (w_cfg w) (w_unseen w) (w_firing w) (w_server w) (<[sid := t]> (w_streams w)).

(** The head of [StreamConfig]. *)
Definition open_stream (sid : nat) (p : Peer) (now : Z) (req : StreamConfigRequest) (w : world) : world :=
  match validatePeerNodeName p (rq_NodeName req) with
  | Some _ => w
  | None =>
      let s := w_server w in
      let s := set_statusMap (updateAgentConnectionWithCluster now req true (sv_statusMap s)) s in
      let s :=
        if isRemote req then
          set_tracker (RegisterAgent now (mkRemoteAgentInfo (rq_NodeName req) (rq_ClusterName req) (rq_ClusterRegion req)
            (rq_ClusterZone req) (rq_AgentVersion req) true true now (rq_ClusterLabels req)) (sv_tracker s)) s
        else s in
      with_stream sid (mkStream req FirstBuild "" [] false) (with_server (incrementStreams s) w)
  end.

(** The deferred calls, last registered first. *)
Definition close_stream (sid : nat) (now : Z) (t : stream) (w : world) : outcome world :=
  let s := w_server w in
  outcome_bind
    (if subscribed (st_phase t) then
       outcome_bind (Unsubscribe (rq_NodeName (st_req t)) sid (sv_cache s)) (λ c, Returns (set_cache c s))
     else Returns s) (λ s,
  let s := decrementStreams s in
  let s :=
    if isRemote (st_req t) then
      set_tracker (UnregisterAgent now (rq_ClusterName (st_req t)) (rq_NodeName (st_req t)) (sv_tracker s)) s
    else s in
  let s := set_statusMap (updateAgentConnectionWithCluster now (st_req t) false (sv_statusMap s)) s in
  Returns (mkWorld (w_cfg w) (w_unseen w) (w_firing w) s (delete sid (w_streams w)))).

(** The snapshot of the stream's node for the present resources. *)
Definition build (t : stream) (w : world) : ConfigSnapshot := BuildSnapshot (w_cfg w) (rq_NodeName (st_req t)).
(** What a build returns: it lists one kind of resources after the other, so when
    the resources change while it runs it may see any mixture. *)
Definition built (seen : config) (t : stream) (w : world) : ConfigSnapshot :=
  BuildSnapshot (if st_torn t then seen else w_cfg w) (rq_NodeName (st_req t)).

(** [<-updateCh] *)
Definition receive (sid : nat) (c : Cache) : option Cache :=
  match ca_chans c !! sid with
  | Some (mkChan (_ :: buf) closed) =>
      Some (mkCache (ca_snapshots c) (ca_subscribers c) (<[sid := mkChan buf closed]> (ca_chans c)))
  | _ => None
  end.

Inductive event :=
  | EvChange (cfg : config) (* the resources change, and a watch handler will see it *)
  | EvSilent (cfg : config) (* they change without a trigger, as by most deletions *)
  | EvWatch (* a watch handler calls TriggerUpdate for all nodes *)
  | EvTrigger (nodeName : string) (* TriggerUpdate *)
  | EvTimer (* the debounce timer expires *)
  | EvDoTrigger (* a callback of the timer runs *)
  | EvReport (p : Peer) (now : Z) (req : AgentStatus)
  | EvCleanup (now : Z)
  | EvShutdown
  | EvOpen (sid : nat) (p : Peer) (now : Z) (req : StreamConfigRequest)
  | EvBuild (sid : nat) (now : Z) (seen : option config) (* a build ends, with what it listed, or fails *)
  | EvSend (sid : nat) (now : Z) (ok : bool) (* a send ends *)
  | EvSubscribe (sid : nat)
  | EvTick (sid : nat) (* the ticker of a stream *)
  | EvReceive (sid : nat) (* a notification of a stream *)
  | EvCancel (sid : nat) (now : Z). (* the context of a stream ends *)

(** The step of a stream, from the phase it is in. *)
Definition stream_step (sid : nat) (t : stream) (e : event) (w : world) : outcome world :=
  let s := w_server w in
  let node := rq_NodeName (st_req t) in
  match e, st_phase t with
  | EvBuild _ now (Some seen), FirstBuild =>
      Returns (with_stream sid (at_phase (FirstSend (built seen t w)) t)
        (with_server (set_cache (Cache_Set node (built seen t w) (sv_cache s)) s) w))
  | EvBuild _ now None, FirstBuild => close_stream sid now t w
  | EvSend _ now ok, FirstSend snapshot =>
      if ok then Returns (with_stream sid (sent snapshot Subscribing t) w) else close_stream sid now t w
  | EvSubscribe _, Subscribing =>
      Returns (with_stream sid (at_phase Waiting t) (with_server (set_cache (Subscribe node sid (sv_cache s)) s) w))
  | EvTick _, Waiting =>
      if sv_dirty s then Returns (with_stream sid (at_phase Rebuilding t) (with_server (set_dirty false s) w))
      else Returns w
  | EvReceive _, Waiting =>
      match receive sid (sv_cache s) with
      | Some c => Returns (with_stream sid (at_phase Rebuilding t) (with_server (set_cache c s) w))
      | None => Returns w
      end
  | EvBuild _ now (Some seen), Rebuilding =>
      if str_eqb (Version (built seen t w)) (st_lastVersion t) then Returns (with_stream sid (at_phase Waiting t) w)
      else Returns (with_stream sid (at_phase (Sending (built seen t w)) t) w)
  | EvBuild _ now None, Rebuilding => Returns (with_stream sid (at_phase Waiting t) w)
  | EvSend _ now ok, Sending snapshot =>
      if ok then
        Returns (with_stream sid (sent snapshot Waiting t)
          (with_server (set_cache (Cache_Set node snapshot (sv_cache s)) s) w))
      else close_stream sid now t w
  | EvCancel _ now, Waiting => close_stream sid now t w
  | _, _ => Returns w
  end.

Definition stream_of (e : event) : option nat :=
  match e with
  | EvBuild sid _ _ | EvSend sid _ _ | EvSubscribe sid | EvTick sid | EvReceive sid | EvCancel sid _ => Some sid
  | _ => None
  end.

Definition step (w : world) (e : event) : outcome world :=
  let s := w_server w in
  match e with
  | EvChange cfg => Returns (mkWorld cfg true (w_firing w) s (tear <$> w_streams w))
  | EvSilent cfg => Returns (mkWorld cfg (w_unseen w) (w_firing w) s (tear <$> w_streams w))
  | EvWatch => Returns (mkWorld (w_cfg w) false (w_firing w) (TriggerUpdate "" s) (w_streams w))
  | EvTrigger n => Returns (with_server (TriggerUpdate n s) w)
  | EvTimer =>
      match sv_debounce s with
      | Some n => Returns (mkWorld (w_cfg w) (w_unseen w) (w_firing w ++ [n]) (set_debounce None s) (w_streams w))
      | None => Returns w
      end
  | EvDoTrigger =>
      match w_firing w with
      | n :: l => outcome_bind (doTrigger n s) (λ s', Returns (mkWorld (w_cfg w) (w_unseen w) l s' (w_streams w)))
      | [] => Returns w
      end
  | EvReport p now req => Returns (with_server (ReportStatus p now req s).1 w)
  | EvCleanup now => Returns (with_server (set_statusMap (cleanupStaleAgents now (sv_statusMap s)) s) w)
  | EvShutdown => outcome_bind (Shutdown s) (λ s', Returns (with_server s' w))
  | EvOpen sid p now req =>
      (* a channel is made once, so stream identifiers are not reused *)
      if decide (w_streams w !! sid = None ∧ ca_chans (sv_cache s) !! sid = None) then Returns (open_stream sid p now req w)
      else Returns w
  | EvBuild sid _ _ | EvSend sid _ _ | EvSubscribe sid | EvTick sid | EvReceive sid | EvCancel sid _ =>
      match w_streams w !! sid with Some t => stream_step sid t e w | None => Returns w end
  end.

Fixpoint run (w : world) (es : list event) : outcome world :=
  match es with
  | [] => Returns w
  | e :: es' => outcome_bind (step w e) (λ w', run w' es')
  end.

(** ** Notifications *)

(** What a notification does to a channel: it stays open or closed, within its
    capacity, and is not emptied. *)
Definition chan_grows (c c' : chan) : Prop :=
  ch_closed c' = ch_closed c ∧ ((length (ch_buf c) ≤ chan_cap)%nat → (length (ch_buf c') ≤ chan_cap)%nat) ∧
  (ch_buf c ≠ [] → ch_buf c' ≠ []).

#[local] Instance chan_grows_preorder : PreOrder chan_grows.
Proof. split; [done|]. intros c1 c2 c3 (?&?&?) (?&?&?). split_and!; [congruence|auto..]. Qed.

Definition grows (m m' : gmap nat chan) : Prop := ∀ ch, option_Forall2 chan_grows (m !! ch) (m' !! ch).

#[local] Instance grows_preorder : PreOrder grows.
Proof.
  split; [by intros m ch; apply reflexivity|]. intros m1 m2 m3 H12 H23 ch.
  specialize (H12 ch). specialize (H23 ch). destruct H12; inversion H23; constructor. by etransitivity.
Qed.

Definition noted (m : gmap nat chan) (ch : nat) : Prop := ∃ c, m !! ch = Some c ∧ ch_buf c ≠ [].
Definition is_open (m : gmap nat chan) (ch : nat) : Prop := ∃ c, m !! ch = Some c ∧ ch_closed c = false.

Lemma grows_noted m m' ch : grows m m' → noted m ch → noted m' ch.
Proof. intros Hg (c & Hc & Hb). specialize (Hg ch). rewrite Hc in Hg. inversion Hg as [c0 c' (?&?&?) | ]; subst. exists c'. auto. Qed.

Lemma grows_open m m' ch : grows m m' → is_open m ch → is_open m' ch.
Proof.
  intros Hg (c & Hc & Hb). specialize (Hg ch). rewrite Hc in Hg. inversion Hg as [c0 c' (?&?&?) | ]; subst.
  exists c'. split; [done|congruence].
Qed.

Lemma try_send_open x c :
  ch_closed c = false → ∃ c', try_send x c = Returns c' ∧ chan_grows c c' ∧ ch_buf c' ≠ [].
Proof.
  intros Hc. unfold try_send. rewrite Hc. case_decide as Hl; eexists; (split; [done|]); split.
  - split_and!; simpl; [done|rewrite length_app; simpl; lia|by destruct (ch_buf c)].
  - simpl. by destruct (ch_buf c).
  - done.
  - intros E. rewrite E in Hl. simpl in Hl. unfold chan_cap in Hl. lia.
Qed.

Lemma notify_chans_ok n l m :
  (∀ ch, ch ∈ l → is_open m ch) →
  ∃ m', notify_chans n l m = Returns m' ∧ grows m m' ∧ ∀ ch, ch ∈ l → noted m' ch.
Proof.
  revert m. induction l as [|ch l IH]; intros m Hl; simpl.
  { exists m. split_and!; [done|done|]. by intros ch ?%not_elem_of_nil. }
  destruct (Hl ch) as (c & Hc & Ho); [by left|]. rewrite Hc. simpl.
  destruct (try_send_open n c Ho) as (c' & -> & Hg & Hb). simpl.
  assert (grows m (<[ch := c']> m)) as Hg'.
  { intros i. destruct (decide (i = ch)) as [->|]; [rewrite Hc, lookup_insert_eq; by constructor|].
    by rewrite lookup_insert_ne. }
  destruct (IH (<[ch := c']> m)) as (m' & -> & Hg'' & Hn).
  { intros i Hi. apply (grows_open m); [done|]. apply Hl. by right. }
  exists m'. split_and!; [done|by etransitivity|]. intros i [->|Hi]%elem_of_cons; [|by apply Hn].
  apply (grows_noted (<[ch := c']> m)); [done|]. exists c'. by rewrite lookup_insert_eq.
Qed.

Lemma notify_nodes_ok l m :
  (∀ n chs ch, (n, chs) ∈ l → ch ∈ chs → is_open m ch) →
  ∃ m', notify_nodes l m = Returns m' ∧ grows m m' ∧ ∀ n chs ch, (n, chs) ∈ l → ch ∈ chs → noted m' ch.
Proof.
  revert m. induction l as [|[n chs] l IH]; intros m Hl; simpl.
  { exists m. split_and!; [done|done|]. by intros ??? ?%not_elem_of_nil. }
  destruct (notify_chans_ok n chs m) as (m1 & -> & Hg1 & Hn1).
  { intros ch Hch. apply (Hl n chs); [by left|done]. }
  simpl. destruct (IH m1) as (m2 & -> & Hg2 & Hn2).
  { intros n' chs' ch Hin Hch. apply (grows_open m); [done|]. apply (Hl n' chs'); [by right|done]. }
  exists m2. split_and!; [done|by etransitivity|]. intros n' chs' ch [[= -> ->]|Hin]%elem_of_cons Hch.
  - apply (grows_noted m1); [done|]. by apply Hn1.
  - by apply (Hn2 n' chs').
Qed.

(** ** The invariant *)

Definition node_of (t : stream) : string := rq_NodeName (st_req t).

Definition is_subscriber (streams : gmap nat stream) (n : string) (sid : nat) : Prop :=
  ∃ t, streams !! sid = Some t ∧ node_of t = n ∧ subscribed (st_phase t) = true.

Definition chan_ok (c : chan) : Prop := ch_closed c = false ∧ (length (ch_buf c) ≤ chan_cap)%nat.

(** The subscribers of a node are its streams in the loop, each once, and each
    has its own open channel; the others have none. *)
Record cache_ok (streams : gmap nat stream) (c : Cache) : Prop := {
  cache_nodup n : NoDup (map_get [] (ca_subscribers c) n);
  cache_subs n sid : sid ∈ map_get [] (ca_subscribers c) n ↔ is_subscriber streams n sid;
  cache_chans sid t : streams !! sid = Some t →
    if subscribed (st_phase t) then ∃ ch, ca_chans c !! sid = Some ch ∧ chan_ok ch else ca_chans c !! sid = None
}.

(** No two consecutive snapshots of a stream have the same version. *)
Fixpoint no_repeat (l : list string) : Prop :=
  match l with
  | v :: ((v' :: _) as l') => v ≠ v' ∧ no_repeat l'
  | _ => True
  end.

(** What the agent has received: versions alternate, the last one is the
    stream's [lastVersion], and what is about to be sent is new. *)
Record stream_ok (t : stream) : Prop := {
  stream_no_repeat : no_repeat (Version <$> st_sent t);
  stream_last : match st_phase t with FirstBuild | FirstSend _ => st_sent t = []
                | _ => last (Version <$> st_sent t) = Some (st_lastVersion t) end;
  stream_new : ∀ s, st_phase t = Sending s → Version s ≠ st_lastVersion t
}.

Record server_inv (w : world) : Prop := {
  inv_active : sv_activeStreams (w_server w) = wrap64 (Z.of_nat (size (w_streams w)));
  inv_cache : cache_ok (w_streams w) (sv_cache (w_server w));
  inv_streams : map_Forall (λ _, stream_ok) (w_streams w)
}.

Lemma no_repeat_snoc l v : no_repeat l → (∀ v', last l = Some v' → v' ≠ v) → no_repeat (l ++ [v]).
Proof.
  induction l as [|v1 [|v2 l] IH]; simpl; [done|..].
  - intros _ Hl. split; [|done]. by apply Hl.
  - intros [Hne Hl] Hlast. split; [done|]. apply IH; [done|]. intros v' Hv'. by apply Hlast.
Qed.

(** *** Changes that keep the subscriptions *)

(** A stream moves between phases on the same side of the subscription, and
    channels grow or shrink within their bounds. *)
Lemma cache_ok_move streams c sid t t' snaps chans' :
  cache_ok streams c → streams !! sid = Some t → node_of t' = node_of t →
  subscribed (st_phase t') = subscribed (st_phase t) →
  (∀ i ch, ca_chans c !! i = Some ch → chan_ok ch → ∃ ch', chans' !! i = Some ch' ∧ chan_ok ch') →
  (∀ i, ca_chans c !! i = None → chans' !! i = None) →
  cache_ok (<[sid := t']> streams) (mkCache snaps (ca_subscribers c) chans').
Proof.
  intros [Hnd Hsub Hch] Ht Hn Hs Hok Hnone. split; simpl; [done|..].
  - intros n i. rewrite Hsub. unfold is_subscriber. destruct (decide (i = sid)) as [->|Hi].
    + rewrite lookup_insert_eq, Ht. naive_solver congruence.
    + by rewrite lookup_insert_ne.
  - intros i t0. destruct (decide (i = sid)) as [->|Hi].
    + rewrite lookup_insert_eq. intros [= <-]. rewrite Hs. specialize (Hch sid t Ht).
      destruct (subscribed (st_phase t)); [|by apply Hnone]. destruct Hch as (ch & E & Hc). by apply (Hok _ ch).
    + rewrite lookup_insert_ne by done. intros Hi0. specialize (Hch i t0 Hi0).
      destruct (subscribed (st_phase t0)); [|by apply Hnone]. destruct Hch as (ch & E & Hc). by apply (Hok _ ch).
Qed.

Lemma cache_ok_phase streams c sid t t' snaps :
  cache_ok streams c → streams !! sid = Some t → node_of t' = node_of t →
  subscribed (st_phase t') = subscribed (st_phase t) →
  cache_ok (<[sid := t']> streams) (mkCache snaps (ca_subscribers c) (ca_chans c)).
Proof. intros Hok Ht Hn Hs. apply (cache_ok_move _ _ _ t); eauto. Qed.

Lemma cache_ok_same streams c sid t t' :
  cache_ok streams c → streams !! sid = Some t → node_of t' = node_of t →
  subscribed (st_phase t') = subscribed (st_phase t) → cache_ok (<[sid := t']> streams) c.
Proof. intros Hok Ht Hn Hs. destruct c. by apply (cache_ok_phase _ _ _ t _ _ Hok). Qed.

Lemma cache_ok_grows streams c snaps chans' :
  cache_ok streams c → grows (ca_chans c) chans' → cache_ok streams (mkCache snaps (ca_subscribers c) chans').
Proof.
  intros [Hnd Hsub Hch] Hg. split; simpl; [done..|]. intros i t Ht. specialize (Hch i t Ht). specialize (Hg i).
  destruct (subscribed (st_phase t)).
  - destruct Hch as (ch & E & Ho & Hl). rewrite E in Hg. inversion Hg as [? ch' (Hc & Hlen & _)|]; subst.
    exists ch'. split; [done|]. split; [congruence|auto].
  - rewrite Hch in Hg. by inversion Hg.
Qed.

Lemma cache_ok_tear streams c : cache_ok streams c → cache_ok (tear <$> streams) c.
Proof.
  intros [Hnd Hsub Hch]. split; [done|..].
  - intros n i. rewrite Hsub. unfold is_subscriber. setoid_rewrite lookup_fmap_Some. naive_solver.
  - intros i t (t0 & <- & Ht)%lookup_fmap_Some. exact (Hch i t0 Ht).
Qed.

(** *** Subscribing and unsubscribing *)

Lemma map_get_insert {V} (d : V) m k v k' : map_get d (<[k := v]> m) k' = if decide (k = k') then v else map_get d m k'.
Proof. unfold map_get. case_decide; subst; [by rewrite lookup_insert_eq|by rewrite lookup_insert_ne]. Qed.

Lemma cache_ok_subscribe streams c sid t ph :
  cache_ok streams c → streams !! sid = Some t → subscribed (st_phase t) = false → subscribed ph = true →
  cache_ok (<[sid := at_phase ph t]> streams) (Subscribe (node_of t) sid c).
Proof.
  intros [Hnd Hsub Hch] Ht Hs Hph.
  assert (∀ n, sid ∉ map_get [] (ca_subscribers c) n) as Hnew.
  { intros n Hin. apply Hsub in Hin as (t0 & E & _ & Hs0). congruence. }
  split; simpl.
  - intros n. rewrite map_get_insert. case_decide; [|done]. subst. apply NoDup_app. split_and!; [done| |apply NoDup_singleton].
    intros x Hx ->%list_elem_of_singleton. by apply (Hnew (node_of t)).
  - intros n i. rewrite map_get_insert. unfold is_subscriber. destruct (decide (i = sid)) as [->|Hi].
    + rewrite lookup_insert_eq. case_decide as Hn.
      * rewrite elem_of_app, list_elem_of_singleton. split; [|by right]. intros _. exists (at_phase ph t). done.
      * split; [by intros []%Hnew|]. intros (t0 & [= <-] & Hn0 & _). by destruct Hn.
    + rewrite lookup_insert_ne by done. transitivity (i ∈ map_get [] (ca_subscribers c) n); [|apply Hsub].
      case_decide; [|done]. subst. rewrite elem_of_app, list_elem_of_singleton. naive_solver.
  - intros i t0. destruct (decide (i = sid)) as [->|Hi].
    + rewrite !lookup_insert_eq. intros [= <-]. simpl. rewrite Hph. eexists. split; [done|]. split; [done|simpl; lia].
    + rewrite !lookup_insert_ne by done. apply Hch.
Qed.

Lemma elem_of_delete_nodup (l : list nat) i x y : NoDup l → l !! i = Some x → y ∈ delete i l ↔ y ∈ l ∧ y ≠ x.
Proof.
  revert i. induction l as [|z l IH]; intros i Hnd Hi; [done|]. apply NoDup_cons in Hnd as [Hz Hnd].
  destruct i as [|i]; simpl in *.
  - injection Hi as ->. set_solver.
  - specialize (IH i Hnd Hi). apply list_elem_of_lookup_2 in Hi. set_solver.
Qed.

Lemma NoDup_delete (l : list nat) i : NoDup l → NoDup (delete i l).
Proof. intros Hnd. eapply sublist_NoDup; [done|apply sublist_delete]. Qed.

(** Leaving the loop never closes a channel twice. *)
Lemma Unsubscribe_ok streams c sid t :
  cache_ok streams c → streams !! sid = Some t → subscribed (st_phase t) = true →
  ∃ c', Unsubscribe (node_of t) sid c = Returns c' ∧ cache_ok (delete sid streams) c' ∧
    (∀ i, i ≠ sid → ca_chans c' !! i = ca_chans c !! i).
Proof.
  intros [Hnd Hsub Hch] Ht Hs. unfold Unsubscribe.
  assert (sid ∈ map_get [] (ca_subscribers c) (node_of t)) as Hin by (apply Hsub; by exists t).
  destruct (list_find_elem_of (λ x, x = sid) _ sid Hin eq_refl) as [[i x] Hf].
  rewrite Hf. apply list_find_Some in Hf as (Hi & -> & _).
  pose proof (Hch sid t Ht) as Hc. rewrite Hs in Hc. destruct Hc as (ch & Hc & Ho & _).
  unfold close_chan. rewrite Hc, Ho. simpl. eexists. split; [done|]. split; [split; simpl|].
  - intros n. rewrite map_get_insert. case_decide; [by apply NoDup_delete|done].
  - intros n j. rewrite map_get_insert. unfold is_subscriber. case_decide as Hn.
    + subst n. rewrite (elem_of_delete_nodup _ _ sid) by done. rewrite Hsub. unfold is_subscriber.
      setoid_rewrite lookup_delete_Some. naive_solver.
    + rewrite Hsub. unfold is_subscriber. setoid_rewrite lookup_delete_Some. naive_solver congruence.
  - intros j t0 [Hj Hj0]%lookup_delete_Some. rewrite lookup_insert_ne by done. by apply Hch.
  - simpl. intros j Hj. by rewrite lookup_insert_ne.
Qed.

Lemma cache_ok_remove streams c sid t :
  cache_ok streams c → streams !! sid = Some t → subscribed (st_phase t) = false → cache_ok (delete sid streams) c.
Proof.
  intros [Hnd Hsub Hch] Ht Hs. split; [done|..].
  - intros n j. rewrite Hsub. unfold is_subscriber. setoid_rewrite lookup_delete_Some. naive_solver congruence.
  - intros j t0 [Hj Hj0]%lookup_delete_Some. by apply Hch.
Qed.

Lemma cache_ok_open streams c sid t :
  cache_ok streams c → streams !! sid = None → ca_chans c !! sid = None → subscribed (st_phase t) = false →
  cache_ok (<[sid := t]> streams) c.
Proof.
  intros [Hnd Hsub Hch] Ht Hc Hs. split; [done|..].
  - intros n j. rewrite Hsub. unfold is_subscriber. setoid_rewrite lookup_insert_Some. naive_solver congruence.
  - intros j t0 [[<- <-]|[Hj Hj0]]%lookup_insert_Some; [by rewrite Hs|by apply Hch].
Qed.

(** *** Every event keeps the invariant *)

(** What the rest of the world sees of the end of a stream. *)
Record stream_closed (sid : nat) (w w' : world) : Prop := {
  closed_cfg : w_cfg w' = w_cfg w;
  closed_unseen : w_unseen w' = w_unseen w;
  closed_firing : w_firing w' = w_firing w;
  closed_debounce : sv_debounce (w_server w') = sv_debounce (w_server w);
  closed_streams : w_streams w' = delete sid (w_streams w);
  closed_chans i : i ≠ sid → ca_chans (sv_cache (w_server w')) !! i = ca_chans (sv_cache (w_server w)) !! i
}.

Lemma wrap64_pred n : wrap64 (wrap64 (Z.of_nat (S n)) - 1) = wrap64 (Z.of_nat n).
Proof.
  unfold wrap64. replace ((Z.of_nat (S n) + 2 ^ 63) mod 2 ^ 64 - 2 ^ 63 - 1 + 2 ^ 63) with
    ((Z.of_nat (S n) + 2 ^ 63) mod 2 ^ 64 + -1) by lia.
  rewrite Zplus_mod_idemp_l. do 2 f_equal. lia.
Qed.

Lemma wrap64_succ n : wrap64 (wrap64 (Z.of_nat n) + 1) = wrap64 (Z.of_nat (S n)).
Proof.
  unfold wrap64. replace ((Z.of_nat n + 2 ^ 63) mod 2 ^ 64 - 2 ^ 63 + 1 + 2 ^ 63) with
    ((Z.of_nat n + 2 ^ 63) mod 2 ^ 64 + 1) by lia.
  rewrite Zplus_mod_idemp_l. do 2 f_equal. lia.
Qed.

Lemma close_stream_ok sid now t w :
  server_inv w → w_streams w !! sid = Some t →
  ∃ w', close_stream sid now t w = Returns w' ∧ server_inv w' ∧ stream_closed sid w w'.
Proof.
  intros [Ha Hc Hs] Ht. unfold close_stream.
  assert (∃ c', (if subscribed (st_phase t) then
       outcome_bind (Unsubscribe (rq_NodeName (st_req t)) sid (sv_cache (w_server w))) (λ c, Returns (set_cache c (w_server w)))
     else Returns (w_server w)) = Returns (set_cache c' (w_server w)) ∧ cache_ok (delete sid (w_streams w)) c' ∧
     (∀ i, i ≠ sid → ca_chans c' !! i = ca_chans (sv_cache (w_server w)) !! i)) as (c' & -> & Hc' & Hch).
  { destruct (subscribed (st_phase t)) eqn:E.
    - destruct (Unsubscribe_ok _ _ _ _ Hc Ht E) as (c' & Hu & Hok & Hch). unfold node_of in Hu. rewrite Hu. by exists c'.
    - exists (sv_cache (w_server w)). split; [by destruct (w_server w)|]. split; [|done]. by apply (cache_ok_remove _ _ _ t). }
  simpl. eexists. split; [done|]. split; [|by split; simpl; destruct (isRemote (st_req t))].
  split; simpl; [|by destruct (isRemote (st_req t))|by apply map_Forall_delete].
  transitivity (wrap64 (sv_activeStreams (w_server w) - 1)); [by destruct (isRemote (st_req t))|].
  rewrite Ha, map_size_delete, Ht.
  destruct (size (w_streams w)) as [|n] eqn:E; [|simpl; by rewrite wrap64_pred].
  apply map_size_empty_inv in E. by rewrite E, lookup_empty in Ht.
Qed.

(** A stream event that moves the stream to [t'] and the cache to [c']. *)
Lemma move_inv w sid t t' srv :
  server_inv w → w_streams w !! sid = Some t → stream_ok t' →
  sv_activeStreams srv = sv_activeStreams (w_server w) → cache_ok (<[sid := t']> (w_streams w)) (sv_cache srv) →
  server_inv (with_stream sid t' (with_server srv w)).
Proof.
  intros [Ha Hc Hs] Ht Hok Hact Hcache. split; simpl; [|done|by apply map_Forall_insert_2].
  rewrite Hact, Ha, map_size_insert, Ht. done.
Qed.

Lemma with_server_id (w : world) : with_server (w_server w) w = w.
Proof. by destruct w. Qed.

(** The same with the server unchanged. *)
Lemma move_inv_same w sid t t' :
  server_inv w → w_streams w !! sid = Some t → stream_ok t' → node_of t' = node_of t →
  subscribed (st_phase t') = subscribed (st_phase t) → server_inv (with_stream sid t' w).
Proof.
  intros Hinv Ht Hok Hn Hs. pose proof (inv_cache _ Hinv) as Hc.
  pose proof (move_inv w sid t t' (w_server w) Hinv Ht Hok eq_refl) as Hm. rewrite with_server_id in Hm. apply Hm.
  by apply (cache_ok_same _ _ _ t).
Qed.

Lemma receive_ok sid c c' streams t :
  receive sid c = Some c' → cache_ok streams c → streams !! sid = Some t → subscribed (st_phase t) = true →
  (∀ i, i ≠ sid → ca_chans c' !! i = ca_chans c !! i) ∧
  cache_ok (<[sid := at_phase Rebuilding t]> streams) c'.
Proof.
  intros E Hc Ht Hs. unfold receive in E. destruct (ca_chans c !! sid) as [[[|x buf] cl]|] eqn:Hch; [done| |done].
  injection E as <-. split; [intros i Hi; simpl; by rewrite lookup_insert_ne|].
  apply (cache_ok_move _ _ _ t); [done|done|done|by rewrite Hs|..].
  - intros i ch Hi [Ho Hl]. destruct (decide (i = sid)) as [->|Hne].
    + rewrite lookup_insert_eq. rewrite Hch in Hi. injection Hi as <-. eexists. split; [done|]. split; simpl in *; [done|lia].
    + rewrite lookup_insert_ne by done. by exists ch.
  - intros i Hi. rewrite lookup_insert_ne; [done|]. intros ->. congruence.
Qed.

Lemma stream_ok_phase t ph :
  stream_ok t → (match ph with Waiting | Rebuilding => True | _ => False end) → subscribed (st_phase t) = true ∨ st_phase t = Subscribing →
  stream_ok (at_phase ph t).
Proof.
  intros [Hr Hl Hn] Hph Hs. split; simpl; [done| |by destruct ph].
  destruct ph; try done; destruct (st_phase t); try done; by destruct Hs.
Qed.

Lemma sent_ok t s ph :
  stream_ok t → st_phase t = Sending s ∨ st_phase t = FirstSend s → ph = Waiting ∨ ph = Subscribing → stream_ok (sent s ph t).
Proof.
  intros [Hr Hl Hn] Ht Hph.
  assert (last (Version <$> (st_sent t ++ [s])) = Some (Version s)) as Hlast by (rewrite fmap_app; apply last_snoc).
  split; simpl; [| by destruct Hph as [-> | ->] | by destruct Hph as [-> | ->]].
  rewrite fmap_app. apply no_repeat_snoc; [done|]. intros v' Hv'. destruct Ht as [Ht|Ht]; rewrite Ht in Hl.
  - rewrite Hl in Hv'. injection Hv' as <-. by apply not_eq_sym, Hn.
  - by rewrite Hl in Hv'.
Qed.

Lemma stream_step_ok sid t e w :
  server_inv w → w_streams w !! sid = Some t → ∃ w', stream_step sid t e w = Returns w' ∧ server_inv w'.
Proof.
  intros Hinv Ht. pose proof Hinv as [Ha Hc Hs]. pose proof (map_Forall_lookup_1 _ _ _ _ Hs Ht) as Hok.
  unfold stream_step. destruct e; try (eexists; done); destruct (st_phase t) eqn:Hph; try (eexists; done);
    try match goal with |- context [ if ?ok then _ else close_stream _ _ _ _ ] => destruct ok end; try destruct seen as [seen|]; try (eexists; done);
    try (destruct (close_stream_ok sid now t w Hinv Ht) as (w' & -> & Hw' & _); by exists w').
  - eexists. split; [done|]. apply (move_inv w sid t); try done.
    + destruct Hok as [Hr Hl Hn]. split; simpl; [done|by rewrite Hph in Hl|done].
    + apply (cache_ok_phase _ _ _ t); try done. by rewrite Hph.
  - case_match; eexists; (split; [done|]).
    all: apply (move_inv_same w sid t); try done; [|by rewrite Hph].
    + apply stream_ok_phase; [done|done|left; by rewrite Hph].
    + destruct Hok as [Hr Hl Hn]. split; simpl; [done|by rewrite Hph in Hl|]. intros s' [= <-].
      match goal with E : str_eqb _ _ = false |- _ => by apply bool_decide_eq_false_1 in E end.
  - eexists. split; [done|]. apply (move_inv_same w sid t); try done; [|by rewrite Hph].
    apply stream_ok_phase; [done|done|left; by rewrite Hph].
  - eexists. split; [done|]. apply (move_inv_same w sid t); [done|done|apply sent_ok; auto|done|by rewrite Hph].
  - eexists. split; [done|]. apply (move_inv w sid t); try done.
    + apply sent_ok; auto.
    + apply (cache_ok_phase _ _ _ t); try done. by rewrite Hph.
  - eexists. split; [done|]. apply (move_inv w sid t); try done.
    + apply stream_ok_phase; [done|done|by right].
    + apply cache_ok_subscribe; try done. by rewrite Hph.
  - case_match; [|by eexists]. eexists. split; [done|]. apply (move_inv w sid t); try done.
    + apply stream_ok_phase; [done|done|left; by rewrite Hph].
    + apply (cache_ok_same _ _ _ t); try done. by rewrite Hph.
  - case_match eqn:E; [|by eexists]. eexists. split; [done|]. apply (move_inv w sid t); try done.
    + apply stream_ok_phase; [done|done|left; by rewrite Hph].
    + eapply receive_ok; [done|done|done|by rewrite Hph].
Qed.

Context (visit_order : ∀ m, visit m ≡ₚ map_to_list m).

Lemma subscriber_open streams c n sid :
  cache_ok streams c → sid ∈ map_get [] (ca_subscribers c) n → is_open (ca_chans c) sid.
Proof.
  intros [Hnd Hsub Hch] (t & Ht & _ & Hs)%Hsub. specialize (Hch sid t Ht). rewrite Hs in Hch.
  destruct Hch as (ch & E & Ho & _). by exists ch.
Qed.

(** A trigger never sends on a closed channel, and an untargeted one reaches
    every stream in the loop. *)
Lemma doTrigger_ok n srv streams :
  cache_ok streams (sv_cache srv) →
  ∃ srv', doTrigger n srv = Returns srv' ∧ cache_ok streams (sv_cache srv') ∧
    sv_activeStreams srv' = sv_activeStreams srv ∧ sv_debounce srv' = sv_debounce srv ∧
    grows (ca_chans (sv_cache srv)) (ca_chans (sv_cache srv')) ∧
    (n = ""%string → ∀ sid t, streams !! sid = Some t → subscribed (st_phase t) = true → noted (ca_chans (sv_cache srv')) sid).
Proof.
  intros Hc. unfold doTrigger, str_empty. case_bool_decide as Hn.
  - unfold NotifyAll. destruct (notify_nodes_ok (visit (ca_subscribers (sv_cache srv))) (ca_chans (sv_cache srv)))
      as (m' & -> & Hg & Hnoted).
    { intros n' chs ch Hin Hch. rewrite visit_order in Hin. apply elem_of_map_to_list in Hin.
      apply (subscriber_open streams _ n'); [done|]. unfold map_get. by rewrite Hin. }
    simpl. eexists. split_and!; [done|by apply cache_ok_grows|done|done|done|].
    intros _ sid t Ht Hs. simpl. pose proof (proj2 (cache_subs _ _ Hc (node_of t) sid)) as Hin.
    unfold map_get in Hin. destruct (ca_subscribers (sv_cache srv) !! node_of t) as [chs|] eqn:E.
    + apply (Hnoted (node_of t) chs); [by rewrite visit_order, elem_of_map_to_list|]. apply Hin. by exists t.
    + simpl in Hin. exfalso. eapply not_elem_of_nil, Hin. by exists t.
  - unfold Notify. destruct (notify_chans_ok n (map_get [] (ca_subscribers (sv_cache srv)) n) (ca_chans (sv_cache srv)))
      as (m' & -> & Hg & Hnoted).
    { intros ch Hch. by apply (subscriber_open streams _ n). }
    simpl. eexists. split_and!; [done|by apply cache_ok_grows|done..].
Qed.

Lemma step_ok w e :
  server_inv w → (e = EvShutdown → sv_shutdown (w_server w) = false) → ∃ w', step w e = Returns w' ∧ server_inv w'.
Proof.
  intros Hinv Hsd. pose proof Hinv as [Ha Hc Hs].
  destruct e as [cfg|cfg| |n| | |p now req|now| |sid p now req|sid now seen|sid now ok|sid|sid|sid|sid now]; unfold step.
  11-16: destruct (w_streams w !! sid) as [t|] eqn:Ht; [by apply stream_step_ok|by exists w].
  1-2: eexists; (split; [done|]); split; simpl;
    [by rewrite map_size_fmap|by apply cache_ok_tear|by intros i t (t0 & <- & [Hr Hl Hn]%Hs)%lookup_fmap_Some].
  - by eexists.
  - by eexists.
  - destruct (sv_debounce (w_server w)); by eexists.
  - destruct (w_firing w) as [|n l]; [by eexists|].
    destruct (doTrigger_ok n (w_server w) _ Hc) as (s' & -> & Hc' & Ha' & _). simpl. eexists. split; [done|].
    split; simpl; [by rewrite Ha'|done|done].
  - eexists. split; [done|]. unfold ReportStatus. destruct (validatePeerNodeName p _); [cbn [fst]; by rewrite with_server_id|].
    split; simpl; by destruct (str_empty (ar_ClusterName req)).
  - by eexists.
  - unfold Shutdown. rewrite Hsd by done. by eexists.
  - case_decide as Hf; [|by eexists]. destruct Hf as [Hf1 Hf2]. eexists. split; [done|]. unfold open_stream.
    destruct (validatePeerNodeName p _); [done|]. split; simpl.
    + rewrite map_size_insert_None by done. rewrite <- wrap64_succ, <- Ha. by destruct (isRemote req).
    + apply cache_ok_open; [by destruct (isRemote req)|done|by destruct (isRemote req)|done].
    + apply map_Forall_insert_2; [by split|done].
Qed.

(** ** Reachable states *)

Definition initial (cfg : config) (srv_tracker : RemoteAgentTracker H) : world :=
  mkWorld cfg false [] (set_tracker srv_tracker NewServer) ∅.

Lemma initial_inv cfg tr : server_inv (initial cfg tr).
Proof.
  split; simpl; [done| |done]. split; simpl.
  - intros n. unfold map_get. rewrite lookup_empty. constructor.
  - intros n sid. unfold map_get, is_subscriber. rewrite lookup_empty. simpl. setoid_rewrite lookup_empty. set_solver.
  - intros sid t []%lookup_empty_Some.
Qed.

Definition is_shutdown (e : event) : bool := match e with EvShutdown => true | _ => false end.

Lemma step_shutdown w e w' :
  step w e = Returns w' → is_shutdown e = false → sv_shutdown (w_server w') = sv_shutdown (w_server w).
Proof.
  intros E He. destruct e; simpl in *; try done; unfold stream_step, close_stream, doTrigger, open_stream, ReportStatus in E;
    repeat (case_match; simplify_eq; simpl in *; try done);
    repeat match goal with E : outcome_bind ?x _ = _ |- _ => destruct x eqn:?; simpl in E; simplify_eq; simpl in * end;
    repeat (case_match; simplify_eq; simpl in *; try done).
  all: by simplify_eq.
Qed.

(** At most one shutdown, none when the server is already shut down. *)
Fixpoint one_shutdown (down : bool) (es : list event) : bool :=
  match es with
  | [] => true
  | e :: es' => if is_shutdown e then negb down && one_shutdown true es' else one_shutdown down es'
  end.

Lemma run_ok w es :
  server_inv w → one_shutdown (sv_shutdown (w_server w)) es = true → ∃ w', run w es = Returns w' ∧ server_inv w'.
Proof.
  revert w. induction es as [|e es IH]; intros w Hinv Hsd; simpl in *; [by exists w|].
  destruct (is_shutdown e) eqn:He.
  - destruct e; try done. apply andb_prop in Hsd as [Hd Hsd]. apply negb_true_iff in Hd.
    destruct (step_ok w EvShutdown Hinv (λ _, Hd)) as (w' & E & Hinv'). rewrite E. simpl. apply IH; [done|].
    simpl in E. unfold Shutdown in E. rewrite Hd in E. by injection E as <-.
  - destruct (step_ok w e Hinv) as (w' & E & Hinv'); [by intros ->|]. rewrite E. simpl. apply IH; [done|].
    by rewrite (step_shutdown _ _ _ E He).
Qed.

Lemma run_app w es1 es2 : run w (es1 ++ es2) = outcome_bind (run w es1) (λ w', run w' es2).
Proof. revert w. induction es1 as [|e es1 IH]; intros w; simpl; [done|]. destruct (step w e); [apply IH|done]. Qed.

(** Whatever streams open, fail and end, notifications fire, timers expire
    and agents report, in any order, the server does not panic (no send on a
    closed channel, no channel closed twice) as long as it is shut down at most
    once; the number of active streams is right; the subscribers of a node are
    exactly its streams in the loop, each with its own open channel of at most
    ten notifications; and no agent gets the same version twice in a row. *)
Theorem server_never_panics cfg tr es :
  one_shutdown false es = true → ∃ w, run (initial cfg tr) es = Returns w ∧ server_inv w.
Proof. intros Hsd. apply run_ok; [apply initial_inv|done]. Qed.

(** ** No update is lost silently *)

(** The version a stream has sent or is about to send. *)
Definition known (t : stream) : string :=
  match st_phase t with FirstSend s | Sending s => Version s | _ => st_lastVersion t end.

Definition building (t : stream) : bool := match st_phase t with FirstBuild | Rebuilding => true | _ => false end.

(** The stream is up to date, or it is building from resources that have not changed
    since. *)
Definition current (w : world) (t : stream) : Prop :=
  if building t then st_torn t = false else known t = Version (build t w).

(** A change is on its way to the stream: the watch handlers have not run, the
    timer is armed or has fired for all nodes, or the channel has a notification. *)
Definition in_flight (w : world) (sid : nat) : Prop :=
  w_unseen w = true ∨ sv_debounce (w_server w) = Some ""%string ∨ ""%string ∈ w_firing w ∨ noted (ca_chans (sv_cache (w_server w))) sid.

(** The streams that miss a change: all of them when it triggers nothing; those
    whose first build has begun to list and that have not subscribed when the
    notifications go out; those whose rebuild fails; and all of them when the
    armed timer is replaced by a targeted one or stopped by the shutdown. A later
    successful build from resources that do not change meanwhile makes up for it. *)
Definition unsubscribed (t : stream) : bool := match st_phase t with FirstSend _ | Subscribing => true | FirstBuild => st_torn t | _ => false end.

Definition missed (w : world) (e : event) (lost : gset nat) : gset nat :=
  match e with
  | EvSilent _ => dom (w_streams w)
  | EvTrigger n => if bool_decide (sv_debounce (w_server w) = Some ""%string ∧ n ≠ ""%string) then dom (w_streams w) else lost
  | EvShutdown => if bool_decide (sv_debounce (w_server w) = Some ""%string) then dom (w_streams w) else lost
  | EvDoTrigger => lost ∪ dom (filter (λ kv, unsubscribed kv.2 = true) (w_streams w))
  | EvBuild sid _ seen =>
      match w_streams w !! sid with
      | Some t => if building t then match seen with Some _ => if st_torn t then lost else lost ∖ {[ sid ]} | None => lost ∪ {[ sid ]} end else lost
      | None => lost
      end
  | _ => lost
  end.

Fixpoint run_missed (w : world) (es : list event) (lost : gset nat) : gset nat :=
  match es with
  | [] => lost
  | e :: es' => match step w e with Returns w' => run_missed w' es' (missed w e lost) | Panics => lost end
  end.

Definition delivered (w : world) (lost : gset nat) : Prop :=
  ∀ sid t, w_streams w !! sid = Some t → sid ∉ lost → current w t ∨ in_flight w sid.

(** *** Events that leave a stream alone *)

(** A stream keeps its guarantee when what it depends on is kept. *)
Lemma delivered_same w w' sid t :
  current w t ∨ in_flight w sid → w_cfg w' = w_cfg w → w_unseen w' = w_unseen w →
  (sv_debounce (w_server w) = Some ""%string → sv_debounce (w_server w') = Some ""%string) → w_firing w' = w_firing w →
  (noted (ca_chans (sv_cache (w_server w))) sid → noted (ca_chans (sv_cache (w_server w'))) sid) →
  current w' t ∨ in_flight w' sid.
Proof.
  intros Hd Hcfg Hu Hdb Hf Hn. unfold current, build, in_flight in *. rewrite Hcfg, Hu, Hf. naive_solver.
Qed.

(** The end of another stream. *)
Lemma delivered_close sid w w' lost lost' :
  delivered w lost → stream_closed sid w w' → (∀ i, i ≠ sid → i ∈ lost → i ∈ lost') → delivered w' lost'.
Proof.
  intros Hd [Hcfg Hu Hf Hdb Hst Hch] Hl i t Ht Hi. rewrite Hst in Ht. apply lookup_delete_Some in Ht as [Hne Ht].
  apply (delivered_same w); try done; [apply Hd; naive_solver|by rewrite Hdb|]. unfold noted. by rewrite Hch.
Qed.

(** A step of a stream that keeps the channels of the others. *)
Lemma delivered_move sid t' srv w lost lost' :
  delivered w lost → (∀ i, i ≠ sid → i ∈ lost → i ∈ lost') →
  sv_debounce srv = sv_debounce (w_server w) →
  (∀ i, i ≠ sid → ca_chans (sv_cache srv) !! i = ca_chans (sv_cache (w_server w)) !! i) →
  (sid ∉ lost' → current w t' ∨ in_flight (with_stream sid t' (with_server srv w)) sid) →
  delivered (with_stream sid t' (with_server srv w)) lost'.
Proof.
  intros Hd Hl Hdb Hch Hsid i t Ht Hi. simpl in Ht. apply lookup_insert_Some in Ht as [[<- <-]|[Hne Ht]]; [by apply Hsid|].
  apply (delivered_same w); try done; [apply Hd; naive_solver|simpl; by rewrite Hdb|]. unfold noted. simpl. by rewrite Hch.
Qed.

Lemma delivered_move_same sid t' w lost lost' :
  delivered w lost → (∀ i, i ≠ sid → i ∈ lost → i ∈ lost') → (sid ∉ lost' → current w t' ∨ in_flight w sid) →
  delivered (with_stream sid t' w) lost'.
Proof.
  intros Hd Hl Hsid. pose proof (delivered_move sid t' (w_server w) w lost lost' Hd Hl eq_refl) as Hm. rewrite with_server_id in Hm. by apply Hm.
Qed.

(** A stream that is not building keeps its guarantee with the version it
    knows. *)
Lemma keeps_known w sid t t' :
  current w t ∨ in_flight w sid → known t' = known t → st_req t' = st_req t → building t = false → building t' = false →
  current w t' ∨ in_flight w sid.
Proof. unfold current, build. intros Hd Ek Er Hb Hb'. rewrite Hb in Hd. by rewrite Hb', Ek, Er. Qed.

(** A build whose resources have not changed sees them. *)
Lemma built_untorn seen t w : st_torn t = false → built seen t w = build t w.
Proof. unfold built, build. by intros ->. Qed.

Lemma delivered_stream_step sid t e w w' lost :
  server_inv w → delivered w lost → w_streams w !! sid = Some t → stream_of e = Some sid → stream_step sid t e w = Returns w' →
  delivered w' (missed w e lost).
Proof.
  intros Hinv Hd Ht He E.
  assert (building t = match st_phase t with FirstBuild | Rebuilding => true | _ => false end) as Hb by done.
  unfold stream_step in E. destruct e; try done; injection He as ->; cbn [missed]; rewrite ?Ht, ?Hb;
    destruct (st_phase t) eqn:Hph; simplify_eq; try done; try destruct ok; try destruct seen as [seen|]; simplify_eq; try done;
    try (destruct (close_stream_ok sid now t w Hinv Ht) as (w2 & E2 & _ & Hcl); rewrite E2 in E; simplify_eq;
         apply (delivered_close sid w _ lost); set_solver).
  - (* first build *) apply (delivered_move _ _ _ _ lost); [done|destruct (st_torn t); set_solver|done|done|].
    destruct (st_torn t) eqn:Htorn; intros Hsid.
    + destruct (Hd sid t Ht Hsid) as [Hc|Hf]; [|by right]. unfold current in Hc. rewrite Hb in Hc. congruence.
    + left. rewrite built_untorn by done. done.
  - (* rebuild *) destruct (str_eqb _ _) eqn:Ev; simplify_eq; apply (delivered_move_same _ _ _ lost); try done; try (destruct (st_torn t); set_solver).
    all: destruct (st_torn t) eqn:Htorn; intros Hsid;
      [destruct (Hd sid t Ht Hsid) as [Hc|Hf]; [unfold current in Hc; rewrite Hb in Hc; congruence|by right]|left; rewrite built_untorn in * by done].
    + by apply bool_decide_eq_true_1 in Ev.
    + done.
  - (* failed rebuild *) apply (delivered_move_same _ _ _ lost); [done|set_solver|set_solver].
  - (* first send *) apply (delivered_move_same _ _ _ lost); [done|done|]. intros Hsid.
    apply (keeps_known _ _ t); [by apply Hd|unfold known; by rewrite Hph|done..].
  - (* send *) apply (delivered_move _ _ _ _ lost); [done|done|done|done|]. intros Hsid.
    apply (keeps_known w sid t); [by apply Hd|unfold known; by rewrite Hph|done..].
  - (* subscribe *) apply (delivered_move _ _ _ _ lost); [done|done|done| |].
    + intros i Hi. simpl. by rewrite lookup_insert_ne.
    + intros Hsid. pose proof (cache_chans _ _ (inv_cache _ Hinv) sid t Ht) as Hn. rewrite Hph in Hn. simpl in Hn.
      destruct (keeps_known w sid t (at_phase Waiting t)) as [Hc|Hfl];
        [by apply Hd|unfold known; by rewrite Hph|done..|by left|]. right. unfold in_flight in *.
      unfold noted in Hfl at 1. rewrite Hn in Hfl. simpl in *. naive_solver.
  - (* tick *) case_match; simplify_eq; [|done]. apply (delivered_move _ _ _ _ lost); [done|done|done|done|]. intros _. by left.
  - (* receive *) destruct (receive sid (sv_cache (w_server w))) as [c|] eqn:Er; simplify_eq; [|done].
    apply (delivered_move _ _ _ _ lost); [done|done|done| |].
    + eapply receive_ok; [done|apply (inv_cache _ Hinv)|done|by rewrite Hph].
    + intros _. by left.
Qed.

(** Events of the environment, which do not move streams. *)
Lemma delivered_env w w' lost :
  delivered w lost → w_streams w' = w_streams w → w_cfg w' = w_cfg w → w_unseen w' = w_unseen w →
  (sv_debounce (w_server w) = Some ""%string → sv_debounce (w_server w') = Some ""%string) → w_firing w' = w_firing w →
  ca_chans (sv_cache (w_server w')) = ca_chans (sv_cache (w_server w)) → delivered w' lost.
Proof.
  intros Hd Hst Hcfg Hu Hdb Hf Hc sid t Ht Hsid. apply (delivered_same w); try done; [apply Hd; congruence|by rewrite Hc].
Qed.

Lemma delivered_step w e w' lost :
  server_inv w → delivered w lost → step w e = Returns w' → delivered w' (missed w e lost).
Proof.
  intros Hinv Hd E.
  destruct (stream_of e) as [sid|] eqn:He.
  { assert (∀ sid', stream_of e = Some sid' → step w e = match w_streams w !! sid' with Some t => stream_step sid' t e w | None => Returns w end) as Hs
      by (intros sid'; destruct e; try done; intros [= ->]; done).
    rewrite (Hs sid He) in E. destruct (w_streams w !! sid) as [t|] eqn:Ht; [by eapply delivered_stream_step|].
    injection E as <-. destruct e; try done. injection He as ->. simpl. by rewrite Ht. }
  destruct e as [cfg|cfg| |n| | |p now req|now| |sid p now req|sid now seen|sid now ok|sid|sid|sid|sid now]; try done; simpl in E; cbn [missed].
  - injection E as <-. intros sid t Ht Hl. right. by left.
  - injection E as <-. intros sid t (t0 & _ & Ht)%lookup_fmap_Some Hl. destruct Hl. by apply elem_of_dom_2 in Ht.
  - injection E as <-. intros sid t Ht Hl. right. right. by left.
  - injection E as <-. case_bool_decide as Hc.
    + intros sid t Ht Hl. simpl in Ht. destruct Hl. by apply elem_of_dom_2 in Ht.
    + apply (delivered_env w); try done. simpl. intros Hdb. destruct (decide (n = ""%string)) as [->|]; [done|]. by destruct Hc.
  - destruct (sv_debounce (w_server w)) as [n|] eqn:Hdb; injection E as <-; [|done].
    intros sid t Ht Hl. simpl in Ht. destruct (Hd sid t Ht Hl) as [Hc|Hf]; [by left|]. right. unfold in_flight in *. rewrite Hdb in Hf.
    simpl. setoid_rewrite elem_of_app. setoid_rewrite list_elem_of_singleton. naive_solver.
  - destruct (w_firing w) as [|n l] eqn:Hf.
    { injection E as <-. intros sid t Ht Hl. apply Hd; [done|set_solver]. }
    destruct (doTrigger_ok n (w_server w) _ (inv_cache _ Hinv)) as (s' & Es & Hc' & Ha' & Hdb & Hg & Hn).
    rewrite Es in E. simpl in E. injection E as <-. intros sid t Ht Hl. simpl in Ht.
    assert (current w t ∨ in_flight w sid) as [Hcur|Hfl] by (apply Hd; [done|set_solver]); [by left|].
    destruct (decide (n = ""%string)) as [->|Hne].
    + destruct (subscribed (st_phase t)) eqn:Hs; [right; do 3 right; by apply (Hn eq_refl _ t)|].
      destruct (unsubscribed t) eqn:Hu.
      * destruct Hl. apply elem_of_union_r, (elem_of_dom_2 _ _ t), map_lookup_filter_Some. done.
      * left. unfold unsubscribed in Hu. unfold current, building. by destruct (st_phase t).
    + right. unfold in_flight in *. simpl. rewrite Hdb, Hf in *. rewrite elem_of_cons in Hfl.
      pose proof (grows_noted _ _ sid Hg). naive_solver.
  - injection E as <-. unfold ReportStatus. apply (delivered_env w); try done; simpl;
      by destruct (validatePeerNodeName p _), (str_empty (ar_ClusterName req)).
  - injection E as <-. by apply (delivered_env w).
  - unfold Shutdown in E. destruct (sv_shutdown (w_server w)); [done|]. simpl in E. injection E as <-. case_bool_decide as Hc.
    + intros sid t Ht Hl. simpl in Ht. destruct Hl. by apply elem_of_dom_2 in Ht.
    + by apply (delivered_env w).
  - case_decide; injection E as <-; [|done]. unfold open_stream. destruct (validatePeerNodeName p _); [done|].
    intros i t Ht Hi. simpl in Ht. apply lookup_insert_Some in Ht as [[<- <-]|[Hne Ht]]; [by left|].
    apply (delivered_same w); try done; simpl; [by apply Hd|by destruct (isRemote req)..].
Qed.

(** C37: announced changes reach the streams that have not missed one. Along any run of
    the server, every open stream outside of [run_missed] is up to date with the
    resources of the cluster, or is building from them, or a change is on its way
    to it: not yet seen by the watch handlers, waiting for the debounce timer, or
    in its channel. A stream is in [run_missed] after a change that triggers
    nothing, as the deletion of most resources; after a notification between the
    listing of its first build and its subscription; after a failed rebuild; and
    after a targeted trigger or the shutdown stopped the timer; until it builds
    again from resources that do not change while they are listed. *)
Theorem no_update_is_lost cfg tr es w :
  run (initial cfg tr) es = Returns w → delivered w (run_missed (initial cfg tr) es ∅).
Proof.
  assert (∀ es w0 lost, server_inv w0 → delivered w0 lost → run w0 es = Returns w → delivered w (run_missed w0 es lost)) as Hrun.
  { clear es. induction es as [|e es IH]; intros w0 lost Hinv Hd E; simpl in *; [by injection E as <-|].
    destruct (step w0 e) as [w1|] eqn:E1; [|done]. simpl in E. apply IH; [|by eapply delivered_step|done].
    destruct (step_ok w0 e Hinv) as (w2 & E2 & Hinv2); [|by rewrite E1 in E2; injection E2 as ->].
    intros ->. simpl in E1. unfold Shutdown in E1. by destruct (sv_shutdown (w_server w0)). }
  apply Hrun; [apply initial_inv|]. intros sid t Ht. simpl in Ht. by rewrite lookup_empty in Ht.
Qed.

(** ** A trigger brings a stream up to date *)

(** The watch handlers run, the timer expires, its callbacks run, the stream
    receives the notification, builds and sends. *)
Definition refresh (w : world) (sid : nat) (now : Z) : list event :=
  [EvWatch; EvTimer] ++ replicate (S (length (w_firing w))) EvDoTrigger ++
  [EvReceive sid; EvBuild sid now (Some (w_cfg w)); EvSend sid now true].

(** Running all callbacks of the timer, the last of which is for all nodes. *)
Lemma callbacks_run l w sid t :
  server_inv w → w_firing w = l ++ [""%string] → w_streams w !! sid = Some t → subscribed (st_phase t) = true →
  ∃ w', run w (replicate (S (length l)) EvDoTrigger) = Returns w' ∧ server_inv w' ∧ w_cfg w' = w_cfg w ∧
    w_streams w' = w_streams w ∧ noted (ca_chans (sv_cache (w_server w'))) sid.
Proof.
  revert w. induction l as [|n l IH]; intros w Hinv Hf Ht Hs; [simpl|cbn [length]; rewrite replicate_S; cbn [run step]]; rewrite Hf; cbn [app].
  - destruct (doTrigger_ok ""%string (w_server w) _ (inv_cache _ Hinv)) as (s' & -> & Hc & Ha & _ & _ & Hn). simpl.
    eexists. split_and!; [done| |done|done|by apply (Hn eq_refl _ t)].
    destruct Hinv as [Ha0 Hc0 Hs0]. split; simpl; [by rewrite Ha|done|done].
  - destruct (doTrigger_ok n (w_server w) _ (inv_cache _ Hinv)) as (s' & -> & Hc & Ha & _). cbn [outcome_bind].
    edestruct (IH (mkWorld (w_cfg w) (w_unseen w) (l ++ [""%string]) s' (w_streams w))) as (w' & -> & Hw'); [|done|done|done|by exists w'].
    destruct Hinv as [Ha0 Hc0 Hs0]. split; simpl; [by rewrite Ha|done|done].
Qed.

(** From any reachable state, a trigger brings every stream in the loop up
    to date, also one that has missed earlier changes: after the watch
    handlers, the timer and its callbacks have run and the stream has received,
    built and sent, the last snapshot its agent has received has the version of
    the current resources, and it was sent only when the version is new. *)
Lemma trigger_brings_up_to_date cfg tr es w sid t now :
  run (initial cfg tr) es = Returns w → one_shutdown false es = true →
  w_streams w !! sid = Some t → st_phase t = Waiting →
  ∃ w' t', run w (refresh w sid now) = Returns w' ∧ w_streams w' !! sid = Some t' ∧ st_phase t' = Waiting ∧ w_cfg w' = w_cfg w ∧ st_req t' = st_req t ∧
    st_sent t' = st_sent t ++ (if str_eqb (Version (BuildSnapshot (w_cfg w) (node_of t))) (st_lastVersion t) then []
                               else [BuildSnapshot (w_cfg w) (node_of t)]) ∧
    last (Version <$> st_sent t') = Some (Version (BuildSnapshot (w_cfg w) (node_of t))).
Proof.
  intros Hrun Hsd Ht Hph.
  destruct (run_ok (initial cfg tr) es (initial_inv cfg tr) Hsd) as (w0 & E0 & Hinv). rewrite Hrun in E0. injection E0 as <-.
  set (w1 := mkWorld (w_cfg w) false (w_firing w ++ [""%string]) (set_debounce None (TriggerUpdate "" (w_server w))) (w_streams w)).
  unfold refresh. rewrite run_app. replace (run w [EvWatch; EvTimer]) with (Returns w1) by done. cbn [outcome_bind]. rewrite run_app.
  assert (server_inv w1) as Hinv1 by (destruct Hinv as [Ha Hc Hs]; by split).
  destruct (callbacks_run (w_firing w) w1 sid t Hinv1 eq_refl Ht) as (w2 & -> & Hinv2 & Hcfg & Hst & c & Hc & Hb); [by rewrite Hph|].
  assert (w_streams w2 !! sid = Some t) as Ht2 by (by rewrite Hst).
  pose proof (map_Forall_lookup_1 _ _ _ _ (inv_streams _ Hinv2) Ht2) as [_ Hlast _]. rewrite Hph in Hlast.
  cbn [run step outcome_bind]. rewrite Ht2. cbn [stream_step]. rewrite Hph. unfold receive. rewrite Hc.
  destruct c as [[|x buf] cl]; [done|]. cbn [outcome_bind w_streams with_stream]. rewrite lookup_insert_eq.
  cbn [stream_step at_phase st_phase]. unfold built. simpl. rewrite Hcfg. simpl. fold (node_of t).
  destruct (str_eqb _ _) eqn:Ev; simpl; rewrite lookup_insert_eq; simpl; (eexists _, _; split; [done|]); simpl;
    rewrite lookup_insert_eq; (split_and!; [done|done|done|done| |]); simpl.
  - by rewrite app_nil_r.
  - apply bool_decide_eq_true_1 in Ev. by rewrite Hlast, Ev.
  - done.
  - rewrite fmap_app. apply last_snoc.
Qed.

End server.

(** ** Who may ask *)

(** The identities a client certificate proves: the agents of its SPIFFE URIs,
    or its common name when it has none. *)
Definition identities (cert : Certificate) : list string :=
  match omap agent_of_uri (crt_URIs cert) with
  | [] => if str_empty (crt_CommonName cert) then [] else [crt_CommonName cert]
  | l => l
  end.

Lemma validatePeer_identities cert certs n :
  validatePeerNodeName (TLSPeer (cert :: certs)) n = None ↔ n ∈ identities cert.
Proof.
  unfold validatePeerNodeName, identities, contains, str_empty, str_eqb.
  destruct (omap agent_of_uri (crt_URIs cert)) as [|a l]; repeat case_bool_decide; simpl; set_solver.
Qed.

Lemma agent_of_uri_path n : no_char "/" n = true → agent_of_uri ("spiffe", "/agent/" +:+ n)%string = Some n.
Proof.
  intros Hn. assert (Split "/" ("/agent/" +:+ n) = [""; "agent"; n]%string) as Hs.
  { change ("/agent/" +:+ n) with ("" +:+ String "/" ("agent" +:+ String "/" n)). by rewrite !Split_app, Split_no_char. }
  unfold agent_of_uri. cbn [fst snd]. by rewrite Hs.
Qed.

(** A mesh certificate is issued only for an identity the client's own
    certificate proves, and the identity of the issued certificate, used as a
    client certificate again, proves that node and no other. *)
Theorem mesh_certificate_is_for_the_peer meshCA cert certs csr n resp cn :
  RequestMeshCertificate meshCA (TLSPeer (cert :: certs)) csr n = inr resp → no_char "/" n = true →
  n ∈ identities cert ∧
  ∃ td, mr_SpiffeId resp = "spiffe://" +:+ td +:+ "/agent/" +:+ n ∧
    ∀ n', validatePeerNodeName (TLSPeer [mkCertificate [("spiffe", "/agent/" +:+ n)%string] cn]) n' = None ↔ n' = n.
Proof.
  unfold RequestMeshCertificate. intros E Hn.
  destruct (validatePeerNodeName (TLSPeer (cert :: certs)) n) eqn:Ev; [done|]. apply validatePeer_identities in Ev. split; [done|].
  repeat (case_match; try done). injection E as <-. eexists. split; [done|]. intros n'.
  rewrite validatePeer_identities. unfold identities. simpl crt_URIs. cbn [omap list_omap]. rewrite agent_of_uri_path by done.
  apply list_elem_of_singleton.
Qed.

(** ** Witnesses and examples *)

(** Resources and snapshots are texts; a snapshot is its version. *)
Definition ex_build (cfg node : string) : string := cfg +:+ "@" +:+ node.
Definition ex_world := @world string string RemoteClusterRegistry.
Definition ex_run : ex_world → list event → outcome ex_world := run id ex_build map_to_list.
Definition ex_init : ex_world := initial "c1"%string NewRemoteAgentTracker.

Definition agent_req (node cluster : string) : StreamConfigRequest := mkStreamConfigRequest node "1.0" cluster "" "" ∅.

(** A stream that is opened, served and subscribed. *)
Definition served (sid : nat) (node : string) : list (@event string) :=
  [EvOpen sid NoPeer 0 (agent_req node ""); EvBuild sid 0 (Some "c1"%string); EvSend sid 0 true; EvSubscribe sid].

(** A change that reaches the callbacks of the timer. *)
Definition announced (cfg : string) : list (@event string) := [EvChange cfg; EvWatch; EvTimer; EvDoTrigger].

Lemma server_never_panics_witness :
  ∃ w, ex_run ex_init (served 1 "n1" ++ served 2 "n1" ++ announced "c2" ++ [EvReceive 1; EvBuild 1 5 (Some "c2"%string); EvSend 1 5 false; EvShutdown]) = Returns w
    ∧ server_inv id w.
Proof.
  apply (server_never_panics id ex_build map_to_list (λ m, reflexivity _) "c1"%string). reflexivity.
Defined.

Lemma no_update_is_lost_witness :
  ∃ w, ex_run ex_init (served 1 "n1" ++ announced "c2") = Returns w ∧
    run_missed id ex_build map_to_list ex_init (served 1 "n1" ++ announced "c2") ∅ = ∅ ∧
    ∀ t, w_streams w !! 1%nat = Some t → current id ex_build w t ∨ in_flight w 1.
Proof.
  destruct (ex_run ex_init (served 1 "n1" ++ announced "c2")) as [w|] eqn:E; [|by vm_compute in E].
  exists w. split; [done|]. split; [by vm_compute|]. intros t Ht.
  apply (no_update_is_lost id ex_build map_to_list (λ m, reflexivity _) _ _ _ _ E 1%nat t Ht). by vm_compute.
Defined.

Lemma trigger_brings_up_to_date_witness :
  ∃ w t, ex_run ex_init (served 1 "n1" ++ [EvChange "c2"%string]) = Returns w ∧ w_streams w !! 1%nat = Some t ∧
  ∃ w' t', ex_run w (refresh w 1 9) = Returns w' ∧ w_streams w' !! 1%nat = Some t' ∧ last (st_sent t') = Some "c2@n1"%string.
Proof.
  destruct (ex_run ex_init (served 1 "n1" ++ [EvChange "c2"%string])) as [w|] eqn:E; [|by vm_compute in E].
  exists w. destruct (w_streams w !! 1%nat) as [t|] eqn:Ht; [|by revert Ht; vm_compute in E; injection E as <-].
  exists t. split; [done|]. split; [done|].
  destruct (trigger_brings_up_to_date id ex_build map_to_list (λ m, reflexivity _) _ _ _ _ 1%nat t 9 E eq_refl Ht) as (w' & t' & Hr & Ht' & _ & _ & _ & _ & Hl).
  { revert Ht. vm_compute in E. injection E as <-. vm_compute. intros [= <-]. reflexivity. }
  exists w', t'. split; [done|]. split; [done|]. rewrite list_fmap_id in Hl. rewrite Hl.
  revert Ht. vm_compute in E. injection E as <-. vm_compute. intros [= <-]. reflexivity.
Defined.

(** A change that is announced between the first build of a stream and its
    subscription does not reach it; the dirty flag, which the ticker of the
    stream relies on, is cleared by the ticker of another stream. The stream
    then waits with an old version and nothing is in flight. *)
Example update_missed_before_subscription :
  match ex_run ex_init (served 2 "n2" ++ [EvOpen 1 NoPeer 0 (agent_req "n1" ""); EvBuild 1 0 (Some "c2"%string)] ++ announced "c2" ++
          [EvSend 1 0 true; EvSubscribe 1; EvTick 2; EvBuild 2 0 (Some "c2"%string); EvSend 2 0 true; EvReceive 2; EvBuild 2 0 (Some "c2"%string); EvTick 1; EvReceive 1]) with
  | Returns w => (st_phase <$> w_streams w !! 1%nat, st_lastVersion <$> w_streams w !! 1%nat, w_cfg w, sv_dirty (w_server w),
                  ch_buf <$> ca_chans (sv_cache (w_server w)) !! 1%nat) =
                 (Some Waiting, Some "c1@n1", "c2", false, Some [])%string
  | Panics => False
  end.
Proof. by vm_compute. Qed.

(** The deletion of a resource triggers nothing: the stream keeps the old version, and
    nothing is in flight. *)
Example silent_change_is_missed :
  match ex_run ex_init (served 1 "n1" ++ [EvSilent "c2"%string; EvTick 1; EvReceive 1]) with
  | Returns w => (st_phase <$> w_streams w !! 1%nat, st_lastVersion <$> w_streams w !! 1%nat, w_cfg w, w_unseen w, sv_debounce (w_server w)) =
                 (Some Waiting, Some "c1@n1", "c2", false, None)%string
  | Panics => False
  end.
Proof. by vm_compute. Qed.

(** The end of an old stream marks an agent disconnected that has already
    opened a new one. *)
Example old_stream_disconnects_agent :
  match ex_run ex_init (served 1 "n1" ++ served 2 "n1" ++ [EvCancel 1 9]) with
  | Returns w => (size (w_streams w), as_Connected <$> sv_statusMap (w_server w) !! "n1"%string) = (1%nat, Some false)
  | Panics => False
  end.
Proof. by vm_compute. Qed.

(** An agent of another cluster reports every ten seconds and is marked
    disconnected all the same: its reports go to the entry of its node name,
    the connection is in the entry of its cluster and node. *)
Example remote_agent_expires :
  match ex_run ex_init ([EvOpen 1 NoPeer 0 (agent_req "n1" "spoke")] ++
          ((λ i, EvReport NoPeer (10 * i * Second) (mkAgentStatus "n1" "v1" true [] ∅ "spoke")) <$> [1; 2; 3; 4]) ++
          [EvCleanup (41 * Second)]) with
  | Returns w => (as_Connected <$> sv_statusMap (w_server w) !! "spoke/n1"%string, as_Connected <$> sv_statusMap (w_server w) !! "n1"%string,
                  size (w_streams w)) = (Some false, Some false, 1%nat)
  | Panics => False
  end.
Proof. by vm_compute. Qed.

(** A second shutdown closes the channel again. *)
Example second_shutdown_panics : ex_run ex_init [EvShutdown; EvShutdown] = Panics.
Proof. reflexivity. Qed.

Lemma mesh_certificate_is_for_the_peer_witness :
  "n1"%string ∈ identities (mkCertificate [("spiffe", "/agent/n1")] "")%string.
Proof.
  apply (mesh_certificate_is_for_the_peer (Some (mkMeshCA (λ _ _, Some ("pem"%string, 7)) "td" "ca")) (mkCertificate [("spiffe", "/agent/n1")] "")%string []
    "csr" "n1" (mkMeshCertificateResponse "pem" "ca" "spiffe://td/agent/n1" 7) "cn"); reflexivity.
Defined.
