(* ===== verification/AgentWatcher.v ===== *)
(** * The configuration watcher of the agent

    [src/internal/agent/config/watcher.go]: the agent keeps a stream to the
    controller, applies every snapshot it receives and reports its version. The
    goroutines run as events: the main loop ([Start], [connectWithRetry],
    [streamConfig]), the status reports it starts, and the calls of
    [ForceResync] by the gossip layer. The controller's side of the stream is
    [SnapshotServer]; here its messages are events too. What the agent does with
    a snapshot is an argument, [applyFunc], that changes the state of the agent
    and may fail. Where [select] has several ready cases the order of the events
    decides. *)

From S2P Require Import Prelude RemoteAgents SnapshotServer.
Open Scope Z_scope.

(** ** Construction *)

Record TLSConfig := mkTLSConfig { tc_CertFile : string; tc_KeyFile : string; tc_CAFile : string }.
Record ClusterConfig := mkClusterConfig { cl_Name : string; cl_Region : string; cl_Zone : string; cl_Labels : gmap string string }.

Inductive watcher_error :=
  | errTLSConfigurationIsIncomplete
  | errTLSConfigurationIsRequiredForRemoteAgents
  | errClusterConfigurationIsRequiredForRemoteAgents.

(** The settings of a watcher, which do not change. *)
Record Settings := mkSettings {
  ws_nodeName : string; ws_agentVersion : string; ws_controllerAddr : string;
  ws_tlsCertFile : string; ws_tlsKeyFile : string; ws_tlsCAFile : string; ws_tlsEnabled : bool;
  ws_clusterName : string; ws_clusterRegion : string; ws_clusterZone : string; ws_clusterLabels : gmap string string }.

Definition NewWatcher (nodeName agentVersion controllerAddr : string) : Settings :=
  mkSettings nodeName agentVersion controllerAddr "" "" "" false "" "" "" ∅.

Definition incomplete (t : option TLSConfig) : bool :=
  match t with None => true | Some t => str_empty (tc_CertFile t) || str_empty (tc_KeyFile t) || str_empty (tc_CAFile t) end.

Definition NewWatcherWithTLS (nodeName agentVersion controllerAddr : string) (tls : option TLSConfig) : watcher_error + Settings :=
  match tls with
  | Some t =>
      if incomplete tls then inl errTLSConfigurationIsIncomplete
      else inr (mkSettings nodeName agentVersion controllerAddr (tc_CertFile t) (tc_KeyFile t) (tc_CAFile t) true "" "" "" ∅)
  | None => inl errTLSConfigurationIsIncomplete
  end.

Definition NewRemoteWatcher (nodeName agentVersion controllerAddr : string) (tls : option TLSConfig)
    (cluster : option ClusterConfig) : watcher_error + Settings :=
  match tls with
  | Some t =>
      if incomplete tls then inl errTLSConfigurationIsRequiredForRemoteAgents else
      match cluster with
      | Some c =>
          if str_empty (cl_Name c) then inl errClusterConfigurationIsRequiredForRemoteAgents
          else inr (mkSettings nodeName agentVersion controllerAddr (tc_CertFile t) (tc_KeyFile t) (tc_CAFile t) true
                 (cl_Name c) (cl_Region c) (cl_Zone c) (cl_Labels c))
      | None => inl errClusterConfigurationIsRequiredForRemoteAgents
      end
  | None => inl errTLSConfigurationIsRequiredForRemoteAgents
  end.

Definition IsRemote (w : Settings) : bool := negb (str_empty (ws_clusterName w)).
Definition GetClusterName (w : Settings) : string := ws_clusterName w.

(** ** The loops *)

Definition maxBackoff : Z := 30 * Second.
Definition next_backoff (backoff : Z) : Z := let b := wrap64 (backoff * 2) in if decide (b > maxBackoff) then maxBackoff else b.

Section watcher.
Context {A Snapshot : Type} (Version : Snapshot → string) (applyFunc : A → Snapshot → A * bool).

Inductive recvResult := RecvSnapshot (s : Snapshot) | RecvError.

Inductive stop_reason := Cancelled | CredentialsFailed.

(** Where the main loop is: connecting with a delay after a failure, before
    [streamConfig], in its loop with the results that [Recv] has returned,
    between [applyFunc] and the store of the snapshot, waiting five seconds
    after an error, or returned. *)
Inductive phase :=
  | Connecting (backoff : Z)
  | Ready
  | Streaming (incoming : list recvResult)
  | Storing (s : Snapshot) (incoming : list recvResult)
  | RetryWait
  | Stopped (r : stop_reason).

(** The request of [streamConfig]: the fields the controller reads, and the
    last applied version. *)
Record Request := mkRequest { wr_request : StreamConfigRequest; wr_LastAppliedVersion : string }.

(** The agent: its settings, the snapshot pointer, the one-place channel of
    [ForceResync], the main loop, the started status reports, the state that
    [applyFunc] changes; and as history the delays, requests, reports and the
    snapshots applied with success. *)
Record agent := mkAgent {
  ag_settings : Settings;
  ag_current : option Snapshot;
  ag_resync : bool;
  ag_phase : phase;
  ag_reporting : nat;
  ag_state : A;
  ag_delays : list Z;
  ag_requests : list Request;
  ag_reports : list AgentStatus;
  ag_applied : list Snapshot;
}.

Definition agent_eta (a : agent) : agent :=
  mkAgent (ag_settings a) (ag_current a) (ag_resync a) (ag_phase a) (ag_reporting a) (ag_state a) (ag_delays a) (ag_requests a)
    (ag_reports a) (ag_applied a).
Definition set_current : option Snapshot → agent → agent := ltac:(field_setter agent_eta ag_current).
Definition set_resync : bool → agent → agent := ltac:(field_setter agent_eta ag_resync).
Definition set_phase : phase → agent → agent := ltac:(field_setter agent_eta ag_phase).
Definition set_reporting : nat → agent → agent := ltac:(field_setter agent_eta ag_reporting).
Definition set_state : A → agent → agent := ltac:(field_setter agent_eta ag_state).
Definition set_delays : list Z → agent → agent := ltac:(field_setter agent_eta ag_delays).
Definition set_requests : list Request → agent → agent := ltac:(field_setter agent_eta ag_requests).
Definition set_reports : list AgentStatus → agent → agent := ltac:(field_setter agent_eta ag_reports).
Definition set_applied : list Snapshot → agent → agent := ltac:(field_setter agent_eta ag_applied).

(** [Start] of a new watcher. *)
Definition Start (w : Settings) (st : A) : agent := mkAgent w None false (Connecting Second) 0 st [] [] [] [].

Definition appliedVersion (a : agent) : string := match ag_current a with Some s => Version s | None => "" end.

Definition request (a : agent) : Request :=
  let w := ag_settings a in
  mkRequest (mkStreamConfigRequest (ws_nodeName w) (ws_agentVersion w) (ws_clusterName w) (ws_clusterRegion w) (ws_clusterZone w)
    (ws_clusterLabels w)) (appliedVersion a).

(** The message of [reportStatus]. *)
Definition status (a : agent) : AgentStatus :=
  mkAgentStatus (ws_nodeName (ag_settings a)) (appliedVersion a) true [] ∅ (ws_clusterName (ag_settings a)).

Definition ForceResync (a : agent) : agent := set_resync true a.

Definition start_report (a : agent) : agent := set_reporting (S (ag_reporting a)) a.

(** One received result: an error ends the stream; a snapshot is applied. *)
Definition handle_result (r : recvResult) (rest : list recvResult) (a : agent) : agent :=
  match r with
  | RecvError => set_phase RetryWait a
  | RecvSnapshot s =>
      let '(st, ok) := applyFunc (ag_state a) s in
      if ok then set_phase (Storing s rest) (set_state st (set_applied (ag_applied a ++ [s]) a))
      else start_report (set_phase (Streaming rest) (set_state st a))
  end.

(** One attempt of [connectWithRetry]: credentials that cannot be loaded end
    the watcher, another failure is followed by a delay that doubles. *)
Definition connectWithRetry (creds_ok dial_ok : bool) (backoff : Z) (a : agent) : agent :=
  if ws_tlsEnabled (ag_settings a) && negb creds_ok then set_phase (Stopped CredentialsFailed) a
  else if dial_ok then set_phase Ready a
  else set_phase (Connecting (next_backoff backoff)) (set_delays (ag_delays a ++ [backoff]) a).

(** [streamConfig] reads the last applied version and opens its stream. *)
Definition open_request (ok : bool) (a : agent) : agent :=
  set_phase (if ok then Streaming [] else RetryWait) (set_requests (ag_requests a ++ [request a]) a).

Inductive event :=
  | EvCancel (* the context ends *)
  | EvDial (creds_ok dial_ok : bool) (* an attempt of connectWithRetry *)
  | EvOpen (ok : bool) (* streamConfig opens its stream *)
  | EvRecv (r : recvResult) (* Recv returns *)
  | EvTake (* the loop takes a result *)
  | EvStore (* the snapshot pointer is stored *)
  | EvResync (* the loop takes the resync request *)
  | EvTick (* the status ticker *)
  | EvReport (* a status report runs *)
  | EvRetry (* five seconds are over *)
  | EvForce. (* ForceResync is called *)

Definition failed (rs : list recvResult) : bool := existsb (λ r, match r with RecvError => true | _ => false end) rs.

Definition step (a : agent) (e : event) : agent :=
  match e, ag_phase a with
  | EvForce, _ => ForceResync a
  | EvReport, _ =>
      match ag_reporting a with
      | O => a
      | S n => set_reporting n (set_reports (ag_reports a ++ [status a]) a)
      end
  | _, Stopped _ => a
  | EvCancel, Storing _ _ => a
  | EvCancel, _ => set_phase (Stopped Cancelled) a
  | EvDial creds_ok dial_ok, Connecting backoff => connectWithRetry creds_ok dial_ok backoff a
  | EvOpen ok, Ready => open_request ok a
  | EvRecv r, Streaming rs => if failed rs then a else set_phase (Streaming (rs ++ [r])) a
  | EvRecv r, Storing s rs => if failed rs then a else set_phase (Storing s (rs ++ [r])) a
  | EvTake, Streaming (r :: rs) => handle_result r rs a
  | EvStore, Storing s rs => start_report (set_phase (Streaming rs) (set_current (Some s) a))
  | EvResync, Streaming _ => if ag_resync a then set_phase RetryWait (set_resync false a) else a
  | EvTick, Streaming _ => start_report a
  | EvRetry, RetryWait => set_phase Ready a
  | _, _ => a
  end.

Definition run (a : agent) (es : list event) : agent := foldl step a es.

(** ** What the agent reports *)

(** The version after [n] stored snapshots. *)
Definition version_after (applied : list Snapshot) (n : nat) : string :=
  match n with O => ""%string | S i => match applied !! i with Some s => Version s | None => "" end end.

Definition stored (a : agent) : nat :=
  match ag_phase a with Storing _ _ => pred (length (ag_applied a)) | _ => length (ag_applied a) end.

(** The delay after [n] failures. *)
Definition backoff_after (n : nat) : Z := Z.min (2 ^ Z.of_nat n * Second) maxBackoff.

(** Versions that were current one after the other. *)
Definition in_order (applied : list Snapshot) (bound : nat) (versions : list string) : Prop :=
  ∃ idx, Sorted le idx ∧ Forall (λ n, (n ≤ bound)%nat) idx ∧ versions = version_after applied <$> idx.

Record agent_inv (a : agent) : Prop := {
  inv_current : ag_current a = last (take (stored a) (ag_applied a));
  inv_storing s rs : ag_phase a = Storing s rs → last (ag_applied a) = Some s;
  inv_reports : in_order (ag_applied a) (stored a) (ar_AppliedConfigVersion <$> ag_reports a);
  inv_requests : in_order (ag_applied a) (stored a) (wr_LastAppliedVersion <$> ag_requests a);
  inv_delays : ag_delays a = backoff_after <$> seq 0 (length (ag_delays a));
  inv_backoff b : ag_phase a = Connecting b → b = backoff_after (length (ag_delays a));
}.

Lemma version_after_app applied s n : (n ≤ length applied)%nat → version_after (applied ++ [s]) n = version_after applied n.
Proof. intros Hn. destruct n as [|i]; [done|]. simpl. by rewrite lookup_app_l by lia. Qed.

Lemma stored_le a : (stored a ≤ length (ag_applied a))%nat.
Proof. unfold stored. destruct (ag_phase a); lia. Qed.

Lemma in_order_app applied s bound bound' vs :
  (bound ≤ length applied)%nat → (bound ≤ bound')%nat → in_order applied bound vs → in_order (applied ++ [s]) bound' vs.
Proof.
  intros Hb Hb' (idx & Hs & Hf & ->). exists idx. split; [done|]. split.
  - eapply Forall_impl; [done|]. simpl. lia.
  - apply list_fmap_ext. intros i n Hn. rewrite version_after_app; [done|]. apply (Forall_lookup_1 _ _ _ _ Hf) in Hn. simpl in Hn. lia.
Qed.

Lemma in_order_le applied bound bound' vs : (bound ≤ bound')%nat → in_order applied bound vs → in_order applied bound' vs.
Proof. intros Hb (idx & Hs & Hf & ->). exists idx. split; [done|]. split; [|done]. eapply Forall_impl; [done|]. simpl. lia. Qed.

Lemma in_order_snoc applied bound vs : in_order applied bound vs → in_order applied bound (vs ++ [version_after applied bound]).
Proof.
  intros (idx & Hs & Hf & ->). exists (idx ++ [bound]). split.
  - clear -Hs Hf. apply Sorted_StronglySorted in Hs; [|intros ???; lia]. apply StronglySorted_Sorted.
    apply StronglySorted_app. split; [|split; [done|repeat constructor]].
    intros x1 x2 Hx1 ->%list_elem_of_singleton. rewrite Forall_forall in Hf. by apply Hf.
  - split; [apply Forall_app; split; [done|by constructor]|]. by rewrite fmap_app.
Qed.

(** The version that a report or request carries. *)
Lemma appliedVersion_after a : agent_inv a → appliedVersion a = version_after (ag_applied a) (stored a).
Proof.
  intros [Hc _ _ _ _ _]. unfold appliedVersion. rewrite Hc. pose proof (stored_le a) as Hle. unfold version_after.
  destruct (stored a) as [|i]; [by rewrite take_0|]. destruct (lookup_lt_is_Some_2 (ag_applied a) i) as [s Hs]; [lia|].
  rewrite (take_S_r _ _ _ Hs), last_snoc. by rewrite Hs.
Qed.

Lemma next_backoff_after n : next_backoff (backoff_after n) = backoff_after (S n).
Proof.
  unfold next_backoff, backoff_after, maxBackoff, Second. rewrite Nat2Z.inj_succ, Z.pow_succ_r by lia.
  assert (0 < 2 ^ Z.of_nat n) as Hp by (apply Z.pow_pos_nonneg; lia).
  rewrite wrap64_small by (unfold int64_range, min_int64, max_int64; lia). case_decide; lia.
Qed.

(** A step that leaves the history alone keeps the invariant. *)
Lemma same_history a a' :
  agent_inv a → ag_current a' = ag_current a → ag_applied a' = ag_applied a → ag_reports a' = ag_reports a →
  ag_requests a' = ag_requests a → ag_delays a' = ag_delays a → stored a' = stored a →
  (∀ s rs, ag_phase a' = Storing s rs → ∃ rs', ag_phase a = Storing s rs') → (∀ b, ag_phase a' ≠ Connecting b) → agent_inv a'.
Proof.
  intros [I1 I2 I3 I4 I5 I6] E1 E2 E3 E4 E5 E6 E7 E8. split; rewrite ?E1, ?E2, ?E3, ?E4, ?E5, ?E6; try done.
  - intros s rs Hs. destruct (E7 s rs Hs) as [rs' Hs']. by eapply I2.
  - intros b Hb. by destruct (E8 b).
Qed.

Lemma report_inv a : agent_inv a → agent_inv (set_reports (ag_reports a ++ [status a]) a).
Proof.
  intros Hinv. pose proof (appliedVersion_after a Hinv) as Hv. destruct Hinv as [I1 I2 I3 I4 I5 I6]. split; simpl; try done.
  rewrite fmap_app. simpl. rewrite Hv. by apply in_order_snoc.
Qed.

Lemma open_inv a (ok : bool) :
  agent_inv a → ag_phase a = Ready →
  agent_inv (open_request ok a).
Proof.
  intros Hinv Hph. pose proof (appliedVersion_after a Hinv) as Hv. destruct Hinv as [I1 I2 I3 I4 I5 I6].
  unfold stored in I1, I3, I4, Hv. rewrite Hph in I1, I3, I4, Hv.
  split; unfold stored; simpl; destruct ok; simpl; try done; rewrite fmap_app; simpl; rewrite Hv; by apply in_order_snoc.
Qed.

Lemma dial_inv a b creds dial : agent_inv a → ag_phase a = Connecting b → agent_inv (step a (EvDial creds dial)).
Proof.
  intros [I1 I2 I3 I4 I5 I6] Hph. unfold stored in I1, I3, I4. rewrite Hph in I1, I3, I4. simpl. rewrite Hph. unfold connectWithRetry.
  destruct (ws_tlsEnabled _ && negb creds); [by split|]. destruct dial; [by split|].
  split; unfold stored; simpl; try done; rewrite length_app; simpl.
  - rewrite I5 at 1. rewrite seq_app, fmap_app. simpl. by rewrite <- (I6 b Hph).
  - intros b' [= <-]. rewrite (I6 b Hph), next_backoff_after. f_equal. lia.
Qed.

Lemma take_inv a r rs : agent_inv a → ag_phase a = Streaming (r :: rs) → agent_inv (handle_result r rs a).
Proof.
  intros [I1 I2 I3 I4 I5 I6] Hph. unfold stored in I1, I3, I4. rewrite Hph in I1, I3, I4. unfold handle_result.
  destruct r as [s|]; [|by split]. destruct (applyFunc (ag_state a) s) as [st [|]]; [|by split].
  assert (∀ l : list Snapshot, pred (length (l ++ [s])) = length l) as Hlen by (intros; rewrite length_app; simpl; lia).
  split; unfold stored; simpl; rewrite ?Hlen; try done.
  - rewrite I1, firstn_all, take_app_length. done.
  - intros s' rs' [= <- <-]. apply last_snoc.
  - by eapply in_order_app; [..|exact I3].
  - by eapply in_order_app; [..|exact I4].
Qed.

Lemma store_inv a s rs :
  agent_inv a → ag_phase a = Storing s rs → agent_inv (start_report (set_phase (Streaming rs) (set_current (Some s) a))).
Proof.
  intros [I1 I2 I3 I4 I5 I6] Hph. unfold stored in I1, I3, I4. rewrite Hph in I1, I3, I4.
  split; unfold stored; simpl; try done.
  - by rewrite firstn_all, (I2 s rs Hph).
  - eapply in_order_le; [|exact I3]. lia.
  - eapply in_order_le; [|exact I4]. lia.
Qed.

Lemma step_inv a e : agent_inv a → agent_inv (step a e).
Proof.
  intros Hinv. destruct (ag_phase a) as [b| |rs|s rs| |r] eqn:Hph.
  all: destruct e as [|creds dial|ok|r'| | | | | | |]; try (simpl; rewrite ?Hph; exact Hinv).
  all: try (by eapply dial_inv).
  all: try (simpl; destruct (ag_reporting a); [done|]; apply (report_inv a) in Hinv; destruct Hinv as [I1 I2 I3 I4 I5 I6]; by split).
  all: try (simpl; destruct Hinv as [I1 I2 I3 I4 I5 I6]; by split).
  all: simpl; rewrite ?Hph.
  all: try (by apply open_inv).
  all: try (by apply store_inv).
  all: try (destruct rs as [|r rs]; [done|by apply take_inv]).
  all: try (destruct (failed rs); [done|]).
  all: try (destruct (ag_resync a); [|done]).
  all: apply (same_history a); try done; unfold stored; simpl; rewrite ?Hph; try done.
  intros ? ? [= <- <-]. eauto.
Qed.

Lemma agent_run_inv w st es : agent_inv (run (Start w st) es).
Proof.
  unfold run. induction es as [|e es IH] using rev_ind; [|rewrite foldl_app; by apply step_inv].
  split; simpl; try done; try (exists []; split; [constructor|done]). by intros b [= <-].
Qed.

(** Along every run of the agent, with failing connections, broken
    streams, rejected snapshots and forced resyncs, the stored snapshot is the
    last one applied with success, reports and requests carry the versions of
    snapshots stored one after the other, never going back, and the delays
    between connection attempts double from one second up to thirty. *)
Theorem agent_reports_what_it_applied w st es :
  let a := run (Start w st) es in
  ag_current a = last (take (stored a) (ag_applied a)) ∧
  in_order (ag_applied a) (stored a) (ar_AppliedConfigVersion <$> ag_reports a) ∧
  in_order (ag_applied a) (stored a) (wr_LastAppliedVersion <$> ag_requests a) ∧
  ag_delays a = backoff_after <$> seq 0 (length (ag_delays a)).
Proof. intros a. by destruct (agent_run_inv w st es) as [I1 _ I3 I4 I5 _]. Qed.

(** A forced resync in an open stream drops what was received and not yet
    taken, opens a new stream with the last applied version, and the snapshot
    that the new stream brings becomes the stored one when it can be applied. *)
Theorem resync_fetches_again a rs s :
  ag_phase a = Streaming rs → (applyFunc (ag_state a) s).2 = true →
  let a' := run a [EvForce; EvResync; EvRetry; EvOpen true; EvRecv (RecvSnapshot s); EvTake; EvStore] in
  ag_current a' = Some s ∧ ag_phase a' = Streaming [] ∧ ag_resync a' = false ∧
  ag_applied a' = ag_applied a ++ [s] ∧ ag_requests a' = ag_requests a ++ [request a].
Proof.
  intros Hph Hok. destruct (applyFunc (ag_state a) s) as [st ok] eqn:E. simpl in Hok. subst ok.
  destruct a as [w cur rq ph n ast del reqs reps app]. simpl in Hph, E. subst ph. intros a'. subst a'. lazy. rewrite E. by lazy.
Qed.

(** ** From the controller to the agent *)

(** The events of an open stream. *)
Definition stream_event (e : event) : bool :=
  match e with EvRecv (RecvSnapshot _) | EvTake | EvStore | EvTick | EvReport => true | _ => false end.

Definition received (es : list event) : list Snapshot :=
  omap (λ e, match e with EvRecv (RecvSnapshot s) => Some s | _ => None end) es.

Definition waiting (ph : phase) : option (list recvResult) :=
  match ph with Streaming rs | Storing _ rs => Some rs | _ => None end.

(** Taking and storing all that has been received. *)
Definition drain (rs : list recvResult) : list event := [EvStore] ++ concat ((λ _, [EvTake; EvStore]) <$> rs).

Lemma open_stream_takes es a :
  (∀ st s, (applyFunc st s).2 = true) → ag_phase a = Streaming [] → forallb stream_event es = true →
  ∃ taken rest, waiting (ag_phase (run a es)) = Some (RecvSnapshot <$> rest) ∧ received es = taken ++ rest ∧
    ag_applied (run a es) = ag_applied a ++ taken ∧ ag_settings (run a es) = ag_settings a.
Proof.
  intros Hok Hph. unfold run. induction es as [|e es IH] using rev_ind; intros Hes; [exists [], []; simpl; by rewrite Hph, app_nil_r|].
  rewrite forallb_app in Hes. apply andb_prop in Hes as [Hes He]. destruct (IH Hes) as (taken & rest & Hw & Hr & Ha & Hs). clear IH.
  rewrite foldl_app. simpl. set (b := foldl step a es) in *. unfold received in *. rewrite omap_app, Hr. simpl in He.
  assert (failed (RecvSnapshot <$> rest) = false) as Hnf by (clear; by induction rest).
  destruct (ag_phase b) as [?| |rs|s rs| |?] eqn:Hb; try done; simpl in Hw; injection Hw as ->;
    destruct e as [| | |[s'|]| | | | | | |]; try done; simpl; rewrite ?Hb, ?Hnf; simpl.
  all: try (exists taken, (rest ++ [s']); by rewrite fmap_app, <- app_assoc).
  all: try (destruct (ag_reporting b); simpl; rewrite ?Hb; simpl; exists taken, rest; by rewrite app_nil_r).
  all: try (rewrite ?Hb; simpl; exists taken, rest; by rewrite app_nil_r).
  destruct rest as [|s rest]; simpl; [exists taken, []; simpl; by rewrite Hb, app_nil_r|].
  pose proof (Hok (ag_state b) s) as Hs'. destruct (applyFunc (ag_state b) s) as [st ok]. simpl in Hs'. subst ok. simpl.
  exists (taken ++ [s]), rest. rewrite app_nil_r, <- app_assoc. simpl. split; [done|]. split; [done|]. by rewrite Ha, <- app_assoc.
Qed.

Lemma drain_applies rest a :
  (∀ st s, (applyFunc st s).2 = true) → ag_phase a = Streaming (RecvSnapshot <$> rest) →
  let a' := run a (concat ((λ _, [EvTake; EvStore]) <$> rest)) in
  ag_phase a' = Streaming [] ∧ ag_applied a' = ag_applied a ++ rest ∧ ag_settings a' = ag_settings a.
Proof.
  intros Hok. revert a. induction rest as [|s rest IH]; intros a Hph a'; [unfold a'; simpl; by rewrite app_nil_r|].
  set (b := start_report (set_phase (Streaming (RecvSnapshot <$> rest)) (set_current (Some s)
    (set_phase (Storing s (RecvSnapshot <$> rest)) (set_state (applyFunc (ag_state a) s).1 (set_applied (ag_applied a ++ [s]) a)))))).
  assert (a' = run b (concat ((λ _, [EvTake; EvStore]) <$> rest))) as ->.
  { unfold a', run. rewrite fmap_cons. cbn [concat app foldl]. unfold step at 3. rewrite Hph. cbn [fmap list_fmap handle_result].
    pose proof (Hok (ag_state a) s) as Hs'. unfold b. destruct (applyFunc (ag_state a) s) as [st ok]. simpl in Hs'. by subst ok. }
  destruct (IH b) as (H1 & H2 & H3); [done|]. rewrite H1, H2, H3. split; [done|]. split; [|done]. unfold b. simpl. by rewrite <- app_assoc.
Qed.

(** A stream that brings snapshots, of which every one can be applied: when
    all are taken the last one is stored. *)
Lemma stream_delivers w st es0 es a :
  (∀ st s, (applyFunc st s).2 = true) → run (Start w st) es0 = a → ag_phase a = Ready → forallb stream_event es = true →
  let b := run (step a (EvOpen true)) es in
  let a' := run b (drain (default [] (waiting (ag_phase b)))) in
  received es ≠ [] → ag_current a' = last (received es) ∧ ag_settings a' = ag_settings a.
Proof.
  intros Hok Ha Hph Hes b a' Hne. set (a1 := step a (EvOpen true)).
  assert (a1 = set_phase (Streaming []) (set_requests (ag_requests a ++ [request a]) a)) as Ea1 by (unfold a1; simpl; by rewrite Hph).
  destruct (open_stream_takes es a1 Hok) as (taken & rest & Hw & Hr & Hap & Hs); [by rewrite Ea1|done|]. change (run a1 es) with b in Hw, Hap, Hs.
  assert (agent_inv a') as Hinv.
  { assert (∃ es', a' = run (Start w st) es') as [es' ->]; [|apply agent_run_inv].
    exists (es0 ++ EvOpen true :: es ++ drain (default [] (waiting (ag_phase b)))). unfold run at 1. rewrite foldl_app.
    change (foldl step (Start w st) es0) with (run (Start w st) es0). rewrite Ha. cbn [foldl]. by rewrite foldl_app. }
  assert (ag_phase a' = Streaming [] ∧ ag_applied a' = ag_applied a1 ++ received es ∧ ag_settings a' = ag_settings a1) as (P1 & P2 & P3).
  { unfold a', drain, run. rewrite Hw, foldl_app. cbn [from_option id]. rewrite <- list_fmap_compose.
    change (concat (compose (λ _, [EvTake; EvStore]) RecvSnapshot <$> rest)) with (concat ((λ _ : Snapshot, [EvTake; EvStore]) <$> rest)).
    rewrite Hr, app_assoc, <- Hap, <- Hs.
    destruct (ag_phase b) as [?| |rs|s rs| |?] eqn:Hb; try done; simpl in Hw; injection Hw as ->; simpl; rewrite Hb.
    - by apply drain_applies.
    - destruct (drain_applies rest (start_report (set_phase (Streaming (RecvSnapshot <$> rest)) (set_current (Some s) b))) Hok eq_refl) as (D1 & D2 & D3).
      unfold run in *. by rewrite D1, D2, D3. }
  destruct Hinv as [I1 _ _ _ _ _]. unfold stored in I1. rewrite P1, firstn_all in I1. rewrite I1, P2, P3, Ea1. simpl.
  split; [|done]. destruct (received es) as [|s l] using rev_ind; [done|]. by rewrite app_assoc, !last_snoc.
Qed.

End watcher.

(** ** The whole path *)

Section path.
Context {A config ConfigSnapshot H : Type} `{RemoteClusterHandler H}.
Context (Version : ConfigSnapshot → string) (BuildSnapshot : config → string → ConfigSnapshot).
Context (visit : gmap string (list nat) → list (string * list nat)) (visit_order : ∀ m, visit m ≡ₚ map_to_list m).
Context (applyFunc : A → ConfigSnapshot → A * bool).

(** A change of the resources reaches the agent and its report the
    controller. In any reachable state of the controller, a trigger makes it
    send what a stream is missing; an agent that opens this stream, receives
    what was sent on it in whatever rhythm and can apply it ends with the version
    of the current resources, and its next report puts that version into the
    controller's table. *)
Theorem trigger_reaches_the_agent cfg tr es w sid t now :
  (∀ st s, (applyFunc st s).2 = true) →
  SnapshotServer.run Version BuildSnapshot visit (initial cfg tr) es = Returns w → one_shutdown false es = true →
  w_streams w !! sid = Some t → st_phase t = Waiting →
  ∃ w' t', SnapshotServer.run Version BuildSnapshot visit w (refresh w sid now) = Returns w' ∧ w_streams w' !! sid = Some t' ∧
    ∀ settings st es0 es1 a, run Version applyFunc (Start settings st) es0 = a → ag_phase a = Ready →
      wr_request (request Version a) = st_req t' → forallb stream_event es1 = true → received es1 = st_sent t' →
      let b := run Version applyFunc (step Version applyFunc a (EvOpen true)) es1 in
      let a' := run Version applyFunc b (drain (default [] (waiting (ag_phase b)))) in
      let v := Version (BuildSnapshot (w_cfg w) (rq_NodeName (st_req t'))) in
      appliedVersion Version a' = v ∧
      ∀ (srv : @Server ConfigSnapshot H) now', as_AppliedConfigVersion <$>
        (sv_statusMap (ReportStatus NoPeer now' (status Version a') srv).1 !! rq_NodeName (st_req t')) = Some v.
Proof.
  intros Hok Hrun Hsd Ht Hph.
  destruct (trigger_brings_up_to_date Version BuildSnapshot visit visit_order cfg tr es w sid t now Hrun Hsd Ht Hph)
    as (w' & t' & Hr & Ht' & Hph' & Hcfg & Hreq & Hsent & Hlast).
  exists w', t'. split; [done|]. split; [done|]. intros settings st es0 es1 a Ha Hready Hq Hes1 Hrec b a' v.
  destruct (stream_delivers Version applyFunc settings st es0 es1 a Hok Ha Hready Hes1) as [Hc Hset].
  { rewrite Hrec. intros E. by rewrite E in Hlast. }
  fold b in Hc, Hset. fold a' in Hc, Hset.
  assert (appliedVersion Version a' = v) as Hv.
  { unfold appliedVersion. rewrite Hc, Hrec. rewrite fmap_last in Hlast. destruct (last (st_sent t')) as [s|]; [|done].
    simpl in Hlast. injection Hlast as ->. unfold v. by rewrite Hreq. }
  split; [done|]. intros srv now'. assert (ws_nodeName (ag_settings a') = rq_NodeName (st_req t')) as Hn by (by rewrite Hset, <- Hq).
  unfold ReportStatus. simpl. destruct (str_empty _); simpl; unfold storeAgentStatus; simpl; rewrite Hn, lookup_insert_eq; simpl; by rewrite Hv.
Qed.

(** The controller takes a snapshot that was sent for one that was applied: it
    does not send it again to an agent that could not apply it. *)
Lemma rejected_snapshot_is_not_sent_again cfg tr es w sid t now :
  SnapshotServer.run Version BuildSnapshot visit (initial cfg tr) es = Returns w → one_shutdown false es = true →
  w_streams w !! sid = Some t → st_phase t = Waiting → st_lastVersion t = Version (BuildSnapshot (w_cfg w) (node_of t)) →
  ∃ w' t', SnapshotServer.run Version BuildSnapshot visit w (refresh w sid now) = Returns w' ∧ w_streams w' !! sid = Some t' ∧
    st_sent t' = st_sent t.
Proof.
  intros Hrun Hsd Ht Hph Hv.
  destruct (trigger_brings_up_to_date Version BuildSnapshot visit visit_order cfg tr es w sid t now Hrun Hsd Ht Hph)
    as (w' & t' & Hr & Ht' & _ & _ & _ & Hsent & _).
  exists w', t'. split; [done|]. split; [done|]. rewrite Hsent, Hv.
  assert (str_eqb (Version (BuildSnapshot (w_cfg w) (node_of t))) (Version (BuildSnapshot (w_cfg w) (node_of t))) = true) as -> by (by apply str_eqb_true).
  apply app_nil_r.
Qed.

End path.

(** ** Examples *)

Definition ex_settings : Settings := NewWatcher "n1" "1.0" "controller:9090".
Definition ex_apply (st : list string) (s : string) : list string * bool := (st ++ [s], true).
Definition ex_connected : @agent (list string) string := AgentWatcher.run id ex_apply (Start ex_settings []) [EvDial true true].

Lemma agent_reports_what_it_applied_example :
  let a := AgentWatcher.run id ex_apply (Start ex_settings [])
    [EvDial true false; EvDial true false; EvDial true true; EvOpen true; EvRecv (RecvSnapshot "v1"%string); EvTake; EvTick; EvStore; EvReport; EvForce; EvResync] in
  (ag_current a, ar_AppliedConfigVersion <$> ag_reports a, ag_delays a) = (Some "v1"%string, ["v1"%string], [Second; 2 * Second]).
Proof. by vm_compute. Qed.

Lemma resync_fetches_again_witness :
  let a := AgentWatcher.run id ex_apply ex_connected [EvOpen true; EvRecv (RecvSnapshot "v1"%string); EvTake; EvStore; EvRecv (RecvSnapshot "v2"%string)] in
  ag_current (AgentWatcher.run id ex_apply a [EvForce; EvResync; EvRetry; EvOpen true; EvRecv (RecvSnapshot "v3"%string); EvTake; EvStore]) = Some "v3"%string.
Proof. intros a. apply (resync_fetches_again id ex_apply a [RecvSnapshot "v2"%string] "v3"%string); reflexivity. Defined.

Lemma trigger_reaches_the_agent_witness :
  ∃ w t, ex_run ex_init (served 1 "n1" ++ [EvChange "c2"%string]) = Returns w ∧ w_streams w !! 1%nat = Some t ∧
  ∃ w' t', ex_run w (refresh w 1 9) = Returns w' ∧ w_streams w' !! 1%nat = Some t' ∧ st_sent t' = ["c1@n1"; "c2@n1"]%string ∧
    let b := AgentWatcher.run id ex_apply (AgentWatcher.step id ex_apply ex_connected (EvOpen true))
      [EvRecv (RecvSnapshot "c1@n1"%string); EvTake; EvRecv (RecvSnapshot "c2@n1"%string)] in
    let a' := AgentWatcher.run id ex_apply b (drain (default [] (waiting (ag_phase b)))) in
    appliedVersion id a' = "c2@n1"%string.
Proof.
  destruct (ex_run ex_init (served 1 "n1" ++ [EvChange "c2"%string])) as [w|] eqn:E; [|by vm_compute in E].
  exists w. destruct (w_streams w !! 1%nat) as [t|] eqn:Ht; [|by revert Ht; vm_compute in E; injection E as <-].
  exists t. split; [done|]. split; [done|].
  destruct (trigger_reaches_the_agent id ex_build map_to_list (λ m, reflexivity _) ex_apply "c1"%string NewRemoteAgentTracker
    _ w 1%nat t 9 (λ st s, eq_refl) E eq_refl Ht) as (w' & t' & Hr & Ht' & Hagent).
  { revert Ht. vm_compute in E. injection E as <-. vm_compute. intros [= <-]. reflexivity. }
  exists w', t'. split; [exact Hr|]. split; [exact Ht'|].
  assert (t' = mkStream (agent_req "n1" "") Waiting "c2@n1" ["c1@n1"; "c2@n1"]%string false) as ->.
  { clear Hagent Ht t. vm_compute in E. injection E as <-. vm_compute in Hr. injection Hr as <-. vm_compute in Ht'. injection Ht' as <-. reflexivity. }
  split; [reflexivity|]. intros b a'.
  destruct (Hagent ex_settings [] [EvDial true true] [EvRecv (RecvSnapshot "c1@n1"%string); EvTake; EvRecv (RecvSnapshot "c2@n1"%string)]
    ex_connected eq_refl eq_refl eq_refl eq_refl eq_refl) as [Hv _].
  change (appliedVersion id a' = ex_build (w_cfg w) "n1") in Hv. rewrite Hv. vm_compute in E. injection E as <-. reflexivity.
Defined.
