(* ===== verification/MeshAuthz.v ===== *)
(** * Mesh identities and authorization

    [src/internal/agent/mesh/authz.go]: SPIFFE identities of workloads and
    agents, the federation settings of the mesh, and the authorizer that
    evaluates DENY and ALLOW policies. [net/url] and the Unicode folding of
    [strings.EqualFold] are interfaces; logging is not modelled. *)

From S2P Require Import Prelude Sha256 GoStrings GoPath.
Open Scope Z_scope.

(** ** What the code uses of the standard library *)

Record URL := mkURL { url_Scheme : string; url_Host : string; url_Path : string }.

(** [url.Parse]; [None] is an error. *)
Class UrlParser := { url_Parse : string → option URL }.

(** [strings.EqualFold]. *)
Class Folding := { EqualFold : string → string → bool }.

(** Letters, digits and [- . _ ~]: the unreserved characters of RFC 3986. *)
Definition unreserved (c : ascii) : bool :=
  let b := byte_of c in
  bool_decide (97 ≤ b ≤ 122) || bool_decide (65 ≤ b ≤ 90) || bool_decide (48 ≤ b ≤ 57) ||
  bool_decide (b = 45) || bool_decide (b = 46) || bool_decide (b = 95) || bool_decide (b = 126).

Fixpoint str_forall (f : ascii → bool) (s : string) : bool :=
  match s with EmptyString => true | String c s' => f c && str_forall f s' end.

Definition path_char (c : ascii) : bool := unreserved c || bool_decide (c = "/"%char).

(** The documented form [scheme://host/path] without escapes. *)
Class UrlLaws (U : UrlParser) := {
  url_Parse_plain : ∀ host path, str_forall unreserved host = true → str_forall path_char path = true →
    url_Parse ("spiffe://" +:+ host +:+ "/" +:+ path) = Some (mkURL "spiffe" host ("/" +:+ path))
}.

(** ** Identities *)

Record SourceIdentity := mkSourceIdentity {
  si_SpiffeID : string;
  si_TrustDomain : string;
  si_Namespace : string;
  si_ServiceAccount : string;
  si_FederationID : string;
  si_ClusterName : string;
  si_NodeName : string
}.

Definition no_identity : SourceIdentity := mkSourceIdentity "" "" "" "" "" "" "".

Definition ParseSPIFFEID `{UrlParser} (spiffeID : string) : SourceIdentity :=
  match url_Parse spiffeID with
  | None => no_identity
  | Some u =>
      if negb (str_eqb (url_Scheme u) "spiffe") || str_empty (url_Host u) then no_identity
      else
        let host := url_Host u in
        let fallback segments :=
          match segments with
          | s0 :: s1 :: _ =>
              if str_eqb s0 "agent" then mkSourceIdentity spiffeID host "" "" "" "" s1
              else mkSourceIdentity spiffeID host "" "" "" "" ""
          | _ => mkSourceIdentity spiffeID host "" "" "" "" ""
          end in
        let segments := Split "/" (TrimPrefix (url_Path u) "/") in
        match segments with
        | [s0; s1; s2; s3] =>
            if str_eqb s0 "ns" && str_eqb s2 "sa" then mkSourceIdentity spiffeID host s1 s3 "" "" ""
            else if str_eqb s0 "cluster" && str_eqb s2 "agent" then mkSourceIdentity spiffeID host "" "" host s1 s3
            else fallback segments
        | _ => fallback segments
        end
  end.

Definition IsFederated (si : SourceIdentity) : bool :=
  negb (str_empty (si_FederationID si)) && negb (str_empty (si_ClusterName si)).

Record FederationConfig := mkFederationConfig {
  fc_FederationID : string;
  fc_ClusterName : string;
  fc_AllowedClusters : list string
}.

Definition Federation_IsActive (fc : FederationConfig) : bool :=
  negb (str_empty (fc_FederationID fc)) && negb (str_empty (fc_ClusterName fc)).

Definition IsClusterAllowed (fc : FederationConfig) (clusterName : string) : bool :=
  if negb (Federation_IsActive fc) then false else existsb (λ c, str_eqb c clusterName) (fc_AllowedClusters fc).

Definition BuildSPIFFEID (trustDomain nodeName : string) (fedCfg : option FederationConfig) : string :=
  let local := "spiffe://" +:+ trustDomain +:+ "/agent/" +:+ nodeName in
  match fedCfg with
  | Some fc =>
      if Federation_IsActive fc
      then "spiffe://" +:+ fc_FederationID fc +:+ "/cluster/" +:+ fc_ClusterName fc +:+ "/agent/" +:+ nodeName
      else local
  | None => local
  end.

(** ** Policies *)

(** The protobuf messages; a nil message reads like an empty one. *)
Record MeshSource := mkMeshSource {
  ms_Namespaces : list string;
  ms_ServiceAccounts : list string;
  ms_SpiffeIds : list string
}.
Record MeshDestination := mkMeshDestination { md_Methods : list string; md_Paths : list string }.
Record MeshAuthorizationRule := mkRule { mr_From : list MeshSource; mr_To : list MeshDestination }.
Record MeshAuthorizationPolicy := mkPolicy {
  mp_Name : string;
  mp_Action : string;
  mp_TargetService : string;
  mp_TargetNamespace : string;
  mp_Rules : list MeshAuthorizationRule
}.

Definition containsString (slice : list string) (s : string) : bool := existsb (λ item, str_eqb item s) slice.

Definition matchAnyPattern (patterns : list string) (s : string) : bool :=
  existsb (λ pattern, match Match pattern s with Some matched => matched | None => false end) patterns.

Definition matchSource (from : MeshSource) (source : SourceIdentity) : bool :=
  if bool_decide (ms_Namespaces from ≠ []) && negb (containsString (ms_Namespaces from) (si_Namespace source)) then false
  else if bool_decide (ms_ServiceAccounts from ≠ []) &&
          negb (containsString (ms_ServiceAccounts from) (si_ServiceAccount source)) then false
  else if bool_decide (ms_SpiffeIds from ≠ []) && negb (matchAnyPattern (ms_SpiffeIds from) (si_SpiffeID source)) then false
  else true.

Definition matchFrom (fromSources : list MeshSource) (source : SourceIdentity) : bool :=
  match fromSources with [] => true | _ => existsb (λ from, matchSource from source) fromSources end.

Section authz.
Context `{Folding}.

Definition containsStringFold (slice : list string) (s : string) : bool := existsb (λ item, EqualFold item s) slice.

Definition matchDestination (to : MeshDestination) (method requestPath : string) : bool :=
  let isOpaqueTCP := str_empty method && str_empty requestPath in
  let hasMethods := bool_decide (md_Methods to ≠ []) in
  let hasPaths := bool_decide (md_Paths to ≠ []) in
  if isOpaqueTCP && (hasMethods || hasPaths) then false
  else if hasMethods && negb (containsStringFold (md_Methods to) method) then false
  else if hasPaths && negb (matchAnyPattern (md_Paths to) requestPath) then false
  else true.

Definition matchTo (toDests : list MeshDestination) (method requestPath : string) : bool :=
  match toDests with [] => true | _ => existsb (λ to, matchDestination to method requestPath) toDests end.

Definition matchRule (rule : MeshAuthorizationRule) (source : SourceIdentity) (method requestPath : string) : bool :=
  matchFrom (mr_From rule) source && matchTo (mr_To rule) method requestPath.

(** ** The authorizer *)

Record Authorizer := mkAuthorizer {
  au_policies : gmap string (list MeshAuthorizationPolicy);
  au_warnedNoPolicy : gset string
}.

Definition NewAuthorizer : Authorizer := mkAuthorizer ∅ ∅.

Definition policy_key (p : MeshAuthorizationPolicy) : string := mp_TargetService p +:+ "." +:+ mp_TargetNamespace p.

Definition UpdatePolicies (policies : list MeshAuthorizationPolicy) (a : Authorizer) : Authorizer :=
  mkAuthorizer (foldl (λ m p, <[policy_key p := default [] (m !! policy_key p) ++ [p]]> m) ∅ policies) ∅.

(** One of the two loops of [Authorize]: does a rule of a policy with this
    action match? *)
Definition action_matches (action : string) (servicePolicies : list MeshAuthorizationPolicy)
    (source : SourceIdentity) (method requestPath : string) : bool :=
  existsb (λ p, EqualFold (mp_Action p) action &&
                existsb (λ rule, matchRule rule source method requestPath) (mp_Rules p)) servicePolicies.

Definition Authorize (source : SourceIdentity) (destService method requestPath : string) (a : Authorizer)
    : Authorizer * bool :=
  match default [] (au_policies a !! destService) with
  | [] => (mkAuthorizer (au_policies a) ({[destService]} ∪ au_warnedNoPolicy a), true)
  | servicePolicies =>
      if action_matches "DENY" servicePolicies source method requestPath then (a, false)
      else if action_matches "ALLOW" servicePolicies source method requestPath then (a, true)
      else if existsb (λ p, EqualFold (mp_Action p) "ALLOW") servicePolicies then (a, false)
      else (a, true)
  end.

Definition PolicyCount (a : Authorizer) : nat := map_fold (λ _ ps count, (count + length ps)%nat) 0%nat (au_policies a).
End authz.

(** ** What a rule covers *)

Definition pattern_matches (pattern s : string) : Prop := Match pattern s = Some true.

(** An empty list does not constrain. *)
Definition unless_empty {A} (l : list A) (P : Prop) : Prop := l = [] ∨ P.

Definition source_covered (from : MeshSource) (source : SourceIdentity) : Prop :=
  unless_empty (ms_Namespaces from) (si_Namespace source ∈ ms_Namespaces from) ∧
  unless_empty (ms_ServiceAccounts from) (si_ServiceAccount source ∈ ms_ServiceAccounts from) ∧
  unless_empty (ms_SpiffeIds from) (∃ p, p ∈ ms_SpiffeIds from ∧ pattern_matches p (si_SpiffeID source)).

(** A connection without method and path is covered only by destinations that
    constrain neither. *)
Definition destination_covered `{Folding} (to : MeshDestination) (method requestPath : string) : Prop :=
  (method = ""%string → requestPath = ""%string → md_Methods to = [] ∧ md_Paths to = []) ∧
  unless_empty (md_Methods to) (∃ m, m ∈ md_Methods to ∧ EqualFold m method = true) ∧
  unless_empty (md_Paths to) (∃ p, p ∈ md_Paths to ∧ pattern_matches p requestPath).

Definition rule_covers `{Folding} (rule : MeshAuthorizationRule) (source : SourceIdentity)
    (method requestPath : string) : Prop :=
  unless_empty (mr_From rule) (∃ from, from ∈ mr_From rule ∧ source_covered from source) ∧
  unless_empty (mr_To rule) (∃ to, to ∈ mr_To rule ∧ destination_covered to method requestPath).

Definition policy_covers `{Folding} (action : string) (p : MeshAuthorizationPolicy) (source : SourceIdentity)
    (method requestPath : string) : Prop :=
  EqualFold (mp_Action p) action = true ∧ ∃ rule, rule ∈ mp_Rules p ∧ rule_covers rule source method requestPath.

Lemma existsb_elem {A} (f : A → bool) (P : A → Prop) l :
  (∀ x, f x = true ↔ P x) → existsb f l = true ↔ ∃ x, x ∈ l ∧ P x.
Proof.
  intros Hf. rewrite existsb_exists. split; intros (x & Hx & HP); exists x.
  - split; [by apply list_elem_of_In|by apply Hf].
  - split; [by apply list_elem_of_In|by apply Hf].
Qed.

Lemma containsString_true l s : containsString l s = true ↔ s ∈ l.
Proof.
  unfold containsString. rewrite (existsb_elem _ (λ x, x = s)) by (intros; apply str_eqb_true).
  split; [by intros (? & ? & ->)|eauto].
Qed.

Lemma matchAnyPattern_true ps s : matchAnyPattern ps s = true ↔ ∃ p, p ∈ ps ∧ pattern_matches p s.
Proof.
  apply existsb_elem. intros p. unfold pattern_matches. destruct (Match p s) as [[]|]; naive_solver.
Qed.

(** A guard of the form: the list is not empty and the test fails. *)
Lemma guard_false {A} `{EqDecision A} (l : list A) (b : bool) (P : Prop) :
  (b = true ↔ P) → bool_decide (l ≠ []) && negb b = false ↔ unless_empty l P.
Proof.
  intros Hb. unfold unless_empty. case_bool_decide as Hl; destruct b; simpl.
  - split; [right; by apply Hb|done].
  - split; [done|]. intros [?|HP]; [done|]. by apply Hb in HP.
  - split; [by left|done].
  - split; [by left|done].
Qed.

Lemma matchSource_true from source : matchSource from source = true ↔ source_covered from source.
Proof.
  unfold matchSource, source_covered.
  rewrite <- (guard_false _ _ _ (containsString_true (ms_Namespaces from) (si_Namespace source))).
  rewrite <- (guard_false _ _ _ (containsString_true (ms_ServiceAccounts from) (si_ServiceAccount source))).
  rewrite <- (guard_false _ _ _ (matchAnyPattern_true (ms_SpiffeIds from) (si_SpiffeID source))).
  repeat match goal with |- context [if ?b then _ else _] => destruct b end; naive_solver.
Qed.

Lemma list_cases_existsb {A} (f : A → bool) (P : A → Prop) l :
  (∀ x, f x = true ↔ P x) →
  match l with [] => true | _ => existsb f l end = true ↔ unless_empty l (∃ x, x ∈ l ∧ P x).
Proof.
  intros Hf. unfold unless_empty. destruct l as [|x l]; [naive_solver|].
  rewrite (existsb_elem f P (x :: l) Hf). naive_solver.
Qed.

Section authz_spec.
Context `{HF : Folding}.

Lemma matchDestination_true to method requestPath :
  matchDestination to method requestPath = true ↔ destination_covered to method requestPath.
Proof.
  assert (∀ l s, containsStringFold l s = true ↔ ∃ m, m ∈ l ∧ EqualFold m s = true) as Hfold.
  { intros. by apply existsb_elem. }
  unfold matchDestination, destination_covered.
  rewrite <- (guard_false _ _ _ (Hfold (md_Methods to) method)).
  rewrite <- (guard_false _ _ _ (matchAnyPattern_true (md_Paths to) requestPath)).
  unfold str_empty. destruct to as [ms ps]; simpl.
  assert (∀ l : list string, bool_decide (l ≠ []) = negb (bool_decide (l = []))) as Hneg.
  { intros l. by case_bool_decide; case_bool_decide; simpl; try done; exfalso; auto. }
  rewrite !Hneg. destruct (decide (method = ""%string)), (decide (requestPath = ""%string)),
    (decide (ms = [])), (decide (ps = []));
  repeat first [rewrite (bool_decide_eq_true_2 (method = "")) by done
    | rewrite (bool_decide_eq_false_2 (method = "")) by done
    | rewrite (bool_decide_eq_true_2 (requestPath = "")) by done
    | rewrite (bool_decide_eq_false_2 (requestPath = "")) by done
    | rewrite (bool_decide_eq_true_2 (ms = [])) by done | rewrite (bool_decide_eq_false_2 (ms = [])) by done
    | rewrite (bool_decide_eq_true_2 (ps = [])) by done | rewrite (bool_decide_eq_false_2 (ps = [])) by done];
  simpl; repeat match goal with |- context [if ?b then _ else _] => destruct b end; naive_solver.
Qed.

Lemma matchRule_true rule source method requestPath :
  matchRule rule source method requestPath = true ↔ rule_covers rule source method requestPath.
Proof.
  unfold matchRule, rule_covers, matchFrom, matchTo. rewrite andb_true_iff.
  rewrite (list_cases_existsb _ (λ f, source_covered f source)) by (intros; apply matchSource_true).
  rewrite (list_cases_existsb _ (λ t, destination_covered t method requestPath)) by (intros; apply matchDestination_true).
  done.
Qed.

Lemma action_matches_true action ps source method requestPath :
  action_matches action ps source method requestPath = true ↔
  ∃ p, p ∈ ps ∧ policy_covers action p source method requestPath.
Proof.
  apply existsb_elem. intros p. unfold policy_covers. rewrite andb_true_iff.
  by rewrite (existsb_elem _ (λ r, rule_covers r source method requestPath)) by (intros; apply matchRule_true).
Qed.

Lemma UpdatePolicies_lookup policies a dest :
  default [] (au_policies (UpdatePolicies policies a) !! dest) = filter (λ p, policy_key p = dest) policies.
Proof.
  simpl. set (step := λ m p, <[policy_key p := default [] (m !! policy_key p) ++ [p]]> m).
  assert (∀ m : gmap string (list MeshAuthorizationPolicy), default [] (foldl step m policies !! dest) =
    default [] (m !! dest) ++ filter (λ p, policy_key p = dest) policies) as H; [|by rewrite H, lookup_empty].
  induction policies as [|p policies IH]; intros m; simpl; [by rewrite app_nil_r|].
  rewrite IH, filter_cons. unfold step at 1. case_decide as Hk.
  - rewrite Hk, lookup_insert_eq. simpl. by rewrite <- app_assoc.
  - by rewrite lookup_insert_ne.
Qed.

(** C22: the decision of the authorizer. After a policy update, a request is
    allowed exactly when no policy targets the service, or when no rule of a
    DENY policy of the service covers it and either a rule of an ALLOW policy
    covers it or the service has no ALLOW policy. A rule covers a request when
    one of its sources and one of its destinations do, an empty list covering
    everything; an opaque connection, without method and path, is covered only
    by destinations that constrain neither. Deciding never changes the
    policies. *)
Theorem authorize_decides (policies : list MeshAuthorizationPolicy) (a : Authorizer)
    (source : SourceIdentity) (dest method requestPath : string) :
  let mine := filter (λ p, policy_key p = dest) policies in
  let r := Authorize source dest method requestPath (UpdatePolicies policies a) in
  (r.2 = true ↔
    mine = [] ∨
    (¬ (∃ p, p ∈ mine ∧ policy_covers "DENY" p source method requestPath) ∧
     ((∃ p, p ∈ mine ∧ policy_covers "ALLOW" p source method requestPath) ∨
      ¬ (∃ p, p ∈ mine ∧ EqualFold (mp_Action p) "ALLOW" = true)))) ∧
  au_policies r.1 = au_policies (UpdatePolicies policies a).
Proof.
  intros mine r. subst r. unfold Authorize. rewrite UpdatePolicies_lookup. fold mine. clearbody mine.
  destruct mine as [|p0 rest]; [simpl; split; [naive_solver|done]|]. cbv iota. set (ps := p0 :: rest).
  pose proof (action_matches_true "DENY" ps source method requestPath) as Hd.
  pose proof (action_matches_true "ALLOW" ps source method requestPath) as Ha.
  pose proof (existsb_elem (λ p, EqualFold (mp_Action p) "ALLOW") (λ p, EqualFold (mp_Action p) "ALLOW" = true) ps
    (λ _, reflexivity _)) as He.
  destruct (action_matches "DENY" ps source method requestPath), (action_matches "ALLOW" ps source method requestPath),
    (existsb (λ p, EqualFold (mp_Action p) "ALLOW") ps); (split; [|done]); simpl; subst ps; naive_solver.
Qed.
End authz_spec.

(** ** Patterns of identities *)

(** A pattern that ends in a star does not cross a slash. A pattern without
    special characters covers exactly itself; followed by a star it covers
    exactly the identities and paths that extend it without a further slash, so
    a star after a trust domain covers no workload identity below it; a pattern
    that is not well formed covers nothing. *)
Theorem pattern_scope (p s : string) (Hp : plain p = true) :
  (matchAnyPattern [p] s = true ↔ s = p) ∧
  (matchAnyPattern [p +:+ "*"] s = true ↔ ∃ t, s = p +:+ t ∧ no_char "/" t = true) ∧
  (∀ q, Match q s = None → matchAnyPattern [q] s = false).
Proof.
  unfold matchAnyPattern; simpl. rewrite Match_plain, Match_prefix_star by done. rewrite !orb_false_r. split_and!.
  - by rewrite bool_decide_eq_true.
  - destruct (strip_prefix p s) as [t|] eqn:E.
    + apply strip_prefix_Some in E as ->. split; [eauto|]. intros (u & Hu & Hn). apply str_app_inj in Hu as <-. done.
    + split; [done|]. intros (u & Hu & _). apply strip_prefix_Some in Hu. congruence.
  - intros q Hq. by rewrite Hq.
Qed.

Lemma pattern_scope_witness :
  matchAnyPattern ["spiffe://td/*"%string] "spiffe://td/agent" = true ∧
  ¬ (∃ t, "spiffe://td/ns/shop/sa/web"%string = "spiffe://td/" +:+ t ∧ no_char "/" t = true).
Proof.
  split.
  - apply (proj2 (proj1 (proj2 (pattern_scope "spiffe://td/" "spiffe://td/agent" eq_refl)))).
    exists "agent"%string. split; reflexivity.
  - intros Ht. apply (proj2 (proj1 (proj2 (pattern_scope "spiffe://td/" "spiffe://td/ns/shop/sa/web" eq_refl)))) in Ht.
    vm_compute in Ht. discriminate.
Defined.

(** ** Round trip of agent identities *)

Lemma unreserved_no_slash s : str_forall unreserved s = true → no_char "/" s = true.
Proof.
  induction s as [|c s IH]; simpl; [done|]. intros [Hc Hs]%andb_prop. rewrite IH, andb_true_r by done.
  apply negb_true_iff, bool_decide_eq_false_2. intros ->. by vm_compute in Hc.
Qed.

Lemma unreserved_path s : str_forall unreserved s = true → str_forall path_char s = true.
Proof.
  induction s as [|c s IH]; simpl; [done|]. intros [Hc Hs]%andb_prop. rewrite IH by done.
  unfold path_char. by rewrite Hc.
Qed.

Lemma str_forall_app f s t : str_forall f (s +:+ t) = str_forall f s && str_forall f t.
Proof. induction s as [|c s IH]; simpl; [done|]. by rewrite IH, andb_assoc. Qed.

Lemma TrimPrefix_slash s : TrimPrefix ("/" +:+ s) "/" = s.
Proof. unfold TrimPrefix. assert (strip_prefix "/" ("/" +:+ s) = Some s) as -> by (by apply strip_prefix_Some). done. Qed.

(** An agent is recognised from the identity built for it. For names made of
    unreserved characters, parsing the identity that [BuildSPIFFEID] gives an
    agent returns its node name; with federation active it also returns the
    federation and cluster, is reported as federated, and is admitted exactly
    when the cluster is on the list of allowed clusters; without federation it
    returns the trust domain and is not reported as federated. In both cases it
    carries no namespace and no service account. *)
Theorem agent_identity_roundtrip `{U : UrlParser} `{!UrlLaws U} (trustDomain node : string) (fed : option FederationConfig)
    (Htd : str_forall unreserved trustDomain = true) (Hne : trustDomain ≠ ""%string)
    (Hnode : str_forall unreserved node = true)
    (Hfed : match fed with
            | Some fc => str_forall unreserved (fc_FederationID fc) = true ∧ str_forall unreserved (fc_ClusterName fc) = true
            | None => True
            end) :
  let id := ParseSPIFFEID (BuildSPIFFEID trustDomain node fed) in
  si_NodeName id = node ∧ si_Namespace id = ""%string ∧ si_ServiceAccount id = ""%string ∧
  match fed with
  | Some fc =>
      if Federation_IsActive fc then
        si_FederationID id = fc_FederationID fc ∧ si_ClusterName id = fc_ClusterName fc ∧ IsFederated id = true ∧
        (IsClusterAllowed fc (si_ClusterName id) = true ↔ fc_ClusterName fc ∈ fc_AllowedClusters fc)
      else si_TrustDomain id = trustDomain ∧ IsFederated id = false
  | None => si_TrustDomain id = trustDomain ∧ IsFederated id = false
  end.
Proof.
  assert (ParseSPIFFEID ("spiffe://" +:+ trustDomain +:+ "/agent/" +:+ node) =
    mkSourceIdentity ("spiffe://" +:+ trustDomain +:+ "/agent/" +:+ node) trustDomain "" "" "" "" node) as Hlocal.
  { unfold ParseSPIFFEID. change ("/agent/" +:+ node) with ("/" +:+ ("agent/" +:+ node)).
    rewrite url_Parse_plain; [|done|by rewrite str_forall_app; simpl; apply unreserved_path].
    cbn [url_Scheme url_Host url_Path]. rewrite TrimPrefix_slash.
    unfold str_empty. rewrite (bool_decide_eq_false_2 (trustDomain = "")) by done.
    change ("agent/" +:+ node) with ("agent" +:+ String "/" node).
    by rewrite Split_app, Split_no_char by (done || by apply unreserved_no_slash). }
  intros id. subst id. unfold BuildSPIFFEID.
  destruct fed as [fc|]; [|rewrite Hlocal; done].
  destruct (Federation_IsActive fc) eqn:Hact; [|rewrite Hlocal; done].
  destruct Hfed as [Hf Hc]. pose proof Hact as Hact'. unfold Federation_IsActive, str_empty in Hact'. bool_prop.
  unfold ParseSPIFFEID.
  change ("/cluster/" +:+ ?x) with ("/" +:+ ("cluster/" +:+ x)).
  rewrite url_Parse_plain; [|done|].
  2: { rewrite !str_forall_app. simpl. by rewrite !unreserved_path. }
  cbn [url_Scheme url_Host url_Path]. rewrite TrimPrefix_slash.
  unfold str_empty. rewrite (bool_decide_eq_false_2 (fc_FederationID fc = "")) by done.
  change ("cluster/" +:+ ?x) with ("cluster" +:+ String "/" x).
  change ("/agent/" +:+ node) with (String "/" ("agent" +:+ String "/" node)).
  rewrite 3!Split_app, Split_no_char by (done || by apply unreserved_no_slash). simpl.
  unfold IsFederated, IsClusterAllowed, str_empty; simpl. rewrite Hact. rewrite !bool_decide_eq_false_2 by done. simpl.
  split_and!; try done. apply containsString_true.
Qed.

(** A parser of the plain form. *)
Definition plain_url_parser : UrlParser := {|
  url_Parse s :=
    match strip_prefix "spiffe://" s with
    | Some rest => let '(h, p, found) := Cut "/" rest in
                   Some (mkURL "spiffe" h (if found then "/" +:+ p else ""))
    | None => None
    end
|}.

Lemma plain_url_laws : UrlLaws plain_url_parser.
Proof.
  constructor. intros host path Hh Hp. cbn [url_Parse plain_url_parser].
  assert (strip_prefix "spiffe://" ("spiffe://" +:+ host +:+ "/" +:+ path) = Some (host +:+ "/" +:+ path)) as ->
    by (by apply strip_prefix_Some).
  change ("/" +:+ path) with (String "/" path). by rewrite Cut_app by (by apply unreserved_no_slash).
Qed.

Lemma agent_identity_roundtrip_witness :
  let fc := mkFederationConfig "fed.example" "paris" ["paris"; "rome"]%string in
  let id := @ParseSPIFFEID plain_url_parser (BuildSPIFFEID "cluster.local" "node-1" (Some fc)) in
  si_ClusterName id = "paris"%string ∧ IsClusterAllowed fc (si_ClusterName id) = true.
Proof.
  intros fc id.
  destruct (@agent_identity_roundtrip plain_url_parser plain_url_laws "cluster.local" "node-1" (Some fc))
    as (_ & _ & _ & H).
  - reflexivity.
  - discriminate.
  - reflexivity.
  - split; reflexivity.
  - cbn in H. destruct H as (_ & H1 & _ & H2). split; [exact H1|]. apply H2. set_solver.
Defined.
