(* ===== verification/Gossip.v ===== *)
(** * Config version gossip between agents

    [src/internal/agent/gossip/gossip.go]. Every agent announces the generation
    time of its configuration by UDP multicast, keeps a table of its peers'
    announcements and forces a resync from the controller when a majority of
    the live peers is ahead. The three goroutines share the table: the first
    part models [handleMessage] and [checkQuorum] as whole calls, the last part
    as the interleaved accesses to the shared [sync.Map] and counter that they
    are made of. The UDP socket is not modelled: a received datagram is the
    argument of [handleMessage]. *)

From S2P Require Import Prelude Sha256 GoStrings.
Open Scope Z_scope.

(** ** State *)

Definition BroadcastInterval : Z := 5 * Second.
Definition PeerExpiry : Z := 15 * Second.
Definition GenTimeThreshold : Z := 60.
Definition ResyncCooldown : Z := 30 * Second.
Definition messagePrefix : string := "config_version".
Definition maxPeers : Z := 256.

Record peerState := mkPeerState { gp_genTime : Z; gp_lastSeen : Z }.

#[global] Instance peerState_eq_dec : EqDecision peerState.
Proof. solve_decision. Defined.

(** The fields the handlers use; [g_resyncs] counts the calls of
    [forceResyncFunc]. *)
Record ConfigGossiper := mkConfigGossiper {
  g_nodeName : string;
  g_psk : list Z;
  g_currentGenTime : Z;
  g_peerVersions : gmap string peerState;
  g_peerCount : Z;
  g_lastResyncTime : Z;
  g_resyncs : Z
}.

Definition NewConfigGossiper (nodeName : string) (psk : list Z) : ConfigGossiper :=
  mkConfigGossiper nodeName psk 0 ∅ 0 0 0.

Definition set_peers (peers : gmap string peerState) (count : Z) (g : ConfigGossiper) : ConfigGossiper :=
  mkConfigGossiper (g_nodeName g) (g_psk g) (g_currentGenTime g) peers count (g_lastResyncTime g) (g_resyncs g).

Definition UpdateGenTime (genTime : Z) (g : ConfigGossiper) : ConfigGossiper :=
  mkConfigGossiper (g_nodeName g) (g_psk g) genTime (g_peerVersions g) (g_peerCount g)
    (g_lastResyncTime g) (g_resyncs g).

(** ** Announcements *)

(** One tick of [broadcastLoop] at [now]: the datagram, if any. *)
Definition announcement (now : Z) (g : ConfigGossiper) : option string :=
  if decide (g_currentGenTime g = 0) then None
  else
    let msg := messagePrefix +:+ "|" +:+ g_nodeName g +:+ "|" +:+ format_d (g_currentGenTime g)
                 +:+ "|" +:+ format_d (UnixNano now) in
    if decide (0 < length (g_psk g))%nat then
      Some (msg +:+ "|" +:+ EncodeToString (hmac_sha256 (g_psk g) (bytes_of msg)))
    else Some msg.

(** The authentication at the head of [handleMessage]: the payload. *)
Definition authenticate (psk : list Z) (data : string) : option string :=
  if decide (0 < length psk)%nat then
    match CutLast "|" data with
    | None => None
    | Some (payload, mac) =>
        match DecodeString mac with
        | None => None
        | Some receivedMAC =>
            if decide (hmac_sha256 psk (bytes_of payload) = receivedMAC) then Some payload else None
        end
    end
  else Some data.

(** The fields of a payload: the peer's name and generation time. *)
Definition parse_announcement (data : string) : option (string * Z) :=
  match SplitN "|" data 4 with
  | [prefix; peerName; gen; _] =>
      if str_eqb prefix messagePrefix then
        match ParseInt gen with Some z => Some (peerName, z) | None => None end
      else None
  | _ => None
  end.

(** What a datagram announces to [g]: nothing when it is rejected or its own. *)
Definition accepted (g : ConfigGossiper) (data : string) : option (string * Z) :=
  match authenticate (g_psk g) data with
  | None => None
  | Some payload =>
      match parse_announcement payload with
      | None => None
      | Some (peerName, gen) => if str_eqb peerName (g_nodeName g) then None else Some (peerName, gen)
      end
  end.

(** The table update of [handleMessage] without interference; [now] and [now']
    are the clock readings of [LoadOrStore] and [Store]. *)
Definition record_peer (peerName : string) (gen now now' : Z) (g : ConfigGossiper) : ConfigGossiper :=
  match g_peerVersions g !! peerName with
  | Some _ => set_peers (<[peerName := mkPeerState gen now']> (g_peerVersions g)) (g_peerCount g) g
  | None =>
      if decide (maxPeers ≤ g_peerCount g) then g
      else set_peers (<[peerName := mkPeerState gen now]> (g_peerVersions g)) (wrap32 (g_peerCount g + 1)) g
  end.

Definition handleMessage (data : string) (now now' : Z) (g : ConfigGossiper) : ConfigGossiper :=
  match accepted g data with
  | None => g
  | Some (peerName, gen) => record_peer peerName gen now now' g
  end.

(** ** Quorum *)

Definition expired (now : Z) (p : peerState) : bool := bool_decide (time_Sub now (gp_lastSeen p) > PeerExpiry).

Definition newer (myGenTime : Z) (p : peerState) : bool :=
  bool_decide (gp_genTime p > wrap64 (myGenTime + GenTimeThreshold)).

(** The cooldown check: is a check at [now] too early? *)
Definition cooling (lastResync now : Z) : bool :=
  bool_decide (lastResync > 0) && bool_decide (time_Sub now lastResync < ResyncCooldown).

(** The body of [Range]: the table, the counter, [total] and [newerCount]. *)
Definition count_peer (now myGenTime : Z) (acc : gmap string peerState * Z * Z * Z) (kv : string * peerState)
    : gmap string peerState * Z * Z * Z :=
  let '(peers, count, total, newerCount) := acc in
  if expired now kv.2 then (delete kv.1 peers, wrap32 (count - 1), total, newerCount)
  else (peers, count, total + 1, if newer myGenTime kv.2 then newerCount + 1 else newerCount).

(** [checkQuorum]; [now0], [now] and [now'] are its clock readings, [order] the
    order in which [Range] visits the table. *)
Definition checkQuorum (now0 now now' : Z) (order : list (string * peerState)) (g : ConfigGossiper)
    : ConfigGossiper :=
  let myGenTime := g_currentGenTime g in
  if decide (myGenTime = 0) then g
  else if cooling (g_lastResyncTime g) now0 then g
  else
    let '(peers, count, total, newerCount) :=
      foldl (count_peer now myGenTime) (g_peerVersions g, g_peerCount g, 0, 0) order in
    let g := set_peers peers count g in
    if bool_decide (total > 0) && bool_decide (newerCount > Z.quot total 2) then
      mkConfigGossiper (g_nodeName g) (g_psk g) (g_currentGenTime g) (g_peerVersions g) (g_peerCount g)
        (UnixNano now') (g_resyncs g + 1)
    else g.

(** [receiveLoop] reads into a buffer of 512 bytes; a longer datagram is cut. *)
Definition receive (data : string) (now now' : Z) (g : ConfigGossiper) : ConfigGossiper :=
  handleMessage (String.substring 0 512 data) now now' g.

(** ** The announcement is understood *)

Lemma authenticate_Some psk data payload :
  authenticate psk data = Some payload → psk ≠ [] →
  ∃ mac, CutLast "|" data = Some (payload, mac) ∧ DecodeString mac = Some (hmac_sha256 psk (bytes_of payload)).
Proof.
  unfold authenticate. intros H Hne. rewrite decide_True in H by (destruct psk; simpl; [done|lia]).
  destruct (CutLast "|" data) as [[p mac]|]; [|done]. destruct (DecodeString mac) as [m|] eqn:Em; [|done].
  case_decide as Hm; [|done]. injection H as ->. exists mac. split; [done|]. by rewrite Em, Hm.
Qed.

Lemma pipe_app x : "|" +:+ x = String "|" x.
Proof. done. Qed.

Lemma authenticate_mac psk msg :
  psk ≠ [] → authenticate psk (msg +:+ "|" +:+ EncodeToString (hmac_sha256 psk (bytes_of msg))) = Some msg.
Proof.
  intros Hne. unfold authenticate. rewrite decide_True by (destruct psk; simpl; [done|lia]).
  rewrite !pipe_app.
  assert (Forall is_byte (hmac_sha256 psk (bytes_of msg))) as Hb by (unfold hmac_sha256; auto with go).
  rewrite CutLast_app by (by apply EncodeToString_no_pipe).
  rewrite DecodeString_EncodeToString by done. by rewrite decide_True.
Qed.

Lemma parse_announcement_print name gen stamp :
  no_char "|" name = true → int64_range gen →
  parse_announcement (messagePrefix +:+ "|" +:+ name +:+ "|" +:+ format_d gen +:+ "|" +:+ stamp) = Some (name, gen).
Proof.
  intros Hn Hg. unfold parse_announcement.
  rewrite !pipe_app.
  rewrite !SplitN_app by (try done; by apply format_d_no_char). cbn [SplitN].
  unfold str_eqb. rewrite bool_decide_eq_true_2 by done. by rewrite ParseInt_format_d.
Qed.

Lemma CutLast_Some sep s b a : CutLast sep s = Some (b, a) → s = b +:+ String sep a.
Proof.
  revert b a. induction s as [|c s IH]; intros b a; simpl; [done|].
  destruct (CutLast sep s) as [[b' a']|] eqn:E.
  - intros [= <- <-]. by rewrite (IH b' a').
  - case_decide; [|done]. intros [= <- <-]. by subst.
Qed.

(** An announcement is understood by every agent with the same key, and
    only the holders of the key are listened to. What an agent that has applied
    a configuration multicasts fits its peers' parser: another agent with the
    same key, or with none on both sides, stores the sender's generation time
    and the time of arrival, as long as its table has room; conversely, with a
    key set, every accepted datagram ends in the HMAC of what precedes it. *)
Theorem announcements_are_understood (a b : ConfigGossiper) (sent now now' : Z)
    (Hkey : g_psk a = g_psk b) (Hname : no_char "|" (g_nodeName a) = true)
    (Hother : g_nodeName a ≠ g_nodeName b) (Hgen : g_currentGenTime a ≠ 0) (Hrange : int64_range (g_currentGenTime a))
    (Hroom : is_Some (g_peerVersions b !! g_nodeName a) ∨ g_peerCount b < maxPeers) :
  (∃ m, announcement sent a = Some m ∧
    ((String.length m ≤ 512)%nat →
     ∃ t, g_peerVersions (receive m now now' b) !! g_nodeName a = Some (mkPeerState (g_currentGenTime a) t) ∧
       (t = now ∨ t = now'))) ∧
  (∀ data p, g_psk b ≠ [] → accepted b data = Some p →
     ∃ payload mac, data = payload +:+ "|" +:+ mac ∧
       DecodeString mac = Some (hmac_sha256 (g_psk b) (bytes_of payload))).
Proof.
  split.
  - assert (∃ m, announcement sent a = Some m ∧ accepted b m = Some (g_nodeName a, g_currentGenTime a)) as (m & Em & Ea).
    { unfold announcement. rewrite decide_False by done.
      pose proof (parse_announcement_print (g_nodeName a) (g_currentGenTime a) (format_d (UnixNano sent)) Hname Hrange) as Hp.
      case_decide as Hk; eexists; (split; [reflexivity|]); unfold accepted.
      - rewrite <- Hkey, authenticate_mac by (intros E; rewrite E in Hk; simpl in Hk; lia).
        rewrite Hp. unfold str_eqb. by rewrite bool_decide_eq_false_2.
      - unfold authenticate. rewrite <- Hkey, decide_False by done.
        rewrite Hp. unfold str_eqb. by rewrite bool_decide_eq_false_2. }
    exists m. split; [done|]. intros Hlen. unfold receive, handleMessage. rewrite substring_all by done. rewrite Ea.
    unfold record_peer. destruct (g_peerVersions b !! g_nodeName a) eqn:Et.
    + exists now'. simpl. rewrite lookup_insert_eq. auto.
    + rewrite decide_False by (destruct Hroom as [[? ?]|?]; [done|lia]).
      exists now. simpl. rewrite lookup_insert_eq. auto.
  - intros data p Hne Hacc. unfold accepted in Hacc.
    destruct (authenticate (g_psk b) data) as [payload|] eqn:Eauth; [|done].
    apply authenticate_Some in Eauth as (mac & Hcut & Hmac); [|done].
    exists payload, mac. split; [|done]. by apply CutLast_Some.
Qed.

Definition sample_sender : ConfigGossiper := UpdateGenTime 1700000000 (NewConfigGossiper "node-a" (bytes_of "secret")).
Definition sample_receiver : ConfigGossiper := UpdateGenTime 1600000000 (NewConfigGossiper "node-b" (bytes_of "secret")).

Lemma announcements_are_understood_witness :
  ∃ m t, announcement 5 sample_sender = Some m ∧
    g_peerVersions (receive m 7 8 sample_receiver) !! "node-a"%string = Some (mkPeerState 1700000000 t).
Proof.
  destruct (announcements_are_understood sample_sender sample_receiver 5 7 8) as [(m & Em & Hm) _].
  - reflexivity.
  - reflexivity.
  - discriminate.
  - discriminate.
  - unfold int64_range, min_int64, max_int64. split; by vm_compute.
  - right. by vm_compute.
  - destruct Hm as (t & Ht & _).
    + vm_compute in Em. injection Em as <-. apply (bool_decide_unpack _). by vm_compute.
    + exists m, t. split; [exact Em|exact Ht].
Defined.

(** ** The quorum decision *)

Definition live_peers (now : Z) (g : ConfigGossiper) : gmap string peerState :=
  filter (λ kv, expired now kv.2 = false) (g_peerVersions g).

Definition peers_ahead (now : Z) (g : ConfigGossiper) : gmap string peerState :=
  filter (λ kv, newer (g_currentGenTime g) kv.2 = true) (live_peers now g).

Definition remove_all (l : list (string * peerState)) (m : gmap string peerState) : gmap string peerState :=
  foldl (λ m kv, delete kv.1 m) m l.

(** What the visit of the table computes: the expired entries are removed, the
    others and those ahead among them are counted. *)
Lemma foldl_count_peer now my l m c t n :
  let r := foldl (count_peer now my) (m, c, t, n) l in
  let live := filter (λ kv, expired now kv.2 = false) l in
  r.1.1.1 = remove_all (filter (λ kv, expired now kv.2 = true) l) m ∧
  r.1.2 = t + Z.of_nat (length live) ∧
  r.2 = n + Z.of_nat (length (filter (λ kv, newer my kv.2 = true) live)).
Proof.
  revert m c t n. induction l as [|kv l IH]; intros m c t n; simpl.
  - by rewrite !Z.add_0_r.
  - rewrite !filter_cons. destruct (expired now kv.2) eqn:E.
    + rewrite decide_True, decide_False by done. apply IH.
    + rewrite decide_False, decide_True by done. rewrite filter_cons.
      destruct (IH m c (t + 1) (if newer my kv.2 then n + 1 else n)) as (-> & -> & ->).
      destruct (newer my kv.2); [rewrite decide_True by done|rewrite decide_False by done]; simpl; split_and!; try done; lia.
Qed.

Lemma lookup_remove_all l m k : remove_all l m !! k = if decide (k ∈ l.*1) then None else m !! k.
Proof.
  unfold remove_all. revert m. induction l as [|x l IH]; intros m; simpl; [done|]. rewrite IH.
  destruct (decide (k ∈ l.*1)) as [Hk|Hk].
  - rewrite decide_True by (by apply elem_of_cons; right). done.
  - destruct (decide (k = x.1)) as [->|Hne].
    + rewrite decide_True by apply list_elem_of_here. by rewrite lookup_delete_eq.
    + rewrite decide_False by (by intros [?|?]%elem_of_cons). by rewrite lookup_delete_ne.
Qed.

Lemma remove_expired now (m : gmap string peerState) order :
  range_order m order →
  remove_all (filter (λ kv, expired now kv.2 = true) order) m = filter (λ kv, expired now kv.2 = false) m.
Proof.
  intros Ho. apply map_eq. intros k. rewrite lookup_remove_all.
  destruct (m !! k) as [p|] eqn:Ek.
  - assert ((k, p) ∈ order) as Hin by (rewrite Ho; by apply elem_of_map_to_list).
    destruct (expired now p) eqn:Ee.
    + rewrite decide_True.
      * symmetry. apply map_lookup_filter_None. right. intros q Hq. simplify_eq. simpl. by rewrite Ee.
      * apply list_elem_of_fmap. exists (k, p). split; [done|]. by apply list_elem_of_filter.
    + rewrite decide_False.
      * symmetry. by apply map_lookup_filter_Some.
      * intros ([k' q] & Hk & [Hq Hin']%list_elem_of_filter)%list_elem_of_fmap. simpl in *. subst k'.
        rewrite Ho, elem_of_map_to_list, Ek in Hin'. injection Hin' as <-. congruence.
  - replace (if decide _ then None else None) with (@None peerState) by (by case_decide).
    symmetry. apply map_lookup_filter_None. by left.
Qed.


Lemma range_order_filter {V} (P : string * V → Prop) `{∀ x, Decision (P x)} (m : gmap string V) l :
  range_order m l → range_order (filter P m) (filter P l).
Proof.
  intros Hl. assert (NoDup l) as Hnd by (rewrite Hl; apply NoDup_map_to_list).
  apply NoDup_Permutation; [by apply NoDup_filter|apply NoDup_map_to_list|].
  intros [k v]. rewrite list_elem_of_filter, Hl, !elem_of_map_to_list, map_lookup_filter_Some. tauto.
Qed.

Lemma range_order_length {V} (m : gmap string V) l : range_order m l → length l = size m.
Proof. intros Hl. by rewrite Hl, length_map_to_list. Qed.

(** The visited peers that are not expired, and those of them that are ahead. *)
Definition visited_live (now : Z) (order : list (string * peerState)) : list (string * peerState) :=
  filter (λ kv, expired now kv.2 = false) order.
Definition visited_ahead (now : Z) (order : list (string * peerState)) (g : ConfigGossiper) : list (string * peerState) :=
  filter (λ kv, newer (g_currentGenTime g) kv.2 = true) (visited_live now order).

(** What a check that is not skipped computes. *)
Lemma checkQuorum_active now0 now now' order g :
  g_currentGenTime g ≠ 0 → cooling (g_lastResyncTime g) now0 = false →
  let g' := checkQuorum now0 now now' order g in
  let fires := (length (visited_live now order) < 2 * length (visited_ahead now order g))%nat in
  g_peerVersions g' = remove_all (filter (λ kv, expired now kv.2 = true) order) (g_peerVersions g) ∧
  g_currentGenTime g' = g_currentGenTime g ∧
  g_resyncs g' = (if decide fires then g_resyncs g + 1 else g_resyncs g) ∧
  g_lastResyncTime g' = (if decide fires then UnixNano now' else g_lastResyncTime g).
Proof.
  intros Hgen Hcool g' fires. subst g'. unfold checkQuorum. rewrite decide_False, Hcool by done.
  pose proof (foldl_count_peer now (g_currentGenTime g) order (g_peerVersions g) (g_peerCount g) 0 0) as H.
  destruct (foldl _ _ _) as [[[peers count] total] newerCount]. simpl in H. destruct H as (-> & -> & ->).
  fold (visited_live now order). fold (visited_ahead now order g). rewrite !Z.add_0_l, Z.quot_div_nonneg by lia.
  assert (length (visited_ahead now order g) ≤ length (visited_live now order))%nat as Hle by apply length_filter.
  assert (bool_decide (Z.of_nat (length (visited_live now order)) > 0) &&
    bool_decide (Z.of_nat (length (visited_ahead now order g)) > Z.of_nat (length (visited_live now order)) / 2) = bool_decide fires) as ->.
  { subst fires. pose proof (Z.div_mod (Z.of_nat (length (visited_live now order))) 2).
    pose proof (Z.mod_pos_bound (Z.of_nat (length (visited_live now order))) 2).
    destruct (decide (length (visited_live now order) < 2 * length (visited_ahead now order g))%nat) as [Hf|Hf].
    - rewrite !bool_decide_eq_true_2 by lia. done.
    - rewrite (bool_decide_eq_false_2 (_ < _)%nat), (bool_decide_eq_false_2 (_ > _ / 2)), andb_false_r by lia. done. }
  destruct (decide fires); [rewrite bool_decide_eq_true_2 by done|rewrite bool_decide_eq_false_2 by done]; done.
Qed.


(** One peer far ahead. *)
Definition sample_lagging : ConfigGossiper :=
  match announcement 5 sample_sender with
  | Some m => receive m 7 8 sample_receiver
  | None => sample_receiver
  end.


(** ** Interleaved calls

    [handleMessage] runs in the receive goroutine and [checkQuorum] in the
    quorum goroutine. Each access to the [sync.Map] and to the counter is
    atomic; between two accesses the other goroutine may run. *)

Inductive receiver :=
  | R_idle
  | R_load (name : string) (gen : Z)    (** before [peerVersions.Load] *)
  | R_room (name : string) (gen : Z)    (** not in the table: before [peerCount.Load] *)
  | R_put (name : string) (gen : Z)     (** before [LoadOrStore] *)
  | R_store (name : string) (gen : Z)   (** found by [LoadOrStore]: before [Store] *)
  | R_count.                            (** stored as new: before [peerCount.Add(1)] *)

Inductive checker :=
  | Q_idle
  | Q_range (now : Z) (visited : gset string)
  | Q_delete (now : Z) (visited : gset string) (name : string)  (** before [Delete] *)
  | Q_count (now : Z) (visited : gset string).                  (** before [peerCount.Add(-1)] *)

Record shared := mkShared {
  sh_peers : gmap string peerState;
  sh_count : Z;
  sh_receiver : receiver;
  sh_checker : checker
}.

Inductive interleave : shared → shared → Prop :=
  | i_message m c q name gen : interleave (mkShared m c R_idle q) (mkShared m c (R_load name gen) q)
  | i_loaded m c q name gen : is_Some (m !! name) →
      interleave (mkShared m c (R_load name gen) q) (mkShared m c (R_put name gen) q)
  | i_absent m c q name gen : m !! name = None →
      interleave (mkShared m c (R_load name gen) q) (mkShared m c (R_room name gen) q)
  | i_full m c q name gen : maxPeers ≤ c →
      interleave (mkShared m c (R_room name gen) q) (mkShared m c R_idle q)
  | i_room m c q name gen : c < maxPeers →
      interleave (mkShared m c (R_room name gen) q) (mkShared m c (R_put name gen) q)
  | i_put_new m c q name gen now : m !! name = None →
      interleave (mkShared m c (R_put name gen) q) (mkShared (<[name := mkPeerState gen now]> m) c R_count q)
  | i_put_old m c q name gen : is_Some (m !! name) →
      interleave (mkShared m c (R_put name gen) q) (mkShared m c (R_store name gen) q)
  | i_store m c q name gen now :
      interleave (mkShared m c (R_store name gen) q) (mkShared (<[name := mkPeerState gen now]> m) c R_idle q)
  | i_add m c q : interleave (mkShared m c R_count q) (mkShared m (wrap32 (c + 1)) R_idle q)
  | i_check m c r now : interleave (mkShared m c r Q_idle) (mkShared m c r (Q_range now ∅))
  | i_live m c r now vis name p : name ∉ vis → m !! name = Some p → expired now p = false →
      interleave (mkShared m c r (Q_range now vis)) (mkShared m c r (Q_range now ({[name]} ∪ vis)))
  | i_expired m c r now vis name p : name ∉ vis → m !! name = Some p → expired now p = true →
      interleave (mkShared m c r (Q_range now vis)) (mkShared m c r (Q_delete now ({[name]} ∪ vis) name))
  | i_delete m c r now vis name :
      interleave (mkShared m c r (Q_delete now vis name)) (mkShared (delete name m) c r (Q_count now vis))
  | i_sub m c r now vis :
      interleave (mkShared m c r (Q_count now vis)) (mkShared m (wrap32 (c - 1)) r (Q_range now vis))
  | i_done m c r now vis : dom m ⊆ vis →
      interleave (mkShared m c r (Q_range now vis)) (mkShared m c r Q_idle).

(** Peers in the table that the counter misses, with the additions and
    subtractions under way. *)
Definition drift (st : shared) : Z :=
  Z.of_nat (size (sh_peers st)) -
  (sh_count st + (match sh_receiver st with R_count => 1 | _ => 0 end)
               - (match sh_checker st with Q_count _ _ => 1 | _ => 0 end)).

(** Only the checker deletes, so what it is about to delete is still there. *)
Definition delete_pending (st : shared) : Prop :=
  match sh_checker st with Q_delete _ _ name => is_Some (sh_peers st !! name) | _ => True end.

Lemma insert_keeps_pending name v st r c :
  delete_pending st →
  delete_pending (mkShared (<[name := v]> (sh_peers st)) c r (sh_checker st)).
Proof.
  unfold delete_pending. simpl. destruct (sh_checker st); try done.
  intros H. destruct (decide (name0 = name)) as [->|]; [by rewrite lookup_insert_eq|by rewrite lookup_insert_ne].
Qed.

Lemma drift_step st st' :
  interleave st st' → delete_pending st → min_int32 < sh_count st < max_int32 →
  delete_pending st' ∧ drift st ≤ drift st' ∧ sh_count st - 1 ≤ sh_count st' ≤ sh_count st + 1.
Proof.
  intros Hstep Hd Hc.
  assert (wrap32 (sh_count st + 1) = sh_count st + 1 ∧ wrap32 (sh_count st - 1) = sh_count st - 1) as [W1 W2].
  { unfold min_int32, max_int32 in Hc. split; apply wrap32_small; unfold int32_range, min_int32, max_int32; lia. }
  destruct Hstep; unfold drift; simpl in *; try (split_and!; [done|lia..]); try rewrite W1; try rewrite W2.
  - split; [|rewrite map_size_insert_None by done; lia].
    exact (insert_keeps_pending name _ (mkShared m c (R_put name gen) q) R_count c Hd).
  - split; [exact (insert_keeps_pending name _ (mkShared m c (R_store name gen) q) R_idle c Hd)|].
    rewrite map_size_insert. destruct (m !! name); simpl; lia.
  - split_and!; [by eexists|lia..].
  - split; [done|]. destruct Hd as [p Hp]. simpl in Hp. rewrite map_size_delete, Hp.
    assert (size m ≠ 0%nat) by (intros E%map_size_empty_inv; by subst). lia.
Qed.

Lemma drift_steps n st st' :
  nsteps interleave n st st' → delete_pending st →
  min_int32 < sh_count st - Z.of_nat n → sh_count st + Z.of_nat n < max_int32 → drift st ≤ drift st'.
Proof.
  intros Hsteps. induction Hsteps as [st|n st st1 st2 Hstep _ IH]; intros Hd Hlo Hhi; [lia|].
  destruct (drift_step st st1 Hstep Hd) as (Hd' & Hle & Hc); [lia|]. specialize (IH Hd'). lia.
Qed.

(** An announcement that races with the expiry of its sender loses a count
    for good. When the quorum goroutine decides to expire a peer while the
    receive goroutine has already found that peer in the table, the receiver
    stores it again without counting it: the peer stays in the table and the
    counter is one too low. No later interleaving of the two goroutines repairs
    it, so the counter no longer bounds the table by [maxPeers]. *)
Theorem expiry_race_loses_count (st : shared) (name : string) (p : peerState) (now gen seen : Z)
    (Hr : sh_receiver st = R_idle) (Hq : sh_checker st = Q_idle)
    (Hcount : sh_count st = Z.of_nat (size (sh_peers st))) (Hmax : sh_count st ≤ maxPeers)
    (Hp : sh_peers st !! name = Some p) (Hexp : expired now p = true) :
  ∃ st', rtc interleave st st' ∧
    sh_peers st' = <[name := mkPeerState gen seen]> (sh_peers st) ∧
    sh_count st' = sh_count st - 1 ∧ sh_receiver st' = R_idle ∧
    ∀ n st'', nsteps interleave n st' st'' → Z.of_nat n ≤ 2 ^ 30 →
      sh_receiver st'' = R_idle → sh_checker st'' = Q_idle →
      sh_count st'' < Z.of_nat (size (sh_peers st'')).
Proof.
  destruct st as [m c r q]. simpl in *. subst r q.
  assert (wrap32 (c - 1) = c - 1) as W.
  { unfold maxPeers in Hmax. apply wrap32_small. unfold int32_range, min_int32, max_int32. lia. }
  set (m' := <[name := mkPeerState gen seen]> m).
  exists (mkShared m' (c - 1) R_idle (Q_range now ({[name]} ∪ ∅))). split_and!; try done.
  - eapply rtc_l; [apply (i_message _ _ _ name gen)|]. eapply rtc_l; [by apply i_loaded|].
    eapply rtc_l; [by apply i_put_old|]. eapply rtc_l; [apply (i_check _ _ _ now)|].
    eapply rtc_l; [by eapply (i_expired _ _ _ _ _ name p)|].
    eapply rtc_l; [apply i_delete|]. eapply rtc_l; [apply (i_store _ _ _ _ _ seen)|].
    eapply rtc_l; [apply i_sub|]. rewrite W, insert_delete_eq. apply rtc_refl.
  - intros n st'' Hsteps Hn Hr'' Hq''. assert (size m ≠ 0%nat) by (intros E%map_size_empty_inv; by subst).
    apply drift_steps in Hsteps; [|done|..].
    + unfold drift in Hsteps. rewrite Hr'', Hq'' in Hsteps. simpl in Hsteps.
      unfold m' in Hsteps. rewrite map_size_insert_Some in Hsteps by done. lia.
    + unfold min_int32. simpl. lia.
    + unfold max_int32, maxPeers in *. simpl. lia.
Qed.

Lemma expiry_race_loses_count_witness :
  ∃ st', rtc interleave (mkShared {["node-a" := mkPeerState 7 0]} 1 R_idle Q_idle) st' ∧
    sh_peers st' = {["node-a" := mkPeerState 8 (20 * Second)]} ∧ sh_count st' = 0.
Proof.
  destruct (expiry_race_loses_count (mkShared {["node-a" := mkPeerState 7 0]} 1 R_idle Q_idle)
    "node-a" (mkPeerState 7 0) (20 * Second) 8 (20 * Second)) as (st' & H1 & H2 & H3 & _);
    [reflexivity|reflexivity|reflexivity|by vm_compute|reflexivity|reflexivity|].
  exists st'. split; [exact H1|]. split; [|exact H3]. rewrite H2. reflexivity.
Defined.
