(* ===== verification/SdwanProbe.v ===== *)
(** * SD-WAN link probing

    [src/internal/agent/sdwan/prober.go] and [dscp.go]: the smoothed latency,
    the jitter window, the link score, the service level check and the prober
    that maintains them per link. The TCP connections are not modelled: the
    results of the probes of a cycle are an argument of [performProbe]. *)

From S2P Require Import Prelude Float64.
Open Scope Z_scope.
Open Scope go_scope.

(** ** DSCP *)

Definition dscpClassMap : gmap string Z := list_to_map
  [("EF", 46); ("AF41", 34); ("AF42", 36); ("AF43", 38); ("AF31", 26); ("AF32", 28); ("AF33", 30);
   ("AF21", 18); ("AF22", 20); ("AF23", 22); ("AF11", 10); ("AF12", 12); ("AF13", 14);
   ("CS7", 56); ("CS6", 48); ("CS5", 40); ("CS4", 32); ("CS3", 24); ("CS2", 16); ("CS1", 8);
   ("BE", 0); ("default", 0)]%string.

Definition DSCPClassToValue (class : string) : Z :=
  match dscpClassMap !! class with Some v => v | None => 0 end.

Definition DSCPToTOS (dscp : Z) : Z := wrap64 (Z.shiftl dscp 2).

(** ** Exponentially weighted moving average *)

Record ewma := mkEwma { ew_alpha : float64; ew_value : float64; ew_initialized : bool }.

(** 0.3 *)
Definition defaultEWMAAlpha : float64 := S754_finite false 5404319552844595 (-54).

Definition newEWMA (alpha : float64) : ewma :=
  let alpha := if fle alpha fzero || fgt alpha fone then defaultEWMAAlpha else alpha in
  mkEwma alpha fzero false.

Definition ewma_Add (value : float64) (e : ewma) : ewma :=
  if negb (ew_initialized e) then mkEwma (ew_alpha e) value true
  else mkEwma (ew_alpha e) (fadd (fmul (ew_alpha e) value) (fmul (fsub fone (ew_alpha e)) (ew_value e)))
         (ew_initialized e).

(** ** Jitter window *)

Record jitterTracker := mkJitterTracker { jt_samples : list float64; jt_pos : Z; jt_full : bool; jt_size : Z }.

Definition defaultJitterWindowSize : Z := 20.

Definition newJitterTracker (size : Z) : jitterTracker :=
  let size := if decide (size ≤ 0) then defaultJitterWindowSize else size in
  mkJitterTracker (replicate (Z.to_nat size) fzero) 0 false size.

(** Writing a sample outside the slice panics. *)
Definition jitter_Add (sample : float64) (j : jitterTracker) : outcome jitterTracker :=
  if decide (0 ≤ jt_pos j < Z.of_nat (length (jt_samples j))) then
    let samples := <[Z.to_nat (jt_pos j) := sample]> (jt_samples j) in
    let pos := jt_pos j + 1 in
    Returns (if decide (jt_size j ≤ pos) then mkJitterTracker samples 0 true (jt_size j)
             else mkJitterTracker samples pos (jt_full j) (jt_size j))
  else Panics.

Definition jitter_count (j : jitterTracker) : Z := if jt_full j then jt_size j else jt_pos j.

(** The first [n] samples; reading past the slice panics. *)
Definition first_samples (n : Z) (j : jitterTracker) : outcome (list float64) :=
  if decide (n ≤ Z.of_nat (length (jt_samples j))) then Returns (take (Z.to_nat n) (jt_samples j)) else Panics.

Definition Jitter (j : jitterTracker) : outcome float64 :=
  let n := jitter_count j in
  if decide (n < 2) then Returns fzero
  else
    let! samples := first_samples n j in
    let mean := fdiv (foldl fadd fzero samples) (float_of_Z n) in
    let variance := foldl (λ acc x, let diff := fsub x mean in fadd acc (fmul diff diff)) fzero samples in
    Returns (fsqrt (fdiv variance (float_of_Z n))).

(** ** Score and service level *)

Record WANLinkSLA := mkWANLinkSLA { sla_MaxLatencyMs : float64; sla_MaxJitterMs : float64; sla_MaxPacketLoss : float64 }.

Definition calculateScore (latencyMs jitterMs packetLoss : float64) : float64 :=
  if fge packetLoss fone then fzero
  else if fle latencyMs fzero then fone
  else
    let denominator := fadd latencyMs jitterMs in
    if fle denominator fzero then fone
    else
      let score := fdiv (fsub fone packetLoss) denominator in
      let score := if fgt score fone then fone else score in
      if flt score fzero then fzero else score.

Definition evaluateSLA (sla : option WANLinkSLA) (latencyMs jitterMs packetLoss : float64) : bool :=
  match sla with
  | None => true
  | Some s =>
      if fgt (sla_MaxLatencyMs s) fzero && fgt latencyMs (sla_MaxLatencyMs s) then false
      else if fgt (sla_MaxJitterMs s) fzero && fgt jitterMs (sla_MaxJitterMs s) then false
      else if fgt (sla_MaxPacketLoss s) fzero && fgt packetLoss (sla_MaxPacketLoss s) then false
      else true
  end.

(** ** The prober *)

Record LinkQuality := mkLinkQuality {
  lq_LinkName : string;
  lq_RemoteSite : string;
  lq_LatencyMs : float64;
  lq_JitterMs : float64;
  lq_PacketLoss : float64;
  lq_Score : float64;
  lq_LastUpdated : Z;
  lq_Healthy : bool
}.

(** [pt_running]: the target has a probe loop that is not cancelled. *)
Record probeTarget := mkProbeTarget {
  pt_linkName : string;
  pt_remoteSite : string;
  pt_addr : string;
  pt_sla : option WANLinkSLA;
  pt_running : bool
}.

Record Prober := mkProber {
  pr_targets : gmap string probeTarget;
  pr_qualities : gmap string LinkQuality;
  pr_latencies : gmap string ewma;
  pr_jitters : gmap string jitterTracker;
  pr_started : bool;
  pr_cancelled : bool
}.

Definition NewProber : Prober := mkProber ∅ ∅ ∅ ∅ false false.

Definition AddTarget (linkName remoteSite addr : string) (sla : option WANLinkSLA) (p : Prober) : Prober :=
  mkProber (<[linkName := mkProbeTarget linkName remoteSite addr sla (pr_started p && negb (pr_cancelled p))]> (pr_targets p))
    (<[linkName := mkLinkQuality linkName remoteSite fzero fzero fzero fzero time_zero true]> (pr_qualities p))
    (<[linkName := newEWMA defaultEWMAAlpha]> (pr_latencies p))
    (<[linkName := newJitterTracker defaultJitterWindowSize]> (pr_jitters p))
    (pr_started p) (pr_cancelled p).

Definition RemoveTarget (linkName : string) (p : Prober) : Prober :=
  mkProber (delete linkName (pr_targets p)) (delete linkName (pr_qualities p))
    (delete linkName (pr_latencies p)) (delete linkName (pr_jitters p)) (pr_started p) (pr_cancelled p).

Definition set_running (running : bool) (t : probeTarget) : probeTarget :=
  mkProbeTarget (pt_linkName t) (pt_remoteSite t) (pt_addr t) (pt_sla t) running.

(** [pr_cancelled]: the context of the prober, which the loops derive from, has
    been cancelled. *)
Definition Prober_Start (p : Prober) : Prober :=
  mkProber (set_running true <$> pr_targets p) (pr_qualities p) (pr_latencies p) (pr_jitters p) true false.

Definition Prober_Stop (p : Prober) : Prober :=
  if pr_started p then
    mkProber (set_running false <$> pr_targets p) (pr_qualities p) (pr_latencies p) (pr_jitters p) true true
  else p.

Definition GetQuality (linkName : string) (p : Prober) : option LinkQuality := pr_qualities p !! linkName.
Definition GetAllQualities (p : Prober) : gmap string LinkQuality := copy_map (pr_qualities p).

Definition probePacketCount : Z := 5.

(** The loop over the probes of a cycle: the latencies of the successful ones
    are added up. *)
Definition probe_sum (results : list (option float64)) : float64 * Z :=
  foldl (λ acc r, match r with Some latency => (fadd acc.1 latency, acc.2 + 1) | None => acc end) (fzero, 0) results.

(** One cycle of a target: [results] holds one entry per probe, the latency in
    milliseconds or [None] for a failed connection; [now] is read at the end. *)
Definition performProbe (target : probeTarget) (results : list (option float64)) (now : Z) (p : Prober)
    : outcome Prober :=
  let '(totalLatency, successCount) := probe_sum results in
  let packetLoss := fsub fone (fdiv (float_of_Z successCount) (float_of_Z probePacketCount)) in
  let name := pt_linkName target in
  match pr_latencies p !! name, pr_jitters p !! name, pr_qualities p !! name with
  | Some latency, Some jitter, Some q =>
      let! lj :=
        if decide (successCount > 0) then
          let avgLatency := fdiv totalLatency (float_of_Z successCount) in
          let! jitter := jitter_Add avgLatency jitter in
          Returns (ewma_Add avgLatency latency, jitter)
        else Returns (latency, jitter) in
      let currentLatency := ew_value lj.1 in
      let! currentJitter := Jitter lj.2 in
      let q' := mkLinkQuality (lq_LinkName q) (lq_RemoteSite q) currentLatency currentJitter packetLoss
                  (calculateScore currentLatency currentJitter packetLoss) now
                  (evaluateSLA (pt_sla target) currentLatency currentJitter packetLoss) in
      Returns (mkProber (pr_targets p) (<[name := q']> (pr_qualities p)) (<[name := lj.1]> (pr_latencies p))
                 (<[name := lj.2]> (pr_jitters p)) (pr_started p) (pr_cancelled p))
  | _, _, _ => Returns p
  end.

(** ** Well-formed probers *)

Definition jitter_wf (j : jitterTracker) : Prop :=
  Z.of_nat (length (jt_samples j)) = jt_size j ∧ 0 ≤ jt_pos j < jt_size j.

(** The four maps hold the same links, each quality is filed under the name of
    its link, and every jitter window is in range. *)
Definition prober_wf (p : Prober) : Prop :=
  dom (pr_targets p) = dom (pr_qualities p) ∧ dom (pr_latencies p) = dom (pr_qualities p) ∧
  dom (pr_jitters p) = dom (pr_qualities p) ∧
  map_Forall (λ k q, lq_LinkName q = k) (pr_qualities p) ∧ map_Forall (λ _ j, jitter_wf j) (pr_jitters p).

Definition in_unit (x : float64) : Prop := is_nan x = true ∨ fle fzero x = true ∧ fle x fone = true.

Lemma newJitterTracker_wf size : jitter_wf (newJitterTracker size).
Proof.
  unfold newJitterTracker, jitter_wf; simpl. case_decide; simpl; rewrite ?length_replicate;
    unfold defaultJitterWindowSize; lia.
Qed.

Lemma jitter_Add_wf x j : jitter_wf j → ∃ j', jitter_Add x j = Returns j' ∧ jitter_wf j'.
Proof.
  intros [Hlen Hpos]. unfold jitter_Add. rewrite decide_True by lia.
  case_decide; eexists; (split; [reflexivity|]); unfold jitter_wf; simpl; rewrite length_insert; lia.
Qed.

Lemma Jitter_returns j : jitter_wf j → ∃ x, Jitter j = Returns x.
Proof.
  intros [Hlen Hpos]. unfold Jitter, first_samples, jitter_count. case_decide; [by eexists|].
  rewrite decide_True by (destruct (jt_full j); lia). by eexists.
Qed.

Lemma calculateScore_unit l j loss : in_unit (calculateScore l j loss).
Proof.
  assert (in_unit fzero ∧ in_unit fone) as [H0 H1] by (split; right; by vm_compute).
  unfold calculateScore. destruct (fge loss fone); [done|]. destruct (fle l fzero); [done|].
  destruct (fle (fadd l j) fzero); [done|].
  set (score := fdiv _ _). destruct (fgt score fone) eqn:Hgt; [by destruct (flt fone fzero)|].
  destruct (flt score fzero) eqn:Hlt; [done|].
  destruct (is_nan score) eqn:Hnan; [by left|right]. split; rewrite fle_flt by done; by apply negb_true_iff.
Qed.

(** The packet loss of a cycle depends on the number of successes only. *)
Lemma probe_sum_count results :
  (probe_sum results).2 = Z.of_nat (length (filter (λ r, is_Some r) results)).
Proof.
  unfold probe_sum. rewrite <- (Z.add_0_l (Z.of_nat _)). change 0 with ((fzero, 0) : float64 * Z).2 at 2.
  generalize ((fzero, 0) : float64 * Z). induction results as [|r results IH]; intros acc; simpl; [lia|].
  rewrite IH, filter_cons. destruct r; [rewrite decide_True by by eexists|rewrite decide_False by (by intros [? ?])];
    simpl; lia.
Qed.

Lemma no_success (results : list (option float64)) :
  Forall (λ r, r = None) results → filter (λ r, is_Some r) results = [].
Proof. induction 1 as [|r results -> _ IH]; [done|]. by rewrite filter_cons_False by (by intros [? ?]). Qed.

Lemma all_success (results : list (option float64)) :
  Forall is_Some results → filter (λ r, is_Some r) results = results.
Proof. induction 1 as [|r results Hr _ IH]; [done|]. by rewrite filter_cons_True, IH. Qed.

(** What one cycle does to a link that is being probed. *)
Lemma performProbe_known target results now p q :
  prober_wf p → pr_qualities p !! pt_linkName target = Some q →
  ∃ p' q', performProbe target results now p = Returns p' ∧ prober_wf p' ∧
    pr_targets p' = pr_targets p ∧ pr_qualities p' = <[pt_linkName target := q']> (pr_qualities p) ∧
    lq_LastUpdated q' = now ∧
    lq_PacketLoss q' = fsub fone (fdiv (float_of_Z (probe_sum results).2) (float_of_Z probePacketCount)) ∧
    lq_Score q' = calculateScore (lq_LatencyMs q') (lq_JitterMs q') (lq_PacketLoss q') ∧
    lq_Healthy q' = evaluateSLA (pt_sla target) (lq_LatencyMs q') (lq_JitterMs q') (lq_PacketLoss q') ∧
    lq_LinkName q' = lq_LinkName q ∧
    ((probe_sum results).2 = 0 → ∀ e, pr_latencies p !! pt_linkName target = Some e → lq_LatencyMs q' = ew_value e).
Proof.
  intros (Ht & Hl & Hj & Hn & Hw) Hq. unfold performProbe. destruct (probe_sum results) as [total n]. simpl.
  set (name := pt_linkName target) in *.
  assert (is_Some (pr_latencies p !! name) ∧ is_Some (pr_jitters p !! name)) as [[e He] [j Ej]].
  { split; apply elem_of_dom; [rewrite Hl|rewrite Hj]; by apply elem_of_dom. }
  rewrite He, Ej, Hq. pose proof (Hw _ _ Ej) as Hwj.
  assert (∃ e' j', (if decide (n > 0) then
      let! jitter := jitter_Add (fdiv total (float_of_Z n)) j in
      Returns (ewma_Add (fdiv total (float_of_Z n)) e, jitter) else Returns (e, j)) = Returns (e', j') ∧ jitter_wf j' ∧
      (n = 0 → e' = e)) as (e' & j' & -> & Hwj' & He').
  { case_decide as Hpos; [|by exists e, j].
    destruct (jitter_Add_wf (fdiv total (float_of_Z n)) j Hwj) as (j' & -> & ?). eexists _, _.
    split; [reflexivity|]. split; [done|lia]. }
  simpl. destruct (Jitter_returns j' Hwj') as [x ->]. simpl.
  eexists _, _. split; [reflexivity|]. cbn [pr_targets pr_qualities]. split.
  - assert (name ∈ dom (pr_qualities p)) as Hin by (by apply elem_of_dom).
    unfold prober_wf; cbn [pr_targets pr_qualities pr_latencies pr_jitters]. rewrite !dom_insert_L, Hl, Hj.
    split_and!; try done; [set_solver|..].
    + apply map_Forall_insert_2; [|done]. by apply (Hn _ _ Hq).
    + by apply map_Forall_insert_2.
  - split_and!; try reflexivity. simpl. intros Hz e0 [= <-]. by rewrite He'.
Qed.

(** ** Runs of the prober *)

Inductive prober_step : Prober → Prober → Prop :=
  | ps_add name site addr sla p : prober_step p (AddTarget name site addr sla p)
  | ps_remove name p : prober_step p (RemoveTarget name p)
  | ps_start p : prober_step p (Prober_Start p)
  | ps_stop p : prober_step p (Prober_Stop p)
  | ps_probe target results now p p' :
      performProbe target results now p = Returns p' → prober_step p p'.

Lemma performProbe_unknown target results now p :
  pr_qualities p !! pt_linkName target = None → performProbe target results now p = Returns p.
Proof.
  intros Hq. unfold performProbe. destruct (probe_sum results). rewrite Hq.
  by destruct (pr_latencies p !! pt_linkName target), (pr_jitters p !! pt_linkName target).
Qed.

Lemma AddTarget_wf name site addr sla p : prober_wf p → prober_wf (AddTarget name site addr sla p).
Proof.
  intros (Ht & Hl & Hj & Hn & Hw). unfold prober_wf; simpl. rewrite !dom_insert_L, Ht, Hl, Hj.
  split_and!; try done; (apply map_Forall_insert_2; [|done]); [done|apply newJitterTracker_wf].
Qed.

Lemma RemoveTarget_wf name p : prober_wf p → prober_wf (RemoveTarget name p).
Proof.
  intros (Ht & Hl & Hj & Hn & Hw). unfold prober_wf; simpl. rewrite !dom_delete_L, Ht, Hl, Hj.
  split_and!; try done; by apply map_Forall_delete.
Qed.

Lemma prober_step_wf p p' : prober_step p p' → prober_wf p → prober_wf p'.
Proof.
  intros [] Hwf; auto using AddTarget_wf, RemoveTarget_wf.
  - destruct Hwf as (Ht & ?). split; [simpl; by rewrite dom_fmap_L|done].
  - unfold Prober_Stop. destruct (pr_started p0); [|done].
    destruct Hwf as (Ht & ?). split; [simpl; by rewrite dom_fmap_L|done].
  - destruct (pr_qualities p0 !! pt_linkName target) as [q|] eqn:Hq.
    + destruct (performProbe_known target results now p0 q Hwf Hq) as (p1 & q' & E & Hwf' & _).
      rewrite H in E. by injection E as ->.
    + rewrite (performProbe_unknown _ _ _ _ Hq) in H. by injection H as <-.
Qed.

Lemma prober_reachable_wf p : rtc prober_step NewProber p → prober_wf p.
Proof.
  intros Hr. apply (rtc_ind_r (R := prober_step) prober_wf NewProber); [| |done].
  - split_and!; (try (by rewrite ?dom_empty_L)); apply map_Forall_empty.
  - intros y z _ Hyz. by apply prober_step_wf.
Qed.

(** A probe cycle never panics and measures what it saw. In every state the
    prober reaches, the four maps describe the same links and the jitter
    windows are in range, so a cycle of any target returns. For a link that is
    being probed the stored score is between zero and one (or NaN), the packet
    loss is exactly one when every probe of the cycle failed, in which case the
    score is zero, exactly zero when none failed, and the link is healthy if
    and only if no bound of its service level is exceeded; the other links are
    not touched. A link that has been removed is not brought back. *)
Theorem probe_cycle_measures (p : Prober) (target : probeTarget) (results : list (option float64)) (now : Z)
    (Hreach : rtc prober_step NewProber p) (Hlen : length results = 5%nat) :
  prober_wf p ∧ ∃ p', performProbe target results now p = Returns p' ∧ pr_targets p' = pr_targets p ∧
    (∀ k, k ≠ pt_linkName target → pr_qualities p' !! k = pr_qualities p !! k) ∧
    match pr_qualities p' !! pt_linkName target with
    | None => pr_qualities p !! pt_linkName target = None
    | Some q => lq_LastUpdated q = now ∧ in_unit (lq_Score q) ∧
        (Forall (λ r, r = None) results → lq_PacketLoss q = fone ∧ lq_Score q = fzero) ∧
        (Forall is_Some results → lq_PacketLoss q = fzero) ∧
        lq_Healthy q = evaluateSLA (pt_sla target) (lq_LatencyMs q) (lq_JitterMs q) (lq_PacketLoss q)
    end.
Proof.
  pose proof (prober_reachable_wf p Hreach) as Hwf. split; [done|].
  destruct (pr_qualities p !! pt_linkName target) as [q|] eqn:Hq.
  - destruct (performProbe_known target results now p q Hwf Hq)
      as (p' & q' & -> & _ & Ht & Eq & Hu & Hloss & Hs & Hh & _).
    exists p'. split; [done|]. split; [done|]. rewrite Eq, lookup_insert_eq.
    split; [intros; by rewrite lookup_insert_ne|].
    split; [done|]. split; [rewrite Hs; apply calculateScore_unit|].
    rewrite probe_sum_count in Hloss. split_and!; [| |done].
    + intros Hall. rewrite no_success in Hloss by done.
      assert (lq_PacketLoss q' = fone) as E by (rewrite Hloss; by vm_compute).
      split; [done|]. rewrite Hs, E. unfold calculateScore. by replace (fge fone fone) with true by (by vm_compute).
    + intros Hall. rewrite all_success, Hlen in Hloss by done. rewrite Hloss. by vm_compute.
  - exists p. rewrite performProbe_unknown by done. rewrite Hq. done.
Qed.

Definition sample_prober : Prober := AddTarget "wan1" "paris" "192.0.2.1:443" None NewProber.
Definition sample_target : probeTarget := mkProbeTarget "wan1" "paris" "192.0.2.1:443" None false.

Lemma probe_cycle_measures_witness :
  ∃ p' q, performProbe sample_target (replicate 5 None) 9 sample_prober = Returns p' ∧
    pr_qualities p' !! "wan1"%string = Some q ∧ lq_PacketLoss q = fone ∧ lq_Score q = fzero.
Proof.
  destruct (probe_cycle_measures sample_prober sample_target (replicate 5 None) 9)
    as (_ & p' & E & _ & _ & Hq); [apply rtc_once, ps_add|reflexivity|].
  destruct (pr_qualities p' !! pt_linkName sample_target) as [q|] eqn:Eq.
  - exists p', q. destruct Hq as (_ & _ & H & _). destruct H as [H1 H2]; [by repeat constructor|].
    split; [exact E|]. split; [exact Eq|]. split; [exact H1|exact H2].
  - vm_compute in Hq. discriminate.
Defined.
