(* ===== verification/SdwanPath.v ===== *)
(** * SD-WAN path selection and link management

    [src/internal/agent/sdwan/pathselect.go], [linkmanager.go] and [sdwan.go]:
    the selection of a link for a policy with its hysteresis, the managed links
    on top of the prober, and the reconciliation with a configuration. The
    state loop, metrics and log output are not modelled. *)

From S2P Require Import Prelude Float64 GoLib SdwanProbe.
Open Scope Z_scope.
Open Scope go_scope.

(** ** Bandwidths *)

(** [bw[:len(bw)-4]]; a text whose lower case ends in four ASCII letters has at
    least four bytes. *)
Definition drop_unit (bw : string) : string := String.substring 0 (String.length bw - 4) bw.

(** 1000 and 0.001 *)
Definition f1000 : float64 := S754_finite false 8796093022208000 (-43).
Definition f0001 : float64 := S754_finite false 4611686018427388 (-62).

Section path.
Context `{SortSlice} `{TextTables}.

Definition parseBandwidthMbps (bw : string) : float64 :=
  if str_empty bw then fzero
  else
    let bw := TrimSpace bw in
    let lower := ToLower bw in
    let '(multiplier, numStr) :=
      if HasSuffix lower "gbps" then (f1000, drop_unit bw)
      else if HasSuffix lower "mbps" then (fone, drop_unit bw)
      else if HasSuffix lower "kbps" then (f0001, drop_unit bw)
      else (fone, bw) in
    match ParseFloat (TrimSpace numStr) with
    | None => fzero
    | Some val => fmul val multiplier
    end.

(** ** Path selection *)

Definition StrategyLowestLatency : string := "lowest-latency".
Definition StrategyHighestBandwidth : string := "highest-bandwidth".
Definition StrategyMostReliable : string := "most-reliable".
Definition StrategyLowestCost : string := "lowest-cost".

(** The comparisons of the [switch] in [selectPath]. *)
Definition path_less (strategy : string) (bandwidths : gmap string string) (costs : gmap string Z)
    (i j : LinkQuality) : bool :=
  if str_eqb strategy StrategyLowestLatency then flt (lq_LatencyMs i) (lq_LatencyMs j)
  else if str_eqb strategy StrategyHighestBandwidth then
    fgt (parseBandwidthMbps (map_get ""%string bandwidths (lq_LinkName i)))
        (parseBandwidthMbps (map_get ""%string bandwidths (lq_LinkName j)))
  else if str_eqb strategy StrategyMostReliable then flt (lq_PacketLoss i) (lq_PacketLoss j)
  else if str_eqb strategy StrategyLowestCost then
    map_get 0 costs (lq_LinkName i) <? map_get 0 costs (lq_LinkName j)
  else flt (lq_LatencyMs i) (lq_LatencyMs j).

Definition selectPath (strategy : string) (links : list LinkQuality) (bandwidths : gmap string string)
    (costs : gmap string Z) : string :=
  let healthy := filter (λ l, lq_Healthy l = true) links in
  match Slice (path_less strategy bandwidths costs) healthy with
  | [] => ""
  | l :: _ => lq_LinkName l
  end.

Inductive PathErr :=
  | errNoLinksAvailableForSelection
  | errNoHealthyLinkFoundForStrategy (strategy : string)
  | errNoLinkQualityDataAvailable.

Record PolicyConfig := mkPolicyConfig {
  pc_Name : string;
  pc_Strategy : string;
  pc_MatchHosts : list string;
  pc_MatchPaths : list string;
  pc_MatchHeaders : gmap string string;
  pc_DSCPClass : string;
  pc_Failover : bool
}.

Record PathSelector := mkPathSelector {
  sel_currentLinks : gmap string string;
  sel_switchTimes : gmap string Z;
  sel_hysteresis : Z;
  sel_policies : list PolicyConfig
}.

Definition defaultHysteresis : Z := 10 * Second.
Definition NewPathSelector : PathSelector := mkPathSelector ∅ ∅ defaultHysteresis [].

(** [SetCurrentLink], and the two assignments of [Select]. *)
Definition SetCurrentLink (policyName linkName : string) (now : Z) (ps : PathSelector) : PathSelector :=
  mkPathSelector (<[policyName := linkName]> (sel_currentLinks ps)) (<[policyName := now]> (sel_switchTimes ps))
    (sel_hysteresis ps) (sel_policies ps).

Definition shouldSwitch (policyName : string) (now : Z) (ps : PathSelector) : bool :=
  match sel_switchTimes ps !! policyName with
  | None => true
  | Some lastSwitch => bool_decide (sel_hysteresis ps ≤ time_Sub now lastSwitch)
  end.

(** [now] is the reading of [shouldSwitch], [now'] the one that is stored. *)
Definition Select (policyName strategy : string) (links : list LinkQuality) (bandwidths : gmap string string)
    (costs : gmap string Z) (now now' : Z) (ps : PathSelector) : PathSelector * (string + PathErr) :=
  match links with
  | [] => (ps, inr errNoLinksAvailableForSelection)
  | _ =>
      let selected := selectPath strategy links bandwidths costs in
      if str_empty selected then (ps, inr (errNoHealthyLinkFoundForStrategy strategy))
      else
        match sel_currentLinks ps !! policyName with
        | Some current =>
            if str_empty current then (SetCurrentLink policyName selected now' ps, inl selected)
            else if negb (str_eqb selected current) && shouldSwitch policyName now ps then
              (SetCurrentLink policyName selected now' ps, inl selected)
            else (ps, inl (map_get ""%string (sel_currentLinks ps) policyName))
        | None => (SetCurrentLink policyName selected now' ps, inl selected)
        end
  end.

Definition ApplyPolicies (policies : list PolicyConfig) (ps : PathSelector) : PathSelector :=
  mkPathSelector (sel_currentLinks ps) (sel_switchTimes ps) (sel_hysteresis ps) policies.

(** ** Managed links *)

Inductive LinkState := LinkStateActive | LinkStateDegraded | LinkStateDown.
Inductive WANLinkRole := RolePrimary | RoleBackup | RoleLoadbalance | RoleOther (s : string).

Record TunnelEndpoint := mkTunnelEndpoint { te_PublicIP : string; te_Port : Z }.

Record LinkConfig := mkLinkConfig {
  lc_Name : string;
  lc_Site : string;
  lc_Provider : string;
  lc_Role : WANLinkRole;
  lc_Bandwidth : string;
  lc_Cost : Z;
  lc_SLA : option WANLinkSLA;
  lc_TunnelEndpoint : option TunnelEndpoint;
  lc_ProbeAddr : string;
  lc_RemoteSite : string
}.

Record ManagedLink := mkManagedLink {
  ml_Name : string;
  ml_Site : string;
  ml_Provider : string;
  ml_Role : WANLinkRole;
  ml_Bandwidth : string;
  ml_Cost : Z;
  ml_SLA : option WANLinkSLA;
  ml_TunnelEndpoint : option TunnelEndpoint;
  ml_State : LinkState;
  ml_Quality : option LinkQuality
}.

(** The link manager with the prober and the selector it holds pointers to. *)
Record LinkManager := mkLinkManager {
  lm_links : gmap string ManagedLink;
  lm_prober : Prober;
  lm_selector : PathSelector
}.

Definition NewLinkManager : LinkManager := mkLinkManager ∅ NewProber NewPathSelector.

Inductive LinkErr := errLinkNameIsRequired | errLinkExists (name : string) | errLinkNotFound (name : string).

Definition new_link (c : LinkConfig) : ManagedLink :=
  mkManagedLink (lc_Name c) (lc_Site c) (lc_Provider c) (lc_Role c) (lc_Bandwidth c) (lc_Cost c) (lc_SLA c)
    (lc_TunnelEndpoint c) LinkStateActive None.

Definition AddLink (c : LinkConfig) (m : LinkManager) : LinkManager * option LinkErr :=
  if str_empty (lc_Name c) then (m, Some errLinkNameIsRequired)
  else
    match lm_links m !! lc_Name c with
    | Some _ => (m, Some (errLinkExists (lc_Name c)))
    | None =>
        let prober :=
          if negb (str_empty (lc_ProbeAddr c))
          then AddTarget (lc_Name c) (lc_RemoteSite c) (lc_ProbeAddr c) (lc_SLA c) (lm_prober m)
          else lm_prober m in
        (mkLinkManager (<[lc_Name c := new_link c]> (lm_links m)) prober (lm_selector m), None)
    end.

Definition RemoveLink (name : string) (m : LinkManager) : LinkManager * option LinkErr :=
  match lm_links m !! name with
  | None => (m, Some (errLinkNotFound name))
  | Some _ => (mkLinkManager (delete name (lm_links m)) (RemoveTarget name (lm_prober m)) (lm_selector m), None)
  end.

Definition GetLink (name : string) (m : LinkManager) : option ManagedLink := lm_links m !! name.

Definition GetLinksForSite (site : string) (order : list (string * ManagedLink)) : list ManagedLink :=
  foldl (λ acc kv, if str_eqb (ml_Site kv.2) site then acc ++ [kv.2] else acc) [] order.

(** The body of the loop of [UpdateLinkStates]. *)
Definition refresh (prober : Prober) (name : string) (link : ManagedLink) : ManagedLink :=
  match GetQuality name prober with
  | None => link
  | Some quality =>
      let state :=
        if fge (lq_PacketLoss quality) fone then LinkStateDown
        else if negb (lq_Healthy quality) then LinkStateDegraded
        else LinkStateActive in
      mkManagedLink (ml_Name link) (ml_Site link) (ml_Provider link) (ml_Role link) (ml_Bandwidth link)
        (ml_Cost link) (ml_SLA link) (ml_TunnelEndpoint link) state (Some quality)
  end.

Definition UpdateLinkStates (m : LinkManager) : LinkManager :=
  mkLinkManager (map_imap (λ name link, Some (refresh (lm_prober m) name link)) (lm_links m))
    (lm_prober m) (lm_selector m).

(** The metadata maps of [SelectPathForPolicy], for the links that are probed. *)
Definition probed_links (m : LinkManager) : gmap string ManagedLink :=
  map_fold (λ name _ acc, match lm_links m !! name with Some link => <[name := link]> acc | None => acc end)
    ∅ (GetAllQualities (lm_prober m)).

Definition SelectPathForPolicy (policyName strategy : string) (order : list (string * LinkQuality))
    (now now' : Z) (m : LinkManager) : LinkManager * (string + PathErr) :=
  let qualities := GetAllQualities (lm_prober m) in
  if decide (size qualities = 0%nat) then (m, inr errNoLinkQualityDataAvailable)
  else
    let '(selector, r) :=
      Select policyName strategy (snd <$> order) (ml_Bandwidth <$> probed_links m) (ml_Cost <$> probed_links m)
        now now' (lm_selector m) in
    (mkLinkManager (lm_links m) (lm_prober m) selector, r).

(** ** Reconciliation with a configuration *)

(** [ListLinks] in a visiting order of the map. *)
Definition ListLinks (order : list (string * ManagedLink)) : list string := fst <$> order.

Definition add_links (links : list LinkConfig) (m : LinkManager) : LinkManager :=
  foldl (λ m c, (AddLink c m).1) m links.

Definition remove_undesired (desired : list string) (current : list string) (m : LinkManager) : LinkManager :=
  foldl (λ m name, if contains desired name then m else (RemoveLink name m).1) m current.

(** [Manager.ApplyConfig]; errors of adding and removing are only logged. *)
Definition ApplyConfig (links : list LinkConfig) (policies : list PolicyConfig)
    (order : list (string * ManagedLink)) (m : LinkManager) : LinkManager :=
  let currentLinks := ListLinks order in
  let desired := lc_Name <$> links in
  let m := add_links links m in
  let m := remove_undesired desired currentLinks m in
  mkLinkManager (lm_links m) (lm_prober m) (ApplyPolicies policies (lm_selector m)).
End path.

(** ** The selected path is optimal *)

Section optimal.
Context `{HS : SortSlice} `{HT : TextTables}.

(** No measure of the links is NaN. *)
Definition no_nan (bandwidths : gmap string string) (l : LinkQuality) : Prop :=
  is_nan (lq_LatencyMs l) = false ∧ is_nan (lq_PacketLoss l) = false ∧
  is_nan (parseBandwidthMbps (map_get ""%string bandwidths (lq_LinkName l))) = false.

Lemma path_less_strict_weak strategy bandwidths costs :
  strict_weak (no_nan bandwidths) (path_less strategy bandwidths costs).
Proof.
  pose proof (strict_weak_map lq_LatencyMs _ _ flt_strict_weak) as [L1 L2].
  pose proof (strict_weak_map lq_PacketLoss _ _ flt_strict_weak) as [P1 P2].
  pose proof (strict_weak_map (λ l, parseBandwidthMbps (map_get ""%string bandwidths (lq_LinkName l))) _ _
    (strict_weak_flip _ _ flt_strict_weak)) as [B1 B2].
  pose proof (strict_weak_map (λ l, map_get 0 costs (lq_LinkName l)) _ _ Zltb_strict_weak) as [C1 C2].
  unfold path_less, no_nan, fgt in *.
  destruct (str_eqb strategy StrategyLowestLatency), (str_eqb strategy StrategyHighestBandwidth),
    (str_eqb strategy StrategyMostReliable), (str_eqb strategy StrategyLowestCost); split; naive_solver.
Qed.

Lemma selectPath_optimal strategy links bandwidths costs :
  Forall (no_nan bandwidths) links →
  (∃ l, l ∈ links ∧ lq_Healthy l = true ∧ selectPath strategy links bandwidths costs = lq_LinkName l ∧
     ∀ l', l' ∈ links → lq_Healthy l' = true → path_less strategy bandwidths costs l' l = false) ∨
  selectPath strategy links bandwidths costs = ""%string ∧ ∀ l, l ∈ links → lq_Healthy l = false.
Proof.
  intros Hnan. unfold selectPath. set (healthy := filter _ links). set (less := path_less _ _ _).
  pose proof (Slice_perm less healthy) as Hperm.
  assert (strict_weak (λ x, x ∈ healthy) less) as Hsw.
  { destruct (path_less_strict_weak strategy bandwidths costs) as [H1 H2]. rewrite Forall_forall in Hnan.
    assert (∀ x, x ∈ healthy → no_nan bandwidths x) by (intros x [_ Hx]%list_elem_of_filter; auto).
    split; [intros x y ??; apply H1; auto|intros x y z ???; apply (H2 x y z); auto]. }
  pose proof (Slice_sorts less healthy Hsw) as Hsort.
  destruct (Slice less healthy) as [|l rest].
  - right. split; [done|]. intros l Hl. destruct (lq_Healthy l) eqn:E; [|done].
    assert (l ∈ healthy) as Hin by (by apply list_elem_of_filter). rewrite <- Hperm in Hin. by apply elem_of_nil in Hin.
  - left. exists l. assert (l ∈ healthy) as [Hh Hl]%list_elem_of_filter by (rewrite <- Hperm; apply list_elem_of_here).
    split_and!; try done. intros l' Hl' Hh'.
    assert (l' ∈ healthy) as Hin by (by apply list_elem_of_filter). rewrite <- Hperm in Hin.
    apply elem_of_cons in Hin as [->|Hin].
    + destruct (less l l) eqn:E; [|done]. pose proof E as E'. apply Hsw in E; [congruence|..]; rewrite <- Hperm; apply list_elem_of_here.
    + apply StronglySorted_inv in Hsort as [_ Hall]. rewrite Forall_forall in Hall. by apply Hall.
Qed.
End optimal.


Definition ascii_tables : TextTables := {| ToLower := λ s, s; TrimSpace := λ s, s; ParseFloat := λ _, Some fone |}.

Definition sample_link (name : string) (latency : Z) : LinkQuality :=
  mkLinkQuality name "paris" (float_of_Z latency) fzero fzero fone 0 true.


(** A link that breaches its service level is kept while the hysteresis lasts,
    although another link is healthy. *)
Example unhealthy_link_is_kept :
  let fiber := sample_link "fiber" 10 in
  let breached := mkLinkQuality (lq_LinkName fiber) (lq_RemoteSite fiber) (lq_LatencyMs fiber) (lq_JitterMs fiber)
                    (lq_PacketLoss fiber) (lq_Score fiber) (lq_LastUpdated fiber) false in
  let ps := (@Select insertion_SortSlice ascii_tables "video" StrategyLowestLatency
               [sample_link "mpls" 30; fiber] ∅ ∅ 5 5 NewPathSelector).1 in
  (@Select insertion_SortSlice ascii_tables "video" StrategyLowestLatency
     [sample_link "mpls" 30; breached] ∅ ∅ 6 6 ps).2 = inl "fiber"%string.
Proof. by vm_compute. Qed.

(** A link that never answered and has no service level is preferred by
    lowest latency. When every probe of a cycle fails, the link keeps the
    smoothed latency of its past successes, zero when there are none, and
    without a service level it counts as healthy: against links with a positive
    latency it is the selected path, while the link manager marks it as down. *)
Theorem silent_link_is_preferred `{SortSlice} `{TextTables} (p : Prober) (target : probeTarget)
    (results : list (option float64)) (now : Z) (e : ewma) (links : list LinkQuality)
    (bandwidths : gmap string string) (costs : gmap string Z)
    (Hreach : rtc prober_step NewProber p) (Hsla : pt_sla target = None)
    (Hlat : pr_latencies p !! pt_linkName target = Some e) (Hnever : ew_value e = fzero)
    (Hlen : length results = 5%nat) (Hfail : Forall (λ r, r = None) results)
    (Hnan : Forall (no_nan bandwidths) links)
    (Hothers : Forall (λ l, lq_LinkName l = pt_linkName target ∨ flt fzero (lq_LatencyMs l) = true) links) :
  ∃ p' q, performProbe target results now p = Returns p' ∧
    GetQuality (pt_linkName target) p' = Some q ∧ lq_PacketLoss q = fone ∧ lq_Healthy q = true ∧
    (q ∈ links → selectPath StrategyLowestLatency links bandwidths costs = pt_linkName target) ∧
    ∀ link, ml_State (refresh p' (pt_linkName target) link) = LinkStateDown.
Proof.
  pose proof (prober_reachable_wf p Hreach) as Hwf.
  assert (is_Some (pr_qualities p !! pt_linkName target)) as [q0 Hq0].
  { destruct Hwf as (_ & Hl & _). apply elem_of_dom. rewrite <- Hl. by apply elem_of_dom. }
  destruct (performProbe_known target results now p q0 Hwf Hq0)
    as (p' & q & E & _ & _ & Eq & _ & Hloss & _ & Hh & Hname & Hkeep).
  rewrite probe_sum_count, no_success in Hloss by done.
  assert (lq_PacketLoss q = fone) as Hone by (rewrite Hloss; by vm_compute).
  assert (GetQuality (pt_linkName target) p' = Some q) as Hget by (unfold GetQuality; by rewrite Eq, lookup_insert_eq).
  assert (lq_LatencyMs q = fzero) as Hzero.
  { rewrite <- Hnever. apply Hkeep; [|done]. by rewrite probe_sum_count, no_success. }
  assert (lq_LinkName q = pt_linkName target) as Hqn.
  { rewrite Hname. destruct Hwf as (_ & _ & _ & Hn & _). by apply (Hn _ _ Hq0). }
  exists p', q. rewrite Hsla in Hh. split_and!; try done.
  - intros Hin. rewrite Forall_forall in Hothers.
    destruct (selectPath_optimal StrategyLowestLatency links bandwidths costs Hnan) as [(l & Hl & _ & -> & Hopt)|[_ Hno]].
    + destruct (Hothers l Hl) as [?|Hpos]; [done|]. specialize (Hopt q Hin Hh).
      unfold path_less in Hopt. simpl in Hopt. rewrite Hzero in Hopt. congruence.
    + rewrite (Hno q Hin) in Hh. done.
  - intros link. unfold refresh. rewrite Hget, Hone. reflexivity.
Qed.

Lemma silent_link_is_preferred_witness :
  ∃ p' q, performProbe sample_target (replicate 5 None) 9 sample_prober = Returns p' ∧
    GetQuality "wan1" p' = Some q ∧ lq_PacketLoss q = fone ∧
    @selectPath insertion_SortSlice ascii_tables StrategyLowestLatency [sample_link "mpls" 30; q] ∅ ∅ = "wan1"%string.
Proof.
  set (q := mkLinkQuality "wan1" "paris" fzero fzero fone fzero 9 true).
  destruct (@silent_link_is_preferred insertion_SortSlice ascii_tables sample_prober sample_target (replicate 5 None) 9
    (newEWMA defaultEWMAAlpha) [sample_link "mpls" 30; q] ∅ ∅) as (p' & q' & E & Hq & Hl & _ & Hsel & _).
  - apply rtc_once, ps_add.
  - reflexivity.
  - by vm_compute.
  - reflexivity.
  - reflexivity.
  - by repeat constructor.
  - repeat constructor; by vm_compute.
  - constructor; [right; by vm_compute|]. constructor; [by left|constructor].
  - exists p', q'. assert (q' = q) as ->.
    { vm_compute in E. injection E as <-. vm_compute in Hq. by injection Hq as <-. }
    split; [exact E|]. split; [exact Hq|]. split; [exact Hl|]. apply Hsel. set_solver.
Defined.

(** ** Reconciliation *)

(** Only managed links are probed. *)
Definition probes_managed (m : LinkManager) : Prop :=
  dom (pr_qualities (lm_prober m)) ⊆ dom (lm_links m).

Lemma AddLink_lookup c m name :
  name ≠ ""%string →
  lm_links (AddLink c m).1 !! name =
    match lm_links m !! name with
    | Some l => Some l
    | None => if decide (lc_Name c = name) then Some (new_link c) else None
    end.
Proof.
  intros Hne. unfold AddLink, str_empty. case_bool_decide as Hempty.
  - simpl. rewrite decide_False by congruence. by destruct (lm_links m !! name).
  - destruct (lm_links m !! lc_Name c) as [l|] eqn:E; simpl.
    + case_decide as Hn; [rewrite <- Hn, E; done|]. by destruct (lm_links m !! name).
    + case_decide as Hn; [rewrite <- Hn, E, lookup_insert_eq; done|].
      rewrite lookup_insert_ne by done. by destruct (lm_links m !! name).
Qed.

Lemma add_links_lookup links m name :
  name ≠ ""%string →
  lm_links (add_links links m) !! name =
    match lm_links m !! name with
    | Some l => Some l
    | None => new_link <$> head (filter (λ c, lc_Name c = name) links)
    end.
Proof.
  intros Hne. unfold add_links. revert m. induction links as [|c links IH]; intros m; simpl.
  - by destruct (lm_links m !! name).
  - rewrite IH, AddLink_lookup, filter_cons by done.
    destruct (lm_links m !! name); [done|]. by case_decide.
Qed.

Lemma RemoveLink_lookup name m k :
  lm_links (RemoveLink name m).1 !! k = if decide (name = k) then None else lm_links m !! k.
Proof.
  unfold RemoveLink. destruct (lm_links m !! name) eqn:E; simpl; case_decide as Hk; try done.
  - subst. by rewrite lookup_delete_eq.
  - by rewrite lookup_delete_ne.
  - by subst.
Qed.

Lemma remove_undesired_lookup desired current m k :
  lm_links (remove_undesired desired current m) !! k =
    if decide (k ∈ current ∧ k ∉ desired) then None else lm_links m !! k.
Proof.
  unfold remove_undesired. revert m. induction current as [|n current IH]; intros m; cbn [foldl].
  - rewrite decide_False; [done|]. intros [?%elem_of_nil _]. done.
  - rewrite IH. unfold contains. case_bool_decide as Hd.
    + repeat case_decide; try done; set_solver.
    + rewrite RemoveLink_lookup. repeat case_decide; try done; set_solver.
Qed.

Lemma AddLink_probes c m : probes_managed m → probes_managed (AddLink c m).1.
Proof.
  unfold AddLink, probes_managed. intros Hm. destruct (str_empty (lc_Name c)); [done|].
  destruct (lm_links m !! lc_Name c); [done|]. simpl. destruct (negb _); simpl; set_solver.
Qed.

Lemma RemoveLink_probes name m : probes_managed m → probes_managed (RemoveLink name m).1.
Proof. unfold RemoveLink, probes_managed. intros Hm. destruct (lm_links m !! name); [simpl; set_solver|done]. Qed.

Lemma configured links name :
  name ∈ lc_Name <$> links → is_Some (new_link <$> head (filter (λ c, lc_Name c = name) links)).
Proof.
  intros (c & -> & Hc)%list_elem_of_fmap.
  assert (c ∈ filter (λ c', lc_Name c' = lc_Name c) links) as Hin by (by apply list_elem_of_filter).
  destruct (filter _ links); [by apply elem_of_nil in Hin|by eexists].
Qed.

Lemma unconfigured links name :
  name ∉ lc_Name <$> links → filter (λ c, lc_Name c = name) links = [].
Proof.
  intros Hin. destruct (filter _ links) as [|c l] eqn:E; [done|]. exfalso. apply Hin.
  assert (c ∈ filter (λ c', lc_Name c' = name) links) as [Hc Hl]%list_elem_of_filter by (rewrite E; apply list_elem_of_here).
  rewrite <- Hc. by apply list_elem_of_fmap_2.
Qed.

Lemma foldl_invariant {A B} (P : A → Prop) (f : A → B → A) (l : list B) (a : A) :
  (∀ a b, P a → P (f a b)) → P a → P (foldl f a l).
Proof. intros Hf. revert a. induction l as [|b l IH]; intros a Ha; simpl; auto. Qed.

(** Applying a configuration manages exactly the configured links. After
    [ApplyConfig] a name is managed if and only if the configuration has a link
    of that name; a link that was not managed before is created from the first
    configured link of its name, a link that was managed before is kept exactly
    as it was, whatever the configuration now says about it, and only managed
    links are probed; the configured policies are stored. *)
Theorem apply_config_reconciles (links : list LinkConfig) (policies : list PolicyConfig)
    (order : list (string * ManagedLink)) (m : LinkManager)
    (Horder : range_order (lm_links m) order) (Hprobes : probes_managed m) :
  let m' := ApplyConfig links policies order m in
  (∀ name, name ≠ ""%string →
     lm_links m' !! name =
       if decide (name ∈ lc_Name <$> links) then
         match lm_links m !! name with
         | Some l => Some l
         | None => new_link <$> head (filter (λ c, lc_Name c = name) links)
         end
       else None) ∧
  (∀ name, name ≠ ""%string → is_Some (lm_links m' !! name) ↔ name ∈ lc_Name <$> links) ∧
  probes_managed m' ∧ sel_policies (lm_selector m') = policies.
Proof.
  intros m'. assert (∀ name, name ≠ ""%string →
     lm_links m' !! name =
       if decide (name ∈ lc_Name <$> links) then
         match lm_links m !! name with
         | Some l => Some l
         | None => new_link <$> head (filter (λ c, lc_Name c = name) links)
         end
       else None) as Hlook.
  { intros name Hne. subst m'. unfold ApplyConfig, ListLinks. simpl.
    rewrite remove_undesired_lookup, add_links_lookup by done.
    assert (name ∈ order.*1 ↔ is_Some (lm_links m !! name)) as Hcur.
    { rewrite Horder, <- elements_dom, elem_of_elements. apply elem_of_dom. }
    destruct (decide (name ∈ lc_Name <$> links)) as [Hin|Hin].
    - by rewrite decide_False by tauto.
    - destruct (lm_links m !! name) eqn:E.
      + rewrite decide_True; [done|]. split; [by apply Hcur|done].
      + case_decide; [done|]. rewrite (unconfigured links name Hin). done. }
  split_and!; [done| | |done].
  - intros name Hne. rewrite Hlook by done. case_decide as Hin; [|split; [by intros [? ?]|done]].
    split; [done|]. intros _. destruct (lm_links m !! name); [done|]. by apply configured.
  - change (probes_managed (remove_undesired (lc_Name <$> links) (ListLinks order) (add_links links m))).
    unfold remove_undesired. apply (foldl_invariant probes_managed).
    + intros m0 n Hm. destruct (contains _ _); [done|by apply RemoveLink_probes].
    + unfold add_links. apply (foldl_invariant probes_managed); [|done]. intros. by apply AddLink_probes.
Qed.

Definition sample_config_link (name : string) (cost : Z) : LinkConfig :=
  mkLinkConfig name "hq" "isp" RolePrimary "1Gbps" cost None None "192.0.2.1:443" "paris".

(** The cost of a managed link is changed by the configuration and stays. *)
Lemma apply_config_reconciles_witness :
  let m := ApplyConfig [sample_config_link "a" 1; sample_config_link "b" 2] [] [] NewLinkManager in
  let m' := ApplyConfig [sample_config_link "b" 9; sample_config_link "c" 3] [] (map_to_list (lm_links m)) m in
  lm_links m' !! "a"%string = None ∧ lm_links m' !! "b"%string = Some (new_link (sample_config_link "b" 2)) ∧
  lm_links m' !! "c"%string = Some (new_link (sample_config_link "c" 3)).
Proof.
  intros m m'.
  destruct (apply_config_reconciles [sample_config_link "b" 9; sample_config_link "c" 3] []
    (map_to_list (lm_links m)) m) as (H & _).
  - unfold range_order. reflexivity.
  - apply (bool_decide_unpack _). by vm_compute.
  - split; [|split]; (etransitivity; [apply H; discriminate|]); vm_compute; reflexivity.
Defined.
