(* ===== verification/Merkle.v ===== *)
(** * The Merkle tree of the anti-entropy component
    (MerkleNode and MerkleTree of src/internal/controller/federation/antientropy.go)

    [buildNode] visits the buckets of a node in the unspecified order of a Go
    map: the order is the argument [visit], a function that rearranges a list.
    The theorems show that the root hash does not depend on it, and what
    [Compare] reports. *)

From S2P Require Import Prelude Sha256.
Open Scope Z_scope.

Definition MerkleTreeDepth : Z := 4.

#[warnings="-register-all"]
Inductive MerkleNode := mkMerkleNode {
  mn_Hash : string;
  mn_Level : Z;
  mn_Prefix : string;
  mn_IsLeaf : bool;
  mn_Children : list (string * MerkleNode);
  mn_ChildHashes : gmap string string;
  mn_Resources : list string;
}.

Record MerkleTree := mkMerkleTree {
  mt_root : option MerkleNode;
  mt_resources : gmap string string;
  mt_depth : Z;
}.

Definition NewMerkleTree (depth : Z) : MerkleTree :=
  mkMerkleTree None ∅ (if decide (depth ≤ 0) then MerkleTreeDepth else depth).

(** A rearrangement of the entries of a map. *)
Definition visit_order : Type := list (string * list string) → list (string * list string).

(** ** Building *)

(** The bytes written to the hash of a leaf. *)
Definition leaf_text (resources : gmap string string) (keys : list string) : string :=
  foldl (λ acc key, acc +:+ key +:+ map_get "" resources key) "" keys.

Definition bucket_of (prefix key : string) : string :=
  if decide (String.length prefix < String.length key)%nat
  then String.substring (String.length prefix) 1 key else "".

Definition split_buckets (prefix : string) (keys : list string) : gmap string (list string) :=
  foldl (λ buckets key,
    let bucket := bucket_of prefix key in
    <[bucket := map_get [] buckets bucket ++ [key]]> buckets) ∅ keys.

(** The text of an inner node: its children's hashes, sorted. *)
Definition inner_text (childHashes : list string) : string :=
  foldl (λ acc ch, acc +:+ ch) "" (sort_strings childHashes).

Section build.
Context (visit : visit_order) (resources : gmap string string) (depth : Z).

(** [buildNode] at level [depth - fuel]: the level reaches the depth exactly
    when the fuel is used up. *)
Fixpoint buildNode (fuel : nat) (keys : list string) (prefix : string) : option MerkleNode :=
  let level := depth - Z.of_nat fuel in
  match keys with
  | [] => None
  | _ =>
      let leaf := Some {| mn_Hash := sha256_hex16 (leaf_text resources keys); mn_Level := level;
                          mn_Prefix := prefix; mn_IsLeaf := true; mn_Children := [];
                          mn_ChildHashes := ∅; mn_Resources := keys |} in
      match fuel with
      | O => leaf
      | S fuel =>
          if decide (length keys ≤ 4)%nat then leaf
          else
            let children :=
              omap (λ bk,
                let childPrefix := prefix +:+ bk.1 in
                (λ child, (childPrefix, child)) <$> buildNode fuel bk.2 childPrefix)
                (visit (map_to_list (split_buckets prefix keys))) in
            Some {| mn_Hash := sha256_hex16 (inner_text ((λ c, mn_Hash c.2) <$> children));
                    mn_Level := level; mn_Prefix := prefix; mn_IsLeaf := false;
                    mn_Children := children;
                    mn_ChildHashes := list_to_map ((λ c, (c.1, mn_Hash c.2)) <$> children);
                    mn_Resources := [] |}
      end
  end.

Definition rebuild : option MerkleNode :=
  if decide (resources = ∅) then None
  else buildNode (Z.to_nat depth) (sort_strings (map_to_list resources).*1) "".
End build.

Definition with_resources (visit : visit_order) (t : MerkleTree) (resources : gmap string string) : MerkleTree :=
  mkMerkleTree (rebuild visit resources (mt_depth t)) resources (mt_depth t).

Definition Update (visit : visit_order) (t : MerkleTree) (key hash : string) : MerkleTree :=
  with_resources visit t (<[key := hash]> (mt_resources t)).

Definition Remove (visit : visit_order) (t : MerkleTree) (key : string) : MerkleTree :=
  with_resources visit t (delete key (mt_resources t)).

Definition GetRoot (t : MerkleTree) : string :=
  match mt_root t with None => "" | Some n => mn_Hash n end.

(** [findNode]: the children in the order of the node's list. *)
Fixpoint findNode (fuel : nat) (node : MerkleNode) (prefix : string) : option MerkleNode :=
  if str_eqb (mn_Prefix node) prefix then Some node
  else if mn_IsLeaf node then None
  else
    match fuel with
    | O => None
    | S fuel =>
        (fix go (children : list (string * MerkleNode)) : option MerkleNode :=
           match children with
           | [] => None
           | (childPrefix, child) :: rest =>
               if str_eqb childPrefix prefix then Some child
               else if decide (String.length childPrefix < String.length prefix)%nat then
                 if HasPrefix prefix childPrefix then
                   match findNode fuel child prefix with
                   | Some result => Some result
                   | None => go rest
                   end
                 else go rest
               else go rest
           end) (mn_Children node)
    end.

(** [GetNodeAt]; a tree built by [rebuild] is not deeper than its depth. *)
Definition GetNodeAt (t : MerkleTree) (prefix : string) : option MerkleNode :=
  match mt_root t with None => None | Some n => findNode (Z.to_nat (mt_depth t)) n prefix end.

Definition GetResourceHashes (t : MerkleTree) : gmap string string := copy_map (mt_resources t).

(** ** Comparing *)

Definition same_root (t other : MerkleTree) : bool :=
  match mt_root t, mt_root other with
  | Some a, Some b => str_eqb (mn_Hash a) (mn_Hash b)
  | _, _ => false
  end.

(** [Compare]; [order] and [order'] are the visiting orders of the two resource
    maps. *)
Definition Compare (order order' : list (string * string)) (t : MerkleTree) (other : option MerkleTree)
    : list string :=
  match other with
  | None => order.*1
  | Some other =>
      if same_root t other then []
      else
        let diffs := foldl (λ diffs kv,
          match mt_resources other !! kv.1 with
          | Some otherHash => if str_eqb otherHash kv.2 then diffs else diffs ++ [kv.1]
          | None => diffs ++ [kv.1]
          end) [] order in
        foldl (λ diffs kv,
          match mt_resources t !! kv.1 with
          | Some _ => diffs
          | None => diffs ++ [kv.1]
          end) diffs order'
  end.

(** ** The root hash is a function of the contents *)

Definition permutes (visit : visit_order) : Prop := ∀ l, visit l ≡ₚ l.

Lemma omap_ext {A B} (f g : A → option B) (l : list A) : (∀ x, f x = g x) → omap f l = omap g l.
Proof. intros H. induction l as [|x l IH]; [done|]. csimpl. by rewrite H, IH. Qed.

Lemma omap_ext_perm {A B} (f g : A → option B) (l l' : list A) :
  (∀ x, f x = g x) → l ≡ₚ l' → omap f l ≡ₚ omap g l'.
Proof. intros Hfg ->. by rewrite (omap_ext f g). Qed.

Lemma fmap_omap {A B C} (f : A → option B) (h : B → C) (l : list A) :
  h <$> omap f l = omap (λ x, h <$> f x) l.
Proof. induction l as [|x l IH]; [done|]. csimpl. destruct (f x); csimpl; by rewrite IH. Qed.

(** The hashes of the children, as the recursion computes them. *)
Lemma children_hashes visit resources depth fuel prefix (l : list (string * list string)) :
  (λ c, mn_Hash c.2) <$> omap (λ bk : string * list string,
      (λ child, (prefix +:+ bk.1, child)) <$> buildNode visit resources depth fuel bk.2 (prefix +:+ bk.1)) l =
  omap (λ bk, mn_Hash <$> buildNode visit resources depth fuel bk.2 (prefix +:+ bk.1)) l.
Proof.
  rewrite fmap_omap. apply omap_ext. intros bk.
  by destruct (buildNode _ _ _ _ _ _).
Qed.

Lemma inner_text_perm l l' : l ≡ₚ l' → inner_text l = inner_text l'.
Proof. intros H. unfold inner_text. by rewrite (sort_strings_canonical l l'). Qed.

Lemma buildNode_hash visit visit' resources depth fuel keys prefix :
  permutes visit → permutes visit' →
  mn_Hash <$> buildNode visit resources depth fuel keys prefix =
  mn_Hash <$> buildNode visit' resources depth fuel keys prefix.
Proof.
  intros Hv Hv'. revert keys prefix. induction fuel as [|fuel IH]; intros keys prefix; [done|].
  destruct keys as [|key keys]; [done|]. simpl. case_decide; [done|]. simpl. do 2 f_equal.
  apply inner_text_perm. rewrite !children_hashes. apply omap_ext_perm.
  - intros bk. apply IH.
  - by rewrite (Hv _), (Hv' _).
Qed.

(** A tree as its operations leave it: the root is the rebuilt one. *)
Definition tree_wf (t : MerkleTree) : Prop :=
  0 < mt_depth t ∧ ∃ visit, permutes visit ∧ mt_root t = rebuild visit (mt_resources t) (mt_depth t).

Lemma NewMerkleTree_wf depth : tree_wf (NewMerkleTree depth).
Proof.
  split; [unfold NewMerkleTree, MerkleTreeDepth; simpl; case_decide; lia|].
  exists (λ l, l). split; [by intros l|]. unfold rebuild. by rewrite decide_True.
Qed.

Lemma with_resources_wf visit t m : permutes visit → tree_wf t → tree_wf (with_resources visit t m).
Proof. intros Hv [Hd _]. split; [done|]. by exists visit. Qed.

Lemma rebuild_None visit m depth : rebuild visit m depth = None ↔ m = ∅.
Proof.
  unfold rebuild. case_decide as Hm; [done|]. split; [|done].
  destruct (sort_strings (map_to_list m).*1) as [|k ks] eqn:E.
  - intros _. apply map_to_list_empty_iff. pose proof (sort_strings_perm (map_to_list m).*1) as Hp.
    rewrite E in Hp. symmetry in Hp. apply Permutation_nil_r in Hp. by apply fmap_nil_inv in Hp.
  - destruct (Z.to_nat depth); simpl; [done|]. by case_decide.
Qed.

Lemma GetRoot_contents t t' :
  tree_wf t → tree_wf t' → mt_resources t = mt_resources t' → mt_depth t = mt_depth t' →
  mn_Hash <$> mt_root t = mn_Hash <$> mt_root t'.
Proof.
  intros (_ & v & Hv & ->) (_ & v' & Hv' & ->) -> ->. unfold rebuild.
  case_decide; [done|]. by apply buildNode_hash.
Qed.

(** Equal contents, equal roots: no difference is reported. *)
Lemma Compare_same_contents order order' t t' :
  tree_wf t → tree_wf t' → mt_resources t = mt_resources t' → mt_depth t = mt_depth t' →
  range_order (mt_resources t) order → range_order (mt_resources t') order' →
  Compare order order' t (Some t') = [].
Proof.
  intros Hwf Hwf' Hres Hdep Ho Ho'. pose proof (GetRoot_contents t t' Hwf Hwf' Hres Hdep) as Hroot.
  unfold Compare, same_root.
  destruct (mt_root t) as [a|] eqn:Ea, (mt_root t') as [b|] eqn:Eb; simpl in Hroot; try done.
  - injection Hroot as ->. unfold str_eqb. by rewrite bool_decide_eq_true_2.
  - destruct Hwf as (_ & v & _ & Hr). rewrite Ea in Hr. symmetry in Hr. apply rebuild_None in Hr.
    assert (order = []) as ->.
    { apply Permutation_nil_r. rewrite Ho, Hr, map_to_list_empty. done. }
    assert (order' = []) as ->.
    { apply Permutation_nil_r. rewrite Ho', <- Hres, Hr, map_to_list_empty. done. }
    done.
Qed.

Lemma Compare_diffs order order' t t' :
  same_root t t' = false →
  Compare order order' t (Some t') =
    (filter (λ kv, bool_decide (mt_resources t' !! kv.1 = Some kv.2) = false) order).*1 ++
    (filter (λ kv, bool_decide (mt_resources t !! kv.1 = None) = true) order').*1.
Proof.
  intros Hroot. unfold Compare. rewrite Hroot.
  rewrite (foldl_append _ (λ kv, bool_decide (mt_resources t !! kv.1 = None)) fst).
  - rewrite (foldl_append _ (λ kv, negb (bool_decide (mt_resources t' !! kv.1 = Some kv.2))) fst).
    + simpl. do 2 f_equal. apply list_filter_iff. intros x. by rewrite negb_true_iff.
    + intros d x. destruct (mt_resources t' !! x.1) as [h|] eqn:E; simpl; [|done].
      unfold str_eqb. destruct (decide (h = x.2)) as [->|Hne].
      * by rewrite !bool_decide_eq_true_2.
      * rewrite !bool_decide_eq_false_2; [done|congruence|done].
  - intros d x. by destruct (mt_resources t !! x.1).
Qed.

(** C10: the Merkle comparison reports drift exactly, whenever the roots tell
    the trees apart. For trees built by any history of updates and removals, the
    comparison lists without repetition the keys whose hashes differ or that
    only one side has; and the root hash is a function of the contents alone,
    independent of the history and of the order in which maps are visited, so
    trees with equal contents compare as equal. *)
Theorem Compare_exact (t t' : MerkleTree) (order order' : list (string * string))
    (Hwf : tree_wf t) (Hwf' : tree_wf t') (Hdep : mt_depth t = mt_depth t')
    (Ho : range_order (mt_resources t) order) (Ho' : range_order (mt_resources t') order') :
  let diffs := Compare order order' t (Some t') in
  (mt_resources t = mt_resources t' → GetRoot t = GetRoot t' ∧ diffs = []) ∧
  (same_root t t' = false →
     NoDup diffs ∧ ∀ k, k ∈ diffs ↔ mt_resources t !! k ≠ mt_resources t' !! k).
Proof.
  intros diffs. split.
  - intros Hres. split; [|by apply Compare_same_contents].
    pose proof (GetRoot_contents t t' Hwf Hwf' Hres Hdep) as Hroot. unfold GetRoot.
    by destruct (mt_root t), (mt_root t'); simpl in Hroot; congruence.
  - intros Hroot. unfold diffs. rewrite Compare_diffs by done.
    assert (∀ k v, (k, v) ∈ order ↔ mt_resources t !! k = Some v) as Hin.
    { intros k v. by rewrite Ho, elem_of_map_to_list. }
    assert (∀ k v, (k, v) ∈ order' ↔ mt_resources t' !! k = Some v) as Hin'.
    { intros k v. by rewrite Ho', elem_of_map_to_list. }
    split.
    + apply NoDup_app. split_and!; [by eapply NoDup_fst_filter| |by eapply NoDup_fst_filter].
      intros k ([k1 v1] & -> & [Hp1 Hk1]%list_elem_of_filter)%list_elem_of_fmap
             ([k2 v2] & E & [Hp2 Hk2]%list_elem_of_filter)%list_elem_of_fmap.
      simpl in *. subst k2. apply Hin in Hk1. bool_prop. congruence.
    + intros k. rewrite elem_of_app, !list_elem_of_fmap. split.
      * intros [([k1 v1] & -> & [Hp Hk]%list_elem_of_filter)|([k1 v1] & -> & [Hp Hk]%list_elem_of_filter)]; simpl in *; bool_prop.
        -- apply Hin in Hk. congruence.
        -- apply Hin' in Hk. congruence.
      * intros Hne. destruct (mt_resources t !! k) as [v|] eqn:Ek.
        -- left. exists (k, v). split; [done|]. apply list_elem_of_filter. split; [|by apply Hin].
           apply bool_decide_eq_false_2. simpl. congruence.
        -- destruct (mt_resources t' !! k) as [v|] eqn:Ek'; [|done].
           right. exists (k, v). split; [done|]. apply list_elem_of_filter. split; [|by apply Hin'].
           by apply bool_decide_eq_true_2.
Qed.

Lemma tree_Update_wf visit t key hash : permutes visit → tree_wf t → tree_wf (Update visit t key hash).
Proof. apply with_resources_wf. Qed.

Lemma Remove_wf visit t key : permutes visit → tree_wf t → tree_wf (Remove visit t key).
Proof. apply with_resources_wf. Qed.

#[export] Hint Resolve NewMerkleTree_wf tree_Update_wf Remove_wf : go.

Lemma permutes_id : permutes (λ l, l).
Proof. by intros l. Qed.

Lemma permutes_reverse : permutes reverse.
Proof. intros l. apply reverse_Permutation. Qed.

#[export] Hint Resolve permutes_id permutes_reverse : go.

Lemma foldl_Update_wf visit t ks h :
  permutes visit → tree_wf t → tree_wf (foldl (λ t k, Update visit t k h) t ks).
Proof. intros Hv. revert t. induction ks as [|k ks IH]; intros t Ht; [done|]. by apply IH, tree_Update_wf. Qed.

(** Six routes, added in two orders and visited in two ways. *)
Definition sample_tree : MerkleTree :=
  foldl (λ t k, Update (λ l, l) t k "h") (NewMerkleTree 4) ["r/a"; "r/b"; "s/a"; "s/b"; "t/a"; "t/b"]%string.

Definition sample_tree' : MerkleTree :=
  foldl (λ t k, Update reverse t k "h") (NewMerkleTree 4) ["t/b"; "s/b"; "r/a"; "s/a"; "r/b"; "t/a"]%string.

Lemma Compare_exact_witness :
  let t := Update (λ l, l) sample_tree "s/a" "new" in
  GetRoot sample_tree = GetRoot sample_tree' ∧
  "s/a"%string ∈ Compare (map_to_list (mt_resources t)) (map_to_list (mt_resources sample_tree')) t (Some sample_tree').
Proof.
  intros t.
  assert (tree_wf sample_tree) as H1 by (apply foldl_Update_wf; auto with go).
  assert (tree_wf sample_tree') as H2 by (apply foldl_Update_wf; auto with go).
  assert (tree_wf t) as H3 by (apply tree_Update_wf; auto with go). split.
  - destruct (Compare_exact sample_tree sample_tree' (map_to_list (mt_resources sample_tree))
      (map_to_list (mt_resources sample_tree')) H1 H2) as [H _].
    + vm_compute. reflexivity.
    + unfold range_order. reflexivity.
    + unfold range_order. reflexivity.
    + apply H. vm_compute. reflexivity.
  - destruct (Compare_exact t sample_tree' (map_to_list (mt_resources t))
      (map_to_list (mt_resources sample_tree')) H3 H2) as [_ H].
    + vm_compute. reflexivity.
    + unfold range_order. reflexivity.
    + unfold range_order. reflexivity.
    + destruct H as [_ H]; [vm_compute; reflexivity|]. apply H. vm_compute. discriminate.
Defined.

(** ** A leaf does not separate keys from hashes *)

(** Up to four resources make a single leaf. *)
Lemma small_root visit t m :
  0 < mt_depth t → m ≠ ∅ → (size m ≤ 4)%nat →
  mn_Hash <$> mt_root (with_resources visit t m) =
    Some (sha256_hex16 (leaf_text m (sort_strings (map_to_list m).*1))).
Proof.
  intros Hd Hm Hsz. simpl. unfold rebuild. rewrite decide_False by done.
  assert (length (sort_strings (map_to_list m).*1) = size m) as Hlen.
  { rewrite sort_strings_perm, length_fmap. by rewrite length_map_to_list. }
  destruct (Z.to_nat (mt_depth t)) as [|n] eqn:E; [lia|].
  destruct (sort_strings _) as [|k ks] eqn:Es.
  - simpl in Hlen. symmetry in Hlen. by apply map_size_empty_iff in Hlen.
  - simpl. rewrite decide_True by (simpl in Hlen; lia). done.
Qed.

(** The comparison can miss drift. The hash of a leaf covers the keys and
    the hashes of its resources one after the other without a separator: two
    trees of at most four resources whose keys and hashes read alike have the
    same root, and the comparison reports no difference between them. *)
Theorem Compare_misses_regrouped_leaf (visit visit' : visit_order) (t t' : MerkleTree)
    (m m' : gmap string string) (order order' : list (string * string))
    (Hd : 0 < mt_depth t) (Hd' : 0 < mt_depth t') (Hm : m ≠ ∅) (Hm' : m' ≠ ∅)
    (Hsz : (size m ≤ 4)%nat) (Hsz' : (size m' ≤ 4)%nat)
    (Htext : leaf_text m (sort_strings (map_to_list m).*1) = leaf_text m' (sort_strings (map_to_list m').*1)) :
  Compare order order' (with_resources visit t m) (Some (with_resources visit' t' m')) = [].
Proof.
  pose proof (small_root visit t m Hd Hm Hsz) as H1.
  pose proof (small_root visit' t' m' Hd' Hm' Hsz') as H2.
  unfold Compare, same_root. destruct (mt_root (with_resources visit t m)) as [a|]; [|done].
  destruct (mt_root (with_resources visit' t' m')) as [b|]; [|done].
  simpl in H1, H2. injection H1 as ->. injection H2 as ->. rewrite Htext.
  unfold str_eqb. by rewrite bool_decide_eq_true_2.
Qed.

Lemma Compare_misses_regrouped_leaf_witness :
  let t := NewMerkleTree 4 in
  Compare [("X/a", "b")]%string [("X/ab", "")]%string
    (Update (λ l, l) t "X/a" "b") (Some (Update (λ l, l) t "X/ab" "")) = [] ∧
  mt_resources (Update (λ l, l) t "X/a" "b") ≠ mt_resources (Update (λ l, l) t "X/ab" "").
Proof.
  intros t. split.
  - refine (Compare_misses_regrouped_leaf (λ l, l) (λ l, l) t t
      (<["X/a" := "b"]> (mt_resources t))%string (<["X/ab" := ""]> (mt_resources t))%string
      _ _ _ _ _ _ _ _ _);
      try (vm_compute; reflexivity); try (intros E; vm_compute in E; discriminate);
      vm_compute; lia.
  - intros H%(f_equal (lookup "X/a"%string)). vm_compute in H. discriminate.
Defined.
