(* ===== verification/AntiEntropy.v ===== *)
(** * Anti-entropy
    (AntiEntropyManager of src/internal/controller/federation/antientropy.go)

    One cycle compares the server's state with each healthy peer and repairs
    the difference: by asking the peer for a full sync and applying what is
    missing or differs, and by pushing what the peer is missing. What the
    surroundings decide is gathered in [Env]: the peer clients and their
    answers, whether a push can be sent, fresh identifiers, clock readings and
    the visiting order of maps. The pushes are the third component of a
    result. *)

From S2P Require Import Prelude VectorClock FedTypes Endpoints FedServer FedReplica FedInvariants PeerClient FedFullSync Sha256 Merkle.
Open Scope Z_scope.
Open Scope go_scope.

Definition DefaultAntiEntropyInterval : Z := 5 * Minute.
Definition MaxDriftResolutionBatch : Z := 100.

Record AntiEntropyConfig := mkAntiEntropyConfig {
  ae_Enabled : bool;
  ae_Interval : Z;
  ae_BatchSize : Z;
  ae_RepairMode : string;
}.

Definition DefaultAntiEntropyConfig : AntiEntropyConfig :=
  mkAntiEntropyConfig true DefaultAntiEntropyInterval MaxDriftResolutionBatch RepairModeBidirectional.

Record DriftReport := mkDriftReport {
  dr_Peer : string;
  dr_Timestamp : Z;
  dr_DifferingKeys : list string;
  dr_MissingLocally : list string;
  dr_MissingRemotely : list string;
  dr_HashMismatches : list string;
}.

Record AntiEntropyManager := mkAntiEntropyManager {
  am_config : AntiEntropyConfig;
  am_localTree : MerkleTree;
  am_driftReports : list DriftReport;
}.

Definition NewAntiEntropyManager (config : option AntiEntropyConfig) : AntiEntropyManager :=
  mkAntiEntropyManager (default DefaultAntiEntropyConfig config) (NewMerkleTree MerkleTreeDepth) [].

Record Env := mkEnv {
  env_codecs : Codecs;
  env_client : string → option PeerClient;
  env_stream : string → FullSyncRequest → option (list ResourceBatch * bool);
  env_send : string → string → bool;
  env_uuid : string → string;
  env_clock : string → Z * Z;
  env_now : Z;
  env_visit : visit_order;
  env_range : ∀ {V}, gmap string V → list (string * V);
}.

(** Every range loop visits each entry once. *)
Definition env_ok (e : Env) : Prop :=
  permutes (env_visit e) ∧ ∀ V (m : gmap string V), range_order m (env_range e m).

(** ** The local tree *)

Definition rebuildLocalTree (e : Env) (s : Server) (m : AntiEntropyManager) : AntiEntropyManager :=
  mkAntiEntropyManager (am_config m)
    (foldl (λ t kv, Update (env_visit e) t kv.1 (tr_Hash kv.2))
       (NewMerkleTree MerkleTreeDepth) (env_range e (sv_resources s)))
    (am_driftReports m).

(** ** Pushing *)

(** [pushResourceToPeer]: the change sent, if the send succeeds. *)
Definition pushResourceToPeer (e : Env) (peerName keyStr : string) (client : PeerClient) (res : TrackedResource)
    : option ResourceChange :=
  let change := resource_change (env_uuid e keyStr) res in
  match SendChange (env_send e peerName keyStr) change client with
  | None => Some change
  | Some _ => None
  end.

(** ** Reconciling with the peer's resources *)

Definition peer_resources (batches : list ResourceBatch) : gmap string ResourceChange :=
  foldl (λ m change, <[ResourceKey_String (change_key change) := change]> m) ∅ (concat (rb_Resources <$> batches)).

(** State of the pull loop: the server, the keys reported missing and
    mismatched, the number of changes applied. *)
Record pull_state := mkPull {
  pl_server : Server;
  pl_missing : list string;
  pl_mismatch : list string;
  pl_applied : Z;
}.

Definition pull_apply (e : Env) (peerName keyStr : string) (change : ResourceChange) (p : pull_state)
    : outcome pull_state :=
  let '(now, now') := env_clock e keyStr in
  let! r := handleResourceChange (env_codecs e) peerName change now now' (pl_server p) in
  Returns (mkPull r.1 (pl_missing p) (pl_mismatch p)
    (match r.2 with None => pl_applied p + 1 | Some _ => pl_applied p end)).

(** One iteration; once the batch is full the loop is left, so the remaining
    iterations do nothing. *)
Definition pull_step (e : Env) (batchSize : Z) (localHashes : gmap string string) (peerName : string)
    (acc : outcome pull_state) (kc : string * ResourceChange) : outcome pull_state :=
  let! p := acc in
  if decide (batchSize ≤ pl_applied p) then Returns p
  else
    match localHashes !! kc.1 with
    | None =>
        pull_apply e peerName kc.1 kc.2
          (mkPull (pl_server p) (pl_missing p ++ [kc.1]) (pl_mismatch p) (pl_applied p))
    | Some localHash =>
        if str_eqb localHash (rc_ResourceHash kc.2) then Returns p
        else
          pull_apply e peerName kc.1 kc.2
            (mkPull (pl_server p) (pl_missing p) (pl_mismatch p ++ [kc.1]) (pl_applied p))
    end.

Definition pull_loop (e : Env) (batchSize : Z) (peerName : string) (peerResources : gmap string ResourceChange)
    (s : Server) : outcome pull_state :=
  foldl (pull_step e batchSize (tr_Hash <$> sv_resources s) peerName)
    (Returns (mkPull s [] [] 0)) (env_range e peerResources).

(** The push loop of [reconcileWithPeerResources]: the keys the peer is missing
    and the changes sent. *)
Definition push_missing_step (e : Env) (batchSize applied : Z) (peerName : string) (client : PeerClient)
    (peerKeys : gset string) (acc : list string * list ResourceChange) (kr : string * TrackedResource)
    : list string * list ResourceChange :=
  let '(missing, pushed) := acc in
  if decide (batchSize ≤ Z.of_nat (length pushed) + applied) then acc
  else if decide (kr.1 ∈ peerKeys) then acc
  else
    (missing ++ [kr.1],
     match pushResourceToPeer e peerName kr.1 client kr.2 with
     | Some change => pushed ++ [change]
     | None => pushed
     end).

Definition pushes_allowed (mode : string) : bool :=
  str_eqb mode RepairModePush || str_eqb mode RepairModeBidirectional.

Definition pulls_allowed (mode : string) : bool :=
  str_eqb mode RepairModePull || str_eqb mode RepairModeBidirectional.

Definition reconcileWithPeerResources (e : Env) (cfg : AntiEntropyConfig) (peerName : string)
    (peerResources : gmap string ResourceChange) (report : DriftReport) (s : Server)
    : outcome (Server * DriftReport * list ResourceChange) :=
  let! p := pull_loop e (ae_BatchSize cfg) peerName peerResources s in
  let report := mkDriftReport (dr_Peer report) (dr_Timestamp report) (dr_DifferingKeys report)
    (dr_MissingLocally report ++ pl_missing p) (dr_MissingRemotely report)
    (dr_HashMismatches report ++ pl_mismatch p) in
  if pushes_allowed (ae_RepairMode cfg) then
    match env_client e peerName with
    | None => Returns (pl_server p, report, [])
    | Some client =>
        let '(missing, pushed) :=
          foldl (push_missing_step e (ae_BatchSize cfg) (pl_applied p) peerName client (dom peerResources))
            ([], []) (env_range e (sv_resources (pl_server p))) in
        Returns (pl_server p,
          mkDriftReport (dr_Peer report) (dr_Timestamp report) (dr_DifferingKeys report)
            (dr_MissingLocally report) (dr_MissingRemotely report ++ missing) (dr_HashMismatches report),
          pushed)
    end
  else Returns (pl_server p, report, []).

(** ** The three cases of a comparison *)

Definition empty_report (e : Env) (peerName : string) : DriftReport :=
  mkDriftReport peerName (env_now e) [] [] [] [].

(** The full sync the three cases ask for: [None] when there is no client or
    the request fails. *)
Definition ask_peer (e : Env) (peerName : string) (s : Server) : outcome (option (list ResourceBatch)) :=
  match env_client e peerName with
  | None => Returns None
  | Some client =>
      let! r := Client_RequestFullSync (env_stream e peerName) (cf_ResourceTypes (sv_config s)) []
                  (ToMap (sv_vectorClock s)) client in
      Returns (match r.2 with None => Some r.1 | Some _ => None end)
  end.

Definition handleConcurrentState (e : Env) (m : AntiEntropyManager) (peerName : string) (s : Server)
    : outcome (Server * option DriftReport * list ResourceChange) :=
  let! answer := ask_peer e peerName s in
  match answer with
  | None => Returns (s, None, [])
  | Some batches =>
      let peerResources := peer_resources batches in
      let peerTree := foldl (λ t kc, Update (env_visit e) t kc.1 (rc_ResourceHash kc.2))
                        (NewMerkleTree MerkleTreeDepth) (env_range e peerResources) in
      let diffs := Merkle.Compare (env_range e (mt_resources (am_localTree m)))
                     (env_range e (mt_resources peerTree)) (am_localTree m) (Some peerTree) in
      let report := empty_report e peerName in
      if decide (length diffs = 0%nat) then Returns (s, Some report, [])
      else
        let report := mkDriftReport peerName (env_now e) diffs [] [] [] in
        let! r := reconcileWithPeerResources e (am_config m) peerName peerResources report s in
        let '(s, report, pushed) := r in
        Returns (s, Some report, pushed)
  end.

(** One iteration of the push loop of [handleWeAreAhead]: missing and
    mismatched keys, changes sent. *)
Definition ahead_step (e : Env) (batchSize : Z) (peerName : string) (client : PeerClient)
    (peerHashes : gmap string string) (acc : list string * list string * list ResourceChange)
    (kr : string * TrackedResource) : list string * list string * list ResourceChange :=
  let '(missing, mismatch, pushed) := acc in
  if decide (batchSize ≤ Z.of_nat (length pushed)) then acc
  else
    let pushed' := match pushResourceToPeer e peerName kr.1 client kr.2 with
                   | Some change => pushed ++ [change]
                   | None => pushed
                   end in
    match peerHashes !! kr.1 with
    | None => (missing ++ [kr.1], mismatch, pushed')
    | Some peerHash =>
        if str_eqb peerHash (tr_Hash kr.2) then acc else (missing, mismatch ++ [kr.1], pushed')
    end.

Definition handleWeAreAhead (e : Env) (m : AntiEntropyManager) (peerName : string) (s : Server)
    : outcome (Server * option DriftReport * list ResourceChange) :=
  match env_client e peerName with
  | None => Returns (s, None, [])
  | Some client =>
      let! answer := ask_peer e peerName s in
      match answer with
      | None => Returns (s, None, [])
      | Some batches =>
          let peerHashes := rc_ResourceHash <$> peer_resources batches in
          let '(missing, mismatch, pushed) :=
            foldl (ahead_step e (ae_BatchSize (am_config m)) peerName client peerHashes)
              ([], [], []) (env_range e (sv_resources s)) in
          Returns (s, Some (mkDriftReport peerName (env_now e) (missing ++ mismatch) [] missing mismatch), pushed)
      end
  end.

Definition handlePeerIsAhead (e : Env) (m : AntiEntropyManager) (peerName : string) (s : Server)
    : outcome (Server * option DriftReport * list ResourceChange) :=
  let! answer := ask_peer e peerName s in
  match answer with
  | None => Returns (s, None, [])
  | Some batches =>
      let! r := reconcileWithPeerResources e (am_config m) peerName (peer_resources batches)
                  (empty_report e peerName) s in
      let '(s, report, pushed) := r in
      Returns (s, Some report, pushed)
  end.

Definition compareWithPeer (e : Env) (m : AntiEntropyManager) (peerName : string) (s : Server)
    : outcome (Server * option DriftReport * list ResourceChange) :=
  match sv_peerStates s !! peerName with
  | None => Returns (s, None, [])
  | Some state =>
      let ourVC := NewVectorClockFromMap (ToMap (sv_vectorClock s)) in
      let peerVC := default NewVectorClock (ps_VectorClock state) in
      let cmp := VectorClock.Compare ourVC (Some peerVC) in
      if decide (cmp = 0) then handleConcurrentState e m peerName s
      else if decide (cmp = 1) then
        if pushes_allowed (ae_RepairMode (am_config m)) then handleWeAreAhead e m peerName s
        else Returns (s, None, [])
      else if decide (cmp = -1) then
        if pulls_allowed (ae_RepairMode (am_config m)) then handlePeerIsAhead e m peerName s
        else Returns (s, None, [])
      else Returns (s, None, [])
  end.

(** One cycle: the tree is rebuilt, each healthy and connected peer is compared,
    the reports replace the cached ones. The peers are read once, before the
    loop. *)
Definition runAntiEntropy (e : Env) (m : AntiEntropyManager) (s : Server)
    : outcome (AntiEntropyManager * Server * list (string * ResourceChange)) :=
  let m := rebuildLocalTree e s m in
  let peerStates := GetPeerStates s in
  if decide (size peerStates = 0%nat) then Returns (m, s, [])
  else
    let! r :=
      foldl (λ acc kp,
        let! r := acc in
        let '(reports, s, pushed) := r in
        if negb (ps_Healthy kp.2) || negb (ps_Connected kp.2) then Returns (reports, s, pushed)
        else
          let! c := compareWithPeer e m kp.1 s in
          let '(s, report, sent) := c in
          Returns (match report with Some r => reports ++ [r] | None => reports end, s,
                   pushed ++ ((λ ch, (kp.1, ch)) <$> sent)))
        (Returns ([], s, [])) (env_range e peerStates) in
    let '(reports, s, pushed) := r in
    Returns (mkAntiEntropyManager (am_config m) (am_localTree m) reports, s, pushed).

(** ** What the peer's answer holds *)

Lemma peer_resources_snoc l c :
  foldl (λ m change, <[ResourceKey_String (change_key change) := change]> m) (∅ : gmap string ResourceChange) (l ++ [c]) =
  <[change_keyStr c := c]> (foldl (λ m change, <[ResourceKey_String (change_key change) := change]> m) ∅ l).
Proof. by rewrite foldl_app. Qed.

Lemma peer_resources_Some batches k c :
  peer_resources batches !! k = Some c → change_keyStr c = k ∧ c ∈ concat (rb_Resources <$> batches).
Proof.
  unfold peer_resources. induction (concat _) as [|d l IH] using rev_ind; [done|].
  rewrite peer_resources_snoc, lookup_insert, elem_of_app. case_decide as Hd.
  - intros [= ->]. split; [done|]. right. by apply list_elem_of_singleton.
  - intros H. destruct (IH H). auto.
Qed.

Lemma peer_resources_None batches k :
  peer_resources batches !! k = None ↔ ∀ c, c ∈ concat (rb_Resources <$> batches) → change_keyStr c ≠ k.
Proof.
  unfold peer_resources. induction (concat _) as [|d l IH] using rev_ind.
  - split; [intros _ c Hc; by apply not_elem_of_nil in Hc|done].
  - rewrite peer_resources_snoc, lookup_insert. case_decide as Hd.
    + split; [done|]. intros H. destruct (H d); [|done]. apply elem_of_app. right. by apply list_elem_of_singleton.
    + rewrite IH. setoid_rewrite elem_of_app. setoid_rewrite list_elem_of_singleton. split.
      * intros H c [Hc| ->]; [by apply H|done].
      * intros H c Hc. apply H. by left.
Qed.

(** ** The pull loop *)

(** What reconciliation leaves for a key, given the tracked version and the
    peer's change. *)
Definition repaired (old : option TrackedResource) (c : ResourceChange) : option TrackedResource :=
  match old with
  | Some r => if str_eqb (tr_Hash r) (rc_ResourceHash c) then Some r else Some (lww_pick (Some r) c)
  | None => Some (change_version c)
  end.

Definition hash_differs (old : option TrackedResource) (c : ResourceChange) : bool :=
  match old with Some r => negb (str_eqb (tr_Hash r) (rc_ResourceHash c)) | None => false end.

(** One applied change under last-writer-wins. *)
Lemma pull_apply_lww e peer k c p :
  lww (pl_server p) → is_write c → change_keyStr c = k →
  ∃ s', pull_apply e peer k c p = Returns (mkPull s' (pl_missing p) (pl_mismatch p) (pl_applied p + 1)) ∧
    lww s' ∧ sv_resources s' = <[k := lww_pick (sv_resources (pl_server p) !! k) c]> (sv_resources (pl_server p)).
Proof.
  intros Hl Hw <-. unfold pull_apply. destruct (env_clock e (change_keyStr c)) as [now now'].
  destruct (handleResourceChange_lww (env_codecs e) peer c now now' (pl_server p) Hl Hw) as (s' & -> & Hcfg & Hres).
  exists s'. split; [done|]. split; [by unfold lww; rewrite Hcfg|done].
Qed.

Lemma pull_loop_spec e batchSize res0 peer l p :
  NoDup l.*1 → (∀ k c, (k, c) ∈ l → change_keyStr c = k ∧ is_write c) →
  (∀ k c, (k, c) ∈ l → sv_resources (pl_server p) !! k = res0 !! k) →
  lww (pl_server p) → pl_applied p + Z.of_nat (length l) ≤ batchSize →
  ∃ p', foldl (pull_step e batchSize (tr_Hash <$> res0) peer) (Returns p) l = Returns p' ∧
    lww (pl_server p') ∧
    (∀ k c, (k, c) ∈ l → sv_resources (pl_server p') !! k = repaired (res0 !! k) c) ∧
    (∀ k, k ∉ l.*1 → sv_resources (pl_server p') !! k = sv_resources (pl_server p) !! k) ∧
    pl_missing p' = pl_missing p ++ (filter (λ kc, res0 !! kc.1 = None) l).*1 ∧
    pl_mismatch p' = pl_mismatch p ++ (filter (λ kc, hash_differs (res0 !! kc.1) kc.2 = true) l).*1.
Proof.
  revert p. induction l as [|[k c] l IH]; intros p Hnd Hkeys Hold Hlww Hsz.
  { exists p. rewrite !filter_nil, !app_nil_r. split_and!; try done. by intros k c Hin%not_elem_of_nil. }
  apply NoDup_cons in Hnd as [Hnin Hnd]. destruct (Hkeys k c) as [Hk Hw]; [by left|].
  assert (sv_resources (pl_server p) !! k = res0 !! k) as Hkold by (by apply (Hold k c); left).
  simpl in Hsz. cbn [foldl].
  assert (∃ p1, pull_step e batchSize (tr_Hash <$> res0) peer (Returns p) (k, c) = Returns p1 ∧
    lww (pl_server p1) ∧ sv_resources (pl_server p1) !! k = repaired (res0 !! k) c ∧
    (∀ k', k' ≠ k → sv_resources (pl_server p1) !! k' = sv_resources (pl_server p) !! k') ∧
    pl_applied p1 ≤ pl_applied p + 1 ∧
    pl_missing p1 = pl_missing p ++ (if decide (res0 !! k = None) then [k] else []) ∧
    pl_mismatch p1 = pl_mismatch p ++ (if hash_differs (res0 !! k) c then [k] else [])) as (p1 & -> & Hl1 & Hr1 & Ho1 & Ha1 & Hm1 & Hx1).
  { unfold pull_step. simpl. rewrite decide_False by lia. rewrite lookup_fmap.
    destruct (res0 !! k) as [r|] eqn:Er; simpl.
    - destruct (str_eqb (tr_Hash r) (rc_ResourceHash c)) eqn:Eh; simpl.
      + exists p. rewrite ?decide_False by done. rewrite !app_nil_r. split_and!; try done; lia.
      + destruct (pull_apply_lww e peer k c (mkPull (pl_server p) (pl_missing p) (pl_mismatch p ++ [k]) (pl_applied p)))
          as (s' & -> & Hl & Hr); [done..|]. eexists. split; [reflexivity|]. simpl in *.
        rewrite ?decide_False by done. rewrite Hr, app_nil_r, Hkold. split_and!; try done; [by rewrite lookup_insert_eq|].
        intros k' Hk'. by rewrite lookup_insert_ne.
    - destruct (pull_apply_lww e peer k c (mkPull (pl_server p) (pl_missing p ++ [k]) (pl_mismatch p) (pl_applied p)))
        as (s' & -> & Hl & Hr); [done..|]. eexists. split; [reflexivity|]. simpl in *.
      rewrite ?decide_True by done. rewrite Hr, app_nil_r, Hkold. split_and!; try done; [by rewrite lookup_insert_eq|].
      intros k' Hk'. by rewrite lookup_insert_ne. }
  assert (∀ k' c', (k', c') ∈ l → k' ≠ k) as Hfresh.
  { intros k' c' Hin ->. apply Hnin. by apply (list_elem_of_fmap_2 fst) in Hin. }
  destruct (IH p1) as (p' & Hrun & Hl' & Hin' & Hout' & Hm' & Hx'); [done| | |done|lia|].
  { intros k' c' Hin. apply Hkeys. by right. }
  { intros k' c' Hin. rewrite Ho1 by (by eapply Hfresh). apply (Hold k' c'). by right. }
  exists p'. split; [exact Hrun|]. split; [done|]. split_and!.
  - intros k' c' [[= -> ->]|Hin]%elem_of_cons; [|by apply Hin'].
    rewrite Hout' by done. exact Hr1.
  - intros k' Hk'. apply not_elem_of_cons in Hk' as [Hne Hk']. rewrite Hout' by done. by apply Ho1.
  - rewrite Hm', Hm1, filter_cons, <- app_assoc. simpl. by case_decide.
  - rewrite Hx', Hx1, filter_cons, <- app_assoc. simpl. by destruct (hash_differs (res0 !! k) c).
Qed.

Lemma pull_loop_repairs e batchSize peer rs s :
  env_ok e → lww s → (∀ k c, rs !! k = Some c → change_keyStr c = k ∧ is_write c) →
  Z.of_nat (size rs) ≤ batchSize →
  ∃ p, pull_loop e batchSize peer rs s = Returns p ∧
    (∀ k, sv_resources (pl_server p) !! k =
       match rs !! k with Some c => repaired (sv_resources s !! k) c | None => sv_resources s !! k end) ∧
    (∀ k, k ∈ pl_missing p ↔ is_Some (rs !! k) ∧ sv_resources s !! k = None) ∧
    (∀ k, k ∈ pl_mismatch p ↔ ∃ c, rs !! k = Some c ∧ hash_differs (sv_resources s !! k) c = true).
Proof.
  intros [_ Hrange] Hlww Hkeys Hsz.
  assert (∀ k c, (k, c) ∈ env_range e rs ↔ rs !! k = Some c) as Hin.
  { intros k c. by rewrite (Hrange _ rs), elem_of_map_to_list. }
  destruct (pull_loop_spec e batchSize (sv_resources s) peer (env_range e rs) (mkPull s [] [] 0))
    as (p & Hrun & _ & Hnew & Hout & Hm & Hx); try done.
  - rewrite (Hrange _ rs). apply NoDup_fst_map_to_list.
  - intros k c Hkc. apply Hkeys. by apply Hin.
  - simpl. rewrite (Hrange _ rs), length_map_to_list. lia.
  - exists p. split; [exact Hrun|]. split_and!.
    + intros k. destruct (rs !! k) as [c|] eqn:Ek; [by apply Hnew, Hin|]. rewrite Hout; [done|].
      intros ([k' c] & -> & Hkc)%list_elem_of_fmap. apply Hin in Hkc. simpl in Ek. congruence.
    + intros k. rewrite Hm. simpl. rewrite list_elem_of_fmap. split.
      * intros ([k' c] & -> & [Hn Hkc]%list_elem_of_filter). apply Hin in Hkc. simpl. by rewrite Hkc; eauto.
      * intros [[c Hc] Hn]. exists (k, c). split; [done|]. apply list_elem_of_filter. split; [done|]. by apply Hin.
    + intros k. rewrite Hx. simpl. rewrite list_elem_of_fmap. split.
      * intros ([k' c] & -> & [Hn Hkc]%list_elem_of_filter). apply Hin in Hkc. eauto.
      * intros (c & Hc & Hn). exists (k, c). split; [done|]. apply list_elem_of_filter. split; [done|]. by apply Hin.
Qed.

(** When a peer is ahead, anti-entropy pulls the difference. If the answer
    of the peer fits the batch, then afterwards every resource of the answer
    that was missing is tracked with the peer's version, one whose hash differs
    is decided by causality and time as any incoming write, and everything else
    is as before; the report names exactly the missing keys and the keys whose
    hashes differ. *)
Theorem peer_ahead_is_pulled (e : Env) (m : AntiEntropyManager) (peer : string) (s : Server)
    (batches : list ResourceBatch)
    (Henv : env_ok e) (Hlww : lww s)
    (Hask : ask_peer e peer s = Returns (Some batches))
    (Hwrites : ∀ c, c ∈ concat (rb_Resources <$> batches) → is_write c)
    (Hsz : Z.of_nat (size (peer_resources batches)) ≤ ae_BatchSize (am_config m)) :
  ∃ s' report pushed,
    handlePeerIsAhead e m peer s = Returns (s', Some report, pushed) ∧
    (∀ k, sv_resources s' !! k =
       match peer_resources batches !! k with
       | Some c => repaired (sv_resources s !! k) c
       | None => sv_resources s !! k
       end) ∧
    (∀ k, k ∈ dr_MissingLocally report ↔
       is_Some (peer_resources batches !! k) ∧ sv_resources s !! k = None) ∧
    (∀ k, k ∈ dr_HashMismatches report ↔
       ∃ c, peer_resources batches !! k = Some c ∧ hash_differs (sv_resources s !! k) c = true).
Proof.
  unfold handlePeerIsAhead. rewrite Hask. cbn [outcome_bind].
  destruct (pull_loop_repairs e (ae_BatchSize (am_config m)) peer (peer_resources batches) s)
    as (p & Hp & Hres & Hmiss & Hmm); [done|done| |done|].
  { intros k c (Hk & Hc)%peer_resources_Some. auto. }
  unfold reconcileWithPeerResources. rewrite Hp. cbn [outcome_bind].
  destruct (pushes_allowed _); [destruct (env_client e peer) as [cl|]|];
    try (destruct (foldl _ _ _) as [missing pushed]); cbn [outcome_bind];
    eexists _, _, _; (split; [reflexivity|]); simpl; by split_and!.
Qed.

(** A surrounding in which every call succeeds and [peer] answers with its
    tracked resources. *)
Definition sample_env (peer : Server) : Env :=
  {| env_codecs := no_codecs;
     env_client := λ _, Some (set_pc_stream (Some 1%nat) sample_client);
     env_stream := λ _, answer (λ _, "u"%string) (map_to_list (sv_resources peer)) 100 peer;
     env_send := λ _ _, true;
     env_uuid := λ k, k;
     env_clock := λ _, (0, 0);
     env_now := 0;
     env_visit := λ l, l;
     env_range := λ V m, map_to_list m |}.

Lemma sample_env_ok peer : env_ok (sample_env peer).
Proof. split; [by intros l|]. intros V m. unfold range_order. reflexivity. Qed.

Lemma peer_ahead_is_pulled_witness :
  let s := sample_server "b" StrategyLastWriterWins in
  ∃ s' report pushed,
    handlePeerIsAhead (sample_env sample_source) (NewAntiEntropyManager None) "a" s = Returns (s', Some report, pushed) ∧
    sample_key ∈ dr_MissingLocally report ∧
    sv_resources s' !! sample_key = sv_resources sample_source !! sample_key.
Proof.
  intros s.
  destruct (ask_peer (sample_env sample_source) "a" s) as [[bs|]|] eqn:Hask;
    [|exfalso; vm_compute in Hask; discriminate..].
  assert (bs = match ask_peer (sample_env sample_source) "a" s with Returns (Some bs) => bs | _ => [] end)
    as Hbs by (by rewrite Hask).
  destruct (peer_ahead_is_pulled (sample_env sample_source) (NewAntiEntropyManager None) "a" s bs
    (sample_env_ok _)) as (s' & report & pushed & H1 & H2 & H3 & _).
  - vm_compute. reflexivity.
  - exact Hask.
  - apply Forall_forall. rewrite Hbs. vm_compute. repeat constructor; by right.
  - rewrite Hbs. vm_compute. discriminate.
  - exists s', report, pushed. split; [exact H1|]. split.
    + apply H3. rewrite Hbs. split; [|vm_compute; reflexivity]. vm_compute. eauto.
    + rewrite H2, Hbs. vm_compute. reflexivity.
Defined.

(** ** Changes that were lost *)

Lemma handleResourceChange_other cd peer c now now' s s' err k :
  handleResourceChange cd peer c now now' s = Returns (s', err) → k ≠ change_keyStr c →
  sv_resources s' !! k = sv_resources s !! k.
Proof.
  intros (_ & _ & _ & _ & Heff & _)%handleResourceChange_effect Hk.
  destruct Heff as [E _ _|E _ _|_ E _ _|E _ _|e m _ _ _ E _ _|ci _ _ E _ _]; rewrite E;
    by rewrite ?lookup_insert_ne, ?lookup_delete_ne by done.
Qed.

Lemma pull_step_other e batchSize hashes peer l acc p' k :
  (∀ k c, (k, c) ∈ l → change_keyStr c = k) → k ∉ l.*1 →
  foldl (pull_step e batchSize hashes peer) acc l = Returns p' →
  ∃ p, acc = Returns p ∧ sv_resources (pl_server p') !! k = sv_resources (pl_server p) !! k.
Proof.
  revert acc. induction l as [|[kc c] l IH]; intros acc Hkeys Hnin Hrun; [by exists p'|].
  apply not_elem_of_cons in Hnin as [Hne Hnin]. simpl in Hrun.
  destruct (IH (pull_step e batchSize hashes peer acc (kc, c))) as (p1 & Hp1 & Hr1); try done.
  { intros k' c' Hin. apply Hkeys. by right. }
  destruct acc as [p|]; [|done]. exists p. split; [done|]. rewrite Hr1.
  assert (change_keyStr c = kc) as Hkc by (by apply (Hkeys kc c); left).
  assert (∀ q, pl_server q = pl_server p → pull_apply e peer kc c q = Returns p1 →
    sv_resources (pl_server p1) !! k = sv_resources (pl_server p) !! k) as Happ.
  { intros q Hq. unfold pull_apply. destruct (env_clock e kc) as [now now'].
    destruct (handleResourceChange _ _ _ _ _ _) as [[s1 err]|] eqn:Hh; simpl; [|done].
    intros [= <-]. simpl. rewrite Hq in Hh. eapply handleResourceChange_other; [exact Hh|by rewrite Hkc]. }
  revert Hp1. unfold pull_step. cbn [outcome_bind]. case_decide; [by intros [= ->]|].
  cbn [fst snd]. destruct (hashes !! kc); [|by apply Happ].
  destruct (str_eqb _ _); [by intros [= ->]|by apply Happ].
Qed.

(** What a full sync does not select the pull does not touch. *)
Lemma handlePeerIsAhead_other e m peer s batches s' report pushed k :
  env_ok e → ask_peer e peer s = Returns (Some batches) → peer_resources batches !! k = None →
  handlePeerIsAhead e m peer s = Returns (s', report, pushed) →
  sv_resources s' !! k = sv_resources s !! k.
Proof.
  intros [_ Hrange] Hask Hk. unfold handlePeerIsAhead. rewrite Hask. cbn [outcome_bind].
  unfold reconcileWithPeerResources, pull_loop.
  destruct (foldl (pull_step _ _ _ _) _ _) as [p|] eqn:Hp; [|done]. cbn [outcome_bind]. intros H.
  assert (s' = pl_server p) as ->.
  { revert H. destruct (pushes_allowed _); [destruct (env_client e peer)|];
      try (destruct (foldl (push_missing_step _ _ _ _ _ _) _ _)); simpl; congruence. }
  apply pull_step_other with (k := k) in Hp as (p0 & [= <-] & Hr); [done| |].
  - intros k' c Hin. rewrite (Hrange _ (peer_resources batches)) in Hin.
    apply elem_of_map_to_list, peer_resources_Some in Hin. apply Hin.
  - intros ([k' c] & -> & Hin)%list_elem_of_fmap. rewrite (Hrange _ (peer_resources batches)) in Hin.
    apply elem_of_map_to_list in Hin. simpl in Hk. congruence.
Qed.

(** A change that was lost is not repaired by anti-entropy once a later
    change of its origin has arrived. The full sync anti-entropy asks for is
    filtered by the clock of the asking server, so a resource of the peer whose
    clock is strictly before it is not sent; if it is missing, or outdated, at
    the asking server, it stays so after the pull. *)
Theorem lost_change_is_not_repaired (e : Env) (m : AntiEntropyManager) (peer : string) (s src : Server)
    (uuid : nat → string) (order : list (string * TrackedResource)) (now : Z)
    (batches : list ResourceBatch) (ks : string) (r : TrackedResource)
    (s' : Server) (report : option DriftReport) (pushed : list ResourceChange)
    (Henv : env_ok e) (Hstream : env_stream e peer = answer uuid order now src)
    (Hask : ask_peer e peer s = Returns (Some batches))
    (Hinv : server_inv src) (Horder : range_order (sv_resources src) order)
    (Hsize : 0 ≤ cf_BatchSize (sv_config src))
    (Hr : sv_resources src !! ks = Some r) (Hseen : vc_lt (version_clock r) (sv_vectorClock s))
    (Hpull : handlePeerIsAhead e m peer s = Returns (s', report, pushed)) :
  peer_resources batches !! ks = None ∧ sv_resources s' !! ks = sv_resources s !! ks.
Proof.
  assert (peer_resources batches !! ks = None) as Hnone.
  2: { split; [done|]. by eapply handlePeerIsAhead_other. }
  apply peer_resources_None. intros c Hc Hk.
  unfold ask_peer in Hask. destruct (env_client e peer) as [cl|]; [|done].
  unfold Client_RequestFullSync, fullSyncRequest in Hask. rewrite Hstream in Hask.
  destruct (pc_conn cl); [|done]. destruct (cf_LocalMember (pc_config cl)) as [me|]; [|done].
  cbn [negb deref outcome_bind] in Hask. rewrite ToMap_id in Hask.
  match type of Hask with context [answer _ _ _ _ ?q] => set (req := q) in Hask end.
  destruct (answer uuid order now src req) as [[inc eof]|] eqn:Ha; [|done]. cbn [outcome_bind] in Hask.
  assert (c ∈ collectFullSyncResources uuid order req) as Hin.
  { assert (request_accepted req now src) as Hacc.
    { revert Ha. unfold answer, RequestFullSync, checkFullSyncCooldown, request_accepted, str_eqb.
      destruct (decide (fr_FederationId req = cf_FederationID (sv_config src))) as [E|E];
        [rewrite bool_decide_eq_true_2 by done|by rewrite bool_decide_eq_false_2]. simpl.
      destruct (sv_fullSyncCooldowns src !! _); [|done]. case_decide; [done|]. intros _. split; [done|lia]. }
    destruct (answer_accepted uuid order now src req Hacc Hsize) as [[E H]|(bs & H & Hb)];
      rewrite Ha in H; injection H as -> ->.
    - simpl in Hask. injection Hask as <-. simpl in Hc. by apply not_elem_of_nil in Hc.
    - apply batched_concat in Hb. rewrite <- Hb.
      destruct (recv_batches bs true []) as [got err] eqn:Hrecv. destruct err; [done|].
      simpl in Hask. injection Hask as ->.
      apply recv_batches_prefix in Hrecv as [rest Hrest]. simpl in Hrest.
      rewrite Hrest, fmap_app, concat_app.
      apply elem_of_app. by left. }
  rewrite collectFullSyncResources_filter in Hin.
  apply elem_of_lookup_imap in Hin as (i & [ks' r'] & -> & Hi). apply list_elem_of_lookup_2 in Hi.
  apply list_elem_of_filter in Hi as [Hsel Hi]. simpl in *. rewrite Horder in Hi.
  apply elem_of_map_to_list in Hi. destruct Hinv as (_ & (Hfiled & _) & _).
  rewrite resource_change_keyStr, (Hfiled _ _ Hi) in Hk. subst ks'. rewrite Hr in Hi. injection Hi as <-.
  apply fullsync_selects_spec in Hsel as [_ Hn]. apply Hn. unfold requester_is_ahead, req. simpl.
  by destruct (sv_vectorClock s).
Qed.

(** Two changes of one origin, of which only the second arrived. *)
Definition sample_missed : Server :=
  run (deliver_all no_codecs
    [("a"%string, changeEntryToProto (mkChangeEntry "id2" sample_key2 ChangeTypeCreated
        (sv_resources sample_source !! "ProxyRoute/default/api"%string) None {["a" := 3]} 20 ∅), 0, 0)]
    (sample_server "b" StrategyLastWriterWins)).

Lemma lost_change_is_not_repaired_witness :
  ∃ s' report pushed r,
    handlePeerIsAhead (sample_env sample_source) (NewAntiEntropyManager None) "a" sample_missed =
      Returns (s', report, pushed) ∧
    sv_resources sample_source !! sample_key = Some r ∧
    sv_resources s' !! sample_key = None.
Proof.
  destruct (ask_peer (sample_env sample_source) "a" sample_missed) as [[bs|]|] eqn:Hask;
    [|exfalso; vm_compute in Hask; discriminate..].
  destruct (handlePeerIsAhead (sample_env sample_source) (NewAntiEntropyManager None) "a" sample_missed)
    as [[[s' report] pushed]|] eqn:Hrun; [|exfalso; vm_compute in Hrun; discriminate].
  destruct (sv_resources sample_source !! sample_key) as [r|] eqn:Hr; [|exfalso; vm_compute in Hr; discriminate].
  exists s', report, pushed, r. split; [reflexivity|]. split; [reflexivity|].
  destruct (lost_change_is_not_repaired (sample_env sample_source) (NewAntiEntropyManager None) "a"
    sample_missed sample_source (λ _, "u"%string) (map_to_list (sv_resources sample_source)) 100 bs
    sample_key r s' report pushed (sample_env_ok _)) as [_ H].
  - reflexivity.
  - exact Hask.
  - unfold server_inv, vc_wf, filed, outboxes_bounded. split_and!; try apply map_Forall_empty;
      apply (bool_decide_unpack _); by vm_compute.
  - unfold range_order. reflexivity.
  - vm_compute. discriminate.
  - exact Hr.
  - apply Compare_before. assert (r = default (change_version (sample_change ∅ CREATED "" 0))
      (sv_resources sample_source !! sample_key)) as -> by (by rewrite Hr). vm_compute. reflexivity.
  - exact Hrun.
  - rewrite H. vm_compute. reflexivity.
Defined.

(** ** Local changes carry no hash *)

(** A locally recorded version is tracked with an empty hash, whatever its
    data, so the hash comparison of anti-entropy cannot tell two such versions
    of a resource apart. *)
Lemma local_change_has_no_hash key ct data labels uuid now now' s s' c :
  ct ≠ ChangeTypeDeleted → RecordLocalChange key ct data labels uuid now now' s = Returns s' →
  rc_ResourceHash c = ""%string →
  hash_differs (sv_resources s' !! ResourceKey_String key) c = false.
Proof.
  intros Hct Hrec Hc. apply RecordLocalChange_effect in Hrec as (m & _ & _ & _ & _ & _ & _ & _ & Ert).
  destruct Ert as [(_ & -> & _)|(? & _)]; [|done]. rewrite lookup_insert_eq. simpl. by rewrite Hc.
Qed.
