(* ===== verification/SplitBrain.v ===== *)
(** * Split-brain detection
    (src/internal/controller/federation/splitbrain.go)

    The detector as a state machine: contacts and failures of peers, the
    periodic check, the healing process. The peers it knows are those of the
    server's peer states. Clock readings are arguments; the lists of names are
    in the order of the map, of which only membership and length matter. A
    healing process started by [checkPartitionHealing] is counted in
    [sd_healing] until it runs. *)

From stdpp Require Import relations.
From S2P Require Import Prelude VectorClock FedTypes Endpoints FedServer FedReplica FedInvariants.
Open Scope Z_scope.

Definition DefaultPartitionTimeout : Z := 30 * Second.
Definition DefaultQuorumCheckInterval : Z := 10 * Second.
Definition DefaultHealingGracePeriod : Z := 5 * Second.

Definition DefaultSplitBrainConfig : SplitBrainConfig :=
  {| sb_PartitionTimeout := DefaultPartitionTimeout; sb_QuorumRequired := false; sb_QuorumSize := 0;
     sb_HealingGracePeriod := DefaultHealingGracePeriod; sb_AutoResolveOnHeal := true;
     sb_FencingEnabled := false; sb_QuorumMode := QuorumModeControllers; sb_AgentQuorumWeight := 1;
     sb_ControllerQuorumWeight := 10; sb_MinAgentsForQuorum := 1 |}.

Inductive PartitionState :=
  | PartitionStateHealthy
  | PartitionStateSuspected
  | PartitionStateConfirmed
  | PartitionStateHealing.

#[global] Instance PartitionState_eq_dec : EqDecision PartitionState.
Proof. solve_decision. Defined.

Record PartitionInfo := mkPartitionInfo {
  pn_State : PartitionState;
  pn_DetectedAt : Z;
  pn_HealedAt : Z;
  pn_ReachablePeers : list string;
  pn_UnreachablePeers : list string;
  pn_HaveQuorum : bool;
  pn_WritesFenced : bool;
  pn_PendingConflicts : Z;
}.

Definition PartitionInfo_eta (i : PartitionInfo) : PartitionInfo :=
  mkPartitionInfo (pn_State i) (pn_DetectedAt i) (pn_HealedAt i) (pn_ReachablePeers i)
    (pn_UnreachablePeers i) (pn_HaveQuorum i) (pn_WritesFenced i) (pn_PendingConflicts i).

Definition set_pn_State : PartitionState → PartitionInfo → PartitionInfo := ltac:(field_setter PartitionInfo_eta pn_State).
Definition set_pn_HealedAt : Z → PartitionInfo → PartitionInfo := ltac:(field_setter PartitionInfo_eta pn_HealedAt).
Definition set_pn_WritesFenced : bool → PartitionInfo → PartitionInfo := ltac:(field_setter PartitionInfo_eta pn_WritesFenced).

Record SplitBrainDetector := mkDetector {
  sd_config : SplitBrainConfig;
  sd_state : PartitionState;
  sd_partitionInfo : option PartitionInfo;
  sd_totalPeers : Z;
  sd_reachablePeers : gmap string Z;
  sd_writesFenced : bool;
  sd_healing : nat;
}.

Definition Detector_eta (d : SplitBrainDetector) : SplitBrainDetector :=
  mkDetector (sd_config d) (sd_state d) (sd_partitionInfo d) (sd_totalPeers d) (sd_reachablePeers d)
    (sd_writesFenced d) (sd_healing d).

Definition set_sd_state : PartitionState → SplitBrainDetector → SplitBrainDetector := ltac:(field_setter Detector_eta sd_state).
Definition set_sd_info : option PartitionInfo → SplitBrainDetector → SplitBrainDetector := ltac:(field_setter Detector_eta sd_partitionInfo).
Definition set_sd_reachable : gmap string Z → SplitBrainDetector → SplitBrainDetector := ltac:(field_setter Detector_eta sd_reachablePeers).
Definition set_sd_fenced : bool → SplitBrainDetector → SplitBrainDetector := ltac:(field_setter Detector_eta sd_writesFenced).
Definition set_sd_healing : nat → SplitBrainDetector → SplitBrainDetector := ltac:(field_setter Detector_eta sd_healing).

Definition SplitBrainConfig_eta (c : SplitBrainConfig) : SplitBrainConfig :=
  mkSplitBrainConfig (sb_PartitionTimeout c) (sb_QuorumRequired c) (sb_QuorumSize c)
    (sb_HealingGracePeriod c) (sb_AutoResolveOnHeal c) (sb_FencingEnabled c) (sb_QuorumMode c)
    (sb_AgentQuorumWeight c) (sb_ControllerQuorumWeight c) (sb_MinAgentsForQuorum c).

Definition set_sb_QuorumSize : Z → SplitBrainConfig → SplitBrainConfig := ltac:(field_setter SplitBrainConfig_eta sb_QuorumSize).

(** [NewSplitBrainDetector] writes the computed quorum size into the
    configuration it is given; Go's [/] truncates. *)
Definition NewSplitBrainDetector (config : option SplitBrainConfig) (totalPeers : Z) : SplitBrainDetector :=
  let config := default DefaultSplitBrainConfig config in
  let config :=
    if decide (sb_QuorumSize config ≤ 0) then
      if decide (sb_QuorumMode config = QuorumModeAgentAssisted) then set_sb_QuorumSize 0 config
      else set_sb_QuorumSize (Z.quot totalPeers 2 + 1) config
    else config in
  mkDetector config PartitionStateHealthy None totalPeers ∅ false 0.

(** ** Reachability *)

Definition contacted (d : SplitBrainDetector) (now : Z) (lastSeen : Z) : bool :=
  time_After lastSeen (now - sb_PartitionTimeout (sd_config d)).

Definition getReachablePeerNames (now : Z) (d : SplitBrainDetector) : list string :=
  (filter (λ kv, contacted d now kv.2 = true) (map_to_list (sd_reachablePeers d))).*1.

Definition countReachablePeers (now : Z) (d : SplitBrainDetector) : Z :=
  Z.of_nat (length (filter (λ kv, contacted d now kv.2 = true) (map_to_list (sd_reachablePeers d)))).

Definition getUnreachablePeerNames (now : Z) (d : SplitBrainDetector) (s : Server) : list string :=
  let reachable : gmap string bool :=
    map_fold (λ peer lastSeen acc, if contacted d now lastSeen then <[peer := true]> acc else acc)
      ∅ (sd_reachablePeers d) in
  (filter (λ kv, map_get false reachable kv.1 = false) (map_to_list (sv_peerStates s))).*1.

Definition HaveQuorum (now : Z) (d : SplitBrainDetector) : bool :=
  bool_decide (sb_QuorumSize (sd_config d) ≤ countReachablePeers now d + 1).

Definition AreWritesFenced (d : SplitBrainDetector) : bool := sd_writesFenced d.

Definition CanAcceptWrite (now : Z) (d : SplitBrainDetector) : bool :=
  if sb_FencingEnabled (sd_config d) && AreWritesFenced d then false
  else if sb_QuorumRequired (sd_config d) && negb (HaveQuorum now d) then false
  else true.

Definition GetPartitionState (d : SplitBrainDetector) : PartitionState := sd_state d.
Definition GetPartitionInfo (d : SplitBrainDetector) : option PartitionInfo := sd_partitionInfo d.

(** ** Transitions *)

Definition transitionToHealthy (d : SplitBrainDetector) : SplitBrainDetector :=
  set_sd_fenced false (set_sd_info None (set_sd_state PartitionStateHealthy d)).

(** The fencing of a confirmed partition. *)
Definition fence (d : SplitBrainDetector) : SplitBrainDetector :=
  if sb_FencingEnabled (sd_config d) then
    set_sd_info (set_pn_WritesFenced true <$> sd_partitionInfo d) (set_sd_fenced true d)
  else d.

(** The case of [checkForPartition] in which some peers are reachable and some
    are not. *)
Definition partialPartition (now'' : Z) (reachable unreachable : list string) (d : SplitBrainDetector)
    : SplitBrainDetector :=
  match sd_state d with
  | PartitionStateHealthy =>
      let info := mkPartitionInfo PartitionStateSuspected now'' time_zero reachable unreachable
                    (HaveQuorum now'' d) false 0 in
      set_sd_info (Some info) (set_sd_state PartitionStateSuspected d)
  | PartitionStateConfirmed | PartitionStateHealing => d
  | PartitionStateSuspected =>
      match sd_partitionInfo d with
      | Some info =>
          if decide (time_Sub now'' (pn_DetectedAt info) > sb_PartitionTimeout (sd_config d)) then
            fence (set_sd_info (Some (set_pn_State PartitionStateConfirmed info))
                     (set_sd_state PartitionStateConfirmed d))
          else d
      | None => d
      end
  end.

(** The case in which no peer is reachable. *)
Definition completePartition (now'' : Z) (unreachable : list string) (d : SplitBrainDetector)
    : SplitBrainDetector :=
  if decide (sd_state d = PartitionStateConfirmed) then d
  else
    let info := mkPartitionInfo PartitionStateConfirmed now'' time_zero [] unreachable false false 0 in
    fence (set_sd_info (Some info) (set_sd_state PartitionStateConfirmed d)).

(** [checkForPartition]: [now] and [now'] are the readings behind the two name
    lists, [now''] the later ones. *)
Definition checkForPartition (now now' now'' : Z) (s : Server) (d : SplitBrainDetector) : SplitBrainDetector :=
  let reachable := getReachablePeerNames now d in
  let unreachable := getUnreachablePeerNames now' d s in
  if decide (length unreachable = 0%nat) then
    if decide (sd_state d = PartitionStateHealthy) then d else transitionToHealthy d
  else
    let d :=
      if decide (0 < length unreachable ∧ 0 < length reachable)%nat
      then partialPartition now'' reachable unreachable d else d in
    if decide (length reachable = 0%nat ∧ 0 < sd_totalPeers d)
    then completePartition now'' unreachable d else d.

Definition checkPartitionHealing (now now' : Z) (s : Server) (d : SplitBrainDetector) : SplitBrainDetector :=
  let unreachable := getUnreachablePeerNames now d s in
  if decide (sd_state d ≠ PartitionStateConfirmed ∧ sd_state d ≠ PartitionStateSuspected) then d
  else if decide (length unreachable = 0%nat) then
    let d := set_sd_state PartitionStateHealing d in
    let d := set_sd_info
      ((λ i, set_pn_HealedAt now' (set_pn_State PartitionStateHealing i)) <$> sd_partitionInfo d) d in
    set_sd_healing (S (sd_healing d)) d
  else d.

Definition RecordPeerContact (peerName : string) (now now' now'' : Z) (s : Server) (d : SplitBrainDetector)
    : SplitBrainDetector :=
  checkPartitionHealing now' now'' s (set_sd_reachable (<[peerName := now]> (sd_reachablePeers d)) d).

Definition RecordPeerFailure (peerName : string) (now now' now'' : Z) (s : Server) (d : SplitBrainDetector)
    : SplitBrainDetector :=
  checkForPartition now now' now'' s d.

(** The effect of [checkQuorum]: entries older than the timeout are removed. *)
Definition checkQuorum (now : Z) (d : SplitBrainDetector) : SplitBrainDetector :=
  let cutoff := now - sb_PartitionTimeout (sd_config d) in
  set_sd_reachable (filter (λ kv, time_Before kv.2 cutoff = false) (sd_reachablePeers d)) d.

(** One tick of [runDetectionLoop]. *)
Definition detectionTick (now now' now'' now3 : Z) (s : Server) (d : SplitBrainDetector) : SplitBrainDetector :=
  checkQuorum now3 (checkForPartition now now' now'' s d).

(** [runHealingProcess] once the grace period is over; [order] is the order of
    [GetConflicts]. *)
Definition runHealingProcess (order : list (string * ConflictInfo)) (s : Server) (d : SplitBrainDetector)
    : Server * SplitBrainDetector :=
  let d := set_sd_healing (pred (sd_healing d)) d in
  if decide (sd_state d ≠ PartitionStateHealing) then (s, d)
  else
    let s :=
      if sb_AutoResolveOnHeal (sd_config d) then
        foldl (λ s conflict, (ResolveConflict (ResourceKey_String (ci_Key conflict)) false s).1)
          s (GetConflicts order)
      else s in
    (s, transitionToHealthy (set_sd_fenced false d)).

(** ** Reachable states of the detector *)

(** One event; the server's state may change in between. *)
Inductive detector_step : Server * SplitBrainDetector → Server * SplitBrainDetector → Prop :=
  | ds_contact peer now now' now'' s d :
      detector_step (s, d) (s, RecordPeerContact peer now now' now'' s d)
  | ds_failure peer now now' now'' s d :
      detector_step (s, d) (s, RecordPeerFailure peer now now' now'' s d)
  | ds_tick now now' now'' now3 s d :
      detector_step (s, d) (s, detectionTick now now' now'' now3 s d)
  | ds_heal order s d :
      (0 < sd_healing d)%nat → detector_step (s, d) (runHealingProcess order s d)
  | ds_server s s' d : detector_step (s, d) (s', d).

Definition detector_inv (d : SplitBrainDetector) : Prop :=
  (sd_state d = PartitionStateHealthy ↔ sd_partitionInfo d = None) ∧
  (∀ i, sd_partitionInfo d = Some i → pn_State i = sd_state d ∧ pn_WritesFenced i = sd_writesFenced d) ∧
  (sd_writesFenced d = true → sb_FencingEnabled (sd_config d) = true ∧
     (sd_state d = PartitionStateConfirmed ∨ sd_state d = PartitionStateHealing)) ∧
  (sd_state d = PartitionStateConfirmed → sb_FencingEnabled (sd_config d) = true → sd_writesFenced d = true).

Lemma transitionToHealthy_inv d : detector_inv (transitionToHealthy d).
Proof. unfold detector_inv; simpl. split_and!; done. Qed.

(** Entering a confirmed partition with a fresh or updated description. *)
Lemma confirm_inv d i :
  pn_State i = PartitionStateConfirmed → pn_WritesFenced i = sd_writesFenced d →
  (sd_writesFenced d = true → sb_FencingEnabled (sd_config d) = true) →
  detector_inv (fence (set_sd_info (Some i) (set_sd_state PartitionStateConfirmed d))).
Proof.
  intros Hst Hw Hf. unfold fence. simpl. destruct (sb_FencingEnabled (sd_config d)) eqn:E;
    unfold detector_inv; simpl; rewrite ?E; split_and!; try done.
  - intros j [= <-]. done.
  - auto.
  - intros j [= <-]. done.
  - intros H. by apply Hf in H.
Qed.

Lemma partialPartition_inv now r u d : detector_inv d → detector_inv (partialPartition now r u d).
Proof.
  intros Hinv. pose proof Hinv as (H1 & H2 & H3 & H4). unfold partialPartition.
  destruct (sd_state d) eqn:Est; [| |done..].
  - unfold detector_inv; simpl. split_and!; try done.
    + intros i [= <-]. simpl. split; [done|]. destruct (sd_writesFenced d); [|done].
      by destruct (H3 eq_refl) as [_ [?|?]].
    + intros Hw. by destruct (H3 Hw) as [_ [?|?]].
  - destruct (sd_partitionInfo d) as [i|] eqn:Ei; [|done]. case_decide; [|done].
    destruct (H2 i eq_refl) as [_ Hw]. apply confirm_inv; [done|done|]. intros Hw'. by apply H3 in Hw' as [? _].
Qed.

Lemma completePartition_inv now u d : detector_inv d → detector_inv (completePartition now u d).
Proof.
  intros Hinv. unfold completePartition. case_decide as Hc; [done|]. destruct Hinv as (_ & _ & H3 & _).
  unfold fence. simpl.
  destruct (sb_FencingEnabled (sd_config d)) eqn:E; unfold detector_inv; simpl; rewrite ?E; split_and!; try done.
  - by intros i [= <-].
  - auto.
  - intros i [= <-]. simpl. split; [done|]. destruct (sd_writesFenced d); [|done]. by destruct (H3 eq_refl).
  - intros Hw. by destruct (H3 Hw).
Qed.

Lemma checkForPartition_inv now now' now'' s d :
  detector_inv d → detector_inv (checkForPartition now now' now'' s d).
Proof.
  intros Hinv. unfold checkForPartition. case_decide; [case_decide; [done|apply transitionToHealthy_inv]|].
  destruct (decide (0 < _ ∧ _)%nat); [apply (partialPartition_inv now'') with (r := getReachablePeerNames now d)
    (u := getUnreachablePeerNames now' d s) in Hinv|];
    case_decide; auto using completePartition_inv.
Qed.

Lemma checkPartitionHealing_inv now now' s d :
  detector_inv d → detector_inv (checkPartitionHealing now now' s d).
Proof.
  intros (H1 & H2 & H3 & H4). unfold checkPartitionHealing. case_decide as Hs; [by split_and!|].
  case_decide; [|by split_and!]. unfold detector_inv; simpl. split_and!; try done.
  - split; [done|]. destruct (sd_partitionInfo d) eqn:E; [done|]. intros _.
    destruct Hs. destruct H1 as [_ H1]. rewrite H1 by done. done.
  - intros i. destruct (sd_partitionInfo d) as [j|] eqn:E; simpl; [|done]. intros [= <-]. simpl.
    split; [done|]. by destruct (H2 j eq_refl).
  - intros Hw. destruct (H3 Hw). auto.
Qed.

Lemma detector_step_inv x y : detector_inv x.2 → detector_step x y → detector_inv y.2.
Proof.
  intros Hinv Hstep. destruct Hstep as [peer now now' now'' s d|peer now now' now'' s d|now now' now'' now3 s d
    |order s d Hh|s s' d]; simpl in *.
  - by apply checkPartitionHealing_inv.
  - by apply checkForPartition_inv.
  - exact (checkForPartition_inv now now' now'' s d Hinv).
  - unfold runHealingProcess. case_decide; [done|]. apply transitionToHealthy_inv.
  - done.
Qed.

Lemma NewSplitBrainDetector_inv cfg n : detector_inv (NewSplitBrainDetector cfg n).
Proof. unfold detector_inv; simpl. by split_and!. Qed.

(** C11: the detector's answers about fencing follow its partition state. In
    every reachable state of the detector, [CanAcceptWrite] answers no at every
    time while a partition is confirmed and fencing is enabled;
    [AreWritesFenced] answers yes only in a confirmed or healing partition, so
    never in a healthy or suspected state; and the published partition
    description is there exactly outside the healthy state, with that state and
    that answer. The answer of [CanAcceptWrite] is not consulted before writes
    anywhere in the program, so this is a property of the detector and not of
    the writes. *)
Theorem fencing_follows_partition (cfg : option SplitBrainConfig) (n : Z) (s0 s : Server)
    (d : SplitBrainDetector)
    (Hreach : rtc detector_step (s0, NewSplitBrainDetector cfg n) (s, d)) :
  (sd_state d = PartitionStateConfirmed → sb_FencingEnabled (sd_config d) = true →
     ∀ now, CanAcceptWrite now d = false) ∧
  (sd_state d = PartitionStateHealthy ∨ sd_state d = PartitionStateSuspected → AreWritesFenced d = false) ∧
  (GetPartitionInfo d = None ↔ sd_state d = PartitionStateHealthy) ∧
  (∀ i, GetPartitionInfo d = Some i → pn_State i = sd_state d ∧ pn_WritesFenced i = AreWritesFenced d).
Proof.
  assert (detector_inv d) as (H1 & H2 & H3 & H4).
  { change d with (s, d).2. revert Hreach. generalize (s, d). intros x Hreach.
    apply (rtc_ind_r (R := detector_step) (λ x, detector_inv x.2) (s0, NewSplitBrainDetector cfg n)); [| |done].
    - apply NewSplitBrainDetector_inv.
    - intros y z _ Hyz Hy. by eapply detector_step_inv. }
  split_and!.
  - intros Hs Hf now. unfold CanAcceptWrite, AreWritesFenced. by rewrite Hf, H4.
  - unfold AreWritesFenced. intros Hs. destruct (sd_writesFenced d); [|done].
    destruct (H3 eq_refl) as [_ [?|?]]; destruct Hs; congruence.
  - unfold GetPartitionInfo. by rewrite H1.
  - exact H2.
Qed.

(** A server that knows one peer, and a detector with fencing that never hears
    of it. *)
Definition sample_peers : Server :=
  updatePeerState "p" (set_ps_LastSeen 0) (sample_server "m" StrategyLastWriterWins).

Definition fencing_config : SplitBrainConfig :=
  mkSplitBrainConfig (30 * Second) true 0 (5 * Second) true true QuorumModeControllers 1 10 1.

Definition sample_partitioned : SplitBrainDetector :=
  detectionTick 1 1 1 1 sample_peers (NewSplitBrainDetector (Some fencing_config) 1).

Lemma fencing_follows_partition_witness : CanAcceptWrite 5 sample_partitioned = false.
Proof.
  apply (fencing_follows_partition (Some fencing_config) 1 sample_peers sample_peers sample_partitioned).
  - apply rtc_once. apply ds_tick.
  - vm_compute. reflexivity.
  - vm_compute. reflexivity.
Defined.

(** ** Quorum *)

(** The default quorum excludes a split brain exactly in federations of an
    odd number of members. With [n] configured peers the federation has [n + 1]
    members. Two detectors whose reachable groups are disjoint never both have
    quorum when [n + 1] is odd; when it is even, a half that reaches only itself
    has quorum, so the two halves of a split both have it. In agent-assisted
    mode every detector has quorum, even one that reaches no peer. *)
Theorem default_quorum_splits_iff_even (cfg : SplitBrainConfig) (n : Z) (Hn : 0 < n)
    (Hdefault : sb_QuorumSize cfg ≤ 0) :
  let cfg' := sd_config (NewSplitBrainDetector (Some cfg) n) in
  (sb_QuorumMode cfg ≠ QuorumModeAgentAssisted → Z.odd (n + 1) = true →
     ∀ d1 d2 t1 t2, sd_config d1 = cfg' → sd_config d2 = cfg' →
       (countReachablePeers t1 d1 + 1) + (countReachablePeers t2 d2 + 1) ≤ n + 1 →
       HaveQuorum t1 d1 && HaveQuorum t2 d2 = false) ∧
  (sb_QuorumMode cfg ≠ QuorumModeAgentAssisted → Z.odd (n + 1) = false →
     ∀ d t, sd_config d = cfg' → countReachablePeers t d + 1 = (n + 1) / 2 → HaveQuorum t d = true) ∧
  (sb_QuorumMode cfg = QuorumModeAgentAssisted → ∀ d t, sd_config d = cfg' → HaveQuorum t d = true).
Proof.
  intros cfg'. unfold NewSplitBrainDetector in cfg'. simpl in cfg'. subst cfg'.
  rewrite decide_True by done. rewrite Z.quot_div_nonneg by lia.
  assert (∀ t d, 0 ≤ countReachablePeers t d) as Hpos by (intros; unfold countReachablePeers; lia).
  assert (n = 2 * (n / 2) + n mod 2) as Hdiv by (apply Z.div_mod; lia).
  pose proof (Z.mod_pos_bound n 2) as Hmod. rewrite Z.add_1_r, Z.odd_succ.
  split_and!.
  - intros Hm Hodd d1 d2 t1 t2 E1 E2 Hle. rewrite decide_False in E1, E2 by done.
    unfold HaveQuorum. rewrite E1, E2. simpl. apply Z.even_spec in Hodd as [k Hk].
    assert (n / 2 = k) by (subst n; rewrite Z.mul_comm, Z.div_mul; lia).
    apply andb_false_iff. rewrite !bool_decide_eq_false. lia.
  - intros Hm Heven d t E Hhalf. rewrite decide_False in E by done.
    unfold HaveQuorum. rewrite E. simpl. apply bool_decide_eq_true_2.
    assert (Z.odd n = true) as Hodd by (by rewrite <- Z.negb_even, Heven).
    apply Z.odd_spec in Hodd as [k Hk].
    assert (n / 2 = k) by (subst n; rewrite Z.add_comm, Z.mul_comm, Z.div_add; [done|lia]).
    assert (Z.succ n / 2 = k + 1). { subst n. replace (Z.succ (2 * k + 1)) with ((k + 1) * 2) by lia. apply Z.div_mul. lia. }
    lia.
  - intros Hm d t E. rewrite decide_True in E by done. unfold HaveQuorum. rewrite E. simpl.
    apply bool_decide_eq_true_2. specialize (Hpos t d). lia.
Qed.

(** A federation of two: each side of the split accepts writes, although a
    quorum is required. *)
Lemma default_quorum_splits_iff_even_witness :
  let d := NewSplitBrainDetector (Some fencing_config) 1 in
  HaveQuorum 0 d = true ∧ CanAcceptWrite 0 d = true.
Proof.
  intros d.
  destruct (default_quorum_splits_iff_even fencing_config 1) as (_ & H & _); [done..|].
  assert (HaveQuorum 0 d = true) as Hq by (apply H; done).
  split; [exact Hq|]. unfold CanAcceptWrite. rewrite Hq. reflexivity.
Defined.

(** ** Healing *)

Lemma resolve_all_remote order s :
  NoDup order.*1 →
  (∀ k ci, (k, ci) ∈ order → sv_conflicts s !! k = Some ci ∧ ResourceKey_String (ci_Key ci) = k) →
  let s' := foldl (λ s conflict, (ResolveConflict (ResourceKey_String (ci_Key conflict)) false s).1)
              s (GetConflicts order) in
  (∀ k ci, (k, ci) ∈ order → sv_resources s' !! k = Some (ci_RemoteVersion ci) ∧ sv_conflicts s' !! k = None) ∧
  (∀ k, k ∉ order.*1 → sv_resources s' !! k = sv_resources s !! k ∧ sv_conflicts s' !! k = sv_conflicts s !! k).
Proof.
  unfold GetConflicts. revert s. induction order as [|[k ci] order IH]; intros s Hnd Hconf; csimpl.
  { split; [by intros k ci Hin%not_elem_of_nil|done]. }
  apply NoDup_cons in Hnd as [Hnin Hnd]. destruct (Hconf k ci) as [Hk Hkey]; [by left|].
  rewrite Hkey. set (s1 := (ResolveConflict k false s).1).
  pose proof (ResolveConflict_effect k false s) as (_ & _ & _ & _ & _ & _ & [[? _]|(ci' & Hci' & Hc1 & _ & Hr1)]);
    [congruence|]. rewrite Hk in Hci'. injection Hci' as <-. fold s1 in Hc1, Hr1.
  destruct (IH s1) as [Hin Hout]; [done| |].
  { intros k' ci' Hin. assert (k' ≠ k) by (intros ->; apply Hnin; by apply (list_elem_of_fmap_2 fst) in Hin).
    rewrite Hc1, lookup_delete_ne by done. apply Hconf. by right. }
  split.
  - intros k' ci' [[= -> ->]|Hk']%elem_of_cons; [|by apply Hin].
    destruct (Hout k) as [-> ->]; [done|]. by rewrite Hr1, Hc1, lookup_insert_eq, lookup_delete_eq.
  - intros k' [Hne Hk']%not_elem_of_cons. destruct (Hout k') as [-> ->]; [done|].
    by rewrite Hr1, Hc1, lookup_insert_ne, lookup_delete_ne.
Qed.

(** Healing ends a partition and settles every pending conflict. When all
    known peers are reachable again, a contact moves a confirmed or suspected
    partition to healing; the healing process then lifts the fence, returns to
    the healthy state and, with automatic resolution, leaves no pending
    conflict: each is settled in favour of the remote version, whichever
    version is newer, and no other resource changes. *)
Theorem healing_settles_conflicts (peer : string) (now now' now'' : Z) (s : Server)
    (d : SplitBrainDetector) (order : list (string * ConflictInfo))
    (Hpart : sd_state d = PartitionStateConfirmed ∨ sd_state d = PartitionStateSuspected)
    (Hall : getUnreachablePeerNames now' (set_sd_reachable (<[peer := now]> (sd_reachablePeers d)) d) s = [])
    (Hauto : sb_AutoResolveOnHeal (sd_config d) = true)
    (Hfiled : filed s) (Horder : range_order (sv_conflicts s) order) :
  let d1 := RecordPeerContact peer now now' now'' s d in
  let s' := (runHealingProcess order s d1).1 in
  let d2 := (runHealingProcess order s d1).2 in
  sd_state d1 = PartitionStateHealing ∧ sd_writesFenced d1 = sd_writesFenced d ∧
  sd_state d2 = PartitionStateHealthy ∧ AreWritesFenced d2 = false ∧
  sv_conflicts s' = ∅ ∧
  (∀ k ci, sv_conflicts s !! k = Some ci → sv_resources s' !! k = Some (ci_RemoteVersion ci)) ∧
  (∀ k, sv_conflicts s !! k = None → sv_resources s' !! k = sv_resources s !! k).
Proof.
  assert (∀ k ci, (k, ci) ∈ order ↔ sv_conflicts s !! k = Some ci) as Hin.
  { intros k ci. by rewrite Horder, elem_of_map_to_list. }
  assert (∀ k, sv_conflicts s !! k = None → k ∉ order.*1) as Hnin.
  { intros k Hk ([k' ci] & -> & Hki)%list_elem_of_fmap. apply Hin in Hki. simpl in Hk. congruence. }
  destruct (resolve_all_remote order s) as [Hres Hout].
  { rewrite Horder. apply NoDup_fst_map_to_list. }
  { intros k ci Hki. apply Hin in Hki. split; [done|]. by apply Hfiled in Hki as [? _]. }
  intros d1 s' d2. unfold s', d2, d1, RecordPeerContact, checkPartitionHealing. rewrite Hall.
  rewrite decide_False by (simpl; destruct Hpart; naive_solver).
  unfold runHealingProcess. simpl. rewrite Hauto. split_and!; try done.
  - apply map_eq. intros k. rewrite lookup_empty.
    destruct (sv_conflicts s !! k) as [ci|] eqn:Ek; [by apply (Hres k ci), Hin|].
    destruct (Hout k) as [_ ->]; [by apply Hnin|done].
  - intros k ci Hk. by apply (Hres k ci), Hin.
  - intros k Hk. by apply Hout, Hnin.
Qed.

(** A server with one pending conflict, whose only peer has been silent. *)
Definition sample_conflicted : Server :=
  updatePeerState "p" (set_ps_LastSeen 0)
    (run (deliver_all no_codecs
      [("a"%string, sample_change {["a" := 1]} CREATED "local" 200, 0, 0);
       ("b"%string, sample_change {["b" := 1]} CREATED "remote" 100, 0, 0)] (sample_server "m" "Manual"))).

Definition sample_silent : SplitBrainDetector :=
  detectionTick 1 1 1 1 sample_conflicted (NewSplitBrainDetector (Some fencing_config) 1).

Lemma healing_settles_conflicts_witness :
  let order := map_to_list (sv_conflicts sample_conflicted) in
  let d1 := RecordPeerContact "p" 2 2 2 sample_conflicted sample_silent in
  let r := runHealingProcess order sample_conflicted d1 in
  AreWritesFenced sample_silent = true ∧ AreWritesFenced r.2 = false ∧ sv_conflicts r.1 = ∅.
Proof.
  intros order d1 r. split; [vm_compute; reflexivity|].
  destruct (healing_settles_conflicts "p" 2 2 2 sample_conflicted sample_silent order)
    as (_ & _ & _ & H1 & H2 & _).
  - left. vm_compute. reflexivity.
  - vm_compute. reflexivity.
  - vm_compute. reflexivity.
  - unfold filed. split_and!; apply (bool_decide_unpack _); by vm_compute.
  - unfold range_order. reflexivity.
  - split; [exact H1|exact H2].
Defined.

(** The periodic check does not wait for a healing process: while the partition
    is healing and every known peer is reachable, the next check declares the
    federation healthy and lifts the fence; the healing process that follows
    finds nothing to heal and leaves the pending conflicts alone. *)
Lemma tick_cuts_healing_short now now' now'' now3 order s d :
  sd_state d = PartitionStateHealing → getUnreachablePeerNames now' d s = [] →
  let d1 := detectionTick now now' now'' now3 s d in
  sd_state d1 = PartitionStateHealthy ∧ AreWritesFenced d1 = false ∧ (runHealingProcess order s d1).1 = s.
Proof.
  intros Hst Hall. unfold detectionTick, checkForPartition. rewrite Hall. simpl.
  rewrite decide_False by congruence. simpl. split_and!; try done.
Qed.

(** Peers that never connected are unknown to the detector: with no peer state
    on the server, the check keeps the healthy state although peers are
    configured. *)
Lemma no_peer_state_is_healthy now now' now'' s d :
  sv_peerStates s = ∅ → sd_state d = PartitionStateHealthy → checkForPartition now now' now'' s d = d.
Proof.
  intros Hs Hst. unfold checkForPartition, getUnreachablePeerNames. rewrite Hs, map_to_list_empty. simpl.
  by rewrite decide_True.
Qed.
