(* ===== verification/SnapshotFed.v ===== *)
(** * Federation metadata of configuration snapshots
    (src/internal/controller/federation/snapshot_integration.go)

    A gateway, route, cluster or policy of a snapshot is a resource with a
    namespace, a name and the rest of its fields; [proto.Marshal] and the rest
    of the snapshot are parameters. The range loops over resource maps take
    their order from [range]. *)

From S2P Require Import Prelude VectorClock FedTypes FedServer Sha256.
Open Scope Z_scope.
Open Scope go_scope.

Record NamespacedResource := mkResource {
  nr_Namespace : string;
  nr_Name : string;
  nr_Rest : string;
}.

Record ControllerEndpoint := mkControllerEndpoint {
  ct_Name : string;
  ct_Endpoint : string;
  ct_Priority : Z;
  ct_Region : string;
  ct_Zone : string;
  ct_Healthy : bool;
  ct_VectorClock : gmap string Z;
}.

Record FederationMetadata := mkFederationMetadata {
  fm_VectorClock : gmap string Z;
  fm_FederationId : string;
  fm_OriginController : string;
  fm_ContentHash : string;
  fm_SequenceNumber : Z;
  fm_FromFederation : bool;
}.

Record ConfigSnapshot := mkConfigSnapshot {
  sn_Version : string;
  sn_Gateways : list NamespacedResource;
  sn_Routes : list NamespacedResource;
  sn_Clusters : list NamespacedResource;
  sn_Policies : list NamespacedResource;
  sn_Rest : string;
  sn_FederationMetadata : option FederationMetadata;
  sn_AvailableControllers : list ControllerEndpoint;
}.

Record SnapshotEnhancer := mkSnapshotEnhancer {
  en_federationID : string;
  en_controllerName : string;
  en_vectorClock : VectorClock;
  en_sequenceNumber : Z;
  en_controllers : list ControllerEndpoint;
}.

(** [proto.Marshal], which can fail. *)
Record Marshaller := mkMarshaller {
  marshalSnapshot : ConfigSnapshot → option string;
  marshalResource : NamespacedResource → option string;
}.

Definition NewSnapshotEnhancer (federationID controllerName : string) : SnapshotEnhancer :=
  mkSnapshotEnhancer federationID controllerName NewVectorClock 0 [].

Definition SetVectorClock (vc : VectorClock) (e : SnapshotEnhancer) : SnapshotEnhancer :=
  mkSnapshotEnhancer (en_federationID e) (en_controllerName e) vc (en_sequenceNumber e) (en_controllers e).

Definition UpdateControllers (controllers : list ControllerEndpoint) (e : SnapshotEnhancer) : SnapshotEnhancer :=
  mkSnapshotEnhancer (en_federationID e) (en_controllerName e) (en_vectorClock e) (en_sequenceNumber e) controllers.

Definition calculateContentHash (ms : Marshaller) (sn : ConfigSnapshot) : string :=
  let copy := mkConfigSnapshot "" (sn_Gateways sn) (sn_Routes sn) (sn_Clusters sn) (sn_Policies sn)
                (sn_Rest sn) None [] in
  match marshalSnapshot ms copy with
  | None => ""
  | Some data => EncodeToString (take 16 (sha256 (bytes_of data)))
  end.

Definition EnhanceSnapshot (ms : Marshaller) (snapshot : option ConfigSnapshot) (fromFederation : bool)
    (e : SnapshotEnhancer) : SnapshotEnhancer * option ConfigSnapshot :=
  match snapshot with
  | None => (e, None)
  | Some sn =>
      let seq := wrap64 (en_sequenceNumber e + 1) in
      let vc := if fromFederation then en_vectorClock e
                else (Increment (en_vectorClock e) (en_controllerName e)).1 in
      let contentHash := calculateContentHash ms sn in
      (mkSnapshotEnhancer (en_federationID e) (en_controllerName e) vc seq (en_controllers e),
       Some (mkConfigSnapshot (sn_Version sn) (sn_Gateways sn) (sn_Routes sn) (sn_Clusters sn) (sn_Policies sn)
         (sn_Rest sn)
         (Some (mkFederationMetadata (ToMap vc) (en_federationID e) (en_controllerName e) contentHash seq fromFederation))
         (en_controllers e)))
  end.

Definition MergeVectorClock (incoming : gmap string Z) (e : SnapshotEnhancer) : SnapshotEnhancer :=
  SetVectorClock (MergeMap (en_vectorClock e) incoming) e.

Definition GetVectorClock (e : SnapshotEnhancer) : gmap string Z := ToMap (en_vectorClock e).

(** ** Comparison *)

Definition snapshot_metadata (sn : option ConfigSnapshot) : option FederationMetadata :=
  sn ≫= sn_FederationMetadata.

Definition CompareSnapshots (a b : option ConfigSnapshot) : Z :=
  match snapshot_metadata a, snapshot_metadata b with
  | None, None => 0
  | None, Some _ => -1
  | Some _, None => 1
  | Some ma, Some mb =>
      Compare (NewVectorClockFromMap (fm_VectorClock ma)) (Some (NewVectorClockFromMap (fm_VectorClock mb)))
  end.

Definition IsNewerSnapshot (a b : option ConfigSnapshot) : bool := bool_decide (CompareSnapshots a b = 1).
Definition SnapshotsAreConcurrent (a b : option ConfigSnapshot) : bool := bool_decide (CompareSnapshots a b = 0).

Definition SnapshotNeedsSync (snapshot : option ConfigSnapshot) (peerVectorClock : gmap string Z) : bool :=
  match snapshot_metadata snapshot with
  | None => false
  | Some m =>
      bool_decide (0 ≤ Compare (NewVectorClockFromMap (fm_VectorClock m))
                         (Some (NewVectorClockFromMap peerVectorClock)))
  end.

(** ** Extracting changes *)

Definition resourceKey (r : NamespacedResource) : string := nr_Namespace r +:+ "/" +:+ nr_Name r.

Definition hashBytes (data : string) : string := EncodeToString (take 8 (sha256 (bytes_of data))).

(** [data, _ := proto.Marshal(r)]: nothing on failure. *)
Definition marshal_data (ms : Marshaller) (r : NamespacedResource) : string :=
  default "" (marshalResource ms r).

(** A change message with the fields the code sets. *)
Definition snapshot_change (ct : pbChangeType) (kind : string) (r : NamespacedResource)
    (data hash : string) (vc : gmap string Z) : ResourceChange :=
  mkResourceChange "" vc ct kind (nr_Namespace r) (nr_Name r) "" data hash 0 "" None.

Definition buildResourceMap (resources : list NamespacedResource) : gmap string NamespacedResource :=
  foldl (λ m r, <[resourceKey r := r]> m) ∅ resources.

Definition keysFromMap (m : gmap string NamespacedResource) : gset string := dom m.

Definition detectDeletions (baseline : list NamespacedResource) (currentKeys : gset string) (kind : string)
    (changes : list ResourceChange) : list ResourceChange :=
  foldl (λ changes r,
    if bool_decide (resourceKey r ∈ currentKeys) then changes
    else changes ++ [snapshot_change DELETED kind r "" "" ∅]) changes baseline.

Definition buildBaselineHashes (ms : Marshaller) (resources : list NamespacedResource) (kind : string)
    (hashes : gmap string string) : gmap string string :=
  foldl (λ hashes r, <[kind +:+ "/" +:+ resourceKey r := hashBytes (marshal_data ms r)]> hashes) hashes resources.

Definition detectCreatesUpdates (ms : Marshaller) (order : list (string * NamespacedResource)) (kind : string)
    (baselineHashes : gmap string string) (vectorClock : gmap string Z) (changes : list ResourceChange)
    : list ResourceChange :=
  foldl (λ changes kr,
    let r := kr.2 in
    let data := marshal_data ms r in
    let hash := hashBytes data in
    match baselineHashes !! (kind +:+ "/" +:+ resourceKey r) with
    | Some oldHash =>
        if str_eqb oldHash hash then changes
        else changes ++ [snapshot_change UPDATED kind r data hash vectorClock]
    | None => changes ++ [snapshot_change CREATED kind r data hash vectorClock]
    end) changes order.

Section extract.
Context (ms : Marshaller) (range : gmap string NamespacedResource → list (string * NamespacedResource)).

(** [ExtractResourceChanges]; [current] must not be nil. *)
Definition ExtractResourceChanges (current : ConfigSnapshot) (baseline : option ConfigSnapshot)
    : list ResourceChange :=
  let currentGateways := buildResourceMap (sn_Gateways current) in
  let currentRoutes := buildResourceMap (sn_Routes current) in
  let currentClusters := buildResourceMap (sn_Clusters current) in
  let currentPolicies := buildResourceMap (sn_Policies current) in
  let changes :=
    match baseline with
    | None => []
    | Some b =>
        let changes := detectDeletions (sn_Gateways b) (keysFromMap currentGateways) "ProxyGateway" [] in
        let changes := detectDeletions (sn_Routes b) (keysFromMap currentRoutes) "ProxyRoute" changes in
        let changes := detectDeletions (sn_Clusters b) (keysFromMap currentClusters) "ProxyBackend" changes in
        detectDeletions (sn_Policies b) (keysFromMap currentPolicies) "ProxyPolicy" changes
    end in
  let vectorClock := from_option fm_VectorClock ∅ (sn_FederationMetadata current) in
  let baselineHashes :=
    match baseline with
    | None => ∅
    | Some b =>
        let h := buildBaselineHashes ms (sn_Gateways b) "ProxyGateway" ∅ in
        let h := buildBaselineHashes ms (sn_Routes b) "ProxyRoute" h in
        let h := buildBaselineHashes ms (sn_Clusters b) "ProxyBackend" h in
        buildBaselineHashes ms (sn_Policies b) "ProxyPolicy" h
    end in
  let changes := detectCreatesUpdates ms (range currentGateways) "ProxyGateway" baselineHashes vectorClock changes in
  let changes := detectCreatesUpdates ms (range currentRoutes) "ProxyRoute" baselineHashes vectorClock changes in
  let changes := detectCreatesUpdates ms (range currentClusters) "ProxyBackend" baselineHashes vectorClock changes in
  detectCreatesUpdates ms (range currentPolicies) "ProxyPolicy" baselineHashes vectorClock changes.
End extract.

(** ** Successive snapshots *)

(** A snapshot of local configuration is newer than every snapshot the
    controller published before, and snapshots are numbered consecutively. The
    later of two snapshots of one enhancer, with any clocks merged in between,
    is strictly newer by vector clock, the earlier one is never newer, it is to
    be synced to a peer that knows only the earlier one, and its sequence number
    is one more. *)
Theorem local_snapshots_are_newer (ms : Marshaller) (sn1 sn2 : ConfigSnapshot) (fromFed : bool)
    (incoming : gmap string Z) (e : SnapshotEnhancer)
    (Hwf : vc_wf (en_vectorClock e)) (Hin : map_Forall (λ _ v, 0 ≤ v) incoming)
    (Hmax : Get (en_vectorClock e) (en_controllerName e) < max_int64 - 1)
    (Hmax' : map_get 0 incoming (en_controllerName e) < max_int64)
    (Hseq : 0 ≤ en_sequenceNumber e < max_int64 - 1) :
  let r1 := EnhanceSnapshot ms (Some sn1) fromFed e in
  let r2 := EnhanceSnapshot ms (Some sn2) false (MergeVectorClock incoming r1.1) in
  IsNewerSnapshot r2.2 r1.2 = true ∧ IsNewerSnapshot r1.2 r2.2 = false ∧
  SnapshotNeedsSync r2.2 (GetVectorClock r1.1) = true ∧
  en_sequenceNumber r2.1 = en_sequenceNumber r1.1 + 1.
Proof.
  intros r1 r2.
  set (vc1 := if fromFed then en_vectorClock e else (Increment (en_vectorClock e) (en_controllerName e)).1).
  set (vc1' := MergeMap vc1 incoming).
  set (vc2 := (Increment vc1' (en_controllerName e)).1).
  assert (vc_wf vc1) as Hwf1.
  { unfold vc1. destruct fromFed; [done|]. apply Increment_wf; [done|lia]. }
  assert (vc_wf vc1') as Hwf1' by (by apply MergeMap_wf).
  assert (Get vc1' (en_controllerName e) < max_int64) as Hlt1.
  { unfold vc1'. rewrite Get_MergeMap_max by done.
    assert (Get vc1 (en_controllerName e) < max_int64); [|lia].
    unfold vc1. destruct fromFed; [lia|]. rewrite Get_Increment, decide_True by done.
    pose proof (Get_nonneg _ (en_controllerName e) Hwf).
    rewrite wrap64_small; [lia|]. unfold int64_range, min_int64, max_int64 in *. lia. }
  assert (vc_lt vc1 vc2) as Hlt.
  { pose proof (Get_nonneg _ (en_controllerName e) Hwf1') as H0.
    assert (wrap64 (Get vc1' (en_controllerName e) + 1) = Get vc1' (en_controllerName e) + 1) as Hw.
    { apply wrap64_small. unfold int64_range, min_int64, max_int64 in *. lia. }
    pose proof (MergeMap_ub_l vc1 incoming) as Hle. fold vc1' in Hle. split.
    - intros k. specialize (Hle k). unfold vc2. rewrite Get_Increment. case_decide; subst; lia.
    - exists (en_controllerName e). specialize (Hle (en_controllerName e)).
      unfold vc2. rewrite Get_Increment, decide_True by done. lia. }
  assert (snapshot_metadata r1.2 = Some (mkFederationMetadata (ToMap vc1) (en_federationID e)
    (en_controllerName e) (calculateContentHash ms sn1) (wrap64 (en_sequenceNumber e + 1)) fromFed)) as Hm1 by done.
  assert (∃ m2, snapshot_metadata r2.2 = Some m2 ∧ fm_VectorClock m2 = ToMap vc2) as (m2 & Hm2 & Hv2) by (by eexists).
  unfold IsNewerSnapshot, SnapshotNeedsSync, CompareSnapshots. rewrite Hm1, Hm2. simpl fm_VectorClock.
  rewrite Hv2, !ToMap_id, !NewVectorClockFromMap_id.
  change (GetVectorClock r1.1) with (ToMap vc1). rewrite ?ToMap_id, ?NewVectorClockFromMap_id.
  assert (mkVectorClock (clocks vc1) = vc1 ∧ mkVectorClock (clocks vc2) = vc2) as [-> ->] by (by destruct vc1, vc2).
  assert (Compare vc2 (Some vc1) = 1) as -> by (by apply Compare_after).
  assert (Compare vc1 (Some vc2) = -1) as -> by (by apply Compare_before).
  split_and!; try done. simpl. rewrite !wrap64_small; [done|..];
    unfold int64_range, min_int64, max_int64 in *; try lia.
  rewrite wrap64_small; unfold int64_range, min_int64, max_int64 in *; lia.
Qed.

Definition no_marshal : Marshaller := mkMarshaller (λ _, None) (λ r, Some (nr_Rest r)).

Definition sample_snapshot : ConfigSnapshot := mkConfigSnapshot "v1" [] [] [] [] "" None [].

Lemma local_snapshots_are_newer_witness :
  let e := NewSnapshotEnhancer "fed" "c" in
  let r1 := EnhanceSnapshot no_marshal (Some sample_snapshot) true e in
  let r2 := EnhanceSnapshot no_marshal (Some sample_snapshot) false (MergeVectorClock {["d" := 7]} r1.1) in
  IsNewerSnapshot r2.2 r1.2 = true.
Proof.
  intros e r1 r2.
  destruct (local_snapshots_are_newer no_marshal sample_snapshot sample_snapshot true {["d" := 7]} e) as [H _].
  - apply NewVectorClock_wf.
  - apply map_Forall_singleton. lia.
  - vm_compute. reflexivity.
  - vm_compute. reflexivity.
  - split; vm_compute; [discriminate|reflexivity].
  - exact H.
Defined.

(** ** Diff and patch *)

(** The four kinds of resources, with the field that holds them. *)
Definition kinds : list (string * (ConfigSnapshot → list NamespacedResource)) :=
  [("ProxyGateway", sn_Gateways); ("ProxyRoute", sn_Routes); ("ProxyBackend", sn_Clusters);
   ("ProxyPolicy", sn_Policies)]%string.

Definition kind_key (kind rk : string) : string := kind +:+ "/" +:+ rk.

(** A map of a snapshot's resources by kind, namespace and name. *)
Definition keyed (f : NamespacedResource → string) (kind : string) (acc : gmap string string)
    (resources : list NamespacedResource) : gmap string string :=
  foldl (λ m r, <[kind_key kind (resourceKey r) := f r]> m) acc resources.

(** The contents of a snapshot: the marshalled resources by key. *)
Definition snapshot_data (ms : Marshaller) (sn : option ConfigSnapshot) : gmap string string :=
  match sn with
  | None => ∅
  | Some sn => foldl (λ m k, keyed (marshal_data ms) k.1 m (k.2 sn)) ∅ kinds
  end.

Definition change_id (c : ResourceChange) : string :=
  rc_ResourceType c +:+ "/" +:+ rc_Namespace c +:+ "/" +:+ rc_Name c.

(** Applying a list of changes to the contents. *)
Definition replay (changes : list ResourceChange) (m : gmap string string) : gmap string string :=
  foldl (λ m c, match rc_ChangeType c with
                | DELETED => delete (change_id c) m
                | _ => <[change_id c := rc_ResourceData c]> m
                end) m changes.

Definition change_op (c : ResourceChange) : option string :=
  match rc_ChangeType c with DELETED => None | _ => Some (rc_ResourceData c) end.

Lemma replay_untouched changes m k :
  (∀ c, c ∈ changes → change_id c ≠ k) → replay changes m !! k = m !! k.
Proof.
  unfold replay. induction changes as [|c cs IH] using rev_ind; intros H; [done|].
  rewrite foldl_app. simpl.
  assert (change_id c ≠ k) by (apply H; apply elem_of_app; right; by apply list_elem_of_singleton).
  assert (∀ c, c ∈ cs → change_id c ≠ k) as H' by (intros d Hd; apply H, elem_of_app; by left).
  destruct (rc_ChangeType c); rewrite ?lookup_insert_ne, ?lookup_delete_ne by done; by apply IH.
Qed.

Lemma replay_touched changes m k c o :
  c ∈ changes → change_id c = k → (∀ d, d ∈ changes → change_id d = k → change_op d = o) →
  replay changes m !! k = o.
Proof.
  unfold replay. induction changes as [|d cs IH] using rev_ind; intros Hc Hk Ho; [by apply not_elem_of_nil in Hc|].
  rewrite foldl_app. simpl. destruct (decide (change_id d = k)) as [Hd|Hd].
  - assert (change_op d = o) as <- by (apply Ho; [apply elem_of_app; right; by apply list_elem_of_singleton|done]).
    unfold change_op. destruct (rc_ChangeType d); rewrite Hd; by rewrite ?lookup_insert_eq, ?lookup_delete_eq.
  - assert (foldl (λ m c, match rc_ChangeType c with DELETED => delete (change_id c) m
      | _ => <[change_id c := rc_ResourceData c]> m end) m cs !! k = o) as Hcs.
    { apply IH; [|done|].
      - apply elem_of_app in Hc as [Hc|Hc%list_elem_of_singleton]; [done|congruence].
      - intros d' Hd'. apply Ho, elem_of_app. by left. }
    destruct (rc_ChangeType d); rewrite ?lookup_insert_ne, ?lookup_delete_ne by done; exact Hcs.
Qed.

(** Keys of different kinds do not meet. *)
Lemma kind_key_inj k1 k2 rk1 rk2 :
  k1 ∈ kinds.*1 → k2 ∈ kinds.*1 → kind_key k1 rk1 = kind_key k2 rk2 → k1 = k2 ∧ rk1 = rk2.
Proof.
  unfold kinds, kind_key. simpl. rewrite !elem_of_cons, !elem_of_nil.
  intros [->|[->|[->|[->|[]]]]] [->|[->|[->|[->|[]]]]]; rewrite !str_app_cons, ?str_app_nil;
    intros E; injection E as ?; done.
Qed.

Lemma lookup_buildResourceMap rs rk r : buildResourceMap rs !! rk = Some r → resourceKey r = rk ∧ r ∈ rs.
Proof.
  unfold buildResourceMap. induction rs as [|x rs IH] using rev_ind; [done|].
  rewrite foldl_app, elem_of_app. simpl. rewrite lookup_insert. case_decide as Hd.
  - intros [= ->]. split; [done|]. right. by apply list_elem_of_singleton.
  - intros H. destruct (IH H). auto.
Qed.

Lemma buildResourceMap_is_Some rs r : r ∈ rs → is_Some (buildResourceMap rs !! resourceKey r).
Proof.
  unfold buildResourceMap. induction rs as [|x rs IH] using rev_ind; [by intros ?%not_elem_of_nil|].
  rewrite foldl_app, elem_of_app. simpl. rewrite lookup_insert. case_decide as Hd; [eauto|].
  intros [H|H%list_elem_of_singleton]; [auto|congruence].
Qed.

Lemma kind_key_rk kind rk rk' : kind_key kind rk = kind_key kind rk' → rk = rk'.
Proof. unfold kind_key. intros E%str_app_inj. by apply str_app_inj in E. Qed.

Lemma lookup_keyed f kind acc rs rk :
  keyed f kind acc rs !! kind_key kind rk =
    match buildResourceMap rs !! rk with Some r => Some (f r) | None => acc !! kind_key kind rk end.
Proof.
  unfold keyed, buildResourceMap. induction rs as [|x rs IH] using rev_ind; [done|].
  rewrite !foldl_app. simpl. destruct (decide (resourceKey x = rk)) as [->|Hne].
  - by rewrite !lookup_insert_eq.
  - rewrite !lookup_insert_ne; [done|done|]. intros E. by apply kind_key_rk in E.
Qed.

Lemma lookup_keyed_other f kind acc rs k :
  (∀ rk, kind_key kind rk ≠ k) → keyed f kind acc rs !! k = acc !! k.
Proof.
  intros Hk. unfold keyed. induction rs as [|x rs IH] using rev_ind; [done|].
  rewrite foldl_app. simpl. by rewrite lookup_insert_ne.
Qed.

(** Maps over all kinds: the entry of a key of a kind comes from that kind. *)
Lemma lookup_all_kinds f sn kind sel rk :
  (kind, sel) ∈ kinds →
  foldl (λ m k, keyed f k.1 m (k.2 sn)) ∅ kinds !! kind_key kind rk = f <$> buildResourceMap (sel sn) !! rk.
Proof.
  intros Hin.
  assert (∀ kind' rk', kind' ∈ kinds.*1 → kind' ≠ kind → kind_key kind' rk' ≠ kind_key kind rk) as Hne.
  { intros kind' rk' Hk' Hd E. apply kind_key_inj in E as [? _]; [done|done|].
    by apply (list_elem_of_fmap_2 fst) in Hin. }
  assert (∀ acc, foldl (λ m k, keyed f k.1 m (k.2 sn)) acc kinds !! kind_key kind rk =
    match buildResourceMap (sel sn) !! rk with Some r => Some (f r) | None => acc !! kind_key kind rk end) as H.
  2: { rewrite H, lookup_empty. by destruct (_ !! rk). }
  intros acc. unfold kinds in *. simpl in Hne |- *. rewrite !elem_of_cons, elem_of_nil in Hin.
  destruct Hin as [[= -> ->]|[[= -> ->]|[[= -> ->]|[[= -> ->]|[]]]]];
    repeat first [rewrite lookup_keyed_other by (intros rk'; apply Hne; [set_solver|discriminate])
                 |rewrite lookup_keyed]; done.
Qed.

Lemma all_kinds_other f sn k :
  (∀ kind rk, kind ∈ kinds.*1 → kind_key kind rk ≠ k) → foldl (λ m k, keyed f k.1 m (k.2 sn)) ∅ kinds !! k = None.
Proof.
  intros Hk. unfold kinds. simpl.
  by rewrite !lookup_keyed_other by (intros rk; apply Hk; unfold kinds; simpl; set_solver).
Qed.

(** The two loops as lists. *)
Lemma detectDeletions_app base keys kind acc :
  detectDeletions base keys kind acc =
    acc ++ ((λ r, snapshot_change DELETED kind r "" "" ∅) <$>
              filter (λ r, negb (bool_decide (resourceKey r ∈ keys)) = true) base).
Proof. unfold detectDeletions. apply foldl_append. intros d r. by destruct (bool_decide _). Qed.

Definition needs_write (ms : Marshaller) (kind : string) (hashes : gmap string string) (kr : string * NamespacedResource) : bool :=
  match hashes !! kind_key kind (resourceKey kr.2) with
  | Some old => negb (str_eqb old (hashBytes (marshal_data ms kr.2)))
  | None => true
  end.

Definition write_change (ms : Marshaller) (kind : string) (hashes : gmap string string) (vc : gmap string Z)
    (kr : string * NamespacedResource) : ResourceChange :=
  snapshot_change (match hashes !! kind_key kind (resourceKey kr.2) with Some _ => UPDATED | None => CREATED end)
    kind kr.2 (marshal_data ms kr.2) (hashBytes (marshal_data ms kr.2)) vc.

Lemma detectCreatesUpdates_app ms order kind hashes vc acc :
  detectCreatesUpdates ms order kind hashes vc acc =
    acc ++ (write_change ms kind hashes vc <$> filter (λ kr, needs_write ms kind hashes kr = true) order).
Proof.
  unfold detectCreatesUpdates. apply foldl_append. intros d kr. unfold needs_write, write_change, kind_key.
  destruct (hashes !! _); [|done]. by destruct (str_eqb _ _).
Qed.

(** The hashes of the baseline, over all kinds. *)
Definition baseline_hashes (ms : Marshaller) (baseline : option ConfigSnapshot) : gmap string string :=
  match baseline with
  | None => ∅
  | Some b => foldl (λ m k, keyed (hashBytes ∘ marshal_data ms) k.1 m (k.2 b)) ∅ kinds
  end.

Lemma write_change_id ms kind h vc kr :
  change_id (write_change ms kind h vc kr) = kind_key kind (resourceKey kr.2).
Proof. done. Qed.

Lemma snapshot_change_id ct kind r data hash vc :
  change_id (snapshot_change ct kind r data hash vc) = kind_key kind (resourceKey r).
Proof. done. Qed.

Lemma kinds_fst kind sel : (kind, sel) ∈ kinds → kind ∈ kinds.*1.
Proof. intros H. by apply (list_elem_of_fmap_2 fst) in H. Qed.

Lemma kinds_functional kind sel sel' : (kind, sel) ∈ kinds → (kind, sel') ∈ kinds → sel = sel'.
Proof. unfold kinds. rewrite !elem_of_cons, !elem_of_nil. intros. naive_solver. Qed.

Lemma prefix_or_not (p k : string) : (∃ r, p +:+ r = k) ∨ ∀ r, p +:+ r ≠ k.
Proof.
  revert k. induction p as [|c p IH]; intros k; [left; by exists k|].
  destruct k as [|d k]; [by right|]. destruct (decide (c = d)) as [->|Hne].
  - destruct (IH k) as [[r <-]|Hno]; [left; by exists r|]. right. intros r E.
    rewrite str_app_cons in E. injection E as E. by apply (Hno r).
  - right. intros r E. rewrite str_app_cons in E. by injection E.
Qed.

(** Every key is a key of one of the kinds, or of none. *)
Lemma kind_of_key k :
  (∃ kind sel rk, (kind, sel) ∈ kinds ∧ kind_key kind rk = k) ∨
  ∀ kind rk, kind ∈ kinds.*1 → kind_key kind rk ≠ k.
Proof.
  induction kinds as [|[kind sel] ks IH]; [right; by intros ? ? ?%not_elem_of_nil|].
  destruct (prefix_or_not (kind +:+ "/") k) as [[rk <-]|Hno].
  { left. exists kind, sel, rk. split; [by left|]. unfold kind_key. by rewrite str_app_assoc. }
  destruct IH as [(kind' & sel' & rk & Hin & E)|Hno'].
  { left. exists kind', sel', rk. split; [by right|done]. }
  right. intros kind' rk [->|Hin]%elem_of_cons; [|by apply Hno'].
  intros E. apply (Hno rk). unfold kind_key in E. by rewrite str_app_assoc.
Qed.

(** Equal hashes of a resource in the two snapshots mean equal contents. *)
Definition no_collision (ms : Marshaller) (cur b : ConfigSnapshot) : Prop :=
  ∀ kind sel rk r r', (kind, sel) ∈ kinds →
    buildResourceMap (sel cur) !! rk = Some r → buildResourceMap (sel b) !! rk = Some r' →
    hashBytes (marshal_data ms r') = hashBytes (marshal_data ms r) → marshal_data ms r' = marshal_data ms r.

Section diff.
Context (ms : Marshaller) (range : gmap string NamespacedResource → list (string * NamespacedResource)).
Context (Hrange : ∀ m, range_order m (range m)).
Context (cur : ConfigSnapshot) (base : option ConfigSnapshot).

Definition deletions_of (k : string * (ConfigSnapshot → list NamespacedResource)) : list ResourceChange :=
  match base with
  | None => []
  | Some b => (λ r, snapshot_change DELETED k.1 r "" "" ∅) <$>
      filter (λ r, negb (bool_decide (resourceKey r ∈ keysFromMap (buildResourceMap (k.2 cur)))) = true) (k.2 b)
  end.

Definition writes_of (k : string * (ConfigSnapshot → list NamespacedResource)) : list ResourceChange :=
  write_change ms k.1 (baseline_hashes ms base) (from_option fm_VectorClock ∅ (sn_FederationMetadata cur)) <$>
    filter (λ kr, needs_write ms k.1 (baseline_hashes ms base) kr = true) (range (buildResourceMap (k.2 cur))).

Lemma Extract_alt : ExtractResourceChanges ms range cur base = (kinds ≫= deletions_of) ++ (kinds ≫= writes_of).
Proof.
  unfold ExtractResourceChanges, deletions_of, writes_of, baseline_hashes, kinds.
  rewrite !detectCreatesUpdates_app. destruct base as [b|]; simpl.
  - rewrite !detectDeletions_app, !app_nil_r, <- !app_assoc. done.
  - by rewrite !app_nil_r, <- !app_assoc.
Qed.

Lemma elem_of_Extract c :
  c ∈ ExtractResourceChanges ms range cur base ↔
  ∃ kind sel, (kind, sel) ∈ kinds ∧
    ((∃ b r, base = Some b ∧ r ∈ sel b ∧ buildResourceMap (sel cur) !! resourceKey r = None ∧
        c = snapshot_change DELETED kind r "" "" ∅) ∨
     (∃ rk r, buildResourceMap (sel cur) !! rk = Some r ∧
        needs_write ms kind (baseline_hashes ms base) (rk, r) = true ∧
        c = write_change ms kind (baseline_hashes ms base)
              (from_option fm_VectorClock ∅ (sn_FederationMetadata cur)) (rk, r))).
Proof.
  rewrite Extract_alt, elem_of_app, !list_elem_of_bind.
  assert (∀ kind sel, c ∈ deletions_of (kind, sel) ↔
    ∃ b r, base = Some b ∧ r ∈ sel b ∧ buildResourceMap (sel cur) !! resourceKey r = None ∧
      c = snapshot_change DELETED kind r "" "" ∅) as Hdel.
  { intros kind sel. unfold deletions_of. destruct base as [b|]; [|set_solver].
    rewrite list_elem_of_fmap. split.
    - intros (r & -> & [Hn Hr]%list_elem_of_filter). exists b, r. split_and!; try done.
      bool_prop. unfold keysFromMap in Hn. by apply not_elem_of_dom in Hn.
    - intros (b' & r & [= <-] & Hr & Hn & ->). exists r. split; [done|]. apply list_elem_of_filter.
      split; [|done]. apply negb_true_iff, bool_decide_eq_false_2. unfold keysFromMap. by apply not_elem_of_dom. }
  assert (∀ kind sel, c ∈ writes_of (kind, sel) ↔ ∃ rk r, buildResourceMap (sel cur) !! rk = Some r ∧
      needs_write ms kind (baseline_hashes ms base) (rk, r) = true ∧
      c = write_change ms kind (baseline_hashes ms base)
            (from_option fm_VectorClock ∅ (sn_FederationMetadata cur)) (rk, r)) as Hwr.
  { intros kind sel. unfold writes_of. rewrite list_elem_of_fmap. split.
    - intros ([rk r] & -> & [Hn Hin]%list_elem_of_filter). rewrite (Hrange _) in Hin.
      apply elem_of_map_to_list in Hin. eauto.
    - intros (rk & r & Hin & Hn & ->). exists (rk, r). split; [done|]. apply list_elem_of_filter. split; [done|].
      rewrite (Hrange _). by apply elem_of_map_to_list. }
  split.
  - intros [([kind sel] & Hc & Hk)|([kind sel] & Hc & Hk)]; exists kind, sel; (split; [done|]);
      [left; by apply Hdel|right; by apply Hwr].
  - intros (kind & sel & Hk & [H|H]); [left|right]; exists (kind, sel); (split; [|done]);
      [by apply Hdel|by apply Hwr].
Qed.

(** What the changes of a key do: all delete it, or all write the current
    resource. *)
Lemma Extract_key kind sel rk c :
  (kind, sel) ∈ kinds → c ∈ ExtractResourceChanges ms range cur base → change_id c = kind_key kind rk →
  (∃ b r, base = Some b ∧ r ∈ sel b ∧ resourceKey r = rk ∧ buildResourceMap (sel cur) !! rk = None ∧
     change_op c = None) ∨
  (∃ r, buildResourceMap (sel cur) !! rk = Some r ∧
     needs_write ms kind (baseline_hashes ms base) (rk, r) = true ∧ change_op c = Some (marshal_data ms r)).
Proof.
  intros Hin (kind' & sel' & Hin' & H)%elem_of_Extract Hid.
  destruct H as [(b & r & Hb & Hr & Hn & ->)|(rk' & r & Hr & Hn & ->)];
    rewrite ?snapshot_change_id, ?write_change_id in Hid; simpl in Hid;
    apply kind_key_inj in Hid as [-> Hrk]; eauto using kinds_fst;
    rewrite (kinds_functional kind sel sel' Hin Hin') in *.
  - left. exists b, r. subst rk. done.
  - right. apply lookup_buildResourceMap in Hr as Hr'. destruct Hr' as [Hr' _].
    exists r. subst rk rk'. split; [done|]. split; [done|]. unfold change_op, write_change; simpl.
    by destruct (baseline_hashes ms base !! _).
Qed.

Lemma replay_current_key kind sel rk r :
  (∀ b, base = Some b → no_collision ms cur b) →
  (kind, sel) ∈ kinds → buildResourceMap (sel cur) !! rk = Some r →
  replay (ExtractResourceChanges ms range cur base) (snapshot_data ms base) !! kind_key kind rk =
    Some (marshal_data ms r).
Proof.
  intros Hcol Hin Hr. apply lookup_buildResourceMap in Hr as Hr'. destruct Hr' as [Hrk _].
  destruct (needs_write ms kind (baseline_hashes ms base) (rk, r)) eqn:Hn.
  - eapply replay_touched.
    + apply elem_of_Extract. exists kind, sel. split; [done|]. right. by exists rk, r.
    + by rewrite write_change_id, <- Hrk.
    + intros d Hd Hid. destruct (Extract_key _ _ _ _ Hin Hd Hid)
        as [(? & ? & _ & _ & _ & ? & _)|(r' & Hr' & _ & ->)]; congruence.
  - rewrite replay_untouched.
    + unfold needs_write in Hn. simpl in Hn. rewrite Hrk in Hn. unfold baseline_hashes, snapshot_data in *.
      destruct base as [b|]; [|done].
      rewrite (lookup_all_kinds (hashBytes ∘ marshal_data ms) b kind sel rk Hin) in Hn.
      rewrite (lookup_all_kinds (marshal_data ms) b kind sel rk Hin).
      destruct (buildResourceMap (sel b) !! rk) as [r'|] eqn:Hr'; [|done]. simpl in *. bool_prop.
      f_equal. eapply Hcol; eauto. by apply str_eqb_true.
    + intros c Hc Hid. destruct (Extract_key _ _ _ _ Hin Hc Hid)
        as [(? & ? & _ & _ & _ & ? & _)|(r' & Hr' & Hn' & _)]; congruence.
Qed.

Lemma replay_absent_key kind sel rk :
  (kind, sel) ∈ kinds → buildResourceMap (sel cur) !! rk = None →
  replay (ExtractResourceChanges ms range cur base) (snapshot_data ms base) !! kind_key kind rk = None.
Proof.
  intros Hin Hr.
  assert (∀ c, c ∈ ExtractResourceChanges ms range cur base → change_id c = kind_key kind rk →
    ∃ b r, base = Some b ∧ r ∈ sel b ∧ resourceKey r = rk ∧ change_op c = None) as Hop.
  { intros c Hc Hid. destruct (Extract_key _ _ _ _ Hin Hc Hid)
      as [(b & r & ? & ? & ? & _ & ?)|(r' & Hr' & _)]; [by exists b, r|congruence]. }
  assert ((∃ b r, base = Some b ∧ buildResourceMap (sel b) !! rk = Some r) ∨
    (∀ b, base = Some b → buildResourceMap (sel b) !! rk = None)) as [(b & r & Hb & Hr')|Hnone].
  { destruct base as [b|]; [|by right]. destruct (buildResourceMap (sel b) !! rk) as [r|] eqn:E; [left; eauto|].
    right. by intros b' [= <-]. }
  - apply lookup_buildResourceMap in Hr' as [Hrk Hrb]. eapply replay_touched.
    + apply elem_of_Extract. exists kind, sel. split; [done|]. left. exists b, r. by rewrite Hrk.
    + by rewrite snapshot_change_id, Hrk.
    + intros d Hd Hid. by destruct (Hop d Hd Hid) as (_ & _ & _ & _ & _ & ->).
  - rewrite replay_untouched.
    + unfold snapshot_data. destruct base as [b|]; [|done].
      by rewrite (lookup_all_kinds _ b kind sel rk Hin), (Hnone b).
    + intros c Hc Hid. destruct (Hop c Hc Hid) as (b & r & Hb & Hrb & <- & _).
      apply buildResourceMap_is_Some in Hrb as [? Hx]. specialize (Hnone b Hb). congruence.
Qed.

Lemma replay_foreign_key k :
  (∀ kind rk, kind ∈ kinds.*1 → kind_key kind rk ≠ k) →
  replay (ExtractResourceChanges ms range cur base) (snapshot_data ms base) !! k = None.
Proof.
  intros Hno. rewrite replay_untouched.
  - unfold snapshot_data. destruct base; [by apply all_kinds_other|done].
  - intros c (kind & sel & Hin & [(b & r & _ & _ & _ & ->)|(rk & r & _ & _ & ->)])%elem_of_Extract;
      apply Hno; eauto using kinds_fst.
Qed.
End diff.

(** C21: the changes extracted from two snapshots are a patch. Applied to the
    contents of the baseline, in the order in which they are emitted, they give
    exactly the contents of the current snapshot, for all four kinds of
    resources; it is enough that the short hash does not collide on a resource
    that both snapshots have. Without a baseline the changes build the snapshot
    from nothing. *)
Theorem extracted_changes_patch (ms : Marshaller)
    (range : gmap string NamespacedResource → list (string * NamespacedResource))
    (cur : ConfigSnapshot) (base : option ConfigSnapshot)
    (Hrange : ∀ m, range_order m (range m))
    (Hcol : ∀ b, base = Some b → no_collision ms cur b) :
  replay (ExtractResourceChanges ms range cur base) (snapshot_data ms base) = snapshot_data ms (Some cur).
Proof.
  apply map_eq. intros k. destruct (kind_of_key k) as [(kind & sel & rk & Hin & <-)|Hno].
  - unfold snapshot_data at 2. rewrite (lookup_all_kinds _ cur kind sel rk Hin).
    destruct (buildResourceMap (sel cur) !! rk) as [r|] eqn:Hr; simpl.
    + by eapply replay_current_key.
    + by eapply replay_absent_key.
  - unfold snapshot_data at 2. rewrite all_kinds_other by done. by apply replay_foreign_key.
Qed.

(** The absence of collisions, as a test. *)
Definition no_collision_test (ms : Marshaller) (cur b : ConfigSnapshot) : bool :=
  forallb (λ k, forallb (λ kr,
    match buildResourceMap (k.2 b) !! kr.1 with
    | Some r' => str_eqb (marshal_data ms r') (marshal_data ms kr.2) ||
                 negb (str_eqb (hashBytes (marshal_data ms r')) (hashBytes (marshal_data ms kr.2)))
    | None => true
    end) (map_to_list (buildResourceMap (k.2 cur)))) kinds.

Lemma no_collision_test_true ms cur b : no_collision_test ms cur b = true → no_collision ms cur b.
Proof.
  unfold no_collision_test. intros H%Is_true_eq_left. rewrite forallb_True, Forall_forall in H.
  intros kind sel rk r r' Hin Hr Hr' Hh. specialize (H _ Hin). simpl in H.
  rewrite forallb_True, Forall_forall in H. apply elem_of_map_to_list in Hr. specialize (H _ Hr).
  simpl in H. rewrite Hr' in H. apply Is_true_eq_true, orb_prop in H as [H|H]; [by apply str_eqb_true|].
  bool_prop. by apply str_eqb_true in Hh; congruence.
Qed.

Lemma extracted_changes_patch_witness :
  let cur := mkConfigSnapshot "2" [mkResource "default" "gw" "g2"] [mkResource "default" "new" "r"] [] [] "" None [] in
  let base := mkConfigSnapshot "1" [mkResource "default" "gw" "g1"] [mkResource "default" "old" "r"] [] [] "" None [] in
  replay (ExtractResourceChanges no_marshal map_to_list cur (Some base)) (snapshot_data no_marshal (Some base)) =
    snapshot_data no_marshal (Some cur).
Proof.
  intros cur base. apply (extracted_changes_patch no_marshal map_to_list cur (Some base)).
  - intros m. unfold range_order. reflexivity.
  - intros b [= <-]. apply no_collision_test_true. vm_compute. reflexivity.
Defined.
