(* ===== verification/AgentPersistence.v ===== *)
(** * The configuration cache of the agent

    [src/internal/agent/config/persistence.go]: the agent keeps its last
    configuration, its metadata, the vector clock and the queue of local changes
    in four files, so that it can start without its controller. A write can
    fail, before it touches the file or after it has cut the file and written a
    part; a crash of the process is a failed write followed by a restart, since
    only the files survive. The JSON encodings are an interface; a file that
    exists can be read. *)

From S2P Require Import Prelude Sha256 FedTypes SnapshotFed.
Open Scope Z_scope.

Definition ConfigCacheFile : string := "config-snapshot.json".
Definition MetadataFile : string := "metadata.json".
Definition VectorClockFile : string := "vectorclock.json".
Definition ChangeQueueFile : string := "change-queue.json".
Definition MaxChangeQueueSize : nat := 1000.

Record PersistenceMetadata := mkPersistenceMetadata {
  md_Version : string;
  md_ControllerName : string;
  md_FederationID : string;
  md_PersistTime : Z;
  md_ContentHash : string;
  md_SequenceNumber : Z;
  md_ResourceCounts : gmap string Z;
}.

Definition zero_metadata : PersistenceMetadata := mkPersistenceMetadata "" "" "" time_zero "" 0 ∅.

Record LocalChange := mkLocalChange {
  lc_ID : string;
  lc_Timestamp : Z;
  lc_Type : string;
  lc_ResourceType : string;
  lc_Namespace : string;
  lc_Name : string;
  lc_Data : list Z;
}.

(** ** Files *)

Notation bytes := (list Z).
Notation disk := (gmap string (list Z)).

Inductive write_outcome := Written | WriteFails (left : option nat).

(** [os.WriteFile]: the new files and whether it succeeded. *)
Definition WriteFile (o : write_outcome) (file : string) (data : bytes) (d : disk) : disk * bool :=
  match o with
  | Written => (<[file := data]> d, true)
  | WriteFails None => (d, false)
  | WriteFails (Some n) => (<[file := take n data]> d, false)
  end.

(** [os.Remove], where a file that does not exist is no error. *)
Definition Remove (fails : bool) (file : string) (d : disk) : disk * bool :=
  if fails then (d, false) else (delete file d, true).

(** The encodings: [protojson] for snapshots, [encoding/json] for the rest.
    A decoder leaves its target unchanged when the text is not well formed. *)
Class CacheCodecs := {
  marshalSnapshot : ConfigSnapshot → option bytes;
  unmarshalSnapshot : bytes → option ConfigSnapshot;
  marshalMetadata : PersistenceMetadata → option bytes;
  unmarshalMetadata : bytes → option PersistenceMetadata;
  marshalClock : gmap string Z → option bytes;
  unmarshalClock : bytes → option (gmap string Z);
  marshalQueue : list LocalChange → option bytes;
  unmarshalQueue : bytes → option (list LocalChange);
}.

(** The cached data; a nil map of the vector clock is the empty map. *)
Record Persistence := mkPersistence {
  cp_metadata : option PersistenceMetadata;
  cp_vectorClock : gmap string Z;
  cp_changeQueue : list LocalChange;
}.

Inductive cache_error :=
  | MkdirFailed | MarshalFailed | WriteFailed (file : string) | SnapshotNotRead | HashMismatch | UnmarshalFailed | RemoveFailed.

Definition content_hash (data : bytes) : string := EncodeToString (sha256 data).

Section cache.
Context `{CacheCodecs}.

(** ** Reading at the start *)

Definition loadMetadata (d : disk) : option PersistenceMetadata :=
  data ← d !! MetadataFile; Some (default zero_metadata (unmarshalMetadata data)).

Definition loadVectorClock (d : disk) : gmap string Z :=
  default ∅ (data ← d !! VectorClockFile; unmarshalClock data).

Definition loadChangeQueue (d : disk) : list LocalChange :=
  default [] (data ← d !! ChangeQueueFile; unmarshalQueue data).

Definition NewPersistence (mkdir_ok : bool) (d : disk) : cache_error + Persistence :=
  if mkdir_ok then inr (mkPersistence (loadMetadata d) (loadVectorClock d) (loadChangeQueue d)) else inl MkdirFailed.

(** ** Snapshots *)

(** Encode and write one file. *)
Definition save_file {A} (marshal : A → option bytes) (o : write_outcome) (file : string) (x : A) (d : disk)
    : disk * option cache_error :=
  match marshal x with
  | None => (d, Some MarshalFailed)
  | Some data => let '(d, ok) := WriteFile o file data d in (d, if ok then None else Some (WriteFailed file))
  end.

Definition saveMetadata (o : write_outcome) (m : PersistenceMetadata) (d : disk) : disk * option cache_error :=
  save_file marshalMetadata o MetadataFile m d.
Definition saveVectorClock (o : write_outcome) (c : gmap string Z) (d : disk) : disk * option cache_error :=
  save_file marshalClock o VectorClockFile c d.
Definition saveChangeQueue (o : write_outcome) (q : list LocalChange) (d : disk) : disk * option cache_error :=
  save_file marshalQueue o ChangeQueueFile q d.

Definition count {A} (l : list A) : Z := Z.of_nat (length l).

Definition metadata_of (now : Z) (s : ConfigSnapshot) (hash : string) : PersistenceMetadata :=
  let counts : gmap string Z :=
    {[ "gateways"%string := count (sn_Gateways s); "routes"%string := count (sn_Routes s);
       "clusters"%string := count (sn_Clusters s); "policies"%string := count (sn_Policies s) ]} in
  match sn_FederationMetadata s with
  | None => mkPersistenceMetadata (sn_Version s) "" "" now hash 0 counts
  | Some f => mkPersistenceMetadata (sn_Version s) (fm_OriginController f) (fm_FederationId f) now hash (fm_SequenceNumber f) counts
  end.

Definition SaveSnapshot (now : Z) (o1 o2 o3 : write_outcome) (s : ConfigSnapshot) (d : disk) (cp : Persistence)
    : disk * Persistence * option cache_error :=
  match marshalSnapshot s with
  | None => (d, cp, Some MarshalFailed)
  | Some data =>
      let '(d, ok) := WriteFile o1 ConfigCacheFile data d in
      if negb ok then (d, cp, Some (WriteFailed ConfigCacheFile)) else
      let m := metadata_of now s (content_hash data) in
      let clock := match sn_FederationMetadata s with Some f => fm_VectorClock f | None => cp_vectorClock cp end in
      let cp := mkPersistence (Some m) clock (cp_changeQueue cp) in
      let '(d, e) := saveMetadata o2 m d in
      match e with
      | Some e => (d, cp, Some e)
      | None => let '(d, e) := saveVectorClock o3 clock d in (d, cp, e)
      end
  end.

Definition LoadSnapshot (d : disk) (cp : Persistence) : cache_error + ConfigSnapshot :=
  match d !! ConfigCacheFile with
  | None => inl SnapshotNotRead
  | Some data =>
      if match cp_metadata cp with Some m => negb (str_eqb (content_hash data) (md_ContentHash m)) | None => false end
      then inl HashMismatch
      else match unmarshalSnapshot data with Some s => inr s | None => inl UnmarshalFailed end
  end.

Definition GetMetadata (cp : Persistence) : option PersistenceMetadata := cp_metadata cp.
Definition GetVectorClock (cp : Persistence) : gmap string Z := copy_map (cp_vectorClock cp).
Definition HasCachedConfig (d : disk) : bool := match d !! ConfigCacheFile with Some _ => true | None => false end.
Definition ConfigAge (now : Z) (cp : Persistence) : Z :=
  match cp_metadata cp with Some m => time_Sub now (md_PersistTime m) | None => 0 end.

(** ** The queue of local changes *)

Definition set_queue (q : list LocalChange) (cp : Persistence) : Persistence :=
  mkPersistence (cp_metadata cp) (cp_vectorClock cp) q.

Definition QueueLocalChange (o : write_outcome) (change : LocalChange) (d : disk) (cp : Persistence)
    : disk * Persistence * option cache_error :=
  let q := cp_changeQueue cp in
  let q := if decide (MaxChangeQueueSize ≤ length q)%nat then tail q else q in
  let q := q ++ [change] in
  let '(d, e) := saveChangeQueue o q d in (d, set_queue q cp, e).

Definition GetPendingChanges (cp : Persistence) : list LocalChange := cp_changeQueue cp.

Definition ClearPendingChanges (o : write_outcome) (ids : list string) (d : disk) (cp : Persistence)
    : disk * Persistence * option cache_error :=
  let q := filter (λ c, lc_ID c ∉ ids) (cp_changeQueue cp) in
  let '(d, e) := saveChangeQueue o q d in (d, set_queue q cp, e).

(** [Cleanup]: the files are removed in turn, up to the first error. *)
Fixpoint remove_files (l : list (string * bool)) (d : disk) : disk * bool :=
  match l with
  | [] => (d, true)
  | (file, fails) :: l => let '(d, ok) := Remove fails file d in if ok then remove_files l d else (d, false)
  end.

Definition Cleanup (fails : string → bool) (d : disk) (cp : Persistence) : disk * Persistence * option cache_error :=
  let '(d, ok) := remove_files ((λ f, (f, fails f)) <$> [ConfigCacheFile; MetadataFile; VectorClockFile; ChangeQueueFile]) d in
  if ok then (d, mkPersistence None ∅ [], None) else (d, cp, Some RemoveFailed).

(** ** Runs *)

Inductive cache_op :=
  | OpSave (now : Z) (o1 o2 o3 : write_outcome) (s : ConfigSnapshot)
  | OpQueue (o : write_outcome) (c : LocalChange)
  | OpClear (o : write_outcome) (ids : list string)
  | OpCleanup (fails : string → bool)
  | OpRestart.

Definition apply_op (st : disk * Persistence) (op : cache_op) : disk * Persistence :=
  let '(d, cp) := st in
  match op with
  | OpSave now o1 o2 o3 s => (SaveSnapshot now o1 o2 o3 s d cp).1
  | OpQueue o c => (QueueLocalChange o c d cp).1
  | OpClear o ids => (ClearPendingChanges o ids d cp).1
  | OpCleanup fails => (Cleanup fails d cp).1
  | OpRestart => (d, mkPersistence (loadMetadata d) (loadVectorClock d) (loadChangeQueue d))
  end.

(** An agent starts with no files. *)
Definition started : disk * Persistence := (∅, mkPersistence None ∅ []).
Definition run (ops : list cache_op) : disk * Persistence := foldl apply_op started ops.

(** ** What the cache returns *)

(** Documented behaviour of the encodings: decoding inverts encoding, and a
    proper prefix of an encoded document is not a document. *)
Record codec {A} (marshal : A → option bytes) (unmarshal : bytes → option A) : Prop := {
  codec_inverts x b : marshal x = Some b → unmarshal b = Some x;
  codec_rejects_prefix x b n : marshal x = Some b → (n < length b)%nat → unmarshal (take n b) = None;
}.

Context (snapshots : codec marshalSnapshot unmarshalSnapshot).
Context (metadatas : codec marshalMetadata unmarshalMetadata).
Context (clocks : codec marshalClock unmarshalClock).
Context (queues : codec marshalQueue unmarshalQueue).

(** A file of which a write has left a part decodes to nothing or to what was
    written. *)
Lemma decode_part {A} (marshal : A → option bytes) unmarshal x b n y :
  codec marshal unmarshal → marshal x = Some b → unmarshal (take n b) = Some y → y = x ∧ take n b = b.
Proof.
  intros Hc Hb Hy. destruct (decide (n < length b)%nat) as [Hn|Hn].
  - by rewrite (codec_rejects_prefix _ _ Hc x b n Hb Hn) in Hy.
  - rewrite take_ge in Hy |- * by lia. rewrite (codec_inverts _ _ Hc x b Hb) in Hy. by injection Hy as <-.
Qed.

(** What a write leaves in a file: what was there, or a prefix of the data. *)
Lemma WriteFile_lookup o file data d d' ok f b :
  WriteFile o file data d = (d', ok) → d' !! f = Some b → d !! f = Some b ∨ f = file ∧ ∃ n, b = take n data.
Proof.
  intros E Hb. destruct o as [|[n|]]; simpl in E; injection E as <- <-; try (by left).
  - destruct (decide (f = file)) as [->|Hf]; [|left; by rewrite lookup_insert_ne in Hb].
    rewrite lookup_insert_eq in Hb. injection Hb as <-. right. split; [done|]. exists (length data). by rewrite take_ge.
  - destruct (decide (f = file)) as [->|Hf]; [|left; by rewrite lookup_insert_ne in Hb].
    rewrite lookup_insert_eq in Hb. injection Hb as <-. right. split; [done|]. by exists n.
Qed.

Lemma save_file_lookup {A} (marshal : A → option bytes) o file x d d' e f b :
  save_file marshal o file x d = (d', e) → d' !! f = Some b →
  d !! f = Some b ∨ f = file ∧ ∃ data n, marshal x = Some data ∧ b = take n data.
Proof.
  unfold save_file. intros E Hb. destruct (marshal x) as [data|]; [|injection E as <- _; by left].
  destruct (WriteFile o file data d) as [d1 ok] eqn:Ew. injection E as <- _.
  destruct (WriteFile_lookup _ _ _ _ _ _ _ _ Ew Hb) as [?|[-> [n ->]]]; [by left|right; eauto].
Qed.

Lemma remove_files_lookup l d d' ok f b : remove_files l d = (d', ok) → d' !! f = Some b → d !! f = Some b.
Proof.
  revert d. induction l as [|[g fl] l IH]; intros d E Hb; simpl in E; [by injection E as <- _|].
  destruct fl; simpl in E; [by injection E as <- _|]. apply IH in E; [|done]. apply lookup_delete_Some in E as [_ E]. done.
Qed.

Definition saves (op : cache_op) : option ConfigSnapshot :=
  match op with OpSave _ _ _ _ s => Some s | _ => None end.
Definition saved (ops : list cache_op) (s : ConfigSnapshot) : Prop := s ∈ omap saves ops.

(** What the files and the metadata in memory can be, in terms of the saved
    snapshots. *)
Record cache_inv (S : ConfigSnapshot → Prop) (st : disk * Persistence) : Prop := {
  inv_snapshot b : st.1 !! ConfigCacheFile = Some b → ∃ s data n, S s ∧ marshalSnapshot s = Some data ∧ b = take n data;
  inv_metadata b : st.1 !! MetadataFile = Some b →
    ∃ now s data text n, S s ∧ marshalSnapshot s = Some data ∧
      marshalMetadata (metadata_of now s (content_hash data)) = Some text ∧ b = take n text;
  inv_memory m : cp_metadata st.2 = Some m →
    m = zero_metadata ∨ ∃ now s data, S s ∧ marshalSnapshot s = Some data ∧ m = metadata_of now s (content_hash data);
}.

Lemma cache_inv_mono (S S' : ConfigSnapshot → Prop) st : (∀ s, S s → S' s) → cache_inv S st → cache_inv S' st.
Proof.
  intros HS [I1 I2 I3]. split.
  - intros b Hb. destruct (I1 b Hb) as (s & data & n & Hs & ?). exists s, data, n. auto.
  - intros b Hb. destruct (I2 b Hb) as (now & s & data & text & n & Hs & ?). exists now, s, data, text, n. auto.
  - intros m Hm. destruct (I3 m Hm) as [?|(now & s & data & Hs & ?)]; [by left|]. right. exists now, s, data. auto.
Qed.

Lemma other_files_inv S st d cp :
  cache_inv S st → (∀ f b, f = ConfigCacheFile ∨ f = MetadataFile → d !! f = Some b → st.1 !! f = Some b) →
  (∀ m, cp_metadata cp = Some m → cp_metadata st.2 = Some m) → cache_inv S (d, cp).
Proof. intros [I1 I2 I3] Hd Hm. split; simpl; intros; eauto. Qed.

Lemma save_inv (S : ConfigSnapshot → Prop) now o1 o2 o3 s d cp :
  S s → cache_inv S (d, cp) → cache_inv S (SaveSnapshot now o1 o2 o3 s d cp).1.
Proof.
  intros Hs Hinv. destruct Hinv as [I1 I2 I3]; simpl in *. unfold SaveSnapshot.
  destruct (marshalSnapshot s) as [data|] eqn:Em; [|by split].
  destruct (WriteFile o1 ConfigCacheFile data d) as [d1 ok] eqn:E1.
  assert (∀ b, d1 !! ConfigCacheFile = Some b → ∃ s data n, S s ∧ marshalSnapshot s = Some data ∧ b = take n data) as J1.
  { intros b Hb. destruct (WriteFile_lookup _ _ _ _ _ _ _ _ E1 Hb) as [?|[_ [n ->]]]; eauto 7. }
  assert (∀ b, d1 !! MetadataFile = Some b → d !! MetadataFile = Some b) as J2.
  { intros b Hb. destruct (WriteFile_lookup _ _ _ _ _ _ _ _ E1 Hb) as [?|[? _]]; done. }
  destruct ok; simpl; [|split; simpl; eauto].
  set (m := metadata_of now s (content_hash data)).
  set (clock := match sn_FederationMetadata s with Some f => fm_VectorClock f | None => cp_vectorClock cp end).
  destruct (saveMetadata o2 m d1) as [d2 e2] eqn:E2.
  assert (cache_inv S (d2, mkPersistence (Some m) clock (cp_changeQueue cp))) as Hinv2.
  { split; simpl.
    - intros b Hb. destruct (save_file_lookup _ _ _ _ _ _ _ _ _ E2 Hb) as [?|[? _]]; [by apply J1|done].
    - intros b Hb. destruct (save_file_lookup _ _ _ _ _ _ _ _ _ E2 Hb) as [Hb'|[_ (text & n & ? & ->)]]; [by apply I2, J2|].
      exists now, s, data, text, n. done.
    - intros m' [= <-]. right. exists now, s, data. done. }
  destruct e2; [done|]. destruct (saveVectorClock o3 clock d2) as [d3 e3] eqn:E3. simpl.
  apply (other_files_inv _ _ _ _ Hinv2); [|done]. intros f b Hf Hb. simpl.
  destruct (save_file_lookup _ _ _ _ _ _ _ _ _ E3 Hb) as [?|[-> _]]; [done|]. by destruct Hf.
Qed.

Lemma queue_file_inv S o q cp cp' d d' e :
  cache_inv S (d, cp) → saveChangeQueue o q d = (d', e) → cp_metadata cp' = cp_metadata cp → cache_inv S (d', cp').
Proof.
  intros Hinv E Hm. apply (other_files_inv _ _ _ _ Hinv); [|simpl; by rewrite Hm].
  intros f b Hf Hb. simpl. destruct (save_file_lookup _ _ _ _ _ _ _ _ _ E Hb) as [?|[-> _]]; [done|]. by destruct Hf.
Qed.

Lemma apply_op_inv S st op : (∀ s, saves op = Some s → S s) → cache_inv S st → cache_inv S (apply_op st op).
Proof.
  intros Hs Hinv. destruct st as [d cp]. destruct op as [now o1 o2 o3 s|o c|o ids|fails|]; simpl.
  - apply save_inv; [|done]. by apply Hs.
  - unfold QueueLocalChange. destruct (saveChangeQueue _ _ _) as [d' e] eqn:E. simpl. by eapply queue_file_inv.
  - unfold ClearPendingChanges. destruct (saveChangeQueue _ _ _) as [d' e] eqn:E. simpl. by eapply queue_file_inv.
  - unfold Cleanup. destruct (remove_files _ d) as [d' ok] eqn:E.
    assert (∀ f b, d' !! f = Some b → d !! f = Some b) as Hd by (intros; by eapply remove_files_lookup).
    destruct ok; simpl; apply (other_files_inv _ _ _ _ Hinv); simpl; eauto; done.
  - destruct Hinv as [I1 I2 I3]; split; simpl in *; [done..|].
    intros m Hm. unfold loadMetadata in Hm. destruct (d !! MetadataFile) as [b|] eqn:Eb; [|done]. simpl in Hm. injection Hm as <-.
    destruct (unmarshalMetadata b) as [m|] eqn:Eu; [|by left]. simpl. right.
    destruct (I2 b eq_refl) as (now & s & data & text & n & ? & ? & Ht & ->).
    destruct (decode_part _ _ _ _ _ _ metadatas Ht Eu) as [-> _]. exists now, s, data. done.
Qed.

Lemma cache_run_inv ops : cache_inv (saved ops) (run ops).
Proof.
  unfold run. induction ops as [|op ops IH] using rev_ind; [by split|].
  rewrite foldl_app. simpl. apply apply_op_inv.
  - intros s Hs. unfold saved. rewrite omap_app, elem_of_app. right. simpl. rewrite Hs. apply list_elem_of_singleton. done.
  - apply (cache_inv_mono (saved ops)); [|done]. intros s. unfold saved. rewrite omap_app, elem_of_app. by left.
Qed.

Lemma content_hash_not_empty data : content_hash data ≠ ""%string.
Proof. unfold content_hash. pose proof (length_sha256 data) as Hl. by destruct (sha256 data). Qed.

(** No two different texts among the (possibly cut) encodings of the saved
    snapshots have the same SHA-256 digest. *)
Definition collision_free (ops : list cache_op) : Prop :=
  ∀ s1 s2 d1 d2 n, saved ops s1 → saved ops s2 → marshalSnapshot s1 = Some d1 → marshalSnapshot s2 = Some d2 →
    content_hash (take n d1) = content_hash d2 → take n d1 = d2.

(** C38: whatever writes fail, wherever the agent crashes and restarts, a
    snapshot that the cache returns was saved, complete and unchanged, and the
    metadata beside it describes it. *)
Theorem loaded_snapshot_was_saved ops s :
  collision_free ops → LoadSnapshot (run ops).1 (run ops).2 = inr s →
  saved ops s ∧
  ∀ m, GetMetadata (run ops).2 = Some m → ∃ now data, marshalSnapshot s = Some data ∧ m = metadata_of now s (content_hash data).
Proof.
  intros Hfree. destruct (cache_run_inv ops) as [I1 _ I3]. unfold LoadSnapshot, GetMetadata.
  destruct ((run ops).1 !! ConfigCacheFile) as [b|] eqn:Eb; [|done].
  destruct (I1 b eq_refl) as (s1 & data1 & n & Hs1 & Hm1 & ->).
  destruct (cp_metadata (run ops).2) as [m|] eqn:Em.
  - destruct (str_eqb (content_hash (take n data1)) (md_ContentHash m)) eqn:Eh; simpl; [|done]. apply str_eqb_true in Eh.
    destruct (unmarshalSnapshot (take n data1)) as [s'|] eqn:Eu; [|done]. intros [= ->].
    destruct (decode_part _ _ _ _ _ _ snapshots Hm1 Eu) as [-> Hwhole]. split; [done|]. intros m' [= <-].
    destruct (I3 m eq_refl) as [->|(now & s2 & data2 & Hs2 & Hm2 & ->)]; [by apply content_hash_not_empty in Eh|].
    assert (md_ContentHash (metadata_of now s2 (content_hash data2)) = content_hash data2) as Hmd.
    { unfold metadata_of. by destruct (sn_FederationMetadata s2). }
    rewrite Hmd in Eh. pose proof (Hfree s1 s2 data1 data2 n Hs1 Hs2 Hm1 Hm2 Eh) as Heq. rewrite Hwhole in Heq. subst data2.
    assert (s1 = s2) as -> by (apply (codec_inverts _ _ snapshots) in Hm1, Hm2; congruence). eauto.
  - destruct (unmarshalSnapshot (take n data1)) as [s'|] eqn:Eu; [|done]. intros [= ->].
    destruct (decode_part _ _ _ _ _ _ snapshots Hm1 Eu) as [-> _]. done.
Qed.

(** The whole of a successful save. *)
Lemma save_file_ok {A} (marshal : A → option bytes) o file x d d' :
  save_file marshal o file x d = (d', None) → ∃ data, marshal x = Some data ∧ d' = <[file := data]> d.
Proof.
  unfold save_file. destruct (marshal x) as [data|]; [|done]. destruct o as [|[n|]]; simpl; intros [= <-]. eauto.
Qed.

Lemma SaveSnapshot_ok now o1 o2 o3 s d cp d' cp' :
  SaveSnapshot now o1 o2 o3 s d cp = (d', cp', None) →
  ∃ data mtext ctext, let clock := match sn_FederationMetadata s with Some f => fm_VectorClock f | None => cp_vectorClock cp end in
    let m := metadata_of now s (content_hash data) in
    marshalSnapshot s = Some data ∧ marshalMetadata m = Some mtext ∧ marshalClock clock = Some ctext ∧
    d' = <[VectorClockFile := ctext]> (<[MetadataFile := mtext]> (<[ConfigCacheFile := data]> d)) ∧
    cp' = mkPersistence (Some m) clock (cp_changeQueue cp).
Proof.
  unfold SaveSnapshot. destruct (marshalSnapshot s) as [data|] eqn:Em; [|done].
  destruct o1 as [|[n|]]; simpl; [|done..].
  destruct (saveMetadata _ _ _) as [d2 [e|]] eqn:E2; [done|]. apply save_file_ok in E2 as (mtext & ? & ->).
  destruct (saveVectorClock _ _ _) as [d3 e3] eqn:E3. intros [= <- <- ->]. apply save_file_ok in E3 as (ctext & ? & ->).
  exists data, mtext, ctext. done.
Qed.

(** A saved snapshot is returned again, by the running agent and by one
    that starts from the files, with its metadata and the vector clock of the
    federation. *)
Theorem saved_snapshot_survives_restart now o1 o2 o3 s d cp d' cp' :
  SaveSnapshot now o1 o2 o3 s d cp = (d', cp', None) →
  LoadSnapshot d' cp' = inr s ∧ HasCachedConfig d' = true ∧
  ∃ cp2 data, NewPersistence true d' = inr cp2 ∧ LoadSnapshot d' cp2 = inr s ∧ marshalSnapshot s = Some data ∧
    GetMetadata cp2 = Some (metadata_of now s (content_hash data)) ∧
    GetVectorClock cp2 = match sn_FederationMetadata s with Some f => fm_VectorClock f | None => GetVectorClock cp end.
Proof.
  intros (data & mtext & ctext & Hs & Hm & Hc & -> & ->)%SaveSnapshot_ok.
  set (m := metadata_of now s (content_hash data)) in *.
  assert (md_ContentHash m = content_hash data) as Hh by (unfold m, metadata_of; by destruct (sn_FederationMetadata s)).
  set (d' := <[VectorClockFile := ctext]> (<[MetadataFile := mtext]> (<[ConfigCacheFile := data]> d))).
  assert (d' !! ConfigCacheFile = Some data) as D1.
  { unfold d'. rewrite !lookup_insert_ne by done. by rewrite lookup_insert_eq. }
  assert (loadMetadata d' = Some m) as Lm.
  { unfold loadMetadata, d'. rewrite lookup_insert_ne, lookup_insert_eq by done. simpl.
    by rewrite (codec_inverts _ _ metadatas _ _ Hm). }
  assert (∀ c, cp_metadata c = Some m → LoadSnapshot d' c = inr s) as Hload.
  { intros c Ec. unfold LoadSnapshot. rewrite D1, Ec, Hh. assert (str_eqb (content_hash data) (content_hash data) = true) as -> by by apply str_eqb_true.
    simpl. by rewrite (codec_inverts _ _ snapshots _ _ Hs). }
  split; [by apply Hload|]. split; [unfold HasCachedConfig; by rewrite D1|].
  eexists _, data. split; [done|]. split; [by apply Hload|]. split; [done|]. split; [done|].
  unfold GetVectorClock. rewrite !copy_map_id. simpl. unfold loadVectorClock, d'. rewrite lookup_insert_eq. simpl.
  rewrite (codec_inverts _ _ clocks _ _ Hc). simpl. by destruct (sn_FederationMetadata s).
Qed.

(** ** The queue *)

Record queue_inv (st : disk * Persistence) : Prop := {
  queue_memory : (length (cp_changeQueue st.2) ≤ MaxChangeQueueSize)%nat;
  queue_file b : st.1 !! ChangeQueueFile = Some b →
    ∃ q text n, (length q ≤ MaxChangeQueueSize)%nat ∧ marshalQueue q = Some text ∧ b = take n text;
}.

Lemma save_queue_inv o q d d' e cp :
  queue_inv (d, cp) → (length q ≤ MaxChangeQueueSize)%nat → saveChangeQueue o q d = (d', e) → queue_inv (d', set_queue q cp).
Proof.
  intros [_ Hf] Hq E. split; simpl; [done|]. intros b Hb.
  destruct (save_file_lookup _ _ _ _ _ _ _ _ _ E Hb) as [?|[_ (text & n & ? & ->)]]; [by apply Hf|]. exists q, text, n. done.
Qed.

Definition queued (q : list LocalChange) (c : LocalChange) : list LocalChange :=
  drop (length (q ++ [c]) - MaxChangeQueueSize) (q ++ [c]).

Lemma queue_step_queued q c :
  (length q ≤ MaxChangeQueueSize)%nat →
  (if decide (MaxChangeQueueSize ≤ length q)%nat then tail q else q) ++ [c] = queued q c.
Proof.
  intros Hq. unfold queued. rewrite length_app. simpl length. case_decide as Hd.
  - replace (length q + 1 - MaxChangeQueueSize)%nat with 1%nat by lia.
    destruct q as [|x q]; [|done]. unfold MaxChangeQueueSize in Hd. simpl in Hd. lia.
  - by replace (length q + 1 - MaxChangeQueueSize)%nat with 0%nat by lia.
Qed.

Lemma length_queued q c : (length (queued q c) ≤ MaxChangeQueueSize)%nat.
Proof. unfold queued. rewrite length_drop. lia. Qed.

Lemma apply_op_queue st op : queue_inv st → queue_inv (apply_op st op).
Proof.
  intros Hinv. destruct st as [d cp]. destruct op as [now o1 o2 o3 s|o c|o ids|fails|]; simpl.
  - destruct Hinv as [Hm Hf]. unfold SaveSnapshot. destruct (marshalSnapshot s) as [data|]; [|by split].
    assert (∀ d' cp', (∀ b, d' !! ChangeQueueFile = Some b → d !! ChangeQueueFile = Some b) →
      cp_changeQueue cp' = cp_changeQueue cp → queue_inv (d', cp')) as Hother.
    { intros d' cp' Hd Hc. split; simpl in *; [by rewrite Hc|auto]. }
    destruct (WriteFile _ _ _ _) as [d1 ok] eqn:E1.
    assert (∀ b, d1 !! ChangeQueueFile = Some b → d !! ChangeQueueFile = Some b) as H1.
    { intros b Hb. by destruct (WriteFile_lookup _ _ _ _ _ _ _ _ E1 Hb) as [?|[? _]]. }
    destruct ok; simpl; [|by apply Hother].
    destruct (saveMetadata _ _ _) as [d2 e2] eqn:E2.
    assert (∀ b, d2 !! ChangeQueueFile = Some b → d !! ChangeQueueFile = Some b) as H2.
    { intros b Hb. destruct (save_file_lookup _ _ _ _ _ _ _ _ _ E2 Hb) as [?|[? _]]; [auto|done]. }
    destruct e2; [by apply Hother|]. destruct (saveVectorClock _ _ _) as [d3 e3] eqn:E3. apply Hother; [|done].
    intros b Hb. destruct (save_file_lookup _ _ _ _ _ _ _ _ _ E3 Hb) as [?|[? _]]; [auto|done].
  - unfold QueueLocalChange. rewrite queue_step_queued by apply Hinv.
    destruct (saveChangeQueue _ _ _) as [d' e] eqn:E. simpl. eapply save_queue_inv; [done| |done]. apply length_queued.
  - unfold ClearPendingChanges. destruct (saveChangeQueue _ _ _) as [d' e] eqn:E. simpl.
    eapply save_queue_inv; [done| |done]. etrans; [apply length_filter|apply Hinv].
  - unfold Cleanup. destruct (remove_files _ d) as [d' ok] eqn:E. destruct Hinv as [Hm Hf].
    assert (∀ b, d' !! ChangeQueueFile = Some b → d !! ChangeQueueFile = Some b) as Hd by (intros; by eapply remove_files_lookup).
    destruct ok; simpl; (split; simpl; [|eauto]); [unfold MaxChangeQueueSize; lia|done].
  - destruct Hinv as [Hm Hf]. split; simpl in *; [|done]. unfold loadChangeQueue.
    destruct (d !! ChangeQueueFile) as [b|] eqn:Eb; [|unfold MaxChangeQueueSize; simpl; lia]. simpl.
    destruct (unmarshalQueue b) as [q|] eqn:Eq; [|unfold MaxChangeQueueSize; simpl; lia].
    destruct (Hf b eq_refl) as (q' & text & n & Hq & Ht & ->). by destruct (decode_part _ _ _ _ _ _ queues Ht Eq) as [-> _].
Qed.

Lemma run_queue ops : queue_inv (run ops).
Proof.
  unfold run. induction ops as [|op ops IH] using rev_ind.
  - split; simpl; [unfold MaxChangeQueueSize; lia|done].
  - rewrite foldl_app. by apply apply_op_queue.
Qed.

(** A queue that was saved is found by the next agent. *)
Lemma saved_queue_is_loaded o q d d' :
  saveChangeQueue o q d = (d', None) → ∃ cp2, NewPersistence true d' = inr cp2 ∧ GetPendingChanges cp2 = q.
Proof.
  intros (text & Ht & ->)%save_file_ok. eexists. split; [done|]. unfold GetPendingChanges. simpl. unfold loadChangeQueue.
  rewrite lookup_insert_eq. simpl. by rewrite (codec_inverts _ _ queues _ _ Ht).
Qed.

(** C39: the queue of local changes, in every state that operations, failing writes and
    restarts lead to. A change is queued behind those before it, of which the
    oldest is dropped when 1000 are waiting; clearing changes by their identifiers
    keeps exactly the others, in order. When the call reports success, an agent
    that starts afterwards finds the same queue; of a call that reports an error
    nothing is said. *)
Theorem queue_keeps_recent_changes ops o c ids :
  (∀ d cp e, QueueLocalChange o c (run ops).1 (run ops).2 = (d, cp, e) →
    GetPendingChanges cp = queued (GetPendingChanges (run ops).2) c ∧
    (length (GetPendingChanges cp) ≤ MaxChangeQueueSize)%nat ∧
    (e = None → ∃ cp2, NewPersistence true d = inr cp2 ∧ GetPendingChanges cp2 = GetPendingChanges cp)) ∧
  (∀ d cp e, ClearPendingChanges o ids (run ops).1 (run ops).2 = (d, cp, e) →
    GetPendingChanges cp = filter (λ x, lc_ID x ∉ ids) (GetPendingChanges (run ops).2) ∧
    (e = None → ∃ cp2, NewPersistence true d = inr cp2 ∧ GetPendingChanges cp2 = GetPendingChanges cp)).
Proof.
  split; intros d cp e.
  - unfold QueueLocalChange. rewrite queue_step_queued by apply run_queue.
    destruct (saveChangeQueue _ _ _) as [d' e'] eqn:E. intros [= <- <- <-].
    split; [done|]. split; [apply length_queued|]. intros ->. by eapply saved_queue_is_loaded.
  - unfold ClearPendingChanges. destruct (saveChangeQueue _ _ _) as [d' e'] eqn:E. intros [= <- <- <-].
    split; [done|]. intros ->. by eapply saved_queue_is_loaded.
Qed.

(** An agent that stops after it has written the snapshot and before it has
    written the metadata finds a file that does not match its metadata: neither
    the old nor the new snapshot is returned. *)
Lemma crash_between_files_loses_cache now1 now2 s1 s2 data2 d cp d1 cp1 d2 cp2 o3 e :
  SaveSnapshot now1 Written Written Written s1 d cp = (d1, cp1, None) →
  SaveSnapshot now2 Written (WriteFails None) o3 s2 d1 cp1 = (d2, cp2, e) → marshalSnapshot s2 = Some data2 →
  (∀ data1, marshalSnapshot s1 = Some data1 → content_hash data1 ≠ content_hash data2) →
  LoadSnapshot d2 (apply_op (d2, cp2) OpRestart).2 = inl HashMismatch.
Proof.
  intros (data1 & mtext & ctext & Hs & Hm & Hc & -> & ->)%SaveSnapshot_ok E2 Hs2 Hne. unfold SaveSnapshot in E2. rewrite Hs2 in E2. simpl in E2.
  unfold saveMetadata, save_file in E2.
  assert (d2 = <[ConfigCacheFile := data2]> (<[VectorClockFile := ctext]> (<[MetadataFile := mtext]> (<[ConfigCacheFile := data1]> d)))) as ->.
  { destruct (marshalMetadata _) in E2; simpl in E2; congruence. }
  unfold LoadSnapshot. rewrite lookup_insert_eq. simpl. unfold loadMetadata. do 2 rewrite lookup_insert_ne by done. rewrite lookup_insert_eq. simpl.
  rewrite (codec_inverts _ _ metadatas _ _ Hm). simpl.
  assert (md_ContentHash (metadata_of now1 s1 (content_hash data1)) = content_hash data1) as ->.
  { unfold metadata_of. by destruct (sn_FederationMetadata s1). }
  destruct (str_eqb _ _) eqn:E; [|done]. apply str_eqb_true in E. by destruct (Hne data1 Hs).
Qed.

End cache.

(** ** Examples *)

(** An encoding that knows one document. *)
Definition one_marshal {A} `{EqDecision A} (x0 x : A) : option bytes := if decide (x = x0) then Some [1] else None.
Definition one_unmarshal {A} (x0 : A) (b : bytes) : option A := if decide (b = [1]) then Some x0 else None.

Lemma one_codec {A} `{EqDecision A} (x0 : A) : codec (one_marshal x0) (one_unmarshal x0).
Proof.
  split; unfold one_marshal, one_unmarshal; intros x b.
  - case_decide as E; [|done]. intros [= <-]. by rewrite E.
  - intros n. case_decide; [|done]. intros [= <-] Hn. simpl in Hn. by destruct n; [|lia].
Qed.

#[local] Instance ControllerEndpoint_eq_dec : EqDecision ControllerEndpoint. Proof. solve_decision. Defined.
#[local] Instance NamespacedResource_eq_dec : EqDecision NamespacedResource. Proof. solve_decision. Defined.
#[local] Instance FederationMetadata_eq_dec : EqDecision FederationMetadata. Proof. solve_decision. Defined.
#[local] Instance ConfigSnapshot_eq_dec : EqDecision ConfigSnapshot. Proof. solve_decision. Defined.
#[local] Instance PersistenceMetadata_eq_dec : EqDecision PersistenceMetadata. Proof. solve_decision. Defined.
#[local] Instance LocalChange_eq_dec : EqDecision LocalChange. Proof. solve_decision. Defined.

Definition ex_snapshot : ConfigSnapshot := mkConfigSnapshot "v1" [] [] [] [] "" None [].
Definition ex_change : LocalChange := mkLocalChange "c1" 7 "update" "ProxyRoute" "shop" "web" [].

#[local] Instance ex_codecs : CacheCodecs := {|
  marshalSnapshot := one_marshal ex_snapshot; unmarshalSnapshot := one_unmarshal ex_snapshot;
  marshalMetadata := one_marshal (metadata_of 5 ex_snapshot (content_hash [1]));
  unmarshalMetadata := one_unmarshal (metadata_of 5 ex_snapshot (content_hash [1]));
  marshalClock := one_marshal ∅; unmarshalClock := one_unmarshal ∅;
  marshalQueue := one_marshal [ex_change]; unmarshalQueue := one_unmarshal [ex_change] |}.

Lemma ex_snapshots : codec marshalSnapshot unmarshalSnapshot.
Proof. exact (one_codec ex_snapshot). Qed.
Lemma ex_metadatas : codec marshalMetadata unmarshalMetadata.
Proof. exact (one_codec (metadata_of 5 ex_snapshot (content_hash [1]))). Qed.
Lemma ex_clocks : codec marshalClock unmarshalClock.
Proof. exact (one_codec ∅). Qed.
Lemma ex_queues : codec marshalQueue unmarshalQueue.
Proof. exact (one_codec [ex_change]). Qed.

(** The agent saves, then fails to save again and restarts. *)
Definition ex_ops : list cache_op :=
  [OpSave 5 Written Written Written ex_snapshot; OpSave 5 (WriteFails None) Written Written ex_snapshot; OpRestart].

Lemma loaded_snapshot_was_saved_witness :
  LoadSnapshot (run ex_ops).1 (run ex_ops).2 = inr ex_snapshot ∧ saved ex_ops ex_snapshot.
Proof.
  assert (LoadSnapshot (run ex_ops).1 (run ex_ops).2 = inr ex_snapshot) as Hl by (vm_compute; reflexivity).
  split; [exact Hl|].
  apply (loaded_snapshot_was_saved ex_snapshots ex_metadatas ex_ops ex_snapshot); [|exact Hl].
  intros s1 s2 d1 d2 n _ _. unfold marshalSnapshot; simpl. unfold one_marshal. do 2 (case_decide; [|done]).
  intros [= <-] [= <-]. destruct n as [|n]; simpl; [|by rewrite take_nil]. vm_compute. discriminate.
Defined.

Lemma saved_snapshot_survives_restart_witness :
  ∃ d cp, SaveSnapshot 5 Written Written Written ex_snapshot ∅ (mkPersistence None ∅ []) = (d, cp, None) ∧
    LoadSnapshot d cp = inr ex_snapshot.
Proof.
  set (r := SaveSnapshot 5 Written Written Written ex_snapshot ∅ (mkPersistence None ∅ [])). exists r.1.1, r.1.2.
  assert (r = (r.1.1, r.1.2, None)) as Hr by (vm_compute; reflexivity). split; [exact Hr|].
  apply (saved_snapshot_survives_restart ex_snapshots ex_metadatas ex_clocks 5 Written Written Written ex_snapshot ∅ (mkPersistence None ∅ [])).
  exact Hr.
Defined.

Lemma queue_keeps_recent_changes_witness :
  ∃ d cp, QueueLocalChange Written ex_change (run ex_ops).1 (run ex_ops).2 = (d, cp, None) ∧ GetPendingChanges cp = [ex_change].
Proof.
  set (r := QueueLocalChange Written ex_change (run ex_ops).1 (run ex_ops).2). exists r.1.1, r.1.2.
  assert (r = (r.1.1, r.1.2, None)) as Hr by (vm_compute; reflexivity). split; [exact Hr|].
  exact (proj1 (proj1 (queue_keeps_recent_changes ex_queues ex_ops Written ex_change []) r.1.1 r.1.2 None Hr)).
Defined.
