(* ===== verification/FedManager.v ===== *)
(** * The federation manager
    (src/internal/controller/federation/manager.go)

    The manager owns the server, the split-brain detector, the anti-entropy
    manager and one client per peer. The goroutines it starts are recorded in
    [mg_loops], the peers for which a connection loop runs; the calls they make
    on the network are arguments of the operations they perform. *)

From S2P Require Import Prelude VectorClock FedTypes Endpoints FedServer FedReplica FedInvariants PeerClient FedFullSync Sha256 Merkle AntiEntropy SplitBrain.
Open Scope Z_scope.
Open Scope go_scope.

(** ** The custom resource (src/api/v1alpha1/novaedgefederation_types.go) *)

Record FederationMember := mkFederationMember {
  fb_Name : string;
  fb_Endpoint : string;
  fb_Region : string;
  fb_Zone : string;
  fb_Labels : gmap string string;
}.

(** A reference to a Secret; the namespace may be empty. *)
Record SecretReference := mkSecretReference { sr_Name : string; sr_Namespace : string }.

Record FederationTLS := mkFederationTLS {
  ft_Enabled : option bool;
  ft_CASecretRef : option SecretReference;
  ft_ClientCertSecretRef : option SecretReference;
  ft_ServerName : string;
  ft_InsecureSkipVerify : bool;
}.

Record FederationPeer := mkFederationPeer {
  fp_Name : string;
  fp_Endpoint : string;
  fp_Region : string;
  fp_Zone : string;
  fp_Priority : Z;
  fp_Labels : gmap string string;
  fp_TLS : option FederationTLS;
}.

Record FederationSyncConfig := mkFederationSyncConfig {
  fs_Interval : option Z;
  fs_Timeout : option Z;
  fs_BatchSize : Z;
  fs_Compression : option bool;
  fs_ResourceTypes : list string;
  fs_ExcludeNamespaces : list string;
}.

Record ConflictResolutionConfig := mkConflictResolutionConfig {
  fc_Strategy : string;
  fc_VectorClocks : option bool;
  fc_TombstoneTTL : option Z;
}.

Record FederationHealthCheck := mkFederationHealthCheck {
  fh_Interval : option Z;
  fh_Timeout : option Z;
  fh_FailureThreshold : Z;
  fh_SuccessThreshold : Z;
}.

Record FederationSpec := mkFederationSpec {
  sp_Mode : string;
  sp_FederationID : string;
  sp_LocalMember : FederationMember;
  sp_Members : list FederationPeer;
  sp_Sync : option FederationSyncConfig;
  sp_ConflictResolution : option ConflictResolutionConfig;
  sp_HealthCheck : option FederationHealthCheck;
  sp_SplitBrain : option SplitBrainConfig;
  sp_Paused : bool;
}.

Record TLSCredentials := mkTLSCredentials {
  tc_CACert : string;
  tc_ClientCert : string;
  tc_ClientKey : string;
}.

Definition positive_or (d v : Z) : Z := if decide (0 < v) then v else d.

Definition crd_peer (p : FederationPeer) : PeerInfo :=
  {| pi_Name := fp_Name p; pi_Endpoint := fp_Endpoint p; pi_Region := fp_Region p; pi_Zone := fp_Zone p;
     pi_Priority := fp_Priority p; pi_Labels := fp_Labels p;
     pi_TLSEnabled := match fp_TLS p with Some t => default true (ft_Enabled t) | None => false end;
     pi_TLSServerName := from_option ft_ServerName "" (fp_TLS p);
     pi_InsecureSkipVerify := from_option ft_InsecureSkipVerify false (fp_TLS p);
     pi_CACert := ""; pi_ClientCert := ""; pi_ClientKey := "" |}.

Definition CRDToConfig (spec : FederationSpec) : Config :=
  let d := DefaultConfig in
  let m := sp_LocalMember spec in
  {| cf_Mode := if str_empty (sp_Mode spec) then cf_Mode d else sp_Mode spec;
     cf_FederationID := sp_FederationID spec;
     cf_LocalMember := Some (mkPeerInfo (fb_Name m) (fb_Endpoint m) (fb_Region m) (fb_Zone m) 0 (fb_Labels m)
                               false "" false "" "" "");
     cf_Peers := crd_peer <$> sp_Members spec;
     cf_SyncInterval := default (cf_SyncInterval d) (sp_Sync spec ≫= fs_Interval);
     cf_SyncTimeout := default (cf_SyncTimeout d) (sp_Sync spec ≫= fs_Timeout);
     cf_BatchSize := from_option (λ s, positive_or (cf_BatchSize d) (fs_BatchSize s)) (cf_BatchSize d) (sp_Sync spec);
     cf_CompressionEnabled := default (cf_CompressionEnabled d) (sp_Sync spec ≫= fs_Compression);
     cf_ResourceTypes := from_option fs_ResourceTypes (cf_ResourceTypes d) (sp_Sync spec);
     cf_ExcludeNamespaces := from_option fs_ExcludeNamespaces (cf_ExcludeNamespaces d) (sp_Sync spec);
     cf_ConflictResolutionStrategy :=
       from_option fc_Strategy (cf_ConflictResolutionStrategy d) (sp_ConflictResolution spec);
     cf_VectorClocksEnabled := default (cf_VectorClocksEnabled d) (sp_ConflictResolution spec ≫= fc_VectorClocks);
     cf_TombstoneTTL := default (cf_TombstoneTTL d) (sp_ConflictResolution spec ≫= fc_TombstoneTTL);
     cf_HealthCheckInterval := default (cf_HealthCheckInterval d) (sp_HealthCheck spec ≫= fh_Interval);
     cf_HealthCheckTimeout := default (cf_HealthCheckTimeout d) (sp_HealthCheck spec ≫= fh_Timeout);
     cf_FailureThreshold :=
       from_option (λ h, positive_or (cf_FailureThreshold d) (fh_FailureThreshold h)) (cf_FailureThreshold d)
         (sp_HealthCheck spec);
     cf_SuccessThreshold :=
       from_option (λ h, positive_or (cf_SuccessThreshold d) (fh_SuccessThreshold h)) (cf_SuccessThreshold d)
         (sp_HealthCheck spec);
     cf_SplitBrain := cf_SplitBrain d |}.

(** ** State *)

Record Manager := mkManager {
  mg_config : Config;
  mg_server : option Server;
  mg_splitBrain : option SplitBrainDetector;
  mg_antiEntropy : option AntiEntropyManager;
  mg_clients : gmap string PeerClient;
  mg_started : bool;
  mg_onResourceChange : option nat;
  mg_loops : list string;
}.

Definition Manager_eta (m : Manager) : Manager :=
  mkManager (mg_config m) (mg_server m) (mg_splitBrain m) (mg_antiEntropy m) (mg_clients m) (mg_started m)
    (mg_onResourceChange m) (mg_loops m).

Definition set_mg_config : Config → Manager → Manager := ltac:(field_setter Manager_eta mg_config).
Definition set_mg_server : option Server → Manager → Manager := ltac:(field_setter Manager_eta mg_server).
Definition set_mg_splitBrain : option SplitBrainDetector → Manager → Manager := ltac:(field_setter Manager_eta mg_splitBrain).
Definition set_mg_antiEntropy : option AntiEntropyManager → Manager → Manager := ltac:(field_setter Manager_eta mg_antiEntropy).
Definition set_mg_clients : gmap string PeerClient → Manager → Manager := ltac:(field_setter Manager_eta mg_clients).
Definition set_mg_started : bool → Manager → Manager := ltac:(field_setter Manager_eta mg_started).
Definition set_mg_onResourceChange : option nat → Manager → Manager := ltac:(field_setter Manager_eta mg_onResourceChange).
Definition set_mg_loops : list string → Manager → Manager := ltac:(field_setter Manager_eta mg_loops).

Inductive ManagerErr :=
  | ErrAlreadyStarted
  | ErrNotStarted
  | ErrServerNotStarted
  | ErrPeerNotFound (name : string)
  | ErrFullSync (e : ClientErr)
  | ErrFed (e : FedErr).

Definition NewManager (config : Config) : Manager :=
  mkManager config None None None ∅ false None [].

Definition apply_creds (tlsCreds : gmap string (option TLSCredentials)) (p : PeerInfo) : PeerInfo :=
  match tlsCreds !! pi_Name p with
  | Some (Some c) =>
      mkPeerInfo (pi_Name p) (pi_Endpoint p) (pi_Region p) (pi_Zone p) (pi_Priority p) (pi_Labels p)
        (pi_TLSEnabled p) (pi_TLSServerName p) (pi_InsecureSkipVerify p)
        (tc_CACert c) (tc_ClientCert c) (tc_ClientKey c)
  | _ => p
  end.

Definition Config_eta (c : Config) : Config :=
  mkConfig (cf_Mode c) (cf_FederationID c) (cf_LocalMember c) (cf_Peers c) (cf_SyncInterval c)
    (cf_SyncTimeout c) (cf_BatchSize c) (cf_CompressionEnabled c) (cf_ResourceTypes c)
    (cf_ExcludeNamespaces c) (cf_ConflictResolutionStrategy c) (cf_VectorClocksEnabled c)
    (cf_TombstoneTTL c) (cf_HealthCheckInterval c) (cf_HealthCheckTimeout c) (cf_FailureThreshold c)
    (cf_SuccessThreshold c) (cf_SplitBrain c).

Definition set_cf_Peers : list PeerInfo → Config → Config := ltac:(field_setter Config_eta cf_Peers).
Definition set_cf_SplitBrain : option SplitBrainConfig → Config → Config := ltac:(field_setter Config_eta cf_SplitBrain).

Definition NewManagerFromCRD (spec : FederationSpec) : Manager := NewManager (CRDToConfig spec).

Definition NewManagerFromCRDWithCreds (spec : FederationSpec) (tlsCreds : gmap string (option TLSCredentials)) : Manager :=
  let config := CRDToConfig spec in
  NewManager (set_cf_Peers (apply_creds tlsCreds <$> cf_Peers config) config).

(** ** Lifecycle *)

(** A client and its connection loop for one peer. *)
Definition add_client (config : Config) (name : string) (peer : PeerInfo) (m : Manager) : Manager :=
  set_mg_loops (mg_loops m ++ [name])
    (set_mg_clients (<[name := NewPeerClient peer config]> (mg_clients m)) m).

(** [Start]. The split-brain detector writes its quorum size into the shared
    configuration, which the server sees too. The goroutine [runHealthChecker]
    begins with [time.NewTicker], which panics, and ends the process, for an
    interval that is not positive. *)
Definition Start (m : Manager) : outcome (Manager * option ManagerErr) :=
  if mg_started m then Returns (m, Some ErrAlreadyStarted)
  else
    let m := set_mg_started true m in
    let! _ := deref (cf_LocalMember (mg_config m)) in
    let server := NewServer (Some (mg_config m)) in
    let server := match mg_onResourceChange m with Some fn => OnChange fn server | None => server end in
    let m := set_mg_server (Some server) m in
    let m :=
      match cf_SplitBrain (mg_config m) with
      | None => m
      | Some sb =>
          let d := NewSplitBrainDetector (Some sb) (Z.of_nat (length (cf_Peers (mg_config m)))) in
          let config := set_cf_SplitBrain (Some (sd_config d)) (mg_config m) in
          set_mg_splitBrain (Some d) (set_mg_config config (set_mg_server (Some (set_config config server)) m))
      end in
    let m :=
      if str_eqb (cf_Mode (mg_config m)) ModeHubSpoke then m
      else set_mg_antiEntropy (Some (NewAntiEntropyManager (Some DefaultAntiEntropyConfig))) m in
    let m := foldl (λ m peer, add_client (mg_config m) (pi_Name peer) peer m) m (cf_Peers (mg_config m)) in
    if decide (cf_HealthCheckInterval (mg_config m) ≤ 0) then Panics else Returns (m, None).

(** [Manager.Stop]; the loops end with the context. *)
Definition Manager_Stop (m : Manager) : outcome Manager :=
  if negb (mg_started m) then Returns m
  else
    let m := set_mg_started false m in
    let! server := match mg_server m with
                   | Some s => let! s := Stop s in Returns (Some s)
                   | None => Returns None
                   end in
    Returns (set_mg_loops [] (set_mg_clients ∅ (set_mg_server server m))).

(** ** Delegation to the server *)

Definition RecordChange (key : ResourceKey) (changeType : ChangeType) (data : string)
    (labels : option (gmap string string)) (uuid : string) (now now' : Z) (m : Manager) : outcome Manager :=
  match mg_server m with
  | None => Returns m
  | Some s =>
      let! s := RecordLocalChange key changeType data labels uuid now now' s in
      Returns (set_mg_server (Some s) m)
  end.

Definition OnResourceChange (fn : nat) (m : Manager) : Manager :=
  let m := set_mg_onResourceChange (Some fn) m in
  match mg_server m with
  | None => m
  | Some s => set_mg_server (Some (OnChange fn s)) m
  end.

Definition GetPhase (m : Manager) : Phase := from_option getPhase PhaseInitializing (mg_server m).
Definition Manager_GetStats (m : Manager) : SyncStats := from_option GetStats SyncStats_zero (mg_server m).
Definition Manager_GetPeerStates (m : Manager) : option (gmap string PeerState) := GetPeerStates <$> mg_server m.
Definition Manager_GetVectorClock (m : Manager) : option (gmap string Z) := (λ s, ToMap (sv_vectorClock s)) <$> mg_server m.

(** [GetConflicts], in the order the map of conflicts is visited. *)
Definition Manager_GetConflicts (order : list (string * ConflictInfo)) (m : Manager) : option (list ConflictInfo) :=
  (λ _, GetConflicts order) <$> mg_server m.

(** [RegisterServer]: the federation services the gRPC server offers afterwards. *)
Definition Manager_RegisterServer (m : Manager) (services : list Server) : list Server :=
  match mg_server m with Some s => services ++ [s] | None => services end.

Definition Manager_ResolveConflict (keyStr : string) (useLocal : bool) (m : Manager) : Manager * option ManagerErr :=
  match mg_server m with
  | None => (m, Some ErrServerNotStarted)
  | Some s =>
      let '(s, err) := ResolveConflict keyStr useLocal s in
      (set_mg_server (Some s) m, ErrFed <$> err)
  end.

Definition Manager_SetAgentCount (count : Z) (m : Manager) : Manager :=
  match mg_server m with
  | None => m
  | Some s => set_mg_server (Some (SetAgentCount count s)) m
  end.

Definition IsHealthy (m : Manager) : bool := bool_decide (GetPhase m = PhaseHealthy).
Definition IsDegraded (m : Manager) : bool :=
  bool_decide (GetPhase m = PhaseDegraded) || bool_decide (GetPhase m = PhasePartitioned).
Definition Manager_AreWritesFenced (m : Manager) : bool := from_option AreWritesFenced false (mg_splitBrain m).
Definition Manager_GetPartitionInfo (m : Manager) : option PartitionInfo := mg_splitBrain m ≫= GetPartitionInfo.
Definition GetLocalMemberName (m : Manager) : string := from_option pi_Name "" (cf_LocalMember (mg_config m)).
Definition IsActive (m : Manager) : bool := mg_started m && bool_decide (is_Some (mg_server m)).
Definition IsUnifiedMode (m : Manager) : bool := str_eqb (cf_Mode (mg_config m)) ModeUnified.

(** ** Messages *)

(** [handlePeerMessage]: what a client receives from its peer. *)
Definition handlePeerMessage (cd : Codecs) (peerName : string) (msg : SyncMessage) (now now' : Z) (m : Manager)
    : outcome Manager :=
  let with_server (f : Server → outcome Server) :=
    let! s := deref (mg_server m) in
    let! s := f s in
    Returns (set_mg_server (Some s) m) in
  match msg with
  | MsgChange c =>
      if str_eqb (cf_Mode (mg_config m)) ModeHubSpoke then Returns m
      else with_server (λ s, let! r := handleResourceChange cd peerName c now now' s in Returns (fst r))
  | MsgAck a => with_server (λ s, Returns (handleSyncAck peerName a now s))
  | MsgHeartbeat h => with_server (λ s, Returns (handleHeartbeat peerName h now s))
  | MsgConflict n => with_server (λ s, Returns (handleConflictNotification peerName n s))
  | MsgHandshake _ | MsgNone => Returns m
  end.

(** One health check of [checkPeerHealth]: the outcome of the ping of one
    client, and what the split-brain detector is told. *)
Definition checkClientHealth (name : string) (ping_ok : bool) (start end_ now t1 t2 t3 : Z) (m : Manager)
    : outcome Manager :=
  match mg_clients m !! name with
  | None => Returns m
  | Some c =>
      let! r := PeerPing ping_ok start end_ now c in
      let '(c, latency, err) := r in
      let m := set_mg_clients (<[name := c]> (mg_clients m)) m in
      match mg_splitBrain m, mg_server m with
      | Some d, Some s =>
          Returns (set_mg_splitBrain (Some (match err with
                                            | Some _ => RecordPeerFailure (pi_Name (pc_peer c)) t1 t2 t3 s d
                                            | None => RecordPeerContact (pi_Name (pc_peer c)) t1 t2 t3 s d
                                            end)) m)
      | _, _ => Returns m
      end
  end.

(** [Manager.RequestFullSync]; [stream] is the peer's answer. *)
Definition Manager_RequestFullSync (cd : Codecs) (stream : FullSyncRequest → option (list ResourceBatch * bool))
    (clock : nat → Z * Z) (peerName : string) (m : Manager) : outcome (Manager * option ManagerErr) :=
  match mg_clients m !! peerName with
  | None => Returns (m, Some (ErrPeerNotFound peerName))
  | Some client =>
      let! s := deref (mg_server m) in
      let! r := Client_RequestFullSync stream (cf_ResourceTypes (mg_config m)) [] (ToMap (sv_vectorClock s)) client in
      match r.2 with
      | Some e => Returns (m, Some (ErrFullSync e))
      | None =>
          let! s := apply_batches cd peerName clock r.1 s in
          Returns (set_mg_server (Some s) m, None)
      end
  end.

Definition GetRemoteEndpoints (order : list (string * gmap string ServiceEndpoints)) (namespace serviceName : string)
    (m : Manager) : list ServiceEndpoints :=
  match mg_server m with
  | None => []
  | Some s =>
      if str_eqb (cf_Mode (mg_config m)) ModeHubSpoke then []
      else GetForService order namespace serviceName
  end.

(** ** Configuration updates *)

Definition remove_client (name : string) (m : Manager) : Manager :=
  set_mg_clients (delete name (mg_clients m)) m.

(** The three range loops of [UpdateConfig]. Each iteration touches only the
    client of its own name, so the order does not matter. *)
Definition remove_old_peers (oldPeers newPeers : gmap string PeerInfo) (m : Manager) : Manager :=
  map_fold (λ name _ m,
    match newPeers !! name with
    | Some _ => m
    | None => remove_client name m
    end) m oldPeers.

Definition add_new_peers (oldPeers newPeers : gmap string PeerInfo) (newConfig : Config) (m : Manager) : Manager :=
  map_fold (λ name peerInfo m,
    match oldPeers !! name with
    | Some _ => m
    | None => add_client newConfig name peerInfo m
    end) m newPeers.

Definition update_changed_peers (oldPeers newPeers : gmap string PeerInfo) (newConfig : Config) (m : Manager) : Manager :=
  map_fold (λ name newPeer m,
    match oldPeers !! name with
    | None => m
    | Some oldPeer =>
        if peerInfoEqual (Some oldPeer) (Some newPeer) then m
        else add_client newConfig name newPeer (remove_client name m)
    end) m newPeers.

(** [UpdateConfig]; [same] says whether the two configurations are the same
    pointer. *)
Definition UpdateConfig (same : bool) (newConfig : Config) (m : Manager) : Manager * option ManagerErr :=
  if negb (mg_started m) then (m, Some ErrNotStarted)
  else
    let oldConfig := mg_config m in
    if Config_Equal same (Some oldConfig) (Some newConfig) then (m, None)
    else
      let oldPeers := peersByName (cf_Peers oldConfig) in
      let newPeers := peersByName (cf_Peers newConfig) in
      let m := remove_old_peers oldPeers newPeers m in
      let m := add_new_peers oldPeers newPeers newConfig m in
      let m := update_changed_peers oldPeers newPeers newConfig m in
      let m := match mg_server m with
               | None => m
               | Some s => set_mg_server (Some (set_config newConfig s)) m
               end in
      (set_mg_config newConfig m, None).

(** ** Theorems *)

(** A loop over a map whose body acts on the clients only. *)
Lemma map_fold_clients {V} (f : string → V → Manager → Manager)
    (g : string → V → gmap string PeerClient → gmap string PeerClient) (mp : gmap string V) (m : Manager) :
  (∀ k v m, mg_clients (f k v m) = g k v (mg_clients m) ∧ mg_server (f k v m) = mg_server m) →
  mg_clients (map_fold f m mp) = map_fold g (mg_clients m) mp ∧ mg_server (map_fold f m mp) = mg_server m.
Proof.
  intros Hf. rewrite !map_fold_foldr. induction (map_to_list mp) as [|[k v] l IH]; [done|].
  simpl. destruct (Hf k v (foldr (uncurry f) m l)) as [-> ->]. destruct IH as [IH1 IH2]. by rewrite IH1.
Qed.

Lemma remove_old_peers_clients old new m k :
  let m' := remove_old_peers old new m in
  mg_clients m' !! k =
    match old !! k with
    | Some _ => if new !! k is Some _ then mg_clients m !! k else None
    | None => mg_clients m !! k
    end ∧ mg_server m' = mg_server m.
Proof.
  intros m'.
  destruct (map_fold_clients (λ name (_ : PeerInfo) m, match new !! name with Some _ => m | None => remove_client name m end)
    (λ name _ c, if new !! name is Some _ then c else delete name c) old m) as [H1 H2].
  { intros name v t. by destruct (new !! name). }
  split; [|exact H2]. unfold m', remove_old_peers. rewrite H1.
  rewrite (lookup_map_fold_local _ (λ name _ o, if new !! name is Some _ then o else None)); [done|..].
  - intros i v a. destruct (new !! i); [done|]. by rewrite lookup_delete_eq.
  - intros i v a j Hij. destruct (new !! i); [done|]. by rewrite lookup_delete_ne.
Qed.

Lemma add_new_peers_clients old new cfg m k :
  let m' := add_new_peers old new cfg m in
  mg_clients m' !! k =
    match new !! k with
    | Some p => if old !! k is Some _ then mg_clients m !! k else Some (NewPeerClient p cfg)
    | None => mg_clients m !! k
    end ∧ mg_server m' = mg_server m.
Proof.
  intros m'.
  destruct (map_fold_clients (λ name p m, match old !! name with Some _ => m | None => add_client cfg name p m end)
    (λ name p c, if old !! name is Some _ then c else <[name := NewPeerClient p cfg]> c) new m) as [H1 H2].
  { intros name v t. by destruct (old !! name). }
  split; [|exact H2]. unfold m', add_new_peers. rewrite H1.
  rewrite (lookup_map_fold_local _ (λ name p o, if old !! name is Some _ then o else Some (NewPeerClient p cfg))); [done|..].
  - intros i v a. destruct (old !! i); [done|]. by rewrite lookup_insert_eq.
  - intros i v a j Hij. destruct (old !! i); [done|]. by rewrite lookup_insert_ne.
Qed.

Lemma update_changed_peers_clients old new cfg m k :
  let m' := update_changed_peers old new cfg m in
  mg_clients m' !! k =
    match new !! k, old !! k with
    | Some p, Some q => if peerInfoEqual (Some q) (Some p) then mg_clients m !! k else Some (NewPeerClient p cfg)
    | _, _ => mg_clients m !! k
    end ∧ mg_server m' = mg_server m.
Proof.
  intros m'.
  destruct (map_fold_clients (λ name p m, match old !! name with None => m | Some q =>
      if peerInfoEqual (Some q) (Some p) then m else add_client cfg name p (remove_client name m) end)
    (λ name p c, match old !! name with None => c | Some q =>
      if peerInfoEqual (Some q) (Some p) then c else <[name := NewPeerClient p cfg]> (delete name c) end) new m) as [H1 H2].
  { intros name v t. destruct (old !! name); [|done]. by destruct (peerInfoEqual _ _). }
  split; [|exact H2]. unfold m', update_changed_peers. rewrite H1.
  rewrite (lookup_map_fold_local _ (λ name p o, match old !! name with None => o | Some q =>
    if peerInfoEqual (Some q) (Some p) then o else Some (NewPeerClient p cfg) end)).
  - by destruct (new !! k), (old !! k).
  - intros i v a. destruct (old !! i); [|done]. destruct (peerInfoEqual _ _); [done|]. by rewrite lookup_insert_eq.
  - intros i v a j Hij. destruct (old !! i); [|done]. destruct (peerInfoEqual _ _); [done|].
    by rewrite lookup_insert_ne, lookup_delete_ne.
Qed.

(** A configuration update leaves exactly one client per configured peer.
    When a running manager has a client for each of its peers, then after the
    update it has a client for each peer of the new configuration and no other;
    a peer whose description did not change keeps its client, with its
    connection; a new or changed peer has a fresh one built from the new
    description; manager and server use the new configuration. An update with
    an equal configuration changes nothing, and one of a manager that is not
    running is refused. *)
Theorem update_config_tracks_peers (newConfig : Config) (m : Manager)
    (Hclients : ∀ name, is_Some (mg_clients m !! name) ↔ is_Some (peersByName (cf_Peers (mg_config m)) !! name)) :
  let old := peersByName (cf_Peers (mg_config m)) in
  let new := peersByName (cf_Peers newConfig) in
  let '(m', err) := UpdateConfig false newConfig m in
  (mg_started m = false → m' = m ∧ err = Some ErrNotStarted) ∧
  (mg_started m = true → err = None ∧
    (Config_Equal false (Some (mg_config m)) (Some newConfig) = true → m' = m) ∧
    (Config_Equal false (Some (mg_config m)) (Some newConfig) = false →
       (∀ name, mg_clients m' !! name =
          match new !! name with
          | None => None
          | Some p => if decide (old !! name = Some p) then mg_clients m !! name
                      else Some (NewPeerClient p newConfig)
          end) ∧
       mg_config m' = newConfig ∧
       (∀ s, mg_server m = Some s → mg_server m' = Some (set_config newConfig s)))).
Proof.
  intros old new. unfold UpdateConfig. destruct (mg_started m); cbn [negb]; [|done].
  destruct (Config_Equal false (Some (mg_config m)) (Some newConfig)); [done|]. cbv zeta. fold old new.
  pose proof (λ k, remove_old_peers_clients old new m k) as H1. set (m1 := remove_old_peers old new m) in *.
  pose proof (λ k, add_new_peers_clients old new newConfig m1 k) as H2. set (m2 := add_new_peers _ _ _ m1) in *.
  pose proof (λ k, update_changed_peers_clients old new newConfig m2 k) as H3. set (m3 := update_changed_peers _ _ _ m2) in *.
  assert (mg_server m3 = mg_server m) as Hs.
  { destruct (H1 ""%string) as [_ E1], (H2 ""%string) as [_ E2], (H3 ""%string) as [_ E3]. congruence. }
  rewrite Hs. split; [done|]. intros _. split; [done|]. split; [done|]. intros _.
  assert (∀ name, mg_clients m3 !! name = match new !! name with
    | None => None
    | Some p => if decide (old !! name = Some p) then mg_clients m !! name else Some (NewPeerClient p newConfig)
    end) as Hc.
  { intros name. destruct (H1 name) as [E1 _], (H2 name) as [E2 _], (H3 name) as [E3 _]. rewrite E3, E2, E1.
    specialize (Hclients name). fold old in Hclients.
    destruct (new !! name) as [p|], (old !! name) as [q|] eqn:Eo.
    - destruct (peerInfoEqual (Some q) (Some p)) eqn:Epq.
      + apply peerInfoEqual_true in Epq. injection Epq as ->. by rewrite decide_True.
      + rewrite decide_False; [done|]. intros [= ->].
        assert (peerInfoEqual (Some p) (Some p) = true) by (by apply peerInfoEqual_true). congruence.
    - by rewrite decide_False.
    - done.
    - destruct (mg_clients m !! name) eqn:Em; [|done]. destruct Hclients as [Hx _]. by destruct Hx; eauto. }
  destruct (mg_server m) as [s|]; simpl; split_and!; try done. by intros s' [= <-].
Qed.

Definition with_peers (names : list string) : Config :=
  set_cf_Peers (sample_member <$> names) (sample_config "m" StrategyLastWriterWins).

Definition started (o : outcome (Manager * option ManagerErr)) : Manager :=
  match o with Returns (m, _) => m | Panics => NewManager DefaultConfig end.

Lemma update_config_tracks_peers_witness :
  let m := started (Start (NewManager (with_peers ["a"; "b"]))) in
  let m' := (UpdateConfig false (with_peers ["b"; "c"]) m).1 in
  mg_clients m' !! "a"%string = None ∧
  mg_clients m' !! "b"%string = mg_clients m !! "b"%string ∧
  mg_clients m' !! "c"%string = Some (NewPeerClient (sample_member "c") (with_peers ["b"; "c"])).
Proof.
  intros m m'.
  assert (mg_clients m = <["b" := NewPeerClient (sample_member "b") (with_peers ["a"; "b"])]>
    (<["a" := NewPeerClient (sample_member "a") (with_peers ["a"; "b"])]> ∅))%string as Hm by reflexivity.
  assert (peersByName (cf_Peers (mg_config m)) = <["b" := sample_member "b"]> (<["a" := sample_member "a"]> ∅))%string
    as Hp by reflexivity.
  pose proof (update_config_tracks_peers (with_peers ["b"; "c"]) m) as H.
  fold m' in H. destruct (UpdateConfig false (with_peers ["b"; "c"]) m) as [m1 err] eqn:E.
  destruct H as [_ H].
  - intros name. rewrite Hm, Hp, !lookup_insert, !lookup_empty. by repeat case_decide; split; intros [? ?]; eauto.
  - destruct H as (_ & _ & H); [reflexivity|]. destruct H as [H _]; [vm_compute; reflexivity|].
    simpl. rewrite !H, Hp. vm_compute. done.
Defined.

(** The split-brain settings of the custom resource are not converted: a manager
    built from the resource never starts a detector, so its writes are never
    fenced, whatever the resource asks for. *)
Lemma crd_split_brain_is_ignored spec creds m err :
  Start (NewManagerFromCRDWithCreds spec creds) = Returns (m, err) →
  mg_splitBrain m = None ∧ Manager_AreWritesFenced m = false.
Proof.
  unfold Start. cbn [mg_started NewManagerFromCRDWithCreds NewManager]. intros H.
  assert (mg_splitBrain m = None) as Hm; [|by unfold Manager_AreWritesFenced; rewrite Hm].
  assert (∀ ps t, mg_splitBrain (foldl (λ m peer, add_client (mg_config m) (pi_Name peer) peer m) t ps) = mg_splitBrain t) as Hfold.
  { induction ps as [|p ps IH]; intros t; [done|]. simpl. by rewrite IH. }
  cbn in H. case_decide; [discriminate|]. injection H as <- <-. rewrite Hfold. by destruct (str_eqb _ ModeHubSpoke).
Qed.

(** In hub-spoke mode the manager ignores the changes its clients receive, but
    the server's own stream handler applies the changes a spoke sends: a write
    of a resource the hub does not track is stored. *)
Lemma hub_spoke_server_applies_changes cd peer c now now' now'' m s :
  mg_server m = Some s → cf_Mode (mg_config m) = ModeHubSpoke →
  is_write c → sv_resources s !! change_keyStr c = None →
  handlePeerMessage cd peer (MsgChange c) now now' m = Returns m ∧
  ∃ s', handleIncomingMessage cd peer (MsgChange c) now now' now'' s = Returns s' ∧
    sv_resources s' !! change_keyStr c = Some (change_version c).
Proof.
  intros Hs Hmode Hw Hnone. split.
  - unfold handlePeerMessage. rewrite Hmode. by unfold str_eqb; rewrite bool_decide_eq_true_2.
  - unfold handleIncomingMessage. rewrite handleResourceChange_unfold. simpl. rewrite Hnone. simpl.
    eexists. split; [reflexivity|]. rewrite applyChange_resources. simpl.
    by destruct Hw as [-> | ->]; rewrite lookup_insert_eq.
Qed.

(** Starting writes the computed quorum size into the configuration, so the
    configuration the manager was started with no longer equals its own: an
    update with it is applied instead of skipped. *)
Lemma start_changes_configuration sb n :
  0 ≤ n → sb_QuorumSize sb ≤ 0 → sb_QuorumMode sb ≠ QuorumModeAgentAssisted →
  splitBrainConfigEqual (Some (sd_config (NewSplitBrainDetector (Some sb) n))) (Some sb) = false.
Proof.
  intros Hn Hq Hm. destruct (splitBrainConfigEqual _ _) eqn:E; [|done].
  apply splitBrainConfigEqual_true in E. injection E as E. exfalso.
  apply (f_equal sb_QuorumSize) in E. revert E. unfold NewSplitBrainDetector. simpl.
  rewrite decide_True by done. rewrite decide_False by done. simpl.
  pose proof (Z.quot_pos n 2). lia.
Qed.
