(* ===== verification/FedWebhook.v ===== *)
(** * Admission of federations
    (src/internal/operator/webhook/federation_webhook.go)

    The defaulter and the validator of the custom resource from which the
    federation manager is configured. Messages are constructors with the values
    they print, in the order the code reports them. *)

From S2P Require Import Prelude FedTypes GoStrings GoNet FedManager.
Open Scope Z_scope.
Open Scope go_scope.

(** ** Names

    [federationIDRegex] and [memberNameRegex] are the same expression,
    [^[a-z0-9]([-a-z0-9]*[a-z0-9])?$]. *)

Definition lower_alnum (c : ascii) : bool :=
  let n := nat_of_ascii c in
  bool_decide (48 ≤ n ≤ 57)%nat || bool_decide (97 ≤ n ≤ 122)%nat.
Definition label_char (c : ascii) : bool := lower_alnum c || bool_decide (c = "-"%char).

(** [[-a-z0-9]*[a-z0-9]$]. *)
Fixpoint label_tail (s : string) : bool :=
  match s with
  | "" => false
  | String c "" => lower_alnum c
  | String c s => label_char c && label_tail s
  end%string.

Definition memberNameRegex (s : string) : bool :=
  match s with
  | "" => false
  | String c "" => lower_alnum c
  | String c s => lower_alnum c && label_tail s
  end%string.
Definition federationIDRegex : string → bool := memberNameRegex.

Definition len (s : string) : Z := Z.of_nat (String.length s).

(** ** Errors and warnings *)

Inductive MemberErr :=
  | ErrInvalidName (name : string)
  | ErrNameTooLong (name : string)
  | ErrInvalidEndpoint (endpoint : string)
  | ErrEmptyHost (endpoint : string)
  | ErrEmptyPort (endpoint : string).

Inductive AdmissionErr :=
  | InvalidFederationID (id : string)
  | FederationIDTooLong (id : string)
  | InvalidLocalMember (e : MemberErr)
  | InvalidPeer (i : nat) (name : string) (e : MemberErr)
  | DuplicateMemberName (name : string)
  | DuplicateEndpoint (endpoint : string)
  | PeerIsLocalMember (name : string)
  | InvalidPeerTLS (name : string)
  | InvalidResourceType (rt : string)
  | InvalidStrategy (strategy : string)
  | HealthCheckTimeoutTooLong.

Inductive Warning :=
  | LargeBatchSize (size : Z)
  | ManualResolution
  | HealthyPeers (names : list string)
  | PendingConflicts (n : Z).

(** ** The validator *)

Definition validateMember (name endpoint : string) : option MemberErr :=
  if negb (memberNameRegex name) then Some (ErrInvalidName name)
  else if decide (63 < len name) then Some (ErrNameTooLong name)
  else match SplitHostPort endpoint with
       | None => Some (ErrInvalidEndpoint endpoint)
       | Some (host, port) =>
           if str_empty host then Some (ErrEmptyHost endpoint)
           else if str_empty port then Some (ErrEmptyPort endpoint)
           else None
       end.

(** [validateTLS]: [true] for the error that a trust root is missing. The branch
    for an insecure peer does nothing. *)
Definition validateTLS (tls : FederationTLS) : bool :=
  match ft_Enabled tls with
  | Some true => bool_decide (ft_CASecretRef tls = None) && negb (ft_InsecureSkipVerify tls)
  | _ => false
  end.

Definition err_if {A} (b : bool) (e : A) : list A := if b then [e] else [].

(** The loop of [validateFederationPeers], from peer [i] on, with the names and
    endpoints seen so far. *)
Fixpoint validate_peers (localName : string) (memberNames endpoints : gset string) (i : nat)
    (peers : list FederationPeer) : list AdmissionErr :=
  match peers with
  | [] => []
  | peer :: peers =>
      let name := fp_Name peer in
      let endpoint := fp_Endpoint peer in
      from_option (λ e, [InvalidPeer i name e]) [] (validateMember name endpoint) ++
      err_if (bool_decide (name ∈ memberNames)) (DuplicateMemberName name) ++
      err_if (bool_decide (endpoint ∈ endpoints)) (DuplicateEndpoint endpoint) ++
      err_if (str_eqb name localName) (PeerIsLocalMember name) ++
      err_if (from_option validateTLS false (fp_TLS peer)) (InvalidPeerTLS name) ++
      validate_peers localName ({[ name ]} ∪ memberNames) ({[ endpoint ]} ∪ endpoints) (S i) peers
  end.

Definition validateFederationPeers (spec : FederationSpec) : list AdmissionErr :=
  let local := sp_LocalMember spec in
  validate_peers (fb_Name local) {[ fb_Name local ]} {[ fb_Endpoint local ]} 0 (sp_Members spec).

Definition validResourceTypes : list string := ["ProxyGateway"; "ProxyRoute"; "ProxyBackend"; "ProxyPolicy"].

Definition validateSyncConfig (sync : option FederationSyncConfig) : list AdmissionErr * list Warning :=
  match sync with
  | None => ([], [])
  | Some sync =>
      (InvalidResourceType <$> filter (λ rt, rt ∉ validResourceTypes) (fs_ResourceTypes sync),
       err_if (bool_decide (1000 < fs_BatchSize sync)) (LargeBatchSize (fs_BatchSize sync)))
  end.

Definition ConflictResolutionLastWriterWins : string := "LastWriterWins".
Definition ConflictResolutionMerge : string := "Merge".
Definition ConflictResolutionManual : string := "Manual".
Definition strategies : list string :=
  [ConflictResolutionLastWriterWins; ConflictResolutionMerge; ConflictResolutionManual].

Definition validateConflictResolution (cr : option ConflictResolutionConfig) : list AdmissionErr * list Warning :=
  match cr with
  | None => ([], [])
  | Some cr =>
      (err_if (negb (contains strategies (fc_Strategy cr))) (InvalidStrategy (fc_Strategy cr)),
       err_if (str_eqb (fc_Strategy cr) ConflictResolutionManual) ManualResolution)
  end.

Definition health_check_errors (hc : option FederationHealthCheck) : list AdmissionErr :=
  match hc with
  | Some (mkFederationHealthCheck (Some interval) (Some timeout) _ _) =>
      err_if (bool_decide (interval ≤ timeout)) HealthCheckTimeoutTooLong
  | _ => []
  end.

(** [validateFederation]: the warnings, and the errors, which are joined into one
    when there are any. *)
Definition validateFederation (spec : FederationSpec) : list Warning * list AdmissionErr :=
  let id := sp_FederationID spec in
  let local := sp_LocalMember spec in
  let '(syncErrs, syncWarns) := validateSyncConfig (sp_Sync spec) in
  let '(crErrs, crWarns) := validateConflictResolution (sp_ConflictResolution spec) in
  (syncWarns ++ crWarns,
   err_if (negb (federationIDRegex id)) (InvalidFederationID id) ++
   err_if (bool_decide (63 < len id)) (FederationIDTooLong id) ++
   from_option (λ e, [InvalidLocalMember e]) [] (validateMember (fb_Name local) (fb_Endpoint local)) ++
   validateFederationPeers spec ++ syncErrs ++ crErrs ++ health_check_errors (sp_HealthCheck spec)).

Inductive UpdateErr :=
  | FederationIDImmutable (old new : string)
  | LocalMemberNameImmutable (old new : string)
  | ValidationFailed (errs : list AdmissionErr).

Definition validation_result (r : list Warning * list AdmissionErr) : list Warning * option UpdateErr :=
  (r.1, match r.2 with [] => None | errs => Some (ValidationFailed errs) end).

Definition ValidateCreate (spec : FederationSpec) : list Warning * option UpdateErr :=
  validation_result (validateFederation spec).

Definition ValidateUpdate (old new : FederationSpec) : list Warning * option UpdateErr :=
  let oldName := fb_Name (sp_LocalMember old) in
  let newName := fb_Name (sp_LocalMember new) in
  if negb (str_eqb (sp_FederationID old) (sp_FederationID new)) then
    ([], Some (FederationIDImmutable (sp_FederationID old) (sp_FederationID new)))
  else if negb (str_eqb oldName newName) then ([], Some (LocalMemberNameImmutable oldName newName))
  else validation_result (validateFederation new).

(** [ValidateDelete]: only warnings, from the members (with their health) and the
    pending conflicts of the status. *)
Definition ValidateDelete (members : list (string * bool)) (conflictsPending : Z) : list Warning :=
  let healthyPeers := fst <$> filter (λ m, m.2 = true) members in
  err_if (bool_decide (healthyPeers ≠ [])) (HealthyPeers healthyPeers) ++
  err_if (bool_decide (0 < conflictsPending)) (PendingConflicts conflictsPending).

(** ** The defaulter *)

Definition or_default (d v : Z) : Z := if decide (v = 0) then d else v.

Definition default_sync (sync : option FederationSyncConfig) : FederationSyncConfig :=
  let s := default (mkFederationSyncConfig None None 0 None [] []) sync in
  mkFederationSyncConfig (fs_Interval s) (fs_Timeout s) (or_default 100 (fs_BatchSize s))
    (Some (default true (fs_Compression s))) (fs_ResourceTypes s) (fs_ExcludeNamespaces s).

Definition default_conflict_resolution (cr : option ConflictResolutionConfig) : ConflictResolutionConfig :=
  let c := default (mkConflictResolutionConfig "" None None) cr in
  mkConflictResolutionConfig (if str_empty (fc_Strategy c) then ConflictResolutionLastWriterWins else fc_Strategy c)
    (Some (default true (fc_VectorClocks c))) (fc_TombstoneTTL c).

Definition default_health_check (hc : option FederationHealthCheck) : FederationHealthCheck :=
  let h := default (mkFederationHealthCheck None None 0 0) hc in
  mkFederationHealthCheck (fh_Interval h) (fh_Timeout h) (or_default 3 (fh_FailureThreshold h))
    (or_default 1 (fh_SuccessThreshold h)).

Definition default_tls (t : FederationTLS) : FederationTLS :=
  mkFederationTLS (Some (default true (ft_Enabled t))) (ft_CASecretRef t) (ft_ClientCertSecretRef t)
    (ft_ServerName t) (ft_InsecureSkipVerify t).

Definition default_peer (p : FederationPeer) : FederationPeer :=
  mkFederationPeer (fp_Name p) (fp_Endpoint p) (fp_Region p) (fp_Zone p) (or_default 100 (fp_Priority p))
    (fp_Labels p) (default_tls <$> fp_TLS p).

Definition Default (spec : FederationSpec) : FederationSpec :=
  mkFederationSpec (sp_Mode spec) (sp_FederationID spec) (sp_LocalMember spec) (default_peer <$> sp_Members spec)
    (Some (default_sync (sp_Sync spec))) (Some (default_conflict_resolution (sp_ConflictResolution spec)))
    (Some (default_health_check (sp_HealthCheck spec))) (sp_SplitBrain spec) (sp_Paused spec).

(** A request passes the defaulter first; the validator sees, and the API server
    stores, what it returns. *)
Definition admit_create (spec : FederationSpec) : option FederationSpec :=
  match ValidateCreate (Default spec) with (_, None) => Some (Default spec) | _ => None end.
Definition admit_update (old spec : FederationSpec) : option FederationSpec :=
  match ValidateUpdate old (Default spec) with (_, None) => Some (Default spec) | _ => None end.

(** ** What the validator accepts *)

(** A label: letters, digits and hyphens, with a letter or digit at both ends. *)
Definition dns_label (s : string) : Prop :=
  let l := String.list_ascii_of_string s in
  Forall (λ c, label_char c = true) l ∧
  (∃ c, head l = Some c ∧ lower_alnum c = true) ∧ (∃ c, last l = Some c ∧ lower_alnum c = true).

Definition good_member (m : string * string) : Prop :=
  dns_label m.1 ∧ len m.1 ≤ 63 ∧
  ∃ host port, SplitHostPort m.2 = Some (host, port) ∧ host ≠ ""%string ∧ port ≠ ""%string.

Definition peer_of (p : FederationPeer) : string * string := (fp_Name p, fp_Endpoint p).
(** The local member first. *)
Definition all_members (spec : FederationSpec) : list (string * string) :=
  (fb_Name (sp_LocalMember spec), fb_Endpoint (sp_LocalMember spec)) :: (peer_of <$> sp_Members spec).

(** An encrypted connection needs a trust root, or has to give up verification. *)
Definition trusted (p : FederationPeer) : Prop :=
  ∀ t, fp_TLS p = Some t → ft_Enabled t = Some true → ft_CASecretRef t ≠ None ∨ ft_InsecureSkipVerify t = true.

Record well_formed (spec : FederationSpec) : Prop := {
  wf_id : dns_label (sp_FederationID spec) ∧ len (sp_FederationID spec) ≤ 63;
  wf_members : Forall good_member (all_members spec);
  wf_names : NoDup (all_members spec).*1;
  wf_endpoints : NoDup (all_members spec).*2;
  wf_tls : Forall trusted (sp_Members spec);
  wf_types : ∀ s, sp_Sync spec = Some s → fs_ResourceTypes s ⊆ validResourceTypes;
  wf_strategy : ∀ c, sp_ConflictResolution spec = Some c → fc_Strategy c ∈ strategies;
  wf_health : ∀ h i t, sp_HealthCheck spec = Some h → fh_Interval h = Some i → fh_Timeout h = Some t → t < i;
}.

Lemma label_char_alnum c : lower_alnum c = true → label_char c = true.
Proof. unfold label_char. by intros ->. Qed.

Lemma label_tail_spec s :
  label_tail s = true ↔
  Forall (λ c, label_char c = true) (String.list_ascii_of_string s) ∧
  ∃ c, last (String.list_ascii_of_string s) = Some c ∧ lower_alnum c = true.
Proof.
  induction s as [|c s IH]; simpl.
  { split; [done|]. by intros [_ (c & ? & _)]. }
  destruct s as [|d s].
  { simpl. split.
    - intros H. split; [by constructor; [apply label_char_alnum|]|by exists c].
    - by intros [_ (? & [= <-] & ?)]. }
  rewrite andb_true_iff, IH. simpl. rewrite !Forall_cons. tauto.
Qed.

Lemma memberNameRegex_spec s : memberNameRegex s = true ↔ dns_label s.
Proof.
  unfold dns_label. destruct s as [|c s]; simpl.
  { split; [done|]. by intros (_ & (c & ? & _) & _). }
  destruct s as [|d s].
  { simpl. split.
    - intros H. split_and!; [by constructor; [apply label_char_alnum|]|by exists c|by exists c].
    - by intros (_ & (? & [= <-] & ?) & _). }
  rewrite andb_true_iff, label_tail_spec. simpl. rewrite !Forall_cons. split.
  - intros (Hc & ? & ?). split_and!; try tauto; [by apply label_char_alnum|by exists c].
  - intros (? & (? & [= <-] & ?) & ?). tauto.
Qed.

Lemma validateMember_None name endpoint : validateMember name endpoint = None ↔ good_member (name, endpoint).
Proof.
  unfold validateMember, good_member, str_empty. simpl. rewrite <- memberNameRegex_spec.
  destruct (memberNameRegex name); simpl; [|by split; [|intros (? & _)]].
  case_decide as Hl; [by split; [|intros (_ & ? & _); lia]|].
  destruct (SplitHostPort endpoint) as [[host port]|]; [|by split; [|intros (_ & _ & ? & ? & ? & _)]].
  repeat case_bool_decide.
  - split; [done|]. by intros (_ & _ & ? & ? & [= <- <-] & ? & _).
  - split; [done|]. by intros (_ & _ & ? & ? & [= <- <-] & _ & ?).
  - split; [|done]. intros _. split_and!; [done|lia|eauto].
Qed.

Lemma validateTLS_false t :
  validateTLS t = false ↔ (ft_Enabled t = Some true → ft_CASecretRef t ≠ None ∨ ft_InsecureSkipVerify t = true).
Proof.
  unfold validateTLS. destruct (ft_Enabled t) as [[]|]; [|naive_solver..].
  case_bool_decide; destruct (ft_InsecureSkipVerify t); simpl; naive_solver.
Qed.

Lemma peer_tls_false p : from_option validateTLS false (fp_TLS p) = false ↔ trusted p.
Proof.
  unfold trusted. destruct (fp_TLS p) as [t|]; simpl; [rewrite validateTLS_false|]; naive_solver.
Qed.

Lemma err_if_nil {A} b (e : A) : err_if b e = [] ↔ b = false.
Proof. by destruct b. Qed.

Lemma option_err_nil {A B} (f : A → B) (o : option A) : from_option (λ e, [f e]) [] o = [] ↔ o = None.
Proof. by destruct o. Qed.

#[local] Hint Rewrite @app_nil @err_if_nil @option_err_nil bool_decide_eq_false negb_false_iff : admission.

(** Keeping clear of one more name and endpoint. *)
Lemma fresh_cons (n e : string) (names endpoints : gset string) (l : list (string * string)) :
  Forall (λ m, m.1 ∉ {[ n ]} ∪ names ∧ m.2 ∉ {[ e ]} ∪ endpoints) l ↔
  n ∉ l.*1 ∧ e ∉ l.*2 ∧ Forall (λ m, m.1 ∉ names ∧ m.2 ∉ endpoints) l.
Proof.
  induction l as [|[n' e'] l IH]; [split; [intros _; split_and!; [apply not_elem_of_nil..|]|intros _]; constructor|].
  rewrite !Forall_cons, IH, !fmap_cons, !not_elem_of_cons. simpl.
  rewrite !not_elem_of_union, !not_elem_of_singleton. naive_solver.
Qed.

Lemma validate_peers_nil local names endpoints i peers :
  local ∈ names →
  validate_peers local names endpoints i peers = [] ↔
  Forall good_member (peer_of <$> peers) ∧ Forall trusted peers ∧
  NoDup (peer_of <$> peers).*1 ∧ NoDup (peer_of <$> peers).*2 ∧
  Forall (λ m, m.1 ∉ names ∧ m.2 ∉ endpoints) (peer_of <$> peers).
Proof.
  revert names endpoints i. induction peers as [|p peers IH]; intros names endpoints i Hl; simpl.
  { by repeat split; constructor. }
  unfold str_eqb. autorewrite with admission. rewrite IH by set_solver.
  rewrite fresh_cons, validateMember_None, peer_tls_false, !NoDup_cons, !Forall_cons. simpl.
  assert (fp_Name p ∉ names → fp_Name p ≠ local) by (intros Hnot E; apply Hnot; by rewrite E). tauto.
Qed.

Lemma validateSyncConfig_nil sync :
  (validateSyncConfig sync).1 = [] ↔ ∀ s, sync = Some s → fs_ResourceTypes s ⊆ validResourceTypes.
Proof.
  destruct sync as [s|]; simpl; [|naive_solver]. split.
  - intros H ? [= <-] rt Hrt. destruct (decide (rt ∈ validResourceTypes)) as [|Hn]; [done|].
    assert (rt ∈ filter (λ rt, rt ∉ validResourceTypes) (fs_ResourceTypes s)) as Hin by (by apply list_elem_of_filter).
    apply fmap_nil_inv in H. rewrite H in Hin. by apply not_elem_of_nil in Hin.
  - intros H. destruct (filter _ _) as [|rt l] eqn:E; [done|].
    assert (rt ∈ filter (λ rt, rt ∉ validResourceTypes) (fs_ResourceTypes s)) as Hin by (rewrite E; left).
    apply list_elem_of_filter in Hin as [Hn Hin]. destruct Hn. by apply (H s).
Qed.

Lemma validateConflictResolution_nil cr :
  (validateConflictResolution cr).1 = [] ↔ ∀ c, cr = Some c → fc_Strategy c ∈ strategies.
Proof.
  destruct cr as [c|]; simpl; [|naive_solver]. unfold contains. rewrite err_if_nil, negb_false_iff, bool_decide_eq_true.
  naive_solver.
Qed.

Lemma health_check_errors_nil hc :
  health_check_errors hc = [] ↔
  ∀ h i t, hc = Some h → fh_Interval h = Some i → fh_Timeout h = Some t → t < i.
Proof.
  destruct hc as [[[i|] [t|] f s]|]; simpl; [|naive_solver..]. rewrite err_if_nil, bool_decide_eq_false. split.
  - intros H ? ? ? [= <-] [= <-] [= <-]. lia.
  - intros H. specialize (H _ i t eq_refl eq_refl eq_refl). lia.
Qed.

Lemma validateFederation_nil spec : (validateFederation spec).2 = [] ↔ well_formed spec.
Proof.
  unfold validateFederation, validateFederationPeers, federationIDRegex.
  pose proof (validateSyncConfig_nil (sp_Sync spec)) as Hs.
  pose proof (validateConflictResolution_nil (sp_ConflictResolution spec)) as Hc.
  destruct (validateSyncConfig _) as [syncErrs ?], (validateConflictResolution _) as [crErrs ?]. simpl in *.
  autorewrite with admission. rewrite Hs, Hc, health_check_errors_nil, memberNameRegex_spec, validateMember_None.
  rewrite validate_peers_nil by set_solver.
  pose proof (fresh_cons (fb_Name (sp_LocalMember spec)) (fb_Endpoint (sp_LocalMember spec)) ∅ ∅
    (peer_of <$> sp_Members spec)) as Hf. rewrite !union_empty_r_L in Hf. rewrite Hf. clear Hf.
  assert (Forall (λ m : string * string, m.1 ∉@{gset string} ∅ ∧ m.2 ∉@{gset string} ∅) (peer_of <$> sp_Members spec))
    by (apply Forall_true; set_solver).
  split.
  - intros (Hid & Hlen & Hl & (Hm & Ht & Hn1 & Hn2 & Hf1 & Hf2 & _) & ? & ? & ?).
    split; [split; [done|lia]|..|done|done|done|done]; unfold all_members; simpl; by constructor.
  - intros [[Hid Hlen] Hm Hn He Ht ? ? ?]. unfold all_members in *. simpl in *.
    apply Forall_cons in Hm as [? ?]. apply NoDup_cons in Hn as [? ?]. apply NoDup_cons in He as [? ?].
    split_and!; try done. lia.
Qed.

Lemma validation_result_None spec : (validation_result (validateFederation spec)).2 = None ↔ well_formed spec.
Proof.
  rewrite <- validateFederation_nil. unfold validation_result. cbn [snd]. by destruct (validateFederation spec).2.
Qed.


Lemma Default_idempotent spec : Default (Default spec) = Default spec.
Proof.
  unfold Default. simpl. f_equal.
  - rewrite <- list_fmap_compose. apply list_fmap_ext. intros _ p _. unfold default_peer, or_default. simpl. f_equal.
    + by repeat case_decide.
    + by destruct (fp_TLS p).
  - unfold default_sync, or_default. simpl. by repeat case_decide.
  - unfold default_conflict_resolution, str_empty. simpl. by repeat case_bool_decide.
  - unfold default_health_check, or_default. simpl. by repeat case_decide.
Qed.

(** ** Histories of a federation *)

(** The specifications a federation can have, the requests being whatever users
    send: [admitted first spec] says that [first] was created and [spec] is
    what updates made of it. *)
Inductive admitted (first : FederationSpec) : FederationSpec → Prop :=
  | admitted_create r : admit_create r = Some first → admitted first first
  | admitted_update old r spec : admitted first old → admit_update old r = Some spec → admitted first spec.

Lemma crd_peer_names spec : pi_Name <$> cf_Peers (CRDToConfig spec) = fp_Name <$> sp_Members spec.
Proof. unfold CRDToConfig. simpl. rewrite <- list_fmap_compose. by apply list_fmap_ext. Qed.

Lemma member_names spec : (all_members spec).*1 = fb_Name (sp_LocalMember spec) :: (fp_Name <$> sp_Members spec).
Proof. unfold all_members. simpl. f_equal. rewrite <- list_fmap_compose. by apply list_fmap_ext. Qed.

(** What the webhook guarantees of the configuration of the manager. *)
Definition coherent (c : Config) : Prop :=
  NoDup (pi_Name <$> cf_Peers c) ∧
  (∃ local, cf_LocalMember c = Some local ∧ dns_label (pi_Name local) ∧ pi_Name local ∉ pi_Name <$> cf_Peers c) ∧
  0 < cf_BatchSize c ∧ 0 < cf_FailureThreshold c ∧ 0 < cf_SuccessThreshold c ∧
  cf_ConflictResolutionStrategy c ∈ strategies.

Lemma positive_or_pos d v : 0 < d → 0 < positive_or d v.
Proof. unfold positive_or. case_decide; lia. Qed.

Lemma well_formed_coherent spec : well_formed spec → coherent (CRDToConfig spec).
Proof.
  intros [_ Hm Hn _ _ _ Hs _]. rewrite member_names in Hn. apply NoDup_cons in Hn as [Hl Hn].
  unfold coherent. rewrite crd_peer_names. split_and!; [done|..].
  - eexists. split; [reflexivity|]. simpl. apply Forall_cons in Hm as [(? & _) _]. done.
  - simpl. destruct (sp_Sync spec); simpl; [by apply positive_or_pos|done].
  - simpl. destruct (sp_HealthCheck spec); simpl; [by apply positive_or_pos|done].
  - simpl. destruct (sp_HealthCheck spec); simpl; [by apply positive_or_pos|done].
  - simpl. destruct (sp_ConflictResolution spec) as [c|]; simpl; [by apply Hs|apply list_elem_of_here].
Qed.

Lemma admit_update_inv old r spec :
  admit_update old r = Some spec →
  spec = Default r ∧ well_formed spec ∧ sp_FederationID spec = sp_FederationID old ∧
  fb_Name (sp_LocalMember spec) = fb_Name (sp_LocalMember old).
Proof.
  unfold admit_update, ValidateUpdate, str_eqb. case_bool_decide as Hid; [|done]. case_bool_decide as Hn; [|done].
  cbn [negb]. pose proof (validation_result_None (Default r)) as H.
  destruct (validation_result _) as [w [e|]]; [done|]. intros [= <-]. split_and!; [done|by apply H|done|done].
Qed.

Lemma admit_create_inv r spec : admit_create r = Some spec → spec = Default r ∧ well_formed spec.
Proof.
  unfold admit_create, ValidateCreate. pose proof (validation_result_None (Default r)) as H.
  destruct (validation_result _) as [w [e|]]; [done|]. intros [= <-]. split; [done|by apply H].
Qed.

Lemma admitted_inv first spec :
  admitted first spec →
  well_formed spec ∧ Default spec = spec ∧ sp_FederationID spec = sp_FederationID first ∧
  fb_Name (sp_LocalMember spec) = fb_Name (sp_LocalMember first).
Proof.
  induction 1 as [r H|old r spec Ho IH H].
  - apply admit_create_inv in H as [-> Hw]. rewrite Default_idempotent. tauto.
  - apply admit_update_inv in H as (-> & Hw & -> & ->). rewrite Default_idempotent. tauto.
Qed.

(** C15: What users can make of a federation. Whatever is requested and in
    whatever order, every specification the webhook lets through keeps the
    identifier and the local name of the first one, is a fixed point of the
    defaulter, and gives the manager a configuration whose peers have distinct
    names, none of them the name of the local member, which is a DNS label;
    whose batch size and thresholds are positive; and whose strategy is one of
    the three. For two such configurations the comparison by which an update is
    detected is exact: it answers true exactly when they differ at most in the
    order of the peers. Nothing is guaranteed of the intervals, which the
    webhook does not check. *)
Theorem admitted_federation_is_coherent (first spec : FederationSpec) (H : admitted first spec) :
  sp_FederationID spec = sp_FederationID first ∧
  fb_Name (sp_LocalMember spec) = fb_Name (sp_LocalMember first) ∧
  Default spec = spec ∧ coherent (CRDToConfig spec) ∧
  ∀ other, admitted first other →
    Config_Equal false (Some (CRDToConfig spec)) (Some (CRDToConfig other)) = true ↔
    config_same_up_to_peer_order (CRDToConfig spec) (CRDToConfig other).
Proof.
  apply admitted_inv in H as (Hw & Hd & Hid & Hn). apply well_formed_coherent in Hw as Hr.
  split_and!; try done. intros other Ho. apply admitted_inv in Ho as (Hw' & _).
  apply well_formed_coherent in Hw' as Hr'. apply Config_Equal_exact; [apply Hr|apply Hr'].
Qed.

(** ** Examples *)

Definition sample_peer (name : string) (tls : option FederationTLS) : FederationPeer :=
  mkFederationPeer name (name +:+ ".example:9443") "eu" "a" 0 ∅ tls.
Definition sample_spec (peers : list FederationPeer) : FederationSpec :=
  mkFederationSpec "" "prod" (mkFederationMember "paris" "paris.example:9443" "eu" "a" ∅) peers None None None None false.

Lemma admitted_federation_is_coherent_witness :
  let first := Default (sample_spec [sample_peer "rome" None]) in
  let spec := Default (sample_spec [sample_peer "rome" None; sample_peer "oslo-2" None]) in
  sp_FederationID spec = sp_FederationID first ∧ coherent (CRDToConfig spec).
Proof.
  intros first spec.
  assert (admitted first spec) as H.
  { eapply admitted_update with (old := first) (r := sample_spec [sample_peer "rome" None; sample_peer "oslo-2" None]).
    - by eapply admitted_create with (r := sample_spec [sample_peer "rome" None]).
    - reflexivity. }
  by destruct (admitted_federation_is_coherent first spec H) as (H1 & _ & _ & H2 & _).
Defined.

(** A rejected name, endpoint and resource type. *)
Example webhook_rejects :
  (validateMember "Paris" "p:1", validateMember "a-" "p:1", validateMember "a" "host", validateMember "a" ":1",
   (validateSyncConfig (Some (mkFederationSyncConfig None None 1001 None ["ProxyRoute"; "Secret"]%string []))))
  = (Some (ErrInvalidName "Paris"), Some (ErrInvalidName "a-"), Some (ErrInvalidEndpoint "host"), Some (ErrEmptyHost ":1"),
     ([InvalidResourceType "Secret"], [LargeBatchSize 1001])).
Proof. reflexivity. Qed.

(** The comment of [validateTLS] says that a warning about an insecure peer is
    surfaced through the warnings of [validateFederation]; there is none. *)
Example insecure_peer_is_accepted_silently :
  validateFederation (sample_spec [sample_peer "rome" (Some (mkFederationTLS (Some true) None None "" true))]) = ([], []).
Proof. reflexivity. Qed.

(** A peer with the name of the local member is reported twice. *)
Example local_name_is_reported_twice :
  (validateFederation (sample_spec [mkFederationPeer "paris" "rome.example:9443" "" "" 0 ∅ None])).2 =
    [DuplicateMemberName "paris"; PeerIsLocalMember "paris"].
Proof. reflexivity. Qed.

(** The resource types the webhook allows do not include the endpoints of
    services, which the server propagates for cross-cluster routing: a federation
    that selects resource types leaves them out of its full syncs. *)
Example service_endpoints_cannot_be_selected :
  (validateSyncConfig (Some (mkFederationSyncConfig None None 100 None ["ServiceEndpoints"]%string []))).1 =
    [InvalidResourceType "ServiceEndpoints"].
Proof. reflexivity. Qed.
