(* ===== verification/FedController.v ===== *)
(** * The controller of federations
    (src/internal/operator/controller/novaedgefederation_controller.go)

    The controller keeps one federation manager per custom resource. Its world
    holds the resources and Secrets of the API server, the running managers and
    the gRPC server. A call of the API server fails as the oracle of [api] says;
    reading a Secret fails while it is in [wo_unreadable]. *)

From S2P Require Import Prelude VectorClock FedTypes Endpoints FedServer PeerClient SplitBrain KubeApi FedManager FedWebhook.
Open Scope Z_scope.
Open Scope go_scope.

(** ** The custom resource *)

Definition FederationFinalizer : string := "novaedge.io/federation-finalizer".
Definition FederationConditionReady : string := "Ready".

Record Condition := mkCondition {
  cn_Type : string;
  cn_Status : bool;
  cn_Reason : string;
  cn_Message : string;
  cn_LastTransitionTime : Z;
  cn_ObservedGeneration : Z;
}.

Record FederationMemberStatus := mkFederationMemberStatus {
  ms_Name : string;
  ms_Healthy : bool;
  ms_LastSeen : option Z;
  ms_LastSyncTime : option Z;
  ms_SyncLag : option Z;
  ms_VectorClock : option (gmap string Z);
  ms_AgentCount : Z;
  ms_Error : string;
}.

(** The phases of the custom resource are those of the server; a new resource has
    none. *)
Record NovaEdgeFederationStatus := mkFederationStatus {
  st_Phase : option Phase;
  st_Conditions : list Condition;
  st_Members : list FederationMemberStatus;
  st_LastSyncTime : option Z;
  st_LocalVectorClock : option (gmap string Z);
  st_ConflictsPending : Z;
  st_ObservedGeneration : Z;
}.
Definition status_zero : NovaEdgeFederationStatus := mkFederationStatus None [] [] None None 0 0.

Record NovaEdgeFederation := mkFederation {
  fe_Namespace : string;
  fe_Name : string;
  fe_Generation : Z;
  fe_Deleting : bool;
  fe_Finalizers : list string;
  fe_Spec : FederationSpec;
  fe_Status : NovaEdgeFederationStatus;
}.
Definition Federation_eta (f : NovaEdgeFederation) : NovaEdgeFederation :=
  mkFederation (fe_Namespace f) (fe_Name f) (fe_Generation f) (fe_Deleting f) (fe_Finalizers f) (fe_Spec f) (fe_Status f).
Definition set_fe_Generation : Z → NovaEdgeFederation → NovaEdgeFederation := ltac:(field_setter Federation_eta fe_Generation).
Definition set_fe_Deleting : bool → NovaEdgeFederation → NovaEdgeFederation := ltac:(field_setter Federation_eta fe_Deleting).
Definition set_fe_Finalizers : list string → NovaEdgeFederation → NovaEdgeFederation := ltac:(field_setter Federation_eta fe_Finalizers).
Definition set_fe_Spec : FederationSpec → NovaEdgeFederation → NovaEdgeFederation := ltac:(field_setter Federation_eta fe_Spec).
Definition set_fe_Status : NovaEdgeFederationStatus → NovaEdgeFederation → NovaEdgeFederation := ltac:(field_setter Federation_eta fe_Status).

Definition namespaced (namespace name : string) : string := namespace +:+ "/" +:+ name.
Definition fed_key (f : NovaEdgeFederation) : string := namespaced (fe_Namespace f) (fe_Name f).

(** ** The world of the controller *)

Record world := mkWorld {
  wo_feds : gmap string NovaEdgeFederation;
  wo_secrets : gmap string (gmap string string);
  wo_unreadable : gset string;
  wo_managers : gmap string Manager;
  wo_grpc : option (list Server);
  wo_panicked : bool;
}.
Definition world_eta (w : world) : world :=
  mkWorld (wo_feds w) (wo_secrets w) (wo_unreadable w) (wo_managers w) (wo_grpc w) (wo_panicked w).
Definition set_feds : gmap string NovaEdgeFederation → world → world := ltac:(field_setter world_eta wo_feds).
Definition set_managers : gmap string Manager → world → world := ltac:(field_setter world_eta wo_managers).
Definition set_grpc : option (list Server) → world → world := ltac:(field_setter world_eta wo_grpc).
Definition set_panicked : bool → world → world := ltac:(field_setter world_eta wo_panicked).

#[local] Notation api := (api world).
#[local] Notation "'do' x <- m ; k" := (bind m (λ x, k)) (at level 199, x name, m at level 100, k at level 199).

Definition panic {A} : api A := λ oracle w, (set_panicked true w, oracle, None).
Definition read {A} (f : world → A) : api A := λ oracle w, (w, oracle, Some (f w)).
Definition write (f : world → world) : api unit := λ oracle w, (f w, oracle, Some tt).
(** The error of [m] as a value; a panic is not caught. *)
Definition try {A} (m : api A) : api (option A) := λ oracle w,
  let '(w, oracle, r) := m oracle w in (w, oracle, if wo_panicked w then None else Some r).

(** [Get], [None] for a resource that is not found. *)
Definition get_federation (key : string) : api (option NovaEdgeFederation) := call (λ w, (w, wo_feds w !! key)).
Definition get_secret (key : string) : api (option (gmap string string)) := λ oracle w,
  if decide (key ∈ wo_unreadable w) then fail oracle w else ret (wo_secrets w !! key) oracle w.

(** [Update] after a change of the finalizers: a resource that is being deleted
    disappears with its last finalizer. *)
Definition update_finalizers (fed : NovaEdgeFederation) (finalizers : list string) : api unit := call (λ w,
  (set_feds (if fe_Deleting fed && bool_decide (finalizers = []) then delete (fed_key fed) (wo_feds w)
             else <[fed_key fed := set_fe_Finalizers finalizers fed]> (wo_feds w)) w, tt)).

(** [Status().Update]. *)
Definition update_status (fed : NovaEdgeFederation) (status : NovaEdgeFederationStatus) : api unit := call (λ w,
  (set_feds (<[fed_key fed := set_fe_Status status fed]> (wo_feds w)) w, tt)).

Definition ContainsFinalizer (fed : NovaEdgeFederation) (f : string) : bool := contains (fe_Finalizers fed) f.
Definition RemoveFinalizer (l : list string) (f : string) : list string := filter (λ x, x ≠ f) l.

(** The result of a reconciliation: at once again, or after a while. *)
Inductive Result := Done | Requeue | RequeueAfter (d : Z).

(** ** Managers *)

(** [stopManager]. *)
Definition stopManager (key : string) : api unit :=
  do ms <- read wo_managers;
  match ms !! key with
  | None => ret tt
  | Some manager =>
      match Manager_Stop manager with
      | Panics => panic
      | Returns _ => write (λ w, set_managers (delete key (wo_managers w)) w)
      end
  end.

(** One file of a Secret; a missing Secret or file only logs. *)
Definition secret_data (secret : option (gmap string string)) (file : string) : string :=
  default "" (secret ≫= lookup file).

Definition read_ref (namespace : string) (ref : option SecretReference) : api (option (gmap string string)) :=
  match ref with
  | None => ret None
  | Some r => get_secret (namespaced (if str_empty (sr_Namespace r) then namespace else sr_Namespace r) (sr_Name r))
  end.

(** The credentials of one peer. *)
Definition load_peer (namespace : string) (tls : FederationTLS) : api TLSCredentials :=
  do ca <- read_ref namespace (ft_CASecretRef tls);
  do client <- read_ref namespace (ft_ClientCertSecretRef tls);
  ret (mkTLSCredentials (secret_data ca "ca.crt") (secret_data client "tls.crt") (secret_data client "tls.key")).

(** What the Secrets [secrets] give for one peer, and for the peers of a list. *)
Definition secret_of (secrets : gmap string (gmap string string)) (namespace : string) (ref : option SecretReference)
    : option (gmap string string) :=
  r ← ref; secrets !! namespaced (if str_empty (sr_Namespace r) then namespace else sr_Namespace r) (sr_Name r).

Definition peer_creds (secrets : gmap string (gmap string string)) (namespace : string) (tls : FederationTLS) : TLSCredentials :=
  let ca := secret_of secrets namespace (ft_CASecretRef tls) in
  let client := secret_of secrets namespace (ft_ClientCertSecretRef tls) in
  mkTLSCredentials (secret_data ca "ca.crt") (secret_data client "tls.crt") (secret_data client "tls.key").

Definition usable (creds : TLSCredentials) : bool :=
  negb (str_empty (tc_CACert creds)) || negb (str_empty (tc_ClientCert creds)).

Definition peers_creds (secrets : gmap string (gmap string string)) (namespace : string) (peers : list FederationPeer)
    (credentials : gmap string (option TLSCredentials)) : gmap string (option TLSCredentials) :=
  foldl (λ acc peer,
    match fp_TLS peer with
    | None => acc
    | Some tls =>
        let creds := peer_creds secrets namespace tls in
        if usable creds then <[fp_Name peer := Some creds]> acc else acc
    end) credentials peers.

(** [loadTLSCredentials], from the given peers on. *)
Fixpoint load_peers (namespace : string) (peers : list FederationPeer) (credentials : gmap string (option TLSCredentials))
    : api (gmap string (option TLSCredentials)) :=
  match peers with
  | [] => ret credentials
  | peer :: peers =>
      match fp_TLS peer with
      | None => load_peers namespace peers credentials
      | Some tls =>
          do creds <- load_peer namespace tls;
          load_peers namespace peers
            (if usable creds then <[fp_Name peer := Some creds]> credentials else credentials)
      end
  end.
Definition loadTLSCredentials (fed : NovaEdgeFederation) : api (gmap string (option TLSCredentials)) :=
  load_peers (fe_Namespace fed) (sp_Members (fe_Spec fed)) ∅.

(** The configuration of a specification with credentials for its peers. *)
Definition with_creds (spec : FederationSpec) (creds : gmap string (option TLSCredentials)) : Config :=
  let config := CRDToConfig spec in set_cf_Peers (apply_creds creds <$> cf_Peers config) config.

(** The callback of a manager is [FederationResourceApplier.Apply]; it is the only
    one. *)
Definition applier_callback : nat := 0.

(** [ensureManager]. *)
Definition ensureManager (fed : NovaEdgeFederation) : api unit :=
  let key := fed_key fed in
  do ms <- read wo_managers;
  match ms !! key with
  | Some existing =>
      if decide (st_ObservedGeneration (fe_Status fed) = fe_Generation fed) then ret tt
      else
        do creds <- loadTLSCredentials fed;
        let '(existing, err) := UpdateConfig false (with_creds (fe_Spec fed) creds) existing in
        do _ <- write (λ w, set_managers (<[key := existing]> (wo_managers w)) w);
        match err with Some _ => fail | None => ret tt end
  | None =>
      do creds <- loadTLSCredentials fed;
      let manager := NewManagerFromCRDWithCreds (fe_Spec fed) creds in
      do _ <- write (λ w, set_grpc (Manager_RegisterServer manager <$> wo_grpc w) w);
      let manager := OnResourceChange applier_callback manager in
      match Start manager with
      | Panics => panic
      | Returns (_, Some _) => fail
      | Returns (manager, None) => write (λ w, set_managers (<[key := manager]> (wo_managers w)) w)
      end
  end.

(** ** Status *)

Definition ready_condition (phase : Phase) (generation now : Z) : Condition :=
  let make status reason message := mkCondition FederationConditionReady status reason message now generation in
  match phase with
  | PhaseHealthy => make true "FederationHealthy" "All federation peers are healthy and in sync"
  | PhaseSyncing => make false "SyncInProgress" "Federation sync is in progress"
  | PhaseDegraded => make false "FederationDegraded" "Some federation peers are unhealthy"
  | PhasePartitioned => make false "NetworkPartition" "Federation is experiencing network partition"
  | PhaseInitializing => make false "Initializing" "Federation is initializing"
  end%string.

(** [buildConditions]: the time of the last transition is kept while the status
    stays the same. *)
Definition buildConditions (phase : Phase) (existing : list Condition) (generation now : Z) : list Condition :=
  let ready := ready_condition phase generation now in
  match list_find (λ c, cn_Type c = FederationConditionReady) existing with
  | Some (_, c) =>
      if eqb (cn_Status c) (cn_Status ready) then
        [mkCondition (cn_Type ready) (cn_Status ready) (cn_Reason ready) (cn_Message ready) (cn_LastTransitionTime c) generation]
      else [ready]
  | None => [ready]
  end.

Definition some_time (t : Z) : option Z := if decide (t = time_zero) then None else Some t.

Definition member_status (name : string) (state : PeerState) : FederationMemberStatus :=
  mkFederationMemberStatus name (ps_Healthy state) (some_time (ps_LastSeen state)) (some_time (ps_LastSyncTime state))
    (if decide (0 < ps_SyncLag state) then Some (ps_SyncLag state) else None) (ToMap <$> ps_VectorClock state)
    (ps_AgentCount state) (ps_LastError state).

Section reconcile.
(** The order in which a range over a map visits it, and the time. *)
Context (visit : visiting) (now : Z).

(** The status [syncStatus] writes for a manager. *)
Definition manager_status (manager : Manager) (fed : NovaEdgeFederation) : NovaEdgeFederationStatus :=
  let phase := GetPhase manager in
  let conflicts := default [] (Manager_GetConflicts (visit _ (from_option sv_conflicts ∅ (mg_server manager))) manager) in
  mkFederationStatus (Some phase)
    (buildConditions phase (st_Conditions (fe_Status fed)) (fe_Generation fed) now)
    (uncurry member_status <$> visit _ (default ∅ (Manager_GetPeerStates manager)))
    (Some now) (Manager_GetVectorClock manager) (SafeIntToInt32 (Z.of_nat (length conflicts))) (fe_Generation fed).

Definition syncStatus (fed : NovaEdgeFederation) : api Result :=
  do ms <- read wo_managers;
  match ms !! fed_key fed with
  | None => ret (RequeueAfter (5 * Second))
  | Some manager =>
      do _ <- update_status fed (manager_status manager fed);
      ret (match GetPhase manager with
           | PhaseHealthy => RequeueAfter (30 * Second)
           | PhaseSyncing => RequeueAfter (5 * Second)
           | PhaseInitializing | PhaseDegraded | PhasePartitioned => RequeueAfter (10 * Second)
           end)
  end.

Definition updateStatus (fed : NovaEdgeFederation) (phase : Phase) : api Result :=
  let st := fe_Status fed in
  do _ <- update_status fed (mkFederationStatus (Some phase) (buildConditions phase (st_Conditions st) (fe_Generation fed) now)
            (st_Members st) (st_LastSyncTime st) (st_LocalVectorClock st) (st_ConflictsPending st) (fe_Generation fed));
  ret (RequeueAfter (10 * Second)).

(** ** Reconciliation *)

Definition handleDeletion (fed : NovaEdgeFederation) : api Result :=
  do _ <- stopManager (fed_key fed);
  do _ <- update_finalizers fed (RemoveFinalizer (fe_Finalizers fed) FederationFinalizer);
  ret Done.

Definition Reconcile (namespace name : string) : api Result :=
  let key := namespaced namespace name in
  do found <- get_federation key;
  match found with
  | None => do _ <- stopManager key; ret Done
  | Some fed =>
      if fe_Deleting fed then handleDeletion fed
      else if negb (ContainsFinalizer fed FederationFinalizer) then
        do _ <- update_finalizers fed (fe_Finalizers fed ++ [FederationFinalizer]); ret Requeue
      else if sp_Paused (fe_Spec fed) then
        do _ <- stopManager key; updateStatus fed PhaseInitializing
      else
        do ensured <- try (ensureManager fed);
        match ensured with
        | None => updateStatus fed PhaseDegraded
        | Some _ => syncStatus fed
        end
  end.
End reconcile.

Definition GetManager (namespace name : string) (w : world) : option Manager := wo_managers w !! namespaced namespace name.

(** ** Histories of the controller *)

(** What the goroutines of a manager, and the calls of its server, change: the
    state of server, clients and detector, but not the configuration, the peers
    of the clients, nor whether manager and server run. *)
Definition manager_runs (m m' : Manager) : Prop :=
  mg_config m' = mg_config m ∧ mg_started m' = mg_started m ∧
  (∀ name, pc_peer <$> mg_clients m' !! name = pc_peer <$> mg_clients m !! name) ∧
  ∀ s, mg_server m = Some s → ∃ s', mg_server m' = Some s' ∧ sv_shutdown s' = sv_shutdown s ∧ sv_config s' = sv_config s.

(** A resource that was just created. *)
Definition new_federation (namespace name : string) (spec : FederationSpec) : NovaEdgeFederation :=
  mkFederation namespace name 1 false [] spec status_zero.

(** The interval of the health checks is positive. The webhook does not ask for
    it, and a manager started with another one ends the process: see
    [zero_interval_panics]. *)
Definition ticking (spec : FederationSpec) : Prop := 0 < cf_HealthCheckInterval (CRDToConfig spec).

(** One step: users create, change and delete federations through the webhook,
    with positive health-check intervals, Secrets change, managers run, and the
    controller reconciles with whatever calls failing. [readable] excludes that
    a Secret cannot be read. *)
Inductive world_step (visit : visiting) (readable : bool) : world → world → Prop :=
  | ws_create namespace name r spec w :
      wo_feds w !! namespaced namespace name = None → admit_create r = Some spec → ticking spec →
      world_step visit readable w
        (set_feds (<[namespaced namespace name := new_federation namespace name spec]> (wo_feds w)) w)
  | ws_update key fed r spec w :
      wo_feds w !! key = Some fed → fe_Deleting fed = false → admit_update (fe_Spec fed) r = Some spec → ticking spec →
      world_step visit readable w
        (set_feds (<[key := set_fe_Spec spec (set_fe_Generation (fe_Generation fed + 1) fed)]> (wo_feds w)) w)
  | ws_delete key fed w :
      wo_feds w !! key = Some fed →
      world_step visit readable w
        (set_feds (if bool_decide (fe_Finalizers fed = []) then delete key (wo_feds w)
                   else <[key := set_fe_Deleting true (set_fe_Generation (fe_Generation fed + 1) fed)]> (wo_feds w)) w)
  | ws_secrets secrets unreadable w :
      (readable = true → unreadable = ∅) →
      world_step visit readable w (mkWorld (wo_feds w) secrets unreadable (wo_managers w) (wo_grpc w) (wo_panicked w))
  | ws_manager key m m' w :
      wo_managers w !! key = Some m → manager_runs m m' →
      world_step visit readable w (set_managers (<[key := m']> (wo_managers w)) w)
  | ws_reconcile namespace name now oracle oracle' w w' r :
      Reconcile visit now namespace name oracle w = (w', oracle', r) → world_step visit readable w w'.

Definition initial_world (grpc : option (list Server)) : world := mkWorld ∅ ∅ ∅ ∅ grpc false.
Definition history (visit : visiting) (readable : bool) (w : world) : Prop :=
  ∃ grpc, rtc (world_step visit readable) (initial_world grpc) w.

(** ** Invariants *)

(** A manager that runs: it has one client per peer of its configuration, and a
    server with the same configuration. *)
Definition manager_ok (m : Manager) : Prop :=
  mg_started m = true ∧ NoDup (pi_Name <$> cf_Peers (mg_config m)) ∧
  (∀ name, pc_peer <$> mg_clients m !! name = peersByName (cf_Peers (mg_config m)) !! name) ∧
  ∃ s, mg_server m = Some s ∧ sv_shutdown s = false ∧ sv_config s = mg_config m.

(** A manager that does what a resource specifies: its configuration is the one
    of the specification, each peer with the credentials that the Secrets it
    refers to gave when they were read. *)
Definition follows (m : Manager) (fed : NovaEdgeFederation) : Prop :=
  ∃ secrets, config_same_up_to_peer_order (mg_config m)
    (with_creds (fe_Spec fed) (peers_creds secrets (fe_Namespace fed) (sp_Members (fe_Spec fed)) ∅)).

Definition fed_ok (key : string) (fed : NovaEdgeFederation) : Prop :=
  fed_key fed = key ∧ (well_formed (fe_Spec fed) ∧ ticking (fe_Spec fed)) ∧ st_ObservedGeneration (fe_Status fed) ≤ fe_Generation fed ∧ 0 < fe_Generation fed.

Definition up_to_date (w : world) : Prop := ∀ key fed m,
  wo_feds w !! key = Some fed → wo_managers w !! key = Some m →
  st_ObservedGeneration (fe_Status fed) = fe_Generation fed → follows m fed.

Definition world_inv (readable : bool) (w : world) : Prop :=
  wo_panicked w = false ∧ map_Forall fed_ok (wo_feds w) ∧ map_Forall (λ _, manager_ok) (wo_managers w) ∧
  (readable = true → wo_unreadable w = ∅ ∧ up_to_date w).

(** ** Managers *)

Lemma apply_creds_name creds p : pi_Name (apply_creds creds p) = pi_Name p.
Proof. unfold apply_creds. by destruct (creds !! pi_Name p) as [[c|]|]. Qed.

Lemma with_creds_names spec creds : pi_Name <$> cf_Peers (with_creds spec creds) = fp_Name <$> sp_Members spec.
Proof.
  rewrite <- crd_peer_names. unfold with_creds. cbn [set_cf_Peers cf_Peers]. rewrite <- list_fmap_compose.
  apply list_fmap_ext. intros _ p _. apply apply_creds_name.
Qed.

Lemma with_creds_NoDup spec creds : well_formed spec → NoDup (pi_Name <$> cf_Peers (with_creds spec creds)).
Proof. intros [_ _ Hn _ _ _ _ _]. rewrite with_creds_names. rewrite member_names in Hn. by apply NoDup_cons in Hn as [_ ?]. Qed.

(** The clients [Start] makes are those of the peers. *)
Lemma add_clients peers m (acc : gmap string PeerInfo) :
  (∀ name, pc_peer <$> mg_clients m !! name = acc !! name) →
  let m' := foldl (λ m peer, add_client (mg_config m) (pi_Name peer) peer m) m peers in
  (∀ name, pc_peer <$> mg_clients m' !! name = foldl (λ m p, <[pi_Name p := p]> m) acc peers !! name) ∧
  mg_config m' = mg_config m ∧ mg_started m' = mg_started m ∧ mg_server m' = mg_server m.
Proof.
  revert m acc. induction peers as [|p peers IH]; intros m acc H; [done|]. simpl.
  apply (IH (add_client (mg_config m) (pi_Name p) p m)). intros name. simpl.
  rewrite !lookup_insert. by case_decide.
Qed.

Lemma start_ok spec creds :
  well_formed spec → ticking spec →
  ∃ m, Start (OnResourceChange applier_callback (NewManagerFromCRDWithCreds spec creds)) = Returns (m, None) ∧
    manager_ok m ∧ mg_config m = with_creds spec creds.
Proof.
  intros Hw Ht. unfold Start. cbn [mg_started OnResourceChange NewManagerFromCRDWithCreds NewManager mg_server set_mg_onResourceChange].
  cbn [set_mg_started mg_config cf_LocalMember set_cf_Peers deref outcome_bind CRDToConfig cf_SplitBrain DefaultConfig
    mg_onResourceChange set_mg_server].
  match goal with |- context [foldl ?f ?m _] => set (m0 := m) end.
  destruct (add_clients (cf_Peers (mg_config m0)) m0 ∅) as (Hc & Hcfg & Hst & Hsv).
  { intros name. subst m0. destruct (str_eqb _ _); cbn; by rewrite lookup_empty. }
  assert (mg_config m0 = with_creds spec creds) as Hcfg0 by (subst m0; by destruct (str_eqb _ _)).
  rewrite decide_False by (rewrite Hcfg, Hcfg0; unfold ticking in Ht; simpl in *; lia).
  eexists. split; [reflexivity|]. unfold manager_ok. rewrite Hcfg, Hst, Hsv.
  rewrite Hcfg0. split; [|done]. split_and!.
  - subst m0. by destruct (str_eqb _ _).
  - by apply with_creds_NoDup.
  - intros name. rewrite <- Hcfg0. apply Hc.
  - subst m0. destruct (str_eqb _ _); cbn; eexists; split_and!; reflexivity.
Qed.

Lemma same_up_to_order_refl c : config_same_up_to_peer_order c c.
Proof. split; [done|]. by destruct c. Qed.

Lemma UpdateConfig_started c m : mg_started (UpdateConfig false c m).1 = mg_started m.
Proof.
  unfold UpdateConfig. destruct (negb (mg_started m)); [done|]. destruct (Config_Equal _ _ _); [done|]. cbv zeta.
  assert (∀ (f : string → PeerInfo → Manager → Manager) (mp : gmap string PeerInfo) t,
    (∀ k v t, mg_started (f k v t) = mg_started t) → mg_started (map_fold f t mp) = mg_started t) as Hf.
  { intros f mp t Hf. rewrite map_fold_foldr. induction (map_to_list mp) as [|[k v] l IH]; [done|]. simpl. by rewrite Hf. }
  transitivity (mg_started (update_changed_peers (peersByName (cf_Peers (mg_config m))) (peersByName (cf_Peers c)) c
    (add_new_peers (peersByName (cf_Peers (mg_config m))) (peersByName (cf_Peers c)) c
    (remove_old_peers (peersByName (cf_Peers (mg_config m))) (peersByName (cf_Peers c)) m)))).
  - match goal with |- context [mg_server ?t] => generalize t end. intros t. by destruct (mg_server t).
  - unfold update_changed_peers, add_new_peers, remove_old_peers. rewrite !Hf; [done|..]; intros; repeat case_match; done.
Qed.

Lemma update_ok m spec creds :
  manager_ok m → well_formed spec →
  ∃ m', UpdateConfig false (with_creds spec creds) m = (m', None) ∧ manager_ok m' ∧
    config_same_up_to_peer_order (mg_config m') (with_creds spec creds).
Proof.
  intros (Hst & Hnd & Hcl & s & Hs & Hsh & Hcfg) Hw.
  pose proof (update_config_tracks_peers (with_creds spec creds) m) as H.
  pose proof (UpdateConfig_started (with_creds spec creds) m) as Hst'. rewrite Hst in Hst'.
  destruct (UpdateConfig false (with_creds spec creds) m) as [m' err]. simpl in Hst'.
  destruct H as [_ H].
  { intros name. by rewrite <- Hcl, fmap_is_Some. }
  destruct (H Hst) as (-> & Hsame & Hdiff). exists m'. split; [done|].
  destruct (Config_Equal false (Some (mg_config m)) (Some (with_creds spec creds))) eqn:E.
  - rewrite (Hsame eq_refl). split; [by split_and!; eauto|].
    apply Config_Equal_exact; [done|by apply with_creds_NoDup|done].
  - destruct (Hdiff eq_refl) as (Hcl' & Hcfg' & Hsv). split; [|rewrite Hcfg'; apply same_up_to_order_refl].
    unfold manager_ok. rewrite Hst', Hcfg'. split_and!; [done|by apply with_creds_NoDup|..].
    + intros name. rewrite Hcl'. destruct (peersByName (cf_Peers (with_creds spec creds)) !! name) as [p|]; [|done].
      case_decide as Hp; [|done]. by rewrite Hcl.
    + exists (set_config (with_creds spec creds) s). split_and!; [by apply Hsv|done|done].
Qed.

Lemma stop_ok m : manager_ok m → ∃ m', Manager_Stop m = Returns m'.
Proof.
  intros (Hst & _ & _ & s & Hs & Hsh & _). unfold Manager_Stop. rewrite Hst. cbn. rewrite Hs. unfold Stop. rewrite Hsh. cbn. eauto.
Qed.

Lemma runs_ok m m' : manager_ok m → manager_runs m m' → manager_ok m'.
Proof.
  intros (Hst & Hnd & Hcl & s & Hs & Hsh & Hcfg) (Ec & Es & Ecl & Hsv). destruct (Hsv s Hs) as (s' & Hs' & Hsh' & Hcfg').
  unfold manager_ok. rewrite Ec, Es. split_and!; [done|done|intros name; by rewrite Ecl|].
  exists s'. split_and!; [done|congruence|congruence].
Qed.

Lemma runs_follows m m' fed : follows m fed → manager_runs m m' → follows m' fed.
Proof. intros [secrets H] (Ec & _). exists secrets. by rewrite Ec. Qed.

(** ** Calls *)

Lemma triple_read {A} (f : world → A) w Q : Q w (Some (f w)) → triple (read f) w Q.
Proof. by intros H oracle. Qed.
Lemma triple_write f w Q : Q (f w) (Some tt) → triple (write f) w Q.
Proof. by intros H oracle. Qed.
Lemma triple_try {A} (m : api A) w Q :
  triple m w (λ w' r, Q w' (if wo_panicked w' then None else Some r)) → triple (try m) w Q.
Proof. intros H oracle. specialize (H oracle). unfold try. by destruct (m oracle w) as [[w' o'] r]. Qed.
Lemma succeeds_read {A} (f : world → A) w Q : Q w (f w) → succeeds (read f) w Q.
Proof. intros H. by exists w, (f w). Qed.
Lemma succeeds_write f w Q : Q (f w) tt → succeeds (write f) w Q.
Proof. intros H. by exists (f w), tt. Qed.
Lemma succeeds_try {A} (m : api A) w Q :
  succeeds m w (λ w' x, wo_panicked w' = false ∧ Q w' (Some x)) → succeeds (try m) w Q.
Proof. intros (w' & x & E & Hp & H). exists w', (Some x). unfold try. by rewrite E, Hp. Qed.

(** Reading Secrets changes nothing. It fails when one of them cannot be read,
    and only then; no other call is made. *)
Lemma read_ref_pure namespace ref oracle w :
  ∃ r, read_ref namespace ref oracle w = (w, oracle, r) ∧ (wo_unreadable w = ∅ → is_Some r) ∧
    ∀ c, r = Some c → c = secret_of (wo_secrets w) namespace ref.
Proof.
  unfold read_ref, get_secret, secret_of. destruct ref as [r|]; [|exists (Some None); split_and!; [done|done|by intros c [= <-]]].
  case_decide as Hd; [|eexists (Some _); split_and!; [done|done|by intros c [= <-]]].
  exists None. split_and!; [done| |done]. intros E. rewrite E in Hd. by apply not_elem_of_empty in Hd.
Qed.

Lemma load_peers_pure namespace peers creds oracle w :
  ∃ r, load_peers namespace peers creds oracle w = (w, oracle, r) ∧ (wo_unreadable w = ∅ → is_Some r) ∧
    ∀ c, r = Some c → c = peers_creds (wo_secrets w) namespace peers creds.
Proof.
  revert creds. induction peers as [|p peers IH]; intros creds; simpl; [exists (Some creds); split_and!; [done|done|congruence]|].
  destruct (fp_TLS p) as [tls|]; [|apply IH]. unfold load_peer, bind.
  destruct (read_ref_pure namespace (ft_CASecretRef tls) oracle w) as ([ca|] & -> & H1 & E1);
    [|by eexists; split_and!; [|intros Hu; destruct (H1 Hu)|]].
  destruct (read_ref_pure namespace (ft_ClientCertSecretRef tls) oracle w) as ([cl|] & -> & H2 & E2);
    [|by eexists; split_and!; [|intros Hu; destruct (H2 Hu)|]].
  simpl. unfold peer_creds. rewrite <- (E1 ca eq_refl), <- (E2 cl eq_refl). apply IH.
Qed.

(** The credentials of a resource under the Secrets of [w]. *)
Definition creds_now (fed : NovaEdgeFederation) (w : world) : gmap string (option TLSCredentials) :=
  peers_creds (wo_secrets w) (fe_Namespace fed) (sp_Members (fe_Spec fed)) ∅.

Lemma load_triple fed w Q :
  (wo_unreadable w = ∅ ∨ Q w None) → Q w (Some (creds_now fed w)) → triple (loadTLSCredentials fed) w Q.
Proof.
  intros Hn Hs oracle. unfold loadTLSCredentials.
  destruct (load_peers_pure (fe_Namespace fed) (sp_Members (fe_Spec fed)) ∅ oracle w) as (r & -> & Hr & Hc).
  destruct r as [creds|]; [by rewrite (Hc creds eq_refl)|]. destruct Hn as [Hn|]; [|done]. by destruct (Hr Hn).
Qed.

(** ** Preservation *)

Lemma inv_put_fed b key fed w :
  world_inv b w → fed_ok key fed →
  (b = true → ∀ m, wo_managers w !! key = Some m → st_ObservedGeneration (fe_Status fed) = fe_Generation fed → follows m fed) →
  world_inv b (set_feds (<[key := fed]> (wo_feds w)) w).
Proof.
  intros (Hp & Hf & Hm & Hr) Hfed Hk. split_and!; [done|by apply map_Forall_insert_2|done|].
  intros Hb. destruct (Hr Hb) as [Hu Hup]. split; [done|]. intros k f m Hkf. simpl in *.
  apply lookup_insert_Some in Hkf as [[<- <-]|[_ Hkf]]; [by apply Hk|by apply (Hup k)].
Qed.

Lemma inv_delete_fed b key w : world_inv b w → world_inv b (set_feds (delete key (wo_feds w)) w).
Proof.
  intros (Hp & Hf & Hm & Hr). split_and!; [done|by apply map_Forall_delete|done|].
  intros Hb. destruct (Hr Hb) as [Hu Hup]. split; [done|]. intros k f m Hkf. simpl in *.
  apply lookup_delete_Some in Hkf as [_ Hkf]. by apply (Hup k).
Qed.

Lemma inv_put_manager b key m w :
  world_inv b w → manager_ok m →
  (b = true → ∀ fed, wo_feds w !! key = Some fed → st_ObservedGeneration (fe_Status fed) = fe_Generation fed → follows m fed) →
  world_inv b (set_managers (<[key := m]> (wo_managers w)) w).
Proof.
  intros (Hp & Hf & Hm & Hr) Hok Hk. split_and!; [done|done|by apply map_Forall_insert_2|].
  intros Hb. destruct (Hr Hb) as [Hu Hup]. split; [done|]. intros k f m' Hkf Hkm. simpl in *.
  apply lookup_insert_Some in Hkm as [[<- <-]|[_ Hkm]]; [by apply Hk|by apply (Hup k)].
Qed.

Lemma inv_delete_manager b key w : world_inv b w → world_inv b (set_managers (delete key (wo_managers w)) w).
Proof.
  intros (Hp & Hf & Hm & Hr). split_and!; [done|done|by apply map_Forall_delete|].
  intros Hb. destruct (Hr Hb) as [Hu Hup]. split; [done|]. intros k f m Hkf Hkm. simpl in *.
  apply lookup_delete_Some in Hkm as [_ Hkm]. by apply (Hup k).
Qed.

Lemma inv_grpc b services w : world_inv b w → world_inv b (set_grpc services w).
Proof. done. Qed.

Lemma inv_manager b key m w : world_inv b w → wo_managers w !! key = Some m → manager_ok m.
Proof. intros (_ & _ & Hm & _). apply Hm. Qed.

(** Stopping a manager that runs does not panic. *)
Lemma stopManager_eq b key oracle w :
  world_inv b w → stopManager key oracle w = (set_managers (delete key (wo_managers w)) w, oracle, Some tt).
Proof.
  intros H. unfold stopManager, bind, read. destruct (wo_managers w !! key) as [m|] eqn:E.
  - destruct (stop_ok m) as [m' ->]; [by eapply inv_manager|done].
  - rewrite delete_id by done. by destruct w.
Qed.

Lemma stopManager_triple b key w Q :
  world_inv b w → Q (set_managers (delete key (wo_managers w)) w) (Some tt) → triple (stopManager key) w Q.
Proof. intros H HQ oracle. by rewrite (stopManager_eq b). Qed.

(** What [ensureManager] leaves: the manager follows the specification, unless a
    Secret could not be read. *)
Definition ensured (b : bool) (fed : NovaEdgeFederation) (w w' : world) (r : option unit) : Prop :=
  world_inv b w' ∧ wo_feds w' = wo_feds w ∧ (r = None → wo_unreadable w ≠ ∅) ∧
  (r = Some tt → ∃ m, wo_managers w' !! fed_key fed = Some m ∧ manager_ok m ∧
     (b = true ∨ wo_managers w !! fed_key fed = None ∨ st_ObservedGeneration (fe_Status fed) ≠ fe_Generation fed → follows m fed)).

Lemma ensured_put b fed w services m :
  world_inv b w → wo_feds w !! fed_key fed = Some fed → manager_ok m → follows m fed →
  ensured b fed w (set_managers (<[fed_key fed := m]> (wo_managers w)) (set_grpc services w)) (Some tt).
Proof.
  intros Hinv Hfed Hok Hf. split_and!; [|done|done|].
  - apply (inv_put_manager b (fed_key fed) m (set_grpc services w)); [done|done|].
    intros _ f Hk _. simpl in Hk. rewrite Hfed in Hk. by injection Hk as <-.
  - intros _. exists m. simpl. by rewrite lookup_insert_eq.
Qed.

Lemma ensureManager_triple b fed w :
  world_inv b w → wo_feds w !! fed_key fed = Some fed → triple (ensureManager fed) w (ensured b fed w).
Proof.
  intros Hinv Hfed. assert (well_formed (fe_Spec fed) ∧ ticking (fe_Spec fed)) as Hw by (destruct Hinv as (_ & Hf & _); by apply Hf in Hfed as (_ & ? & _)).
  destruct Hw as [Hw Htick].
  assert (∀ Q : world → option (gmap string (option TLSCredentials)) → Prop, (wo_unreadable w ≠ ∅ → Q w None) →
    Q w (Some (creds_now fed w)) → triple (loadTLSCredentials fed) w Q) as Hload.
  { intros Q HN HS. apply load_triple; [|done]. destruct (decide (wo_unreadable w = ∅)); auto. }
  unfold ensureManager. apply triple_bind, triple_read. destruct (wo_managers w !! fed_key fed) as [m|] eqn:E.
  - case_decide as Hg.
    + apply triple_ret. split_and!; [done|done|done|]. intros _. exists m. split; [done|].
      split; [by eapply inv_manager|]. intros [Hb|[Hb|Hb]]; [|congruence|done].
      destruct Hinv as (_ & _ & _ & Hr). destruct (Hr Hb) as [_ Hup]. by apply (Hup (fed_key fed)).
    + apply triple_bind, Hload; [intros Hne; by split_and!|].
      destruct (update_ok m (fe_Spec fed) (creds_now fed w)) as (m' & -> & Hok & Hf); [by eapply inv_manager|done|].
      apply triple_bind, triple_write, triple_ret.
      change (set_managers _ w) with (set_managers (<[fed_key fed := m']> (wo_managers w)) (set_grpc (wo_grpc w) w)).
      apply ensured_put; [done..|]. by exists (wo_secrets w).
  - apply triple_bind, Hload; [intros Hne; by split_and!|]. apply triple_bind, triple_write.
    destruct (start_ok (fe_Spec fed) (creds_now fed w) Hw Htick) as (m & -> & Hok & Hc). apply triple_write.
    apply (ensured_put b fed w); [done..|].
    exists (wo_secrets w). rewrite Hc. apply same_up_to_order_refl.
Qed.

(** [ensureManager] reads Secrets only. *)
Lemma ensureManager_oracle fed oracle w : (ensureManager fed oracle w).1.2 = oracle.
Proof.
  unfold ensureManager, loadTLSCredentials, bind, read, write, fail, panic, ret.
  destruct (load_peers_pure (fe_Namespace fed) (sp_Members (fe_Spec fed)) ∅ oracle w) as (r & Hl & _ & _).
  destruct (wo_managers w !! fed_key fed) as [m|]; [case_decide; [done|]|]; rewrite Hl; destruct r as [creds|]; try done.
  - by destruct (UpdateConfig _ _ _) as [? []].
  - by destruct (Start _) as [[? []]|].
Qed.

Lemma update_status_triple b fed st w :
  world_inv b w → wo_feds w !! fed_key fed = Some fed → st_ObservedGeneration st = fe_Generation fed →
  (b = true → ∀ m, wo_managers w !! fed_key fed = Some m → follows m fed) →
  triple (update_status fed st) w (λ w' _, world_inv b w').
Proof.
  intros Hinv Hfed Hst Hf. apply triple_call; [done|]. apply inv_put_fed; [done| |by intros; apply Hf].
  destruct Hinv as (_ & Hfs & _). apply Hfs in Hfed as (? & [? ?] & ? & ?). unfold fed_ok. simpl. rewrite Hst. split_and!; (done || lia).
Qed.

(** Rewriting the finalizers of a resource. *)
Lemma update_finalizers_triple b fed l w :
  world_inv b w → wo_feds w !! fed_key fed = Some fed → triple (update_finalizers fed l) w (λ w' _, world_inv b w').
Proof.
  intros Hinv Hfed. apply triple_call; [done|]. simpl. destruct (_ && _); [by apply inv_delete_fed|].
  apply inv_put_fed; [done|..].
  - destruct Hinv as (_ & Hfs & _). by apply Hfs in Hfed.
  - intros Hb m Hm Hg. destruct Hinv as (_ & _ & _ & Hr). destruct (Hr Hb) as [_ Hup]. by apply (Hup (fed_key fed) fed).
Qed.

Lemma triple_then {A B} b (m : api A) (f : A → api B) w :
  triple m w (λ w' _, world_inv b w') → (∀ x w', world_inv b w' → triple (f x) w' (λ w'' _, world_inv b w'')) →
  triple (bind m f) w (λ w' _, world_inv b w').
Proof. intros H Hf. apply triple_bind. eapply triple_mono; [exact H|]. intros w' [x|] Hw; [by apply Hf|done]. Qed.

Lemma Reconcile_triple visit now b namespace name w :
  world_inv b w → triple (Reconcile visit now namespace name) w (λ w' _, world_inv b w').
Proof.
  intros Hinv. unfold Reconcile. apply triple_bind, triple_call; [done|]. simpl.
  destruct (wo_feds w !! namespaced namespace name) as [fed|] eqn:E.
  2:{ apply triple_bind, (stopManager_triple b); [done|]. by apply triple_ret, inv_delete_manager. }
  assert (fed_key fed = namespaced namespace name) as Hk by (destruct Hinv as (_ & Hf & _); by apply Hf in E as (? & _)).
  rewrite <- Hk in *. destruct (fe_Deleting fed).
  { apply triple_bind, (stopManager_triple b); [done|].
    apply triple_then; [by apply update_finalizers_triple; [apply inv_delete_manager|]|]. intros _ w' Hw'. by apply triple_ret. }
  destruct (negb _).
  { apply triple_then; [by apply update_finalizers_triple|]. intros _ w' Hw'. by apply triple_ret. }
  destruct (sp_Paused (fe_Spec fed)).
  { apply triple_bind, (stopManager_triple b); [done|]. unfold updateStatus.
    apply triple_then; [|intros _ w' Hw'; by apply triple_ret]. apply update_status_triple; [by apply inv_delete_manager|done|done|].
    simpl. intros _ m. by rewrite lookup_delete_eq. }
  apply triple_bind, triple_try. eapply triple_mono; [by apply ensureManager_triple|].
  intros w' r (Hinv' & Hfs & Hn & Hs). destruct Hinv' as (Hp & Hinv'). rewrite Hp. rewrite <- Hfs in E.
  assert (world_inv b w') as Hw' by (by split). destruct r as [[]|].
  - unfold syncStatus. apply triple_bind, triple_read. destruct (Hs eq_refl) as (m & Hm & Hok & Hf). rewrite Hm.
    apply triple_then; [|intros _ w'' Hw''; by apply triple_ret]. apply update_status_triple; [done|done|done|].
    intros Hb m' Hm'. rewrite Hm in Hm'. injection Hm' as <-. auto.
  - unfold updateStatus. apply triple_then; [|intros _ w'' Hw''; by apply triple_ret]. apply update_status_triple; [done|done|done|].
    intros Hb. exfalso. apply Hn; [done|]. destruct Hinv as (_ & _ & _ & Hr). by destruct (Hr Hb).
Qed.

Lemma world_step_inv visit b w w' : world_inv b w → world_step visit b w w' → world_inv b w'.
Proof.
  intros Hinv Hstep. destruct Hstep as [ns name r spec w Hnone Hadm Htick|key fed r spec w Hfed Hd Hadm Htick|key fed w Hfed
    |secrets unreadable w Hu|key m m' w Hm Hruns|ns name now o o' w w' r Hrec].
  - apply admit_create_inv in Hadm as [_ Hw]. apply inv_put_fed; [done|by split_and!|]. done.
  - apply admit_update_inv in Hadm as (_ & Hw & _). destruct Hinv as (Hp & Hfs & Hrest).
    pose proof (Hfs _ _ Hfed) as (Hk & _ & Ho & Hg). apply inv_put_fed; [done| |].
    + unfold fed_ok. simpl. split_and!; (done || lia).
    + simpl. intros _ m _ Heq. lia.
  - case_bool_decide; [by apply inv_delete_fed|]. destruct Hinv as (Hp & Hfs & Hrest).
    pose proof (Hfs _ _ Hfed) as (Hk & [Hw Htick] & Ho & Hg). apply inv_put_fed; [done| |].
    + unfold fed_ok. simpl. split_and!; (done || lia).
    + simpl. intros _ m _ Heq. lia.
  - destruct Hinv as (Hp & Hfs & Hms & Hr). split_and!; [done..|]. intros Hb. split; [by apply Hu|].
    destruct (Hr Hb) as [_ Hup]. done.
  - apply inv_put_manager; [done| |].
    + eapply runs_ok; [by eapply inv_manager|done].
    + intros Hb fed Hfed Hg. destruct Hinv as (_ & _ & _ & Hr). destruct (Hr Hb) as [_ Hup].
      eapply runs_follows; [by eapply (Hup key)|done].
  - pose proof (Reconcile_triple visit now b ns name w Hinv o) as H. by rewrite Hrec in H.
Qed.

Lemma history_inv visit b w : history visit b w → world_inv b w.
Proof.
  intros [grpc H]. remember (initial_world grpc) as w0.
  assert (world_inv b w0) as H0.
  { subst. unfold world_inv, up_to_date. cbn. split_and!; [done|apply map_Forall_empty..|]. intros _. split; [done|]. intros key fed m Hf. by rewrite lookup_empty in Hf. }
  clear Heqw0. induction H as [|x y z Hxy _ IH]; [done|]. apply IH. by eapply world_step_inv.
Qed.


(** ** Convergence *)

(** What two reconciliations without errors make of the world [w]. *)
Definition settled (key : string) (w w' : world) : Prop :=
  match wo_feds w !! key with
  | None => wo_managers w' !! key = None
  | Some fed =>
      if fe_Deleting fed then
        wo_managers w' !! key = None ∧
        (∀ fed', wo_feds w' !! key = Some fed' → FederationFinalizer ∉ fe_Finalizers fed') ∧
        (fe_Finalizers fed = [FederationFinalizer] → wo_feds w' !! key = None)
      else if sp_Paused (fe_Spec fed) then wo_managers w' !! key = None
      else ∃ m fed', wo_managers w' !! key = Some m ∧ manager_ok m ∧ follows m fed ∧
        wo_feds w' !! key = Some fed' ∧ fe_Spec fed' = fe_Spec fed ∧
        st_ObservedGeneration (fe_Status fed') = fe_Generation fed ∧ st_Phase (fe_Status fed') = Some (GetPhase m)
  end.

Section convergence.
Context (visit : visiting) (namespace name : string).
#[local] Notation key := (namespaced namespace name).

Lemma stopManager_succeeds b k w Q :
  world_inv b w → Q (set_managers (delete k (wo_managers w)) w) tt → succeeds (stopManager k) w Q.
Proof. intros H HQ. eexists _, tt. split; [by apply (stopManager_eq b)|done]. Qed.

Lemma Reconcile_absent now w :
  world_inv true w → wo_feds w !! key = None →
  succeeds (Reconcile visit now namespace name) w (λ w' _, w' = set_managers (delete key (wo_managers w)) w).
Proof.
  intros Hinv E. apply succeeds_bind, succeeds_call. simpl. rewrite E.
  apply succeeds_bind, (stopManager_succeeds true); [done|]. by apply succeeds_ret.
Qed.

Lemma Reconcile_deleting now w fed :
  world_inv true w → wo_feds w !! key = Some fed → fe_Deleting fed = true →
  let l := RemoveFinalizer (fe_Finalizers fed) FederationFinalizer in
  succeeds (Reconcile visit now namespace name) w (λ w' _,
    w' = set_feds (if bool_decide (l = []) then delete key (wo_feds w) else <[key := set_fe_Finalizers l fed]> (wo_feds w))
           (set_managers (delete key (wo_managers w)) w)).
Proof.
  intros Hinv E Hd l. assert (fed_key fed = key) as Hk by (destruct Hinv as (_ & Hf & _); by apply Hf in E as (? & _)).
  apply succeeds_bind, succeeds_call. simpl. rewrite E, Hd. unfold handleDeletion. rewrite Hk.
  apply succeeds_bind, (stopManager_succeeds true); [done|].
  apply succeeds_bind, succeeds_call, succeeds_ret. simpl. by rewrite Hd, Hk.
Qed.

Lemma Reconcile_unmarked now w fed :
  world_inv true w → wo_feds w !! key = Some fed → fe_Deleting fed = false → FederationFinalizer ∉ fe_Finalizers fed →
  succeeds (Reconcile visit now namespace name) w (λ w' _,
    w' = set_feds (<[key := set_fe_Finalizers (fe_Finalizers fed ++ [FederationFinalizer]) fed]> (wo_feds w)) w).
Proof.
  intros Hinv E Hd Hn. assert (fed_key fed = key) as Hk by (destruct Hinv as (_ & Hf & _); by apply Hf in E as (? & _)).
  apply succeeds_bind, succeeds_call. simpl. rewrite E, Hd. unfold ContainsFinalizer, contains.
  rewrite bool_decide_eq_false_2 by done. apply succeeds_bind, succeeds_call, succeeds_ret. simpl. by rewrite Hd, Hk.
Qed.

Lemma Reconcile_active now w fed :
  world_inv true w → wo_feds w !! key = Some fed → fe_Deleting fed = false → FederationFinalizer ∈ fe_Finalizers fed →
  succeeds (Reconcile visit now namespace name) w (λ w' _,
    settled key w w' ∧ ∃ st, wo_feds w' !! key = Some (set_fe_Status st fed)).
Proof.
  intros Hinv E Hd Hin. assert (fed_key fed = key) as Hk by (destruct Hinv as (_ & Hf & _); by apply Hf in E as (? & _)).
  unfold settled. rewrite E, Hd. apply succeeds_bind, succeeds_call. simpl. rewrite E, Hd.
  unfold ContainsFinalizer, contains. rewrite bool_decide_eq_true_2 by done. simpl.
  destruct (sp_Paused (fe_Spec fed)).
  { apply succeeds_bind, (stopManager_succeeds true); [done|]. apply succeeds_bind, succeeds_call, succeeds_ret. simpl.
    rewrite Hk, lookup_delete_eq, lookup_insert_eq. eauto. }
  rewrite <- Hk in E. pose proof (ensureManager_triple true fed w Hinv E []) as He.
  pose proof Hinv as (_ & _ & _ & Hr). destruct (Hr eq_refl) as [Hu _].
  destruct (ensureManager fed [] w) as [[w' o'] r] eqn:Eens.
  destruct He as ((Hp & _) & Hfs & Hnone & Hsome). destruct r as [[]|]; [|by destruct (Hnone eq_refl)].
  destruct (Hsome eq_refl) as (m & Hm & Hok & Hf).
  pose proof (ensureManager_oracle fed [] w) as Ho. rewrite Eens in Ho. simpl in Ho. subst o'.
  apply succeeds_bind, succeeds_try. exists w', tt. split; [done|]. split; [done|].
  apply succeeds_bind, succeeds_read. rewrite Hm. apply succeeds_bind, succeeds_call, succeeds_ret. simpl.
  rewrite Hk, lookup_insert_eq in *. split; [|by eexists]. exists m. eexists. split_and!; try done. by apply Hf; left.
Qed.

Lemma inv_after now w w' o r :
  world_inv true w → Reconcile visit now namespace name [] w = (w', o, r) → world_inv true w'.
Proof. intros H E. pose proof (Reconcile_triple visit now true namespace name w H []) as Ht. by rewrite E in Ht. Qed.

(** What settles a resource settles one that asks for the same. *)
Lemma settled_ext w1 w2 w' fed1 fed2 :
  wo_feds w1 !! key = Some fed1 → wo_feds w2 !! key = Some fed2 → fe_Deleting fed1 = false → fe_Deleting fed2 = false →
  fe_Spec fed2 = fe_Spec fed1 → fe_Namespace fed2 = fe_Namespace fed1 → fe_Generation fed2 = fe_Generation fed1 →
  settled key w2 w' → settled key w1 w'.
Proof. unfold settled, follows. by intros -> -> -> -> -> -> ->. Qed.

Lemma settle_active now w w1 fed fed1 :
  world_inv true w1 → wo_feds w !! key = Some fed → wo_feds w1 !! key = Some fed1 →
  fe_Deleting fed = false → fe_Deleting fed1 = false → fe_Spec fed1 = fe_Spec fed →
  fe_Namespace fed1 = fe_Namespace fed → fe_Generation fed1 = fe_Generation fed →
  FederationFinalizer ∈ fe_Finalizers fed1 → succeeds (Reconcile visit now namespace name) w1 (λ w' _, settled key w w').
Proof.
  intros Hinv E E1 Hd Hd1 Hs Hns Hg Hin. destruct (Reconcile_active now w1 fed1 Hinv E1 Hd1 Hin) as (w2 & r & Er & Hset & _).
  exists w2, r. split; [done|]. by apply (settled_ext w w1 w2 fed fed1).
Qed.

Lemma RemoveFinalizer_spec l f : f ∉ RemoveFinalizer l f.
Proof. unfold RemoveFinalizer. rewrite list_elem_of_filter. naive_solver. Qed.

Lemma RemoveFinalizer_id l f : f ∉ l → RemoveFinalizer l f = l.
Proof.
  unfold RemoveFinalizer. induction l as [|x l IH]; [done|]. intros Hn%not_elem_of_cons. destruct Hn as [Hx Hl].
  rewrite filter_cons_True by done. by rewrite IH.
Qed.

Lemma settle_deleting now w w1 fed :
  let l := RemoveFinalizer (fe_Finalizers fed) FederationFinalizer in
  world_inv true w1 → wo_feds w !! key = Some fed → fe_Deleting fed = true →
  wo_feds w1 !! key = (if bool_decide (l = []) then None else Some (set_fe_Finalizers l fed)) →
  succeeds (Reconcile visit now namespace name) w1 (λ w' _, settled key w w').
Proof.
  intros l Hinv E Hd E1. unfold settled. rewrite E, Hd. case_bool_decide as Hl.
  - destruct (Reconcile_absent now w1 Hinv E1) as (w2 & r & Er & ->). eexists _, r. split; [done|].
    simpl. rewrite lookup_delete_eq, E1. by split_and!.
  - destruct (Reconcile_deleting now w1 _ Hinv E1 Hd) as (w2 & r & Er & ->). eexists _, r. split; [done|].
    simpl. rewrite (RemoveFinalizer_id l), bool_decide_eq_false_2, lookup_delete_eq, lookup_insert_eq
      by (done || apply RemoveFinalizer_spec).
    split_and!; [done| |].
    + intros fed' [= <-]. apply RemoveFinalizer_spec.
    + intros Hf. destruct Hl. unfold l. by rewrite Hf.
Qed.

End convergence.

(** ** Examples *)

Definition in_order : visiting := λ V m, map_to_list m.
Definition one_peer : FederationSpec := Default (sample_spec [sample_peer "rome" None]).
Definition tls_of (secret : string) : FederationTLS :=
  mkFederationTLS (Some true) (Some (mkSecretReference secret "")) None "" false.
Definition two_peers : FederationSpec := Default (sample_spec [sample_peer "rome" None; sample_peer "oslo" (Some (tls_of "ca"))]).

Definition created (spec : FederationSpec) : world :=
  set_feds (<[namespaced "ns" "fed" := new_federation "ns" "fed" spec]> ∅) (initial_world (Some [])).
Definition reconciled (w : world) : world := (Reconcile in_order 0 "ns" "fed" [] w).1.1.
(** An update of the specification, and a change of the Secrets. *)
Definition edited (spec : FederationSpec) (w : world) : world :=
  set_feds (alter (λ fed, set_fe_Spec spec (set_fe_Generation (fe_Generation fed + 1) fed)) (namespaced "ns" "fed") (wo_feds w)) w.
Definition with_secret (readable : bool) (ca : string) (w : world) : world :=
  mkWorld (wo_feds w) {[ namespaced "ns" "ca" := {[ "ca.crt"%string := ca ]} ]} (if readable then ∅ else {[ namespaced "ns" "ca" ]})
    (wo_managers w) (wo_grpc w) (wo_panicked w).
Definition managed_peers (w : world) : option (list (string * string)) :=
  (λ m, (λ p, (pi_Name p, pi_CACert p)) <$> cf_Peers (mg_config m)) <$> GetManager "ns" "fed" w.

Lemma created_history readable spec r : admit_create r = Some spec → ticking spec → history in_order readable (created spec).
Proof. intros H Ht. exists (Some []). eapply rtc_once, (ws_create in_order readable "ns" "fed" r spec); [done|exact H|exact Ht]. Qed.



(** The webhook admits a health-check interval of zero, and the reconciliation
    that starts the manager panics. *)
Definition zero_interval : FederationSpec :=
  let s := Default (sample_spec [sample_peer "rome" None]) in
  mkFederationSpec (sp_Mode s) (sp_FederationID s) (sp_LocalMember s) (sp_Members s) (sp_Sync s)
    (sp_ConflictResolution s) (Some (mkFederationHealthCheck (Some 0) None 0 0)) (sp_SplitBrain s) (sp_Paused s).

Example zero_interval_panics :
  is_Some (admit_create zero_interval) ∧
  from_option (λ spec, wo_panicked (reconciled (reconciled (created spec)))) false (admit_create zero_interval) = true.
Proof. split; [apply (bool_decide_unpack _)|]; by vm_compute. Qed.

(** A new specification is normally picked up, with its credentials. *)
Example update_is_followed :
  managed_peers (reconciled (edited two_peers (with_secret true "PEM" (reconciled (reconciled (created one_peer)))))) =
    Some [("rome", ""); ("oslo", "PEM")]%string.
Proof. by vm_compute. Qed.

(** When a Secret cannot be read at that moment, the status still reports the new
    generation as observed: the reconciliations that follow skip the update, and
    the manager keeps the old peers although the Secret is readable again. *)
Example failed_update_is_never_retried :
  let w := reconciled (edited two_peers (with_secret false "PEM" (reconciled (reconciled (created one_peer))))) in
  let w' := reconciled (reconciled (with_secret true "PEM" w)) in
  managed_peers w' = Some [("rome", "")]%string ∧
  (λ f, (st_ObservedGeneration (fe_Status f), fe_Generation f)) <$> wo_feds w' !! "ns/fed"%string = Some (2, 2).
Proof. by vm_compute. Qed.

(** Credentials are read when the specification changes, not when a Secret does. *)
Example rotated_secret_is_not_loaded :
  let w := reconciled (reconciled (with_secret true "OLD" (created two_peers))) in
  managed_peers w = Some [("rome", ""); ("oslo", "OLD")]%string ∧
  managed_peers (reconciled (with_secret true "NEW" w)) = Some [("rome", ""); ("oslo", "OLD")]%string.
Proof. by vm_compute. Qed.

(** The manager is registered with the gRPC server before it is started, when it
    has no server yet: no federation service is ever offered. *)
Lemma no_service_is_registered spec creds services :
  Manager_RegisterServer (NewManagerFromCRDWithCreds spec creds) services = services.
Proof. done. Qed.
