(* ===== verification/FedApplier.v ===== *)
(** * Applying federated changes to the cluster
    (src/internal/operator/controller/federation_applier.go, and the removal of
    federated resources in novaedgeremotecluster_controller.go)

    The applier writes the resources other clusters send through the Kubernetes
    API. An object has its metadata and the rest of its fields, of type [C].
    Decoding JSON is an argument: a new object from its text ([decode]), and the
    fields of one object over those of another ([overlay], which is what
    [json.Unmarshal] into an existing object does). *)

From S2P Require Import Prelude FedTypes KubeApi.
Open Scope Z_scope.
Open Scope go_scope.

Definition FederationOriginLabel : string := "novaedge.io/federation-origin".

(** Metadata the API server sets is absent ([None]) in an object of a user. *)
Record ObjectMeta := mkObjectMeta {
  om_Name : string;
  om_Namespace : string;
  om_Labels : gmap string string;
  om_UID : option Z;
  om_ResourceVersion : option Z;
}.

#[global] Instance ObjectMeta_eq_dec : EqDecision ObjectMeta.
Proof. solve_decision. Defined.

Record object (C : Type) := mkObject { ob_Meta : ObjectMeta; ob_Content : C }.
Arguments mkObject {C}. Arguments ob_Meta {C}. Arguments ob_Content {C}.

#[global] Instance object_eq_dec C `{EqDecision C} : EqDecision (object C).
Proof. solve_decision. Defined.

Definition origin {C} (o : object C) : string := default "" (om_Labels (ob_Meta o) !! FederationOriginLabel).

(** The cluster: the objects by kind and name, and the counter from which the
    API server takes identifiers and versions. *)
Definition object_key : Type := string * (string * string).
Record cluster (C : Type) := mkCluster { cl_objects : gmap object_key (object C); cl_counter : Z }.
Arguments mkCluster {C}. Arguments cl_objects {C}. Arguments cl_counter {C}.

(** The applier, with the cluster it writes to. *)
Record applier (C : Type) := mkApplier {
  ap_cluster : cluster C;
  ap_serviceEndpoints : gmap string ServiceEndpoints;
}.
Arguments mkApplier {C}. Arguments ap_cluster {C}. Arguments ap_serviceEndpoints {C}.

Section applier.
Context {C : Type} `{EqDecision C}.
Context (decode : string → string → option (object C)) (overlay : C → C → C).
Context (decodeEndpoints : string → option ServiceEndpoints).

#[local] Notation api := (api (applier C)).
#[local] Notation "'do' x <- m ; k" := (bind m (λ x, k)) (at level 199, x name, m at level 100, k at level 199).

Definition on_objects (f : gmap object_key (object C) → gmap object_key (object C)) (a : applier C) : applier C :=
  mkApplier (mkCluster (f (cl_objects (ap_cluster a))) (cl_counter (ap_cluster a) + 1)) (ap_serviceEndpoints a).

(** ** The API server *)

Definition set_server_meta (uid rv : option Z) (o : object C) : object C :=
  mkObject (mkObjectMeta (om_Name (ob_Meta o)) (om_Namespace (ob_Meta o)) (om_Labels (ob_Meta o)) uid rv) (ob_Content o).

Definition obj_key (kind : string) (o : object C) : object_key := (kind, (om_Namespace (ob_Meta o), om_Name (ob_Meta o))).

Definition Get (k : object_key) : api (option (object C)) := call (λ a, (a, cl_objects (ap_cluster a) !! k)).

(** [Create] refuses an object with a version; the server chooses identifier and
    version. *)
Definition Create (kind : string) (o : object C) : api unit := λ oracle a,
  match om_ResourceVersion (ob_Meta o) with
  | Some _ => fail oracle a
  | None =>
      let n := Some (cl_counter (ap_cluster a)) in
      call (λ a, (on_objects <[obj_key kind o := set_server_meta n n o]> a, tt)) oracle a
  end.

(** [Update] refuses an object of another version, or of another identity, than the
    stored one. *)
Definition Update (kind : string) (o : object C) : api unit := λ oracle a,
  match cl_objects (ap_cluster a) !! obj_key kind o with
  | None => fail oracle a
  | Some stored =>
      if decide (om_ResourceVersion (ob_Meta o) = om_ResourceVersion (ob_Meta stored) ∧
                 (om_UID (ob_Meta o) = None ∨ om_UID (ob_Meta o) = om_UID (ob_Meta stored))) then
        call (λ a, (on_objects <[obj_key kind o :=
          set_server_meta (om_UID (ob_Meta stored)) (Some (cl_counter (ap_cluster a))) o]> a, tt)) oracle a
      else fail oracle a
  end.

Definition Delete (k : object_key) : api unit := call (λ a, (on_objects (delete k) a, tt)).

(** [controllerutil.CreateOrUpdate]: the object as it is stored, or the given one
    when there is none, is changed by [f]; nothing is written when that leaves
    it the same. *)
Definition CreateOrUpdate (kind : string) (o : object C) (f : object C → object C) : api unit :=
  do found <- Get (obj_key kind o);
  match found with
  | None => Create kind (f o)
  | Some existing => if decide (f existing = existing) then ret tt else Update kind (f existing)
  end.

(** ** Writing *)

(** [json.Unmarshal] of an object into another one: a field that is not in the
    text keeps its value, and the entries of a map are added to those it has. *)
Definition unmarshal_over (new old : object C) : object C :=
  let n := ob_Meta new in
  let m := ob_Meta old in
  mkObject
    (mkObjectMeta (if str_empty (om_Name n) then om_Name m else om_Name n)
       (if str_empty (om_Namespace n) then om_Namespace m else om_Namespace n)
       (om_Labels n ∪ om_Labels m)
       (match om_UID n with Some u => Some u | None => om_UID m end)
       (match om_ResourceVersion n with Some v => Some v | None => om_ResourceVersion m end))
    (overlay (ob_Content new) (ob_Content old)).

Definition set_identity (key : ResourceKey) (o : object C) : object C :=
  let m := ob_Meta o in
  mkObject (mkObjectMeta (rk_Name key) (rk_Namespace key) (om_Labels m) (om_UID m) (om_ResourceVersion m)) (ob_Content o).

Definition set_label (l v : string) (o : object C) : object C :=
  let m := ob_Meta o in
  mkObject (mkObjectMeta (om_Name m) (om_Namespace m) (<[l := v]> (om_Labels m)) (om_UID m) (om_ResourceVersion m)) (ob_Content o).

Definition clear_version (o : object C) : object C := set_server_meta (om_UID (ob_Meta o)) None o.

(** The mutation of [createOrUpdate]. *)
Definition mutate (key : ResourceKey) (desired stub : object C) : object C :=
  set_label FederationOriginLabel "true" (set_identity key (unmarshal_over desired stub)).

Definition createOrUpdate (key : ResourceKey) (obj : object C) : api unit :=
  CreateOrUpdate (rk_Kind key) (clear_version (set_identity key obj)) (mutate key obj).

Definition resource_key (key : ResourceKey) : object_key := (rk_Kind key, (rk_Namespace key, rk_Name key)).

(** [deleteResource]: an object without the label is left alone. *)
Definition deleteResource (key : ResourceKey) : api unit :=
  do found <- Get (resource_key key);
  match found with
  | None => ret tt
  | Some obj => if str_empty (origin obj) then ret tt else Delete (resource_key key)
  end.

(** [applyCRD], [applyConfigMap] and [applySecret], which differ in the type of the
    object only. *)
Definition applyCRD (key : ResourceKey) (changeType : ChangeType) (data : string) : api unit :=
  match changeType with
  | ChangeTypeDeleted => deleteResource key
  | _ => match decode (rk_Kind key) data with
         | None => fail
         | Some obj => createOrUpdate key obj
         end
  end.

Definition cache_key (namespace name : string) : string := namespace +:+ "/" +:+ name.
Definition set_endpoints (f : gmap string ServiceEndpoints → gmap string ServiceEndpoints) : api unit := λ oracle a,
  (mkApplier (ap_cluster a) (f (ap_serviceEndpoints a)), oracle, Some tt).

Definition applyServiceEndpoints (key : ResourceKey) (changeType : ChangeType) (data : string) : api unit :=
  let cacheKey := cache_key (rk_Namespace key) (rk_Name key) in
  match changeType with
  | ChangeTypeDeleted => set_endpoints (delete cacheKey)
  | _ => match decodeEndpoints data with
         | None => fail
         | Some endpoints => set_endpoints <[cacheKey := endpoints]>
         end
  end.

Definition GetCachedServiceEndpoints (namespace serviceName : string) (a : applier C) : option ServiceEndpoints :=
  ap_serviceEndpoints a !! cache_key namespace serviceName.

Definition written_kinds : list string :=
  ["ProxyGateway"; "ProxyRoute"; "ProxyBackend"; "ProxyPolicy"; "ConfigMap"; "Secret"].

(** [Apply]; an error is only logged. *)
Definition Apply (key : ResourceKey) (changeType : ChangeType) (data : string) : api (option unit) :=
  if contains written_kinds (rk_Kind key) then attempt (applyCRD key changeType data)
  else if str_eqb (rk_Kind key) "ServiceEndpoints" then attempt (applyServiceEndpoints key changeType data)
  else ret (Some tt).

(** ** Removal of federated resources *)

Definition has_label (o : object C) : Prop := is_Some (om_Labels (ob_Meta o) !! FederationOriginLabel).
#[global] Instance has_label_dec o : Decision (has_label o).
Proof. unfold has_label. apply _. Defined.

(** The listed keys of one kind. *)
Definition labelled (kind : string) (a : applier C) : list object_key :=
  fst <$> filter (λ kv, kv.1.1 = kind ∧ has_label kv.2) (map_to_list (cl_objects (ap_cluster a))).

(** [deleteAllWithLabel]: the number of objects that were deleted; an object that
    cannot be deleted is skipped. *)
Fixpoint delete_items (items : list object_key) (deleted : Z) : api Z :=
  match items with
  | [] => ret deleted
  | k :: items =>
      do r <- attempt (Delete k);
      delete_items items (match r with Some _ => deleted + 1 | None => deleted end)
  end.
Definition deleteAllWithLabel (kind : string) : api Z :=
  do items <- call (λ a, (a, labelled kind a));
  delete_items items 0.

(** [deleteFederatedResources]: the kinds whose listing failed. *)
Fixpoint delete_kinds (kinds : list string) (errs : list string) : api (list string) :=
  match kinds with
  | [] => ret errs
  | kind :: kinds =>
      do r <- attempt (deleteAllWithLabel kind);
      delete_kinds kinds (match r with Some _ => errs | None => errs ++ [kind] end)
  end.
Definition deleteFederatedResources : api (list string) := delete_kinds written_kinds [].

(** ** Applying one change *)

Definition objects (a : applier C) : gmap object_key (object C) := cl_objects (ap_cluster a).

(** An object as its author writes it, without what the API server sets. *)
Definition unversioned (o : object C) : Prop := om_UID (ob_Meta o) = None ∧ om_ResourceVersion (ob_Meta o) = None.

(** The object that is stored for a written one: labels and fields over those of
    the object that is there, or of itself. *)
Definition merged (desired : object C) (existing : option (object C)) (o : object C) : Prop :=
  let base := default desired existing in
  om_Labels (ob_Meta o) = <[FederationOriginLabel := "true"%string]> (om_Labels (ob_Meta desired) ∪ om_Labels (ob_Meta base)) ∧
  ob_Content o = overlay (ob_Content desired) (ob_Content base).

Lemma createOrUpdate_succeeds key obj a :
  unversioned obj →
  succeeds (createOrUpdate key obj) a (λ a' _,
    ap_serviceEndpoints a' = ap_serviceEndpoints a ∧
    ∃ o, objects a' = <[resource_key key := o]> (objects a) ∧ merged obj (objects a !! resource_key key) o).
Proof.
  intros [Hu Hv]. apply succeeds_bind, succeeds_call. cbn [fst snd].
  change (obj_key (rk_Kind key) (clear_version (set_identity key obj))) with (resource_key key).
  fold (objects a). destruct (objects a !! resource_key key) as [existing|] eqn:E.
  - case_decide as Hsame.
    + apply succeeds_ret. split; [done|]. exists existing. rewrite insert_id by done. split; [done|].
      unfold merged. simpl. rewrite <- Hsame at 1 3. done.
    + unfold succeeds, Update. change (obj_key (rk_Kind key) (mutate key obj existing)) with (resource_key key).
      fold (objects a). rewrite E. cbn [mutate set_label set_identity unmarshal_over ob_Meta om_ResourceVersion om_UID]. rewrite Hu, Hv.
      rewrite decide_True by auto. eexists _, tt. split; [reflexivity|]. split; [done|]. eexists. split; [reflexivity|]. done.
  - unfold succeeds, Create. cbn [mutate set_label set_identity unmarshal_over ob_Meta om_ResourceVersion clear_version set_server_meta].
    rewrite Hv. eexists _, tt. split; [reflexivity|]. split; [done|]. eexists. split; [reflexivity|]. done.
Qed.

Lemma deleteResource_succeeds key a :
  succeeds (deleteResource key) a (λ a' _,
    ap_serviceEndpoints a' = ap_serviceEndpoints a ∧
    objects a' = match objects a !! resource_key key with
                 | Some o => if str_empty (origin o) then objects a else delete (resource_key key) (objects a)
                 | None => objects a
                 end).
Proof.
  apply succeeds_bind, succeeds_call. cbn [fst snd]. fold (objects a).
  destruct (objects a !! resource_key key) as [o|]; [|by apply succeeds_ret].
  destruct (str_empty (origin o)); [by apply succeeds_ret|]. by apply succeeds_call.
Qed.

Lemma merged_origin desired existing o : merged desired existing o → origin o = "true"%string.
Proof. intros [H _]. unfold origin. by rewrite H, lookup_insert_eq. Qed.

Lemma succeeds_attempt_fail {A} a (Q : applier C → option A → Prop) : Q a None → succeeds (attempt fail) a Q.
Proof. intros H. by exists a, None. Qed.

(** The outcome of a change of a written kind. *)
Definition change_outcome (key : ResourceKey) (changeType : ChangeType) (data : string) (a a' : applier C) (r : option unit) : Prop :=
  ap_serviceEndpoints a' = ap_serviceEndpoints a ∧
  match changeType, decode (rk_Kind key) data, objects a !! resource_key key with
  | ChangeTypeDeleted, _, Some o =>
      objects a' = if str_empty (origin o) then objects a else delete (resource_key key) (objects a)
  | ChangeTypeDeleted, _, None => objects a' = objects a
  | _, Some obj, existing =>
      ∃ o, objects a' = <[resource_key key := o]> (objects a) ∧ merged obj existing o ∧ origin o = "true"%string
  | _, None, _ => a' = a ∧ r = None
  end.

Lemma applyCRD_succeeds key changeType data a :
  (∀ o, decode (rk_Kind key) data = Some o → unversioned o) →
  succeeds (attempt (applyCRD key changeType data)) a (change_outcome key changeType data a).
Proof.
  intros Hdata. unfold applyCRD, change_outcome.
  assert (changeType ≠ ChangeTypeDeleted → succeeds (attempt match decode (rk_Kind key) data with Some obj => createOrUpdate key obj | None => fail end) a
    (λ a' r, ap_serviceEndpoints a' = ap_serviceEndpoints a ∧ match decode (rk_Kind key) data with
       | Some obj => ∃ o, objects a' = <[resource_key key := o]> (objects a) ∧ merged obj (objects a !! resource_key key) o ∧ origin o = "true"%string
       | None => a' = a ∧ r = None end)) as Hw.
  { intros _. destruct (decode (rk_Kind key) data) as [obj|] eqn:E; [|by apply succeeds_attempt_fail].
    apply succeeds_attempt. destruct (createOrUpdate_succeeds key obj a) as (a' & [] & Ea & He & o & Ho & Hm); [by apply Hdata|].
    exists a', tt. split; [done|]. split; [done|]. exists o. split_and!; [done|done|by eapply merged_origin]. }
  destruct changeType; [by apply Hw|by apply Hw|]. clear Hw. apply succeeds_attempt.
  destruct (deleteResource_succeeds key a) as (a' & [] & Ea & He & Ho). exists a', tt. split; [done|]. split; [done|].
  by destruct (decode (rk_Kind key) data), (objects a !! resource_key key).
Qed.

(** What one federated change does to the cluster when no call fails. A
    resource that is created or updated elsewhere is stored under its own name,
    marked as federated, with its labels and fields over those of the object
    that was there, and no other object is touched. A deletion removes the
    object if it is marked, and leaves it alone otherwise. Endpoints of a service
    go to the cache and nowhere else. *)
Theorem applied_change_is_stored (key : ResourceKey) (changeType : ChangeType) (data : string) (a : applier C)
    (Hdata : ∀ o, decode (rk_Kind key) data = Some o → unversioned o) :
  succeeds (Apply key changeType data) a (λ a' r,
    (rk_Kind key ∈ written_kinds → change_outcome key changeType data a a' r) ∧
    (rk_Kind key ∉ written_kinds → objects a' = objects a) ∧
    (rk_Kind key = "ServiceEndpoints"%string → ∀ se, decodeEndpoints data = Some se →
       GetCachedServiceEndpoints (rk_Namespace key) (rk_Name key) a' =
         if decide (changeType = ChangeTypeDeleted) then None else Some se)).
Proof.
  unfold Apply, contains. case_bool_decide as Hk.
  { destruct (applyCRD_succeeds key changeType data a Hdata) as (a' & r & E & H). exists a', r. split; [done|].
    split_and!; [done|done|]. intros Hse. rewrite Hse in Hk.
    assert (bool_decide ("ServiceEndpoints"%string ∈ written_kinds) = false) as Hf by reflexivity. by apply bool_decide_eq_false in Hf. }
  unfold str_eqb. case_bool_decide as Hse; [|apply succeeds_ret; by split_and!].
  unfold applyServiceEndpoints, GetCachedServiceEndpoints, set_endpoints. destruct changeType; simpl.
  1,2: destruct (decodeEndpoints data) as [se|]; [|by apply succeeds_attempt_fail].
  1,2: eexists _, _; split; [reflexivity|]; split_and!; [done|done|]; intros _ se' [= <-]; apply lookup_insert_eq.
  eexists _, _. split; [reflexivity|]. split_and!; [done|done|]. intros _ se' _. apply lookup_delete_eq.
Qed.

(** ** Objects that are not federated *)

(** What happens to the applier: changes arrive, and a remote cluster is removed. *)
Inductive applier_op :=
  | OpApply (key : ResourceKey) (changeType : ChangeType) (data : string)
  | OpCleanup.
Definition run_op (op : applier_op) : api unit :=
  match op with
  | OpApply key changeType data => do _ <- Apply key changeType data; ret tt
  | OpCleanup => do _ <- deleteFederatedResources; ret tt
  end.

(** A change that writes the object of key [k]. *)
Definition writes (k : object_key) (op : applier_op) : Prop :=
  match op with
  | OpApply key changeType _ => changeType ≠ ChangeTypeDeleted ∧ resource_key key = k
  | OpCleanup => False
  end.

Section untouched.
Context (k : object_key) (o : object C).
(** The object is there and not marked. *)
Definition keeps (a : applier C) : Prop := objects a !! k = Some o ∧ ¬ has_label o.
#[local] Notation kept m a := (triple m a (λ a' _, keeps a')).

Lemma kept_bind {A B} (m : api A) (f : A → api B) a :
  kept m a → (∀ x a', keeps a' → kept (f x) a') → kept (bind m f) a.
Proof. intros H Hf. apply triple_bind. eapply triple_mono; [exact H|]. intros a' [x|] Ha; [by apply Hf|done]. Qed.
Lemma kept_attempt {A} (m : api A) a : kept m a → kept (attempt m) a.
Proof. intros H oracle. specialize (H oracle). unfold attempt. by destruct (m oracle a) as [[a' o'] r]. Qed.
Lemma kept_ret {A} (x : A) a : keeps a → kept (ret x) a.
Proof. intros H. by apply triple_ret. Qed.
Lemma kept_fail {A} a : keeps a → triple (A := A) fail a (λ a' _, keeps a').
Proof. intros H. by apply triple_fail. Qed.

(** Writing or deleting another object. *)
Lemma keeps_on_objects f a : (objects a !! k = Some o → f (objects a) !! k = Some o) → keeps a → keeps (on_objects f a).
Proof. intros Hf [H1 H2]. split; [by apply Hf|done]. Qed.

Lemma Delete_kept k' a : keeps a → k' ≠ k → kept (Delete k') a.
Proof.
  intros H Hne. apply triple_call; [done|]. apply keeps_on_objects; [|done]. intros. by rewrite lookup_delete_ne.
Qed.

Lemma Create_kept kind x a : keeps a → obj_key kind x ≠ k → kept (Create kind x) a.
Proof.
  intros H Hne oracle. unfold Create. destruct (om_ResourceVersion (ob_Meta x)); [done|].
  apply triple_call; [done|]. apply keeps_on_objects; [|done]. intros. by rewrite lookup_insert_ne.
Qed.

Lemma Update_kept kind x a : keeps a → obj_key kind x ≠ k → kept (Update kind x) a.
Proof.
  intros H Hne oracle. unfold Update. destruct (_ !! _); [|done]. case_decide; [|done].
  apply triple_call; [done|]. apply keeps_on_objects; [|done]. intros. by rewrite lookup_insert_ne.
Qed.

Lemma createOrUpdate_kept key obj a : keeps a → resource_key key ≠ k → kept (createOrUpdate key obj) a.
Proof.
  intros H Hne. apply kept_bind; [by apply triple_call|]. intros found a' Ha'.
  destruct found; [case_decide; [by apply kept_ret|by apply Update_kept]|by apply Create_kept].
Qed.

Lemma deleteResource_kept key a : keeps a → kept (deleteResource key) a.
Proof.
  intros [Ho Hl]. apply triple_bind, triple_call; [done|]. cbn [fst snd].
  destruct (cl_objects (ap_cluster a) !! resource_key key) as [x|] eqn:E; [|by apply kept_ret].
  destruct (str_empty (origin x)) eqn:Ex; [by apply kept_ret|]. apply Delete_kept; [done|]. intros Hk.
  rewrite Hk in E. unfold objects in Ho. rewrite Ho in E. injection E as <-. destruct Hl. unfold has_label, origin, str_empty in *.
  destruct (om_Labels _ !! _); [by eexists|]. by apply bool_decide_eq_false in Ex.
Qed.

Lemma delete_items_kept items n a : keeps a → k ∉ items → kept (delete_items items n) a.
Proof.
  revert n a. induction items as [|k' items IH]; intros n a H Hn; [by apply kept_ret|].
  apply not_elem_of_cons in Hn as [Hk Hn]. apply kept_bind; [by apply kept_attempt, Delete_kept|].
  intros r a' Ha'. by apply IH.
Qed.

Lemma deleteAllWithLabel_kept kind a : keeps a → kept (deleteAllWithLabel kind) a.
Proof.
  intros H. apply triple_bind, triple_call; [done|]. cbn [fst snd]. apply delete_items_kept; [done|].
  unfold labelled. rewrite list_elem_of_fmap. intros ([k' x] & -> & [[_ Hx] Hin]%list_elem_of_filter).
  apply elem_of_map_to_list in Hin. destruct H as [Ho Hl]. unfold objects in Ho. simpl in *. by simplify_eq.
Qed.

Lemma delete_kinds_kept kinds errs a : keeps a → kept (delete_kinds kinds errs) a.
Proof.
  revert errs a. induction kinds as [|kind kinds IH]; intros errs a H; [by apply kept_ret|].
  apply kept_bind; [by apply kept_attempt, deleteAllWithLabel_kept|]. intros r a' Ha'. by apply IH.
Qed.

Lemma run_op_kept op a : keeps a → ¬ writes k op → kept (run_op op) a.
Proof.
  intros H Hw. destruct op as [key changeType data|]; cbn [run_op].
  - apply kept_bind; [|intros x a' Ha'; by apply kept_ret]. unfold Apply. destruct (contains _ _).
    + apply kept_attempt. unfold applyCRD. destruct changeType; [| |by apply deleteResource_kept].
      all: destruct (decode _ _); [|by apply kept_fail].
      all: apply createOrUpdate_kept; [done|]; intros Hk; by apply Hw.
    + destruct (str_eqb _ _); [|by apply kept_ret]. apply kept_attempt. unfold applyServiceEndpoints.
      destruct changeType; [destruct (decodeEndpoints data); [|by apply kept_fail]..|]; by intros oracle.
  - apply kept_bind; [by apply delete_kinds_kept|]. intros x a' Ha'. by apply kept_ret.
Qed.
End untouched.

(** C16: Objects that were not federated stay as they are. Whatever changes arrive,
    whenever remote clusters are removed and whatever calls fail, an object
    without the federation mark is neither changed nor deleted, provided no other
    cluster creates or updates a resource of the same kind and name. *)
Theorem local_objects_are_safe (ops : list applier_op) (k : object_key) (o : object C) (a : applier C)
    (Ho : objects a !! k = Some o) (Hlabel : om_Labels (ob_Meta o) !! FederationOriginLabel = None)
    (Hops : Forall (λ op, ¬ writes k op) ops) :
  triple (for_each run_op ops) a (λ a' _, objects a' !! k = Some o).
Proof.
  assert (keeps k o a) as H. { split; [done|]. unfold has_label. rewrite Hlabel. by intros [? ?]. }
  clear Ho Hlabel. apply triple_mono with (P := λ a' _, keeps k o a'); [|by intros a' _ [? _]].
  revert a H. induction Hops as [|op ops Hop _ IH]; intros a H; [by apply kept_ret|].
  apply kept_bind; [by apply run_op_kept|]. intros _ a' Ha'. by apply IH.
Qed.

(** ** Completeness of the removal *)

Lemma delete_items_succeeds items n a :
  succeeds (delete_items items n) a (λ a' r,
    r = n + Z.of_nat (length items) ∧ ap_serviceEndpoints a' = ap_serviceEndpoints a ∧
    ∀ k, objects a' !! k = if decide (k ∈ items) then None else objects a !! k).
Proof.
  revert n a. induction items as [|k' items IH]; intros n a.
  { apply succeeds_ret. split_and!; [simpl; lia|done|]. intros k. by rewrite decide_False by apply not_elem_of_nil. }
  apply succeeds_bind, succeeds_attempt, succeeds_call. cbn [fst snd].
  destruct (IH (n + 1) (on_objects (delete k') a)) as (a' & r & E & -> & He & Ho). exists a'. eexists. split; [exact E|].
  split_and!; [simpl; lia|done|]. intros k. rewrite Ho. cbn. destruct (decide (k = k')) as [->|Hne].
  - rewrite lookup_delete_eq, (decide_True (P := k' ∈ k' :: items)) by left. by destruct (decide _).
  - rewrite lookup_delete_ne by done. destruct (decide (k ∈ items)) as [Hin|Hin].
    + by rewrite decide_True by (by right).
    + by rewrite decide_False by (by apply not_elem_of_cons).
Qed.

(** The objects of the given kinds that carry the label. *)
Definition federated (kinds : list string) (kv : object_key * object C) : Prop := kv.1.1 ∈ kinds ∧ has_label kv.2.
#[global] Instance federated_dec kinds kv : Decision (federated kinds kv).
Proof. unfold federated. apply _. Defined.

Lemma deleteAllWithLabel_succeeds kind a :
  succeeds (deleteAllWithLabel kind) a (λ a' r,
    ap_serviceEndpoints a' = ap_serviceEndpoints a ∧ objects a' = filter (λ kv, ¬ federated [kind] kv) (objects a)).
Proof.
  apply succeeds_bind, succeeds_call. cbn [fst snd].
  destruct (delete_items_succeeds (labelled kind a) 0 a) as (a' & r & E & _ & He & Ho). exists a', r. split; [done|].
  split; [done|]. apply map_eq. intros k. rewrite Ho, map_lookup_filter.
  assert (k ∈ labelled kind a ↔ ∃ o, objects a !! k = Some o ∧ federated [kind] (k, o)) as Hin.
  { unfold labelled, federated. rewrite list_elem_of_fmap. split.
    - intros ([k' o] & -> & [[Hk Hl] Hin]%list_elem_of_filter). exists o. simpl in *.
      split; [by apply elem_of_map_to_list|]. rewrite Hk. split; [left|done].
    - intros (o & Ho' & Hk & Hl). exists (k, o). split; [done|]. apply list_elem_of_filter. simpl in *.
      apply list_elem_of_singleton in Hk. split; [done|]. by apply elem_of_map_to_list. }
  destruct (decide (k ∈ labelled kind a)) as [H|H].
  - apply Hin in H as (o & -> & Hf). simpl. by rewrite option_guard_False by auto.
  - destruct (objects a !! k) as [o|] eqn:Eo; [|done]. simpl. rewrite option_guard_True; [done|]. intros Hf. apply H, Hin. eauto.
Qed.

Lemma delete_kinds_succeeds kinds errs a :
  succeeds (delete_kinds kinds errs) a (λ a' r, r = errs ∧
    ap_serviceEndpoints a' = ap_serviceEndpoints a ∧ objects a' = filter (λ kv, ¬ federated kinds kv) (objects a)).
Proof using Type.
  clear decode overlay decodeEndpoints. revert a. induction kinds as [|kind kinds IH]; intros a.
  { apply succeeds_ret. split_and!; [done|done|]. symmetry. apply map_filter_id. intros k o _ [Hk _]. by apply not_elem_of_nil in Hk. }
  apply succeeds_bind, succeeds_attempt. destruct (deleteAllWithLabel_succeeds kind a) as (a1 & n & E1 & He1 & Ho1).
  exists a1, n. split; [done|]. destruct (IH a1) as (a2 & r & E2 & -> & He2 & Ho2). exists a2, errs. split; [done|].
  split_and!; [done|by rewrite He2|]. rewrite Ho2, Ho1, map_filter_filter. apply map_filter_ext. intros k o _.
  unfold federated. simpl. rewrite !elem_of_cons, elem_of_nil. tauto.
Qed.

(** The removal of a remote cluster deletes every federated object, of whatever
    cluster, and no other, when no call fails. *)
Theorem cleanup_is_exact (a : applier C) :
  succeeds deleteFederatedResources a (λ a' errs, errs = [] ∧
    ap_serviceEndpoints a' = ap_serviceEndpoints a ∧ objects a' = filter (λ kv, ¬ federated written_kinds kv) (objects a)).
Proof. apply delete_kinds_succeeds. Qed.
End applier.

(** ** Examples

    ConfigMaps: the fields are the entries of [data], which [json.Unmarshal] adds to
    those that are there. The text of an object is its name in [ex_decode]. *)

Definition config_map (labels data : list (string * string)) (rv : option Z) : object (gmap string string) :=
  mkObject (mkObjectMeta "" "" (list_to_map labels) None rv) (list_to_map data).
Definition ex_decode (kind data : string) : option (object (gmap string string)) :=
  if str_eqb data "ab" then Some (config_map [("app", "x")] [("a", "1"); ("b", "2")] None)
  else if str_eqb data "a" then Some (config_map [] [("a", "3")] None)
  else if str_eqb data "versioned" then Some (config_map [] [("a", "3")] (Some 77))
  else None.
Definition ex_key : ResourceKey := mkResourceKey "ConfigMap" "ns" "settings".
Definition ex_other : ResourceKey := mkResourceKey "ConfigMap" "ns" "other".
Definition empty_cluster : applier (gmap string string) := mkApplier (mkCluster ∅ 1) ∅.
Definition local_cluster : applier (gmap string string) :=
  mkApplier (mkCluster {[ resource_key ex_key := mkObject (mkObjectMeta "settings" "ns" ∅ (Some 1) (Some 1)) {[ "mine"%string := "9"%string ]} ]} 2) ∅.
Definition ex_run (ops : list applier_op) (a : applier (gmap string string)) : applier (gmap string string) :=
  (for_each (run_op ex_decode union (λ _, None)) ops [] a).1.1.
Definition stored (a : applier (gmap string string)) : option (list (string * string)) :=
  (λ o, map_to_list (ob_Content o)) <$> objects a !! resource_key ex_key.

Lemma applied_change_is_stored_witness :
  ∃ a' r, Apply ex_decode union (λ _, None) ex_key ChangeTypeCreated "ab" [] local_cluster = (a', [], Some r) ∧
    change_outcome ex_decode union ex_key ChangeTypeCreated "ab" local_cluster a' r.
Proof.
  destruct (applied_change_is_stored ex_decode union (λ _, None) ex_key ChangeTypeCreated "ab" local_cluster) as (a' & r & E & H & _).
  { intros o [= <-]. by split. }
  exists a', r. split; [exact E|]. apply H. unfold written_kinds. set_solver.
Defined.

Lemma local_objects_are_safe_witness :
  stored (ex_run [OpApply ex_other ChangeTypeUpdated "a"; OpApply ex_key ChangeTypeDeleted ""; OpCleanup] local_cluster) = Some [("mine", "9")]%string.
Proof.
  pose proof (local_objects_are_safe ex_decode union (λ _, None)
    [OpApply ex_other ChangeTypeUpdated "a"; OpApply ex_key ChangeTypeDeleted ""; OpCleanup] (resource_key ex_key)
    (mkObject (mkObjectMeta "settings" "ns" ∅ (Some 1) (Some 1)) {[ "mine"%string := "9"%string ]}) local_cluster) as H.
  unfold stored, ex_run. specialize (H eq_refl eq_refl). assert (Forall (λ op, ¬ writes (resource_key ex_key) op)
    [OpApply ex_other ChangeTypeUpdated "a"; OpApply ex_key ChangeTypeDeleted ""; OpCleanup]) as Hw.
  { apply Forall_cons; split; [by intros [_ [=]]|]. apply Forall_cons; split; [intros [Hx _]; by apply Hx|].
    apply Forall_cons; split; [intros []|constructor]. }
  specialize (H Hw []). destruct (for_each _ _ _ _) as [[a' o'] r]. cbn. by rewrite H.
Defined.

(** A federated update of a resource that exists locally takes it over - local
    fields stay mixed with the new ones -, and the deletion that follows elsewhere
    removes it: the mark protects only what no other cluster ever wrote. *)
Example local_object_is_taken_over :
  stored (ex_run [OpApply ex_key ChangeTypeUpdated "a"] local_cluster) = Some [("mine", "9"); ("a", "3")]%string ∧
  stored (ex_run [OpApply ex_key ChangeTypeUpdated "a"; OpApply ex_key ChangeTypeDeleted ""] local_cluster) = None.
Proof. by vm_compute. Qed.

(** An entry that is removed elsewhere stays. *)
Example removed_entry_stays :
  stored (ex_run [OpApply ex_key ChangeTypeCreated "ab"; OpApply ex_key ChangeTypeUpdated "a"] empty_cluster) =
    Some [("a", "3"); ("b", "2")]%string.
Proof. by vm_compute. Qed.

(** An object with the version the other cluster gave it is never written: the
    mutation puts that version back after it was cleared, and the API server
    refuses it. *)
Example versioned_object_is_refused :
  stored (ex_run [OpApply ex_key ChangeTypeCreated "versioned"] empty_cluster) = None ∧
  stored (ex_run [OpApply ex_key ChangeTypeUpdated "versioned"] local_cluster) = Some [("mine", "9")]%string.
Proof. by vm_compute. Qed.
