(* ===== verification/RemoteCluster.v ===== *)
(** * The controller of remote clusters
    (src/internal/operator/controller/novaedgeremotecluster_controller.go and
    tunnel_manager.go)

    The reconciliation of a [NovaEdgeRemoteCluster]: registration, status, and the
    cleanup of a deleted one, which removes the federated resources with the
    operations of the applier. *)

From S2P Require Import Prelude FedTypes KubeApi FedApplier RemoteAgents.
Open Scope Z_scope.
Open Scope go_scope.

Definition remoteClusterFinalizer : string := "novaedge.io/remote-cluster-finalizer".

Record NovaEdgeRemoteCluster := mkRemoteCluster {
  nr_Name : string;
  nr_Deleting : bool;
  nr_Finalizers : list string;
  nr_Paused : bool;
  nr_HealthInterval : option Z;
  nr_Spec : RemoteClusterSpec;
  nr_Status : RemoteClusterStatus;
}.
Definition RemoteCluster_eta (c : NovaEdgeRemoteCluster) : NovaEdgeRemoteCluster :=
  mkRemoteCluster (nr_Name c) (nr_Deleting c) (nr_Finalizers c) (nr_Paused c) (nr_HealthInterval c) (nr_Spec c) (nr_Status c).
Definition set_nr_Finalizers : list string → NovaEdgeRemoteCluster → NovaEdgeRemoteCluster := ltac:(field_setter RemoteCluster_eta nr_Finalizers).
Definition set_nr_Status : RemoteClusterStatus → NovaEdgeRemoteCluster → NovaEdgeRemoteCluster := ltac:(field_setter RemoteCluster_eta nr_Status).

(** ** Tunnels *)

(** [InMemoryTunnelManager]: the names of the tunnels. *)
Definition InMemoryTunnelManager : Type := gset string.
Definition NewInMemoryTunnelManager : InMemoryTunnelManager := ∅.
Definition RegisterTunnel (clusterName : string) (m : InMemoryTunnelManager) : InMemoryTunnelManager := {[ clusterName ]} ∪ m.
(** [RemoveTunnel]; [None] is the error that there is no such tunnel. *)
Definition RemoveTunnel (clusterName : string) (m : InMemoryTunnelManager) : option InMemoryTunnelManager :=
  if decide (clusterName ∈ m) then Some (m ∖ {[ clusterName ]}) else None.

(** ** The world *)

Record remote_world (C : Type) := mkRemoteWorld {
  rw_clusters : gmap string NovaEdgeRemoteCluster;
  rw_registry : RemoteClusterRegistry;
  rw_tunnels : option InMemoryTunnelManager;
  rw_applier : applier C;
}.
Arguments mkRemoteWorld {C}. Arguments rw_clusters {C}. Arguments rw_registry {C}. Arguments rw_tunnels {C}. Arguments rw_applier {C}.

Section remote.
Context {C : Type} `{EqDecision C}.
#[local] Notation world := (remote_world C).
#[local] Notation api := (api world).
#[local] Notation "'do' x <- m ; k" := (bind m (λ x, k)) (at level 199, x name, m at level 100, k at level 199).

Definition set_rw_clusters (m : gmap string NovaEdgeRemoteCluster) (w : world) : world := mkRemoteWorld m (rw_registry w) (rw_tunnels w) (rw_applier w).
Definition set_rw_registry (r : RemoteClusterRegistry) (w : world) : world := mkRemoteWorld (rw_clusters w) r (rw_tunnels w) (rw_applier w).
Definition set_rw_tunnels (t : option InMemoryTunnelManager) (w : world) : world := mkRemoteWorld (rw_clusters w) (rw_registry w) t (rw_applier w).
Definition set_rw_applier (a : applier C) (w : world) : world := mkRemoteWorld (rw_clusters w) (rw_registry w) (rw_tunnels w) a.

Definition modify (f : world → world) : api unit := λ oracle w, (f w, oracle, Some tt).
Definition view {A} (f : world → A) : api A := λ oracle w, (w, oracle, Some (f w)).
(** An operation on the objects of the cluster. *)
Definition on_cluster {A} (m : KubeApi.api (applier C) A) : api A := λ oracle w,
  let '(a, oracle, r) := m oracle (rw_applier w) in (set_rw_applier a w, oracle, r).

Definition get_cluster (name : string) : api (option NovaEdgeRemoteCluster) := call (λ w, (w, rw_clusters w !! name)).
(** [Update] of the finalizers and [Status().Update]; a resource that is being
    deleted goes with its last finalizer. *)
Definition put_finalizers (rc : NovaEdgeRemoteCluster) (l : list string) : api NovaEdgeRemoteCluster := call (λ w,
  (set_rw_clusters (if nr_Deleting rc && bool_decide (l = []) then delete (nr_Name rc) (rw_clusters w)
                    else <[nr_Name rc := set_nr_Finalizers l rc]> (rw_clusters w)) w, set_nr_Finalizers l rc)).
Definition put_status (rc : NovaEdgeRemoteCluster) (st : RemoteClusterStatus) : api NovaEdgeRemoteCluster := call (λ w,
  (set_rw_clusters (<[nr_Name rc := set_nr_Status st rc]> (rw_clusters w)) w, set_nr_Status st rc)).

(** ** Reconciliation *)

(** [cleanupRemoteCluster]: errors are logged. *)
Definition cleanupRemoteCluster (rc : NovaEdgeRemoteCluster) : api unit :=
  let clusterName := rs_ClusterName (nr_Spec rc) in
  do _ <- on_cluster deleteFederatedResources;
  do _ <- modify (λ w, set_rw_tunnels ((λ t, default t (RemoveTunnel clusterName t)) <$> rw_tunnels w) w);
  modify (λ w, set_rw_registry (Unregister clusterName (rw_registry w)) w).

Definition set_condition (t : string) (v : bool) (st : RemoteClusterStatus) : RemoteClusterStatus :=
  mkRemoteClusterStatus (rt_Phase st) (rt_LastConnected st) (rt_Connected st) (rt_Total st) (rt_Ready st) (<[t := v]> (rt_Conditions st)).
Definition set_phase (p : RemoteClusterPhase) (st : RemoteClusterStatus) : RemoteClusterStatus :=
  mkRemoteClusterStatus p (rt_LastConnected st) (rt_Connected st) (rt_Total st) (rt_Ready st) (rt_Conditions st).

(** [Reconcile]: the time after which it is repeated, if it is. *)
Definition Reconcile_remote (now : Z) (name : string) : api (option Z) :=
  do found <- get_cluster name;
  match found with
  | None => do _ <- modify (λ w, set_rw_registry (Unregister name (rw_registry w)) w); ret None
  | Some rc =>
      if nr_Deleting rc then
        if contains (nr_Finalizers rc) remoteClusterFinalizer then
          do _ <- cleanupRemoteCluster rc;
          do _ <- put_finalizers rc (filter (λ f, f ≠ remoteClusterFinalizer) (nr_Finalizers rc));
          ret None
        else ret None
      else
        do rc <- (if contains (nr_Finalizers rc) remoteClusterFinalizer then ret rc
                  else put_finalizers rc (nr_Finalizers rc ++ [remoteClusterFinalizer]));
        if nr_Paused rc then ret (Some Minute)
        else
          do rc <- (if decide (rt_Phase (nr_Status rc) = PhasePending) then put_status rc (set_phase PhaseConnecting (nr_Status rc)) else ret rc);
          do registry <- view rw_registry;
          match registerRemoteCluster (nr_Spec rc) registry with
          | inl _ =>
              do _ <- put_status rc (set_condition ConditionTypeRemoteConfigured false (nr_Status rc));
              ret (Some (30 * Second))
          | inr registry =>
              do _ <- modify (set_rw_registry registry);
              let st := set_condition ConditionTypeRemoteConfigured true (nr_Status rc) in
              let st := default st (updateConnectionStatus now (rs_ClusterName (nr_Spec rc)) registry st) in
              do _ <- put_status rc (updateOverallStatus st);
              ret (Some (default (30 * Second) (nr_HealthInterval rc)))
          end
  end.

(** ** Theorems *)

Lemma succeeds_view {A} (f : world → A) w Q : Q w (f w) → succeeds (view f) w Q.
Proof. intros H. by exists w, (f w). Qed.
Lemma succeeds_modify f w Q : Q (f w) tt → succeeds (modify f) w Q.
Proof. intros H. by exists (f w), tt. Qed.
Lemma succeeds_on_cluster {A} (m : KubeApi.api (applier C) A) w Q :
  succeeds m (rw_applier w) (λ a x, Q (set_rw_applier a w) x) → succeeds (on_cluster m) w Q.
Proof. intros (a & x & E & H). exists (set_rw_applier a w), x. unfold on_cluster. by rewrite E. Qed.

(** What is left of a remote cluster after its deletion. *)
Definition cleaned (rc : NovaEdgeRemoteCluster) (w w' : world) : Prop :=
  let c := rs_ClusterName (nr_Spec rc) in
  objects (rw_applier w') = filter (λ kv, ¬ federated written_kinds kv) (objects (rw_applier w)) ∧
  clusters (rw_registry w') = delete c (clusters (rw_registry w)) ∧
  rw_tunnels w' = (λ t, t ∖ {[ c ]}) <$> rw_tunnels w ∧
  rw_clusters w' = let l := filter (λ f, f ≠ remoteClusterFinalizer) (nr_Finalizers rc) in
    if decide (l = []) then delete (nr_Name rc) (rw_clusters w)
    else <[nr_Name rc := set_nr_Finalizers l rc]> (rw_clusters w).

(** The deletion of a remote cluster, when no call fails, removes its entry in the
    registry, its tunnel, its finalizer - and with the last one the resource -
    and the federated objects, which are those of every remote cluster; objects
    without the mark stay. *)
Theorem deletion_cleans_up (now : Z) (w : world) (rc : NovaEdgeRemoteCluster)
    (Hrc : rw_clusters w !! nr_Name rc = Some rc) (Hd : nr_Deleting rc = true) (Hf : remoteClusterFinalizer ∈ nr_Finalizers rc) :
  succeeds (Reconcile_remote now (nr_Name rc)) w (λ w' r, r = None ∧ cleaned rc w w').
Proof.
  apply succeeds_bind, succeeds_call. cbn [fst snd]. rewrite Hrc, Hd. unfold contains. rewrite bool_decide_eq_true_2 by done.
  apply succeeds_bind, succeeds_bind, succeeds_on_cluster.
  destruct (cleanup_is_exact (rw_applier w)) as (a & errs & E & _ & _ & Ho). exists a, errs. split; [exact E|].
  apply succeeds_bind, succeeds_modify, succeeds_modify, succeeds_bind, succeeds_call, succeeds_ret. split; [done|].
  unfold cleaned. cbn [fst snd set_rw_clusters set_rw_registry set_rw_tunnels set_rw_applier rw_applier rw_registry rw_tunnels rw_clusters
    Unregister clusters]. split_and!; [done|done| |].
  - destruct (rw_tunnels w) as [t|]; [|done]. simpl. f_equal. unfold RemoveTunnel. case_decide; [done|]. set_solver.
  - rewrite Hd. simpl. case_bool_decide as Hl; by rewrite ?decide_True, ?decide_False by done.
Qed.

(** The two optional writes at the start of a reconciliation. *)
Lemma ensure_finalizer_succeeds rc w Q :
  nr_Deleting rc = false → rw_clusters w !! nr_Name rc = Some rc →
  (∀ w' rc', rw_registry w' = rw_registry w → rw_applier w' = rw_applier w → nr_Name rc' = nr_Name rc → nr_Spec rc' = nr_Spec rc →
     nr_Paused rc' = nr_Paused rc → nr_Status rc' = nr_Status rc → remoteClusterFinalizer ∈ nr_Finalizers rc' → Q w' rc') →
  succeeds (if contains (nr_Finalizers rc) remoteClusterFinalizer then ret rc
            else put_finalizers rc (nr_Finalizers rc ++ [remoteClusterFinalizer])) w Q.
Proof.
  intros Hd Hrc HQ. unfold contains. case_bool_decide; [apply succeeds_ret; by apply HQ|].
  apply succeeds_call. apply HQ; try done. simpl. set_solver.
Qed.

Lemma leave_pending_succeeds rc w Q :
  (∀ w' rc', rw_registry w' = rw_registry w → rw_applier w' = rw_applier w → nr_Name rc' = nr_Name rc → nr_Spec rc' = nr_Spec rc →
     nr_Finalizers rc' = nr_Finalizers rc → Q w' rc') →
  succeeds (if decide (rt_Phase (nr_Status rc) = PhasePending) then put_status rc (set_phase PhaseConnecting (nr_Status rc)) else ret rc) w Q.
Proof. intros HQ. case_decide; [apply succeeds_call|apply succeeds_ret]; by apply HQ. Qed.

(** The phase that follows from a configured cluster. *)
Lemma overall_phase st :
  IsStatusConditionTrue (rt_Conditions st) ConditionTypeRemoteConfigured = true →
  rt_Phase (updateOverallStatus st) ≠ PhasePending ∧ rt_Phase (updateOverallStatus st) ≠ PhaseFailed.
Proof. intros Hc. unfold updateOverallStatus. rewrite Hc. simpl. by repeat case_match; simplify_eq. Qed.

Lemma overall_counts st :
  (rt_Connected (updateOverallStatus st), rt_Total (updateOverallStatus st), rt_Ready (updateOverallStatus st)) =
  (rt_Connected st, rt_Total st, rt_Ready st).
Proof. unfold updateOverallStatus. by repeat case_match. Qed.

(** A reconciliation that meets no error registers a configured cluster without
    losing what is known of its connection, and writes the status that follows
    from it. *)
Theorem reconcile_registers (now : Z) (w : world) (rc : NovaEdgeRemoteCluster)
    (Hrc : rw_clusters w !! nr_Name rc = Some rc) (Hd : nr_Deleting rc = false) (Hp : nr_Paused rc = false)
    (Hname : rs_ClusterName (nr_Spec rc) ≠ ""%string) (Hend : rs_ControllerEndpoint (nr_Spec rc) ≠ ""%string) :
  let c := rs_ClusterName (nr_Spec rc) in
  succeeds (Reconcile_remote now (nr_Name rc)) w (λ w' r,
    is_Some r ∧ rw_applier w' = rw_applier w ∧
    (∀ c', reported (rw_registry w') c' = if decide (c' = c) then Some (default (false, 0, 0) (reported (rw_registry w) c'))
                                          else reported (rw_registry w) c') ∧
    ∃ rc', rw_clusters w' !! nr_Name rc = Some rc' ∧ nr_Spec rc' = nr_Spec rc ∧ remoteClusterFinalizer ∈ nr_Finalizers rc' ∧
      let st := nr_Status rc' in
      rt_Phase st ≠ PhasePending ∧ rt_Phase st ≠ PhaseFailed ∧
      (rt_Connected st, rt_Total st, rt_Ready st) = default (false, 0, 0) (reported (rw_registry w') c)).
Proof.
  intros c. apply succeeds_bind, succeeds_call. cbn [fst snd]. rewrite Hrc, Hd.
  apply succeeds_bind, ensure_finalizer_succeeds; [done..|]. intros w1 rc1 Hr1 Ha1 Hn1 Hs1 Hp1 _ Hf1. rewrite Hp1, Hp.
  apply succeeds_bind, leave_pending_succeeds. intros w2 rc2 Hr2 Ha2 Hn2 Hs2 Hf2.
  apply succeeds_bind, succeeds_view. rewrite Hr2, Hr1, Hs2, Hs1.
  destruct (registerRemoteCluster (nr_Spec rc) (rw_registry w)) as [e|r'] eqn:E.
  { unfold registerRemoteCluster, str_empty in E. by rewrite !bool_decide_eq_false_2 in E. }
  pose proof (registerRemoteCluster_keeps _ _ _ E) as Hk. pose proof (Hk c) as Hc. rewrite decide_True in Hc by done.
  unfold reported, registry_handler, registry_report in Hc. change (rs_ClusterName (nr_Spec rc)) with c.
  destruct (clusters r' !! c) as [info|] eqn:Ei; [|done].
  apply succeeds_bind, succeeds_modify, succeeds_bind, succeeds_call, succeeds_ret.
  unfold updateConnectionStatus, Registry_Get. rewrite Ei. cbn [default].
  split; [by eexists|]. split; [simpl; congruence|]. split; [exact Hk|]. eexists. cbn [fst set_rw_clusters rw_clusters].
  rewrite Hn2, Hn1, lookup_insert_eq. split; [reflexivity|]. cbn [set_nr_Status nr_Spec nr_Finalizers nr_Status].
  split; [congruence|]. split; [by rewrite Hf2|]. cbv zeta.
  destruct (overall_phase (mkRemoteClusterStatus (rt_Phase (set_condition ConditionTypeRemoteConfigured true (nr_Status rc2)))
    (if rc_Connected info then Some now else rt_LastConnected (set_condition ConditionTypeRemoteConfigured true (nr_Status rc2)))
    (rc_Connected info) (rc_AgentCount info) (rc_ReadyAgents info)
    (<[ConditionTypeRemoteConnected := rc_Connected info]> (rt_Conditions (set_condition ConditionTypeRemoteConfigured true (nr_Status rc2))))))
    as [H1 H2].
  { unfold IsStatusConditionTrue, map_get. simpl. rewrite lookup_insert_ne by done. by rewrite lookup_insert_eq. }
  split; [exact H1|]. split; [exact H2|]. rewrite overall_counts.
  unfold reported, registry_handler, registry_report. cbn. by rewrite Ei.
Qed.
End remote.

(** ** Examples *)

Definition spoke (name cluster : string) (deleting : bool) : NovaEdgeRemoteCluster :=
  mkRemoteCluster name deleting [remoteClusterFinalizer] false None
    (mkRemoteClusterSpec cluster "eu" "a" "spoke:9443" None ∅) fresh_status.
Definition spoke_world (rcs : list NovaEdgeRemoteCluster) : remote_world (gmap string string) :=
  mkRemoteWorld (list_to_map ((λ rc, (nr_Name rc, rc)) <$> rcs)) NewRemoteClusterRegistry (Some (RegisterTunnel "rome" NewInMemoryTunnelManager))
    (ex_run [OpApply ex_key ChangeTypeCreated "ab"] empty_cluster).

Lemma deletion_cleans_up_witness :
  ∃ w' r, Reconcile_remote 0 "spoke" [] (spoke_world [spoke "spoke" "rome" true]) = (w', [], Some r) ∧
    rw_tunnels w' = Some ∅ ∧ rw_clusters w' = ∅ ∧ stored (rw_applier w') = None.
Proof.
  destruct (deletion_cleans_up 0 (spoke_world [spoke "spoke" "rome" true]) (spoke "spoke" "rome" true)) as (w' & r & E & _ & Ho & _ & Ht & Hc).
  - reflexivity.
  - reflexivity.
  - left.
  - exists w', r. split; [exact E|]. split; [rewrite Ht; reflexivity|]. split; [rewrite Hc; reflexivity|].
    unfold stored. rewrite Ho. reflexivity.
Defined.

Lemma reconcile_registers_witness :
  ∃ w' r, Reconcile_remote 0 "spoke" [] (spoke_world [spoke "spoke" "rome" false]) = (w', [], Some r) ∧
    registry_report (rw_registry w') "rome" = Some (false, 0, 0).
Proof.
  destruct (reconcile_registers 0 (spoke_world [spoke "spoke" "rome" false]) (spoke "spoke" "rome" false)) as (w' & r & E & _ & _ & Hr & _);
    [reflexivity..|done|done|]. exists w', r. split; [exact E|]. specialize (Hr "rome"%string). exact Hr.
Defined.

(** A resource that is found gone is unregistered under its own name, while it is
    registered under the name of its cluster: the entry stays when they differ. *)
Example gone_cluster_stays_registered :
  let w := (Reconcile_remote 0 "spoke" [] (spoke_world [spoke "spoke" "rome" false])).1.1 in
  let w' := (Reconcile_remote 1 "spoke" [] (set_rw_clusters ∅ w)).1.1 in
  is_Some (clusters (rw_registry w') !! "rome"%string).
Proof. vm_compute. by eexists. Qed.

