(* ===== verification/MeshIntercept.v ===== *)
(** * Interception of mesh traffic
    (src/internal/agent/mesh/tproxy.go, tproxy_iptables.go, tproxy_nftables.go
    and tproxy_sysctl.go)

    The agent redirects connections to the addresses of services to its own
    listener, by rules in the kernel. Two backends write the rules, behind the
    interface [RuleBackend]: [iptables] runs the program of that name once per
    rule, [nftables] sends one batch over netlink. The program, the netlink
    library and the kernel are classes, with their documented behaviour as laws. *)

From S2P Require Import Prelude GoStrings GoNet GoLib.
Open Scope Z_scope.
Open Scope go_scope.

(** ** Targets *)

Record InterceptTarget := mkTarget { it_ClusterIP : string; it_Port : Z }.
#[export] Instance InterceptTarget_dec : EqDecision InterceptTarget.
Proof. solve_decision. Defined.

Definition Target_Key (t : InterceptTarget) : string := it_ClusterIP t +:+ ":" +:+ format_d (it_Port t).

(** What a backend offers to the manager. An error is [false]; [rb_intercepts] tells
    which connections the kernel redirects to a port. *)
Class RuleBackend (B : Type) := {
  rb_Setup : B → B * bool;
  rb_ApplyRules : list InterceptTarget → Z → B → outcome (B * bool);
  rb_Cleanup : B → B * bool;
  rb_intercepts : Z → InterceptTarget → B → Prop;
}.

(** The targets that can be intercepted, IPv4 addresses in their usual form and ports. *)
Definition dotted (a b c d : Z) : string := format_d a +:+ "." +:+ format_d b +:+ "." +:+ format_d c +:+ "." +:+ format_d d.
Definition port_ok (port : Z) : Prop := 1 ≤ port ≤ 65535.
Definition target_ok (t : InterceptTarget) : Prop :=
  (∃ a b c d, Forall is_byte [a; b; c; d] ∧ it_ClusterIP t = dotted a b c d) ∧ port_ok (it_Port t).

(** What the manager relies on. [rb_ok] is the state between two calls; the parameter
    is the port of the listener. A call that succeeds leaves exactly the rules of
    its targets; one that fails adds none but those of its targets and takes none of
    them away. *)
Class RuleBackendLaws (B : Type) `{RuleBackend B} := {
  rb_fresh : B → Prop;
  rb_ok : Z → B → Prop;
  rb_setup port b b' : rb_fresh b → port_ok port → rb_Setup b = (b', true) → rb_ok port b' ∧ ∀ t, target_ok t → ¬ rb_intercepts port t b';
  rb_apply port ts b :
    rb_ok port b → port_ok port → Forall target_ok ts →
    ∃ b' ok, rb_ApplyRules ts port b = Returns (b', ok) ∧ rb_ok port b' ∧
      if ok then ∀ t, target_ok t → rb_intercepts port t b' ↔ t ∈ ts
      else ∀ t, target_ok t → (rb_intercepts port t b' → rb_intercepts port t b ∨ t ∈ ts) ∧ (rb_intercepts port t b → t ∈ ts → rb_intercepts port t b');
}.

(** ** The iptables backend *)

Fixpoint Contains (s sub : string) : bool :=
  HasPrefix s sub || match s with EmptyString => false | String _ s' => Contains s' sub end.

Definition novaedgeChain : string := "NOVAEDGE_MESH".
Definition nat_command (args : list string) : list string := "-t" :: "nat" :: args.

(** The program [iptables]: its arguments, and its output or the text of its error.
    [ipt_rules] are the rules of our chain, and [ipt_jump] tells whether PREROUTING
    jumps to it. The laws are the manual page of the commands used; a command that
    fails changes nothing. *)
Class Iptables (K : Type) := {
  iptables : list string → K → K * (string + string);
  ipt_rules : K → list (list string);
  ipt_jump : K → bool;
  ipt_failed args k k' e : iptables args k = (k', inr e) → ipt_rules k' = ipt_rules k ∧ ipt_jump k' = ipt_jump k;
  ipt_new k k' out : iptables (nat_command ["-N"; novaedgeChain]) k = (k', inl out) → ipt_rules k' = [] ∧ ipt_jump k' = ipt_jump k;
  ipt_list k k' out : iptables (nat_command ["-S"; "PREROUTING"]) k = (k', inl out) →
    ipt_rules k' = ipt_rules k ∧ ipt_jump k' = ipt_jump k ∧ Contains out novaedgeChain = ipt_jump k;
  ipt_insert k k' out : iptables (nat_command ["-I"; "PREROUTING"; "1"; "-j"; novaedgeChain]) k = (k', inl out) →
    ipt_rules k' = ipt_rules k ∧ ipt_jump k' = true;
  ipt_append spec k k' out : iptables (nat_command ("-A" :: novaedgeChain :: spec)) k = (k', inl out) →
    ipt_rules k' = ipt_rules k ++ [spec] ∧ ipt_jump k' = ipt_jump k;
  ipt_delete spec k k' out : iptables (nat_command ("-D" :: novaedgeChain :: spec)) k = (k', inl out) →
    (∃ l1 l2, ipt_rules k = l1 ++ spec :: l2 ∧ ipt_rules k' = l1 ++ l2) ∧ ipt_jump k' = ipt_jump k;
  ipt_unjump k k' out : iptables (nat_command ["-D"; "PREROUTING"; "-j"; novaedgeChain]) k = (k', inl out) →
    ipt_rules k' = ipt_rules k ∧ ipt_jump k' = false;
  ipt_flush k k' out : iptables (nat_command ["-F"; novaedgeChain]) k = (k', inl out) → ipt_rules k' = [] ∧ ipt_jump k' = ipt_jump k;
  ipt_remove k k' out : iptables (nat_command ["-X"; novaedgeChain]) k = (k', inl out) → ipt_rules k' = [] ∧ ipt_jump k' = ipt_jump k;
}.

(** The file [route_localnet]: its contents if it can be read, and whether it can be
    written. *)
Record sysctl := mkSysctl { sy_value : option string; sy_writable : bool }.
Definition ensureRouteLocalnet `{TextTables} (s : sysctl) : sysctl * bool :=
  match sy_value s with
  | None => (s, false)
  | Some v =>
      if str_eqb (TrimSpace v) "1" then (s, true)
      else if sy_writable s then (mkSysctl (Some "1"%string) true, true) else (s, false)
  end.

Section iptables.
Context `{TextTables} {K : Type} `{Iptables K} (visit : visiting).

Record iptablesBackend := mkIptablesBackend {
  ib_sysctl : sysctl;
  ib_kernel : K;
  ib_currentRules : gmap string bool;
  ib_chainCreated : bool;
}.
Definition ib_eta (b : iptablesBackend) : iptablesBackend := mkIptablesBackend (ib_sysctl b) (ib_kernel b) (ib_currentRules b) (ib_chainCreated b).
Definition set_ib_sysctl : sysctl → iptablesBackend → iptablesBackend := ltac:(field_setter ib_eta ib_sysctl).
Definition set_ib_kernel : K → iptablesBackend → iptablesBackend := ltac:(field_setter ib_eta ib_kernel).
Definition set_ib_currentRules : gmap string bool → iptablesBackend → iptablesBackend := ltac:(field_setter ib_eta ib_currentRules).
Definition set_ib_chainCreated : bool → iptablesBackend → iptablesBackend := ltac:(field_setter ib_eta ib_chainCreated).

Definition newIPTablesBackend (s : sysctl) (k : K) : iptablesBackend := mkIptablesBackend s k ∅ false.

(** [run] and [output]. *)
Definition run (args : list string) (b : iptablesBackend) : iptablesBackend * (string + string) :=
  let '(k, r) := iptables args (ib_kernel b) in (set_ib_kernel k b, r).
Definition succeeded {A B} (r : A + B) : bool := match r with inl _ => true | inr _ => false end.

Definition ensureChain (b : iptablesBackend) : iptablesBackend * bool :=
  let '(b, r) := run (nat_command ["-N"; novaedgeChain]) b in
  if match r with inl _ => false | inr err => negb (Contains err "Chain already exists") end then (b, false)
  else
    let '(b, r) := run (nat_command ["-S"; "PREROUTING"]) b in
    match r with
    | inr _ => (b, false)
    | inl out =>
        if Contains out novaedgeChain then (set_ib_chainCreated true b, true)
        else
          let '(b, r) := run (nat_command ["-I"; "PREROUTING"; "1"; "-j"; novaedgeChain]) b in
          if succeeded r then (set_ib_chainCreated true b, true) else (b, false)
    end.

Definition iptables_Setup (b : iptablesBackend) : iptablesBackend * bool :=
  let '(s, ok) := ensureRouteLocalnet (ib_sysctl b) in
  let b := set_ib_sysctl s b in
  if ok then ensureChain b else (b, false).

(** The specification of a rule, as [addRule] and [removeRule] write it. *)
Definition rule_spec (ip dport : string) (tproxyPort : Z) : list string :=
  ["-p"; "tcp"; "-d"; ip; "--dport"; dport; "-j"; "DNAT"; "--to-destination"; "127.0.0.1:" +:+ format_d tproxyPort]%string.
Definition addRule (t : InterceptTarget) (tproxyPort : Z) (b : iptablesBackend) : iptablesBackend * bool :=
  let '(b, r) := run (nat_command ("-A" :: novaedgeChain :: rule_spec (it_ClusterIP t) (format_d (it_Port t)) tproxyPort)) b in (b, succeeded r).
Definition removeRule (ip dport : string) (tproxyPort : Z) (b : iptablesBackend) : iptablesBackend * bool :=
  let '(b, r) := run (nat_command ("-D" :: novaedgeChain :: rule_spec ip dport tproxyPort)) b in (b, succeeded r).

Inductive RuleErr := RemoveErr (key : string) | AddErr (key : string).

Definition desired_targets (targets : list InterceptTarget) : gmap string InterceptTarget :=
  foldl (λ m t, <[Target_Key t := t]> m) ∅ targets.

(** One step of the loop that removes rules, and of the loop that adds them. *)
Definition remove_step (desired : gmap string InterceptTarget) (tproxyPort : Z) (key : string) (b : iptablesBackend) : iptablesBackend * list RuleErr :=
  if decide (is_Some (desired !! key)) then (b, [])
  else
    match SplitN ":" key 2 with
    | [ip; dport] =>
        let '(b, ok) := removeRule ip dport tproxyPort b in
        if ok then (set_ib_currentRules (delete key (ib_currentRules b)) b, []) else (b, [RemoveErr key])
    | _ => (set_ib_currentRules (delete key (ib_currentRules b)) b, [])
    end.
Definition add_step (tproxyPort : Z) (key : string) (t : InterceptTarget) (b : iptablesBackend) : iptablesBackend * list RuleErr :=
  if map_get false (ib_currentRules b) key then (b, [])
  else
    let '(b, ok) := addRule t tproxyPort b in
    if ok then (set_ib_currentRules (<[key := true]> (ib_currentRules b)) b, []) else (b, [AddErr key]).

(** A loop that collects errors. *)
Fixpoint each {A} (step : A → iptablesBackend → iptablesBackend * list RuleErr) (l : list A) (b : iptablesBackend) : iptablesBackend * list RuleErr :=
  match l with
  | [] => (b, [])
  | x :: l =>
      let '(b, errs) := step x b in
      let '(b, more) := each step l b in (b, errs ++ more)
  end.

Definition iptables_ApplyRules (targets : list InterceptTarget) (tproxyPort : Z) (b : iptablesBackend) : iptablesBackend * list RuleErr :=
  let desired := desired_targets targets in
  let '(b, errs) := each (λ e, remove_step desired tproxyPort e.1) (visit _ (ib_currentRules b)) b in
  let '(b, more) := each (λ e, add_step tproxyPort e.1 e.2) (visit _ desired) b in
  (b, errs ++ more).

(** [Cleanup] ignores the errors of the program. *)
Definition iptables_Cleanup (b : iptablesBackend) : iptablesBackend :=
  let b :=
    if ib_chainCreated b then
      let '(b, _) := run (nat_command ["-D"; "PREROUTING"; "-j"; novaedgeChain]) b in
      let '(b, _) := run (nat_command ["-F"; novaedgeChain]) b in
      let '(b, _) := run (nat_command ["-X"; novaedgeChain]) b in
      set_ib_chainCreated false b
    else b in
  set_ib_currentRules ∅ b.

#[export] Instance iptables_backend : RuleBackend iptablesBackend := {|
  rb_Setup := iptables_Setup;
  rb_ApplyRules targets port b := let '(b, errs) := iptables_ApplyRules targets port b in Returns (b, bool_decide (length errs = 0%nat));
  rb_Cleanup b := (iptables_Cleanup b, true);
  rb_intercepts port t b := ipt_jump (ib_kernel b) = true ∧ rule_spec (it_ClusterIP t) (format_d (it_Port t)) port ∈ ipt_rules (ib_kernel b);
|}.
End iptables.

(** ** The nftables backend *)

(** The bytes of an IPv4 address in its usual form. *)
Definition ipv4_bytes (s : string) : option (list Z) :=
  if parseIPv4 s then mapM parse_unsigned (Split "." s) else None.

(** The bytes of the groups of an IPv6 address before and after "::"; the loop is that
    of [GoNet.ipv6_groups]. *)
Definition group_bytes (digits : string) : list Z :=
  let n := fold_left (λ n c, n * 16 + default 0 (fromHexChar c)) (String.list_ascii_of_string digits) 0 in [n / 256; n mod 256].
Fixpoint ipv6_group_bytes (fuel : nat) (s : string) (acc : list Z) (ellipsis : option nat) : list Z * option nat :=
  match fuel with
  | O => (acc, ellipsis)
  | S fuel =>
      let '(off, rest) := hex_run s in
      let acc' := acc ++ group_bytes (String.substring 0 off s) in
      match rest with
      | String "." _ => (acc ++ default [] (ipv4_bytes s), ellipsis)
      | String ":" (String ":" s') => if str_empty s' then (acc', Some (length acc')) else ipv6_group_bytes fuel s' acc' (Some (length acc'))
      | String ":" s' => ipv6_group_bytes fuel s' acc' ellipsis
      | _ => (acc', ellipsis)
      end
  end.
Definition ipv6_bytes (s : string) : list Z :=
  let '(s, ellipsis) := match s with String ":" (String ":" s') => (s', Some 0%nat) | _ => (s, None) end in
  if str_empty s then replicate 16 0
  else
    let '(bytes, ellipsis) := ipv6_group_bytes 9 s [] ellipsis in
    match ellipsis with
    | None => bytes
    | Some n => take n bytes ++ replicate (16 - length bytes) 0 ++ drop n bytes
    end.

(** [net.ParseIP(s).To4()]: an IPv4 address, or an IPv6 address that stands for one. *)
Definition ParseIP_To4 (s : string) : option (list Z) :=
  if negb (ParseIP s) then None
  else match address_form s with
       | Some "."%char => ipv4_bytes s
       | _ =>
           let bytes := ipv6_bytes s in
           if decide (take 12 bytes = replicate 10 0 ++ [255; 255]) then Some (drop 12 bytes) else None
       end.

Example ParseIP_To4_ok :
  ParseIP_To4 <$> ["10.96.0.1"; "::ffff:10.96.0.1"; "::ffff:a60:1"; "0:0:0:0:0:FFFF:10.96.0.1"; "::1"; "2001:db8::"; "10.96.0"; "None"; "::ffff:1:a60:1"]%string =
  [Some [10; 96; 0; 1]; Some [10; 96; 0; 1]; Some [10; 96; 0; 1]; Some [10; 96; 0; 1]; None; None; None; None; None].
Proof. by vm_compute. Qed.

(** Expressions of a rule, as far as the backend uses them, and what they do to a
    packet: a rule that matches gives the new address and port. *)
Inductive expr :=
  | Meta_L4PROTO (Register : Z)
  | Cmp_Eq (Register : Z) (Data : list Z)
  | Payload_Network (DestRegister Offset Len : Z)
  | Payload_Transport (DestRegister Offset Len : Z)
  | Immediate (Register : Z) (Data : list Z)
  | NAT_Dest (RegAddrMin RegProtoMin : Z).

Record packet := mkPacket { pk_protocol : Z; pk_network : list Z; pk_transport : list Z }.
Definition field_of (bytes : list Z) (offset len : Z) : list Z := take (Z.to_nat len) (drop (Z.to_nat offset) bytes).

Fixpoint rule_verdict (rule : list expr) (regs : gmap Z (list Z)) (p : packet) : option (list Z * list Z) :=
  match rule with
  | [] => None
  | Meta_L4PROTO r :: rule => rule_verdict rule (<[r := [pk_protocol p]]> regs) p
  | Cmp_Eq r data :: rule => if decide (regs !! r = Some data) then rule_verdict rule regs p else None
  | Payload_Network r off len :: rule => rule_verdict rule (<[r := field_of (pk_network p) off len]> regs) p
  | Payload_Transport r off len :: rule => rule_verdict rule (<[r := field_of (pk_transport p) off len]> regs) p
  | Immediate r data :: rule => rule_verdict rule (<[r := data]> regs) p
  | NAT_Dest ra rp :: _ => match regs !! ra, regs !! rp with Some addr, Some port => Some (addr, port) | _, _ => None end
  end.

(** The first rule that matches decides. *)
Fixpoint chain_verdict (rules : list (list expr)) (p : packet) : option (list Z * list Z) :=
  match rules with
  | [] => None
  | rule :: rules => match rule_verdict rule ∅ p with Some v => Some v | None => chain_verdict rules p end
  end.

Definition IPPROTO_TCP : Z := 6.
(** [binary.BigEndian.PutUint16] of a conversion to [uint16]. *)
Definition put_uint16 (n : Z) : list Z := let n := n mod 65536 in [n / 256; n mod 256].

Inductive BuildErr := InvalidIPv4Addr | DestinationPortRange | RedirectPortRange.

Definition redirect_exprs (ip : list Z) (port tproxyPort : Z) : list expr :=
  [Meta_L4PROTO 1; Cmp_Eq 1 [IPPROTO_TCP];
   Payload_Network 1 16 4; Cmp_Eq 1 ip;
   Payload_Transport 1 2 2; Cmp_Eq 1 (put_uint16 port);
   Immediate 1 [127; 0; 0; 1]; Immediate 2 (put_uint16 tproxyPort);
   NAT_Dest 1 2].
Definition buildRedirectRule (t : InterceptTarget) (tproxyPort : Z) : list expr + BuildErr :=
  match ParseIP_To4 (it_ClusterIP t) with
  | None => inr InvalidIPv4Addr
  | Some ip =>
      if bool_decide (it_Port t < 1) || bool_decide (65535 < it_Port t) then inr DestinationPortRange
      else if bool_decide (tproxyPort < 1) || bool_decide (65535 < tproxyPort) then inr RedirectPortRange
      else inl (redirect_exprs ip (it_Port t) tproxyPort)
  end.

(** The rules of the kernel: tables of chains of rules; and the commands. A command is
    refused when what it names does not exist. *)
Notation ruleset := (gmap string (gmap string (list (list expr)))).
Inductive nft_cmd :=
  | DelTable (table : string) | AddTable (table : string) | AddChain (table chain : string)
  | FlushChain (table chain : string) | AddRule (table chain : string) (rule : list expr).
Definition exec_cmd (k : ruleset) (c : nft_cmd) : option ruleset :=
  match c with
  | DelTable t => _ ← k !! t; Some (delete t k)
  | AddTable t => Some (<[t := default ∅ (k !! t)]> k)
  | AddChain t c => chains ← k !! t; Some (<[t := <[c := default [] (chains !! c)]> chains]> k)
  | FlushChain t c => chains ← k !! t; _ ← chains !! c; Some (<[t := <[c := []]> chains]> k)
  | AddRule t c r => chains ← k !! t; rules ← chains !! c; Some (<[t := <[c := rules ++ [r]]> chains]> k)
  end.
Definition exec_batch (cmds : list nft_cmd) (k : ruleset) : option ruleset := foldl (λ k c, k ≫= λ k, exec_cmd k c) (Some k) cmds.

(** The netlink library: commands are buffered, and [Flush] sends them in one batch
    that the kernel takes as a whole or not at all; the buffer is empty after it. *)
Class NFTables (C : Type) := {
  conn_add : nft_cmd → C → C;
  conn_Flush : C → C * bool;
  conn_pending : C → list nft_cmd;
  conn_kernel : C → ruleset;
  conn_add_pending cmd c : conn_pending (conn_add cmd c) = conn_pending c ++ [cmd];
  conn_add_kernel cmd c : conn_kernel (conn_add cmd c) = conn_kernel c;
  conn_flushed c c' : conn_Flush c = (c', true) → exec_batch (conn_pending c) (conn_kernel c) = Some (conn_kernel c') ∧ conn_pending c' = [];
  conn_refused c c' : conn_Flush c = (c', false) → conn_kernel c' = conn_kernel c ∧ conn_pending c' = [];
}.

Definition nftTableName : string := "novaedge_mesh".
Definition nftChainName : string := "mesh_redirect".

Section nftables.
Context `{TextTables} {C : Type} `{NFTables C}.

(** [nb_table] and [nb_chain] are the names of the objects behind the pointers. *)
Record nftablesBackend := mkNftablesBackend {
  nb_sysctl : sysctl;
  nb_conn : C;
  nb_table : option string;
  nb_chain : option (string * string);
}.
Definition newNFTablesBackend (s : sysctl) (c : C) : nftablesBackend := mkNftablesBackend s c None None.

Definition nftables_Setup (b : nftablesBackend) : nftablesBackend * bool :=
  let '(s, ok) := ensureRouteLocalnet (nb_sysctl b) in
  if ok then
    let '(conn, _) := conn_Flush (conn_add (DelTable nftTableName) (nb_conn b)) in
    let conn := conn_add (AddChain nftTableName nftChainName) (conn_add (AddTable nftTableName) conn) in
    let '(conn, ok) := conn_Flush conn in
    (mkNftablesBackend s conn (Some nftTableName) (Some (nftTableName, nftChainName)), ok)
  else (mkNftablesBackend s (nb_conn b) (nb_table b) (nb_chain b), false).

(** The loop over the targets; it stops at the first that cannot be built, and the
    commands before it stay in the buffer. *)
Fixpoint add_rules (table chain : string) (targets : list InterceptTarget) (tproxyPort : Z) (conn : C) : C * bool :=
  match targets with
  | [] => (conn, true)
  | t :: targets =>
      match buildRedirectRule t tproxyPort with
      | inr _ => (conn, false)
      | inl rule => add_rules table chain targets tproxyPort (conn_add (AddRule table chain rule) conn)
      end
  end.

Definition nftables_ApplyRules (targets : list InterceptTarget) (tproxyPort : Z) (b : nftablesBackend) : outcome (nftablesBackend * bool) :=
  match nb_chain b with
  | None => Panics (* the fields of a nil chain are read *)
  | Some (table, chain) =>
      let '(conn, ok) := add_rules table chain targets tproxyPort (conn_add (FlushChain table chain) (nb_conn b)) in
      let '(conn, ok) := if ok then conn_Flush conn else (conn, false) in
      Returns (mkNftablesBackend (nb_sysctl b) conn (nb_table b) (nb_chain b), ok)
  end.

Definition nftables_Cleanup (b : nftablesBackend) : nftablesBackend * bool :=
  match nb_table b with
  | None => (b, true)
  | Some table =>
      let '(conn, ok) := conn_Flush (conn_add (DelTable table) (nb_conn b)) in
      if ok then (mkNftablesBackend (nb_sysctl b) conn None None, true)
      else (mkNftablesBackend (nb_sysctl b) conn (nb_table b) (nb_chain b), false)
  end.

Definition chain_rules (k : ruleset) : list (list expr) := default [] (k !! nftTableName ≫= λ chains, chains !! nftChainName).

(** A TCP connection to an address and a port. *)
Definition connects_to (t : InterceptTarget) (p : packet) : Prop :=
  pk_protocol p = IPPROTO_TCP ∧ ParseIP_To4 (it_ClusterIP t) = Some (field_of (pk_network p) 16 4) ∧ field_of (pk_transport p) 2 2 = put_uint16 (it_Port t).

#[export] Instance nftables_backend : RuleBackend nftablesBackend := {|
  rb_Setup := nftables_Setup;
  rb_ApplyRules := nftables_ApplyRules;
  rb_Cleanup := nftables_Cleanup;
  rb_intercepts port t b := ∀ p, connects_to t p → chain_verdict (chain_rules (conn_kernel (nb_conn b))) p = Some ([127; 0; 0; 1], put_uint16 port);
|}.
End nftables.

(** ** Keys of targets *)

Lemma format_d_inj a b : int64_range a → int64_range b → format_d a = format_d b → a = b.
Proof. intros Ha Hb E. apply (f_equal ParseInt) in E. rewrite !ParseInt_format_d in E by done. congruence. Qed.

Lemma dotted_no_colon a b c d : no_char ":" (dotted a b c d) = true.
Proof. unfold dotted. by rewrite !no_char_app, !format_d_no_char. Qed.
Lemma target_no_colon t : target_ok t → no_char ":" (it_ClusterIP t) = true.
Proof. intros [(a & b & c & d & _ & ->) _]. apply dotted_no_colon. Qed.
Lemma port_int64 t : target_ok t → int64_range (it_Port t).
Proof. intros [_ Hp]. unfold port_ok in Hp. unfold int64_range, min_int64, max_int64. lia. Qed.

Lemma SplitN_Key t : target_ok t → SplitN ":" (Target_Key t) 2 = [it_ClusterIP t; format_d (it_Port t)].
Proof. intros Ht. unfold Target_Key. change (":" +:+ format_d (it_Port t))%string with (String ":" (format_d (it_Port t))).
  by rewrite (SplitN_app ":" (it_ClusterIP t) _ 0) by by apply target_no_colon. Qed.

Lemma target_ext t t' : target_ok t → target_ok t' → it_ClusterIP t = it_ClusterIP t' → format_d (it_Port t) = format_d (it_Port t') → t = t'.
Proof. intros Ht Ht' Hi Hp. apply format_d_inj in Hp; [|by apply port_int64..]. destruct t, t'; simpl in *; congruence. Qed.
Lemma Target_Key_inj t t' : target_ok t → target_ok t' → Target_Key t = Target_Key t' → t = t'.
Proof. intros Ht Ht' E. apply (f_equal (λ s, SplitN ":" s 2)) in E. rewrite !SplitN_Key in E by done. injection E as ? ?. by apply target_ext. Qed.

Lemma desired_targets_snoc ts t : desired_targets (ts ++ [t]) = <[Target_Key t := t]> (desired_targets ts).
Proof. unfold desired_targets. by rewrite foldl_app. Qed.
Lemma desired_targets_lookup ts key t : Forall target_ok ts → desired_targets ts !! key = Some t ↔ t ∈ ts ∧ key = Target_Key t.
Proof.
  intros Hok. induction ts as [|u ts IH] using rev_ind; [split; [done|]; by intros [[]%not_elem_of_nil _]|].
  apply Forall_app in Hok as [Hok Hu]. apply Forall_inv in Hu. rewrite desired_targets_snoc, elem_of_app, list_elem_of_singleton.
  destruct (decide (key = Target_Key u)) as [->|Hne].
  - rewrite lookup_insert_eq. split; [intros [= <-]; auto|]. intros [[Ht | ->] E]; [|done].
    rewrite Forall_forall in Hok. f_equal. apply Target_Key_inj; first [done | by apply Hok].
  - rewrite lookup_insert_ne by congruence. rewrite IH by done. split; [tauto|]. intros [[? | E] ?]; [done|]. subst u. congruence.
Qed.
Lemma desired_targets_is_Some ts t : Forall target_ok ts → target_ok t → is_Some (desired_targets ts !! Target_Key t) ↔ t ∈ ts.
Proof.
  intros Hok Ht. split; [|intros Hin; exists t; by apply desired_targets_lookup].
  intros [u [Hu E]%desired_targets_lookup]; [|done]. rewrite Forall_forall in Hok. apply Target_Key_inj in E as <-; auto.
Qed.

(** ** The iptables backend keeps its promises *)

Section iptables_laws.
Context `{TextTables} {K : Type} `{Iptables K} (visit : visiting) (visit_order : ∀ V m, range_order m (visit V m)).
#[local] Notation backend := (iptablesBackend (K := K)).
#[local] Existing Instance iptables_backend.

Definition target_spec (port : Z) (t : InterceptTarget) : list string := rule_spec (it_ClusterIP t) (format_d (it_Port t)) port.
Lemma target_spec_inj port t t' : target_ok t → target_ok t' → target_spec port t = target_spec port t' → t = t'.
Proof. intros Ht Ht' E. injection E as ? ?. by apply target_ext. Qed.

(** The chain holds one rule for each target of a list, and the backend knows them. *)
Record ib_state (port : Z) (ts : list InterceptTarget) (b : backend) : Prop := {
  ibs_jump : ipt_jump (ib_kernel b) = true;
  ibs_ok : Forall target_ok ts;
  ibs_nodup : NoDup ts;
  ibs_rules : ipt_rules (ib_kernel b) ≡ₚ target_spec port <$> ts;
  ibs_current key v : ib_currentRules b !! key = Some v ↔ v = true ∧ key ∈ Target_Key <$> ts;
}.

Lemma ib_state_perm port ts ts' b : ts ≡ₚ ts' → ib_state port ts b → ib_state port ts' b.
Proof.
  intros HP [? ? ? ? Hc]. split; [done|by rewrite <- HP..|]. intros key v. rewrite Hc. by rewrite HP.
Qed.
Lemma Key_not_in t ts : target_ok t → Forall target_ok ts → t ∉ ts → Target_Key t ∉ Target_Key <$> ts.
Proof.
  intros Ht Hok Hn (u & E & Hu)%list_elem_of_fmap. rewrite Forall_forall in Hok. apply Target_Key_inj in E as <-; auto.
Qed.

Lemma removeRule_state port t ts b b' :
  ib_state port (t :: ts) b → removeRule (it_ClusterIP t) (format_d (it_Port t)) port b = (b', true) →
  ib_state port ts (set_ib_currentRules (delete (Target_Key t) (ib_currentRules b')) b').
Proof.
  intros [Hj [Ht Hok]%Forall_cons [Hn Hnd]%NoDup_cons Hr Hc] E. unfold removeRule, run in E.
  destruct (iptables _ _) as [k [out|e]] eqn:Ek; injection E as <-; [|done]. apply ipt_delete in Ek as [(l1 & l2 & E1 & E2) Ej].
  split; simpl; [congruence|done|done| |].
  - rewrite E2. rewrite E1 in Hr. symmetry in Hr. by apply Permutation_cons_app_inv in Hr.
  - intros key v. destruct (decide (key = Target_Key t)) as [->|Hne].
    + rewrite lookup_delete_eq. split; [done|]. intros [_ Hin]. by apply Key_not_in in Hin.
    + rewrite lookup_delete_ne, Hc, fmap_cons, elem_of_cons by congruence. tauto.
Qed.
Lemma addRule_state port t ts b b' :
  ib_state port ts b → target_ok t → t ∉ ts → addRule t port b = (b', true) →
  ib_state port (t :: ts) (set_ib_currentRules (<[Target_Key t := true]> (ib_currentRules b')) b').
Proof.
  intros [Hj Hok Hnd Hr Hc] Ht Hn E. unfold addRule, run in E.
  destruct (iptables _ _) as [k [out|e]] eqn:Ek; injection E as <-; [|done]. apply ipt_append in Ek as [E1 Ej].
  split; simpl; [congruence|by constructor|by constructor| |].
  - rewrite E1, Hr. symmetry. apply Permutation_cons_append.
  - intros key v. rewrite elem_of_cons. destruct (decide (key = Target_Key t)) as [->|Hne].
    + rewrite lookup_insert_eq. naive_solver.
    + rewrite lookup_insert_ne, Hc by congruence. tauto.
Qed.
Lemma failed_state port ts args b b' e : ib_state port ts b → run args b = (b', inr e) → ib_state port ts b'.
Proof.
  intros [Hj ? ? Hr Hc] E. unfold run in E. destruct (iptables _ _) as [k r] eqn:Ek. injection E as <- ->. apply ipt_failed in Ek as [E1 E2].
  split; simpl; [congruence|done|done|by rewrite E1|done].
Qed.
Lemma removeRule_failed port ts ip dport b b' : ib_state port ts b → removeRule ip dport port b = (b', false) → ib_state port ts b'.
Proof. unfold removeRule. intros Hs E. destruct (run _ b) as [b1 [out|e]] eqn:Er; injection E as <-; [done|]. by eapply failed_state. Qed.
Lemma addRule_failed port ts t b b' : ib_state port ts b → addRule t port b = (b', false) → ib_state port ts b'.
Proof. unfold addRule. intros Hs E. destruct (run _ b) as [b1 [out|e]] eqn:Er; injection E as <-; [done|]. by eapply failed_state. Qed.

Lemma remove_step_state desired port ts t b b' errs :
  ib_state port ts b → t ∈ ts → remove_step desired port (Target_Key t) b = (b', errs) →
  (ib_state port ts b' ∧ (is_Some (desired !! Target_Key t) ∨ errs ≠ [])) ∨
  (∃ ts', ts ≡ₚ t :: ts' ∧ ib_state port ts' b' ∧ desired !! Target_Key t = None).
Proof.
  intros Hs Hin E. assert (target_ok t) as Ht by (eapply Forall_forall; [apply Hs|done]).
  unfold remove_step in E. destruct (decide _) as [Hd|Hd]; [injection E as <- <-; auto|].
  rewrite SplitN_Key in E by done. destruct (removeRule _ _ _ b) as [b1 [|]] eqn:Er; injection E as <- <-.
  - apply elem_of_Permutation in Hin as [ts' HP]. right. exists ts'. split; [done|]. split; [|by apply eq_None_not_Some].
    eapply removeRule_state; [|done]. by eapply ib_state_perm.
  - left. split; [by eapply removeRule_failed|auto].
Qed.

Lemma remove_loop desired port l us ts b b' errs :
  ib_state port ts b → l.*1 = Target_Key <$> us → NoDup us → (∀ t, t ∈ us → t ∈ ts) →
  each (λ e : string * bool, remove_step desired port e.1) l b = (b', errs) →
  ∃ ts', ib_state port ts' b' ∧ (∀ t, t ∈ ts' → t ∈ ts) ∧ (∀ t, t ∈ ts → t ∉ us ∨ is_Some (desired !! Target_Key t) → t ∈ ts') ∧
    (errs = [] → ∀ t, t ∈ us → t ∈ ts' → is_Some (desired !! Target_Key t)).
Proof.
  revert us ts b b' errs. induction l as [|e l IH]; intros [|u us] ts b b' errs Hs El Hnd Hsub E; [| |done|]; simpl in *.
  - injection E as <- <-. exists ts. split; [done|]. split; [done|]. split; [auto|]. by intros _ t Ht%not_elem_of_nil.
  - done.
  - injection El as Ee El. apply NoDup_cons in Hnd as [Hu Hnd]. rewrite Ee in E. destruct (remove_step _ _ _ b) as [b1 errs1] eqn:E1.
    destruct (each _ l b1) as [b2 errs2] eqn:E2. injection E as <- <-.
    eapply remove_step_state in E1; [|exact Hs|apply Hsub; left]. destruct E1 as [[Hs1 Hk]|(ts1 & HP & Hs1 & Hk)].
    + edestruct IH as (ts' & S1 & S2 & S3 & S4); [exact Hs1|exact El|done|intros; apply Hsub; by right|exact E2|].
      exists ts'. split; [done|]. split; [done|]. split; [intros t Ht [Hn|?]; [|auto]; apply S3; [done|left; set_solver]|].
      intros [-> ->]%app_nil t [->|Ht]%elem_of_cons ?; [by destruct Hk|auto].
    + assert (NoDup (u :: ts1)) as [Hn1 _]%NoDup_cons by (rewrite <- HP; apply Hs).
      edestruct IH as (ts' & S1 & S2 & S3 & S4); [exact Hs1|exact El|done| |exact E2|].
      { intros t Ht. assert (t ∈ u :: ts1) as [->|?]%elem_of_cons by (rewrite <- HP; apply Hsub; by right); [done|done]. }
      exists ts'. split; [done|]. split; [intros t Ht; rewrite HP; right; auto|]. split.
      * intros t Ht Hd. rewrite HP in Ht. apply elem_of_cons in Ht as [->|Ht]; [destruct Hd as [Hd|Hd]; [exfalso; apply Hd; left|rewrite Hk in Hd; by destruct Hd]|].
        apply S3; [done|]. destruct Hd as [Hd|?]; [left; set_solver|by right].
      * intros [-> ->]%app_nil t [->|Ht]%elem_of_cons Hin; [by apply S2 in Hin|auto].
Qed.

Lemma add_loop port (l : list (string * InterceptTarget)) ts b b' errs :
  ib_state port ts b → Forall (λ e, e.1 = Target_Key e.2 ∧ target_ok e.2) l → each (λ e, add_step port e.1 e.2) l b = (b', errs) →
  ∃ ts', ib_state port ts' b' ∧ (∀ t, t ∈ ts' → t ∈ ts ∨ t ∈ l.*2) ∧ (∀ t, t ∈ ts → t ∈ ts') ∧ (errs = [] → ∀ t, t ∈ l.*2 → t ∈ ts').
Proof.
  intros Hs Hl. revert ts b b' errs Hs. induction Hl as [|[key t] l [Hk Ht] _ IH]; intros ts b b' errs Hs E; simpl in *.
  { injection E as <- <-. exists ts. split; [done|]. split; [auto|]. split; [auto|]. by intros _ t Ht%not_elem_of_nil. }
  destruct (add_step port key t b) as [b1 errs1] eqn:E1. destruct (each _ l b1) as [b2 errs2] eqn:E2. injection E as <- <-. subst key.
  assert (∃ ts1, ib_state port ts1 b1 ∧ (∀ u, u ∈ ts1 → u ∈ ts ∨ u = t) ∧ (∀ u, u ∈ ts → u ∈ ts1) ∧ (errs1 = [] → t ∈ ts1)) as (ts1 & Hs1 & A1 & A2 & A3).
  { unfold add_step in E1. destruct (map_get false _ _) eqn:Eg.
    - injection E1 as <- <-. exists ts. split; [done|]. split; [auto|]. split; [auto|]. intros _. unfold map_get in Eg.
      destruct (ib_currentRules b !! Target_Key t) as [v|] eqn:El; [|done]. apply (ibs_current _ _ _ Hs) in El as [_ (u & Eu & Hu)%list_elem_of_fmap].
      apply Target_Key_inj in Eu as ->; [done|done|]. eapply Forall_forall; [apply Hs|done].
    - assert (t ∉ ts) as Hn.
      { intros Hin. assert (ib_currentRules b !! Target_Key t = Some true) as El by (apply (ibs_current _ _ _ Hs); split; [done|by apply list_elem_of_fmap_2]).
        unfold map_get in Eg. by rewrite El in Eg. }
      destruct (addRule t port b) as [b3 [|]] eqn:Ea; injection E1 as <- <-.
      + exists (t :: ts). split; [by eapply addRule_state|]. set_solver.
      + exists ts. split; [by eapply addRule_failed|]. set_solver. }
  destruct (IH _ _ _ _ Hs1 E2) as (ts' & S1 & S2 & S3 & S4). exists ts'. split; [done|]. split.
  { intros u Hu. apply S2 in Hu as [Hu|Hu]; [|by right; right]. apply A1 in Hu as [Hu| ->]; [by left|by right; left]. }
  split; [auto|]. intros [-> ->]%app_nil u [->|Hu]%elem_of_cons; auto.
Qed.

(** The keys of the current rules are those of the targets. *)
Lemma current_keys port ts b : ib_state port ts b → ∃ us, (visit _ (ib_currentRules b)).*1 = Target_Key <$> us ∧ NoDup us ∧ us ≡ₚ ts.
Proof.
  intros Hs. assert (NoDup (Target_Key <$> ts)) as Hnd.
  { apply NoDup_fmap_2_strong; [|apply Hs]. intros t u Ht Hu E. pose proof (ibs_ok _ _ _ Hs) as Hok. rewrite Forall_forall in Hok. apply Target_Key_inj; auto. }
  assert ((visit _ (ib_currentRules b)).*1 ≡ₚ Target_Key <$> ts) as HP.
  { apply NoDup_Permutation; [|done|].
    - rewrite (visit_order _ _). apply NoDup_fst_map_to_list.
    - intros key. rewrite (visit_order _ _), list_elem_of_fmap. split.
      + intros ([k v] & -> & E%elem_of_map_to_list). by apply (ibs_current _ _ _ Hs) in E as [_ ?].
      + intros Hin. exists (key, true). split; [done|]. apply elem_of_map_to_list. by apply (ibs_current _ _ _ Hs). }
  apply Permutation_map_inv in HP as (us & E & HP). exists us. split; [exact E|]. split; [rewrite <- HP; apply Hs|by symmetry].
Qed.

Lemma iptables_ApplyRules_state port targets ts b b' errs :
  ib_state port ts b → Forall target_ok targets → iptables_ApplyRules visit targets port b = (b', errs) →
  ∃ ts', ib_state port ts' b' ∧ (∀ t, t ∈ ts' → t ∈ ts ∨ t ∈ targets) ∧ (∀ t, t ∈ ts → t ∈ targets → t ∈ ts') ∧
    (errs = [] → ∀ t, t ∈ ts' ↔ t ∈ targets).
Proof.
  intros Hs Hok E. unfold iptables_ApplyRules in E. destruct (each _ (visit _ (ib_currentRules b)) b) as [b1 errs1] eqn:E1.
  destruct (each _ (visit _ (desired_targets targets)) b1) as [b2 errs2] eqn:E2. injection E as <- <-.
  destruct (current_keys _ _ _ Hs) as (us & Eu & Hnd & HP).
  eapply remove_loop in E1 as (ts1 & S1 & S2 & S3 & S4); [|exact Hs|exact Eu|done|intros t; by rewrite HP].
  assert (∀ t, t ∈ (visit _ (desired_targets targets)).*2 ↔ t ∈ targets) as Hd.
  { intros t. rewrite (visit_order _ _), list_elem_of_fmap. split.
    - intros ([k u] & -> & Hu%elem_of_map_to_list). by apply desired_targets_lookup in Hu as [? _].
    - intros Hin. exists (Target_Key t, t). split; [done|]. apply elem_of_map_to_list. by apply desired_targets_lookup. }
  eapply add_loop in E2 as (ts2 & A1 & A2 & A3 & A4); [|exact S1|].
  2:{ apply Forall_forall. intros [k u] Hin. rewrite (visit_order _ _) in Hin. apply elem_of_map_to_list, desired_targets_lookup in Hin as [Hu ->]; [|done].
      split; [done|]. rewrite Forall_forall in Hok. by apply Hok. }
  pose proof (ibs_ok _ _ _ Hs) as Hts. rewrite Forall_forall in Hts.
  exists ts2. split; [done|]. split; [intros t [Ht|Ht]%A2; [auto|right; by apply Hd]|]. split.
  - intros t Ht Htt. apply A3, S3; [done|]. right. apply desired_targets_is_Some; auto.
  - intros [-> ->]%app_nil t. split; [|intros Ht; apply A4; [done|by apply Hd]].
    intros [Ht|Ht]%A2; [|by apply Hd]. apply desired_targets_is_Some; [done|auto|]. apply S4; [done|by rewrite HP; auto|done].
Qed.

Lemma ib_state_intercepts port ts b t : ib_state port ts b → target_ok t → rb_intercepts (RuleBackend := iptables_backend visit) port t b ↔ t ∈ ts.
Proof.
  intros Hs Ht. simpl. rewrite (ibs_rules _ _ _ Hs), list_elem_of_fmap. pose proof (ibs_ok _ _ _ Hs) as Hok. rewrite Forall_forall in Hok. split.
  - intros [_ (u & E & Hu)]. apply target_spec_inj in E as ->; auto.
  - intros Hin. split; [apply Hs|by exists t].
Qed.

Lemma ensureChain_state port b b' :
  ipt_rules (ib_kernel b) = [] → ib_currentRules b = ∅ → ensureChain b = (b', true) → ib_state port [] b'.
Proof.
  intros Hr Hc E. unfold ensureChain, run in E. destruct (iptables _ (ib_kernel b)) as [k1 r1] eqn:E1.
  assert (ipt_rules k1 = []) as Hr1 by (destruct r1 as [out|e]; [by apply ipt_new in E1 as [-> _]|by apply ipt_failed in E1 as [-> _]]).
  destruct (match r1 with inl _ => _ | inr _ => _ end); [done|]. simpl in E. destruct (iptables _ k1) as [k2 [out|e]] eqn:E2; [|done].
  apply ipt_list in E2 as (Hr2 & Hj2 & Ho). destruct (Contains out novaedgeChain).
  - injection E as <-. split; simpl; [congruence|done|constructor|by rewrite Hr2, Hr1|]. intros key v. rewrite Hc, lookup_empty. set_solver.
  - simpl in E. destruct (iptables _ k2) as [k3 [out'|e]] eqn:E3; [|done]. injection E as <-. apply ipt_insert in E3 as [Hr3 Hj3].
    split; simpl; [done|done|constructor|by rewrite Hr3, Hr2, Hr1|]. intros key v. rewrite Hc, lookup_empty. set_solver.
Qed.

#[export] Instance iptables_laws : @RuleBackendLaws backend (iptables_backend visit).
Proof.
  refine (@Build_RuleBackendLaws backend (iptables_backend visit)
    (λ b, ipt_rules (ib_kernel b) = [] ∧ ib_currentRules b = ∅) (λ port b, ∃ ts, ib_state port ts b) _ _).
  - intros port b b' [Hr Hc] _ E. simpl in E. unfold iptables_Setup in E. destruct (ensureRouteLocalnet _) as [s [|]]; [|done].
    eapply (ensureChain_state port) in E; [|done..]. split; [by exists []|]. intros t _ [_ Hin]. rewrite (ibs_rules _ _ _ E) in Hin. by apply not_elem_of_nil in Hin.
  - intros port ts b [old Hs] _ Hok. simpl. destruct (iptables_ApplyRules visit ts port b) as [b' errs] eqn:E.
    eapply iptables_ApplyRules_state in E as (new & Hs' & S1 & S2 & S3); [|done..]. exists b', (bool_decide (length errs = 0%nat)).
    split; [done|]. split; [by exists new|]. pose proof (λ t, ib_state_intercepts _ _ _ t Hs) as I1. pose proof (λ t, ib_state_intercepts _ _ _ t Hs') as I2.
    simpl in I1, I2. case_bool_decide as El.
    + apply nil_length_inv in El. intros t Ht. by rewrite I2, S3.
    + intros t Ht. rewrite I1, I2 by done. auto.
Defined.
End iptables_laws.

(** ** The nftables backend keeps its promises *)

(** *** Addresses *)

Definition byte_text (b : Z) : bool :=
  let s := format_d b in ipv4_field s && bool_decide (parse_unsigned s = Some b) && no_char "." s && no_char ":" s && no_char "%" s.
Lemma byte_text_all b : is_byte b → byte_text b = true.
Proof.
  intros Hb. assert (forallb (λ n, byte_text (Z.of_nat n)) (seq 0 256) = true) as Hall by (vm_compute; reflexivity).
  rewrite forallb_forall in Hall. rewrite <- (Z2Nat.id b) by (unfold is_byte in Hb; lia). apply Hall.
  apply in_seq. unfold is_byte in Hb. lia.
Qed.

Lemma address_form_dot s rest : no_char "." s = true → no_char ":" s = true → no_char "%" s = true → address_form (s +:+ String "." rest) = Some "."%char.
Proof.
  induction s as [|c s IH]; [done|]. simpl. intros H1 H2 H3. bool_prop.
  rewrite !bool_decide_eq_false_2 by congruence. by apply IH.
Qed.

Lemma dotted_bytes a b c d : Forall is_byte [a; b; c; d] → ParseIP_To4 (dotted a b c d) = Some [a; b; c; d].
Proof.
  intros Hf. rewrite !Forall_cons in Hf. destruct Hf as (Ha%byte_text_all & Hb%byte_text_all & Hc%byte_text_all & Hd%byte_text_all & _).
  unfold byte_text in Ha, Hb, Hc, Hd. bool_prop.
  change (dotted a b c d) with (format_d a +:+ String "." (format_d b +:+ String "." (format_d c +:+ String "." (format_d d)))).
  assert (address_form (format_d a +:+ String "." (format_d b +:+ String "." (format_d c +:+ String "." (format_d d)))) = Some "."%char) as Ef by by apply address_form_dot.
  unfold ParseIP_To4, ParseIP, ipv4_bytes, parseIPv4. rewrite Ef. rewrite !Split_app by done. rewrite Split_no_char by done.
  repeat match goal with E : ipv4_field _ = true |- _ => rewrite E; clear E end. simpl.
  by repeat match goal with E : parse_unsigned _ = Some _ |- _ => rewrite E; clear E; simpl end.
Qed.

Lemma target_bytes t : target_ok t → ∃ ip, ParseIP_To4 (it_ClusterIP t) = Some ip ∧ length ip = 4%nat.
Proof. intros [(a & b & c & d & Hf & ->) _]. exists [a; b; c; d]. split; [by apply dotted_bytes|done]. Qed.
Lemma target_bytes_inj t u : target_ok t → target_ok u → ParseIP_To4 (it_ClusterIP t) = ParseIP_To4 (it_ClusterIP u) → it_ClusterIP t = it_ClusterIP u.
Proof. intros [(a & b & c & d & Hf & ->) _] [(a' & b' & c' & d' & Hf' & ->) _]. rewrite !dotted_bytes by done. by intros [= -> -> -> ->]. Qed.
Lemma put_uint16_inj n m : port_ok n → port_ok m → put_uint16 n = put_uint16 m → n = m.
Proof.
  unfold port_ok, put_uint16. intros Hn Hm E. rewrite (Z.mod_small n), (Z.mod_small m) in E by lia. assert (n / 256 = m / 256 ∧ n mod 256 = m mod 256) as [E1 E2] by (split; congruence).
  pose proof (Z.div_mod n 256 ltac:(lia)). pose proof (Z.div_mod m 256 ltac:(lia)). lia.
Qed.

(** *** Rules *)

(** A rule redirects exactly the TCP packets for its address and port. *)
Lemma redirect_verdict ip port tproxyPort p :
  rule_verdict (redirect_exprs ip port tproxyPort) ∅ p =
  if decide (pk_protocol p = IPPROTO_TCP ∧ field_of (pk_network p) 16 4 = ip ∧ field_of (pk_transport p) 2 2 = put_uint16 port)
  then Some ([127; 0; 0; 1], put_uint16 tproxyPort) else None.
Proof.
  unfold redirect_exprs, rule_verdict. rewrite !lookup_insert_eq.
  destruct (decide (Some [pk_protocol p] = _)) as [E1|E1]; [|rewrite decide_False by (intros (? & ? & ?); congruence); done].
  destruct (decide (Some (field_of (pk_network p) 16 4) = _)) as [E2|E2]; [|rewrite decide_False by (intros (? & ? & ?); congruence); done].
  destruct (decide (Some (field_of (pk_transport p) 2 2) = _)) as [E3|E3]; [|rewrite decide_False by (intros (? & ? & ?); congruence); done].
  rewrite decide_True by (split_and!; congruence). by rewrite lookup_insert_ne, lookup_insert_eq.
Qed.

Lemma buildRedirectRule_ok t port : target_ok t → port_ok port →
  ∃ ip, ParseIP_To4 (it_ClusterIP t) = Some ip ∧ buildRedirectRule t port = inl (redirect_exprs ip (it_Port t) port).
Proof.
  intros Ht Hp. destruct (target_bytes t Ht) as (ip & Ei & _). exists ip. split; [done|]. unfold buildRedirectRule. rewrite Ei.
  destruct Ht as [_ Hpt]. unfold port_ok in *. by rewrite !bool_decide_eq_false_2 by lia.
Qed.

(** The rule of a target that can be intercepted. *)
Definition target_rule (port : Z) (t : InterceptTarget) : list expr := match buildRedirectRule t port with inl r => r | inr _ => [] end.

Lemma target_rule_verdict port t p : target_ok t → port_ok port →
  (connects_to t p → rule_verdict (target_rule port t) ∅ p = Some ([127; 0; 0; 1], put_uint16 port)) ∧
  (∀ v, rule_verdict (target_rule port t) ∅ p = Some v → connects_to t p ∧ v = ([127; 0; 0; 1], put_uint16 port)).
Proof.
  intros Ht Hp. destruct (buildRedirectRule_ok t port Ht Hp) as (ip & Ei & Eb). unfold target_rule, connects_to. rewrite Eb, redirect_verdict, Ei. split.
  - intros (E1 & E2 & E3). rewrite decide_True; [done|]. by injection E2 as ->.
  - intros v. destruct (decide _) as [(E1 & E2 & E3)|]; [|done]. intros [= <-]. by rewrite E2.
Qed.

Lemma chain_verdict_targets port ts p : Forall target_ok ts → port_ok port →
  (∀ t, t ∈ ts → connects_to t p → chain_verdict (target_rule port <$> ts) p = Some ([127; 0; 0; 1], put_uint16 port)) ∧
  (∀ v, chain_verdict (target_rule port <$> ts) p = Some v → ∃ t, t ∈ ts ∧ connects_to t p).
Proof.
  intros Hok Hp. induction Hok as [|u ts Hu _ [IH1 IH2]]; [split; [by intros t Ht%not_elem_of_nil|done]|].
  destruct (target_rule_verdict port u p Hu Hp) as [V1 V2]. simpl. destruct (rule_verdict (target_rule port u) ∅ p) as [v|] eqn:Ev.
  - destruct (V2 v eq_refl) as [Hc ->]. split; [done|]. intros _ _. exists u. split; [left|done].
  - split; [intros t [->|Ht]%elem_of_cons Hc; [by apply V1 in Hc|by eapply IH1]|]. intros v Hv. destruct (IH2 v Hv) as (t & Ht & Hc). exists t. split; [by right|done].
Qed.

(** A packet for a target. *)
Definition packet_to (t : InterceptTarget) : packet :=
  mkPacket IPPROTO_TCP (replicate 16 0 ++ default [] (ParseIP_To4 (it_ClusterIP t))) ([0; 0] ++ put_uint16 (it_Port t)).
Lemma packet_to_connects t : target_ok t → connects_to t (packet_to t).
Proof.
  intros Ht. destruct (target_bytes t Ht) as (ip & Ei & Hl). unfold connects_to, packet_to. rewrite Ei. split; [done|]. split; [|done].
  unfold field_of. simpl. by destruct ip as [|? [|? [|? [|? [|? ?]]]]].
Qed.
Lemma connects_to_inj t u p : target_ok t → target_ok u → connects_to t p → connects_to u p → t = u.
Proof.
  intros Ht Hu (_ & A1 & B1) (_ & A2 & B2). rewrite <- A2 in A1. apply target_bytes_inj in A1; [|done..]. rewrite B1 in B2.
  apply put_uint16_inj in B2; [|apply Ht|apply Hu]. destruct t, u; simpl in *; congruence.
Qed.

(** *** Batches *)

Definition has_chain (k : ruleset) (rules : list (list expr)) : Prop :=
  ∃ chains, k !! nftTableName = Some chains ∧ chains !! nftChainName = Some rules.
Lemma has_chain_rules k rules : has_chain k rules → chain_rules k = rules.
Proof. intros (chains & E1 & E2). unfold chain_rules. by rewrite E1; simpl; rewrite E2. Qed.

(** Commands that are left in the buffer by a call that failed. *)
Definition rule_cmd (c : nft_cmd) : Prop := c = FlushChain nftTableName nftChainName ∨ ∃ r, c = AddRule nftTableName nftChainName r.

Lemma exec_batch_app l1 l2 k : exec_batch (l1 ++ l2) k = exec_batch l1 k ≫= exec_batch l2.
Proof.
  unfold exec_batch. rewrite foldl_app. destruct (foldl _ (Some k) l1) as [k'|]; [done|]. simpl. by induction l2.
Qed.
Lemma exec_rule_cmds cmds k rules : has_chain k rules → Forall rule_cmd cmds → ∃ k' rules', exec_batch cmds k = Some k' ∧ has_chain k' rules'.
Proof.
  intros Hk Hc. revert k rules Hk. induction Hc as [|c cmds Hc _ IH]; intros k rules (chains & E1 & E2); [exists k, rules; split; [done|by exists chains]|].
  destruct Hc as [-> |[r ->]]; unfold exec_batch; simpl; rewrite E1; simpl; rewrite E2; simpl; eapply IH; eexists; split; apply lookup_insert_eq.
Qed.
Lemma exec_add_rules rs k rules : has_chain k rules →
  ∃ k', exec_batch (AddRule nftTableName nftChainName <$> rs) k = Some k' ∧ has_chain k' (rules ++ rs).
Proof.
  revert k rules. induction rs as [|r rs IH]; intros k rules (chains & E1 & E2); [exists k; rewrite app_nil_r; split; [done|by exists chains]|].
  assert (rules ++ r :: rs = (rules ++ [r]) ++ rs) as -> by (by rewrite <- app_assoc).
  unfold exec_batch. simpl. rewrite E1. simpl. rewrite E2. simpl. apply IH. eexists. split; apply lookup_insert_eq.
Qed.
(** A batch that flushes the chain and adds rules leaves these, whatever was left in
    the buffer before it. *)
Lemma exec_replace pending rs k k' rules :
  has_chain k rules → Forall rule_cmd pending →
  exec_batch ((pending ++ [FlushChain nftTableName nftChainName]) ++ (AddRule nftTableName nftChainName <$> rs)) k = Some k' → has_chain k' rs.
Proof.
  intros Hk Hp E. rewrite !exec_batch_app in E. destruct (exec_rule_cmds _ _ _ Hk Hp) as (k1 & r1 & E1 & chains & C1 & C2). rewrite E1 in E. simpl in E.
  change (exec_batch [FlushChain nftTableName nftChainName] k1) with (exec_cmd k1 (FlushChain nftTableName nftChainName)) in E.
  simpl in E. rewrite C1 in E. simpl in E. rewrite C2 in E. simpl in E.
  destruct (exec_add_rules rs (<[nftTableName := <[nftChainName := []]> chains]> k1) []) as (k2 & E2 & Hk2); [eexists; split; apply lookup_insert_eq|].
  rewrite E2 in E. by injection E as <-.
Qed.

Section nftables_laws.
Context `{TextTables} {C : Type} `{NFTables C}.
#[local] Notation backend := (nftablesBackend (C := C)).
#[local] Existing Instance nftables_backend.

Record nb_state (port : Z) (ts : list InterceptTarget) (b : backend) : Prop := {
  nbs_table : nb_table b = Some nftTableName;
  nbs_chain : nb_chain b = Some (nftTableName, nftChainName);
  nbs_ok : Forall target_ok ts;
  nbs_rules : has_chain (conn_kernel (nb_conn b)) (target_rule port <$> ts);
  nbs_pending : Forall rule_cmd (conn_pending (nb_conn b));
}.

Lemma add_rules_ok port ts c : Forall target_ok ts → port_ok port →
  ∃ c', add_rules nftTableName nftChainName ts port c = (c', true) ∧ conn_kernel c' = conn_kernel c ∧
    conn_pending c' = conn_pending c ++ (AddRule nftTableName nftChainName <$> (target_rule port <$> ts)).
Proof.
  intros Hok Hp. revert c. induction Hok as [|t ts Ht _ IH]; intros c; [exists c; by rewrite app_nil_r|].
  destruct (buildRedirectRule_ok t port Ht Hp) as (ip & _ & Eb). simpl. unfold target_rule at 1. rewrite Eb.
  destruct (IH (conn_add (AddRule nftTableName nftChainName (redirect_exprs ip (it_Port t) port)) c)) as (c' & E & Ek & Ep).
  exists c'. split; [done|]. rewrite Ek, Ep, conn_add_kernel, conn_add_pending. split; [done|]. by rewrite <- app_assoc.
Qed.

Lemma nb_state_intercepts port ts b t : nb_state port ts b → target_ok t → port_ok port → rb_intercepts port t b ↔ t ∈ ts.
Proof.
  intros Hs Ht Hp. simpl. rewrite (has_chain_rules _ _ (nbs_rules _ _ _ Hs)).
  split.
  - intros Hi. destruct (chain_verdict_targets port ts (packet_to t) (nbs_ok _ _ _ Hs) Hp) as [_ V].
    destruct (V _ (Hi _ (packet_to_connects t Ht))) as (u & Hu & Hc). pose proof (nbs_ok _ _ _ Hs) as Hok. rewrite Forall_forall in Hok.
    rewrite (connects_to_inj t u (packet_to t)); [done|done|by apply Hok|by apply packet_to_connects|done].
  - intros Hin p Hc. destruct (chain_verdict_targets port ts p (nbs_ok _ _ _ Hs) Hp) as [V _]. by eapply V.
Qed.

(** No command waits, and the deletion of the old table is refused only if there is
    none. *)
Definition nb_fresh (b : backend) : Prop :=
  conn_pending (nb_conn b) = [] ∧
  ∀ c, conn_Flush (conn_add (DelTable nftTableName) (nb_conn b)) = (c, false) → conn_kernel (nb_conn b) !! nftTableName = None.

Lemma nftables_Setup_state port b b' : nb_fresh b → rb_Setup b = (b', true) → nb_state port [] b'.
Proof.
  simpl. unfold nftables_Setup. intros [Hpend Hdel] E. destruct (ensureRouteLocalnet _) as [s [|]]; [|done].
  destruct (conn_Flush (conn_add (DelTable _) _)) as [c1 ok1] eqn:E1.
  assert (conn_kernel c1 !! nftTableName = None ∧ conn_pending c1 = []) as [Hk Hp1].
  { destruct ok1; [|destruct (conn_refused _ _ E1) as [-> ?]; rewrite conn_add_kernel; eauto].
    apply conn_flushed in E1 as [Ex ?]. split; [|done]. rewrite conn_add_pending, conn_add_kernel, Hpend in Ex. unfold exec_batch in Ex. simpl in Ex.
    destruct (conn_kernel (nb_conn b) !! nftTableName); [|done]. injection Ex as <-. apply lookup_delete_eq. }
  destruct (conn_Flush (conn_add (AddChain _ _) _)) as [c2 ok2] eqn:E2.
  injection E as <- ->. apply conn_flushed in E2 as [Ex Hp2]. rewrite !conn_add_pending, !conn_add_kernel, Hp1 in Ex.
  split; simpl; [done|done|constructor| |by rewrite Hp2]. unfold exec_batch in Ex. cbn [app foldl mbind option_bind exec_cmd] in Ex.
  rewrite Hk in Ex. rewrite (lookup_insert_eq (M := gmap string)) in Ex. cbn [app foldl mbind option_bind exec_cmd] in Ex. injection Ex as <-. eexists. split; apply lookup_insert_eq.
Qed.

Lemma nftables_ApplyRules_state port old ts b : nb_state port old b → port_ok port → Forall target_ok ts →
  ∃ b' ok, nftables_ApplyRules ts port b = Returns (b', ok) ∧ nb_state port (if ok then ts else old) b'.
Proof.
  intros Hs Hp Hok. unfold nftables_ApplyRules. rewrite (nbs_chain _ _ _ Hs).
  destruct (add_rules_ok port ts (conn_add (FlushChain nftTableName nftChainName) (nb_conn b)) Hok Hp) as (c & -> & Ek & Ep).
  rewrite conn_add_kernel in Ek. rewrite conn_add_pending in Ep. destruct (conn_Flush c) as [c' ok] eqn:Ef. eexists _, ok. split; [done|].
  destruct Hs as [H1 H2 H3 H4 H5]. destruct ok.
  - apply conn_flushed in Ef as [Ex Hp']. rewrite Ek, Ep in Ex. apply exec_replace with (rules := target_rule port <$> old) in Ex; [|done..].
    split; simpl; [done..|by rewrite Hp'].
  - apply conn_refused in Ef as [Ek' Hp']. split; simpl; [done..|by rewrite Ek', Ek|by rewrite Hp'].
Qed.

#[export] Instance nftables_laws : RuleBackendLaws backend.
Proof.
  refine (@Build_RuleBackendLaws backend nftables_backend nb_fresh (λ port b, ∃ ts, nb_state port ts b) _ _).
  - intros port b b' Hf Hp E. eapply (nftables_Setup_state port) in E; [|done]. split; [by exists []|].
    intros t Ht. rewrite (nb_state_intercepts _ _ _ _ E Ht Hp). apply not_elem_of_nil.
  - intros port ts b [old Hs] Hp Hok. destruct (nftables_ApplyRules_state port old ts b Hs Hp Hok) as (b' & ok & E & Hs').
    exists b', ok. split; [done|]. split; [by eexists|]. destruct ok; intros t Ht; [by rewrite nb_state_intercepts|].
    rewrite (nb_state_intercepts _ _ _ _ Hs' Ht Hp), (nb_state_intercepts _ _ _ _ Hs Ht Hp). auto.
Defined.
End nftables_laws.

(** ** The manager of the rules *)

Section manager.
Context {B : Type} `{RuleBackend B}.

Record TPROXYManager := mkTPROXYManager {
  tm_backend : B;
  tm_tproxyPort : Z;
  tm_intercepted : gmap string InterceptTarget;
}.
Definition NewTPROXYManagerWithBackend (tproxyPort : Z) (backend : B) : TPROXYManager := mkTPROXYManager backend tproxyPort ∅.

Definition TPROXY_Setup (m : TPROXYManager) : TPROXYManager * bool :=
  let '(b, ok) := rb_Setup (tm_backend m) in (mkTPROXYManager b (tm_tproxyPort m) (tm_intercepted m), ok).
Definition TPROXY_ApplyRules (desired : list InterceptTarget) (m : TPROXYManager) : outcome (TPROXYManager * bool) :=
  let! r := rb_ApplyRules desired (tm_tproxyPort m) (tm_backend m) in
  let '(b, ok) := r in
  Returns (mkTPROXYManager b (tm_tproxyPort m) (if ok then desired_targets desired else tm_intercepted m), ok).
Definition TPROXY_Cleanup (m : TPROXYManager) : TPROXYManager * bool :=
  let '(b, ok) := rb_Cleanup (tm_backend m) in (mkTPROXYManager b (tm_tproxyPort m) (if ok then ∅ else tm_intercepted m), ok).
Definition ActiveRuleCount (m : TPROXYManager) : nat := size (tm_intercepted m).

(** A history of configurations, and whether each was applied. *)
Fixpoint apply_all (history : list (list InterceptTarget)) (m : TPROXYManager) : outcome (TPROXYManager * list bool) :=
  match history with
  | [] => Returns (m, [])
  | ts :: history =>
      let! r := TPROXY_ApplyRules ts m in
      let! rs := apply_all history r.1 in Returns (rs.1, r.2 :: rs.2)
  end.

(** Whether the manager redirects the connections to a target. *)
Definition intercepts (m : TPROXYManager) (t : InterceptTarget) : Prop := rb_intercepts (tm_tproxyPort m) t (tm_backend m).
Definition manager_ok `{!RuleBackendLaws B} (m : TPROXYManager) : Prop := port_ok (tm_tproxyPort m) ∧ rb_ok (tm_tproxyPort m) (tm_backend m).

Context `{!RuleBackendLaws B}.

Lemma TPROXY_ApplyRules_ok m ts : manager_ok m → Forall target_ok ts →
  ∃ m' ok, TPROXY_ApplyRules ts m = Returns (m', ok) ∧ manager_ok m' ∧
    (if ok then (∀ t, target_ok t → intercepts m' t ↔ t ∈ ts) ∧ tm_intercepted m' = desired_targets ts
     else (∀ t, target_ok t → (intercepts m' t → intercepts m t ∨ t ∈ ts) ∧ (intercepts m t → t ∈ ts → intercepts m' t)) ∧ tm_intercepted m' = tm_intercepted m).
Proof.
  intros [Hp Hm] Hts. destruct (rb_apply _ ts _ Hm Hp Hts) as (b & ok & E & Hb & Hi). unfold TPROXY_ApplyRules. rewrite E. simpl.
  eexists _, ok. split; [done|]. split; [done|]. by destruct ok.
Qed.

(** Along a history that ends with a configuration that was applied, exactly the
    targets of this one are intercepted; along any history, only targets that were
    configured or intercepted before. *)
Lemma apply_all_ok history m : manager_ok m → Forall (Forall target_ok) history →
  ∃ m' oks, apply_all history m = Returns (m', oks) ∧ manager_ok m' ∧ length oks = length history ∧
    (∀ t, target_ok t → intercepts m' t → intercepts m t ∨ ∃ ts, ts ∈ history ∧ t ∈ ts) ∧
    (∀ t, target_ok t → intercepts m t → (∀ ts, ts ∈ history → t ∈ ts) → intercepts m' t) ∧
    (∀ t n ts, target_ok t → history !! n = Some ts → oks !! n = Some true → (∀ n' ts', (n ≤ n')%nat → history !! n' = Some ts' → t ∈ ts') → intercepts m' t) ∧
    (∀ ts, last history = Some ts → last oks = Some true → (∀ t, target_ok t → intercepts m' t ↔ t ∈ ts) ∧ tm_intercepted m' = desired_targets ts).
Proof.
  intros Hm Hh. revert m Hm. induction Hh as [|ts history Hts _ IH]; intros m Hm.
  { exists m, []. split; [done|]. split; [done|]. split; [done|]. split; [auto|]. split; [auto|]. by split. }
  destruct (TPROXY_ApplyRules_ok m ts Hm Hts) as (m1 & ok & E1 & Hm1 & Hi1).
  destruct (IH m1 Hm1) as (m2 & oks & E2 & Hm2 & Hl & S1 & S2 & S4 & S3). exists m2, (ok :: oks). simpl. rewrite E1. simpl. rewrite E2. simpl.
  split; [done|]. split; [done|]. split; [lia|].
  assert (∀ t, target_ok t → (intercepts m1 t → intercepts m t ∨ t ∈ ts) ∧ (intercepts m t → t ∈ ts → intercepts m1 t)) as Hstep.
  { intros t Ht. destruct ok; [|by apply Hi1]. destruct Hi1 as [Hi1 _]. rewrite Hi1 by done. tauto. }
  split; [|split; [|split]].
  - intros t Ht [Hi|(ts' & ? & ?)]%S1; [|right; exists ts'; split; [by right|done]|done].
    apply Hstep in Hi as [?|?]; [by left|right; exists ts; split; [left|done]|done].
  - intros t Ht Hi Hall. apply S2; [done|apply Hstep; [done|done|apply Hall; left]|]. intros ts' ?. apply Hall. by right.
  - intros t [|n] ts' Ht En Eo Hall; simpl in En, Eo.
    + injection En as <-. injection Eo as ->. apply S2; [done|apply Hi1; [done|by eapply (Hall 0%nat)]|].
      intros ts' [n En]%list_elem_of_lookup. by eapply (Hall (S n)); [lia|].
    + eapply S4; [done|exact En|exact Eo|]. intros n' ts2 Hn En'. eapply (Hall (S n')); [lia|exact En'].
  - intros ts' El Eo. destruct history as [|ts2 history]; [|destruct oks as [|ok2 oks]; [done|by apply S3]].
    destruct oks; [|done]. injection El as <-. injection Eo as ->. simpl in E2. injection E2 as <-. exact Hi1.
Qed.
End manager.

(** C23: The agent intercepts what it is configured to, for the iptables and the
    nftables backend alike. Start from a kernel without rules of an earlier agent,
    in which the setup succeeds, with a listener port that is a port number;
    then along every history of configurations of well-formed targets, with
    whichever commands fail: no call panics; only connections to targets that
    were once configured are redirected; a target keeps being intercepted as
    long as, from a call that succeeded on, every configuration asks for it; and
    after a configuration that was applied, exactly its targets are. *)
Theorem interception_follows_targets {B : Type} `{RuleBackendLaws B} (port : Z) (b b0 : B) (history : list (list InterceptTarget)) (t : InterceptTarget)
    (Hfresh : rb_fresh b) (Hport : port_ok port) (Hsetup : rb_Setup b = (b0, true)) (Hok : Forall (Forall target_ok) history) (Ht : target_ok t) :
  ∃ m oks, apply_all history (NewTPROXYManagerWithBackend port b0) = Returns (m, oks) ∧
    (intercepts m t → ∃ ts, ts ∈ history ∧ t ∈ ts) ∧
    (∀ n ts, history !! n = Some ts → oks !! n = Some true → (∀ n' ts', (n ≤ n')%nat → history !! n' = Some ts' → t ∈ ts') → intercepts m t) ∧
    (∀ ts, last history = Some ts → last oks = Some true → (intercepts m t ↔ t ∈ ts) ∧ tm_intercepted m = desired_targets ts).
Proof.
  destruct (rb_setup port b b0 Hfresh Hport Hsetup) as [Hb Hnone]. set (m0 := NewTPROXYManagerWithBackend port b0).
  assert (manager_ok m0) as Hm0 by done.
  destruct (apply_all_ok history m0 Hm0 Hok) as (m & oks & E & Hm & Hl & S1 & S2 & S4 & S3). exists m, oks. split; [done|]. split; [|split].
  - intros [Hi|?]%S1; [by apply Hnone in Hi|done|done].
  - intros n ts En Eo Hall. by eapply S4.
  - intros ts El Eo. destruct (S3 ts El Eo) as [Hi Ei]. auto.
Qed.

(** ** Kernels for examples *)

(** Netlink with a list that says which batches are accepted (all at its end). *)
Record example_conn := mkExampleConn { ec_pending : list nft_cmd; ec_kernel : ruleset; ec_oracle : list bool }.
Definition example_flush (c : example_conn) : example_conn * bool :=
  match (if default true (head (ec_oracle c)) then exec_batch (ec_pending c) (ec_kernel c) else None) with
  | Some k => (mkExampleConn [] k (tail (ec_oracle c)), true)
  | None => (mkExampleConn [] (ec_kernel c) (tail (ec_oracle c)), false)
  end.
#[export] Instance example_nftables : NFTables example_conn.
Proof.
  refine {| conn_add cmd c := mkExampleConn (ec_pending c ++ [cmd]) (ec_kernel c) (ec_oracle c); conn_Flush := example_flush;
            conn_pending := ec_pending; conn_kernel := ec_kernel |}; try done.
  - intros c c'. unfold example_flush. destruct (if default true _ then _ else _) as [k|] eqn:E; [|done]. intros [= <-].
    by destruct (default true _).
  - intros c c'. unfold example_flush. by destruct (if default true _ then _ else _); intros [= <-].
Defined.

(** The program [iptables] on a table with our chain. *)
Record example_table := mkExampleTable { et_chain : option (list (list string)); et_jump : bool; et_oracle : list bool }.
Fixpoint remove_first (spec : list string) (rules : list (list string)) : option (list (list string)) :=
  match rules with
  | [] => None
  | r :: rules => if decide (r = spec) then Some rules else cons r <$> remove_first spec rules
  end.
Definition example_command (cmd : string) (args : list string) (k : example_table) : option (example_table * string) :=
  let o := et_oracle k in
  if str_eqb cmd "-N" then match et_chain k with None => Some (mkExampleTable (Some []) (et_jump k) o, ""%string) | Some _ => None end
  else if str_eqb cmd "-S" then Some (k, if et_jump k then "-A PREROUTING -j NOVAEDGE_MESH" else "")%string
  else if str_eqb cmd "-I" then Some (mkExampleTable (et_chain k) true o, ""%string)
  else if str_eqb cmd "-A" then chain ← et_chain k; Some (mkExampleTable (Some (chain ++ [tail args])) (et_jump k) o, ""%string)
  else if str_eqb cmd "-D" then
    if decide (head args = Some "PREROUTING"%string) then if et_jump k then Some (mkExampleTable (et_chain k) false o, ""%string) else None
    else chain ← et_chain k; chain ← remove_first (tail args) chain; Some (mkExampleTable (Some chain) (et_jump k) o, ""%string)
  else if str_eqb cmd "-F" then _ ← et_chain k; Some (mkExampleTable (Some []) (et_jump k) o, ""%string)
  else if str_eqb cmd "-X" then match et_chain k with Some [] => Some (mkExampleTable None (et_jump k) o, ""%string) | _ => None end
  else None.
Definition example_run (args : list string) (k : example_table) : example_table * (string + string) :=
  let k' := mkExampleTable (et_chain k) (et_jump k) (tail (et_oracle k)) in
  if default true (head (et_oracle k)) then
    match example_command (default ""%string (args !! 2%nat)) (drop 3 args) k' with
    | Some (k, out) => (k, inl out)
    | None => (k', inr (if str_eqb (default ""%string (args !! 2%nat)) "-N" then "iptables: Chain already exists." else "iptables: Bad rule")%string)
    end
  else (k', inr "Resource temporarily unavailable"%string).

Lemma remove_first_Some spec rules rules' : remove_first spec rules = Some rules' → ∃ l1 l2, rules = l1 ++ spec :: l2 ∧ rules' = l1 ++ l2.
Proof.
  revert rules'. induction rules as [|r rules IH]; intros rules'; simpl; [done|]. case_decide as Hd; [intros [= <-]; subst; by exists [], rules|].
  destruct (remove_first spec rules) as [l|]; [|done]. intros [= <-]. destruct (IH l eq_refl) as (l1 & l2 & -> & ->). by exists (r :: l1), l2.
Qed.

Ltac example_case := unfold nat_command, example_command; simpl; destruct (default true _); [simpl|done].
#[export] Instance example_iptables : Iptables example_table.
Proof.
  refine {| iptables := example_run; ipt_rules k := default [] (et_chain k); ipt_jump := et_jump |}; unfold example_run.
  - intros args k k' e. destruct (default true _); [|by intros [= <- _]]. destruct (example_command _ _ _) as [[? ?]|]; [done|]. by intros [= <- _].
  - intros k k' out. example_case. destruct (et_chain k); [done|]. by intros [= <- <-].
  - intros k k' out. example_case. destruct (et_jump k) eqn:Ej; intros [= <- <-]; (split; [done|]); (split; [done|]); simpl; rewrite ?Ej; by vm_compute.
  - intros k k' out. example_case. by intros [= <- <-].
  - intros spec k k' out. example_case. destruct (et_chain k); [|done]. by intros [= <- <-].
  - intros spec k k' out. example_case. destruct (et_chain k) as [chain|]; [|done]. simpl. destruct (remove_first spec chain) as [l|] eqn:E; [|done].
    intros [= <- <-]. split; [|done]. by apply remove_first_Some.
  - intros k k' out. example_case. destruct (et_jump k); [|done]. by intros [= <- <-].
  - intros k k' out. example_case. destruct (et_chain k); [|done]. by intros [= <- <-].
  - intros k k' out. example_case. destruct (et_chain k) as [[|]|]; [|done..]. by intros [= <- <-].
Defined.

(** ** Examples *)

#[local] Instance mesh_texts : TextTables := {| ToLower := λ s, s; TrimSpace := λ s, s; ParseFloat := λ _, None |}.
Definition in_listed_order : visiting := λ V m, map_to_list m.
#[local] Existing Instance iptables_backend.

Definition web : InterceptTarget := mkTarget "10.96.0.10" 80.
Definition dns : InterceptTarget := mkTarget "10.96.0.11" 53.
Lemma web_ok : target_ok web.
Proof. split; [|unfold port_ok; simpl; lia]. exists 10, 96, 0, 10. split; [repeat constructor; unfold is_byte; lia|reflexivity]. Defined.
Lemma dns_ok : target_ok dns.
Proof. split; [|unfold port_ok; simpl; lia]. exists 10, 96, 0, 11. split; [repeat constructor; unfold is_byte; lia|reflexivity]. Defined.

(** The second batch of the configuration is refused, the third is accepted. *)
Definition fresh_nft : nftablesBackend := newNFTablesBackend (mkSysctl (Some "1"%string) false) (mkExampleConn [] ∅ [true; true; true; false; true]).
Definition fresh_ipt : iptablesBackend := newIPTablesBackend (mkSysctl (Some "1"%string) false) (mkExampleTable None false []).

Lemma interception_follows_targets_witness :
  (∃ m oks, apply_all [[web]; [dns]; [web; dns]] (NewTPROXYManagerWithBackend 15001 (nftables_Setup fresh_nft).1) = Returns (m, oks) ∧
     oks = [true; false; true] ∧ intercepts m web) ∧
  (∃ m oks, @apply_all _ (iptables_backend in_listed_order) [[web; dns]; [dns]] (NewTPROXYManagerWithBackend 15001 (iptables_Setup fresh_ipt).1) = Returns (m, oks) ∧
     oks = [true; true] ∧ @intercepts _ (iptables_backend in_listed_order) m dns).
Proof.
  split.
  - destruct (interception_follows_targets (B := nftablesBackend (C := example_conn)) 15001 fresh_nft (nftables_Setup fresh_nft).1 [[web]; [dns]; [web; dns]] web)
      as (m & oks & E & _ & _ & H3); [split; [reflexivity|intros c _; reflexivity]|unfold port_ok; lia|vm_compute; reflexivity| |exact web_ok|].
    { repeat first [exact web_ok|exact dns_ok|apply Forall_nil_2|apply Forall_cons_2]. }
    assert (oks = [true; false; true]) as Eo by (apply (f_equal (λ r, match r with Returns x => x.2 | Panics => [] end)) in E; vm_compute in E; symmetry; exact E).
    exists m, oks. split; [exact E|]. split; [exact Eo|]. apply (H3 [web; dns] eq_refl); [rewrite Eo; reflexivity|left].
  - destruct (interception_follows_targets (B := iptablesBackend (K := example_table)) (H := iptables_backend in_listed_order)
      (H0 := iptables_laws in_listed_order (λ V m, Permutation_refl _)) 15001 fresh_ipt (iptables_Setup fresh_ipt).1 [[web; dns]; [dns]] dns)
      as (m & oks & E & _ & _ & H3); [split; reflexivity|unfold port_ok; lia|vm_compute; reflexivity| |exact dns_ok|].
    { repeat first [exact web_ok|exact dns_ok|apply Forall_nil_2|apply Forall_cons_2]. }
    assert (oks = [true; true]) as Eo by (apply (f_equal (λ r, match r with Returns x => x.2 | Panics => [] end)) in E; vm_compute in E; symmetry; exact E).
    exists m, oks. split; [exact E|]. split; [exact Eo|]. apply (H3 [dns] eq_refl); [rewrite Eo; reflexivity|left].
Defined.

(** An agent that restarts without a cleanup finds the chain of its predecessor, keeps
    its rules and knows nothing of them: a configuration without targets is applied,
    and the old target is still intercepted. nftables deletes the old table. *)
Definition old_table : example_table := mkExampleTable (Some [rule_spec "10.96.0.10" "80" 15001]) true [].
Example restart_keeps_old_rules :
  let b := (iptables_Setup (newIPTablesBackend (mkSysctl (Some "1"%string) false) old_table)).1 in
  let r := iptables_ApplyRules in_listed_order [] 15001 b in
  r.2 = [] ∧ @rb_intercepts _ (iptables_backend in_listed_order) 15001 web r.1.
Proof. split; [vm_compute; reflexivity|]. split; [vm_compute; reflexivity|]. simpl. left. Qed.

(** A target that is not an IPv4 address, such as the address of an IPv6 service, makes
    nftables reject the whole configuration; iptables installs the others. *)
Definition web6 : InterceptTarget := mkTarget "fd00:10:96::a" 80.
Example one_bad_target_blocks_all :
  let b := (nftables_Setup (newNFTablesBackend (mkSysctl (Some "1"%string) false) (mkExampleConn [] ∅ []))).1 in
  match nftables_ApplyRules [web6; web] 15001 b with
  | Returns (b', ok) => ok = false ∧ conn_kernel (nb_conn b') = conn_kernel (nb_conn b) ∧ chain_rules (conn_kernel (nb_conn b')) = []
  | Panics => False
  end.
Proof. vm_compute. split; [reflexivity|]. split; reflexivity. Qed.

(** [Cleanup] of the iptables backend reports success although every command failed,
    and forgets the rules that are still in the kernel. *)
Example cleanup_hides_errors :
  let b0 := (iptables_Setup fresh_ipt).1 in
  let b1 := (iptables_ApplyRules in_listed_order [web] 15001 b0).1 in
  let b2 := set_ib_kernel (mkExampleTable (et_chain (ib_kernel b1)) true [false; false; false]) b1 in
  (@rb_Cleanup _ (iptables_backend in_listed_order) b2).2 = true ∧
  @rb_intercepts _ (iptables_backend in_listed_order) 15001 web (@rb_Cleanup _ (iptables_backend in_listed_order) b2).1.
Proof. split; [vm_compute; reflexivity|]. split; [vm_compute; reflexivity|]. simpl. left. Qed.
