(* ===== verification/MeshManager.v ===== *)
(** * The mesh manager
    (src/internal/agent/mesh/manager.go, detect.go and
    src/internal/agent/novanet/client.go)

    The manager keeps the table that leads intercepted connections to endpoints,
    and applies a configuration to the rules, the table, the authorization
    policies and the acceleration by NovaNet. The kernel rules are behind
    [RuleBackend], NovaNet behind [NovaNet]. Not modelled: copying bytes, sockets,
    contexts and log output. *)

From S2P Require Import Prelude GoStrings GoNet GoLib Float64 BuilderTypes Dataplane GoPath MeshAuthz MeshIntercept.
Open Scope Z_scope.
Open Scope go_scope.

(** ** The service table *)

Record serviceEntry := mkServiceEntry {
  sn_ready : list Pb.Endpoint;
  sn_lbPolicy : Z;
  sn_idx : Z; (* the counter, a [uint64] *)
}.
Notation ServiceTable := (gmap string serviceEntry).
Definition NewServiceTable : ServiceTable := ∅.

Definition service_key (ip : string) (port : Z) : string := ip +:+ ":" +:+ format_d port.

(** [Update]: later services and ports win. *)
Definition ready_endpoints (svc : Pb.InternalService) : list Pb.Endpoint := filter (λ ep, Pb.e_Ready ep = true) (Pb.i_Endpoints svc).
Definition add_service (m : ServiceTable) (svc : Pb.InternalService) : ServiceTable :=
  foldl (λ m port, <[service_key (Pb.i_ClusterIp svc) (Pb.sp_Port port) := mkServiceEntry (ready_endpoints svc) (Pb.i_LbPolicy svc) 0]> m) m (Pb.i_Ports svc).
Definition Table_Update (services : list Pb.InternalService) : ServiceTable := foldl add_service ∅ services.

(** [Lookup]: the counter is incremented, and its old value chooses the endpoint. *)
Definition Table_Lookup (ip : string) (port : Z) (st : ServiceTable) : ServiceTable * option Pb.Endpoint :=
  match st !! service_key ip port with
  | None => (st, None)
  | Some e =>
      match sn_ready e with
      | [] => (st, None)
      | ready =>
          let next := uint64 (sn_idx e + 1) in
          (<[service_key ip port := mkServiceEntry ready (sn_lbPolicy e) next]> st,
           ready !! Z.to_nat (uint64 (next - 1) mod Z.of_nat (length ready)))
      end
  end.
Definition ServiceCount (st : ServiceTable) : nat := size st.

(** ** Protocol detection *)

Inductive Protocol := ProtocolHTTP1 | ProtocolHTTP2 | ProtocolTLS | ProtocolOpaque.

(** What a client sends before it waits for an answer, and what comes after it: the
    client closes the connection, the connection fails, or the client waits. *)
Inductive after_input := Closes | Fails | Waits.
Record client_conn := mkClientConn { cl_input : string; cl_after : after_input }.

Definition http2Preface : string := "PRI * HTTP/2".
Definition http1Methods : list string := ["GET "; "POST "; "PUT "; "DELETE "; "PATCH "; "HEAD "; "OPTIONS "; "CONNECT "].
Definition peekSize : nat := 16.

Definition classify (peeked : string) : Protocol :=
  if HasPrefix peeked http2Preface then ProtocolHTTP2
  else if HasPrefix peeked (String "022" (String "003" "")) then ProtocolTLS
  else if existsb (HasPrefix peeked) http1Methods then ProtocolHTTP1
  else ProtocolOpaque.

(** [PeekConn]: what the buffered reader holds, and what is still to be read. *)
Record PeekConn := mkPeekConn { pe_buffered : string; pe_rest : string }.
Definition peek_stream (pc : PeekConn) : string := pe_buffered pc +:+ pe_rest pc.

(** [Peek] waits for 16 bytes or the end of the input; [None] is a detection that
    waits for ever. [chunk] is the number of bytes the reader happened to get. *)
Definition DetectProtocol (chunk : nat) (c : client_conn) : option (Protocol * PeekConn) :=
  let pc n := mkPeekConn (String.substring 0 n (cl_input c)) (String.substring n (String.length (cl_input c) - n) (cl_input c)) in
  if decide (peekSize ≤ String.length (cl_input c))%nat then
    Some (classify (String.substring 0 peekSize (cl_input c)), pc (String.length (cl_input c) `min` (chunk `max` peekSize `min` (2 * peekSize)))%nat)
  else
    match cl_after c with
    | Waits => None
    | Fails => Some (ProtocolOpaque, pc (String.length (cl_input c)))
    | Closes => Some (if str_empty (cl_input c) then ProtocolOpaque else classify (cl_input c), pc (String.length (cl_input c)))
    end.

(** ** NovaNet *)

(** The agent that owns the eBPF programs: its calls, and what it holds. A call that
    fails may have taken effect. *)
Class NovaNet (N : Type) := {
  nn_AddMeshRedirect : string → Z → Z → N → N * bool;
  nn_RemoveMeshRedirect : string → Z → N → N * bool;
  nn_EnableSockmap : string → string → N → N * bool;
  nn_DisableSockmap : string → string → N → N * bool;
  nn_ConfigureRateLimit : string → Z → Z → N → N * bool;
  nn_RemoveRateLimit : string → N → N * bool;
  nn_redirects : N → gmap (string * Z) Z;
  nn_pods : N → gset (string * string);
  nn_limits : N → gmap string (Z * Z);
  nn_add ip port to n n' ok : nn_AddMeshRedirect ip port to n = (n', ok) →
    (nn_redirects n' = <[(ip, port) := to]> (nn_redirects n) ∨ ok = false ∧ nn_redirects n' = nn_redirects n) ∧ nn_pods n' = nn_pods n;
  nn_remove ip port n n' ok : nn_RemoveMeshRedirect ip port n = (n', ok) →
    (nn_redirects n' = delete (ip, port) (nn_redirects n) ∨ ok = false ∧ nn_redirects n' = nn_redirects n) ∧ nn_pods n' = nn_pods n;
  nn_enable ns name n n' ok : nn_EnableSockmap ns name n = (n', ok) →
    (nn_pods n' = {[(ns, name)]} ∪ nn_pods n ∨ ok = false ∧ nn_pods n' = nn_pods n) ∧ nn_redirects n' = nn_redirects n;
  nn_disable ns name n n' ok : nn_DisableSockmap ns name n = (n', ok) →
    (nn_pods n' = nn_pods n ∖ {[(ns, name)]} ∨ ok = false ∧ nn_pods n' = nn_pods n) ∧ nn_redirects n' = nn_redirects n;
}.

Section novanet.
Context {N : Type} `{NovaNet N}.

(** The client does nothing, and reports success, while it is not connected. *)
Record Client := mkClient { nc_connected : bool; nc_server : N }.
Definition client_call (f : N → N * bool) (c : Client) : Client * bool :=
  if nc_connected c then let '(n, ok) := f (nc_server c) in (mkClient true n, ok) else (c, true).
Definition AddMeshRedirect (ip : string) (port redirectPort : Z) : Client → Client * bool := client_call (nn_AddMeshRedirect ip port redirectPort).
Definition RemoveMeshRedirect (ip : string) (port : Z) : Client → Client * bool := client_call (nn_RemoveMeshRedirect ip port).
Definition EnableSockmap (namespace name : string) : Client → Client * bool := client_call (nn_EnableSockmap namespace name).
Definition DisableSockmap (namespace name : string) : Client → Client * bool := client_call (nn_DisableSockmap namespace name).
Definition ConfigureRateLimit (cidr : string) (rate burst : Z) : Client → Client * bool := client_call (nn_ConfigureRateLimit cidr rate burst).
Definition RemoveRateLimit (cidr : string) : Client → Client * bool := client_call (nn_RemoveRateLimit cidr).
End novanet.

Definition JoinHostPort (host port : string) : string :=
  if has_char ":" host then "[" +:+ host +:+ "]:" +:+ port else host +:+ ":" +:+ port.

(** [splitNsName]. *)
Definition splitNsName (key : string) : string * string :=
  match SplitN "/" key 2 with [ns; name] => (ns, name) | _ => (key, ""%string) end.

Record redirectEntry := mkRedirectEntry { re_ip : string; re_port : Z }.

Definition mesh_services (services : list Pb.InternalService) : list Pb.InternalService := filter (λ svc, Pb.i_MeshEnabled svc = true) services.

Definition redirect_key (ip : string) (port : Z) : string := JoinHostPort ip (format_d port).
Definition desired_redirects (services : list Pb.InternalService) : gmap string redirectEntry :=
  foldl (λ m svc, foldl (λ m port, <[redirect_key (Pb.i_ClusterIp svc) (Pb.sp_Port port) := mkRedirectEntry (Pb.i_ClusterIp svc) (uint32 (Pb.sp_Port port))]> m)
    m (Pb.i_Ports svc)) ∅ (mesh_services services).

(** ** The manager *)

Section mesh.
Context {B : Type} `{RuleBackend B} {N : Type} `{NovaNet N} (visit : visiting).
#[local] Notation client := (Client (N := N)).

Record Manager := mkManager {
  m_tproxy : option (TPROXYManager (B := B));
  m_serviceTable : ServiceTable;
  m_tproxyPort : Z;
  m_authorizer : Authorizer;
  m_nodeIP : string;
  m_nodeName : string;
  m_novanetClient : option client;
  m_meshRedirects : gmap string redirectEntry;
  m_sockmapPods : gmap string bool;
  m_rateLimits : gmap string bool;
}.
Definition m_eta (m : Manager) : Manager :=
  mkManager (m_tproxy m) (m_serviceTable m) (m_tproxyPort m) (m_authorizer m) (m_nodeIP m) (m_nodeName m) (m_novanetClient m)
    (m_meshRedirects m) (m_sockmapPods m) (m_rateLimits m).
Definition set_m_tproxy : option TPROXYManager → Manager → Manager := ltac:(field_setter m_eta m_tproxy).
Definition set_m_serviceTable : ServiceTable → Manager → Manager := ltac:(field_setter m_eta m_serviceTable).
Definition set_m_authorizer : Authorizer → Manager → Manager := ltac:(field_setter m_eta m_authorizer).
Definition set_m_novanetClient : option client → Manager → Manager := ltac:(field_setter m_eta m_novanetClient).
Definition set_m_meshRedirects : gmap string redirectEntry → Manager → Manager := ltac:(field_setter m_eta m_meshRedirects).
Definition set_m_sockmapPods : gmap string bool → Manager → Manager := ltac:(field_setter m_eta m_sockmapPods).
Definition set_m_rateLimits : gmap string bool → Manager → Manager := ltac:(field_setter m_eta m_rateLimits).

Definition NewManager (tproxyPort : Z) (nodeIP nodeName : string) (novanetClient : option client) : Manager :=
  mkManager None NewServiceTable tproxyPort NewAuthorizer nodeIP nodeName novanetClient ∅ ∅ ∅.

(** The part of [Start] before the listeners: the rules of a backend are set up; the
    manager counts as started even if that fails. *)
Definition Start (backend : B) (m : Manager) : Manager * bool :=
  let '(t, ok) := TPROXY_Setup (NewTPROXYManagerWithBackend (m_tproxyPort m) backend) in (set_m_tproxy (Some t) m, ok).

(** Both reconciliations with NovaNet have this form: what is desired and not tracked
    is installed, what is tracked and not desired is removed, and what failed is
    left out or kept, to be tried again. *)
Section reconcile.
Context {E : Type} (install remove : string → E → client → client * bool) (desired tracked : gmap string E).

Definition install_step (acc : client * gmap string E) (e : string * E) : client * gmap string E :=
  let '(c, new) := acc in
  if decide (is_Some (tracked !! e.1)) then (c, <[e.1 := e.2]> new)
  else let '(c, ok) := install e.1 e.2 c in (c, if ok then <[e.1 := e.2]> new else new).
Definition remove_entry (acc : client * gmap string E) (e : string * E) : client * gmap string E :=
  let '(c, new) := acc in
  if decide (is_Some (desired !! e.1)) then (c, new)
  else let '(c, ok) := remove e.1 e.2 c in (c, if ok then new else <[e.1 := e.2]> new).
Definition reconcile_tracked (c : client) : client * gmap string E :=
  foldl remove_entry (foldl install_step (c, ∅) (visit _ desired)) (visit _ tracked).
End reconcile.

Definition reconcileNovaNetMeshRedirects (services : list Pb.InternalService) (c : client) (m : Manager) : Manager :=
  let '(c, tracked) := reconcile_tracked (λ _ e, AddMeshRedirect (re_ip e) (re_port e) (uint32 (m_tproxyPort m))) (λ _ e, RemoveMeshRedirect (re_ip e) (re_port e))
    (desired_redirects services) (m_meshRedirects m) c in
  set_m_meshRedirects tracked (set_m_novanetClient (Some c) m).

Definition isLocalEndpoint (ep : Pb.Endpoint) (m : Manager) : bool :=
  let labelNode := map_get ""%string (Pb.e_Labels ep) "topology.kubernetes.io/node" in
  if negb (str_empty labelNode) then negb (str_empty (m_nodeName m)) && str_eqb labelNode (m_nodeName m)
  else if negb (str_empty (m_nodeIP m)) && negb (str_empty (Pb.e_Address ep)) then str_eqb (Pb.e_Address ep) (m_nodeIP m)
  else false.

(** The pod of an endpoint that can be accelerated. *)
Definition sockmap_pod (m : Manager) (ep : Pb.Endpoint) : option string :=
  let ns := map_get ""%string (Pb.e_Labels ep) "kubernetes.io/namespace" in
  let name := map_get ""%string (Pb.e_Labels ep) "kubernetes.io/name" in
  if negb (Pb.e_Ready ep) || negb (isLocalEndpoint ep m) || str_empty ns || str_empty name then None
  else Some (ns +:+ "/" +:+ name)%string.
Definition desired_pods (services : list Pb.InternalService) (m : Manager) : gmap string bool :=
  list_to_map ((λ key, (key, true)) <$> omap (sockmap_pod m) (mesh_services services ≫= Pb.i_Endpoints)).

Definition reconcileNovaNetSockMap (services : list Pb.InternalService) (c : client) (m : Manager) : Manager :=
  let '(c, tracked) := reconcile_tracked (λ key _, let '(ns, name) := splitNsName key in EnableSockmap ns name)
    (λ key _, let '(ns, name) := splitNsName key in DisableSockmap ns name) (desired_pods services m) (m_sockmapPods m) c in
  set_m_sockmapPods tracked (set_m_novanetClient (Some c) m).

Definition reconcile_novanet (services : list Pb.InternalService) (m : Manager) : Manager :=
  match m_novanetClient m with
  | Some c =>
      if nc_connected c then
        let m := reconcileNovaNetMeshRedirects services c m in
        match m_novanetClient m with Some c => reconcileNovaNetSockMap services c m | None => m end
      else m
  | None => m
  end.

Definition intercept_targets (services : list Pb.InternalService) : list InterceptTarget :=
  mesh_services services ≫= λ svc, (λ port, mkTarget (Pb.i_ClusterIp svc) (Pb.sp_Port port)) <$> Pb.i_Ports svc.

(** [ApplyConfig]; [None] is a nil list of policies, which is what an empty list of a
    received snapshot is. *)
Definition ApplyConfig (services : list Pb.InternalService) (authzPolicies : option (list MeshAuthorizationPolicy)) (m : Manager) : outcome (Manager * bool) :=
  match m_tproxy m with
  | None => Returns (m, false)
  | Some t =>
      let m := set_m_serviceTable (Table_Update services) m in
      let! r := TPROXY_ApplyRules (intercept_targets services) t in
      let m := set_m_tproxy (Some r.1) m in
      if negb r.2 then Returns (m, false)
      else
        let m := match authzPolicies with Some ps => set_m_authorizer (UpdatePolicies ps (m_authorizer m)) m | None => m end in
        Returns (reconcile_novanet services m, true)
  end.

(** [ApplyRateLimits]: what is remembered is what was asked for. *)
Record RateLimitEntry := mkRateLimitEntry { rl_CIDR : string; rl_Rate : Z; rl_Burst : Z }.
Definition ApplyRateLimits (desired : list RateLimitEntry) (m : Manager) : Manager :=
  match m_novanetClient m with
  | None => m
  | Some c =>
      let desiredSet : gmap string bool := list_to_map ((λ e, (rl_CIDR e, true)) <$> desired) in
      let c := foldl (λ c e, (ConfigureRateLimit (rl_CIDR e) (rl_Rate e) (rl_Burst e) c).1) c desired in
      let c := foldl (λ c e, if map_get false desiredSet e.1 then c else (RemoveRateLimit e.1 c).1) c (visit _ (m_rateLimits m)) in
      set_m_rateLimits desiredSet (set_m_novanetClient (Some c) m)
  end.

(** [Shutdown]: the rules are removed, and the acceleration of the pods. *)
Definition Shutdown (m : Manager) : Manager :=
  let m := match m_tproxy m with Some t => set_m_tproxy (Some (TPROXY_Cleanup t).1) m | None => m end in
  match m_novanetClient m with
  | None => m
  | Some c =>
      let c := foldl (λ c e, let '(ns, name) := splitNsName e.1 in (DisableSockmap ns name c).1) c (visit _ (m_sockmapPods m)) in
      set_m_sockmapPods ∅ (set_m_novanetClient (Some c) m)
  end.

(** [handleConn]: the address that is dialled for an intercepted connection, or [None]
    if the detection of the protocol waits for ever. *)
Definition handleConn (chunk : nat) (conn : client_conn) (origDst : string) (origPort : Z) (m : Manager) : Manager * option string :=
  let '(st, endpoint) := Table_Lookup origDst origPort (m_serviceTable m) in
  let m := set_m_serviceTable st m in
  match endpoint with
  | None => (m, Some (JoinHostPort origDst (format_d origPort)))
  | Some ep =>
      match DetectProtocol chunk conn with
      | None => (m, None)
      | Some _ => (m, Some (JoinHostPort (Pb.e_Address ep) (format_d (Pb.e_Port ep))))
      end
  end.
End mesh.

(** ** Keys *)

Lemma service_key_inj ip port ip' port' : int64_range port → int64_range port' → service_key ip port = service_key ip' port' → ip = ip' ∧ port = port'.
Proof.
  intros Hp Hp' E. unfold service_key in E. change (":" +:+ format_d port)%string with (String ":" (format_d port)) in E.
  change (":" +:+ format_d port')%string with (String ":" (format_d port')) in E. apply (f_equal (CutLast ":")) in E.
  rewrite !CutLast_app in E by (by apply format_d_no_char). injection E as -> E. split; [done|]. by apply format_d_inj.
Qed.

(** ** Round robin *)

(** The ports of a snapshot are 32-bit integers. *)
Definition ports_fit (services : list Pb.InternalService) : Prop :=
  Forall (λ svc, Forall (λ p, int32_range (Pb.sp_Port p)) (Pb.i_Ports svc)) services.
Lemma int32_int64 z : int32_range z → int64_range z.
Proof. unfold int32_range, int64_range, min_int32, max_int32, min_int64, max_int64. lia. Qed.

(** The service that owns an address: the last one that has it. *)
Definition owns (ip : string) (port : Z) (svc : Pb.InternalService) : Prop := Pb.i_ClusterIp svc = ip ∧ port ∈ Pb.sp_Port <$> Pb.i_Ports svc.
#[global] Instance owns_dec ip port svc : Decision (owns ip port svc).
Proof. unfold owns. apply _. Defined.
Definition service_for (services : list Pb.InternalService) (ip : string) (port : Z) : option Pb.InternalService := last (filter (owns ip port) services).

Lemma add_ports_lookup cip e ports m ip port : Forall (λ p, int32_range (Pb.sp_Port p)) ports → int64_range port →
  foldl (λ (m : ServiceTable) p, <[service_key cip (Pb.sp_Port p) := e]> m) m ports !! service_key ip port =
  if decide (cip = ip ∧ port ∈ Pb.sp_Port <$> ports) then Some e else m !! service_key ip port.
Proof.
  intros Hf Hp. revert m. induction Hf as [|p ports Hr _ IH]; intros m; simpl.
  { rewrite decide_False; [done|]. intros [_ []%not_elem_of_nil]. }
  rewrite IH. destruct (decide (cip = ip ∧ port ∈ Pb.sp_Port <$> ports)) as [Hd|Hd].
  { rewrite decide_True; [done|]. destruct Hd. split; [done|by right]. }
  destruct (decide (cip = ip ∧ Pb.sp_Port p = port)) as [[-> ->]|Hn].
  - rewrite (lookup_insert_eq (M := gmap string)), decide_True; [done|]. split; [done|left].
  - rewrite (lookup_insert_ne (M := gmap string)). 2:{ intros E. apply service_key_inj in E as [? ?]; [auto|by apply int32_int64|done]. }
    rewrite decide_False; [done|]. intros [? [?|?]%elem_of_cons]; [by apply Hn|by apply Hd].
Qed.
Lemma add_service_lookup m svc ip port : Forall (λ p, int32_range (Pb.sp_Port p)) (Pb.i_Ports svc) → int64_range port →
  add_service m svc !! service_key ip port = if decide (owns ip port svc) then Some (mkServiceEntry (ready_endpoints svc) (Pb.i_LbPolicy svc) 0) else m !! service_key ip port.
Proof. intros Hf Hp. unfold add_service. rewrite add_ports_lookup by done. by apply decide_ext. Qed.

Lemma Table_Update_lookup services ip port : ports_fit services → int64_range port →
  Table_Update services !! service_key ip port = (λ svc, mkServiceEntry (ready_endpoints svc) (Pb.i_LbPolicy svc) 0) <$> service_for services ip port.
Proof.
  intros Hf Hp. unfold Table_Update, service_for. induction services as [|svc services IH] using rev_ind; [done|].
  apply Forall_app in Hf as [Hf Hs]. apply Forall_inv in Hs. rewrite foldl_app. simpl. rewrite add_service_lookup, filter_app, filter_cons, filter_nil by done.
  case_decide; [by rewrite last_snoc|]. rewrite app_nil_r. by apply IH.
Qed.

(** The requests in the order in which they are served. *)
Fixpoint lookups (reqs : list (string * Z)) (st : ServiceTable) : list (option Pb.Endpoint) :=
  match reqs with
  | [] => []
  | (ip, port) :: reqs => let '(st, r) := Table_Lookup ip port st in r :: lookups reqs st
  end.

(** How often an address was asked for, and the endpoint it gets next. *)
Definition asked (prior : list (string * Z)) (ip : string) (port : Z) : nat := length (filter (λ r, r = (ip, port)) prior).
Definition chosen (services : list Pb.InternalService) (prior : list (string * Z)) (ip : string) (port : Z) : option Pb.Endpoint :=
  svc ← service_for services ip port; ready_endpoints svc !! (asked prior ip port `mod` length (ready_endpoints svc))%nat.

(** The counters of a table after some requests. *)
Definition counts (services : list Pb.InternalService) (prior : list (string * Z)) (st : ServiceTable) : Prop :=
  ∀ ip port, int64_range port → st !! service_key ip port =
    (λ svc, mkServiceEntry (ready_endpoints svc) (Pb.i_LbPolicy svc) (if decide (ready_endpoints svc = []) then 0 else Z.of_nat (asked prior ip port)))
    <$> service_for services ip port.

Lemma asked_snoc prior r ip port : asked (prior ++ [r]) ip port = (asked prior ip port + if decide (r = (ip, port)) then 1 else 0)%nat.
Proof. unfold asked. rewrite filter_app, filter_cons, filter_nil, length_app. by case_decide. Qed.
Lemma asked_le prior ip port : (asked prior ip port ≤ length prior)%nat.
Proof. apply length_filter. Qed.

Lemma Table_Lookup_counts services prior st ip port : counts services prior st → int64_range port → Z.of_nat (length prior) + 1 < 2 ^ 64 →
  counts services (prior ++ [(ip, port)]) (Table_Lookup ip port st).1 ∧ (Table_Lookup ip port st).2 = chosen services prior ip port.
Proof.
  intros Hc Hp Hl. unfold Table_Lookup, chosen. rewrite (Hc ip port Hp). pose proof (asked_le prior ip port) as Hle.
  assert (∀ st', (∀ ip' port', int64_range port' → (ip, port) ≠ (ip', port') → st' !! service_key ip' port' = st !! service_key ip' port') →
    (st' !! service_key ip port = (λ svc, mkServiceEntry (ready_endpoints svc) (Pb.i_LbPolicy svc)
       (if decide (ready_endpoints svc = []) then 0 else Z.of_nat (asked (prior ++ [(ip, port)]) ip port))) <$> service_for services ip port) →
    counts services (prior ++ [(ip, port)]) st') as Hother.
  { intros st' Ho Hs ip' port' Hp'. destruct (decide ((ip, port) = (ip', port'))) as [[= <- <-]|Hne]; [done|].
    rewrite Ho, (Hc ip' port' Hp'), asked_snoc, decide_False by done. by rewrite Nat.add_0_r. }
  destruct (service_for services ip port) as [svc|] eqn:Es; simpl.
  2:{ split; [|done]. apply Hother; [done|]. by rewrite (Hc ip port Hp), Es. }
  destruct (ready_endpoints svc) as [|e ready] eqn:Er; simpl.
  { split; [|done]. apply Hother; [done|]. rewrite (Hc ip port Hp), Es. simpl. by rewrite Er. }
  unfold uint64. rewrite (Z.mod_small (Z.of_nat (asked prior ip port) + 1)) by lia. split.
  - apply Hother.
    + intros ip' port' Hp' Hne. apply lookup_insert_ne. intros E. apply service_key_inj in E as [-> ->]; auto.
    + rewrite lookup_insert_eq. simpl. rewrite Er, asked_snoc, (decide_True (P := (ip, port) = (ip, port))) by done. simpl. do 2 f_equal. lia.
  - rewrite Z.add_simpl_r, (Z.mod_small _ (2 ^ 64)) by lia. f_equal. change (S (length ready)) with (length (e :: ready)).
    rewrite <- Nat2Z.inj_mod, Nat2Z.id. done.
Qed.

Lemma lookups_chosen services reqs prior st i ip port : counts services prior st → Forall (λ r, int64_range r.2) reqs →
  Z.of_nat (length prior + length reqs) < 2 ^ 64 → reqs !! i = Some (ip, port) →
  lookups reqs st !! i = Some (chosen services (prior ++ take i reqs) ip port).
Proof.
  revert prior st i. induction reqs as [|[ip0 port0] reqs IH]; intros prior st i Hc Hf Hl Hi; [done|]. apply Forall_cons in Hf as [Hp Hf]. simpl in Hp, Hl.
  destruct (Table_Lookup_counts services prior st ip0 port0 Hc Hp ltac:(lia)) as [Hc' Hr]. simpl. destruct (Table_Lookup ip0 port0 st) as [st' r]. simpl in Hc', Hr.
  destruct i as [|i]; simpl in Hi |- *; [injection Hi as -> ->; by rewrite app_nil_r, Hr|].
  rewrite (IH (prior ++ [(ip0, port0)]) st' i Hc' Hf); [|rewrite length_app; simpl; lia|done]. by rewrite <- app_assoc.
Qed.

(** Connections are spread evenly. After an update of the table, in every sequence
    of fewer than 2^64 requests, the n-th request for an address gets the n-th
    ready endpoint, in turn, of the last service that has this address and port -
    or none if there is no such service or endpoint -, whatever other addresses are
    asked for in between. *)
Theorem lookups_round_robin (services : list Pb.InternalService) (reqs : list (string * Z)) (i : nat) (ip : string) (port : Z)
    (Hfit : ports_fit services) (Hreqs : Forall (λ r, int64_range r.2) reqs) (Hlen : Z.of_nat (length reqs) < 2 ^ 64) (Hi : reqs !! i = Some (ip, port)) :
  lookups reqs (Table_Update services) !! i = Some (chosen services (take i reqs) ip port).
Proof.
  apply (lookups_chosen services reqs []); [|done..]. intros ip' port' Hp'. rewrite Table_Update_lookup by done.
  destruct (service_for services ip' port'); [|done]. simpl. by case_decide.
Qed.

(** ** A configuration is applied as a whole *)

Lemma mesh_services_in services svc : svc ∈ mesh_services services ↔ svc ∈ services ∧ Pb.i_MeshEnabled svc = true.
Proof. unfold mesh_services. rewrite list_elem_of_filter. tauto. Qed.
Lemma intercept_targets_in services ip port :
  mkTarget ip port ∈ intercept_targets services ↔ ∃ svc, svc ∈ services ∧ Pb.i_MeshEnabled svc = true ∧ owns ip port svc.
Proof.
  unfold intercept_targets. rewrite list_elem_of_bind. setoid_rewrite mesh_services_in. setoid_rewrite list_elem_of_fmap. split.
  - intros (svc & (p & [= -> ->] & Hp) & ? & ?). exists svc. split; [done|]. split; [done|]. split; [done|]. by apply (list_elem_of_fmap_2 Pb.sp_Port).
  - intros (svc & ? & ? & <- & (p & -> & Hp)%list_elem_of_fmap). exists svc. split; [by exists p|done].
Qed.
Lemma service_for_Some services ip port svc : svc ∈ services → owns ip port svc → ∃ svc', service_for services ip port = Some svc' ∧ svc' ∈ services ∧ owns ip port svc'.
Proof.
  intros Hin Ho. unfold service_for. destruct (last (filter (owns ip port) services)) as [svc'|] eqn:E.
  - exists svc'. split; [done|]. apply last_Some_elem_of, list_elem_of_filter in E. tauto.
  - apply last_None in E. assert (svc ∈ filter (owns ip port) services) as Hf by by apply list_elem_of_filter. rewrite E in Hf. by apply not_elem_of_nil in Hf.
Qed.

Section apply.
Context {B : Type} `{RuleBackendLaws B} {N : Type} `{NovaNet N} (visit : visiting).
#[local] Notation manager := (Manager (B := B) (N := N)).

Lemma reconcile_novanet_keeps services (m : manager) :
  m_tproxy (reconcile_novanet visit services m) = m_tproxy m ∧ m_serviceTable (reconcile_novanet visit services m) = m_serviceTable m ∧
  m_authorizer (reconcile_novanet visit services m) = m_authorizer m.
Proof.
  unfold reconcile_novanet, reconcileNovaNetMeshRedirects, reconcileNovaNetSockMap. destruct (m_novanetClient m) as [c|]; [|done].
  destruct (nc_connected c); [|done]. destruct (reconcile_tracked _ _ _ _ _ c) as [c1 t1]. simpl.
  by destruct (reconcile_tracked _ _ _ _ _ c1) as [c2 t2].
Qed.

Lemma handleConn_first chunk conn ip port svc services (m : manager) :
  m_serviceTable m = Table_Update services → ports_fit services → int64_range port → service_for services ip port = Some svc →
  is_Some (DetectProtocol chunk conn) →
  (handleConn chunk conn ip port m).2 =
    Some (match ready_endpoints svc with ep :: _ => JoinHostPort (Pb.e_Address ep) (format_d (Pb.e_Port ep)) | [] => JoinHostPort ip (format_d port) end).
Proof.
  intros Ht Hf Hp Hs [d Hd]. unfold handleConn, Table_Lookup. rewrite Ht, Table_Update_lookup, Hs by done. simpl.
  destruct (ready_endpoints svc) as [|ep ready]; [done|]. unfold uint64. simpl. by rewrite Hd.
Qed.

(** C24: A configuration of the mesh is applied as a whole, behind either backend of
    rules. Let the rules of the manager be set up, the ports of the services be
    port numbers, and the addresses to intercept be IPv4 addresses and ports.
    Then the call does not panic; when it succeeds, exactly the addresses of the
    services that are in the mesh are intercepted, the policies are the new ones
    (if any were given), and the next connection to an intercepted address, of a
    client that sends at least 16 bytes or closes, is led to the first ready
    endpoint of the last service that has the address, or to the address itself
    if none is ready. *)
Theorem mesh_config_is_applied (services : list Pb.InternalService) (policies : option (list MeshAuthorizationPolicy)) (m : manager) (t : TPROXYManager)
    (Ht : m_tproxy m = Some t) (Hok : manager_ok t) (Hfit : ports_fit services) (Htargets : Forall target_ok (intercept_targets services)) :
  ∃ m' ok t', ApplyConfig visit services policies m = Returns (m', ok) ∧ m_tproxy m' = Some t' ∧ manager_ok t' ∧
    (ok = true →
       (∀ ps, policies = Some ps → m_authorizer m' = UpdatePolicies ps (m_authorizer m)) ∧
       ∀ ip port, target_ok (mkTarget ip port) →
         (intercepts t' (mkTarget ip port) ↔ ∃ svc, svc ∈ services ∧ Pb.i_MeshEnabled svc = true ∧ owns ip port svc) ∧
         (intercepts t' (mkTarget ip port) → ∃ svc, service_for services ip port = Some svc ∧ svc ∈ services ∧ owns ip port svc ∧
            ∀ chunk conn, is_Some (DetectProtocol chunk conn) → (handleConn chunk conn ip port m').2 =
              Some (match ready_endpoints svc with ep :: _ => JoinHostPort (Pb.e_Address ep) (format_d (Pb.e_Port ep)) | [] => JoinHostPort ip (format_d port) end))).
Proof.
  unfold ApplyConfig. rewrite Ht. destruct (TPROXY_ApplyRules_ok t _ Hok Htargets) as (t' & ok & -> & Hok' & Hi). simpl.
  destruct ok; simpl; [|eexists _, false, t'; by split_and!].
  destruct Hi as [Hi _]. set (m1 := match policies with Some _ => _ | None => _ end). destruct (reconcile_novanet_keeps services m1) as (Kt & Ks & Ka).
  assert (m_tproxy m1 = Some t' ∧ m_serviceTable m1 = Table_Update services) as [M1 M2] by (by destruct policies).
  eexists _, true, t'. split; [done|]. split; [by rewrite Kt|]. split; [done|]. intros _. split.
  { intros ps ->. by rewrite Ka. }
  intros ip port Hip. rewrite (Hi _ Hip), intercept_targets_in. split; [done|]. intros (svc & Hin & _ & Ho).
  destruct (service_for_Some services ip port svc Hin Ho) as (svc' & Es & Hin' & Ho'). exists svc'. split_and!; [done|done|done|].
  intros chunk conn Hd. apply (handleConn_first chunk conn ip port svc' services); [by rewrite Ks|done| |done|done].
  apply (port_int64 (mkTarget ip port)), Hip.
Qed.
End apply.

Lemma substring_whole n s : (n ≤ String.length s)%nat → String.substring 0 n s +:+ String.substring n (String.length s - n) s = s.
Proof.
  revert n. induction s as [|c s IH]; intros [|n] Hn; simpl in *; [done|lia| |].
  - by rewrite substring_all by lia.
  - change (String c (String.substring 0 n s +:+ String.substring n (String.length s - n) s) = String c s). f_equal. apply IH. lia.
Qed.
(** The detection of the protocol loses nothing: what is read later is what the client
    sent. *)
Lemma DetectProtocol_replays chunk c proto pc : DetectProtocol chunk c = Some (proto, pc) → peek_stream pc = cl_input c.
Proof.
  unfold DetectProtocol. case_decide as Hd.
  - intros [= _ <-]. apply substring_whole. lia.
  - destruct (cl_after c); [| |done]; intros [= _ <-]; by apply substring_whole.
Qed.

(** ** What is tracked is installed *)

Section tracking.
Context {N : Type} `{NovaNet N} (visit : visiting) (visit_order : ∀ V m, range_order m (visit V m)).
#[local] Notation client := (Client (N := N)).

Section generic.
Context {E : Type} (install remove : string → E → client → client * bool) (desired tracked : gmap string E).
Context (good up : client → Prop) (installed : client → string → Prop) (wf : string → E → Prop).
Context (install_ok : ∀ key e c, good c → wf key e → let '(c', ok) := install key e c in
  good c' ∧ (up c → ok = true ∧ up c') ∧ ∀ k, installed c' k ↔ installed c k ∨ (ok = true ∧ k = key)).
Context (remove_ok : ∀ key e c, good c → wf key e → let '(c', ok) := remove key e c in
  good c' ∧ (up c → ok = true ∧ up c') ∧ ∀ k, installed c' k ↔ installed c k ∧ ¬ (ok = true ∧ k = key)).

Lemma install_loop l c new c' new' :
  good c → Forall (λ e, wf e.1 e.2) l → (∀ k, installed c k ↔ is_Some (tracked !! k) ∨ is_Some (new !! k)) → map_Forall wf new →
  foldl (install_step install tracked) (c, new) l = (c', new') →
  good c' ∧ (∀ k, installed c' k ↔ is_Some (tracked !! k) ∨ is_Some (new' !! k)) ∧ map_Forall wf new' ∧
  (∀ k, is_Some (new' !! k) → is_Some (new !! k) ∨ k ∈ l.*1) ∧ (∀ k, is_Some (new !! k) → is_Some (new' !! k)) ∧
  (∀ k, k ∈ l.*1 → is_Some (tracked !! k) → is_Some (new' !! k)) ∧
  (up c → up c' ∧ ∀ k, k ∈ l.*1 → is_Some (new' !! k)).
Proof.
  intros Hg Hl. revert c new Hg. induction Hl as [|[key e] l Hwf _ IH]; intros c new Hg Hin Hnew Ef; simpl in *.
  { injection Ef as <- <-. split_and!; try done; [by left|by intros k Hk%not_elem_of_nil|]. intros Hup. split; [done|]. by intros k Hk%not_elem_of_nil. }
  destruct (decide (is_Some (tracked !! key))) as [Ht|Ht].
  - apply IH in Ef as (G & S1 & S2 & S3 & S4 & S5 & S6); [|done| |by apply map_Forall_insert_2].
    2:{ intros k. rewrite Hin. destruct (decide (k = key)) as [->|]; [rewrite lookup_insert_eq|rewrite lookup_insert_ne by done]; [|tauto]. split; eauto. }
    assert (is_Some (new' !! key)) as Hkey by (apply S4; rewrite lookup_insert_eq; eauto).
    split_and!; try done.
    + intros k [Hk|?]%S3; [|right; by right]. destruct (decide (k = key)) as [->|]; [right; left|left; by rewrite lookup_insert_ne in Hk].
    + intros k Hk. apply S4. destruct (decide (k = key)) as [->|]; [rewrite lookup_insert_eq; eauto|by rewrite lookup_insert_ne].
    + intros k [->|?]%elem_of_cons; eauto.
    + intros Hup. destruct (S6 Hup) as [? ?]. split; [done|]. intros k [->|?]%elem_of_cons; eauto.
  - specialize (install_ok key e c Hg Hwf). destruct (install key e c) as [c1 ok]. destruct install_ok as (G1 & Hup1 & Hi1).
    apply IH in Ef as (G & S1 & S2 & S3 & S4 & S5 & S6); [|done| |by destruct ok; [apply map_Forall_insert_2|]].
    2:{ intros k. rewrite Hi1, Hin. destruct ok; [|naive_solver].
        destruct (decide (k = key)) as [->|]; [rewrite lookup_insert_eq|rewrite lookup_insert_ne by done]; [split; eauto|naive_solver]. }
    split_and!; try done.
    + intros k [Hk|?]%S3; [|right; by right]. destruct ok; [|by left]. destruct (decide (k = key)) as [->|]; [right; left|left; by rewrite lookup_insert_ne in Hk].
    + intros k Hk. apply S4. destruct ok; [|done]. destruct (decide (k = key)) as [->|]; [rewrite lookup_insert_eq; eauto|by rewrite lookup_insert_ne].
    + intros k [->|?]%elem_of_cons ?; [done|eauto].
    + intros Hup. destruct (Hup1 Hup) as [-> Hup']. destruct (S6 Hup') as [? ?]. split; [done|]. intros k [->|?]%elem_of_cons; [|eauto].
      apply S4. rewrite lookup_insert_eq. eauto.
Qed.

Lemma remove_entries l c new c' new' :
  good c → Forall (λ e, wf e.1 e.2) l → NoDup l.*1 → (∀ k, k ∈ l.*1 → desired !! k = None → new !! k = None) →
  (∀ k, installed c k ↔ is_Some (new !! k) ∨ (k ∈ l.*1 ∧ desired !! k = None)) → map_Forall wf new →
  foldl (remove_entry remove desired) (c, new) l = (c', new') →
  good c' ∧ (∀ k, installed c' k ↔ is_Some (new' !! k)) ∧ map_Forall wf new' ∧ (up c → up c' ∧ new' = new).
Proof.
  intros Hg Hl. revert c new Hg. induction Hl as [|[key e] l Hwf _ IH]; intros c new Hg Hnd Hdis Hin Hnew Ef; simpl in *.
  { injection Ef as <- <-. split_and!; [done| |done|done]. intros k. rewrite Hin. split; [|auto]. by intros [?|[[]%not_elem_of_nil _]]. }
  apply NoDup_cons in Hnd as [Hk Hnd]. destruct (decide (is_Some (desired !! key))) as [Hd|Hd%eq_None_not_Some].
  { apply IH in Ef as (G & S1 & S2 & S3); [done|done|done| | |done]; [intros k ?; apply Hdis; by right|]. intros k. rewrite Hin, elem_of_cons.
    split; [|tauto]. intros [?|[[->|?] Hn]]; [by left| |by right]. rewrite Hn in Hd. by destruct Hd. }
  specialize (remove_ok key e c Hg Hwf). destruct (remove key e c) as [c1 ok]. destruct remove_ok as (G1 & Hup1 & Hi1).
  assert (new !! key = None) as Hnk by (apply Hdis; [left|done]).
  apply IH in Ef as (G & S1 & S2 & S3); [| done|done| | |by destruct ok; [|apply map_Forall_insert_2]].
  - split_and!; [done..|]. intros Hup. destruct (Hup1 Hup) as [-> Hup']. by apply S3.
  - intros k Hkl Hn. destruct ok; [apply Hdis; [by right|done]|]. rewrite lookup_insert_ne by (intros ->; done). apply Hdis; [by right|done].
  - intros k. rewrite Hi1, Hin, elem_of_cons. destruct ok.
    + split; [intros [[?|[[->|?] ?]] ?]; naive_solver|]. intros [Hs|[? ?]]; (split; [tauto|]); intros [_ ->]; [rewrite Hnk in Hs; by destruct Hs|done].
    + destruct (decide (k = key)) as [->|]; [rewrite lookup_insert_eq|rewrite lookup_insert_ne by done]; [|naive_solver]. split; [eauto|]. intros _. split; [auto|naive_solver].
Qed.

Lemma reconcile_tracked_sync c c' new :
  good c → map_Forall wf desired → map_Forall wf tracked → (∀ k, installed c k ↔ is_Some (tracked !! k)) →
  reconcile_tracked visit install remove desired tracked c = (c', new) →
  good c' ∧ map_Forall wf new ∧ (∀ k, installed c' k ↔ is_Some (new !! k)) ∧ (up c → up c' ∧ ∀ k, is_Some (new !! k) ↔ is_Some (desired !! k)).
Proof.
  intros Hg Hd Ht Hin Er. unfold reconcile_tracked in Er.
  assert (∀ (m : gmap string E), map_Forall wf m → Forall (λ e, wf e.1 e.2) (visit _ m)) as Hwf.
  { intros m Hm. apply Forall_forall. intros [k e] Hk. rewrite (visit_order _ _) in Hk. apply elem_of_map_to_list in Hk. by apply Hm. }
  assert (∀ (m : gmap string E) k, k ∈ (visit _ m).*1 ↔ is_Some (m !! k)) as Hkeys.
  { intros m k. rewrite (visit_order _ _), list_elem_of_fmap. split; [intros ([? e] & -> & He%elem_of_map_to_list); by exists e|].
    intros [e He]. exists (k, e). split; [done|]. by apply elem_of_map_to_list. }
  destruct (foldl (install_step _ _) _ _) as [c1 new1] eqn:E1.
  apply install_loop in E1 as (G1 & S1 & S2 & S3 & _ & S5 & S6); [|done|by apply Hwf| |by apply map_Forall_empty].
  2:{ intros k. rewrite Hin, lookup_empty. split; [auto|]. intros [?|[? ?]]; done. }
  assert (∀ k, is_Some (new1 !! k) → is_Some (desired !! k)) as Hsub.
  { intros k [Hk|Hk]%S3; [rewrite lookup_empty in Hk; by destruct Hk|by apply Hkeys]. }
  apply remove_entries in Er as (G & R1 & R2 & R3); [|done|by apply Hwf| | | |done].
  - split_and!; [done..|]. intros Hup. destruct (S6 Hup) as [Hup1 Hall]. destruct (R3 Hup1) as [Hup' ->]. split; [done|].
    intros k. split; [by apply Hsub|]. intros Hk. apply Hall. by apply Hkeys.
  - rewrite (visit_order _ _). apply NoDup_fst_map_to_list.
  - intros k _ Hn. apply eq_None_not_Some. intros Hk%Hsub. rewrite Hn in Hk. by destruct Hk.
  - intros k. rewrite S1, Hkeys. split; [|tauto]. intros [Hk|?]; [|by left]. destruct (desired !! k) as [e|] eqn:Ed; [left; apply S5; [apply Hkeys; eauto|done]|auto].
Qed.
End generic.

(** *** Redirects *)

Lemma redirect_key_inj ip port ip' port' : int64_range port → int64_range port' → redirect_key ip port = redirect_key ip' port' → ip = ip' ∧ port = port'.
Proof using Type.
  intros Hp Hp'. unfold redirect_key, JoinHostPort, has_char.
  assert (∀ h p, no_char ":" p = true → CutLast ":" (if negb (no_char ":" h) then "[" +:+ h +:+ "]:" +:+ p else h +:+ ":" +:+ p)%string =
    Some (if negb (no_char ":" h) then "[" +:+ h +:+ "]" else h, p)%string) as Hcut.
  { intros h p Hn. destruct (negb (no_char ":" h)); [|change (":" +:+ p)%string with (String ":" p); by apply CutLast_app].
    assert ("[" +:+ h +:+ "]:" +:+ p = ("[" +:+ h +:+ "]") +:+ String ":" p)%string as -> by (by rewrite !str_app_assoc). by apply CutLast_app. }
  intros E. apply (f_equal (CutLast ":")) in E. rewrite !Hcut in E by (by apply format_d_no_char). injection E as Eh Ep.
  split; [|by apply format_d_inj]. destruct (no_char ":" ip) eqn:E1, (no_char ":" ip') eqn:E2; simpl in Eh; [done| | |].
  - rewrite Eh in E1. change ("[" +:+ ip' +:+ "]")%string with (String "[" (ip' +:+ "]")) in E1. simpl in E1. rewrite no_char_app, E2 in E1. done.
  - rewrite <- Eh in E2. change ("[" +:+ ip +:+ "]")%string with (String "[" (ip +:+ "]")) in E2. simpl in E2. rewrite no_char_app, E1 in E2. done.
  - assert (ip +:+ String "]" "" = ip' +:+ String "]" "")%string as Eb by (injection Eh as Eh; exact Eh).
    apply (f_equal (CutLast "]")) in Eb. rewrite !CutLast_app in Eb by done. congruence.
Qed.

(** States in which NovaNet answers every call. *)
Definition answers (up : N → Prop) : Prop :=
  (∀ ip port to n, up n → let '(n', ok) := nn_AddMeshRedirect ip port to n in ok = true ∧ up n') ∧
  (∀ ip port n, up n → let '(n', ok) := nn_RemoveMeshRedirect ip port n in ok = true ∧ up n').

Definition redirected (to : Z) (c : client) (key : string) : Prop :=
  ∃ ip port, int64_range port ∧ key = redirect_key ip port ∧ nn_redirects (nc_server c) !! (ip, port) = Some to.
Definition redirect_wf (key : string) (e : redirectEntry) : Prop := key = redirect_key (re_ip e) (re_port e) ∧ int64_range (re_port e).
(** The client is connected to a NovaNet that answers, and every redirect goes to
    the port of the listener. *)
Definition all_to (up : N → Prop) (to : Z) (c : client) : Prop :=
  nc_connected c = true ∧ up (nc_server c) ∧ map_Forall (λ _ p, p = to) (nn_redirects (nc_server c)).

Context {B : Type}.

Lemma AddMeshRedirect_ok up to key e c : answers up → all_to up to c → redirect_wf key e →
  let '(c', ok) := AddMeshRedirect (re_ip e) (re_port e) to c in
  all_to up to c' ∧ (True → ok = true ∧ True) ∧ ∀ k, redirected to c' k ↔ redirected to c k ∨ (ok = true ∧ k = key).
Proof.
  intros [Hup _] (Hc & Hu & Hto) [-> Hp]. unfold AddMeshRedirect, client_call. rewrite Hc.
  specialize (Hup (re_ip e) (re_port e) to (nc_server c) Hu).
  destruct (nn_AddMeshRedirect _ _ _ _) as [n ok] eqn:En. destruct Hup as [-> Hu'].
  assert (nn_redirects n = <[(re_ip e, re_port e) := to]> (nn_redirects (nc_server c))) as Er by (by apply nn_add in En as [[?|[? _]] _]).
  split; [split_and!; [done|done|]; simpl; rewrite Er; by apply map_Forall_insert_2|]. split; [done|].
  intros k. unfold redirected. simpl. rewrite Er. split.
  - intros (ip & port & Hq & -> & Hl). apply lookup_insert_Some in Hl as [[[= <- <-] _]|[_ Hl]]; [by right|left; eauto].
  - intros [(ip & port & Hq & -> & Hl)|[_ ->]].
    + exists ip, port. split; [done|]. split; [done|]. destruct (decide ((re_ip e, re_port e) = (ip, port))) as [E|]; [|by rewrite lookup_insert_ne].
      by rewrite E, lookup_insert_eq.
    + exists (re_ip e), (re_port e). split; [done|]. split; [done|]. apply lookup_insert_eq.
Qed.

Lemma RemoveMeshRedirect_ok up to key e c : answers up → all_to up to c → redirect_wf key e →
  let '(c', ok) := RemoveMeshRedirect (re_ip e) (re_port e) c in
  all_to up to c' ∧ (True → ok = true ∧ True) ∧ ∀ k, redirected to c' k ↔ redirected to c k ∧ ¬ (ok = true ∧ k = key).
Proof.
  intros [_ Hup] (Hc & Hu & Hto) [-> Hp]. unfold RemoveMeshRedirect, client_call. rewrite Hc.
  specialize (Hup (re_ip e) (re_port e) (nc_server c) Hu).
  destruct (nn_RemoveMeshRedirect _ _ _) as [n ok] eqn:En. destruct Hup as [-> Hu'].
  assert (nn_redirects n = delete (re_ip e, re_port e) (nn_redirects (nc_server c))) as Er by (by apply nn_remove in En as [[?|[? _]] _]).
  split; [split_and!; [done|done|]; simpl; rewrite Er; by apply map_Forall_delete|]. split; [done|].
  intros k. unfold redirected. simpl. rewrite Er. split.
  - intros (ip & port & Hq & -> & [Hne Hl]%lookup_delete_Some). split; [eauto|]. intros [_ E]. apply redirect_key_inj in E as [-> ->]; [done|done|done].
  - intros [(ip & port & Hq & -> & Hl) Hne]. exists ip, port. split; [done|]. split; [done|]. apply lookup_delete_Some. split; [|done].
    intros [= <- <-]. by apply Hne.
Qed.

(** Ports of services are port numbers. *)
Definition port_numbers (services : list Pb.InternalService) : Prop := Forall (λ svc, Forall (λ p, 0 ≤ Pb.sp_Port p ≤ 65535) (Pb.i_Ports svc)) services.
Lemma small_int64 p : 0 ≤ p ≤ 65535 → int64_range p.
Proof using Type. unfold int64_range, min_int64, max_int64. lia. Qed.
Lemma desired_redirects_lookup services key e : port_numbers services →
  desired_redirects services !! key = Some e → redirect_wf key e ∧ ∃ svc, svc ∈ services ∧ Pb.i_MeshEnabled svc = true ∧ owns (re_ip e) (re_port e) svc.
Proof using Type.
  intros Hn. unfold desired_redirects. assert (∀ svc, svc ∈ mesh_services services → svc ∈ services ∧ Pb.i_MeshEnabled svc = true) as Hsub by (intros svc; apply mesh_services_in).
  revert Hsub. generalize (mesh_services services) as l. intros l. induction l as [|svc l IH] using rev_ind; [intros _; simpl; by rewrite lookup_empty|].
  intros Hsub. rewrite foldl_app. simpl. destruct (Hsub svc) as [Hs Hm]; [apply elem_of_app; right; left|].
  unfold port_numbers in Hn. rewrite Forall_forall in Hn. pose proof (Hn svc Hs) as Hps. rewrite Forall_forall in Hps.
  assert (∀ p, p ∈ Pb.i_Ports svc → p ∈ Pb.i_Ports svc) as Hports by done. revert Hports. generalize (Pb.i_Ports svc) at 1 3 as ports.
  intros ports. induction ports as [|p ports IHp] using rev_ind; intros Hports; [apply IH; intros; apply Hsub, elem_of_app; by left|].
  rewrite foldl_app. simpl. intros [[<- <-]|[_ Hl]]%lookup_insert_Some; [|apply IHp; [intros; apply Hports, elem_of_app; by left|done]].
  assert (p ∈ Pb.i_Ports svc) as Hp by (apply Hports, elem_of_app; right; left). pose proof (Hps p Hp) as Hr. unfold uint32. simpl. rewrite Z.mod_small by lia.
  split; [split; [done|by apply small_int64]|]. exists svc. split; [done|]. split; [done|]. split; [done|]. by apply list_elem_of_fmap_2.
Qed.
Lemma desired_redirects_complete services svc ip port : port_numbers services → svc ∈ services → Pb.i_MeshEnabled svc = true → owns ip port svc →
  is_Some (desired_redirects services !! redirect_key ip port).
Proof using Type.
  intros _ Hs Hm Ho. unfold desired_redirects. assert (svc ∈ mesh_services services) as Hin by (by apply mesh_services_in).
  assert (∀ ports cip (m : gmap string redirectEntry) k, is_Some (m !! k) →
    is_Some (foldl (λ m p, <[redirect_key cip (Pb.sp_Port p) := mkRedirectEntry cip (uint32 (Pb.sp_Port p))]> m) m ports !! k)) as Hkeep.
  { intros ports cip. induction ports as [|p ports IH]; intros m k Hk; [done|]. apply IH. destruct (decide (redirect_key cip (Pb.sp_Port p) = k)) as [<-|];
      [rewrite lookup_insert_eq; eauto|by rewrite lookup_insert_ne]. }
  revert Hin. generalize (mesh_services services) as l. intros l. induction l as [|svc' l IH] using rev_ind; [by intros ?%not_elem_of_nil|].
  rewrite foldl_app. simpl. intros [Hl|Hl]%elem_of_app; [by apply Hkeep, IH|]. apply list_elem_of_singleton in Hl as <-.
  destruct Ho as [<- (p & -> & Hp)%list_elem_of_fmap]. apply list_elem_of_split in Hp as (l1 & l2 & ->). rewrite foldl_app. simpl. apply Hkeep.
  rewrite lookup_insert_eq. eauto.
Qed.

(** What a manager and its client agree on: what is tracked is what is installed,
    all of it for the port of the listener. *)
Definition in_step (up : N → Prop) (m : Manager (B := B) (N := N)) (c : client) : Prop :=
  m_novanetClient m = Some c ∧ all_to up (uint32 (m_tproxyPort m)) c ∧ map_Forall redirect_wf (m_meshRedirects m) ∧
  ∀ k, redirected (uint32 (m_tproxyPort m)) c k ↔ is_Some (m_meshRedirects m !! k).

Lemma reconcile_in_step up services m c :
  answers up → port_numbers services → in_step up m c →
  let m' := reconcileNovaNetMeshRedirects visit services c m in
  ∃ c', in_step up m' c' ∧ m_tproxyPort m' = m_tproxyPort m ∧
    ∀ ip port, int64_range port →
      nn_redirects (nc_server c') !! (ip, port) = Some (uint32 (m_tproxyPort m)) ↔
      ∃ svc, svc ∈ services ∧ Pb.i_MeshEnabled svc = true ∧ owns ip port svc.
Proof.
  intros Hup Hports (_ & Hc & Htracked & Hsync) m'. subst m'. unfold reconcileNovaNetMeshRedirects.
  destruct (reconcile_tracked _ _ _ _ _ c) as [c' new] eqn:Er.
  eapply (reconcile_tracked_sync _ _ _ _ (all_to up (uint32 (m_tproxyPort m))) (λ _, True) (redirected (uint32 (m_tproxyPort m))) redirect_wf) in Er
    as (G & W & S & U); [|by intros; apply AddMeshRedirect_ok|by intros; apply RemoveMeshRedirect_ok|done| |done|done].
  2:{ intros key e He. by apply desired_redirects_lookup in He as [? _]. }
  exists c'. simpl. split; [by split_and!|]. split; [done|]. destruct (U I) as [_ Hd]. intros ip port Hp. split.
  - intros Hl. assert (redirected (uint32 (m_tproxyPort m)) c' (redirect_key ip port)) as [e He]%S%Hd by (by exists ip, port).
    apply desired_redirects_lookup in He as [[Ek Hr] ?]; [|done]. apply redirect_key_inj in Ek as [-> ->]; done.
  - intros (svc & Hs & Hm & Ho). assert (is_Some (new !! redirect_key ip port)) as (ip' & port' & Hp' & Ek & Hl)%S by (by apply Hd; eapply desired_redirects_complete).
    apply redirect_key_inj in Ek as [-> ->]; done.
Qed.

(** The reconciliations of a history of configurations. *)
Definition reconcile_history (history : list (list Pb.InternalService)) (m : Manager (B := B) (N := N)) : Manager :=
  foldl (λ m services, match m_novanetClient m with
                       | Some c => reconcileNovaNetMeshRedirects visit services c m
                       | None => m
                       end) m history.

(** C25: The redirects in the kernel follow the services. Let a manager that
    tracks nothing be connected to a NovaNet that has no redirects and that
    answers every call with success. Along every history of configurations
    whose ports are port numbers, what the manager tracks is exactly what is
    installed, and after the last of them exactly the addresses of the services
    of the mesh in it are redirected to the port of the listener. When a call
    fails this is lost: see [lost_answer_loses_redirect]. *)
Theorem redirects_follow_services (history : list (list Pb.InternalService)) (services : list Pb.InternalService)
    (m : Manager (B := B) (N := N)) (c : client) (up : N → Prop)
    (Hup : answers up) (Hc : m_novanetClient m = Some c) (Hon : nc_connected c = true) (Hu : up (nc_server c))
    (Hempty : nn_redirects (nc_server c) = ∅) (Hnone : m_meshRedirects m = ∅)
    (Hports : Forall port_numbers (history ++ [services])) :
  let m' := reconcile_history (history ++ [services]) m in
  ∃ c', m_novanetClient m' = Some c' ∧
    (∀ k, redirected (uint32 (m_tproxyPort m)) c' k ↔ is_Some (m_meshRedirects m' !! k)) ∧
    ∀ ip port, int64_range port →
      nn_redirects (nc_server c') !! (ip, port) = Some (uint32 (m_tproxyPort m)) ↔
      ∃ svc, svc ∈ services ∧ Pb.i_MeshEnabled svc = true ∧ owns ip port svc.
Proof.
  apply Forall_app in Hports as [Hh [Hs _]%Forall_cons]. intros m'. subst m'.
  unfold reconcile_history. rewrite foldl_app. simpl.
  assert (∃ c1, in_step up (reconcile_history history m) c1 ∧ m_tproxyPort (reconcile_history history m) = m_tproxyPort m) as (c1 & Hin & Hp).
  { assert (in_step up m c) as Hin.
    { split_and!; [done|split_and!; [done|done|by rewrite Hempty]|by rewrite Hnone|].
      intros k. unfold redirected. rewrite Hempty, Hnone, lookup_empty. split; [intros (ip & port & _ & _ & Hl); by rewrite lookup_empty in Hl|by intros []]. }
    clear Hc Hon Hu Hempty Hnone. revert m c Hin. induction Hh as [|svcs history Hs' _ IH]; intros m c Hin; [by exists c|].
    simpl. pose proof Hin as (Hc & _). rewrite Hc. destruct (reconcile_in_step up svcs m c Hup Hs' Hin) as (c' & Hin' & Hp & _).
    destruct (IH _ c' Hin') as (c1 & H1 & H2). exists c1. split; [done|]. by etransitivity. }
  unfold reconcile_history in Hin, Hp. pose proof Hin as (Hc1 & _). rewrite Hc1.
  destruct (reconcile_in_step up services _ c1 Hup Hs Hin) as (c' & (Hc' & _ & _ & Hsync) & Hp' & Hall).
  rewrite Hp in *. rewrite Hp' in Hsync. by exists c'.
Qed.
End tracking.

(** ** Examples *)

(** A NovaNet with a list that says which calls succeed (all at its end); a call that
    fails takes effect if [lost] - its answer was lost. *)
Record example_net := mkExampleNet { en_redirects : gmap (string * Z) Z; en_pods : gset (string * string); en_limits : gmap string (Z * Z); en_oracle : list bool }.
Definition example_call (lost : bool) (f : example_net → example_net) (n : example_net) : example_net * bool :=
  let ok := default true (head (en_oracle n)) in
  let n' := if ok || lost then f n else n in
  (mkExampleNet (en_redirects n') (en_pods n') (en_limits n') (tail (en_oracle n)), ok).
Definition example_novanet (lost : bool) : NovaNet example_net.
Proof.
  refine {|
    nn_AddMeshRedirect ip port to := example_call lost (λ n, mkExampleNet (<[(ip, port) := to]> (en_redirects n)) (en_pods n) (en_limits n) (en_oracle n));
    nn_RemoveMeshRedirect ip port := example_call lost (λ n, mkExampleNet (delete (ip, port) (en_redirects n)) (en_pods n) (en_limits n) (en_oracle n));
    nn_EnableSockmap ns name := example_call lost (λ n, mkExampleNet (en_redirects n) ({[(ns, name)]} ∪ en_pods n) (en_limits n) (en_oracle n));
    nn_DisableSockmap ns name := example_call lost (λ n, mkExampleNet (en_redirects n) (en_pods n ∖ {[(ns, name)]}) (en_limits n) (en_oracle n));
    nn_ConfigureRateLimit cidr rate burst := example_call lost (λ n, mkExampleNet (en_redirects n) (en_pods n) (<[cidr := (rate, burst)]> (en_limits n)) (en_oracle n));
    nn_RemoveRateLimit cidr := example_call lost (λ n, mkExampleNet (en_redirects n) (en_pods n) (delete cidr (en_limits n)) (en_oracle n));
    nn_redirects := en_redirects; nn_pods := en_pods; nn_limits := en_limits |};
  intros *; unfold example_call; destruct (default true _), lost; intros [= <- <-]; simpl; auto.
Defined.
(** NovaNet answers when its list is used up. *)
Definition example_up (n : example_net) : Prop := en_oracle n = [].
Lemma example_answers lost : @answers _ (example_novanet lost) example_up.
Proof. split; intros *; simpl; unfold example_call, example_up; simpl; by intros ->. Qed.

Definition endpoint (addr : string) (port : Z) (ready : bool) : Pb.Endpoint := Pb.mkEndpoint addr port ready ∅ 0.
Definition mesh_service (name ip : string) (port : Z) (endpoints : list Pb.Endpoint) : Pb.InternalService :=
  Pb.mkInternalService name "shop" ip [Pb.mkServicePort "" port port "TCP"] endpoints 0 true "".
Definition api_service : Pb.InternalService := mesh_service "api" "10.96.0.10" 80 [endpoint "10.1.0.1" 8080 true; endpoint "10.1.0.2" 8080 false; endpoint "10.1.0.3" 8080 true].
Definition dns_service : Pb.InternalService := mesh_service "dns" "10.96.0.11" 53 [endpoint "10.1.0.9" 5353 true].

Lemma example_fit : ports_fit [api_service; dns_service].
Proof. apply (bool_decide_unpack _). vm_compute. exact I. Defined.

(** Two addresses in turn: the endpoints that are ready are taken in turn as well. *)
Lemma lookups_round_robin_witness :
  let reqs := [("10.96.0.10", 80); ("10.96.0.11", 53); ("10.96.0.10", 80); ("10.96.0.10", 80)]%string in
  lookups reqs (Table_Update [api_service; dns_service]) !! 3%nat = Some (Some (endpoint "10.1.0.1" 8080 true)).
Proof.
  intros reqs. rewrite (lookups_round_robin [api_service; dns_service] reqs 3 "10.96.0.10" 80).
  - vm_compute. reflexivity.
  - exact example_fit.
  - apply (bool_decide_unpack _). vm_compute. exact I.
  - vm_compute. reflexivity.
  - reflexivity.
Defined.

#[local] Instance mesh_texts : TextTables := MeshIntercept.mesh_texts.

Section examples.
Context (lost : bool).
#[local] Existing Instance example_novanet.
#[local] Existing Instance iptables_backend.

Definition net (oracle : list bool) : Client (N := example_net) := mkClient true (mkExampleNet ∅ ∅ ∅ oracle).
Definition with_net (c : Client (N := example_net)) : Manager (B := iptablesBackend (K := example_table)) := NewManager 15001 "" "node-1" (Some c).
Definition started : Manager (B := iptablesBackend (K := example_table)) := (Start (H := iptables_backend in_listed_order) fresh_ipt (with_net (net []))).1.
Definition apply_services (services : list Pb.InternalService) (policies : option (list MeshAuthorizationPolicy)) (m : Manager (B := iptablesBackend (K := example_table)) (N := example_net)) :=
  ApplyConfig (H := iptables_backend in_listed_order) (H0 := example_novanet lost) in_listed_order services policies m.
End examples.

Lemma started_ok : ∃ t, m_tproxy started = Some t ∧ @manager_ok _ (iptables_backend in_listed_order) (iptables_laws in_listed_order (λ V m, Permutation_refl _)) t.
Proof.
  exists (TPROXY_Setup (H := iptables_backend in_listed_order) (NewTPROXYManagerWithBackend 15001 fresh_ipt)).1. split; [vm_compute; reflexivity|].
  split; [unfold port_ok; simpl; lia|].
  apply (rb_setup (RuleBackendLaws := iptables_laws in_listed_order (λ V m, Permutation_refl _)) 15001 fresh_ipt); [split; reflexivity|unfold port_ok; lia|vm_compute; reflexivity].
Qed.

Lemma mesh_config_is_applied_witness :
  ∃ m', apply_services false [api_service; dns_service] None started = Returns (m', true) ∧
    (handleConn 16 (mkClientConn "GET / HTTP/1.1" Closes) "10.96.0.10" 80 m').2 = Some "10.1.0.1:8080"%string.
Proof.
  destruct started_ok as (t & Ht & Hok).
  destruct (mesh_config_is_applied (B := iptablesBackend (K := example_table)) (H := iptables_backend in_listed_order)
    (H0 := iptables_laws in_listed_order (λ V m, Permutation_refl _)) (H1 := example_novanet false) in_listed_order [api_service; dns_service] None started t Ht Hok example_fit)
    as (m' & ok & t' & E & _ & _ & H).
  { simpl. repeat first [exact web_ok|exact dns_ok|apply Forall_nil_2|apply Forall_cons_2]. }
  assert (ok = true) as ->.
  { apply (f_equal (λ r, match r with Returns x => x.2 | Panics => false end)) in E. vm_compute in E. symmetry. exact E. }
  exists m'. split; [exact E|]. destruct (H eq_refl) as [_ Hall]. destruct (Hall "10.96.0.10"%string 80 web_ok) as [Hi Hc].
  destruct Hc as (svc & Es & _ & _ & Hconn).
  { apply Hi. exists api_service. split; [left|]. split; [reflexivity|]. split; [reflexivity|]. left. }
  vm_compute in Es. injection Es as <-. rewrite Hconn by (vm_compute; eexists; reflexivity). vm_compute. reflexivity.
Defined.

Lemma redirects_follow_services_witness :
  ∃ c', m_novanetClient (reconcile_history (B := iptablesBackend (K := example_table)) (H := example_novanet false) in_listed_order
      ([[dns_service]] ++ [[api_service]]) (with_net (net []))) = Some c' ∧
    nn_redirects (NovaNet := example_novanet false) (nc_server c') !! ("10.96.0.10"%string, 80) = Some 15001.
Proof.
  destruct (redirects_follow_services (H := example_novanet false) (B := iptablesBackend (K := example_table))
    in_listed_order (λ V m, Permutation_refl _) [[dns_service]] [api_service] (with_net (net [])) (net []) example_up) as (c' & Ec & _ & Hall).
  - exact (example_answers false).
  - reflexivity.
  - reflexivity.
  - reflexivity.
  - reflexivity.
  - reflexivity.
  - repeat constructor; simpl; lia.
  - exists c'. split; [exact Ec|]. apply Hall; [unfold int64_range, min_int64, max_int64; lia|].
    exists api_service. split; [left|]. split; [reflexivity|]. split; [reflexivity|left].
Defined.

(** ** Gaps *)

(** The rules cannot be written: the call returns early, the table has the new services
    and the policies are the old ones. A policy that denies access is not in force. *)
Definition deny_all : MeshAuthorizationPolicy := mkPolicy "deny" "DENY" "api" "shop" [mkRule [] []].
Definition broken : Manager (B := iptablesBackend (K := example_table)) :=
  let t := NewTPROXYManagerWithBackend 15001 (mkIptablesBackend (mkSysctl (Some "1"%string) false) (mkExampleTable (Some []) true [false]) ∅ true) in
  set_m_tproxy (Some t) (with_net (net [])).
Example failed_rules_keep_old_policies :
  match apply_services false [api_service] (Some [deny_all]) broken with
  | Returns (m, ok) => ok = false ∧ ServiceCount (m_serviceTable m) = 1%nat ∧ m_authorizer m = NewAuthorizer
  | Panics => False
  end.
Proof. vm_compute. split; [reflexivity|]. split; reflexivity. Qed.

(** The last policy cannot be removed: an empty list arrives as nil, and nil is skipped. *)
Example last_policy_stays :
  match apply_services false [api_service] (Some [deny_all]) started with
  | Returns (m1, true) =>
      match apply_services false [api_service] None m1 with
      | Returns (m2, ok) => ok = true ∧ PolicyCount (m_authorizer m2) = 1%nat
      | Panics => False
      end
  | _ => False
  end.
Proof. vm_compute. split; reflexivity. Qed.

(** A call of NovaNet that takes effect although its answer is lost: the redirect is
    removed and still tracked, so it is not installed again when the service is back. *)
Definition reconcile_redirects (services : list Pb.InternalService) (m : Manager (B := iptablesBackend (K := example_table)) (N := example_net)) :=
  match m_novanetClient m with
  | Some c => reconcileNovaNetMeshRedirects (H0 := example_novanet true) in_listed_order services c m
  | None => m
  end.
Example lost_answer_loses_redirect :
  let m := reconcile_redirects [api_service] (reconcile_redirects [] (reconcile_redirects [api_service] (with_net (net [true; false])))) in
  size (m_meshRedirects m) = 1%nat ∧ (en_redirects ∘ nc_server) <$> m_novanetClient m = Some ∅.
Proof. split; vm_compute; reflexivity. Qed.

(** A rate limit that could not be removed is forgotten, and stays. *)
Definition limits (desired : list RateLimitEntry) (m : Manager (B := iptablesBackend (K := example_table)) (N := example_net)) :=
  ApplyRateLimits (H0 := example_novanet false) in_listed_order desired m.
Example failed_removal_is_forgotten :
  let m := limits [] (limits [] (limits [mkRateLimitEntry "10.0.0.0/8" 100 10] (with_net (net [true; false])))) in
  m_rateLimits m = ∅ ∧ (size ∘ en_limits ∘ nc_server) <$> m_novanetClient m = Some 1%nat.
Proof. split; vm_compute; reflexivity. Qed.

(** A shutdown leaves the redirects of NovaNet behind, which lead to a port where
    nobody listens any more. *)
Example shutdown_leaves_redirects :
  let m := Shutdown (H := iptables_backend in_listed_order) (H0 := example_novanet false) in_listed_order (reconcile_redirects [api_service] (with_net (net []))) in
  (size ∘ en_redirects ∘ nc_server) <$> m_novanetClient m = Some 1%nat.
Proof. vm_compute. reflexivity. Qed.

(** A client that waits for the server to speak first, as with SMTP or MySQL, is never
    connected to it: the agent waits for 16 bytes of the client. So is a client whose
    request is shorter than that. *)
Example server_first_protocols_block :
  match apply_services false [api_service] None started with
  | Returns (m, _) =>
      (handleConn 16 (mkClientConn "" Waits) "10.96.0.10" 80 m).2 = None ∧
      (handleConn 16 (mkClientConn "PING" Waits) "10.96.0.10" 80 m).2 = None
  | Panics => False
  end.
Proof. vm_compute. split; reflexivity. Qed.

(** The load balancing policy of a service is stored, and never consulted. *)
Lemma load_balancing_policy_is_ignored st ip port lb e : st !! service_key ip port = Some e →
  (Table_Lookup ip port (<[service_key ip port := mkServiceEntry (sn_ready e) lb (sn_idx e)]> st)).2 = (Table_Lookup ip port st).2.
Proof. intros E. unfold Table_Lookup. rewrite lookup_insert_eq, E. simpl. by destruct (sn_ready e). Qed.
