(* ===== verification/MeshTunnel.v ===== *)
(** * Tunnels between agents
    (src/internal/agent/mesh/tls.go, tunnel.go and cert.go)

    Agents open mutually authenticated HTTP/2 CONNECT tunnels to each other. The
    provider of certificates, the checks of the tunnel server, the buffered
    writer, the connection of a stream with its deadlines, the pool of clients and
    the renewal of the certificate. Parsing of PEM and X.509 data, TLS and HTTP are
    arguments; sockets and copying bytes are left out. *)

From S2P Require Import Prelude GoStrings Float64 GoPath MeshAuthz.
Open Scope Z_scope.
Open Scope go_scope.

(** ** Certificates *)

(** [pem.Decode] (type and bytes of the first block, and the rest, which is shorter),
    [x509.ParseCertificate] and [tls.X509KeyPair] with the leaf parsed. *)
Class X509 := {
  Certificate : Type;
  KeyPair : Type;
  pem_Decode : string → option (string * string) * string;
  ParseCertificate : string → option Certificate;
  X509KeyPair : string → string → option KeyPair;
  pem_rest data block rest : pem_Decode data = (Some block, rest) → (String.length rest < String.length data)%nat;
}.

Section tls.
Context `{X : X509}.

Record TLSProvider := mkTLSProvider {
  tp_cert : option KeyPair;
  tp_caCertPool : option (list Certificate);
  tp_trustDomain : string;
  tp_spiffeID : string;
  tp_fedCfg : option FederationConfig;
  tp_lastCertPEM : string;
  tp_lastKeyPEM : string;
}.
Definition NewTLSProvider (trustDomain : string) (fedCfg : option FederationConfig) : TLSProvider :=
  mkTLSProvider None None trustDomain "" fedCfg "" "".

(** The loop over the CA bundle; the fuel is the length of the bundle, see
    [ca_pool_enough]. [None] is a certificate that does not parse. *)
Fixpoint ca_pool (fuel : nat) (rest : string) (pool : list Certificate) : option (list Certificate) :=
  match fuel with
  | O => Some pool
  | S fuel =>
      if str_empty rest then Some pool
      else
        match pem_Decode rest with
        | (None, _) => Some pool
        | (Some (type, bytes), rest) =>
            if negb (str_eqb type "CERTIFICATE") then ca_pool fuel rest pool
            else match ParseCertificate bytes with
                 | None => None
                 | Some c => ca_pool fuel rest (pool ++ [c])
                 end
        end
  end.

Inductive CertErr := KeyPairErr | CAParseErr | NoValidCA.

(** The pair in use: the cached one if the texts are the same. *)
Definition current_pair (certPEM keyPEM : string) (p : TLSProvider) : option KeyPair :=
  match tp_cert p with
  | Some c => if str_eqb (tp_lastCertPEM p) certPEM && str_eqb (tp_lastKeyPEM p) keyPEM then Some c else X509KeyPair certPEM keyPEM
  | None => X509KeyPair certPEM keyPEM
  end.
Definition UpdateCertificate (certPEM keyPEM caCertPEM spiffeID : string) (p : TLSProvider) : TLSProvider * option CertErr :=
  match current_pair certPEM keyPEM p with
  | None => (p, Some KeyPairErr)
  | Some cert =>
      match ca_pool (String.length caCertPEM) caCertPEM [] with
      | None => (p, Some CAParseErr)
      | Some [] => (p, Some NoValidCA)
      | Some pool => (mkTLSProvider (Some cert) (Some pool) (tp_trustDomain p) spiffeID (tp_fedCfg p) certPEM keyPEM, None)
      end
  end.
Definition HasCertificate (p : TLSProvider) : bool := bool_decide (is_Some (tp_cert p)) && bool_decide (is_Some (tp_caCertPool p)).

(** The certificate and the CAs of a handshake of the server: both are read when the
    client connects. *)
Definition ServerTLSConfig (p : TLSProvider) : option KeyPair * option (list Certificate) := (tp_cert p, tp_caCertPool p).
(** The configuration for dialling: the certificate is read when it is used, the roots
    are those of the moment at which the configuration is made. [None] are the roots
    of the system. *)
Record ClientTLS := mkClientTLS { ct_RootCAs : option (list Certificate) }.
Definition ClientTLSConfig (p : TLSProvider) : ClientTLS := mkClientTLS (tp_caCertPool p).
Definition client_handshake (c : ClientTLS) (p : TLSProvider) : option KeyPair * option (list Certificate) := (tp_cert p, ct_RootCAs c).

(** The URIs of the certificates that a peer presents, by scheme and text. *)
Definition peer_certificates : Type := list (list (string * string)).
Definition PeerSPIFFEID (state : option peer_certificates) : string :=
  match state with
  | Some (uris :: _) => default ""%string (snd <$> (list_find (λ u, u.1 = "spiffe"%string) uris ≫= λ '(_, u), Some u))
  | _ => ""
  end.

Definition ValidatePeerSPIFFEID `{UrlParser} (spiffeID : string) (p : TLSProvider) : bool :=
  if str_empty spiffeID then false
  else
    let identity := ParseSPIFFEID spiffeID in
    if str_empty (si_SpiffeID identity) then false
    else if IsFederated identity then
      match tp_fedCfg p with
      | None => false
      | Some fc =>
          if negb (Federation_IsActive fc) then false
          else str_eqb (si_FederationID identity) (fc_FederationID fc) && IsClusterAllowed fc (si_ClusterName identity)
      end
    else str_eqb (si_TrustDomain identity) (tp_trustDomain p).
End tls.

(** ** The tunnel server *)

Record connect_request := mkConnectRequest {
  cr_Method : string; cr_Host : string; cr_TLS : option peer_certificates; cr_DestService : string; cr_Path : string }.
Inductive connect_response := MethodNotAllowed | InvalidPeerIdentity | DeniedByPolicy | BadGateway | Tunnel (backend : string).

(** [handleConnect] up to the copying of bytes; [dial] tells whether a backend can be
    reached. *)
Definition handleConnect `{X509} `{UrlParser} `{Folding} (tlsProvider : option TLSProvider) (authorizer : option Authorizer) (dial : string → bool)
    (r : connect_request) : option Authorizer * connect_response :=
  if negb (str_eqb (cr_Method r) "CONNECT") then (authorizer, MethodNotAllowed)
  else
    let sourceID := PeerSPIFFEID (cr_TLS r) in
    if match tlsProvider with Some p => negb (str_empty sourceID) && negb (ValidatePeerSPIFFEID sourceID p) | None => false end
    then (authorizer, InvalidPeerIdentity)
    else
      let '(authorizer, allowed) :=
        match authorizer with
        | Some a => let '(a, ok) := Authorize (ParseSPIFFEID sourceID) (cr_DestService r) (cr_Method r) (cr_Path r) a in (Some a, ok)
        | None => (None, true)
        end in
      if negb allowed then (authorizer, DeniedByPolicy)
      else if dial (cr_Host r) then (authorizer, Tunnel (cr_Host r)) else (authorizer, BadGateway).

(** ** The buffered writer *)

Definition tunnelWriteBufSize : nat := Z.to_nat 32768.

(** What the response accepts: [None] takes everything, [Some n] takes [n] bytes and
    fails (or all of them, if there are fewer). *)
Definition response : Type := list (option nat).
Record bufferedFlushWriter := mkBufferedFlushWriter {
  bw_sent : list Z; (* accepted by the response, in order *)
  bw_response : response; (* its answers to come; it accepts everything at the end *)
  bw_buf : list Z; (* the contents of the [bufio.Writer] *)
  bw_err : bool; (* its sticky error *)
  bw_timer : bool; (* the flush timer is running *)
  bw_closed : bool;
}.
Definition newBufferedFlushWriter (r : response) : bufferedFlushWriter := mkBufferedFlushWriter [] r [] false false false.

(** [Write] of the response; the number of bytes accepted, and success. *)
Definition raw_write (data : list Z) (w : bufferedFlushWriter) : bufferedFlushWriter * nat * bool :=
  let put n ok := (mkBufferedFlushWriter (bw_sent w ++ take n data) (tail (bw_response w)) (bw_buf w) (bw_err w) (bw_timer w) (bw_closed w), n, ok) in
  match head (bw_response w) with
  | Some (Some n) => put (n `min` length data)%nat false
  | _ => put (length data) true
  end.
Definition set_bufio (buf : list Z) (err : bool) (w : bufferedFlushWriter) : bufferedFlushWriter :=
  mkBufferedFlushWriter (bw_sent w) (bw_response w) buf err (bw_timer w) (bw_closed w).
Definition set_timer (timer closed : bool) (w : bufferedFlushWriter) : bufferedFlushWriter :=
  mkBufferedFlushWriter (bw_sent w) (bw_response w) (bw_buf w) (bw_err w) timer closed.

(** [bufio.Writer.Flush]: what was not accepted stays in the buffer. *)
Definition bufio_Flush (w : bufferedFlushWriter) : bufferedFlushWriter * bool :=
  if bw_err w then (w, false)
  else match bw_buf w with
       | [] => (w, true)
       | buf => let '(w, n, ok) := raw_write buf w in (set_bufio (drop n buf) (negb ok) w, ok)
       end.

(** [bufio.Writer.Write], the number of bytes taken and success. Each round empties
    the buffer, passes the data on or ends, so three are enough. *)
Fixpoint bufio_Write (fuel : nat) (data : list Z) (taken : nat) (w : bufferedFlushWriter) : bufferedFlushWriter * nat * bool :=
  let available := (tunnelWriteBufSize - length (bw_buf w))%nat in
  if bw_err w then (w, taken, false)
  else if decide (length data ≤ available)%nat then (set_bufio (bw_buf w ++ data) false w, (taken + length data)%nat, true)
  else match fuel with
       | O => (w, taken, true)
       | S fuel =>
           match bw_buf w with
           | [] => let '(w, n, ok) := raw_write data w in bufio_Write fuel (drop n data) (taken + n) (set_bufio [] (negb ok) w)
           | buf =>
               let w := set_bufio (buf ++ take available data) false w in
               bufio_Write fuel (drop available data) (taken + available) (bufio_Flush w).1
           end
       end.

(** [BufferedWrite]: an error of [None] is a closed writer. *)
Definition BufferedWrite (data : list Z) (w : bufferedFlushWriter) : bufferedFlushWriter * nat * bool :=
  if bw_closed w then (w, 0%nat, false)
  else let '(w, n, ok) := bufio_Write 3 data 0 w in (set_timer true (bw_closed w) w, n, ok).
(** The function of the timer. *)
Definition flush_timer (w : bufferedFlushWriter) : bufferedFlushWriter :=
  let w := if bw_closed w then w else (bufio_Flush w).1 in set_timer false (bw_closed w) w.
Definition writer_Close (w : bufferedFlushWriter) : bufferedFlushWriter * bool :=
  if bw_closed w then (w, true) else bufio_Flush (set_timer false true w).

(** A run of the writer: writes, the timer (when it is running) and the end. *)
Inductive writer_event := WriteData (data : list Z) | TimerFires | CloseWriter.
Definition writer_step (w : bufferedFlushWriter) (e : writer_event) : bufferedFlushWriter :=
  match e with
  | WriteData data => (BufferedWrite data w).1.1
  | TimerFires => if bw_timer w then flush_timer w else w
  | CloseWriter => (writer_Close w).1
  end.
(** The bytes that the calls of a run have reported as written. *)
Fixpoint reported (w : bufferedFlushWriter) (events : list writer_event) : list Z :=
  match events with
  | [] => []
  | e :: events =>
      match e with WriteData data => take (BufferedWrite data w).1.2 data | _ => [] end ++ reported (writer_step w e) events
  end.

(** ** The connection of a stream *)

(** The three deadlines, each with the time at which its timer fires. *)
Inductive deadline := ReadDeadline | WriteDeadline | BothDeadline.
#[export] Instance deadline_dec : EqDecision deadline.
Proof. solve_decision. Defined.
Record streamConn := mkStreamConn {
  sc_closed : bool;
  sc_timer : deadline → option Z;
  sc_reader_closes : nat; (* calls of [Close] of the reader and of the writer *)
  sc_writer_closes : nat;
}.
Definition new_stream : streamConn := mkStreamConn false (λ _, None) 0 0.
Definition closeLocked (c : streamConn) : streamConn :=
  if sc_closed c then c else mkStreamConn true (sc_timer c) (S (sc_reader_closes c)) (S (sc_writer_closes c)).
Definition stopTimerLocked (d : deadline) (c : streamConn) : streamConn :=
  mkStreamConn (sc_closed c) (λ d', if decide (d' = d) then None else sc_timer c d') (sc_reader_closes c) (sc_writer_closes c).
Definition setTimerLocked (d : deadline) (t : option Z) (now : Z) (c : streamConn) : streamConn :=
  let c := stopTimerLocked d c in
  match t with
  | None => c
  | Some t =>
      if decide (t - now ≤ 0) then closeLocked c
      else mkStreamConn (sc_closed c) (λ d', if decide (d' = d) then Some t else sc_timer c d') (sc_reader_closes c) (sc_writer_closes c)
  end.
Definition stream_Close (c : streamConn) : streamConn :=
  closeLocked (stopTimerLocked BothDeadline (stopTimerLocked WriteDeadline (stopTimerLocked ReadDeadline c))).
(** The function of a timer; the timer stays set. *)
Definition deadline_passes (c : streamConn) : streamConn := closeLocked c.

(** ** The pool of clients *)

Definition tunnelPoolClientTTL : Z := 600 * 10 ^ 9.
(** A client by its address, with the time of its last use. *)
Record TunnelPool := mkTunnelPool { po_clients : gmap string Z; po_stopped : bool }.
Definition NewTunnelPool : TunnelPool := mkTunnelPool ∅ false.
Definition evictIdle (now : Z) (tp : TunnelPool) : TunnelPool :=
  mkTunnelPool (filter (λ e, now - tunnelPoolClientTTL ≤ e.2) (po_clients tp)) (po_stopped tp).
Definition pool_Close (tp : TunnelPool) : TunnelPool := mkTunnelPool ∅ true.

Inductive DialErr := InvalidBackend | ConnectFailed | ConnectStatus (code : Z).
(** [DialVia]: [valid] is the check of the address, [send] the answer of the peer to
    the CONNECT request. A transport is made for every call; the pool is not used. *)
Definition DialVia (valid : string → bool) (send : string → string → string → string → option Z)
    (nodeAddr backendAddr sourceID destService : string) (tp : TunnelPool) : TunnelPool * (unit + DialErr) :=
  if negb (valid ("https://" +:+ backendAddr)) then (tp, inr InvalidBackend)
  else match send nodeAddr backendAddr sourceID destService with
       | None => (tp, inr ConnectFailed)
       | Some code => if decide (code = 200) then (tp, inl tt) else (tp, inr (ConnectStatus code))
       end.

(** ** Renewal of the certificate *)

Definition second : Z := 10 ^ 9.
Definition renewalThreshold : float64 := S754_finite false 7205759403792794 (-53). (* 0.8 *)
Definition minRenewalInterval : Z := 30 * second.
Definition certRetryDelay : Z := 5 * second.

(** The conversion of a float to [int64], towards zero, in its range. *)
Definition trunc (x : float64) : Z :=
  match x with
  | S754_finite s m e => let n := if decide (0 ≤ e) then Z.pos m * 2 ^ e else Z.pos m / 2 ^ (- e) in if s then - n else n
  | _ => 0
  end.
Definition renewIn (lifetime : Z) : Z := Z.max minRenewalInterval (trunc (fmul (float_of_Z lifetime) renewalThreshold)).
(** The wait of the loop of [Run] after a request: the result is the expiry of the new
    certificate, or an error. *)
Definition run_wait (now : Z) (result : option Z) : Z :=
  match result with None => certRetryDelay | Some expiry => renewIn (expiry - now) end.
(** The times of the requests, when each takes [took] and gives [results]. *)
Fixpoint request_times (now : Z) (results : list (Z * option Z)) : list Z :=
  match results with
  | [] => []
  | (took, result) :: results => now :: request_times (now + took + run_wait (now + took) result) results
  end.

(** ** The writer delivers *)

Lemma tunnelWriteBufSize_pos : (0 < tunnelWriteBufSize)%nat.
Proof. unfold tunnelWriteBufSize. lia. Qed.
#[local] Opaque tunnelWriteBufSize.

Lemma raw_write_spec data w : let '(w', n, ok) := raw_write data w in
  (n ≤ length data)%nat ∧ (ok = true → n = length data) ∧ bw_sent w' = bw_sent w ++ take n data ∧
  bw_buf w' = bw_buf w ∧ bw_err w' = bw_err w ∧ bw_timer w' = bw_timer w ∧ bw_closed w' = bw_closed w ∧
  (Forall (λ a, a = None) (bw_response w) → ok = true ∧ Forall (λ a, a = None) (bw_response w')).
Proof.
  unfold raw_write. destruct (bw_response w) as [|[n|] r]; simpl.
  - by split_and!.
  - split_and!; [lia|done|done|done|done|done|done|]. by intros [? _]%Forall_cons.
  - split_and!; [done..|]. by intros [_ ?]%Forall_cons.
Qed.

(** What a call does to the writer: it passes on [data], all of it unless it fails. *)
Record passes (data : list Z) (w w' : bufferedFlushWriter) (n : nat) (ok : bool) : Prop := {
  pa_data : bw_sent w' ++ bw_buf w' = bw_sent w ++ bw_buf w ++ take n data;
  pa_all : ok = true → n = length data;
  pa_err : ok = negb (bw_err w');
  pa_timer : bw_timer w' = bw_timer w;
  pa_closed : bw_closed w' = bw_closed w;
  pa_size : (length (bw_buf w') ≤ tunnelWriteBufSize)%nat;
  pa_accepts : Forall (λ a, a = None) (bw_response w) → bw_err w = false → ok = true ∧ Forall (λ a, a = None) (bw_response w');
}.

Lemma bufio_Flush_passes w : (length (bw_buf w) ≤ tunnelWriteBufSize)%nat →
  passes [] w (bufio_Flush w).1 0 (bufio_Flush w).2 ∧ ((bufio_Flush w).2 = true → bw_buf (bufio_Flush w).1 = []).
Proof.
  intros Hl. unfold bufio_Flush. destruct (bw_err w) eqn:Ee; [split; [|done]; by split; simpl; rewrite ?app_nil_r, ?Ee|].
  destruct (bw_buf w) as [|b buf] eqn:Eb; [split; [|done]; split; simpl; rewrite ?Eb, ?app_nil_r, ?Ee; auto; simpl; lia|].
  pose proof (raw_write_spec (b :: buf) w) as Hr. destruct (raw_write (b :: buf) w) as [[w' n] ok]. destruct Hr as (R1 & R2 & R3 & R4 & R5 & R6 & R7 & R8).
  cbn [fst snd]. split.
  - split; cbn [bw_sent bw_buf bw_err bw_timer bw_closed bw_response set_bufio].
    + rewrite R3, Eb, take_nil, app_nil_r, <- app_assoc. f_equal. apply take_drop.
    + done.
    + by rewrite negb_involutive.
    + done.
    + done.
    + rewrite length_drop. lia.
    + auto.
  - intros ->. simpl. rewrite R2 by done. apply drop_all.
Qed.

(** The rounds a write needs. *)
Definition rounds (data : list Z) (w : bufferedFlushWriter) : nat :=
  if bw_err w then 0 else if decide (length data ≤ tunnelWriteBufSize - length (bw_buf w))%nat then 0 else match bw_buf w with [] => 1 | _ => 2 end.

Lemma bufio_Write_passes fuel data taken w w' n ok :
  (length (bw_buf w) ≤ tunnelWriteBufSize)%nat → (rounds data w ≤ fuel)%nat → bufio_Write fuel data taken w = (w', n, ok) →
  ∃ k, n = (taken + k)%nat ∧ passes data w w' k ok.
Proof.
  revert data taken w. induction fuel as [|fuel IH]; intros data taken w Hl Hr E; simpl in E; unfold rounds in Hr.
  all: destruct (bw_err w) eqn:Ee;
    [injection E as <- <- <-; exists 0%nat; split; [lia|]; split; simpl; rewrite ?take_0, ?app_nil_r, ?Ee; done|].
  all: destruct (decide (length data ≤ tunnelWriteBufSize - length (bw_buf w))%nat) as [Hd|Hd];
    [injection E as <- <- <-; exists (length data); split; [lia|]; split; simpl; try done; [by rewrite firstn_all|rewrite length_app; lia]|].
  - destruct (bw_buf w); lia.
  - destruct (bw_buf w) as [|b buf] eqn:Eb.
    + pose proof (raw_write_spec data w) as Hw. destruct (raw_write data w) as [[w1 k] ok1]. destruct Hw as (R1 & R2 & R3 & R4 & R5 & R6 & R7 & R8).
      apply IH in E as (k2 & -> & P); [|simpl; lia|].
      2:{ unfold rounds. simpl. destruct ok1; simpl; [|lia]. rewrite R2, drop_all by done. destruct (decide _) as [|Hn]; [lia|]. exfalso. apply Hn. simpl. lia. }
      exists (k + k2)%nat. split; [lia|]. destruct P as [P1 P2 P3 P4 P5 P6 P7]. simpl in *.
      split; [rewrite P1, R3, Eb; simpl; by rewrite <- app_assoc, take_take_drop| |done|congruence|congruence|done|].
      * intros Ho. specialize (P2 Ho). rewrite length_drop in P2. lia.
      * intros Ha _. destruct (R8 Ha) as [-> Ha']. by apply P7.
    + set (avail := (tunnelWriteBufSize - length (b :: buf))%nat) in *. set (w1 := set_bufio (b :: buf ++ take avail data) false w) in E.
      assert (length (bw_buf w1) = tunnelWriteBufSize) as Hw1 by (change (bw_buf w1) with ((b :: buf) ++ take avail data); rewrite length_app, length_take; lia).
      destruct (bufio_Flush_passes w1) as [[F1 F2 F3 F4 F5 F6 F7] F8]; [lia|]. apply IH in E as (k2 & -> & P); [|done|].
      2:{ unfold rounds. rewrite F3 in F8. destruct (bw_err (bufio_Flush w1).1); [apply Nat.le_0_l|]. rewrite F8 by done. destruct (decide _); [apply Nat.le_0_l|lia]. }
      exists (avail + k2)%nat. split; [lia|]. destruct P as [P1 P2 P3 P4 P5 P6 P7].
      assert (avail ≤ length data)%nat by lia.
      split; [|intros Ho; specialize (P2 Ho); rewrite length_drop in P2; lia|done|rewrite P4, F4; done|rewrite P5, F5; done|done|].
      * rewrite P1, app_assoc, F1, take_nil, app_nil_r, Eb. change (bw_sent w1) with (bw_sent w). change (bw_buf w1) with ((b :: buf) ++ take avail data).
        rewrite <- (take_take_drop data avail k2). by rewrite !app_assoc.
      * intros Ha _. destruct (F7 Ha eq_refl) as [Fo Fa]. apply P7; [done|]. rewrite F3 in Fo. by apply negb_true_iff in Fo.
Qed.

(** What holds between two events, after [written] was reported. *)
Record writer_inv (written : list Z) (w : bufferedFlushWriter) : Prop := {
  wi_data : bw_sent w ++ bw_buf w = written;
  wi_timer : bw_err w = false → bw_closed w = false → bw_buf w ≠ [] → bw_timer w = true;
  wi_closed : bw_closed w = true → bw_err w = false → bw_buf w = [];
  wi_size : (length (bw_buf w) ≤ tunnelWriteBufSize)%nat;
}.

Lemma writer_step_inv written w e : writer_inv written w →
  writer_inv (written ++ match e with WriteData data => take (BufferedWrite data w).1.2 data | _ => [] end) (writer_step w e).
Proof.
  intros [I1 I2 I3 I4]. destruct e as [data| |]; simpl.
  - unfold BufferedWrite. destruct (bw_closed w) eqn:Ec; [simpl; rewrite ?take_0, app_nil_r; split; rewrite ?Ec; auto|].
    destruct (bufio_Write 3 data 0 w) as [[w' n] ok] eqn:E. apply bufio_Write_passes in E as (k & -> & [P1 P2 P3 P4 P5 P6 P7]); [|done|unfold rounds; repeat case_match; lia].
    simpl. split; simpl; [by rewrite P1, app_assoc, I1|done|rewrite P5, Ec; done|done].
  - rewrite app_nil_r. destruct (bw_timer w) eqn:Et; [|split; rewrite ?Et; auto]. unfold flush_timer. destruct (bw_closed w) eqn:Ec; [split; simpl; auto; congruence|].
    destruct (bufio_Flush_passes w I4) as [[F1 F2 F3 F4 F5 F6 F7] F8]. rewrite F3 in F8.
    split; simpl; [by rewrite F1, take_nil, app_nil_r| |rewrite F5, Ec; done|done]. intros He _ Hb. rewrite He in F8. by rewrite F8 in Hb.
  - rewrite app_nil_r. unfold writer_Close. destruct (bw_closed w) eqn:Ec; [split; simpl; rewrite ?Ec; auto|].
    destruct (bufio_Flush_passes (set_timer false true w) I4) as [[F1 F2 F3 F4 F5 F6 F7] F8]. rewrite F3 in F8.
    split; simpl; [by rewrite F1, take_nil, app_nil_r|rewrite F5; done| |done]. intros _ He. rewrite He in F8. by apply F8.
Qed.

Lemma writer_run_inv events written w : writer_inv written w → writer_inv (written ++ reported w events) (foldl writer_step w events).
Proof.
  revert written w. induction events as [|e events IH]; intros written w Hi; simpl; [by rewrite app_nil_r|]. rewrite app_assoc. by apply IH, writer_step_inv.
Qed.

(** C27: The tunnel delivers what it takes. In every run of the buffered writer, whatever
    the peer accepts, the bytes sent are those that were reported as written, in
    order and once, up to those in the buffer, which is bounded; bytes in the buffer
    are on their way - the flush timer is running - unless the stream failed; and
    after a close that did not fail everything was sent. *)
Theorem buffered_writer_delivers (r : response) (events : list writer_event) :
  let w := foldl writer_step (newBufferedFlushWriter r) events in
  bw_sent w ++ bw_buf w = reported (newBufferedFlushWriter r) events ∧
  (length (bw_buf w) ≤ tunnelWriteBufSize)%nat ∧
  (bw_err w = false → bw_closed w = false → bw_buf w ≠ [] → bw_timer w = true) ∧
  (bw_err w = false → bw_closed w = true → bw_sent w = reported (newBufferedFlushWriter r) events).
Proof.
  intros w. destruct (writer_run_inv events [] (newBufferedFlushWriter r)) as [I1 I2 I3 I4].
  { split; simpl; try done. lia. }
  fold w in I1, I2, I3, I4. split; [done|]. split; [done|]. split; [done|]. intros He Hc. rewrite (I3 Hc He), app_nil_r in I1. done.
Qed.

(** ** Certificates *)

Section certificates.
Context `{X : X509}.

(** The fuel of the loop over the bundle is enough. *)
Lemma ca_pool_enough fuel rest pool : (String.length rest ≤ fuel)%nat → ca_pool (S fuel) rest pool = ca_pool fuel rest pool.
Proof.
  revert rest pool. induction fuel as [|fuel IH]; intros rest pool Hl.
  { destruct rest; [done|simpl in Hl; lia]. }
  cbn [ca_pool]. destruct (str_empty rest); [done|]. destruct (pem_Decode rest) as [[[type bytes]|] rest'] eqn:E; [|done].
  apply pem_rest in E. cbn [ca_pool] in IH. rewrite !(IH rest') by lia. destruct (negb _); [done|]. destruct (ParseCertificate bytes); [|done]. apply IH. lia.
Qed.

(** The update without the cache. *)
Definition UpdateCertificate_reference (certPEM keyPEM caCertPEM spiffeID : string) (p : TLSProvider) : TLSProvider * option CertErr :=
  match X509KeyPair certPEM keyPEM with
  | None => (p, Some KeyPairErr)
  | Some cert =>
      match ca_pool (String.length caCertPEM) caCertPEM [] with
      | None => (p, Some CAParseErr)
      | Some [] => (p, Some NoValidCA)
      | Some pool => (mkTLSProvider (Some cert) (Some pool) (tp_trustDomain p) spiffeID (tp_fedCfg p) certPEM keyPEM, None)
      end
  end.

(** The cached pair is the one of the texts it was parsed from. *)
Definition cache_ok (p : TLSProvider) : Prop := ∀ c, tp_cert p = Some c → X509KeyPair (tp_lastCertPEM p) (tp_lastKeyPEM p) = Some c.
Lemma current_pair_ok certPEM keyPEM p : cache_ok p → current_pair certPEM keyPEM p = X509KeyPair certPEM keyPEM.
Proof.
  intros Hc. unfold current_pair. destruct (tp_cert p) as [c|] eqn:E; [|done]. unfold str_eqb. destruct (_ && _) eqn:Eb; [|done]. bool_prop. subst. symmetry. by apply Hc.
Qed.
Lemma UpdateCertificate_ok certPEM keyPEM caCertPEM spiffeID p : cache_ok p →
  UpdateCertificate certPEM keyPEM caCertPEM spiffeID p = UpdateCertificate_reference certPEM keyPEM caCertPEM spiffeID p ∧
  cache_ok (UpdateCertificate certPEM keyPEM caCertPEM spiffeID p).1.
Proof.
  intros Hc. unfold UpdateCertificate, UpdateCertificate_reference. rewrite current_pair_ok by done. split; [done|].
  destruct (X509KeyPair certPEM keyPEM) as [c|] eqn:E; [|done]. destruct (ca_pool _ _ _) as [[|x pool]|]; [done| |done]. intros c' [= <-]. exact E.
Qed.

Definition update_all (update : string → string → string → string → TLSProvider → TLSProvider * option CertErr)
    (updates : list (string * string * string * string)) (p : TLSProvider) : TLSProvider * list (option CertErr) :=
  foldl (λ acc u, let '(cert, key, ca, id) := u in let '(p, err) := update cert key ca id acc.1 in (p, acc.2 ++ [err])) (p, []) updates.

(** The cache of the certificate is invisible. Along every history of updates, the
    provider has the same certificate, authorities and identity, and reports the
    same errors, as one that parses the certificate every time; a failed update
    changes nothing. *)
Theorem certificate_cache_is_transparent (trustDomain : string) (fedCfg : option FederationConfig) (updates : list (string * string * string * string)) :
  update_all UpdateCertificate updates (NewTLSProvider trustDomain fedCfg) =
  update_all UpdateCertificate_reference updates (NewTLSProvider trustDomain fedCfg) ∧
  ∀ cert key ca id p err, (UpdateCertificate cert key ca id p).2 = Some err → (UpdateCertificate cert key ca id p).1 = p.
Proof.
  split.
  - assert (∀ acc, cache_ok acc.1 → foldl (λ acc u, let '(cert, key, ca, id) := u in let '(p, err) := UpdateCertificate cert key ca id acc.1 in (p, acc.2 ++ [err])) acc updates =
      foldl (λ acc u, let '(cert, key, ca, id) := u in let '(p, err) := UpdateCertificate_reference cert key ca id acc.1 in (p, acc.2 ++ [err])) acc updates) as Hall.
    { induction updates as [|[[[cert key] ca] id] updates IH]; intros acc Hc; [done|]. simpl. destruct (UpdateCertificate_ok cert key ca id acc.1 Hc) as [<- Hc'].
      destruct (UpdateCertificate cert key ca id acc.1) as [p err]. by apply IH. }
    by apply Hall.
  - intros cert key ca id p err. unfold UpdateCertificate. destruct (current_pair _ _ _); [|done]. by destruct (ca_pool _ _ _) as [[|]|].
Qed.
End certificates.

(** ** Who gets a tunnel *)

Lemma ParseSPIFFEID_id `{UrlParser} s : ParseSPIFFEID s = no_identity ∨ si_SpiffeID (ParseSPIFFEID s) = s.
Proof. unfold ParseSPIFFEID. repeat case_match; auto. Qed.

Section tunnels.
Context `{X : X509} `{U : UrlParser} `{!UrlLaws U} `{Folding}.

(** The agents a provider trusts, by their trust domain and federation. *)
Definition trusts (p : TLSProvider) (trustDomain : string) (fed : option FederationConfig) : Prop :=
  match fed with
  | Some fc =>
      if Federation_IsActive fc then
        ∃ mine, tp_fedCfg p = Some mine ∧ Federation_IsActive mine = true ∧ fc_FederationID fc = fc_FederationID mine ∧ fc_ClusterName fc ∈ fc_AllowedClusters mine
      else trustDomain = tp_trustDomain p
  | None => trustDomain = tp_trustDomain p
  end.

(** Names without characters that are special in URLs. *)
Definition plain_names (trustDomain node : string) (fed : option FederationConfig) : Prop :=
  str_forall unreserved trustDomain = true ∧ trustDomain ≠ ""%string ∧ str_forall unreserved node = true ∧
  match fed with
  | Some fc => str_forall unreserved (fc_FederationID fc) = true ∧ str_forall unreserved (fc_ClusterName fc) = true
  | None => True
  end.

Lemma BuildSPIFFEID_nonempty trustDomain node fed : BuildSPIFFEID trustDomain node fed ≠ ""%string.
Proof using Type. unfold BuildSPIFFEID. destruct fed as [fc|]; [destruct (Federation_IsActive fc)|]; done. Qed.

Lemma existsb_str_eqb l s : existsb (λ c, str_eqb c s) l = true ↔ s ∈ l.
Proof using Type.
  rewrite existsb_exists. unfold str_eqb. setoid_rewrite bool_decide_eq_true. setoid_rewrite <- list_elem_of_In. split; [by intros (x & ? & <-)|eauto].
Qed.

Lemma ValidatePeerSPIFFEID_decides p trustDomain node fed : plain_names trustDomain node fed →
  ValidatePeerSPIFFEID (BuildSPIFFEID trustDomain node fed) p = true ↔ trusts p trustDomain fed.
Proof.
  intros (Htd & Hne & Hnode & Hfed). destruct (agent_identity_roundtrip trustDomain node fed Htd Hne Hnode Hfed) as (_ & _ & _ & Hid).
  unfold ValidatePeerSPIFFEID. set (s := BuildSPIFFEID trustDomain node fed) in *.
  assert (str_empty s = false) as -> by (apply bool_decide_eq_false_2, BuildSPIFFEID_nonempty).
  assert (ParseSPIFFEID s ≠ no_identity) as Hsome.
  { intros E. rewrite E in Hid. destruct fed as [fc|]; [destruct (Federation_IsActive fc)|]; simpl in Hid; [by destruct Hid as (_ & _ & ? & _)|by destruct Hid as [<- _]..]. }
  destruct (ParseSPIFFEID_id s) as [?|Es]; [done|]. rewrite Es.
  assert (str_empty s = false) as -> by (apply bool_decide_eq_false_2, BuildSPIFFEID_nonempty).
  assert (∀ (si : SourceIdentity) b, si_TrustDomain si = trustDomain ∧ IsFederated si = false →
    (if IsFederated si then b else str_eqb (si_TrustDomain si) (tp_trustDomain p)) = true ↔ trustDomain = tp_trustDomain p) as Hlocal.
  { intros si b [-> ->]. apply bool_decide_eq_true. }
  unfold trusts. destruct fed as [fc|]; [|by apply Hlocal]. destruct (Federation_IsActive fc) eqn:Ea; [|by apply Hlocal].
  destruct Hid as (H1 & H2 & H3 & _). rewrite H3. destruct (tp_fedCfg p) as [mine|]; [|naive_solver].
  destruct (Federation_IsActive mine) eqn:Em; simpl; [|naive_solver]. unfold IsClusterAllowed. rewrite Em. simpl.
  rewrite andb_true_iff, H1, H2, existsb_str_eqb. unfold str_eqb. rewrite bool_decide_eq_true. naive_solver.
Qed.

(** C26: A tunnel is for trusted and authorized agents. A request with the identity of
    an agent is answered with a tunnel exactly when it is a CONNECT request, the
    agent is trusted - it belongs to the trust domain or, with federation, to an
    allowed cluster of the same federation -, the policies allow it and the
    backend can be reached; the tunnel leads to the backend of the request. An
    agent that is not trusted gets none, whatever the policies say. *)
Theorem tunnel_admits_exactly (p : TLSProvider) (a : Authorizer) (dial : string → bool) (r : connect_request) (trustDomain node : string) (fed : option FederationConfig)
    (Hnames : plain_names trustDomain node fed) (Hpeer : PeerSPIFFEID (cr_TLS r) = BuildSPIFFEID trustDomain node fed) :
  let answer := (handleConnect (Some p) (Some a) dial r).2 in
  (∀ backend, answer = Tunnel backend ↔
     cr_Method r = "CONNECT"%string ∧ trusts p trustDomain fed ∧
     (Authorize (ParseSPIFFEID (BuildSPIFFEID trustDomain node fed)) (cr_DestService r) "CONNECT" (cr_Path r) a).2 = true ∧ dial (cr_Host r) = true ∧ backend = cr_Host r) ∧
  (cr_Method r = "CONNECT"%string → ¬ trusts p trustDomain fed → answer = InvalidPeerIdentity).
Proof.
  intros answer. subst answer. unfold handleConnect. rewrite Hpeer. pose proof (ValidatePeerSPIFFEID_decides p trustDomain node fed Hnames) as Hv.
  assert (str_empty (BuildSPIFFEID trustDomain node fed) = false) as -> by (apply bool_decide_eq_false_2, BuildSPIFFEID_nonempty).
  unfold str_eqb. case_bool_decide as Hm; simpl; [|split; [|done]; naive_solver]. rewrite Hm.
  destruct (ValidatePeerSPIFFEID _ p); simpl.
  - destruct (Authorize _ _ _ _ a) as [a' ok]. simpl. destruct ok; simpl; [|split; naive_solver]. destruct (dial (cr_Host r)); simpl; split; naive_solver.
  - split; [|done]. intros backend. split; [done|]. intros (_ & Ht & _). by apply Hv in Ht.
Qed.
End tunnels.

(** ** Streams *)

(** A stream is closed at most once, on both sides, and stays closed, whatever happens
    to its deadlines. *)
Inductive stream_event := SetDeadline (d : deadline) (t : option Z) (now : Z) | DeadlinePasses | CloseStream.
Definition stream_step (c : streamConn) (e : stream_event) : streamConn :=
  match e with
  | SetDeadline d t now => setTimerLocked d t now c
  | DeadlinePasses => deadline_passes c
  | CloseStream => stream_Close c
  end.
Definition stream_inv (c : streamConn) : Prop :=
  sc_reader_closes c = (if sc_closed c then 1 else 0)%nat ∧ sc_writer_closes c = (if sc_closed c then 1 else 0)%nat.
Lemma stream_step_inv c e : stream_inv c → stream_inv (stream_step c e) ∧ (sc_closed c = true → sc_closed (stream_step c e) = true).
Proof.
  unfold stream_inv. intros [H1 H2]. destruct e as [d t now| |]; simpl; unfold setTimerLocked, deadline_passes, stream_Close, closeLocked; simpl.
  1: destruct t as [t|]; [case_decide|].
  all: unfold closeLocked, stopTimerLocked; simpl; destruct (sc_closed c) eqn:Ec; simpl; rewrite ?H1, ?H2, ?Ec; repeat split; done.
Qed.
Lemma stream_closes_once events : stream_inv (foldl stream_step new_stream events).
Proof.
  assert (∀ c, stream_inv c → stream_inv (foldl stream_step c events)) as Hall; [|by apply Hall].
  induction events as [|e events IH]; intros c Hc; [done|]. apply IH, stream_step_inv, Hc.
Qed.

(** ** Renewals *)

(** Requests are at least five seconds apart, whatever the controller answers. *)
Lemma run_wait_bounds now result : certRetryDelay ≤ run_wait now result ∧ ∀ expiry, result = Some expiry → minRenewalInterval ≤ run_wait now result.
Proof. unfold run_wait, renewIn, certRetryDelay, minRenewalInterval, second. destruct result; split; try done; lia. Qed.

(** ** Examples *)

(** A bundle is one block. *)
Definition whole_block : X509.
Proof.
  refine {| Certificate := string; KeyPair := string; pem_Decode s := match s with EmptyString => (None, s) | _ => (Some ("CERTIFICATE"%string, s), ""%string) end;
            ParseCertificate := Some; X509KeyPair cert key := Some cert |}.
  intros [|c s] block rest [= <- <-]. simpl. lia.
Defined.
#[local] Instance plain_folding : Folding := {| EqualFold := str_eqb |}.
#[local] Existing Instance plain_url_parser.

Definition rome : TLSProvider (X := whole_block) := NewTLSProvider "cluster.local" (Some (mkFederationConfig "fed.example" "rome" ["paris"%string])).
Definition request_of (id : string) (service : string) (host : string) : connect_request :=
  mkConnectRequest "CONNECT" host (Some [[("spiffe", id)]]%string) service "".
Definition paris : FederationConfig := mkFederationConfig "fed.example" "paris" [].

Lemma tunnel_admits_exactly_witness :
  (handleConnect (Some rome) (Some NewAuthorizer) (λ _, true) (request_of (BuildSPIFFEID "cluster.local" "node-1" (Some paris)) "api.shop" "10.1.0.1:8080")).2 =
  Tunnel "10.1.0.1:8080".
Proof.
  pose proof plain_url_laws as Hlaws.
  apply (tunnel_admits_exactly (X := whole_block) rome NewAuthorizer (λ _, true) (request_of (BuildSPIFFEID "cluster.local" "node-1" (Some paris)) "api.shop" "10.1.0.1:8080")
    "cluster.local" "node-1" (Some paris)).
  - split; [reflexivity|]. split; [discriminate|]. split; [reflexivity|]. split; reflexivity.
  - reflexivity.
  - split; [reflexivity|]. split; [|split; [vm_compute; reflexivity|split; reflexivity]].
    exists (mkFederationConfig "fed.example" "rome" ["paris"%string]). split; [reflexivity|]. split; [reflexivity|]. split; [reflexivity|]. left.
Defined.

(** A certificate without a SPIFFE identity passes the check of the identity, which
    [ValidatePeerSPIFFEID] would refuse. *)
Example anonymous_peer_is_admitted :
  ValidatePeerSPIFFEID (X := whole_block) "" rome = false ∧
  (handleConnect (Some rome) (Some NewAuthorizer) (λ _, true) (mkConnectRequest "CONNECT" "10.1.0.1:8080" (Some [[]]) "api.shop" "")).2 = Tunnel "10.1.0.1:8080".
Proof. split; vm_compute; reflexivity. Qed.

(** The policies are looked up by a header of the client, and the tunnel leads to
    another field of the request: a client that names a service without policies
    reaches the backend of any other. *)
Definition protected : Authorizer := UpdatePolicies [mkPolicy "deny" "DENY" "db" "shop" [mkRule [] []]] NewAuthorizer.
Example header_decides_policy :
  let id := BuildSPIFFEID "cluster.local" "node-1" (Some paris) in
  (handleConnect (Some rome) (Some protected) (λ _, true) (request_of id "db.shop" "10.1.0.7:5432")).2 = DeniedByPolicy ∧
  (handleConnect (Some rome) (Some protected) (λ _, true) (request_of id "other.shop" "10.1.0.7:5432")).2 = Tunnel "10.1.0.7:5432".
Proof. split; vm_compute; reflexivity. Qed.

(** The configuration for dialling is made before the first certificate arrives: it
    uses the roots of the system for ever, not the authority of the mesh. *)
Example dialler_ignores_mesh_authority :
  let start := NewTLSProvider (X := whole_block) "cluster.local" None in
  let dialler := ClientTLSConfig start in
  let p := (UpdateCertificate "CERT" "KEY" "CA" "spiffe://cluster.local/agent/node-1" start).1 in
  ServerTLSConfig p = (Some "CERT", Some ["CA"])%string ∧ client_handshake dialler p = (Some "CERT"%string, None).
Proof. split; vm_compute; reflexivity. Qed.

(** The pool stays empty, whatever is dialled. *)
Lemma pool_is_never_used valid send nodeAddr backendAddr sourceID destService tp :
  (DialVia valid send nodeAddr backendAddr sourceID destService tp).1 = tp.
Proof. unfold DialVia. by repeat case_match. Qed.

(** A deadline in the past closes the stream, for reading and writing. *)
Example past_deadline_closes : sc_closed (setTimerLocked ReadDeadline (Some 5) 10 new_stream) = true.
Proof. reflexivity. Qed.
(** A deadline that is extended after it has passed does not open the stream again. *)
Example deadline_cannot_be_extended : sc_closed (setTimerLocked ReadDeadline (Some 30) 20 (deadline_passes (setTimerLocked ReadDeadline (Some 10) 0 new_stream))) = true.
Proof. reflexivity. Qed.

(** The certificate of a day is renewed after 80% of it; one of 20 seconds has expired
    when it is renewed. *)
Example renewal_times : renewIn (86400 * second) = 69120 * second ∧ 20 * second < renewIn (20 * second).
Proof. split; vm_compute; reflexivity. Qed.
