(* ===== verification/ClusterTemplates.v ===== *)
(** * The objects of a NovaEdge cluster
    (src/api/v1alpha1/novaedgecluster_types.go and the templates of
    src/internal/operator/controller/novaedgecluster_controller.go)

    The operator writes service accounts, roles, services, Deployments and a
    DaemonSet from the specification of a [NovaEdgeCluster]. This file has the
    specification, the objects, the functions that build one from the other, and
    the command lines of the programs the containers run. The operator itself is
    in [ClusterOperator]. Values of the Kubernetes API that the operator copies
    without reading them (tolerations, resource requirements, volumes) are texts. *)

From S2P Require Import Prelude GoStrings.
Open Scope Z_scope.
Open Scope go_scope.

(** ** The specification *)

Record SecurityContext := mkSecurityContext {
  sc_Privileged : option bool;
  sc_AddCapabilities : list string;
  sc_Other : list string;
}.

Record ServiceAccountSpec := mkServiceAccountSpec {
  sas_Create : option bool;
  sas_Name : string;
  sas_Annotations : gmap string string;
}.

Record ControllerSpec := mkControllerSpec {
  cs_Replicas : option Z;
  cs_Resources : string;
  cs_NodeSelector : gmap string string;
  cs_Tolerations : list string;
  cs_Affinity : option string;
  cs_LeaderElection : option bool;
  cs_GRPCPort : option Z;
  cs_MetricsPort : option Z;
  cs_HealthPort : option Z;
  cs_ServiceAccount : option ServiceAccountSpec;
  cs_PodSecurityContext : option string;
  cs_SecurityContext : option SecurityContext;
  cs_ExtraArgs : list string;
  cs_ExtraEnv : list string;
}.

Record AgentUpdateStrategy := mkAgentUpdateStrategy {
  au_Type : string;
  au_MaxUnavailable : option Z;
}.

Record AgentSpec := mkAgentSpec {
  as_Resources : string;
  as_NodeSelector : gmap string string;
  as_Tolerations : list string;
  as_HostNetwork : option bool;
  as_DNSPolicy : string;
  as_HTTPPort : option Z;
  as_HTTPSPort : option Z;
  as_MetricsPort : option Z;
  as_HealthPort : option Z;
  as_ServiceAccount : option ServiceAccountSpec;
  as_PodSecurityContext : option string;
  as_SecurityContext : option SecurityContext;
  as_ExtraArgs : list string;
  as_ExtraEnv : list string;
  as_ExtraVolumes : list string;
  as_ExtraVolumeMounts : list string;
  as_UpdateStrategy : option AgentUpdateStrategy;
  as_Controllers : option string;
}.

Record WebUIServiceSpec := mkWebUIServiceSpec {
  ws_Type : string;
  ws_NodePort : option Z;
  ws_Annotations : gmap string string;
}.

Record WebUITLSSpec := mkWebUITLSSpec {
  wt_Enabled : option bool;
  wt_Auto : option bool;
  wt_CertSecretRef : option string;
  wt_KeySecretRef : option string;
}.

Record WebUISpec := mkWebUISpec {
  wu_Enabled : option bool;
  wu_Replicas : option Z;
  wu_Resources : string;
  wu_NodeSelector : gmap string string;
  wu_Tolerations : list string;
  wu_Port : option Z;
  wu_ReadOnly : option bool;
  wu_Service : option WebUIServiceSpec;
  wu_Ingress : option string;
  wu_TLS : option WebUITLSSpec;
  wu_PrometheusEndpoint : string;
  wu_ServiceAccount : option ServiceAccountSpec;
  wu_ExtraArgs : list string;
  wu_ExtraEnv : list string;
}.

Record NovaEdgeClusterSpec := mkClusterSpec {
  ns_Version : string;
  ns_ImageRepository : string;
  ns_ImagePullPolicy : string;
  ns_ImagePullSecrets : list string;
  ns_Controller : ControllerSpec;
  ns_Agent : AgentSpec;
  ns_WebUI : option WebUISpec;
  ns_TLS : option string;
  ns_Observability : option string;
}.

(** ** Objects of the Kubernetes API *)

(** Metadata; the identity of the owning cluster, and identity and version, which
    the API server sets. *)
Record KMeta := mkKMeta {
  km_Name : string;
  km_Namespace : string;
  km_Labels : gmap string string;
  km_Annotations : gmap string string;
  km_Owner : option Z;
  km_UID : option Z;
  km_ResourceVersion : option Z;
}.

Record PolicyRule := mkPolicyRule { pr_APIGroups : list string; pr_Resources : list string; pr_Verbs : list string }.
Record RoleRef := mkRoleRef { rr_APIGroup : string; rr_Kind : string; rr_Name : string }.
Record Subject := mkSubject { sj_Kind : string; sj_Name : string; sj_Namespace : string }.

Record ServicePort := mkServicePort {
  sp_Name : string; sp_Port : Z; sp_TargetPort : Z; sp_Protocol : string; sp_NodePort : Z;
}.
Record ServiceSpec := mkServiceSpec { sv_Selector : gmap string string; sv_Type : string; sv_Ports : list ServicePort }.

Record ContainerPort := mkContainerPort {
  cp_Name : string; cp_ContainerPort : Z; cp_HostPort : Z; cp_Protocol : string;
}.
(** A probe by HTTP: an empty scheme is plain HTTP. *)
Record Probe := mkProbe {
  pb_Path : string; pb_Port : Z; pb_Scheme : string; pb_InitialDelaySeconds : Z; pb_PeriodSeconds : Z;
}.
Record Container := mkContainer {
  ct_Name : string;
  ct_Image : string;
  ct_ImagePullPolicy : string;
  ct_Args : list string;
  ct_Ports : list ContainerPort;
  ct_Resources : string;
  ct_Env : list string;
  ct_VolumeMounts : list string;
  ct_LivenessProbe : Probe;
  ct_ReadinessProbe : Probe;
  ct_SecurityContext : option SecurityContext;
}.
Record PodSpec := mkPodSpec {
  ps_ServiceAccountName : string;
  ps_HostNetwork : bool;
  ps_DNSPolicy : string;
  ps_NodeSelector : gmap string string;
  ps_Tolerations : list string;
  ps_Affinity : option string;
  ps_ImagePullSecrets : list string;
  ps_Volumes : list string;
  ps_Container : Container;
  ps_SecurityContext : option string;
}.
Record PodTemplate := mkPodTemplate { pt_Labels : gmap string string; pt_Spec : PodSpec }.
Record DeploymentSpec := mkDeploymentSpec { dp_Replicas : option Z; dp_Selector : gmap string string; dp_Template : PodTemplate }.
(** The zero value of an update strategy has an empty type. *)
Record DaemonSetUpdateStrategy := mkUpdateStrategy { us_Type : string; us_MaxUnavailable : option Z }.
Record DaemonSetSpec := mkDaemonSetSpec {
  ds_Selector : gmap string string; ds_Template : PodTemplate; ds_UpdateStrategy : DaemonSetUpdateStrategy;
}.

Inductive kbody :=
  | ServiceAccount
  | ClusterRole (rules : list PolicyRule)
  | ClusterRoleBinding (ref : RoleRef) (subjects : list Subject)
  | Service (spec : ServiceSpec)
  | Deployment (spec : DeploymentSpec)
  | DaemonSet (spec : DaemonSetSpec).

Record kobject := mkKobject { ko_Meta : KMeta; ko_Body : kbody }.

Definition kind_of (b : kbody) : string :=
  match b with
  | ServiceAccount => "ServiceAccount"
  | ClusterRole _ => "ClusterRole"
  | ClusterRoleBinding _ _ => "ClusterRoleBinding"
  | Service _ => "Service"
  | Deployment _ => "Deployment"
  | DaemonSet _ => "DaemonSet"
  end.

(** An object is stored under its kind, namespace and name. *)
Notation kkey := (string * (string * string))%type.
Definition kobj_key (o : kobject) : kkey := (kind_of (ko_Body o), (km_Namespace (ko_Meta o), km_Name (ko_Meta o))).

(** ** The resource *)

Inductive ClusterPhase :=
  | ClusterPhaseUnset | ClusterPhasePending | ClusterPhaseInitializing | ClusterPhaseRunning
  | ClusterPhaseUpgrading | ClusterPhaseDegraded | ClusterPhaseFailed.
#[global] Instance ClusterPhase_eq_dec : EqDecision ClusterPhase.
Proof. solve_decision. Defined.

Record ComponentStatus := mkComponentStatus {
  co_Ready : bool;
  co_Replicas : Z;
  co_ReadyReplicas : Z;
  co_UpdatedReplicas : Z;
  co_Version : string;
}.

Record Condition := mkCondition {
  cd_Type : string;
  cd_Status : bool;
  cd_ObservedGeneration : Z;
  cd_Reason : string;
  cd_Message : string;
  cd_LastTransitionTime : Z;
}.

Record NovaEdgeClusterStatus := mkClusterStatus {
  st_Phase : ClusterPhase;
  st_ObservedGeneration : Z;
  st_Conditions : list Condition;
  st_Controller : option ComponentStatus;
  st_Agent : option ComponentStatus;
  st_WebUI : option ComponentStatus;
  st_Version : string;
}.
Definition ClusterStatus_eta (s : NovaEdgeClusterStatus) : NovaEdgeClusterStatus :=
  mkClusterStatus (st_Phase s) (st_ObservedGeneration s) (st_Conditions s) (st_Controller s) (st_Agent s) (st_WebUI s) (st_Version s).
Definition set_st_Phase : ClusterPhase → NovaEdgeClusterStatus → NovaEdgeClusterStatus := ltac:(field_setter ClusterStatus_eta st_Phase).
Definition set_st_ObservedGeneration : Z → NovaEdgeClusterStatus → NovaEdgeClusterStatus := ltac:(field_setter ClusterStatus_eta st_ObservedGeneration).
Definition set_st_Conditions : list Condition → NovaEdgeClusterStatus → NovaEdgeClusterStatus := ltac:(field_setter ClusterStatus_eta st_Conditions).
Definition set_st_Controller : option ComponentStatus → NovaEdgeClusterStatus → NovaEdgeClusterStatus := ltac:(field_setter ClusterStatus_eta st_Controller).
Definition set_st_Agent : option ComponentStatus → NovaEdgeClusterStatus → NovaEdgeClusterStatus := ltac:(field_setter ClusterStatus_eta st_Agent).
Definition set_st_WebUI : option ComponentStatus → NovaEdgeClusterStatus → NovaEdgeClusterStatus := ltac:(field_setter ClusterStatus_eta st_WebUI).
Definition set_st_Version : string → NovaEdgeClusterStatus → NovaEdgeClusterStatus := ltac:(field_setter ClusterStatus_eta st_Version).

Record NovaEdgeCluster := mkNovaEdgeCluster {
  nc_Namespace : string;
  nc_Name : string;
  nc_UID : Z;
  nc_Generation : Z;
  nc_Deleting : bool;
  nc_Finalizers : list string;
  nc_Spec : NovaEdgeClusterSpec;
  nc_Status : NovaEdgeClusterStatus;
}.
Definition NovaEdgeCluster_eta (c : NovaEdgeCluster) : NovaEdgeCluster :=
  mkNovaEdgeCluster (nc_Namespace c) (nc_Name c) (nc_UID c) (nc_Generation c) (nc_Deleting c) (nc_Finalizers c) (nc_Spec c) (nc_Status c).
Definition set_nc_Finalizers : list string → NovaEdgeCluster → NovaEdgeCluster := ltac:(field_setter NovaEdgeCluster_eta nc_Finalizers).
Definition set_nc_Status : NovaEdgeClusterStatus → NovaEdgeCluster → NovaEdgeCluster := ltac:(field_setter NovaEdgeCluster_eta nc_Status).

(** [NovaEdgeClusterReconciler]: the images given on the operator's command line. *)
Record NovaEdgeClusterReconciler := mkReconciler {
  r_ControllerImage : string;
  r_AgentImage : string;
  r_NovactlImage : string;
}.

(** ** Names, labels and images *)

Section templates.
Context (r : NovaEdgeClusterReconciler) (cluster : NovaEdgeCluster).
#[local] Notation spec := (nc_Spec cluster).
#[local] Notation controller := (ns_Controller spec).
#[local] Notation agent := (ns_Agent spec).

Definition getLabels (component : string) : gmap string string :=
  {[ "app.kubernetes.io/name" := "novaedge";
     "app.kubernetes.io/instance" := nc_Name cluster;
     "app.kubernetes.io/component" := component;
     "app.kubernetes.io/version" := ns_Version spec;
     "app.kubernetes.io/managed-by" := "novaedge-operator" ]}.

Definition getSelectorLabels (component : string) : gmap string string :=
  {[ "app.kubernetes.io/name" := "novaedge";
     "app.kubernetes.io/instance" := nc_Name cluster;
     "app.kubernetes.io/component" := component ]}.

Definition getImage (component : string) : string :=
  let override :=
    if str_eqb component "novaedge-controller" then r_ControllerImage r
    else if str_eqb component "novaedge-agent" then r_AgentImage r
    else if str_eqb component "novactl" then r_NovactlImage r
    else "" in
  if str_empty override then
    let repo := if str_empty (ns_ImageRepository spec) then "ghcr.io/azrtydxb/novaedge" else ns_ImageRepository spec in
    repo +:+ "/" +:+ component +:+ ":" +:+ ns_Version spec
  else override.

Definition accountName (account : option ServiceAccountSpec) (component : string) : string :=
  match account with
  | Some a => if str_empty (sas_Name a) then nc_Name cluster +:+ "-" +:+ component else sas_Name a
  | None => nc_Name cluster +:+ "-" +:+ component
  end.
Definition getControllerServiceAccountName : string := accountName (cs_ServiceAccount controller) "controller".
Definition getAgentServiceAccountName : string := accountName (as_ServiceAccount agent) "agent".

(** Metadata of an object of the cluster's namespace, before it has an owner, and
    of an object without a namespace. *)
Definition namespaced (name component : string) : KMeta :=
  mkKMeta name (nc_Namespace cluster) (getLabels component) ∅ None None None.
Definition cluster_scoped (component : string) : KMeta :=
  mkKMeta (nc_Namespace cluster +:+ "-" +:+ nc_Name cluster +:+ "-" +:+ component) "" (getLabels component) ∅ None None None.

Definition isWebUIEnabled : bool :=
  match ns_WebUI spec with Some w => default true (wu_Enabled w) | None => false end.

(** ** Accounts and roles *)

Definition controllerServiceAccount : kobject := mkKobject (namespaced getControllerServiceAccountName "controller") ServiceAccount.
Definition agentServiceAccount : kobject := mkKobject (namespaced getAgentServiceAccountName "agent") ServiceAccount.

Definition controllerRules : list PolicyRule :=
  [ mkPolicyRule ["novaedge.io"] ["*"] ["*"];
    mkPolicyRule ["networking.k8s.io"] ["ingresses"; "ingressclasses"] ["get"; "list"; "watch"];
    mkPolicyRule ["gateway.networking.k8s.io"] ["*"] ["get"; "list"; "watch"; "update"; "patch"];
    mkPolicyRule [""] ["services"; "endpoints"; "pods"; "nodes"; "secrets"; "configmaps"] ["get"; "list"; "watch"];
    mkPolicyRule ["discovery.k8s.io"] ["endpointslices"] ["get"; "list"; "watch"];
    mkPolicyRule ["coordination.k8s.io"] ["leases"] ["get"; "list"; "watch"; "create"; "update"; "patch"; "delete"];
    mkPolicyRule [""] ["events"] ["create"; "patch"] ].
Definition controllerClusterRole : kobject := mkKobject (cluster_scoped "controller") (ClusterRole controllerRules).

Definition agentRules : list PolicyRule :=
  [ mkPolicyRule [""] ["nodes"] ["get"; "list"; "watch"];
    mkPolicyRule [""] ["events"] ["create"; "patch"] ].
Definition agentClusterRole : kobject := mkKobject (cluster_scoped "agent") (ClusterRole agentRules).

Definition binding (component account : string) : kobject :=
  mkKobject (cluster_scoped component)
    (ClusterRoleBinding
      (mkRoleRef "rbac.authorization.k8s.io" "ClusterRole" (nc_Namespace cluster +:+ "-" +:+ nc_Name cluster +:+ "-" +:+ component))
      [mkSubject "ServiceAccount" account (nc_Namespace cluster)]).
Definition controllerClusterRoleBinding : kobject := binding "controller" getControllerServiceAccountName.
Definition agentClusterRoleBinding : kobject := binding "agent" getAgentServiceAccountName.

(** ** The controller *)

Definition controllerGRPCPort : Z := default 9090 (cs_GRPCPort controller).
Definition controllerMetricsPort : Z := default 8080 (cs_MetricsPort controller).
Definition controllerHealthPort : Z := default 8081 (cs_HealthPort controller).

Definition controllerService : kobject :=
  mkKobject (namespaced (nc_Name cluster +:+ "-controller") "controller")
    (Service (mkServiceSpec (getSelectorLabels "controller") ""
      [ mkServicePort "grpc" controllerGRPCPort controllerGRPCPort "TCP" 0;
        mkServicePort "metrics" controllerMetricsPort controllerMetricsPort "TCP" 0 ])).

Definition controllerArgs : list string :=
  [ "--grpc-bind-address=:" +:+ format_d controllerGRPCPort;
    "--metrics-bind-address=:" +:+ format_d controllerMetricsPort;
    "--health-probe-bind-address=:" +:+ format_d controllerHealthPort ]
  ++ (if default true (cs_LeaderElection controller) then ["--leader-elect=true"] else [])
  ++ cs_ExtraArgs controller.

Definition controllerContainer : Container := {|
  ct_Name := "controller";
  ct_Image := getImage "novaedge-controller";
  ct_ImagePullPolicy := ns_ImagePullPolicy spec;
  ct_Args := controllerArgs;
  ct_Ports := [ mkContainerPort "grpc" controllerGRPCPort 0 "TCP";
                mkContainerPort "metrics" controllerMetricsPort 0 "TCP";
                mkContainerPort "health" controllerHealthPort 0 "TCP" ];
  ct_Resources := cs_Resources controller;
  ct_Env := cs_ExtraEnv controller;
  ct_VolumeMounts := [];
  ct_LivenessProbe := mkProbe "/healthz" controllerHealthPort "" 15 20;
  ct_ReadinessProbe := mkProbe "/readyz" controllerHealthPort "" 5 10;
  ct_SecurityContext := cs_SecurityContext controller;
|}.

Definition controllerPod : PodSpec := {|
  ps_ServiceAccountName := getControllerServiceAccountName;
  ps_HostNetwork := false;
  ps_DNSPolicy := "";
  ps_NodeSelector := cs_NodeSelector controller;
  ps_Tolerations := cs_Tolerations controller;
  ps_Affinity := cs_Affinity controller;
  ps_ImagePullSecrets := ns_ImagePullSecrets spec;
  ps_Volumes := [];
  ps_Container := controllerContainer;
  ps_SecurityContext := cs_PodSecurityContext controller;
|}.

Definition controllerDeployment : kobject :=
  mkKobject (namespaced (nc_Name cluster +:+ "-controller") "controller")
    (Deployment (mkDeploymentSpec (Some (default 1 (cs_Replicas controller))) (getSelectorLabels "controller")
      (mkPodTemplate (getLabels "controller") controllerPod))).

(** ** The agents *)

Definition agentHTTPPort : Z := default 80 (as_HTTPPort agent).
Definition agentHTTPSPort : Z := default 443 (as_HTTPSPort agent).
Definition agentMetricsPort : Z := default 9090 (as_MetricsPort agent).
Definition agentHealthPort : Z := default 8080 (as_HealthPort agent).

Definition agentArgs : list string :=
  [ "--controller-address=" +:+ nc_Name cluster +:+ "-controller." +:+ nc_Namespace cluster
      +:+ ".svc.cluster.local:" +:+ format_d controllerGRPCPort;
    "--http-port=" +:+ format_d agentHTTPPort;
    "--https-port=" +:+ format_d agentHTTPSPort;
    "--metrics-port=" +:+ format_d agentMetricsPort;
    "--health-port=" +:+ format_d agentHealthPort ]
  ++ as_ExtraArgs agent.

Definition agentSecurityContext : SecurityContext :=
  default (mkSecurityContext (Some true) ["NET_ADMIN"; "NET_RAW"; "NET_BIND_SERVICE"] []) (as_SecurityContext agent).

Definition agentContainer : Container := {|
  ct_Name := "agent";
  ct_Image := getImage "novaedge-agent";
  ct_ImagePullPolicy := ns_ImagePullPolicy spec;
  ct_Args := agentArgs;
  ct_Ports := [ mkContainerPort "http" agentHTTPPort agentHTTPPort "TCP";
                mkContainerPort "https" agentHTTPSPort agentHTTPSPort "TCP";
                mkContainerPort "metrics" agentMetricsPort 0 "TCP" ];
  ct_Resources := as_Resources agent;
  ct_Env := as_ExtraEnv agent;
  ct_VolumeMounts := as_ExtraVolumeMounts agent;
  ct_LivenessProbe := mkProbe "/healthz" agentHealthPort "" 15 20;
  ct_ReadinessProbe := mkProbe "/readyz" agentHealthPort "" 5 10;
  ct_SecurityContext := Some agentSecurityContext;
|}.

Definition agentPod : PodSpec := {|
  ps_ServiceAccountName := getAgentServiceAccountName;
  ps_HostNetwork := default true (as_HostNetwork agent);
  ps_DNSPolicy := if str_empty (as_DNSPolicy agent) then "ClusterFirstWithHostNet" else as_DNSPolicy agent;
  ps_NodeSelector := as_NodeSelector agent;
  ps_Tolerations := as_Tolerations agent;
  ps_Affinity := None;
  ps_ImagePullSecrets := ns_ImagePullSecrets spec;
  ps_Volumes := as_ExtraVolumes agent;
  ps_Container := agentContainer;
  ps_SecurityContext := as_PodSecurityContext agent;
|}.

Definition agentUpdateStrategy : DaemonSetUpdateStrategy :=
  match as_UpdateStrategy agent with
  | None => mkUpdateStrategy "" None
  | Some u => if str_eqb (au_Type u) "OnDelete" then mkUpdateStrategy "OnDelete" None
              else mkUpdateStrategy "RollingUpdate" (Some (default 1 (au_MaxUnavailable u)))
  end.

Definition agentDaemonSet : kobject :=
  mkKobject (namespaced (nc_Name cluster +:+ "-agent") "agent")
    (DaemonSet (mkDaemonSetSpec (getSelectorLabels "agent") (mkPodTemplate (getLabels "agent") agentPod) agentUpdateStrategy)).

(** ** The web console *)

Section webui.
Context (webui : WebUISpec).

Definition webuiPort : Z := default 9080 (wu_Port webui).

Definition webuiService : kobject :=
  let annotations := match wu_Service webui with Some s => ws_Annotations s | None => ∅ end in
  let nodePort := match wu_Service webui with Some s => default 0 (ws_NodePort s) | None => 0 end in
  let serviceType := match wu_Service webui with
                     | Some s => if str_empty (ws_Type s) then "ClusterIP" else ws_Type s
                     | None => "ClusterIP" end in
  mkKobject (mkKMeta (nc_Name cluster +:+ "-webui") (nc_Namespace cluster) (getLabels "webui") annotations None None None)
    (Service (mkServiceSpec (getSelectorLabels "webui") serviceType [mkServicePort "http" webuiPort webuiPort "TCP" nodePort])).

Definition webuiArgs : list string :=
  [ "web"; "--address=:" +:+ format_d webuiPort; "--mode=kubernetes" ]
  ++ (if default false (wu_ReadOnly webui) then ["--read-only"] else [])
  ++ (if str_empty (wu_PrometheusEndpoint webui) then [] else ["--prometheus-endpoint=" +:+ wu_PrometheusEndpoint webui])
  ++ (match wu_TLS webui with Some t => if default false (wt_Auto t) then ["--tls-auto"] else [] | None => [] end)
  ++ wu_ExtraArgs webui.

Definition webuiContainer : Container := {|
  ct_Name := "webui";
  ct_Image := getImage "novactl";
  ct_ImagePullPolicy := ns_ImagePullPolicy spec;
  ct_Args := webuiArgs;
  ct_Ports := [ mkContainerPort "http" webuiPort 0 "TCP" ];
  ct_Resources := wu_Resources webui;
  ct_Env := wu_ExtraEnv webui;
  ct_VolumeMounts := [];
  ct_LivenessProbe := mkProbe "/" webuiPort "" 10 30;
  ct_ReadinessProbe := mkProbe "/" webuiPort "" 5 10;
  ct_SecurityContext := None;
|}.

Definition webuiPod : PodSpec := {|
  ps_ServiceAccountName := getControllerServiceAccountName;
  ps_HostNetwork := false;
  ps_DNSPolicy := "";
  ps_NodeSelector := wu_NodeSelector webui;
  ps_Tolerations := wu_Tolerations webui;
  ps_Affinity := None;
  ps_ImagePullSecrets := ns_ImagePullSecrets spec;
  ps_Volumes := [];
  ps_Container := webuiContainer;
  ps_SecurityContext := None;
|}.

Definition webuiDeployment : kobject :=
  mkKobject (namespaced (nc_Name cluster +:+ "-webui") "webui")
    (Deployment (mkDeploymentSpec (Some (default 1 (wu_Replicas webui))) (getSelectorLabels "webui")
      (mkPodTemplate (getLabels "webui") webuiPod))).
End webui.
End templates.
