(* ===== verification/CommandLine.v ===== *)
(** * Command lines of the deployed programs
    (src/cmd/novaedge-controller/main.go and src/cmd/novaedge-agent/main.go)

    The operator starts the programs with arguments it builds; the programs read
    them with the [flag] package of Go. This file has that package's parser, the
    flags of the two programs, and what becomes of the operator's arguments. *)

From S2P Require Import Prelude GoStrings ClusterTemplates.
Open Scope Z_scope.
Open Scope go_scope.

(** ** The [flag] package *)

Inductive flag_kind := FlagString | FlagBool | FlagInt | FlagFloat64 | FlagDuration.

Record Flag := mkFlag { fl_Name : string; fl_Kind : flag_kind; fl_Default : string }.

Definition find_flag (flags : list Flag) (name : string) : option Flag := snd <$> list_find (λ f, fl_Name f = name) flags.

(** [strconv.ParseBool] *)
Definition ParseBool (s : string) : option bool :=
  if contains ["1"; "t"; "T"; "true"; "TRUE"; "True"] s then Some true
  else if contains ["0"; "f"; "F"; "false"; "FALSE"; "False"] s then Some false
  else None.

(** What stops the parser: a name that is not declared, a request for help, an
    argument that is only dashes or has no name, a missing and a wrong value. *)
Inductive flag_error :=
  | ErrUndefined (name : string)
  | ErrHelp
  | ErrSyntax (arg : string)
  | ErrNoArgument (name : string)
  | ErrInvalid (name value : string).

(** The form of an argument: [--], which ends the flags, no flag, or a flag with
    what follows its dashes. *)
Inductive arg_shape := EndOfFlags | NotAFlag | NamedFlag (name : string).
Definition shape (s : string) : arg_shape :=
  match s with
  | String "-" (String "-" "") => EndOfFlags
  | String "-" (String "-" name) => NamedFlag name
  | String "-" (String c name) => NamedFlag (String c name)
  | _ => NotAFlag
  end.

Definition bad_name (name : string) : bool :=
  match name with
  | "" => true
  | String c _ => bool_decide (c = "-"%char) || bool_decide (c = "="%char)
  end.

Section flags.
Context (flags : list Flag) (number_ok : flag_kind → string → bool).

(** [Value.Set]: whether the text is a value of the kind; numbers are decided by an
    argument. *)
Definition value_ok (k : flag_kind) (v : string) : bool :=
  match k with
  | FlagString => true
  | FlagBool => match ParseBool v with Some _ => true | None => false end
  | _ => number_ok k v
  end.

Definition set_value (f : Flag) (v : string) (values : gmap string string) : flag_error + gmap string string :=
  if value_ok (fl_Kind f) v then inr (<[fl_Name f := v]> values) else inl (ErrInvalid (fl_Name f) v).

(** [FlagSet.Parse]: the values of the flags that are given and the arguments after
    the flags. *)
Fixpoint Parse (args : list string) (values : gmap string string) : flag_error + gmap string string * list string :=
  match args with
  | [] => inr (values, [])
  | s :: rest =>
      match shape s with
      | NotAFlag => inr (values, args)
      | EndOfFlags => inr (values, rest)
      | NamedFlag name =>
          if bad_name name then inl (ErrSyntax s) else
          let '(name, value, hasValue) := Cut "=" name in
          match find_flag flags name with
          | None => inl (if contains ["help"; "h"] name then ErrHelp else ErrUndefined name)
          | Some f =>
              match fl_Kind f, hasValue, rest with
              | FlagBool, _, _ =>
                  match set_value f (if hasValue then value else "true") values with
                  | inl e => inl e
                  | inr values => Parse rest values
                  end
              | _, true, _ =>
                  match set_value f value values with
                  | inl e => inl e
                  | inr values => Parse rest values
                  end
              | _, false, [] => inl (ErrNoArgument name)
              | _, false, next :: rest =>
                  match set_value f next values with
                  | inl e => inl e
                  | inr values => Parse rest values
                  end
              end
          end
      end
  end.

Definition flag_value (values : gmap string string) (name : string) : string :=
  default (match find_flag flags name with Some f => fl_Default f | None => "" end) (values !! name).

(** ** Reading a flag that is given with its value *)

Lemma find_flag_name name f : find_flag flags name = Some f → fl_Name f = name.
Proof.
  unfold find_flag. destruct (list_find _ flags) as [[i g]|] eqn:E; [|done]. intros [= <-]. by apply list_find_Some in E as (_ & ? & _).
Qed.

Lemma shape_named name s : name ≠ ""%string → bad_name name = false → shape ("--" +:+ name +:+ s) = NamedFlag (name +:+ s).
Proof. by destruct name. Qed.

Lemma Parse_given name v rest values f :
  bad_name name = false → no_char "=" name = true → find_flag flags name = Some f → value_ok (fl_Kind f) v = true →
  Parse (("--" +:+ name +:+ "=" +:+ v) :: rest) values = Parse rest (<[name := v]> values).
Proof using Type.
  intros Hb Hc Hf Hv. assert (name ≠ ""%string) by (by intros ->).
  change ("=" +:+ v) with (String "=" v). cbn [Parse]. rewrite shape_named by done.
  replace (bad_name (name +:+ String "=" v)) with false by (by destruct name). rewrite (Cut_app _ _ _ Hc), Hf.
  unfold set_value. rewrite Hv, (find_flag_name _ _ Hf). by destruct (fl_Kind f).
Qed.

Lemma Parse_undefined name v rest values :
  bad_name name = false → no_char "=" name = true → find_flag flags name = None → contains ["help"; "h"] name = false →
  Parse (("--" +:+ name +:+ "=" +:+ v) :: rest) values = inl (ErrUndefined name).
Proof using Type.
  intros Hb Hc Hf Hh. assert (name ≠ ""%string) by (by intros ->).
  change ("=" +:+ v) with (String "=" v). cbn [Parse]. rewrite shape_named by done.
  replace (bad_name (name +:+ String "=" v)) with false by (by destruct name). by rewrite (Cut_app _ _ _ Hc), Hf, Hh.
Qed.
End flags.

(** ** The programs *)

(** [parseControllerFlags] of the controller. *)
Definition controller_flags : list Flag :=
  [ mkFlag "metrics-bind-address" FlagString ":8080";
    mkFlag "health-probe-bind-address" FlagString ":8081";
    mkFlag "grpc-bind-address" FlagString ":9090";
    mkFlag "grpc-tls-cert" FlagString "";
    mkFlag "grpc-tls-key" FlagString "";
    mkFlag "grpc-tls-ca" FlagString "";
    mkFlag "controller-class" FlagString "novaedge.io/proxy";
    mkFlag "enable-cert-manager" FlagString "auto";
    mkFlag "enable-vault" FlagString "false";
    mkFlag "vault-addr" FlagString "";
    mkFlag "vault-auth-method" FlagString "kubernetes";
    mkFlag "vault-role" FlagString "novaedge";
    mkFlag "mesh-trust-domain" FlagString "cluster.local";
    mkFlag "mesh-ca-enabled" FlagBool "false";
    mkFlag "mesh-ca-key-algorithm" FlagString "ecdsa-p256";
    mkFlag "mesh-ca-cert-lifetime" FlagString "24h";
    mkFlag "mesh-ca-validity" FlagString "87600h";
    mkFlag "federation-id" FlagString "";
    mkFlag "federation-local-member" FlagString "";
    mkFlag "leader-elect" FlagBool "false" ].

(** [parseFlags] of the agent. *)
Definition agent_flags : list Flag :=
  [ mkFlag "node-name" FlagString "";
    mkFlag "controller-address" FlagString "localhost:9090";
    mkFlag "log-level" FlagString "info";
    mkFlag "health-probe-port" FlagInt "9091";
    mkFlag "metrics-port" FlagInt "9090";
    mkFlag "grpc-tls-cert" FlagString "";
    mkFlag "grpc-tls-key" FlagString "";
    mkFlag "grpc-tls-ca" FlagString "";
    mkFlag "cluster-name" FlagString "";
    mkFlag "cluster-region" FlagString "";
    mkFlag "cluster-zone" FlagString "";
    mkFlag "tracing-enabled" FlagBool "false";
    mkFlag "tracing-endpoint" FlagString "localhost:4317";
    mkFlag "tracing-sample-rate" FlagFloat64 "0.1";
    mkFlag "mesh-enabled" FlagBool "false";
    mkFlag "mesh-tproxy-port" FlagInt "15001";
    mkFlag "mesh-tunnel-port" FlagInt "15002";
    mkFlag "mesh-trust-domain" FlagString "cluster.local";
    mkFlag "sdwan-enabled" FlagBool "false";
    mkFlag "novanet-socket" FlagString "/var/run/novanet/ebpf-services.sock";
    mkFlag "dataplane-socket" FlagString "/run/novaedge/dataplane.sock" ].

(** [main] of the agent, up to its first use of the flags: the exit code, or the
    values with which it starts. [others] are the flags that libraries declare. *)
Definition agent_main (others : list Flag) (number_ok : flag_kind → string → bool) (args : list string) : Z + gmap string string :=
  match Parse (agent_flags ++ others) number_ok args ∅ with
  | inl ErrHelp => inl 0
  | inl _ => inl 2
  | inr (values, _) => if str_empty (flag_value (agent_flags ++ others) values "node-name") then inl 1 else inr values
  end.

(** ** The operator's arguments *)

(** The name of a service in the cluster's DNS, with a port. *)
Definition service_address (svc : KMeta) (port : Z) : string :=
  km_Name svc +:+ "." +:+ km_Namespace svc +:+ ".svc.cluster.local:" +:+ format_d port.

Lemma selector_labels c component : getSelectorLabels c component ⊆ getLabels c component.
Proof.
  unfold getSelectorLabels, getLabels. apply map_subseteq_spec. intros k v Hk.
  repeat (apply lookup_insert_Some in Hk as [[<- <-]|[? Hk]]; [by simplify_map_eq|]).
  apply lookup_singleton_Some in Hk as [<- <-]. by simplify_map_eq.
Qed.

(** Reads the flag [name] at the head of the arguments. *)
Ltac given name := etransitivity; [by eapply (Parse_given _ _ name)|].

Lemma controller_address c :
  service_address (ko_Meta (controllerService c)) (controllerGRPCPort c) =
  nc_Name c +:+ "-controller." +:+ nc_Namespace c +:+ ".svc.cluster.local:" +:+ format_d (controllerGRPCPort c).
Proof. unfold service_address. simpl. by rewrite str_app_assoc. Qed.

Lemma find_flag_app flags others name :
  find_flag flags name = None → (name ∉ fl_Name <$> others) → find_flag (flags ++ others) name = None.
Proof.
  unfold find_flag. intros Hf Ho. destruct (list_find _ (flags ++ others)) as [[i f]|] eqn:E; [|done].
  apply list_find_app_Some in E as [E|(_ & _ & E)]; [by rewrite E in Hf|].
  apply list_find_Some in E as (Hi & <- & _). destruct Ho. apply list_elem_of_fmap. exists f. split; [done|]. by eapply list_elem_of_lookup_2.
Qed.

Lemma agent_stops_at_port others number_ok c :
  "http-port"%string ∉ fl_Name <$> others →
  Parse (agent_flags ++ others) number_ok (agentArgs c) ∅ = inl (ErrUndefined "http-port").
Proof.
  intros Ho. given "controller-address". eapply (Parse_undefined _ _ "http-port"); [done|done| |done]. by apply find_flag_app.
Qed.

Ltac controller_flags_given :=
  given "grpc-bind-address"; given "metrics-bind-address"; given "health-probe-bind-address"; try given "leader-elect".


(** The agent does not start with the arguments of the operator, whatever the
    specification: its second argument is a flag the agent does not have. The
    arguments of the user come after it, so they do not help. *)
Theorem agent_refuses_its_arguments (others : list Flag) (number_ok : flag_kind → string → bool) (c : NovaEdgeCluster)
    (Hothers : "http-port"%string ∉ fl_Name <$> others) :
  agent_main others number_ok (agentArgs c) = inl 2.
Proof.
  unfold agent_main. by rewrite agent_stops_at_port.
Qed.

(** ** Examples *)

Definition default_controller : ControllerSpec := mkControllerSpec None "" ∅ [] None None None None None None None None [] [].
Definition default_agent : AgentSpec := mkAgentSpec "" ∅ [] None "" None None None None None None None [] [] [] [] None None.
Definition empty_status : NovaEdgeClusterStatus := mkClusterStatus ClusterPhaseUnset 0 [] None None None "".
Definition edge (namespace name : string) : NovaEdgeCluster :=
  mkNovaEdgeCluster namespace name 1 1 false [] (mkClusterSpec "1.0.0" "" "" [] default_controller default_agent None None None) empty_status.
Definition no_overrides : NovaEdgeClusterReconciler := mkReconciler "" "" "".
Definition no_number (k : flag_kind) (s : string) : bool := false.

Example agent_refuses_its_arguments_witness : agent_main [mkFlag "kubeconfig" FlagString ""] no_number (agentArgs (edge "nova" "edge")) = inl 2.
Proof. apply agent_refuses_its_arguments. vm_compute. by intros Hin%list_elem_of_In; destruct Hin as [Hin|[]]. Defined.

Example controller_arguments :
  controllerArgs (edge "nova" "edge") =
  ["--grpc-bind-address=:9090"; "--metrics-bind-address=:8080"; "--health-probe-bind-address=:8081"; "--leader-elect=true"]%string.
Proof. reflexivity. Qed.

(** Without the unknown flags the agent stops as well: the operator does not give it
    the name of its node. *)
Example agent_has_no_node_name :
  agent_main [] (λ _ _, true) ["--controller-address=edge-controller.nova.svc.cluster.local:9090"; "--metrics-port=9090"] = inl 1.
Proof. reflexivity. Qed.
Example agent_starts_with_a_name :
  agent_main [] (λ _ _, true) ["--node-name"; "n1"; "--mesh-enabled"; "-metrics-port=9090"] =
  inr {[ "node-name" := "n1"; "mesh-enabled" := "true"; "metrics-port" := "9090" ]}.
Proof. reflexivity. Qed.

(** The console's probes speak plain HTTP, also when the console is told to serve
    TLS. *)
Example console_with_tls_is_probed_without :
  let w := mkWebUISpec None None "" ∅ [] None None None None (Some (mkWebUITLSSpec None (Some true) None None)) "" None [] [] in
  "--tls-auto" ∈ webuiArgs w ∧ pb_Scheme (ct_ReadinessProbe (webuiContainer no_overrides (edge "nova" "edge") w)) = "".
Proof. split; [|done]. apply list_elem_of_In. vm_compute. tauto. Qed.

(** ** Permissions *)

(** RBAC: a rule allows a request when it lists its group, resource and verb, or a
    star in their place. *)
Definition rule_allows (group resource verb : string) (rule : PolicyRule) : bool :=
  let lists l x := contains l x || contains l "*" in
  lists (pr_APIGroups rule) group && lists (pr_Resources rule) resource && lists (pr_Verbs rule) verb.
Definition allowed (rules : list PolicyRule) (group resource verb : string) : bool := existsb (rule_allows group resource verb) rules.

(** What the reconcilers of the controller write, beside NovaEdge's own resources:
    the status of Gateway API resources is allowed, but not the finalizer of an
    Ingress nor the secrets of certificates and of the mesh. *)
Example controller_role_is_too_small :
  allowed controllerRules "gateway.networking.k8s.io" "httproutes/status" "update" = true ∧
  allowed controllerRules "networking.k8s.io" "ingresses" "update" = false ∧
  allowed controllerRules "" "secrets" "create" = false.
Proof. done. Qed.
