(* ===== verification/ClusterOperator.v ===== *)
(** * The operator of NovaEdge clusters
    (src/internal/operator/controller/novaedgecluster_controller.go)

    The reconciliation of a [NovaEdgeCluster]: its finalizer, the objects of
    [ClusterTemplates], the status computed from the workloads, and the removal of
    what a deleted cluster leaves. Any call of the API server may fail. *)

From S2P Require Import Prelude KubeApi ClusterTemplates CommandLine.
Open Scope Z_scope.
Open Scope go_scope.

Definition novaEdgeClusterFinalizer : string := "novaedge.io/finalizer".
Definition ConditionTypeReady : string := "Ready".
Definition ConditionTypeControllerOK : string := "ControllerReady".
Definition ConditionTypeAgentOK : string := "AgentReady".
Definition ConditionTypeWebUIOK : string := "WebUIReady".

(** ** The API server *)

(** What the workload controllers report of a Deployment (desired is not used) or a
    DaemonSet; it is written apart from the object. *)
Record WorkloadStatus := mkWorkloadStatus { wl_Desired : Z; wl_Ready : Z; wl_Updated : Z }.

Record world := mkWorld {
  w_clusters : gmap (string * string) NovaEdgeCluster;
  w_objects : gmap kkey kobject;
  w_workloads : gmap kkey WorkloadStatus;
  w_counter : Z;
}.
Definition world_eta (w : world) : world := mkWorld (w_clusters w) (w_objects w) (w_workloads w) (w_counter w).
Definition set_w_clusters : gmap (string * string) NovaEdgeCluster → world → world := ltac:(field_setter world_eta w_clusters).
Definition on_objects (f : gmap kkey kobject → gmap kkey kobject) (w : world) : world :=
  mkWorld (w_clusters w) (f (w_objects w)) (w_workloads w) (w_counter w + 1).

#[local] Notation api := (api world).
#[local] Notation "'do' x <- m ; k" := (bind m (λ x, k)) (at level 199, x name, m at level 100, k at level 199).

Definition set_server_meta (uid rv : option Z) (o : kobject) : kobject :=
  let m := ko_Meta o in
  mkKobject (mkKMeta (km_Name m) (km_Namespace m) (km_Labels m) (km_Annotations m) (km_Owner m) uid rv) (ko_Body o).

Definition Get (k : kkey) : api (option kobject) := call (λ w, (w, w_objects w !! k)).
(** [Create] refuses an object that exists; the server chooses identity and version. *)
Definition Create (o : kobject) : api unit := λ oracle w,
  match w_objects w !! kobj_key o with
  | Some _ => fail oracle w
  | None => let n := Some (w_counter w) in call (λ w, (on_objects <[kobj_key o := set_server_meta n n o]> w, tt)) oracle w
  end.
(** [Update] refuses an object that does not exist or has another version. *)
Definition Update (o : kobject) : api unit := λ oracle w,
  match w_objects w !! kobj_key o with
  | None => fail oracle w
  | Some stored =>
      if decide (km_ResourceVersion (ko_Meta o) = km_ResourceVersion (ko_Meta stored)) then
        call (λ w, (on_objects <[kobj_key o := set_server_meta (km_UID (ko_Meta stored)) (Some (w_counter w)) o]> w, tt)) oracle w
      else fail oracle w
  end.
(** [Delete]; that there is no such object is ignored by the callers. *)
Definition Delete (k : kkey) : api unit := call (λ w, (on_objects (delete k) w, tt)).

(** [controllerutil.SetControllerReference] refuses an object of another namespace
    and one with another owner. *)
Definition SetControllerReference (c : NovaEdgeCluster) (o : kobject) : option kobject :=
  let m := ko_Meta o in
  if negb (str_empty (nc_Namespace c)) && negb (str_eqb (nc_Namespace c) (km_Namespace m)) then None
  else match km_Owner m with
       | Some u => if decide (u = nc_UID c) then Some o else None
       | None => Some (mkKobject (mkKMeta (km_Name m) (km_Namespace m) (km_Labels m) (km_Annotations m) (Some (nc_UID c)) (km_UID m) (km_ResourceVersion m)) (ko_Body o))
       end.

(** ** Writing the objects *)

Definition createOrUpdate (o : kobject) : api unit :=
  do existing <- Get (kobj_key o);
  match existing with
  | None => Create o
  | Some e => Update (set_server_meta (km_UID (ko_Meta o)) (km_ResourceVersion (ko_Meta e)) o)
  end.

(** The end of every function that writes an object of the cluster's namespace. *)
Definition write_owned (c : NovaEdgeCluster) (o : kobject) : api unit :=
  match SetControllerReference c o with
  | None => fail
  | Some o => createOrUpdate o
  end.

Section reconciler.
Context (r : NovaEdgeClusterReconciler).

Definition reconcileControllerServiceAccount (c : NovaEdgeCluster) : api unit := write_owned c (controllerServiceAccount c).
Definition reconcileControllerClusterRole (c : NovaEdgeCluster) : api unit := createOrUpdate (controllerClusterRole c).
Definition reconcileControllerClusterRoleBinding (c : NovaEdgeCluster) : api unit := createOrUpdate (controllerClusterRoleBinding c).
Definition reconcileAgentServiceAccount (c : NovaEdgeCluster) : api unit := write_owned c (agentServiceAccount c).
Definition reconcileAgentClusterRole (c : NovaEdgeCluster) : api unit := createOrUpdate (agentClusterRole c).
Definition reconcileAgentClusterRoleBinding (c : NovaEdgeCluster) : api unit := createOrUpdate (agentClusterRoleBinding c).

Definition reconcileRBAC (c : NovaEdgeCluster) : api unit :=
  do _ <- reconcileControllerServiceAccount c;
  do _ <- reconcileControllerClusterRole c;
  do _ <- reconcileControllerClusterRoleBinding c;
  do _ <- reconcileAgentServiceAccount c;
  do _ <- reconcileAgentClusterRole c;
  do _ <- reconcileAgentClusterRoleBinding c;
  ret tt.

Definition reconcileControllerService (c : NovaEdgeCluster) : api unit := write_owned c (controllerService c).
Definition reconcileControllerDeployment (c : NovaEdgeCluster) : api unit := write_owned c (controllerDeployment r c).
Definition reconcileController (c : NovaEdgeCluster) : api unit :=
  do _ <- reconcileControllerService c; reconcileControllerDeployment c.

Definition reconcileAgent (c : NovaEdgeCluster) : api unit := write_owned c (agentDaemonSet r c).

Definition reconcileWebUIService (c : NovaEdgeCluster) (webui : WebUISpec) : api unit := write_owned c (webuiService c webui).
Definition reconcileWebUIDeployment (c : NovaEdgeCluster) (webui : WebUISpec) : api unit := write_owned c (webuiDeployment r c webui).
Definition reconcileWebUI (c : NovaEdgeCluster) (webui : WebUISpec) : api unit :=
  do _ <- reconcileWebUIService c webui; reconcileWebUIDeployment c webui.

(** ** Status *)

Definition replicasOrDefault (n : option Z) : Z := default 1 n.

(** The status of a Deployment and of a DaemonSet as the API server returns it:
    zeros until a controller reports. *)
Definition get_workload (k : kkey) : api (option (kobject * WorkloadStatus)) :=
  call (λ w, (w, (λ o, (o, default (mkWorkloadStatus 0 0 0) (w_workloads w !! k))) <$> w_objects w !! k)).

Definition deployment_status (version : string) (o : kobject) (s : WorkloadStatus) : option ComponentStatus :=
  match ko_Body o with
  | Deployment d =>
      let replicas := replicasOrDefault (dp_Replicas d) in
      Some (mkComponentStatus (bool_decide (wl_Ready s = replicas)) replicas (wl_Ready s) (wl_Updated s) version)
  | _ => None
  end.
Definition daemonset_status (version : string) (s : WorkloadStatus) : ComponentStatus :=
  mkComponentStatus (bool_decide (wl_Ready s = wl_Desired s)) (wl_Desired s) (wl_Ready s) (wl_Updated s) version.

Definition controller_key (c : NovaEdgeCluster) : kkey := ("Deployment", (nc_Namespace c, nc_Name c +:+ "-controller"))%string.
Definition agent_key (c : NovaEdgeCluster) : kkey := ("DaemonSet", (nc_Namespace c, nc_Name c +:+ "-agent"))%string.
Definition webui_key (c : NovaEdgeCluster) : kkey := ("Deployment", (nc_Namespace c, nc_Name c +:+ "-webui"))%string.

(** The status of a component: replaced when the workload can be read, otherwise the
    one of the last reconciliation. *)
Definition fetch (k : kkey) (status : kobject → WorkloadStatus → option ComponentStatus) (old : option ComponentStatus) : api (option ComponentStatus) :=
  do found <- attempt (get_workload k);
  ret (match found with
       | Some (Some (o, s)) => match status o s with Some st => Some st | None => old end
       | _ => old
       end).

Definition fetchComponentStatuses (c : NovaEdgeCluster) : api NovaEdgeClusterStatus :=
  let st := nc_Status c in
  let version := ns_Version (nc_Spec c) in
  do controller <- fetch (controller_key c) (deployment_status version) (st_Controller st);
  do agent <- fetch (agent_key c) (λ _ s, Some (daemonset_status version s)) (st_Agent st);
  do webui <- (if isWebUIEnabled c then fetch (webui_key c) (deployment_status version) (st_WebUI st) else ret (st_WebUI st));
  ret (set_st_WebUI webui (set_st_Agent agent (set_st_Controller controller st))).

(** [meta.SetStatusCondition]: replaced where it is, with a new transition time when
    the status changes, or added at the end. *)
Fixpoint SetStatusCondition (now : Z) (l : list Condition) (c : Condition) : list Condition :=
  match l with
  | [] => [mkCondition (cd_Type c) (cd_Status c) (cd_ObservedGeneration c) (cd_Reason c) (cd_Message c) now]
  | x :: l =>
      if str_eqb (cd_Type x) (cd_Type c) then
        mkCondition (cd_Type c) (cd_Status c) (cd_ObservedGeneration c) (cd_Reason c) (cd_Message c)
          (if Bool.eqb (cd_Status x) (cd_Status c) then cd_LastTransitionTime x else now) :: l
      else x :: SetStatusCondition now l c
  end.

Definition setComponentCondition (now : Z) (condType : string) (ready : bool) (generation : Z)
    (readyReason notReadyReason readyMsg notReadyMsg : string) (l : list Condition) : list Condition :=
  SetStatusCondition now l
    (mkCondition condType ready generation (if ready then readyReason else notReadyReason) (if ready then readyMsg else notReadyMsg) 0).

Definition component_ready (s : option ComponentStatus) : bool := match s with Some s => co_Ready s | None => false end.

(** The readiness of the components, the phase and the conditions that follow. *)
Definition readiness (c : NovaEdgeCluster) (st : NovaEdgeClusterStatus) : bool * bool * bool :=
  (component_ready (st_Controller st), component_ready (st_Agent st), negb (isWebUIEnabled c) || component_ready (st_WebUI st)).

Definition phase_of (controllerReady agentReady webUIReady : bool) : ClusterPhase :=
  if controllerReady && agentReady && webUIReady then ClusterPhaseRunning
  else if controllerReady || agentReady then ClusterPhaseDegraded
  else ClusterPhaseInitializing.

Definition set_conditions (now : Z) (c : NovaEdgeCluster) (controllerReady agentReady webUIReady : bool) (l : list Condition) : list Condition :=
  let gen := nc_Generation c in
  let l := setComponentCondition now ConditionTypeControllerOK controllerReady gen
             "ControllerReady" "ControllerNotReady" "Controller is ready" "Controller is not ready" l in
  let l := setComponentCondition now ConditionTypeAgentOK agentReady gen
             "AgentReady" "AgentNotReady" "Agent DaemonSet is ready" "Agent DaemonSet is not ready" l in
  let l := if isWebUIEnabled c then
             setComponentCondition now ConditionTypeWebUIOK webUIReady gen
               "WebUIReady" "WebUINotReady" "Web UI is ready" "Web UI is not ready" l
           else l in
  setComponentCondition now ConditionTypeReady (controllerReady && agentReady && webUIReady) gen
    "AllComponentsReady" "SomeComponentsNotReady" "All components are ready" "Some components are not ready" l.

(** [Update] of the resource, which goes with its last finalizer when it is being
    deleted, and [Status().Update]. *)
Definition cluster_key (c : NovaEdgeCluster) : string * string := (nc_Namespace c, nc_Name c).
Definition get_cluster (k : string * string) : api (option NovaEdgeCluster) := call (λ w, (w, w_clusters w !! k)).
Definition put_finalizers (c : NovaEdgeCluster) (l : list string) : api NovaEdgeCluster := call (λ w,
  (set_w_clusters (if nc_Deleting c && bool_decide (l = []) then delete (cluster_key c) (w_clusters w)
                   else <[cluster_key c := set_nc_Finalizers l c]> (w_clusters w)) w, set_nc_Finalizers l c)).
Definition put_status (c : NovaEdgeCluster) (st : NovaEdgeClusterStatus) : api NovaEdgeCluster := call (λ w,
  (set_w_clusters (<[cluster_key c := set_nc_Status st c]> (w_clusters w)) w, set_nc_Status st c)).

Definition new_status (now : Z) (c : NovaEdgeCluster) (st : NovaEdgeClusterStatus) : NovaEdgeClusterStatus :=
  let '(controllerReady, agentReady, webUIReady) := readiness c st in
  set_st_ObservedGeneration (nc_Generation c) (set_st_Version (ns_Version (nc_Spec c))
    (set_st_Phase (phase_of controllerReady agentReady webUIReady)
      (set_st_Conditions (set_conditions now c controllerReady agentReady webUIReady (st_Conditions st)) st))).

Definition updateStatus (now : Z) (c : NovaEdgeCluster) : api unit :=
  do st <- fetchComponentStatuses c;
  do _ <- put_status c (new_status now c st);
  ret tt.

(** ** Deletion *)

(** An object is deleted when it can be read. *)
Definition delete_found (k : kkey) : api unit :=
  do found <- attempt (Get k);
  match found with
  | Some (Some _) => Delete k
  | _ => ret tt
  end.

Definition scoped_name (c : NovaEdgeCluster) (component : string) : string :=
  nc_Namespace c +:+ "-" +:+ nc_Name c +:+ "-" +:+ component.
Definition cleanupResources (c : NovaEdgeCluster) : api unit :=
  do _ <- delete_found ("ClusterRoleBinding", ("", scoped_name c "controller"))%string;
  do _ <- delete_found ("ClusterRoleBinding", ("", scoped_name c "agent"))%string;
  do _ <- delete_found ("ClusterRole", ("", scoped_name c "controller"))%string;
  delete_found ("ClusterRole", ("", scoped_name c "agent"))%string.

(** ** Reconciliation *)

Definition handle_deletion (c : NovaEdgeCluster) : api (option Z) :=
  if contains (nc_Finalizers c) novaEdgeClusterFinalizer then
    do _ <- cleanupResources c;
    do _ <- put_finalizers c (filter (λ f, f ≠ novaEdgeClusterFinalizer) (nc_Finalizers c));
    ret None
  else ret None.

Definition ensure_finalizer (c : NovaEdgeCluster) : api NovaEdgeCluster :=
  if contains (nc_Finalizers c) novaEdgeClusterFinalizer then ret c
  else put_finalizers c (nc_Finalizers c ++ [novaEdgeClusterFinalizer]).
Definition initialize_status (c : NovaEdgeCluster) : api NovaEdgeCluster :=
  if decide (st_Phase (nc_Status c) = ClusterPhaseUnset) then put_status c (set_st_Phase ClusterPhasePending (nc_Status c)) else ret c.

(** The steps whose errors are collected; the result tells whether there were none. *)
Definition reconcile_components (c : NovaEdgeCluster) : api bool :=
  do rbac <- attempt (reconcileRBAC c);
  do controller <- attempt (reconcileController c);
  do agent <- attempt (reconcileAgent c);
  do webui <- attempt (match ns_WebUI (nc_Spec c) with
                       | Some webui => if isWebUIEnabled c then reconcileWebUI c webui else ret tt
                       | None => ret tt
                       end);
  ret (bool_decide (is_Some rbac ∧ is_Some controller ∧ is_Some agent ∧ is_Some webui)).

(** [Reconcile]: the time after which it is repeated, if it is. *)
Definition Reconcile (now : Z) (name : string * string) : api (option Z) :=
  do found <- get_cluster name;
  match found with
  | None => ret None
  | Some c =>
      if nc_Deleting c then handle_deletion c
      else
        do c <- ensure_finalizer c;
        do c <- initialize_status c;
        do ok <- reconcile_components c;
        do _ <- updateStatus now c;
        ret (Some (if (ok : bool) then 60 * Second else 30 * Second))
  end.
End reconciler.

(** ** What a cluster consists of *)

Definition owned (c : NovaEdgeCluster) (o : kobject) : kobject :=
  let m := ko_Meta o in
  mkKobject (mkKMeta (km_Name m) (km_Namespace m) (km_Labels m) (km_Annotations m) (Some (nc_UID c)) (km_UID m) (km_ResourceVersion m)) (ko_Body o).

(** The objects of a cluster: those of its namespace are owned by it. *)
Definition desired (r : NovaEdgeClusterReconciler) (c : NovaEdgeCluster) : list kobject :=
  [ owned c (controllerServiceAccount c); controllerClusterRole c; controllerClusterRoleBinding c;
    owned c (agentServiceAccount c); agentClusterRole c; agentClusterRoleBinding c;
    owned c (controllerService c); owned c (controllerDeployment r c); owned c (agentDaemonSet r c) ]
  ++ match ns_WebUI (nc_Spec c) with
     | Some webui => if isWebUIEnabled c then [owned c (webuiService c webui); owned c (webuiDeployment r c webui)] else []
     | None => []
     end.

(** The objects of the store without what the server adds. *)
Definition erase (o : kobject) : kobject := set_server_meta None None o.
Definition stored (w : world) : gmap kkey kobject := erase <$> w_objects w.
Definition put_objects (l : list kobject) (m : gmap kkey kobject) : gmap kkey kobject := foldl (λ m o, <[kobj_key o := erase o]> m) m l.

(** [w'] is [w] after the objects [l] are written. *)
Definition wrote (l : list kobject) (w w' : world) : Prop :=
  w_clusters w' = w_clusters w ∧ w_workloads w' = w_workloads w ∧ stored w' = put_objects l (stored w).

Lemma wrote_nil w : wrote [] w w.
Proof. done. Qed.
Lemma wrote_app l l' w w' w'' : wrote l w w' → wrote l' w' w'' → wrote (l ++ l') w w''.
Proof.
  intros (Hc & Hw & Hs) (Hc' & Hw' & Hs'). split_and!; [congruence..|]. unfold put_objects in *. by rewrite foldl_app, Hs', Hs.
Qed.

Lemma erase_set u v o : erase (set_server_meta u v o) = erase o.
Proof. done. Qed.
Lemma stored_insert w k o : stored (on_objects <[k := o]> w) = <[k := erase o]> (stored w).
Proof. unfold stored. simpl. apply fmap_insert. Qed.

Lemma object_write_succeeds o w Q : (∀ w', wrote [o] w w' → Q w' tt) → succeeds (createOrUpdate o) w Q.
Proof.
  intros HQ. apply succeeds_bind, succeeds_call. cbn [fst snd]. destruct (w_objects w !! kobj_key o) as [e|] eqn:E.
  - assert (kobj_key (set_server_meta (km_UID (ko_Meta o)) (km_ResourceVersion (ko_Meta e)) o) = kobj_key o) as Hk by done.
    eexists _, tt. split; [unfold Update; rewrite Hk, E, decide_True by done; reflexivity|].
    apply HQ. split_and!; [done..|]. by rewrite stored_insert.
  - eexists _, tt. split; [unfold Create; rewrite E; reflexivity|].
    apply HQ. split_and!; [done..|]. by rewrite stored_insert.
Qed.

Lemma SetControllerReference_fresh c o :
  km_Namespace (ko_Meta o) = nc_Namespace c → km_Owner (ko_Meta o) = None → SetControllerReference c o = Some (owned c o).
Proof.
  intros Hn Ho. unfold SetControllerReference, owned, str_eqb. rewrite Hn, Ho, bool_decide_eq_true_2 by done. by rewrite andb_false_r.
Qed.

Lemma write_owned_succeeds c o w Q :
  km_Namespace (ko_Meta o) = nc_Namespace c → km_Owner (ko_Meta o) = None →
  (∀ w', wrote [owned c o] w w' → Q w' tt) → succeeds (write_owned c o) w Q.
Proof. intros Hn Ho HQ. unfold write_owned. rewrite SetControllerReference_fresh by done. by apply object_write_succeeds. Qed.

(** One more object after those of [l]. *)
Lemma then_write o l w0 w Q :
  wrote l w0 w → (∀ w', wrote (l ++ [o]) w0 w' → Q w' tt) → succeeds (createOrUpdate o) w Q.
Proof. intros Hw HQ. apply object_write_succeeds. intros w' Hw'. apply HQ. by eapply wrote_app. Qed.
Lemma then_write_owned c o l w0 w Q :
  km_Namespace (ko_Meta o) = nc_Namespace c → km_Owner (ko_Meta o) = None →
  wrote l w0 w → (∀ w', wrote (l ++ [owned c o]) w0 w' → Q w' tt) → succeeds (write_owned c o) w Q.
Proof. intros Hn Ho Hw HQ. apply write_owned_succeeds; [done..|]. intros w' Hw'. apply HQ. by eapply wrote_app. Qed.

(** The next object is written; [Hw] says which ones are. *)
Ltac write_next Hw :=
  first [eapply then_write_owned; [done|done|exact Hw|] | eapply then_write; [exact Hw|]]; clear Hw; intros ? Hw.

Lemma reconcile_components_succeeds r c w Q :
  (∀ w', wrote (desired r c) w w' → Q w' true) → succeeds (reconcile_components r c) w Q.
Proof.
  intros HQ. pose proof (wrote_nil w) as Hw. unfold reconcile_components, reconcileRBAC, reconcileController.
  apply succeeds_bind, succeeds_attempt. do 6 (apply succeeds_bind; write_next Hw). apply succeeds_ret.
  apply succeeds_bind, succeeds_attempt, succeeds_bind. do 2 write_next Hw.
  apply succeeds_bind, succeeds_attempt. write_next Hw.
  apply succeeds_bind, succeeds_attempt. unfold desired in HQ.
  destruct (ns_WebUI (nc_Spec c)) as [webui|]; [destruct (isWebUIEnabled c)|].
  1: apply succeeds_bind; do 2 write_next Hw; apply succeeds_ret.
  2,3: apply succeeds_ret, succeeds_ret.
  all: rewrite bool_decide_eq_true_2 by auto; by apply HQ.
Qed.

(** ** The status of a deployed cluster *)

Definition reported (w : world) (k : kkey) : WorkloadStatus := default (mkWorkloadStatus 0 0 0) (w_workloads w !! k).

(** Whether the workloads are up, by the specification and by what is reported. *)
Definition controller_up (c : NovaEdgeCluster) (w : world) : bool :=
  bool_decide (wl_Ready (reported w (controller_key c)) = default 1 (cs_Replicas (ns_Controller (nc_Spec c)))).
Definition agents_up (c : NovaEdgeCluster) (w : world) : bool :=
  bool_decide (wl_Ready (reported w (agent_key c)) = wl_Desired (reported w (agent_key c))).
Definition webui_up (c : NovaEdgeCluster) (w : world) : bool :=
  match ns_WebUI (nc_Spec c) with
  | Some webui => negb (isWebUIEnabled c) || bool_decide (wl_Ready (reported w (webui_key c)) = default 1 (wu_Replicas webui))
  | None => true
  end.

Definition FindStatusCondition (l : list Condition) (t : string) : option Condition := snd <$> list_find (λ x, cd_Type x = t) l.
Definition IsStatusConditionTrue (l : list Condition) (t : string) : bool :=
  match FindStatusCondition l t with Some x => cd_Status x | None => false end.

Lemma SetStatusCondition_find now l x :
  IsStatusConditionTrue (SetStatusCondition now l x) (cd_Type x) = cd_Status x.
Proof.
  unfold IsStatusConditionTrue, FindStatusCondition.
  induction l as [|y l IH]; simpl; [by rewrite decide_True|]. unfold str_eqb. case_bool_decide as Hy; simpl; [by rewrite decide_True|].
  rewrite decide_False by done. destruct (list_find _ (SetStatusCondition now l x)) as [[i z]|]; done.
Qed.

Lemma fetch_succeeds k status old w Q :
  Q w (match w_objects w !! k with
       | Some o => match status o (reported w k) with Some st => Some st | None => old end
       | None => old
       end) → succeeds (fetch k status old) w Q.
Proof.
  intros HQ. apply succeeds_bind, succeeds_attempt, succeeds_call. cbn [fst snd]. apply succeeds_ret.
  by destruct (w_objects w !! k).
Qed.

Lemma put_objects_last l1 o l2 m : (kobj_key o ∉ kobj_key <$> l2) → put_objects (l1 ++ o :: l2) m !! kobj_key o = Some (erase o).
Proof.
  unfold put_objects. rewrite foldl_app. simpl. generalize (foldl (λ m o, <[kobj_key o := erase o]> m) m l1). clear m.
  intros m. assert (∀ n : gmap kkey kobject, n !! kobj_key o = Some (erase o) → (kobj_key o ∉ kobj_key <$> l2) →
    foldl (λ m o, <[kobj_key o := erase o]> m) n l2 !! kobj_key o = Some (erase o)) as H.
  { induction l2 as [|x l2 IH]; [done|]. intros n Hn [Hx Hl]%not_elem_of_cons. simpl. apply IH; [|done]. by rewrite lookup_insert_ne. }
  apply H. by rewrite lookup_insert_eq.
Qed.

Lemma stored_Some w k o : stored w !! k = Some (erase o) → ∃ o', w_objects w !! k = Some o' ∧ ko_Body o' = ko_Body o.
Proof. unfold stored. rewrite lookup_fmap. intros (o' & -> & [= _ _ _ _ _ ->])%fmap_Some. by exists o'. Qed.

Lemma app_ne (a b d : string) : b ≠ d → a +:+ b ≠ a +:+ d.
Proof. intros H E. by apply (inj (String.append a)) in E. Qed.

(** The workloads are in the store after the objects are written. *)
Lemma workload_is_stored l1 o l2 w w' c :
  wrote (l1 ++ owned c o :: l2) w w' → (kobj_key o ∉ kobj_key <$> l2) →
  ∃ o', w_objects w' !! kobj_key o = Some o' ∧ ko_Body o' = ko_Body o.
Proof.
  intros (_ & _ & Hs) Hl. apply (stored_Some w' (kobj_key o) (owned c o)). rewrite Hs. by apply (put_objects_last l1 (owned c o)).
Qed.

(** No key of a list of concrete kinds and suffixes is the given one. *)
Ltac other_keys := cbn; rewrite ?not_elem_of_cons; split_and?; try (by intros [=]); apply not_elem_of_nil.

Lemma controller_is_stored r c w w' :
  wrote (desired r c) w w' → ∃ o, w_objects w' !! controller_key c = Some o ∧ ko_Body o = ko_Body (controllerDeployment r c).
Proof.
  intros Hw. assert (nc_Name c +:+ "-webui" ≠ nc_Name c +:+ "-controller") by (by apply app_ne).
  refine (workload_is_stored [_; _; _; _; _; _; _] _ _ _ _ _ Hw _).
  destruct (ns_WebUI (nc_Spec c)); [destruct (isWebUIEnabled c)|]; other_keys.
Qed.

Lemma agents_are_stored r c w w' :
  wrote (desired r c) w w' → ∃ o, w_objects w' !! agent_key c = Some o ∧ ko_Body o = ko_Body (agentDaemonSet r c).
Proof.
  intros Hw. refine (workload_is_stored [_; _; _; _; _; _; _; _] _ _ _ _ _ Hw _).
  destruct (ns_WebUI (nc_Spec c)); [destruct (isWebUIEnabled c)|]; other_keys.
Qed.

Lemma webui_is_stored r c webui w w' :
  ns_WebUI (nc_Spec c) = Some webui → isWebUIEnabled c = true → wrote (desired r c) w w' →
  ∃ o, w_objects w' !! webui_key c = Some o ∧ ko_Body o = ko_Body (webuiDeployment r c webui).
Proof.
  intros Hu He. unfold desired. rewrite Hu, He. intros Hw.
  refine (workload_is_stored [_; _; _; _; _; _; _; _; _; _] _ _ _ _ _ Hw _). other_keys.
Qed.

(** What a reconciliation writes as the status. *)
Definition status_follows (c : NovaEdgeCluster) (w : world) (st : NovaEdgeClusterStatus) : Prop :=
  st_Phase st = phase_of (controller_up c w) (agents_up c w) (webui_up c w) ∧
  IsStatusConditionTrue (st_Conditions st) ConditionTypeReady = controller_up c w && agents_up c w && webui_up c w ∧
  st_ObservedGeneration st = nc_Generation c ∧ st_Version st = ns_Version (nc_Spec c).

Lemma new_status_follows now c w st :
  readiness c st = (controller_up c w, agents_up c w, webui_up c w) → status_follows c w (new_status now c st).
Proof.
  intros Hr. unfold new_status. rewrite Hr. split_and!; [done| |done|done]. apply SetStatusCondition_find.
Qed.

Lemma updateStatus_succeeds r now c w0 w Q :
  wrote (desired r c) w0 w →
  (∀ st, status_follows c w0 st → Q (set_w_clusters (<[cluster_key c := set_nc_Status st c]> (w_clusters w)) w) tt) →
  succeeds (updateStatus now c) w Q.
Proof.
  intros Hw HQ. apply succeeds_bind. unfold fetchComponentStatuses.
  assert (∀ k, reported w k = reported w0 k) as Hr by (intros k; unfold reported; by destruct Hw as (_ & -> & _)).
  destruct (controller_is_stored _ _ _ _ Hw) as (o1 & E1 & B1). destruct (agents_are_stored _ _ _ _ Hw) as (o2 & E2 & B2).
  apply succeeds_bind, fetch_succeeds. rewrite E1. unfold deployment_status. rewrite B1, Hr. cbn [ko_Body controllerDeployment dp_Replicas].
  apply succeeds_bind, fetch_succeeds. rewrite E2, Hr. apply succeeds_bind.
  destruct (isWebUIEnabled c) eqn:He; [apply fetch_succeeds|apply succeeds_ret].
  - destruct (ns_WebUI (nc_Spec c)) as [webui|] eqn:Hu; [|unfold isWebUIEnabled in He; by rewrite Hu in He].
    destruct (webui_is_stored _ _ _ _ _ Hu He Hw) as (o3 & E3 & B3). rewrite E3, B3, Hr. cbn [ko_Body webuiDeployment dp_Replicas].
    apply succeeds_ret, succeeds_bind, succeeds_call, succeeds_ret, HQ, new_status_follows.
    unfold readiness, webui_up. by rewrite Hu, He.
  - apply succeeds_ret, succeeds_bind, succeeds_call, succeeds_ret, HQ, new_status_follows.
    unfold readiness, webui_up. rewrite He. by destruct (ns_WebUI (nc_Spec c)).
Qed.

(** The two optional writes at the start of a reconciliation leave a cluster with the
    same name, identity and specification, and with the finalizer. *)
Definition same_cluster (c c' : NovaEdgeCluster) : Prop :=
  (nc_Namespace c', nc_Name c', nc_UID c', nc_Generation c', nc_Deleting c', nc_Spec c') =
  (nc_Namespace c, nc_Name c, nc_UID c, nc_Generation c, nc_Deleting c, nc_Spec c).

Lemma same_desired r c c' : same_cluster c c' → desired r c' = desired r c.
Proof. destruct c, c'. unfold same_cluster. simpl. by intros [= -> -> -> -> -> ->]. Qed.
Lemma same_follows c c' w st : same_cluster c c' → status_follows c' w st → status_follows c w st.
Proof. destruct c, c'. unfold same_cluster. simpl. by intros [= -> -> -> -> -> ->]. Qed.

Definition prepared (c : NovaEdgeCluster) (w : world) (w' : world) (c' : NovaEdgeCluster) : Prop :=
  same_cluster c c' ∧ novaEdgeClusterFinalizer ∈ nc_Finalizers c' ∧
  w_clusters w' = <[cluster_key c := c']> (w_clusters w) ∧ w_objects w' = w_objects w ∧ w_workloads w' = w_workloads w.

Lemma same_key c c' : same_cluster c c' → cluster_key c' = cluster_key c.
Proof. unfold cluster_key. by intros [= -> -> _ _ _ _]. Qed.

Lemma put_finalizers_prepares c w :
  nc_Deleting c = false →
  prepared c w (set_w_clusters (if nc_Deleting c && bool_decide (nc_Finalizers c ++ [novaEdgeClusterFinalizer] = [])
                                then delete (cluster_key c) (w_clusters w)
                                else <[cluster_key c := set_nc_Finalizers (nc_Finalizers c ++ [novaEdgeClusterFinalizer]) c]> (w_clusters w)) w)
    (set_nc_Finalizers (nc_Finalizers c ++ [novaEdgeClusterFinalizer]) c).
Proof. intros ->. split_and!; try done. simpl. set_solver. Qed.

Lemma put_status_prepares c w w' c' st :
  prepared c w w' c' → prepared c w (set_w_clusters (<[cluster_key c' := set_nc_Status st c']> (w_clusters w')) w') (set_nc_Status st c').
Proof.
  intros (Hs & Hf & Hc & Ho & Hw). split_and!; [done|done| |done|done]. simpl. by rewrite (same_key _ _ Hs), Hc, insert_insert_eq.
Qed.

Lemma nothing_to_prepare c w :
  w_clusters w !! cluster_key c = Some c → novaEdgeClusterFinalizer ∈ nc_Finalizers c → prepared c w w c.
Proof. intros Hc Hf. split_and!; try done. by rewrite insert_id. Qed.

Lemma finalizer_is_ensured c w Q :
  w_clusters w !! cluster_key c = Some c → nc_Deleting c = false → (∀ w' c', prepared c w w' c' → Q w' c') →
  succeeds (ensure_finalizer c) w Q.
Proof.
  intros Hc Hd HQ. unfold ensure_finalizer, contains. case_bool_decide; [by apply succeeds_ret, HQ, nothing_to_prepare|].
  apply succeeds_call, HQ. by apply put_finalizers_prepares.
Qed.
Lemma initialize_status_succeeds c w0 c0 w Q :
  prepared c0 w0 w c → (∀ w' c', prepared c0 w0 w' c' → Q w' c') → succeeds (initialize_status c) w Q.
Proof.
  intros Hp HQ. unfold initialize_status. case_decide; [|by apply succeeds_ret, HQ].
  apply succeeds_call, HQ. by apply put_status_prepares.
Qed.


(** ** Failing calls *)

Lemma createOrUpdate_stays I o :
  (∀ w o', kobj_key o' = kobj_key o → km_Owner (ko_Meta o') = km_Owner (ko_Meta o) → I w → I (on_objects <[kobj_key o := o']> w)) →
  stays I (createOrUpdate o).
Proof.
  intros HI. apply stays_bind; [by apply stays_call|]. intros [e|] w Hw oracle; [unfold Update|unfold Create].
  - destruct (w_objects w !! _); [|done]. case_decide; [|done]. eapply stays_call; [|exact Hw]. intros w' Hw'. by apply HI.
  - destruct (w_objects w !! _); [done|]. eapply stays_call; [|exact Hw]. intros w' Hw'. by apply HI.
Qed.

Lemma write_owned_stays I c o :
  (∀ w o', kobj_key o' = kobj_key o → km_Owner (ko_Meta o') = Some (nc_UID c) → I w → I (on_objects <[kobj_key o := o']> w)) →
  stays I (write_owned c o).
Proof.
  intros HI. unfold write_owned. destruct (SetControllerReference c o) as [o'|] eqn:E; [|apply stays_fail].
  assert (kobj_key o' = kobj_key o ∧ km_Owner (ko_Meta o') = Some (nc_UID c)) as [Hk Ho].
  { unfold SetControllerReference in E. repeat case_match; by simplify_eq. }
  apply createOrUpdate_stays. by rewrite Hk, Ho.
Qed.

(** The cluster-scoped objects of a cluster. *)
Definition scoped_keys (c : NovaEdgeCluster) : list kkey :=
  [ ("ClusterRoleBinding", ("", scoped_name c "controller")); ("ClusterRoleBinding", ("", scoped_name c "agent"));
    ("ClusterRole", ("", scoped_name c "controller")); ("ClusterRole", ("", scoped_name c "agent")) ]%string.

Section confined.
Context (c : NovaEdgeCluster) (w : world).

(** The keys of the objects a cluster may have, whatever its console. *)
Definition object_keys : list kkey :=
  [ kobj_key (controllerServiceAccount c); kobj_key (controllerClusterRole c); kobj_key (controllerClusterRoleBinding c);
    kobj_key (agentServiceAccount c); kobj_key (agentClusterRole c); kobj_key (agentClusterRoleBinding c);
    ("Service", (nc_Namespace c, nc_Name c +:+ "-controller"))%string; controller_key c; agent_key c;
    ("Service", (nc_Namespace c, nc_Name c +:+ "-webui"))%string; webui_key c ].

Definition outside (w' : world) : Prop := ∀ k, (k ∉ object_keys) → w_objects w' !! k = w_objects w !! k.

(** The objects of others are untouched and the stored resource has the finalizer. *)
Definition guarded (w' : world) : Prop :=
  outside w' ∧ ∃ c', w_clusters w' = <[cluster_key c := c']> (w_clusters w) ∧ novaEdgeClusterFinalizer ∈ nc_Finalizers c'.

Lemma outside_insert k o w' : k ∈ object_keys → outside w' → outside (on_objects <[k := o]> w').
Proof. intros Hk Ho k' Hk'. simpl. rewrite lookup_insert_ne by (by intros ->). by apply Ho. Qed.
Lemma outside_delete k w' : k ∈ object_keys → outside w' → outside (on_objects (delete k) w').
Proof. intros Hk Ho k' Hk'. simpl. rewrite lookup_delete_ne by (by intros ->). by apply Ho. Qed.

Lemma guarded_write o : kobj_key o ∈ object_keys → stays guarded (createOrUpdate o).
Proof. intros Hk. apply createOrUpdate_stays. intros w' o' _ _ [Ho Hc]. split; [by apply outside_insert|done]. Qed.
Lemma guarded_write_owned d o : kobj_key o ∈ object_keys → stays guarded (write_owned d o).
Proof. intros Hk. apply write_owned_stays. intros w' o' _ _ [Ho Hc]. split; [by apply outside_insert|done]. Qed.
Lemma guarded_read {A} (f : world → A) : stays guarded (call (λ w, (w, f w))).
Proof. by apply stays_call. Qed.
#[local] Hint Resolve guarded_write guarded_write_owned guarded_read : stays.

(** [k] is one of the keys of the cluster. *)
Ltac own_key := unfold object_keys; rewrite !elem_of_cons; repeat (first [left; reflexivity|right]).

Lemma guarded_components r : stays guarded (reconcile_components r c).
Proof.
  apply stays_bind; [apply stays_attempt|intros rbac].
  { repeat (apply stays_bind; [first [apply guarded_write_owned|apply guarded_write]; own_key|intros _]). apply stays_ret. }
  apply stays_bind; [apply stays_attempt, stays_bind; [|intros _]; apply guarded_write_owned; own_key|intros controller].
  apply stays_bind; [apply stays_attempt, guarded_write_owned; own_key|intros agent].
  apply stays_bind; [apply stays_attempt|auto with stays].
  destruct (ns_WebUI (nc_Spec c)) as [webui|]; [destruct (isWebUIEnabled c)|]; [|apply stays_ret..].
  apply stays_bind; [|intros _]; apply guarded_write_owned; own_key.
Qed.

Lemma guarded_fetch k status old : stays guarded (fetch k status old).
Proof. apply stays_bind; [apply stays_attempt, guarded_read|auto with stays]. Qed.

Lemma guarded_put_status c' st :
  cluster_key c' = cluster_key c → novaEdgeClusterFinalizer ∈ nc_Finalizers c' → stays guarded (put_status c' st).
Proof.
  intros Hk Hf. apply stays_call. intros w' (Ho & c1 & Hc1 & _). split; [done|]. exists (set_nc_Status st c'). split; [|done].
  simpl. by rewrite Hk, Hc1, insert_insert_eq.
Qed.

Lemma guarded_updateStatus now c' :
  cluster_key c' = cluster_key c → novaEdgeClusterFinalizer ∈ nc_Finalizers c' → stays guarded (updateStatus now c').
Proof.
  intros Hk Hf. apply stays_bind.
  - do 2 (apply stays_bind; [apply guarded_fetch|intros ?]). apply stays_bind; [|auto with stays].
    destruct (isWebUIEnabled c'); [apply guarded_fetch|apply stays_ret].
  - intros st. apply stays_bind; [by apply guarded_put_status|auto with stays].
Qed.

(** During a deletion objects only disappear, and only the cluster-scoped ones;
    the resource is as before, or has lost the finalizer, or is gone. *)
Definition only_removed (w' : world) : Prop :=
  (∀ k, w_objects w' !! k = w_objects w !! k ∨ k ∈ scoped_keys c ∧ w_objects w' !! k = None) ∧
  (w_clusters w' = w_clusters w ∨
   ∀ c', w_clusters w' !! cluster_key c = Some c' → novaEdgeClusterFinalizer ∉ nc_Finalizers c').

(** What the operator leaves alone, and what it guarantees when it writes objects. *)
Definition confined (w' : world) : Prop :=
  outside w' ∧ (∀ k, k ≠ cluster_key c → w_clusters w' !! k = w_clusters w !! k) ∧
  if nc_Deleting c then only_removed w'
  else w_objects w' = w_objects w ∨
    ∃ c', w_clusters w' !! cluster_key c = Some c' ∧ novaEdgeClusterFinalizer ∈ nc_Finalizers c'.

Lemma guarded_confined w' : nc_Deleting c = false → guarded w' → confined w'.
Proof.
  intros Hd (Ho & c' & Hc & Hf). unfold confined. rewrite Hd. split_and!; [done| |].
  - intros k Hk. by rewrite Hc, lookup_insert_ne.
  - right. exists c'. by rewrite Hc, lookup_insert_eq.
Qed.

Lemma prepared_guarded w' c' : prepared c w w' c' → guarded w'.
Proof. intros (_ & Hf & Hc & Ho & _). split; [intros k _; by rewrite Ho|]. by exists c'. Qed.

Lemma scoped_object_keys k : k ∈ scoped_keys c → k ∈ object_keys.
Proof. unfold scoped_keys, object_keys. rewrite !elem_of_cons. unfold scoped_name. cbn. tauto. Qed.

Lemma removed_outside w' :
  (∀ k, w_objects w' !! k = w_objects w !! k ∨ k ∈ scoped_keys c ∧ w_objects w' !! k = None) → outside w'.
Proof. intros H k Hk. destruct (H k) as [|[Hs _]]; [done|]. by apply scoped_object_keys in Hs. Qed.

Lemma deletion_confined : nc_Deleting c = true → triple (handle_deletion c) w (λ w' _, confined w').
Proof.
  intros Hd.
  set (removed := λ w', ∀ k, w_objects w' !! k = w_objects w !! k ∨ k ∈ scoped_keys c ∧ w_objects w' !! k = None).
  assert (∀ w', removed w' → w_clusters w' = w_clusters w → confined w') as Hout.
  { intros w' Ho Hc. unfold confined. rewrite Hd. split_and!; [by apply removed_outside|by rewrite Hc|split; [done|by left]]. }
  unfold handle_deletion. destruct (contains _ _); [|by apply triple_ret, Hout; [left|]].
  apply triple_bind. apply (triple_mono _ _ (λ w' _, removed w' ∧ w_clusters w' = w_clusters w)).
  - assert (∀ k, k ∈ scoped_keys c → stays (λ w', removed w' ∧ w_clusters w' = w_clusters w) (delete_found k)) as Hdel.
    { intros k Hk. apply stays_bind; [by apply stays_attempt, stays_call|]. intros [[o|]|]; try apply stays_ret.
      apply stays_call. intros w' [Ho Hc]. split; [|done]. intros k'. simpl.
      destruct (decide (k = k')) as [<-|Hne]; [right; by rewrite lookup_delete_eq|rewrite lookup_delete_ne by done; apply Ho]. }
    unfold cleanupResources.
    refine (stays_bind _ _ _ (Hdel _ _) (λ _, stays_bind _ _ _ (Hdel _ _) (λ _, stays_bind _ _ _ (Hdel _ _) (λ _, Hdel _ _))) w _);
      [unfold scoped_keys; rewrite !elem_of_cons; tauto..|]. split; [by left|done].
  - intros w' [_|] [Ho Hc]; [|by apply Hout]. apply triple_bind, triple_call; [by apply Hout|]. apply triple_ret. cbn [fst snd].
    unfold confined. rewrite Hd. split_and!; [by apply (removed_outside w')| |split; [done|right]].
    + intros k Hk. simpl. rewrite Hc. case_match; [by rewrite lookup_delete_ne|by rewrite lookup_insert_ne].
    + intros c'. simpl. case_match; [by rewrite lookup_delete_eq|]. rewrite lookup_insert_eq. intros [= <-].
      simpl. rewrite list_elem_of_filter. naive_solver.
Qed.
End confined.

Lemma same_guarded c c' w w' : same_cluster c c' → guarded c' w w' ↔ guarded c w w'.
Proof. destruct c, c'. unfold same_cluster. simpl. by intros [= -> -> -> -> -> ->]. Qed.

(** C18: Whatever calls fail, a reconciliation touches no other resource than its
    own and no object outside the eleven names of its cluster - whoever had
    created the objects of those names before. When the resource is being
    deleted, nothing is written: objects only disappear, and only the four
    cluster-scoped ones, and the resource stays as it was or loses the
    finalizer. Otherwise objects are only changed while the stored resource has
    the finalizer, so that a deletion cannot miss them. *)
Theorem operator_writes_are_confined (r : NovaEdgeClusterReconciler) (now : Z) (w : world) (c : NovaEdgeCluster)
    (Hc : w_clusters w !! cluster_key c = Some c) :
  triple (Reconcile r now (cluster_key c)) w (λ w' _, confined c w w').
Proof.
  assert (confined c w w) as Hw.
  { split_and!; [done|done|]. destruct (nc_Deleting c); [|by left]. split; by left. }
  apply triple_bind, triple_call; [done|]. cbn [fst snd]. rewrite Hc.
  destruct (nc_Deleting c) eqn:Hd; [by apply deletion_confined|].
  apply triple_bind. apply (triple_mono _ _ (λ w' x, match x with Some c' => prepared c w w' c' | None => w' = w end)).
  { unfold ensure_finalizer, contains. case_bool_decide; [by apply triple_ret, nothing_to_prepare|].
    apply triple_call; [done|]. by apply put_finalizers_prepares. }
  intros w1 [c1|]; [|by intros ->]. intros Hp.
  apply triple_bind. apply (triple_mono _ _ (λ w' x, guarded c w w' ∧ match x with Some c' => prepared c w w' c' | None => True end)).
  { unfold initialize_status. case_decide; [apply triple_call|apply triple_ret]; split; try done; eauto using prepared_guarded, put_status_prepares. }
  intros w2 [c2|] [Hg Hp2]; [|by apply guarded_confined]. destruct Hp2 as (Hs & Hf & _).
  apply (triple_mono _ _ (λ w' _, guarded c w w')); [|intros; by apply guarded_confined].
  refine (stays_bind _ _ _ _ (λ ok, stays_bind _ _ _ (guarded_updateStatus _ _ _ _ _ _) (λ _, stays_ret _ _)) _ Hg); [|by apply same_key|done].
  intros s Hs'. apply (triple_mono _ _ (λ s' _, guarded c2 w s')); [|intros s' _; by apply (same_guarded c c2)].
  apply guarded_components. by apply (same_guarded c c2).
Qed.

(** ** Deletion *)

(** The objects of the cluster's namespace are owned by the cluster: every step of
    its reconciliation keeps this, whatever calls fail. *)
Definition owns (c : NovaEdgeCluster) (w : world) : Prop :=
  ∀ k o, k ∈ object_keys c → k.2.1 ≠ ""%string → w_objects w !! k = Some o → km_Owner (ko_Meta o) = Some (nc_UID c).

Lemma owns_insert c k o w : (k.2.1 ≠ ""%string → km_Owner (ko_Meta o) = Some (nc_UID c)) → owns c w → owns c (on_objects <[k := o]> w).
Proof. intros Ho Hw k' o' Hk Hn. simpl. intros [[<- <-]|[_ E]]%lookup_insert_Some; [by apply Ho|by eapply Hw]. Qed.
Lemma owns_write c o : km_Namespace (ko_Meta o) = ""%string → stays (owns c) (createOrUpdate o).
Proof. intros Hn. apply createOrUpdate_stays. intros w o' _ _. by apply owns_insert. Qed.
Lemma owns_write_owned c o : stays (owns c) (write_owned c o).
Proof. apply write_owned_stays. intros w o' _ Ho. by apply owns_insert. Qed.

Lemma components_are_owned r c : stays (owns c) (reconcile_components r c).
Proof.
  repeat first [apply owns_write; done | apply owns_write_owned | apply stays_ret | apply stays_attempt | apply stays_bind; [|intros ?] | case_match].
Qed.

(** What the garbage collector of Kubernetes leaves: objects whose owner is gone are
    removed. *)
Definition alive (w : world) (o : kobject) : Prop :=
  match km_Owner (ko_Meta o) with Some u => map_Exists (λ _ c, nc_UID c = u) (w_clusters w) | None => True end.
#[global] Instance alive_dec w o : Decision (alive w o).
Proof. unfold alive. destruct (km_Owner (ko_Meta o)); apply _. Defined.
Definition collected (w : world) : gmap kkey kobject := filter (λ kv, alive w kv.2) (w_objects w).

Lemma delete_found_succeeds k w Q :
  (∀ w', w_clusters w' = w_clusters w → w_objects w' = delete k (w_objects w) → Q w' tt) → succeeds (delete_found k) w Q.
Proof.
  intros HQ. apply succeeds_bind, succeeds_attempt, succeeds_call. cbn [fst snd].
  destruct (w_objects w !! k) eqn:E; [apply succeeds_call; by apply HQ|]. apply succeeds_ret, HQ; [done|]. by rewrite delete_id.
Qed.

Lemma cleanupResources_succeeds c w Q :
  (∀ w', w_clusters w' = w_clusters w →
     (∀ k, w_objects w' !! k = if decide (k ∈ scoped_keys c) then None else w_objects w !! k) → Q w' tt) →
  succeeds (cleanupResources c) w Q.
Proof.
  intros HQ. apply succeeds_bind, delete_found_succeeds. intros w1 C1 O1. apply succeeds_bind, delete_found_succeeds. intros w2 C2 O2.
  apply succeeds_bind, delete_found_succeeds. intros w3 C3 O3. apply delete_found_succeeds. intros w4 C4 O4.
  apply HQ; [congruence|]. intros k. rewrite O4, O3, O2, O1, !lookup_delete.
  destruct (decide (k ∈ scoped_keys c)) as [Hk|Hk]; unfold scoped_keys in Hk.
  - rewrite !elem_of_cons in Hk. by destruct Hk as [-> |[-> |[-> |[-> |[]%elem_of_nil]]]]; repeat case_decide.
  - rewrite !not_elem_of_cons in Hk. destruct Hk as (?&?&?&?&_). by rewrite !decide_False by done.
Qed.

(** An object of the cluster is without a namespace or owned. *)
Lemma object_keys_cases c k : k ∈ object_keys c → nc_Namespace c ≠ ""%string → k ∈ scoped_keys c ∨ k.2.1 ≠ ""%string.
Proof.
  unfold object_keys, scoped_keys. rewrite !elem_of_cons. intros Hk Hn.
  repeat (destruct Hk as [-> |Hk]; [first [by right | left; rewrite ?elem_of_cons; cbn; unfold scoped_name; tauto]|]).
  by apply elem_of_nil in Hk.
Qed.

(** C19: The deletion of a cluster, in which no call fails, leaves nothing of it.
    Let the resource be in a namespace, have no other finalizer and a UID of its
    own, and let the namespaced objects under the names of the cluster be owned
    by it. Then its resource goes with the finalizer, and after the garbage
    collector has removed the objects whose owner is gone, there is no object
    under the names of the cluster. The reconciliation leaves all objects under
    other names as they are. *)
Theorem deleted_cluster_leaves_nothing (r : NovaEdgeClusterReconciler) (now : Z) (w : world) (c : NovaEdgeCluster)
    (Hc : w_clusters w !! cluster_key c = Some c) (Hd : nc_Deleting c = true) (Hf : nc_Finalizers c = [novaEdgeClusterFinalizer])
    (Hns : nc_Namespace c ≠ ""%string) (Hown : owns c w)
    (Huid : map_Forall (λ k c', nc_UID c' = nc_UID c → k = cluster_key c) (w_clusters w)) :
  succeeds (Reconcile r now (cluster_key c)) w (λ w' again,
    again = None ∧ w_clusters w' = delete (cluster_key c) (w_clusters w) ∧
    (∀ k, k ∈ object_keys c → collected w' !! k = None) ∧
    (∀ k, (k ∉ object_keys c) → w_objects w' !! k = w_objects w !! k)).
Proof.
  apply succeeds_bind, succeeds_call. cbn [fst snd]. rewrite Hc, Hd. unfold handle_deletion, contains. rewrite Hf, bool_decide_eq_true_2 by (by left).
  apply succeeds_bind, cleanupResources_succeeds. intros w1 C1 O1. apply succeeds_bind, succeeds_call, succeeds_ret.
  rewrite Hd. replace (filter _ [novaEdgeClusterFinalizer]) with (@nil string) by done. cbn. rewrite C1. split_and!; [done..| |].
  - intros k Hk. apply map_lookup_filter_None. cbn. rewrite O1. case_decide as Hs; [by left|].
    destruct (w_objects w !! k) as [o|] eqn:E; [right|by left]. intros o' [= <-]. cbn.
    destruct (object_keys_cases _ _ Hk Hns) as [|Hne]; [done|]. unfold alive. rewrite (Hown _ _ Hk Hne E).
    cbn. intros (k' & c' & [Hk' E']%lookup_delete_Some & Hu). apply Hk'. symmetry. by apply (Huid _ _ E').
  - intros k Hk. rewrite O1. case_decide as Hs; [|done]. destruct Hk. revert Hs. unfold scoped_keys, object_keys.
    rewrite !elem_of_cons. unfold scoped_name. cbn. tauto.
Qed.

(** ** Witnesses and examples *)

Definition owns_check (c : NovaEdgeCluster) (w : world) : bool :=
  forallb (λ k, str_empty k.2.1 || match w_objects w !! k with Some o => bool_decide (km_Owner (ko_Meta o) = Some (nc_UID c)) | None => true end)
    (object_keys c).
Lemma owns_check_sound c w : owns_check c w = true → owns c w.
Proof.
  unfold owns_check, str_empty. rewrite forallb_forall. intros H k o Hk Hn E. apply list_elem_of_In in Hk. specialize (H k Hk). simpl in H.
  rewrite bool_decide_eq_false_2 in H by done. rewrite E in H. by apply bool_decide_eq_true in H.
Qed.

Definition with_spec (f : NovaEdgeClusterSpec → NovaEdgeClusterSpec) (c : NovaEdgeCluster) : NovaEdgeCluster :=
  mkNovaEdgeCluster (nc_Namespace c) (nc_Name c) (nc_UID c) (nc_Generation c) (nc_Deleting c) (nc_Finalizers c) (f (nc_Spec c)) (nc_Status c).
Definition with_uid (u : Z) (c : NovaEdgeCluster) : NovaEdgeCluster :=
  mkNovaEdgeCluster (nc_Namespace c) (nc_Name c) u (nc_Generation c) (nc_Deleting c) (nc_Finalizers c) (nc_Spec c) (nc_Status c).
Definition marked (c : NovaEdgeCluster) : NovaEdgeCluster :=
  mkNovaEdgeCluster (nc_Namespace c) (nc_Name c) (nc_UID c) (nc_Generation c) true (nc_Finalizers c) (nc_Spec c) (nc_Status c).

Definition only (c : NovaEdgeCluster) : world := mkWorld {[ cluster_key c := c ]} ∅ ∅ 10.
Definition run (k : string * string) (oracle : list bool) (w : world) : world := (Reconcile no_overrides 0 k oracle w).1.1.
Definition edge_key : string * string := ("nova", "edge")%string.
Definition deployed_edge : world := run edge_key [] (only (edge "nova" "edge")).
(** A change of the resource by a user. *)
Definition user_changes (f : NovaEdgeCluster → NovaEdgeCluster) (k : string * string) (w : world) : world :=
  set_w_clusters (alter f k (w_clusters w)) w.

Example deployed_objects :
  (λ k, km_Owner ∘ ko_Meta <$> w_objects deployed_edge !! k) <$> object_keys (edge "nova" "edge") =
  [Some (Some 1); Some None; Some None; Some (Some 1); Some None; Some None; Some (Some 1); Some (Some 1); Some (Some 1); None; None].
Proof. vm_compute. reflexivity. Qed.


Lemma operator_writes_are_confined_witness :
  let c := edge "nova" "edge" in
  triple (Reconcile no_overrides 0 (cluster_key c)) (only c) (λ w' _, confined c (only c) w').
Proof. exact (operator_writes_are_confined no_overrides 0 (only (edge "nova" "edge")) (edge "nova" "edge") eq_refl). Defined.

Definition deleting_edge : NovaEdgeCluster :=
  default (edge "nova" "edge") (w_clusters (user_changes marked edge_key deployed_edge) !! edge_key).
Lemma deleted_cluster_leaves_nothing_witness :
  let w := user_changes marked edge_key deployed_edge in
  succeeds (Reconcile no_overrides 0 (cluster_key deleting_edge)) w (λ w' again,
    again = None ∧ w_clusters w' = delete (cluster_key deleting_edge) (w_clusters w) ∧
    (∀ k, k ∈ object_keys deleting_edge → collected w' !! k = None) ∧
    (∀ k, (k ∉ object_keys deleting_edge) → w_objects w' !! k = w_objects w !! k)).
Proof.
  apply (deleted_cluster_leaves_nothing no_overrides 0 (user_changes marked edge_key deployed_edge) deleting_edge).
  - vm_compute. reflexivity.
  - vm_compute. reflexivity.
  - vm_compute. reflexivity.
  - vm_compute. discriminate.
  - apply owns_check_sound. vm_compute. reflexivity.
  - assert (w_clusters (user_changes marked edge_key deployed_edge) = {[ edge_key := deleting_edge ]}) as ->.
    { vm_compute. reflexivity. }
    apply map_Forall_singleton. intros _. vm_compute. reflexivity.
Defined.

(** A role that cannot be read during the deletion stays: the error is taken for its
    absence, and the finalizer is removed. *)
Example unread_role_is_left :
  let w := run edge_key [true; true; true; true; true; false] (user_changes marked edge_key deployed_edge) in
  w_clusters w = ∅ ∧ is_Some (collected w !! ("ClusterRole", ("", "nova-edge-controller"))%string).
Proof. vm_compute. split; [reflexivity|by eexists]. Qed.

(** Clusters of different names share their roles; the deletion of one takes the
    permissions of the other. *)
Example names_collide :
  let c := edge "a" "b-c" in
  let d := with_uid 2 (edge "a-b" "c") in
  let w := run (cluster_key d) [] (run (cluster_key c) [] (mkWorld {[ cluster_key c := c; cluster_key d := d ]} ∅ ∅ 10)) in
  let w' := run (cluster_key d) [] (user_changes marked (cluster_key d) w) in
  kobj_key (controllerClusterRoleBinding c) = kobj_key (controllerClusterRoleBinding d) ∧
  is_Some (w_clusters w' !! cluster_key c) ∧ w_objects w' !! kobj_key (controllerClusterRoleBinding c) = None.
Proof. vm_compute. split_and!; [reflexivity|by eexists|reflexivity]. Qed.

(** A console that is no longer wanted keeps running. *)
Definition with_webui (enabled : bool) : NovaEdgeClusterSpec → NovaEdgeClusterSpec := λ s,
  mkClusterSpec (ns_Version s) (ns_ImageRepository s) (ns_ImagePullPolicy s) (ns_ImagePullSecrets s) (ns_Controller s) (ns_Agent s)
    (Some (mkWebUISpec (Some enabled) None "" ∅ [] None None None None None "" None [] [])) (ns_TLS s) (ns_Observability s).
Example disabled_console_stays :
  let w := run edge_key [] (only (with_spec (with_webui true) (edge "nova" "edge"))) in
  let w' := run edge_key [] (user_changes (with_spec (with_webui false)) edge_key w) in
  is_Some (w_objects w !! webui_key (edge "nova" "edge")) ∧ is_Some (w_objects w' !! webui_key (edge "nova" "edge")).
Proof. vm_compute. split; by eexists. Qed.

(** A DaemonSet of which nothing is reported yet counts as ready: zero of zero. *)
Example new_agents_are_ready :
  (λ c, (st_Phase (nc_Status c), component_ready (st_Agent (nc_Status c)))) <$> w_clusters deployed_edge !! edge_key =
  Some (ClusterPhaseDegraded, true).
Proof. vm_compute. reflexivity. Qed.

(** After a change of the version the cluster is running, with the new version in its
    status, before a pod of the new version exists. *)
Definition with_version (v : string) : NovaEdgeClusterSpec → NovaEdgeClusterSpec := λ s,
  mkClusterSpec v (ns_ImageRepository s) (ns_ImagePullPolicy s) (ns_ImagePullSecrets s) (ns_Controller s) (ns_Agent s) (ns_WebUI s) (ns_TLS s) (ns_Observability s).
Example upgrade_is_running_at_once :
  let c := edge "nova" "edge" in
  let w := mkWorld (w_clusters deployed_edge) (w_objects deployed_edge)
             {[ controller_key c := mkWorkloadStatus 1 1 1; agent_key c := mkWorkloadStatus 3 3 3 ]} 50 in
  let w' := run edge_key [] (user_changes (with_spec (with_version "2.0.0")) edge_key w) in
  (λ c, (st_Phase (nc_Status c), st_Version (nc_Status c))) <$> w_clusters w' !! edge_key = Some (ClusterPhaseRunning, "2.0.0"%string).
Proof. vm_compute. reflexivity. Qed.

(** A service account that the user asked not to create is written all the same, and
    one that exists loses its annotations. *)
Definition with_account : NovaEdgeClusterSpec → NovaEdgeClusterSpec := λ s,
  mkClusterSpec (ns_Version s) (ns_ImageRepository s) (ns_ImagePullPolicy s) (ns_ImagePullSecrets s)
    (mkControllerSpec None "" ∅ [] None None None None None (Some (mkServiceAccountSpec (Some false) "mine" ∅)) None None [] [])
    (ns_Agent s) (ns_WebUI s) (ns_TLS s) (ns_Observability s).
Example existing_account_is_replaced :
  let c := with_spec with_account (edge "nova" "edge") in
  let k := ("ServiceAccount", ("nova", "mine"))%string in
  let mine := mkKobject (mkKMeta "mine" "nova" ∅ {[ "role-arn" := "x" ]} None (Some 3) (Some 4)) ServiceAccount in
  let w := run edge_key [] (mkWorld {[ edge_key := c ]} {[ k := mine ]} ∅ 10) in
  (λ o, (km_Owner (ko_Meta o), km_Annotations (ko_Meta o))) <$> w_objects w !! k = Some (Some 1, ∅).
Proof. vm_compute. reflexivity. Qed.
